(* ===== verification/_CoqProject ===== *)
-Q . S2P
Prelude.v
Bytes.v
Orders.v
Resp.v
Externals.v
BlockIds.v
Stripes.v
Codec.v
Records.v
RecordProps.v
StoreHeader.v
MetaStore.v
Commands.v
Disk.v
BlockStream.v
Placement.v
RealDisk.v
Fjall.v
MetaOps.v
StoreProps.v
Accounting.v
Engine.v
BatchSpecs.v
WriteSpecs.v
Chunking.v
Namespaces.v
Handlers.v
ObjectSpecs.v
NsSpecs.v
NsInvariant.v
NsAdmin.v
HandlerSpecs.v
GroupCommit.v
GroupSpecs.v
Uploads.v
UploadSpecs.v
UploadRace.v
Gc.v
Sample.v
RespSample.v
RespProps.v
AccessProps.v
SessionProps.v
RespFindings.v
EngineProps.v
UploadProps.v
GroupProps.v
Report.v
Scrub.v
Passes.v
ScrubSpecs.v
WalkSpecs.v
PassSpecs.v
FsTree.v
ScrubSample.v
ScrubProps.v
Repair.v
FsRepair.v
RepairSpecs.v
PlanSpecs.v
RepairProps.v
Pairing.v
PairingProps.v
Scan.v
Listing.v
ListingProps.v
S3Api.v
S3Props.v
Config.v
ConfigProps.v
Tools.v
ToolProps.v
Connection.v
ConnectionProps.v
