(* ===== verification/Prelude.v ===== *)
(** * A verification of the qss_storage content-addressed block store

    qss_storage keeps objects as lists of deduplicated blocks.  A block is
    named by the hash of its bytes; its record, with a reference count, lives
    in a metadata database, its bytes in a file whose path is made of the name.
    Buckets (s3cas), namespaces (respcas), multipart uploads, a commit station,
    a sweeper and an offline fsck all work on those counts and files.  This
    development models that engine, both databases' interface, the S3 front end,
    the RESP server, the scrub, the repair, the command-line tools and the
    configuration they all read, and proves what they promise each other.  Paths
    below are relative to src/cas-storage/src unless they name another crate.

    ** How the model reads

    Every fallible method is a function of the monad [M S E A] of this file: it
    runs on a state [S] and returns a [result E A] and the state it leaves, an
    error included, since a Rust method that fails has still done what it did.
    [wp m s Q] says that the run of [m] from [s] ends in [Q].  The states are
    [Home] (a database and a disk), [World] (the namespace database, the shared
    database, the disk with the writer's state, the placement counters; Engine.v)
    and [RespWorld] (a [World] and the namespace cache; Namespaces.v).  Integers
    are [Z] with the width as a predicate ([is_u64], [usize_max]) and the
    checked, saturating or wrapping operation the source names.  Strings are
    their UTF-8 bytes, a path is the list of its components, both databases are
    finite maps from (tree, key) to bytes seen through [kv], a file system is a
    finite map from paths to contents seen through [files].

    What is not under src/ is a class with laws, and every law allows the call to
    fail: the fjall database ([Fjall], [FjallLaws]; MemFjall in Fjall.v is an
    instance in which a list of outcomes lets any call fail), std::fs ([StdFs] in
    Disk.v, [ScrubFs] in Scrub.v, [RepairFs] in Repair.v; [Fs] of RealDisk.v,
    FsTree.v and FsRepair.v is the instance), BLAKE3, MD5 and faster_hex
    (Externals.v), Unicode case mapping and lossy decoding (Commands.v),
    MessagePack (Namespaces.v), the RESP2 codec (Resp.v), the stripes' random
    hasher (Stripes.v), toml and humantime (Config.v) and serde_json (Tools.v).
    Between the program's own parts the interfaces are the source's traits:
    [Store] with [StoreLaws] (MetaStore.v) is what the engine assumes of a backend
    and what StoreProps.v proves of fjall; [BlockDiskOps] with [DiskLaws] (Disk.v)
    is what the writer assumes and what StoreProps.v proves of the real
    operations.  The engine's theorems are proved against the classes, so they
    hold for every backend and under every pattern of failures the laws allow.

    ** The files

    - Prelude.v, Bytes.v, Orders.v, Externals.v: the monad and its logic, bytes
      and widths, comparison functions and sorting, the external crates.
    - BlockIds.v (hasher.rs, metastore/block.rs, content_hash.rs), Codec.v and
      Records.v (metastore/codec.rs, object.rs, bucket_meta.rs, upload_record.rs,
      cas/multipart.rs), StoreHeader.v (metastore/store_header.rs): addresses,
      record formats, storage keys, the store header.  RecordProps.v: what the
      record decoders accept.
    - MetaStore.v, MetaOps.v (metastore/traits.rs, meta_store.rs and below,
      store_header/ops.rs), Fjall.v (metastore/stores/fjall.rs and below): the
      metadata layer and its backend; StoreProps.v.
    - Disk.v, RealDisk.v (cas/block_disk.rs and below), Placement.v
      (cas/placement.rs): block files.
    - Engine.v (cas/write_path.rs and below, delete_path.rs, clone_path.rs,
      read_path.rs, buckets.rs, fs.rs): the engine; Accounting.v states its
      invariant [winv], BatchSpecs.v, WriteSpecs.v and ObjectSpecs.v specify its
      operations, EngineProps.v holds the claims.
    - GroupCommit.v (cas/group_commit.rs), GroupSpecs.v, GroupProps.v: the
      commit station.  Stripes.v (cas/stripes.rs): the locks.  Chunking.v and
      BlockStream.v (cas/buffered_byte_stream.rs, byte_stream.rs, block_stream.rs,
      range_request.rs): bytes in and bytes out.
    - Uploads.v (cas/uploads.rs, s3cas/src/api/multipart.rs), Gc.v (cas/gc.rs),
      UploadSpecs.v, UploadRace.v, UploadProps.v: multipart uploads and the
      sweeper; UploadRace.v is the race of completes and aborts for one upload.
    - Resp.v, Commands.v, Namespaces.v, Handlers.v (respcas/src): the wire
      protocol, commands, namespaces, handlers and sessions; NsSpecs.v,
      NsInvariant.v, NsAdmin.v, HandlerSpecs.v, RespProps.v, AccessProps.v,
      SessionProps.v, RespFindings.v.  Connection.v (server.rs, Storage::new of
      storage.rs) opens the store and serves a connection; ConnectionProps.v.
    - Report.v, Scrub.v, Passes.v (scrub.rs, scrub/): the offline scrub;
      ScrubSpecs.v, WalkSpecs.v, PassSpecs.v, ScrubProps.v.
    - Repair.v (scrub/repair.rs, scrub/repair/): the repair; RepairSpecs.v,
      PlanSpecs.v, RepairProps.v.
    - Pairing.v (cas/shared_block_store.rs, scrub/pairing.rs), PairingProps.v:
      opening the shared store and the pairing of its halves.
    - Scan.v (the range iterators of metastore/stores/fjall/tree.rs, cas/buckets.rs
      and the scans of metastore/meta_store/ops.rs), Listing.v (the listings of
      s3cas/src/s3fs.rs), ListingProps.v; S3Api.v (the other requests of s3fs.rs
      and s3cas/src/api/), S3Props.v: the S3 front end behind the s3s trait.
    - Config.v (config.rs, config/error.rs, store_options.rs, the flag
      resolution of s3cas/src/main.rs and respcas/src/main.rs), ConfigProps.v.
    - Tools.v (CasFS::single_namespace of cas/fs.rs, s3cas/src/check.rs,
      retrieve.rs, inspect.rs, qss-storage-fsck/src/main.rs), ToolProps.v.
    - Sample.v, RespSample.v, ScrubSample.v: the small stores on which the
      theorems with hypotheses are applied, each application being the lemma
      named after the theorem with the suffix _witness.

    ** What the theorems show

    The accounting invariant ([winv], Accounting.v) is leakage, never loss: no
    block has more references than its record counts, and the record of every
    healthy block names a file whose bytes hash to its address.  Put, overwrite,
    delete, clone, upload, the multipart claims, the sweeper, the commit station,
    and a repair all preserve it, whatever calls fail (EngineProps, UploadProps,
    GroupProps, RepairProps); the counts are exact where nothing fails.  On top
    of it stand the functional claims: a put is read back, an upload's addresses,
    digest and length are those of the stream, a batch closes all or nothing, a
    usage counter is the sum of its objects.

    The S3 front end: a GET serves the bytes, window, length and tag of the PUT
    of its key, whatever the object's form, no request loses a block, and a
    listing followed to its end shows every key and every rolled-up prefix once
    (S3Props, ListingProps).

    The read side: a read resolves only to files with the right bytes; a stream
    serves exactly the requested window under every schedule of short reads, and a
    verifying one serves only intact blocks (BlockStream.v); block boundaries do
    not depend on framing (Chunking.v).  Concurrency: stripes exclude and cannot
    deadlock (Stripes.v), of any completes and aborts of an upload at most one
    wins and the later ones change nothing, and the station serves batches in
    order.  Formats: round trips and exact refusals of every record, header and
    command; a record decoder accepts the encodings of well-typed records and
    nothing else (RecordProps). Interfaces: the fjall backend and the real disk
    operations implement the laws the engine uses.  The RESP server: content
    addressing as an invariant of every command, rights, write protection, quotas,
    complete paging, and a connection whose answers do not depend on how its bytes
    were framed.

    Fsck: the recount and the dangling sweep report exactly what is wrong, a
    report without findings certifies the store, an exit code below CRITICAL
    bounds what can be wrong (ScrubProps); a repair moves counts only to the
    truth, adopts only bytes it hashed, loses nothing of a sound store but the
    file of a block that its report wrongly calls corrupt, and its exit code
    certifies the store it leaves (RepairProps).  Opening pairs the two halves of
    a store by the steps of a protocol that never tears them apart, and the
    re-pair verb makes a refused store open again (PairingProps).  The exit code
    of the fsck binary is the contract its users script against: what opening,
    [--re-pair] and [--repair] may write, each in its place, and what the codes
    certify; a write of the standard output may be cut short at any byte, as
    [emit] passes over it; and [s3cas check] passes an object only on intact
    blocks and a matching digest (ToolProps).  A configuration loads exactly when
    no setting is wrong, a refusal names the file or the setting, and what loads
    is one every server and tool can run; a flag wins over the file and the file
    over the default (ConfigProps).

    RespFindings.v and the ends of RepairProps.v, ListingProps.v, S3Props.v,
    UploadProps.v, ToolProps.v and ConnectionProps.v evaluate behaviour that the
    code's documentation does not lead one to expect.

    ** Fuel and bounds

    A loop of the source that is not structural runs on fuel, and the theorems
    say how much is enough.  The scrub's and the repair's walks over a tree need
    more fuel than the database has pairs ([fuel_for] in ScrubSpecs.v), the disk
    walk more than the longest path below the data root has components (the
    field [sb_depth] of [scrubbable] in PassSpecs.v); with that much they return,
    and every scrub and repair claim assumes no more than [scrubbable].  The
    search for a free quarantine name ends because the names it tries are
    distinct and the files finitely many ([first_free] in RepairSpecs.v).  The
    sweeper's and the abort's loops log an iterator's error and go on, and do not
    end while it persists (a finding of the manifest): what they come to is a
    [Run] (Uploads.v), ended or still going with the reads that have failed so
    far, their claims hold of both, and one still going has had at least as many
    failed reads as its fuel exceeds the rows it walks.  The loops of
    BlockStream.v, Stripes.v and GroupCommit.v are step relations or step
    functions whose runs are bounded by stated counts.  The counts of a request
    stay below [usize_max] by the hypothesis [budget] (WriteSpecs.v); the
    collision counter of quarantine names is taken not to wrap its 32 bits.

    ** Atomicity, and what is not modelled

    A closure run by spawn_blocking under its stripes, and a transaction, is one
    atomic step; Stripes.v justifies it by proving the exclusion, and the frame
    [F] of the invariant stands for the references other requests hold meanwhile.
    A crash is a run that stops: as every claim about a fallible operation also
    covers the states its failures leave, what is written before the failing call
    is covered too, but losing unsynced writes is not: fsync calls are made in
    order and can fail, and do not change the contents.

    Not modelled, because they hold no state of the store or are another
    program's: the tokio tasks, timers and channels around the modelled steps,
    metrics and log lines, sockets and the accept loops of both servers, the HTTP,
    XML and signature checks of s3s, the parsing of command lines by clap, the
    serde derives, the disk usage figures of inspect.rs, the file that
    [s3cas retrieve] writes, the load generator, tests and fixtures.

    Texts of [OtherDBError] are shortened where no theorem and no report quotes
    them.  The law of [is_file] excludes a transient failure of stat, which Rust's
    is_file reads as absence. *)

From stdpp Require Export base gmap list list_numbers strings fin_maps sorting.
From stdpp Require Import options.
From Stdlib Require Export ZArith Lia.

#[global] Open Scope Z_scope.

(* ------------------------------------------------------------------ *)
(** * Fallible computations: [Result<A, E>] *)

Inductive result (E A : Type) : Type :=
| Ok (a : A)
| Err (e : E).
Arguments Ok {E A} a.
Arguments Err {E A} e.

#[global] Instance result_eq_dec `{EqDecision E, EqDecision A} :
  EqDecision (result E A).
Proof. solve_decision. Defined.

#[global] Instance result_ret E : MRet (result E) := fun A a => Ok a.
#[global] Instance result_bind E : MBind (result E) :=
  fun A B f r => match r with Ok a => f a | Err e => Err e end.
#[global] Instance result_fmap E : FMap (result E) :=
  fun A B f r => match r with Ok a => Ok (f a) | Err e => Err e end.

Definition map_err {E E' A} (f : E -> E') (r : result E A) : result E' A :=
  match r with Ok a => Ok a | Err e => Err (f e) end.

Definition ok_or {E A} (o : option A) (e : E) : result E A :=
  match o with Some a => Ok a | None => Err e end.

Definition is_ok {E A} (r : result E A) : bool :=
  match r with Ok _ => true | Err _ => false end.

(* ------------------------------------------------------------------ *)
(** * Stateful fallible computations: methods on [&mut self] *)

(** [M S E A]: runs on a state of type [S] and returns [Result<A, E>]
    together with the state it leaves behind.  An error does not undo the
    writes made before it, exactly as an early return does not in Rust. *)
Definition M (S E A : Type) : Type := S -> result E A * S.

Section Monad.
Context {S E : Type}.

Definition M_ret {A} (a : A) : M S E A := fun s => (Ok a, s).

Definition M_bind {A B} (f : A -> M S E B) (m : M S E A) : M S E B :=
  fun s => match m s with
           | (Ok a, s') => f a s'
           | (Err e, s') => (Err e, s')
           end.

Definition M_err {A} (e : E) : M S E A := fun s => (Err e, s).

(** [r?]: lifts a pure [Result]. *)
Definition M_lift {A} (r : result E A) : M S E A := fun s => (r, s).

Definition M_get : M S E S := fun s => (Ok s, s).

(** A method body written out on the state. *)
Definition M_run {A} (f : S -> result E A * S) : M S E A := f.

(** [m] with its [Result] inspected by the caller ([match m { .. }]). *)
Definition M_try {A} (m : M S E A) : M S E (result E A) :=
  fun s => let '(r, s') := m s in (Ok r, s').

(** [for x in l { f(x)? }]: stops at the first error. *)
Fixpoint M_iter {A} (f : A -> M S E unit) (l : list A) : M S E unit :=
  match l with
  | [] => M_ret tt
  | x :: l' => M_bind (fun _ => M_iter f l') (f x)
  end.

(** [l.iter().map(f).collect::<Result<Vec<_>, _>>()]. *)
Fixpoint M_map {A B} (f : A -> M S E B) (l : list A) : M S E (list B) :=
  match l with
  | [] => M_ret []
  | x :: l' => M_bind (fun y => M_bind (fun ys => M_ret (y :: ys)) (M_map f l')) (f x)
  end.
End Monad.

#[global] Instance M_MRet S E : MRet (M S E) := fun A => M_ret.
#[global] Instance M_MBind S E : MBind (M S E) := fun A B => M_bind.
#[global] Typeclasses Opaque M.

(** * A small program logic: postconditions of a run *)

(** [wp m s Q]: running [m] from [s] ends with a result and a state that
    satisfy [Q]. *)
Definition wp {S E A} (m : M S E A) (s : S) (Q : result E A -> S -> Prop) : Prop :=
  Q (m s).1 (m s).2.

Section Wp.
Context {S E : Type}.
Implicit Types s : S.

Lemma wp_intro {A} (m : M S E A) s Q r s' :
  m s = (r, s') -> Q r s' -> wp m s Q.
Proof. unfold wp. by intros ->. Qed.

Lemma wp_elim {A} (m : M S E A) s Q r s' :
  wp m s Q -> m s = (r, s') -> Q r s'.
Proof. unfold wp. intros H Hm. by rewrite Hm in H. Qed.

(** A run known to succeed. *)
Lemma wp_ok {A} (m : M S E A) s Q :
  wp m s Q -> is_ok (m s).1 = true -> exists a s', m s = (Ok a, s') /\ Q (Ok a) s'.
Proof. unfold wp. destruct (m s) as [[a|e] s']; simpl; [eauto|done]. Qed.

Lemma wp_mono {A} (m : M S E A) s (Q Q' : result E A -> S -> Prop) :
  wp m s Q -> (forall r s', Q r s' -> Q' r s') -> wp m s Q'.
Proof. unfold wp. eauto. Qed.

Lemma wp_ret {A} (a : A) s Q : Q (Ok a) s -> wp (mret a : M S E A) s Q.
Proof. done. Qed.

Lemma wp_err {A} (e : E) s Q : Q (Err e) s -> wp (M_err e : M S E A) s Q.
Proof. done. Qed.

Lemma wp_lift {A} (r : result E A) s Q : Q r s -> wp (M_lift r) s Q.
Proof. done. Qed.

Lemma wp_bind {A B} (m : M S E A) (k : A -> M S E B) s Q :
  wp m s (fun r s' => match r with
                      | Ok a => wp (k a) s' Q
                      | Err e => Q (Err e) s'
                      end) ->
  wp (m ≫= k) s Q.
Proof.
  unfold wp, mbind, M_MBind, M_bind.
  destruct (m s) as [[a|e] s'] eqn:Em; simpl; done.
Qed.

Lemma wp_try {A} (m : M S E A) s Q :
  wp m s (fun r s' => Q (Ok r) s') -> wp (M_try m) s Q.
Proof. unfold wp, M_try. by destruct (m s). Qed.

Lemma wp_iter {A} (f : A -> M S E unit) (l : list A)
    (I : S -> Prop) (Q : result E unit -> S -> Prop) s :
  I s ->
  (forall s, I s -> Q (Ok tt) s) ->
  (forall x s, x ∈ l -> I s ->
     wp (f x) s (fun r s' => match r with Ok _ => I s' | Err e => Q (Err e) s' end)) ->
  wp (M_iter f l) s Q.
Proof.
  intros HI HQ. revert s HI. induction l as [|x l IH]; intros s HI Hstep; simpl.
  - apply wp_ret. by apply HQ.
  - apply wp_bind. eapply wp_mono; [apply Hstep; [set_solver|done]|].
    intros [[]|e] s'; [|done]. intros HI'. apply IH; [done|].
    intros y s'' Hy. apply Hstep. set_solver.
Qed.
End Wp.

(** [wp_step H]: consume the head of a sequence with the specification [H]. *)
Ltac wp_step H := apply wp_bind; eapply wp_mono; [eapply H | cbn beta iota].

(* ------------------------------------------------------------------ *)
(** * Machine integers *)

Definition u8_max : Z := 2 ^ 8 - 1.
Definition u64_max : Z := 2 ^ 64 - 1.
(** The supported targets have a 64-bit [usize]. *)
Definition usize_max : Z := 2 ^ 64 - 1.
Definition i64_min : Z := - 2 ^ 63.
Definition i64_max : Z := 2 ^ 63 - 1.

Definition is_u8 (z : Z) : Prop := 0 <= z <= u8_max.
Definition is_u64 (z : Z) : Prop := 0 <= z <= u64_max.
Definition is_usize (z : Z) : Prop := 0 <= z <= usize_max.
Definition is_i64 (z : Z) : Prop := i64_min <= z <= i64_max.

#[global] Instance is_u8_dec z : Decision (is_u8 z).
Proof. unfold is_u8. apply _. Defined.
#[global] Instance is_u64_dec z : Decision (is_u64 z).
Proof. unfold is_u64. apply _. Defined.
#[global] Instance is_usize_dec z : Decision (is_usize z).
Proof. unfold is_usize. apply _. Defined.
#[global] Instance is_i64_dec z : Decision (is_i64 z).
Proof. unfold is_i64. apply _. Defined.

(** Release-profile arithmetic wraps. *)
Definition wrap_u64 (z : Z) : Z := z mod 2 ^ 64.

(** Two's complement reinterpretation, [x as i64] and [x as u64]. *)
Definition as_i64 (z : Z) : Z :=
  let w := z mod 2 ^ 64 in if w <? 2 ^ 63 then w else w - 2 ^ 64.
Definition as_u64 (z : Z) : Z := z mod 2 ^ 64.

Definition checked_add (a b : Z) : option Z :=
  if a + b <=? usize_max then Some (a + b) else None.
Definition checked_mul (a b : Z) : option Z :=
  if a * b <=? usize_max then Some (a * b) else None.
Definition saturating_add_u64 (a b : Z) : Z := Z.min (a + b) u64_max.
Definition saturating_sub_i64 (a b : Z) : Z := Z.max i64_min (Z.min i64_max (a - b)).

Ltac int_bounds :=
  unfold is_u8, is_u64, is_usize, is_i64, u8_max, u64_max, usize_max,
    i64_min, i64_max in *.

Lemma as_i64_as_u64 z : is_i64 z -> as_i64 (as_u64 z) = z.
Proof.
  intros Hz. int_bounds. unfold as_i64, as_u64.
  rewrite Zmod_mod. destruct (decide (0 <= z)) as [H0|H0].
  - rewrite Z.mod_small by lia. destruct (Z.ltb_spec z (2 ^ 63)); lia.
  - replace (z mod 2 ^ 64) with (z + 2 ^ 64).
    + destruct (Z.ltb_spec (z + 2 ^ 64) (2 ^ 63)); lia.
    + apply (Zmod_unique _ _ (-1)); lia.
Qed.

Lemma as_i64_range z : is_i64 (as_i64 z).
Proof.
  int_bounds. unfold as_i64.
  pose proof (Z.mod_pos_bound z (2 ^ 64) ltac:(lia)).
  destruct (Z.ltb_spec (z mod 2 ^ 64) (2 ^ 63)); lia.
Qed.

Lemma as_u64_as_i64 z : is_u64 z -> as_u64 (as_i64 z) = z.
Proof.
  intros Hz. int_bounds. unfold as_i64, as_u64.
  rewrite (Z.mod_small z) by lia.
  destruct (Z.ltb_spec z (2 ^ 63)); [rewrite Z.mod_small by lia; lia|].
  symmetry. apply (Zmod_unique _ _ (-1)); lia.
Qed.

Lemma as_u64_inj a b : is_i64 a -> is_i64 b -> as_u64 a = as_u64 b -> a = b.
Proof.
  intros Ha Hb Hab. rewrite <- (as_i64_as_u64 a), <- (as_i64_as_u64 b) by done.
  by rewrite Hab.
Qed.

(* ------------------------------------------------------------------ *)
(** * Counting occurrences *)

Section Occurrences.
Context {A : Type} `{EqDecision A}.

(** How many times [x] occurs in [l]: one reference per occurrence. *)
Fixpoint occ (x : A) (l : list A) : nat :=
  match l with
  | [] => 0
  | y :: l' => (if decide (x = y) then 1 else 0) + occ x l'
  end.

Lemma occ_app x l k : occ x (l ++ k) = (occ x l + occ x k)%nat.
Proof. induction l as [|y l IH]; simpl; [done|]. rewrite IH. lia. Qed.

Lemma occ_cons_eq x l : occ x (x :: l) = S (occ x l).
Proof. simpl. by rewrite decide_True. Qed.

Lemma occ_cons_ne x y l : x <> y -> occ x (y :: l) = occ x l.
Proof. intros. simpl. by rewrite decide_False. Qed.

Lemma occ_zero x l : x ∉ l -> occ x l = 0%nat.
Proof.
  induction l as [|y l IH]; [done|]. intros [Hxy Hl]%not_elem_of_cons.
  simpl. by rewrite decide_False, IH.
Qed.

Lemma occ_pos x l : x ∈ l -> (1 <= occ x l)%nat.
Proof.
  induction l as [|y l IH]; [by intros ?%elem_of_nil|].
  intros [->|Hl]%elem_of_cons; simpl; [rewrite decide_True by done; lia|].
  specialize (IH Hl). lia.
Qed.

Lemma occ_elem x l : (1 <= occ x l)%nat -> x ∈ l.
Proof. intros Ho. destruct (decide (x ∈ l)) as [|Hn]; [done|]. rewrite occ_zero in Ho by done. lia. Qed.

Lemma occ_length x l : (occ x l <= length l)%nat.
Proof. induction l as [|y l IH]; simpl; [lia|]. destruct (decide _); lia. Qed.

Lemma occ_perm x l k : l ≡ₚ k -> occ x l = occ x k.
Proof. induction 1; simpl; lia. Qed.
End Occurrences.

(* ------------------------------------------------------------------ *)
(** * Lists *)

Lemma take_drop_eq {A} n (l : list A) : take n l ++ drop n l = l.
Proof. apply take_drop. Qed.

Lemma app_inj_length {A} (a b c d : list A) :
  length a = length b -> a ++ c = b ++ d -> a = b /\ c = d.
Proof. intros Hl Happ. by apply app_inj_1. Qed.

(** Sum of a function over a list. *)
Definition sum_with {A} (f : A -> nat) (l : list A) : nat :=
  sum_list_with f l.

Lemma sum_with_app {A} (f : A -> nat) l k :
  sum_with f (l ++ k) = (sum_with f l + sum_with f k)%nat.
Proof. apply sum_list_with_app. Qed.

Create HintDb qss discriminated.
#[export] Hint Resolve wp_ret wp_err wp_lift : qss.
#[export] Hint Resolve as_i64_range : qss.
