(* ===== verification/Bytes.v ===== *)
(** Bytes and the fixed-width integers the on-disk formats are made of:
    little- and big-endian encodings ([to_le_bytes], [from_le_bytes],
    [to_be_bytes]), UTF-8 validation ([String::from_utf8]) and the
    lexicographic order of byte strings.  Rust strings are represented by
    their UTF-8 bytes. *)

From S2P Require Import Prelude.
From Stdlib Require Import Strings.Byte.

Abbreviation byte := Byte.byte.
Abbreviation bytes := (list Byte.byte).

#[global] Instance byte_eq_dec : EqDecision byte := Byte.byte_eq_dec.

#[global] Instance byte_countable : Countable byte :=
  inj_countable Byte.to_N Byte.of_N Byte.of_to_N.

(** A string literal of the source, as bytes. *)
Definition str (s : string) : bytes := String.list_byte_of_string s.

(* ------------------------------------------------------------------ *)
(** * One byte as an integer *)

Definition byte_to_Z (b : byte) : Z := Z.of_N (Byte.to_N b).

(** [z as u8]. *)
Definition byte_of_Z (z : Z) : byte :=
  default Byte.x00 (Byte.of_N (Z.to_N (z mod 256))).

Lemma byte_to_Z_range b : 0 <= byte_to_Z b < 256.
Proof. unfold byte_to_Z. pose proof (Byte.to_N_bounded b). lia. Qed.

Lemma byte_to_of_Z z : byte_to_Z (byte_of_Z z) = z mod 256.
Proof.
  unfold byte_to_Z, byte_of_Z.
  pose proof (Z.mod_pos_bound z 256 ltac:(lia)) as Hz.
  destruct (Byte.of_N _) as [b|] eqn:Hb; simpl.
  - apply Byte.to_of_N in Hb. rewrite Hb. lia.
  - apply Byte.of_N_None_iff in Hb. lia.
Qed.

Lemma byte_of_to_Z b : byte_of_Z (byte_to_Z b) = b.
Proof.
  unfold byte_of_Z. rewrite Z.mod_small by apply byte_to_Z_range.
  unfold byte_to_Z. rewrite N2Z.id, Byte.of_to_N. done.
Qed.

Lemma byte_to_Z_inj a b : byte_to_Z a = byte_to_Z b -> a = b.
Proof. intros H. by rewrite <- (byte_of_to_Z a), H, byte_of_to_Z. Qed.

(* ------------------------------------------------------------------ *)
(** * Little-endian integers *)

(** The [n] low bytes of [z], least significant first. *)
Fixpoint to_le (n : nat) (z : Z) : bytes :=
  match n with
  | O => []
  | S n' => byte_of_Z z :: to_le n' (z / 256)
  end.

Fixpoint of_le (bs : bytes) : Z :=
  match bs with
  | [] => 0
  | b :: bs' => byte_to_Z b + 256 * of_le bs'
  end.

Definition u64_to_le (z : Z) : bytes := to_le 8 z.
Definition u16_to_le (z : Z) : bytes := to_le 2 z.
Definition i64_to_le (z : Z) : bytes := to_le 8 (as_u64 z).
Definition u64_from_le (bs : bytes) : Z := of_le bs.
Definition u16_from_le (bs : bytes) : Z := of_le bs.
Definition i64_from_le (bs : bytes) : Z := as_i64 (of_le bs).
Definition u64_to_be (z : Z) : bytes := rev (to_le 8 z).

Lemma length_to_le n z : length (to_le n z) = n.
Proof. revert z. induction n as [|n IH]; intros z; simpl; [done|]. by rewrite IH. Qed.

Lemma of_to_le n z : of_le (to_le n z) = z mod 256 ^ Z.of_nat n.
Proof.
  revert z. induction n as [|n IH]; intros z; simpl to_le; simpl of_le.
  - by rewrite Z.mod_1_r.
  - rewrite IH, byte_to_of_Z, Nat2Z.inj_succ, Z.pow_succ_r by lia.
    rewrite Z.rem_mul_r by lia. done.
Qed.

Lemma of_le_range bs : 0 <= of_le bs < 256 ^ Z.of_nat (length bs).
Proof.
  induction bs as [|b bs IH]; simpl of_le; simpl length; [lia|].
  rewrite Nat2Z.inj_succ, Z.pow_succ_r by lia.
  pose proof (byte_to_Z_range b). lia.
Qed.

Lemma to_of_le bs : to_le (length bs) (of_le bs) = bs.
Proof.
  induction bs as [|b bs IH]; simpl; [done|].
  assert (byte_of_Z (byte_to_Z b + 256 * of_le bs) = b) as ->.
  { rewrite <- (byte_of_to_Z b) at 2. unfold byte_of_Z.
    by rewrite (Z.mul_comm 256), Z_mod_plus_full. }
  assert ((byte_to_Z b + 256 * of_le bs) / 256 = of_le bs) as ->.
  { pose proof (byte_to_Z_range b).
    rewrite (Z.mul_comm 256), Z.div_add, (Z.div_small (byte_to_Z b)) by lia. lia. }
  by rewrite IH.
Qed.

Lemma to_le_inj n a b :
  0 <= a < 256 ^ Z.of_nat n -> 0 <= b < 256 ^ Z.of_nat n ->
  to_le n a = to_le n b -> a = b.
Proof.
  intros Ha Hb H. apply (f_equal of_le) in H.
  rewrite !of_to_le, !Z.mod_small in H by lia. done.
Qed.

Lemma u64_le_roundtrip z : is_u64 z -> u64_from_le (u64_to_le z) = z.
Proof.
  intros Hz. unfold u64_from_le, u64_to_le. rewrite of_to_le.
  apply Z.mod_small. int_bounds. simpl. lia.
Qed.

Lemma u16_le_roundtrip z : 0 <= z < 2 ^ 16 -> u16_from_le (u16_to_le z) = z.
Proof.
  intros Hz. unfold u16_from_le, u16_to_le. rewrite of_to_le.
  apply Z.mod_small. simpl. lia.
Qed.

Lemma as_u64_range z : is_u64 (as_u64 z).
Proof.
  unfold as_u64. int_bounds. pose proof (Z.mod_pos_bound z (2 ^ 64) ltac:(lia)). lia.
Qed.

Lemma i64_le_roundtrip z : is_i64 z -> i64_from_le (i64_to_le z) = z.
Proof.
  intros Hz. unfold i64_from_le, i64_to_le.
  rewrite of_to_le, Z.mod_small; [by apply as_i64_as_u64|].
  pose proof (as_u64_range z) as H. int_bounds. simpl. lia.
Qed.

Lemma u64_to_le_inj a b : is_u64 a -> is_u64 b -> u64_to_le a = u64_to_le b -> a = b.
Proof. intros Ha Hb. apply to_le_inj; int_bounds; simpl; lia. Qed.

Lemma length_u64_to_le z : length (u64_to_le z) = 8%nat.
Proof. apply length_to_le. Qed.
Lemma length_i64_to_le z : length (i64_to_le z) = 8%nat.
Proof. apply length_to_le. Qed.
Lemma length_u16_to_le z : length (u16_to_le z) = 2%nat.
Proof. apply length_to_le. Qed.
Lemma length_u64_to_be z : length (u64_to_be z) = 8%nat.
Proof. unfold u64_to_be. by rewrite length_rev, length_to_le. Qed.

Lemma u64_from_le_range bs : length bs = 8%nat -> is_u64 (u64_from_le bs).
Proof.
  intros Hl. unfold u64_from_le. pose proof (of_le_range bs) as H.
  rewrite Hl in H. int_bounds. simpl in H. lia.
Qed.

Lemma u64_to_from_le bs : length bs = 8%nat -> u64_to_le (u64_from_le bs) = bs.
Proof. intros Hl. unfold u64_to_le, u64_from_le. rewrite <- Hl. apply to_of_le. Qed.

Lemma i64_to_from_le bs : length bs = 8%nat -> i64_to_le (i64_from_le bs) = bs.
Proof.
  intros Hl. unfold i64_to_le, i64_from_le.
  rewrite as_u64_as_i64 by (by apply u64_from_le_range).
  rewrite <- Hl. apply to_of_le.
Qed.

Create Rewrite HintDb len.
#[global] Hint Rewrite length_u64_to_le length_i64_to_le length_u16_to_le
  length_u64_to_be length_to_le @length_app @length_cons @length_nil : len.

(* ------------------------------------------------------------------ *)
(** * Lexicographic order: the key order of the store *)

Fixpoint bytes_ltb (a b : bytes) : bool :=
  match a, b with
  | _, [] => false
  | [], _ :: _ => true
  | x :: a', y :: b' =>
      if byte_to_Z x <? byte_to_Z y then true
      else if byte_to_Z x =? byte_to_Z y then bytes_ltb a' b' else false
  end.

Definition bytes_leb (a b : bytes) : bool := negb (bytes_ltb b a).

Lemma bytes_ltb_irrefl a : bytes_ltb a a = false.
Proof.
  induction a as [|x a IH]; simpl; [done|].
  by rewrite Z.ltb_irrefl, Z.eqb_refl.
Qed.

Lemma bytes_ltb_trans a b c :
  bytes_ltb a b = true -> bytes_ltb b c = true -> bytes_ltb a c = true.
Proof.
  revert b c. induction a as [|x a IH]; intros [|y b] [|z c]; simpl; try done.
  destruct (Z.ltb_spec (byte_to_Z x) (byte_to_Z y));
  destruct (Z.ltb_spec (byte_to_Z y) (byte_to_Z z));
  destruct (Z.ltb_spec (byte_to_Z x) (byte_to_Z z));
  destruct (Z.eqb_spec (byte_to_Z x) (byte_to_Z y));
  destruct (Z.eqb_spec (byte_to_Z y) (byte_to_Z z));
  destruct (Z.eqb_spec (byte_to_Z x) (byte_to_Z z)); try done; try lia; eauto.
Qed.

Lemma bytes_ltb_total a b :
  bytes_ltb a b = false -> bytes_ltb b a = false -> a = b.
Proof.
  revert b. induction a as [|x a IH]; intros [|y b]; simpl; try done.
  destruct (Z.ltb_spec (byte_to_Z x) (byte_to_Z y)); [done|].
  destruct (Z.ltb_spec (byte_to_Z y) (byte_to_Z x)); [done|].
  assert (byte_to_Z x = byte_to_Z y) as Hxy by lia.
  rewrite Hxy, Z.eqb_refl. apply byte_to_Z_inj in Hxy as ->.
  intros. f_equal. by apply IH.
Qed.

Lemma bytes_ltb_asym a b : bytes_ltb a b = true -> bytes_ltb b a = false.
Proof.
  intros H. destruct (bytes_ltb b a) eqn:E; [|done].
  by rewrite <- (bytes_ltb_irrefl a), (bytes_ltb_trans _ _ _ H E).
Qed.

Definition starts_with (prefix s : bytes) : bool :=
  bool_decide (take (length prefix) s = prefix).

Lemma starts_with_app p s : starts_with p (p ++ s) = true.
Proof.
  unfold starts_with. apply bool_decide_eq_true.
  by rewrite take_app_length.
Qed.

Lemma starts_with_spec p s : starts_with p s = true <-> exists t, s = p ++ t.
Proof.
  unfold starts_with. rewrite bool_decide_eq_true. split.
  - intros H. exists (drop (length p) s). by rewrite <- H at 1; rewrite take_drop.
  - intros [t ->]. by rewrite take_app_length.
Qed.

(** A key is followed, in key order, by itself extended with a zero byte:
    nothing lies strictly between them. *)
Lemma bytes_ltb_snoc_zero k k' :
  bytes_ltb k' (k ++ [Byte.x00]) = negb (bytes_ltb k k').
Proof.
  revert k'. induction k as [|x k IH]; intros [|y k']; simpl; try done.
  - destruct (byte_to_Z y <? byte_to_Z "000") eqn:E.
    + apply Z.ltb_lt in E. pose proof (byte_to_Z_range y). unfold byte_to_Z in *. simpl in *. lia.
    + destruct (byte_to_Z y =? byte_to_Z "000"); [by destruct k'|done].
  - rewrite IH.
    destruct (Z.ltb_spec (byte_to_Z y) (byte_to_Z x));
    destruct (Z.ltb_spec (byte_to_Z x) (byte_to_Z y));
    destruct (Z.eqb_spec (byte_to_Z y) (byte_to_Z x));
    destruct (Z.eqb_spec (byte_to_Z x) (byte_to_Z y)); simpl; try done; lia.
Qed.

(** Big-endian encoding makes key order numeric order. *)
Lemma bytes_ltb_app_same p a b : bytes_ltb (p ++ a) (p ++ b) = bytes_ltb a b.
Proof.
  induction p as [|x p IH]; simpl; [done|].
  by rewrite Z.ltb_irrefl, Z.eqb_refl.
Qed.

Lemma bytes_ltb_app_len p q a b :
  length p = length q -> p <> q -> bytes_ltb (p ++ a) (q ++ b) = bytes_ltb p q.
Proof.
  revert q. induction p as [|x p IH]; intros [|y q] Hl Hne; try done.
  simpl in *. destruct (Z.ltb_spec (byte_to_Z x) (byte_to_Z y)); [done|].
  destruct (Z.eqb_spec (byte_to_Z x) (byte_to_Z y)) as [Hxy|]; [|done].
  apply byte_to_Z_inj in Hxy as ->. apply IH; [lia|congruence].
Qed.

Lemma rev_to_le_ltb n a b :
  0 <= a < 256 ^ Z.of_nat n -> 0 <= b < 256 ^ Z.of_nat n ->
  bytes_ltb (rev (to_le n a)) (rev (to_le n b)) = (a <? b).
Proof.
  revert a b. induction n as [|n IH]; intros a b Ha Hb.
  - simpl in *. destruct (Z.ltb_spec a b); [lia|done].
  - rewrite Nat2Z.inj_succ, Z.pow_succ_r in Ha, Hb by lia.
    assert (0 <= a / 256 < 256 ^ Z.of_nat n) as Ha'.
    { split; [apply Z.div_pos; lia|apply Z.div_lt_upper_bound; lia]. }
    assert (0 <= b / 256 < 256 ^ Z.of_nat n) as Hb'.
    { split; [apply Z.div_pos; lia|apply Z.div_lt_upper_bound; lia]. }
    pose proof (Z.div_mod a 256 ltac:(lia)) as Da.
    pose proof (Z.div_mod b 256 ltac:(lia)) as Db.
    pose proof (Z.mod_pos_bound a 256 ltac:(lia)).
    pose proof (Z.mod_pos_bound b 256 ltac:(lia)).
    cbn [to_le rev].
    destruct (decide (a / 256 = b / 256)) as [He|Hne].
    + rewrite He, bytes_ltb_app_same. simpl. rewrite !byte_to_of_Z.
      destruct (Z.ltb_spec (a mod 256) (b mod 256)), (Z.ltb_spec a b); try lia; try done.
      by destruct (_ =? _).
    + rewrite bytes_ltb_app_len, IH by first
        [ done | by rewrite !length_rev, !length_to_le
        | intros E; apply Hne, (to_le_inj n); [done..|];
          by rewrite <- (rev_involutive (to_le n (a / 256))), E, rev_involutive ].
      destruct (Z.ltb_spec (a / 256) (b / 256)), (Z.ltb_spec a b); try done; nia.
Qed.

Lemma u64_to_be_ltb a b :
  is_u64 a -> is_u64 b -> bytes_ltb (u64_to_be a) (u64_to_be b) = (a <? b).
Proof.
  intros Ha Hb. unfold u64_to_be. apply rev_to_le_ltb; int_bounds; simpl; lia.
Qed.

Lemma u64_to_be_inj a b : is_u64 a -> is_u64 b -> u64_to_be a = u64_to_be b -> a = b.
Proof.
  intros Ha Hb H. pose proof (u64_to_be_ltb a b Ha Hb) as H1.
  pose proof (u64_to_be_ltb b a Hb Ha) as H2.
  rewrite H, bytes_ltb_irrefl in H1. rewrite H, bytes_ltb_irrefl in H2. lia.
Qed.

#[global] Opaque u64_to_le i64_to_le u16_to_le u64_to_be.

(* ------------------------------------------------------------------ *)
(** * UTF-8 validation *)

(** [String::from_utf8] accepts exactly the well-formed sequences of
    RFC 3629: no overlong forms, no surrogates, nothing above U+10FFFF. *)
Definition in_range (lo hi : Z) (b : byte) : bool :=
  (lo <=? byte_to_Z b) && (byte_to_Z b <=? hi).

Definition cont (b : byte) : bool := in_range 0x80 0xBF b.

Fixpoint utf8_valid (s : bytes) : bool :=
  match s with
  | [] => true
  | b0 :: s1 =>
      if in_range 0x00 0x7F b0 then utf8_valid s1
      else match s1 with
      | [] => false
      | b1 :: s2 =>
          if in_range 0xC2 0xDF b0 then cont b1 && utf8_valid s2
          else match s2 with
          | [] => false
          | b2 :: s3 =>
              if in_range 0xE0 0xEF b0 then
                (if byte_to_Z b0 =? 0xE0 then in_range 0xA0 0xBF b1
                 else if byte_to_Z b0 =? 0xED then in_range 0x80 0x9F b1
                 else cont b1)
                && cont b2 && utf8_valid s3
              else match s3 with
              | [] => false
              | b3 :: s4 =>
                  in_range 0xF0 0xF4 b0
                  && (if byte_to_Z b0 =? 0xF0 then in_range 0x90 0xBF b1
                      else if byte_to_Z b0 =? 0xF4 then in_range 0x80 0x8F b1
                      else cont b1)
                  && cont b2 && cont b3 && utf8_valid s4
              end
          end
      end
  end.

Example utf8_ascii : utf8_valid (str "bucket") = true.
Proof. reflexivity. Qed.
Example utf8_lone_continuation : utf8_valid [Byte.xff] = false.
Proof. reflexivity. Qed.
Example utf8_euro_sign : utf8_valid [Byte.xe2; Byte.x82; Byte.xac] = true.
Proof. reflexivity. Qed.
Example utf8_surrogate : utf8_valid [Byte.xed; Byte.xa0; Byte.x80] = false.
Proof. reflexivity. Qed.
