(* ===== verification/Orders.v ===== *)
(** Comparison functions, as Rust's [Ord] and [Ordering::then_with] build
    them, and the stable sort [slice::sort_by] over one.

    [Ordered] says that a comparison is a total order; products, options,
    reversed orders and byte strings inherit it.  A sorted list is determined
    by the elements it is sorted from. *)

From S2P Require Import Prelude Bytes.
From Stdlib Require Import Strings.Byte.
Local Open Scope Z_scope.

(** [a.cmp(b).then_with(|| c)] *)
Definition then_with (c d : comparison) : comparison :=
  match c with Eq => d | _ => c end.

Definition at_most (c : comparison) : bool := match c with Gt => false | _ => true end.

Class Ordered {A} (cmp : A -> A -> comparison) : Prop := {
  cmp_refl x : cmp x x = Eq;
  cmp_eq x y : cmp x y = Eq -> x = y;
  cmp_opp x y : cmp y x = CompOpp (cmp x y);
  cmp_trans x y z : at_most (cmp x y) = true -> at_most (cmp y z) = true -> at_most (cmp x z) = true
}.

Definition le_by {A} (cmp : A -> A -> comparison) (x y : A) : Prop := at_most (cmp x y) = true.

Lemma le_by_total {A} (cmp : A -> A -> comparison) `{!Ordered cmp} x y :
  at_most (cmp x y) = false -> le_by cmp y x.
Proof. unfold le_by. rewrite (cmp_opp x y). by destruct (cmp x y). Qed.

#[global] Instance le_by_trans {A} (cmp : A -> A -> comparison) `{!Ordered cmp} : Transitive (le_by cmp).
Proof. intros x y z. apply cmp_trans. Qed.

#[global] Instance le_by_antisymm {A} (cmp : A -> A -> comparison) `{!Ordered cmp} : AntiSymm eq (le_by cmp).
Proof.
  intros x y. unfold le_by. rewrite (cmp_opp x y).
  destruct (cmp x y) eqn:E; simpl; try done. intros _ _. by apply (cmp_eq (cmp := cmp)).
Qed.

(** A strict step stays strict after a weak one. *)
Lemma cmp_lt_trans {A} (cmp : A -> A -> comparison) `{!Ordered cmp} x y z :
  cmp x y = Lt -> at_most (cmp y z) = true -> cmp x z = Lt.
Proof.
  intros Hxy Hyz. assert (at_most (cmp x z) = true) as H.
  { apply (cmp_trans x y z); [by rewrite Hxy|done]. }
  destruct (cmp x z) eqn:E; [|done..]. apply cmp_eq in E as <-.
  rewrite (cmp_opp x y), Hxy in Hyz. done.
Qed.

Lemma cmp_trans_lt {A} (cmp : A -> A -> comparison) `{!Ordered cmp} x y z :
  at_most (cmp x y) = true -> cmp y z = Lt -> cmp x z = Lt.
Proof.
  intros Hxy Hyz. assert (at_most (cmp x z) = true) as H.
  { apply (cmp_trans x y z); [done|by rewrite Hyz]. }
  destruct (cmp x z) eqn:E; [|done..]. apply cmp_eq in E as <-.
  rewrite (cmp_opp x y) in Hyz. by destruct (cmp x y).
Qed.

(* ------------------------------------------------------------------ *)
(** * Instances *)

#[global] Instance Z_ordered : Ordered Z.compare.
Proof.
  split.
  - apply Z.compare_refl.
  - apply Z.compare_eq.
  - intros x y. apply Z.compare_antisym.
  - intros x y z. unfold at_most.
    destruct (Z.compare_spec x y), (Z.compare_spec y z), (Z.compare_spec x z); try done; lia.
Qed.

Definition bytes_cmp (a b : bytes) : comparison :=
  if bytes_ltb a b then Lt else if bytes_ltb b a then Gt else Eq.

#[global] Instance bytes_ordered : Ordered bytes_cmp.
Proof.
  unfold bytes_cmp. split.
  - intros a. by rewrite bytes_ltb_irrefl.
  - intros a b. destruct (bytes_ltb a b) eqn:E1; [done|]. destruct (bytes_ltb b a) eqn:E2; [done|].
    intros _. by apply bytes_ltb_total.
  - intros a b. destruct (bytes_ltb a b) eqn:E1.
    + by rewrite (bytes_ltb_asym a b).
    + by destruct (bytes_ltb b a).
  - intros a b c. destruct (bytes_ltb a b) eqn:E1.
    + intros _. destruct (bytes_ltb b c) eqn:E2.
      * by rewrite (bytes_ltb_trans a b c).
      * destruct (bytes_ltb c b) eqn:E3; [done|]. apply bytes_ltb_total in E3 as ->; [by rewrite E1|done].
    + destruct (bytes_ltb b a) eqn:E2; [done|]. by apply bytes_ltb_total in E1 as ->.
Qed.

Definition rev_cmp {A} (cmp : A -> A -> comparison) (x y : A) : comparison := cmp y x.

Lemma rev_ordered {A} (cmp : A -> A -> comparison) `{!Ordered cmp} : Ordered (rev_cmp cmp).
Proof.
  unfold rev_cmp. split; intros.
  - apply (cmp_refl (cmp := cmp)).
  - symmetry. by apply (cmp_eq (cmp := cmp)).
  - apply (cmp_opp (cmp := cmp)).
  - by eapply (cmp_trans (cmp := cmp)).
Qed.

(** [Option]'s order: [None] first. *)
Definition option_cmp {A} (cmp : A -> A -> comparison) (x y : option A) : comparison :=
  match x, y with
  | None, None => Eq
  | None, Some _ => Lt
  | Some _, None => Gt
  | Some a, Some b => cmp a b
  end.

#[global] Instance option_ordered {A} (cmp : A -> A -> comparison) `{!Ordered cmp} : Ordered (option_cmp cmp).
Proof.
  split.
  - intros [a|]; [apply (cmp_refl (cmp := cmp))|done].
  - intros [a|] [b|]; simpl; try done. intros E. f_equal. by apply (cmp_eq (cmp := cmp)).
  - intros [a|] [b|]; simpl; try done. apply (cmp_opp (cmp := cmp)).
  - intros [a|] [b|] [c|]; simpl; try done. apply (cmp_trans (cmp := cmp)).
Qed.

Definition pair_cmp {A B} (c : A -> A -> comparison) (d : B -> B -> comparison) (x y : A * B) : comparison :=
  then_with (c x.1 y.1) (d x.2 y.2).

#[global] Instance pair_ordered {A B} (c : A -> A -> comparison) (d : B -> B -> comparison)
  `{!Ordered c, !Ordered d} : Ordered (pair_cmp c d).
Proof.
  unfold pair_cmp. split.
  - intros [a b]. simpl. rewrite (cmp_refl (cmp := c)). simpl. apply (cmp_refl (cmp := d)).
  - intros [a b] [a' b']. simpl. destruct (c a a') eqn:E; simpl; [|done..].
    apply (cmp_eq (cmp := c)) in E as ->. by intros ->%(cmp_eq (cmp := d)).
  - intros [a b] [a' b']. simpl. rewrite (cmp_opp (cmp := c) a a').
    destruct (c a a'); simpl; [apply (cmp_opp (cmp := d))|done..].
  - intros [a b] [a' b'] [a'' b'']. simpl.
    destruct (c a a') eqn:E1; simpl; [|intros _|done].
    + apply (cmp_eq (cmp := c)) in E1 as ->. destruct (c a' a''); simpl; [apply (cmp_trans (cmp := d))|done..].
    + intros H. assert (c a a'' = Lt) as ->; [|done].
      apply (cmp_lt_trans c a a' a''); [done|]. by destruct (c a' a'').
Qed.

(* ------------------------------------------------------------------ *)
(** * Sorting *)

Section Sort.
Context {A : Type} (cmp : A -> A -> comparison).

Fixpoint insert_by (x : A) (l : list A) : list A :=
  match l with
  | [] => [x]
  | y :: l' => if at_most (cmp x y) then x :: l else y :: insert_by x l'
  end.

(** [l.sort_by(cmp)]: equal elements keep their order. *)
Fixpoint sort_by (l : list A) : list A :=
  match l with [] => [] | x :: l' => insert_by x (sort_by l') end.

Lemma insert_by_perm x l : insert_by x l ≡ₚ x :: l.
Proof.
  induction l as [|y l IH]; simpl; [done|]. destruct (at_most (cmp x y)); [done|].
  rewrite IH. apply Permutation_swap.
Qed.

Lemma sort_by_perm l : sort_by l ≡ₚ l.
Proof. induction l as [|x l IH]; simpl; [done|]. by rewrite insert_by_perm, IH. Qed.

Lemma elem_of_sort_by x l : x ∈ sort_by l <-> x ∈ l.
Proof. by rewrite sort_by_perm. Qed.
End Sort.

(** Sorting by a comparison of keys. *)
Section SortKeys.
Context {A K : Type} (key : A -> K) (kcmp : K -> K -> comparison) `{!Ordered kcmp}.
Context (cmp : A -> A -> comparison) (cmp_key : forall x y, cmp x y = kcmp (key x) (key y)).

Lemma insert_by_sorted x l :
  StronglySorted (le_by kcmp) (map key l) -> StronglySorted (le_by kcmp) (map key (insert_by cmp x l)).
Proof.
  induction l as [|y l IH]; simpl; intros Hs; [repeat constructor|].
  rewrite cmp_key. apply StronglySorted_inv in Hs as [Hs Hall].
  destruct (at_most (kcmp (key x) (key y))) eqn:E; simpl.
  - constructor; [by constructor|]. constructor; [done|].
    eapply Forall_impl; [exact Hall|]. intros z Hz. by eapply (le_by_trans kcmp).
  - constructor; [by apply IH|]. apply Forall_forall. intros k.
    rewrite (Permutation_map key (insert_by_perm cmp x l)). simpl. intros [->|Hk]%elem_of_cons.
    + by apply le_by_total.
    + rewrite Forall_forall in Hall. by apply Hall.
Qed.

Lemma sort_by_sorted l : StronglySorted (le_by kcmp) (map key (sort_by cmp l)).
Proof. induction l as [|x l IH]; simpl; [constructor|]. by apply insert_by_sorted. Qed.

(** The keys of a sorted list are determined by the multiset sorted. *)
Lemma sort_by_canonical l l' : l ≡ₚ l' -> map key (sort_by cmp l) = map key (sort_by cmp l').
Proof.
  intros Hp. apply (StronglySorted_unique (le_by kcmp)); [apply sort_by_sorted..|].
  apply Permutation_map. by rewrite !sort_by_perm.
Qed.
End SortKeys.
