(* ===== verification/Resp.v ===== *)
(** The wire protocol of respcas (respcas/src/resp.rs): inline commands, the
    size guard that reads the headers of a command still arriving, and the
    choice between the two forms of a command.  The RESP2 codec is the
    redis-protocol crate's, a parameter here. *)

From S2P Require Import Prelude Bytes.
From Stdlib Require Import Strings.Byte.
Local Open Scope Z_scope.
#[local] Set Warnings "-clear-no-such-hyp,-register-all".

Inductive RespError : Type := Io (msg : string) | Protocol (msg : string).

(** [resp2::types::OwnedFrame] *)
Inductive Frame : Type :=
| SimpleString (s : bytes)
| FError (s : string)
| Integer (z : Z)
| BulkString (b : bytes)
| Array (l : list Frame)
| Null.

Definition INLINE_MAX_SIZE : Z := 64 * 1024.
Definition FRAME_MARKERS : bytes := str "+-:$*".

(* ------------------------------------------------------------------ *)
(** * Inline commands *)

Definition is_space (b : byte) : bool :=
  bool_decide (b ∈ [x20; x0a; x0d; x09; x0b; x0c]).

Definition hex_value (b : byte) : option Z :=
  let z := byte_to_Z b in
  if (48 <=? z) && (z <=? 57) then Some (z - 48)
  else if (97 <=? z) && (z <=? 102) then Some (z - 97 + 10)
  else if (65 <=? z) && (z <=? 70) then Some (z - 65 + 10)
  else None.

Definition unbalanced : RespError := Protocol "unbalanced quotes in request".

(** The byte an escape stands for: [\n], [\r], [\t], [\b], [\a]. *)
Definition unescape (b : byte) : byte :=
  if decide (b = x6e) then x0a
  else if decide (b = x72) then x0d
  else if decide (b = x74) then x09
  else if decide (b = x62) then x08
  else if decide (b = x61) then x07
  else b.

Definition push_current (b : byte) (r : result RespError (bytes * bytes)) : result RespError (bytes * bytes) :=
  match r with Ok (w, rest) => Ok (b :: w, rest) | Err e => Err e end.

(** The rest of a word opened by the quote [q]: the word, and the line after
    its closing quote. *)
Fixpoint quoted (q : byte) (line : bytes) : result RespError (bytes * bytes) :=
  match line with
  | [] => Err unbalanced
  | b :: r =>
      if decide (b = q) then
        match r with
        | c :: _ => if is_space c then Ok ([], r) else Err unbalanced
        | [] => Ok ([], [])
        end
      else if decide (b = x5c) then
        if decide (q = x22) then
          match r with
          | [] => Err unbalanced
          | e :: r1 =>
              if decide (e = x78) then
                match r1 with
                | hi :: lo :: r2 =>
                    match hex_value hi, hex_value lo with
                    | Some h, Some l => push_current (byte_of_Z (h * 16 + l)) (quoted q r2)
                    | _, _ => push_current (unescape e) (quoted q r1)
                    end
                | _ => push_current (unescape e) (quoted q r1)
                end
              else push_current (unescape e) (quoted q r1)
          end
        else
          match r with
          | c :: r1 => if decide (q = x27 /\ c = x27) then push_current x27 (quoted q r1) else push_current b (quoted q r)
          | [] => push_current b (quoted q r)
          end
      else push_current b (quoted q r)
  end.

(** A word without quotes. *)
Fixpoint plain (line : bytes) : bytes * bytes :=
  match line with
  | b :: r => if is_space b then ([], line) else let '(w, rest) := plain r in (b :: w, rest)
  | [] => ([], [])
  end.

Fixpoint skip_space (line : bytes) : bytes :=
  match line with b :: r => if is_space b then skip_space r else line | [] => [] end.

(** The words of a line; each one uses up a byte. *)
Fixpoint split_words (fuel : nat) (line : bytes) : result RespError (list bytes) :=
  match fuel with
  | O => Ok []
  | S fuel =>
      match skip_space line with
      | [] => Ok []
      | b :: r =>
          word ← (if decide (b = x22 \/ b = x27) then quoted b r else Ok (plain (b :: r)));
          words ← split_words fuel word.2;
          Ok (word.1 :: words)
      end
  end.

Definition split_args (line : bytes) : result RespError (list bytes) := split_words (S (length line)) line.

(** [iter().position(|&b| b == b'\n')] *)
Fixpoint position (x : byte) (l : bytes) : option nat :=
  match l with
  | [] => None
  | b :: r => if decide (b = x) then Some O else option_map S (position x r)
  end.

(** A line without the carriage return before its newline. *)
Definition strip_cr (line : bytes) : bytes :=
  if decide (last line = Some x0d) then take (length line - 1) line else line.

Definition parse_inline (buffer : bytes) : result RespError (option (list bytes * nat)) :=
  match position x0a buffer with
  | None => if INLINE_MAX_SIZE <? Z.of_nat (length buffer) then Err (Protocol "too big inline request") else Ok None
  | Some newline =>
      if INLINE_MAX_SIZE <? Z.of_nat newline then Err (Protocol "too big inline request")
      else args ← split_args (strip_cr (take newline buffer)); Ok (Some (args, S newline))
  end.

(** [e.to_string().contains("incomplete")] *)
Definition incomplete (e : string) : bool :=
  match String.index 0 "incomplete" e with Some _ => true | None => false end.

Section Frames.
(** [resp2::decode::decode], its errors by their text. *)
Context (decode : bytes -> result string (option (Frame * nat))).

(** [parse_frame]: a blank line uses up at least its newline. *)
Fixpoint parse_from (fuel : nat) (buffer : bytes) (consumed : nat) : result RespError (option Frame * nat) :=
  match fuel with
  | O => Ok (None, consumed)
  | S fuel =>
      match drop consumed buffer with
      | [] => Ok (None, consumed)
      | first :: r =>
          let rest := first :: r in
          if bool_decide (first ∈ FRAME_MARKERS) then
            match decode rest with
            | Ok (Some (frame, len)) => Ok (Some frame, (consumed + len)%nat)
            | Ok None => Ok (None, consumed)
            | Err e => if incomplete e then Ok (None, consumed) else Err (Protocol e)
            end
          else
            inline ← parse_inline rest;
            match inline with
            | None => Ok (None, consumed)
            | Some ([], len) => parse_from fuel buffer (consumed + len)
            | Some (args, len) => Ok (Some (Array (map BulkString args)), (consumed + len)%nat)
            end
      end
  end.

Definition parse_frame (buffer : bytes) : result RespError (option Frame * nat) :=
  parse_from (S (length buffer)) buffer 0.
End Frames.

(* ------------------------------------------------------------------ *)
(** * The size guard *)

Definition digit (b : byte) : option Z :=
  let z := byte_to_Z b in if (48 <=? z) && (z <=? 57) then Some (z - 48) else None.

(** The number a run of digits spells; [None] on any other byte. *)
Fixpoint digits (acc : Z) (l : bytes) : option Z :=
  match l with
  | [] => Some acc
  | b :: r => d ← digit b; digits (acc * 10 + d) r
  end.

(** [str::parse::<i64>]: a sign, at least one digit, in range. *)
Definition parse_i64 (l : bytes) : option Z :=
  let number := fun (sign : Z) (ds : bytes) =>
    match ds with
    | [] => None
    | _ => n ← digits 0 ds; if (i64_min <=? sign * n) && (sign * n <=? i64_max) then Some (sign * n) else None
    end in
  match l with
  | b :: r => if decide (b = x2d) then number (-1) r
              else if decide (b = x2b) then number 1 r
              else number 1 l
  | [] => None
  end.

(** [read_len_line]: the number, and the index just past the newline. *)
Definition read_len_line (buffer : bytes) (pos : nat) : option (Z * nat) :=
  if (length buffer <? pos)%nat then None
  else
    let rest := drop pos buffer in
    newline ← position x0a rest;
    value ← parse_i64 (strip_cr (take newline rest));
    Some (value, (pos + newline + 1)%nat).

(** The loop over the declared arguments; each one uses up a byte. *)
Fixpoint scan_bulks (fuel : nat) (buffer : bytes) (count : Z) (pos : nat) (cap : Z) : option Z :=
  match fuel with
  | O => None
  | S fuel =>
      if count <=? 0 then None
      else
        if decide (buffer !! pos = Some x24) then
          header ← read_len_line buffer (pos + 1);
          let '(len, after_header) := header in
          if len <? 0 then scan_bulks fuel buffer (count - 1) after_header cap
          else if cap <? len then Some len
          else
            pos' ← checked_add (Z.of_nat after_header) len;
            pos' ← checked_add pos' 2;
            if Z.of_nat (length buffer) <? pos' then None
            else scan_bulks fuel buffer (count - 1) (Z.to_nat pos') cap
        else None
  end.

Definition oversized_bulk (buffer : bytes) (cap : Z) : option Z :=
  if decide (head buffer = Some x2a) then
    header ← read_len_line buffer 1;
    scan_bulks (S (length buffer)) buffer header.1 header.2 cap
  else None.

(* ------------------------------------------------------------------ *)
(** * How an argument may be spelled *)

(** A byte between double quotes: itself, an escape or [\xHH]. *)
Definition dq_byte (b : byte) (t : bytes) : Prop :=
  (t = [b] /\ b <> x22 /\ b <> x5c) \/
  (exists e, t = [x5c; e] /\ e <> x78 /\ unescape e = b) \/
  (exists hi lo h l, t = [x5c; x78; hi; lo] /\ hex_value hi = Some h /\ hex_value lo = Some l /\
     byte_of_Z (h * 16 + l) = b).

(** A byte between single quotes: itself or [\']. *)
Definition sq_byte (b : byte) (t : bytes) : Prop :=
  (t = [b] /\ b <> x27 /\ b <> x5c) \/ (t = [x5c; x27] /\ b = x27).

(** The text of one argument. *)
Inductive written : bytes -> bytes -> Prop :=
| written_plain b a :
    b <> x22 -> b <> x27 -> Forall (fun c => is_space c = false) (b :: a) -> written (b :: a) (b :: a)
| written_double a ts : Forall2 dq_byte a ts -> written a (x22 :: concat ts ++ [x22])
| written_single a ts : Forall2 sq_byte a ts -> written a (x27 :: concat ts ++ [x27]).

Definition separated (rest : bytes) : Prop := match rest with [] => True | c :: _ => is_space c = true end.

(** A line that spells an argument list. *)
Inductive spelled : list bytes -> bytes -> Prop :=
| spelled_nil s : Forall (fun c => is_space c = true) s -> spelled [] s
| spelled_cons s a t args rest :
    Forall (fun c => is_space c = true) s -> written a t -> separated rest -> spelled args rest ->
    spelled (a :: args) (s ++ t ++ rest).

Lemma quoted_double a ts rest :
  Forall2 dq_byte a ts -> separated rest -> quoted x22 (concat ts ++ x22 :: rest) = Ok (a, rest).
Proof.
  intros Ha Hr. induction Ha as [|b t a ts Hb _ IH].
  { simpl. destruct rest as [|c r]; [done|]. simpl in Hr. by rewrite Hr. }
  destruct Hb as [(-> & Hq & Hs)|[(e & -> & Hx & <-)|(hi & lo & h & l & -> & Hhi & Hlo & <-)]]; cbn [concat app].
  - cbn [quoted]. rewrite decide_False, decide_False by done. by rewrite IH.
  - cbn [quoted]. rewrite decide_False, decide_True, decide_True, decide_False by done. by rewrite IH.
  - cbn [quoted]. rewrite decide_False, decide_True, decide_True, decide_True by done. rewrite Hhi, Hlo. by rewrite IH.
Qed.

Lemma quoted_single a ts rest :
  Forall2 sq_byte a ts -> separated rest -> quoted x27 (concat ts ++ x27 :: rest) = Ok (a, rest).
Proof.
  intros Ha Hr. induction Ha as [|b t a ts Hb _ IH].
  { simpl. destruct rest as [|c r]; [done|]. simpl in Hr. by rewrite Hr. }
  destruct Hb as [(-> & Hq & Hs)|(-> & ->)]; cbn [concat app quoted].
  - rewrite decide_False, decide_False by done. by rewrite IH.
  - rewrite decide_False, decide_True, decide_False, decide_True by done. by rewrite IH.
Qed.

Lemma plain_word a rest :
  Forall (fun c => is_space c = false) a -> separated rest -> plain (a ++ rest) = (a, rest).
Proof.
  intros Ha Hr. induction Ha as [|b a Hb _ IH]; simpl.
  - destruct rest as [|c r]; [done|]. simpl in *. by rewrite Hr.
  - by rewrite Hb, IH.
Qed.

Lemma skip_spaces s rest : Forall (fun c => is_space c = true) s -> skip_space (s ++ rest) = skip_space rest.
Proof. induction 1 as [|b s Hb _ IH]; [done|]. simpl. by rewrite Hb. Qed.

Lemma written_word a t rest :
  written a t -> separated rest -> exists b r, t ++ rest = b :: r /\ is_space b = false /\
    (if decide (b = x22 \/ b = x27) then quoted b r else Ok (plain (b :: r))) = Ok (a, rest).
Proof.
  intros Hw Hr. destruct Hw as [b a H1 H2 Ha|a ts Ha|a ts Ha].
  - exists b, (a ++ rest). split; [done|]. split; [by apply Forall_cons in Ha as [? _]|].
    rewrite decide_False by tauto. f_equal. by apply (plain_word (b :: a)).
  - exists x22, (concat ts ++ x22 :: rest). split; [simpl; by rewrite <- app_assoc|]. split; [done|].
    rewrite decide_True by auto. by apply quoted_double.
  - exists x27, (concat ts ++ x27 :: rest). split; [simpl; by rewrite <- app_assoc|]. split; [done|].
    rewrite decide_True by auto. by apply quoted_single.
Qed.

Lemma spelled_split args line : spelled args line -> forall fuel, (length args < fuel)%nat -> split_words fuel line = Ok args.
Proof.
  induction 1 as [s Hs|s a t args rest Hs Hw Hsep _ IH]; intros [|fuel] Hf; try (simpl in Hf; lia); cbn [split_words].
  - rewrite <- (app_nil_r s), skip_spaces by done. done.
  - rewrite skip_spaces by done. destruct (written_word a t rest Hw Hsep) as (b & r & -> & Hb & Hword).
    cbn [skip_space]. rewrite Hb, Hword. cbn [mbind result_bind fst snd]. rewrite IH by (simpl in Hf; lia). done.
Qed.

Lemma spelled_length args line : spelled args line -> (length args <= length line)%nat.
Proof.
  induction 1 as [s _|s a t args rest _ Hw _ _ IH]; simpl; [lia|]. rewrite !length_app.
  assert (1 <= length t)%nat; [|lia]. destruct Hw; simpl; lia.
Qed.

Lemma split_args_spelled args line : spelled args line -> split_args line = Ok args.
Proof. intros Hs. apply (spelled_split _ _ Hs). pose proof (spelled_length _ _ Hs). lia. Qed.

(* ------------------------------------------------------------------ *)
(** * Lines in a buffer *)

Lemma position_newline line rest : x0a ∉ line -> position x0a (line ++ x0a :: rest) = Some (length line).
Proof.
  induction line as [|b line IH]; intros Hn; simpl; [done|].
  apply not_elem_of_cons in Hn as [Hb Hn]. rewrite decide_False by done. by rewrite IH.
Qed.

Lemma position_none line : x0a ∉ line -> position x0a line = None.
Proof.
  induction line as [|b line IH]; intros Hn; simpl; [done|].
  apply not_elem_of_cons in Hn as [Hb Hn]. rewrite decide_False by done. by rewrite IH.
Qed.

Lemma strip_cr_line line : strip_cr (line ++ [x0d]) = line.
Proof.
  unfold strip_cr. rewrite last_snoc, decide_True, length_app by done. simpl.
  replace (length line + 1 - 1)%nat with (length line) by lia. by rewrite take_app_length.
Qed.

Definition crlf : bytes := [x0d; x0a].

Lemma parse_inline_line args line rest :
  spelled args line -> x0a ∉ line -> Z.of_nat (length line) < INLINE_MAX_SIZE ->
  parse_inline (line ++ crlf ++ rest) = Ok (Some (args, S (S (length line)))).
Proof.
  intros Hs Hn Hl. unfold parse_inline.
  change (line ++ crlf ++ rest) with (line ++ [x0d] ++ x0a :: rest). rewrite app_assoc.
  rewrite position_newline by (rewrite elem_of_app, list_elem_of_singleton; naive_solver).
  rewrite length_app. simpl length. rewrite (proj2 (Z.ltb_ge _ _)) by lia.
  rewrite take_app_length' by (rewrite length_app; simpl; lia). rewrite strip_cr_line, (split_args_spelled args) by done.
  simpl. do 4 f_equal. lia.
Qed.

(** Every byte has a spelling in hexadecimal. *)
Definition hex_digit (z : Z) : byte := byte_of_Z (if z <? 10 then z + 48 else z - 10 + 97).

Lemma escaped_digit_value z : 0 <= z < 16 -> hex_value (hex_digit z) = Some z /\ hex_digit z <> x0a.
Proof.
  intros Hz. unfold hex_digit, hex_value. split.
  - rewrite byte_to_of_Z, Z.mod_small by (destruct (Z.ltb_spec z 10); lia).
    destruct (Z.ltb_spec z 10).
    + rewrite (proj2 (Z.leb_le 48 _)), (proj2 (Z.leb_le _ 57)) by lia. simpl. f_equal. lia.
    + rewrite (proj2 (Z.leb_gt _ 57)) by lia. rewrite andb_false_r.
      rewrite (proj2 (Z.leb_le 97 _)), (proj2 (Z.leb_le _ 102)) by lia. simpl. f_equal. lia.
  - intros E. apply (f_equal byte_to_Z) in E. rewrite byte_to_of_Z in E.
    rewrite Z.mod_small in E by (destruct (Z.ltb_spec z 10); lia).
    change (byte_to_Z x0a) with 10 in E. destruct (Z.ltb_spec z 10); lia.
Qed.

Lemma hex_spelling a : exists ts, Forall2 dq_byte a ts /\ x0a ∉ concat ts.
Proof.
  induction a as [|b a (ts & Hts & Hn)]; [exists []; split; [constructor|apply not_elem_of_nil]|].
  pose proof (byte_to_Z_range b) as Hr.
  pose proof (Z.div_mod (byte_to_Z b) 16 ltac:(lia)) as Hdm. pose proof (Z.mod_pos_bound (byte_to_Z b) 16 ltac:(lia)) as Hm.
  assert (0 <= byte_to_Z b / 16 < 16) as Hd by (split; [apply Z.div_pos|apply Z.div_lt_upper_bound]; lia).
  destruct (escaped_digit_value _ Hd) as [Hh1 Hh2], (escaped_digit_value _ Hm) as [Hl1 Hl2].
  exists ([x5c; x78; hex_digit (byte_to_Z b / 16); hex_digit (byte_to_Z b mod 16)] :: ts). split.
  - constructor; [|done]. right; right. eexists _, _, _, _. split_and!; [done|done|done|].
    rewrite <- (byte_of_to_Z b) at 3. f_equal. lia.
  - cbn [concat]. rewrite elem_of_app, !elem_of_cons, elem_of_nil. naive_solver.
Qed.

(** Blank lines are used up whether or not a command follows. *)
Definition blank_lines (k : nat) : bytes := concat (repeat crlf k).

Lemma length_blank_lines k : length (blank_lines k) = (2 * k)%nat.
Proof. unfold blank_lines. induction k as [|k IH]; simpl; [done|]. simpl in IH. lia. Qed.

Section Parse.
Context (decode : bytes -> result string (option (Frame * nat))).

Lemma parse_blank k rest : forall j fuel, (k <= j + fuel)%nat -> (j <= k)%nat ->
  parse_from decode fuel (blank_lines k ++ rest) (2 * j)
  = parse_from decode (fuel - (k - j)) (blank_lines k ++ rest) (2 * k).
Proof.
  intros j fuel Hf Hj. remember (k - j)%nat as d eqn:Ed. revert j fuel Hf Hj Ed.
  induction d as [|d IH]; intros j fuel Hf Hj Ed.
  { replace j with k by lia. by rewrite Nat.sub_0_r. }
  destruct fuel as [|fuel]; [lia|]. cbn [parse_from].
  assert (drop (2 * j) (blank_lines k ++ rest) = crlf ++ (blank_lines (k - j - 1) ++ rest)) as ->.
  { replace (blank_lines k) with (blank_lines j ++ crlf ++ blank_lines (k - j - 1)).
    - rewrite <- !app_assoc. rewrite drop_app_ge by (rewrite length_blank_lines; lia).
      rewrite length_blank_lines. by replace (2 * j - 2 * j)%nat with 0%nat by lia.
    - unfold blank_lines. change (crlf ++ ?x) with (concat (repeat crlf 1) ++ x).
      rewrite <- !concat_app, <- !repeat_app. f_equal. f_equal. lia. }
  pose proof (parse_inline_line [] [] (blank_lines (k - j - 1) ++ rest) (spelled_nil [] ltac:(constructor))
    ltac:(apply not_elem_of_nil) ltac:(reflexivity)) as Hi. cbn [app] in Hi.
  change (crlf ++ ?x) with (x0d :: x0a :: x) in *. cbn beta iota zeta.
  rewrite bool_decide_eq_false_2 by (vm_compute; set_solver). rewrite Hi. cbn [mbind result_bind]. cbn [length]. replace (2 * j + 2)%nat with (2 * S j)%nat by lia.
  rewrite (IH (S j)) by lia. f_equal.
Qed.

(** What follows the blank lines decides. *)
Lemma parse_frame_blank k first r :
  parse_frame decode (blank_lines k ++ first :: r) =
  if bool_decide (first ∈ FRAME_MARKERS) then
    match decode (first :: r) with
    | Ok (Some (frame, len)) => Ok (Some frame, (2 * k + len)%nat)
    | Ok None => Ok (None, (2 * k)%nat)
    | Err e => if incomplete e then Ok (None, (2 * k)%nat) else Err (Protocol e)
    end
  else
    inline ← parse_inline (first :: r);
    match inline with
    | None => Ok (None, (2 * k)%nat)
    | Some ([], len) =>
        parse_from decode (k + length r + 1) (blank_lines k ++ first :: r) (2 * k + len)
    | Some (args, len) => Ok (Some (Array (map BulkString args)), (2 * k + len)%nat)
    end.
Proof.
  unfold parse_frame. change 0%nat with (2 * 0)%nat at 1.
  rewrite parse_blank by (rewrite ?length_app, ?length_blank_lines; lia).
  rewrite length_app, length_blank_lines. cbn [length].
  replace (S (2 * k + S (length r)) - (k - 0))%nat with (S (k + length r + 1)) by lia. cbn [parse_from].
  rewrite drop_app_ge by (rewrite length_blank_lines; lia). rewrite length_blank_lines.
  replace (2 * k - 2 * k)%nat with 0%nat by lia. done.
Qed.
End Parse.

(** Inline commands mean what they spell.  After any number of blank
    lines, a line that spells an argument list, each argument bare, between
    double quotes with escapes or between single quotes, parses to exactly
    those arguments, whatever bytes they hold and whatever follows in the
    buffer, and uses up exactly the blank lines and the line; so every
    argument list has an inline form.  A buffer of blank lines alone is used
    up. *)
Theorem inline_command_roundtrip decode k args line rest :
  spelled args line -> args <> [] -> x0a ∉ line -> Z.of_nat (length line) < INLINE_MAX_SIZE ->
  (forall b, head line = Some b -> b ∉ FRAME_MARKERS) ->
  parse_frame decode (blank_lines k ++ line ++ crlf ++ rest)
  = Ok (Some (Array (map BulkString args)), length (blank_lines k ++ line ++ crlf)) /\
  parse_frame decode (blank_lines k) = Ok (None, length (blank_lines k)) /\
  forall args', exists line', spelled args' line' /\ x0a ∉ line'.
Proof.
  intros Hs Hne Hn Hl Hm. split_and!.
  - assert (exists b r, line = b :: r) as (b & r & ->).
    { destruct line as [|b r]; [|eauto]. apply spelled_length in Hs. by destruct args; simpl in Hs; [|lia]. }
    pose proof (parse_inline_line args (b :: r) rest Hs Hn Hl) as Hi. cbn [app] in Hi |- *.
    rewrite parse_frame_blank. rewrite bool_decide_eq_false_2 by (by apply Hm). rewrite Hi. cbn [mbind result_bind].
    destruct args as [|a args]; [done|]. do 2 f_equal. rewrite length_app, length_blank_lines. simpl.
    rewrite length_app. simpl. lia.
  - unfold parse_frame. rewrite <- (app_nil_r (blank_lines k)) at 2. change 0%nat with (2 * 0)%nat at 1.
    rewrite parse_blank by (rewrite ?length_blank_lines; lia). rewrite length_blank_lines.
    replace (S (2 * k) - (k - 0))%nat with (S k) by lia. cbn [parse_from]. rewrite app_nil_r.
    by rewrite drop_ge by (rewrite length_blank_lines; lia).
  - clear. intros args. induction args as [|a args (line & Hs & Hn)].
    { exists []. split; [by constructor|apply not_elem_of_nil]. }
    destruct (hex_spelling a) as (ts & Hts & Hnl).
    exists ([] ++ (x22 :: concat ts ++ [x22]) ++ x20 :: line). split.
    + constructor; [done|by constructor|done|]. destruct Hs as [s Hs|s a' t args rest Hs Hw Hsep Hr].
      * constructor. by constructor.
      * change (x20 :: s ++ t ++ rest) with ((x20 :: s) ++ t ++ rest). constructor; try done. by constructor.
    + cbn [app]. rewrite !not_elem_of_cons, !not_elem_of_app. rewrite !not_elem_of_cons.
      split_and!; try done. apply not_elem_of_nil.
Qed.

(* ------------------------------------------------------------------ *)
(** * The size guard sees declared sizes only *)

Definition digit_byte (z : Z) : byte := byte_of_Z (z + 48).

(** Decimal notation. *)
Fixpoint dec_fuel (fuel : nat) (n : Z) : bytes :=
  match fuel with
  | O => []
  | S fuel => if n <? 10 then [digit_byte n] else dec_fuel fuel (n / 10) ++ [digit_byte (n mod 10)]
  end.
Definition dec (n : Z) : bytes := dec_fuel 20 n.

(** The RESP form of a command. *)
Definition bulk (a : bytes) : bytes := x24 :: dec (Z.of_nat (length a)) ++ crlf ++ a ++ crlf.
Definition encode_cmd (args : list bytes) : bytes :=
  x2a :: dec (Z.of_nat (length args)) ++ crlf ++ concat (map bulk args).

Lemma digit_digit_byte z : 0 <= z < 10 -> digit (digit_byte z) = Some z.
Proof.
  intros Hz. unfold digit, digit_byte. rewrite byte_to_of_Z, Z.mod_small by lia.
  rewrite (proj2 (Z.leb_le 48 _)), (proj2 (Z.leb_le _ 57)) by lia. simpl. f_equal. lia.
Qed.

Lemma digits_snoc l b : forall acc, digits acc (l ++ [b]) = n ← digits acc l; d ← digit b; Some (n * 10 + d).
Proof.
  induction l as [|c l IH]; intros acc; simpl; [by destruct (digit b)|]. destruct (digit c); simpl; [apply IH|done].
Qed.

Lemma digits_dec_fuel fuel : forall n, 0 <= n < 10 ^ Z.of_nat fuel -> digits 0 (dec_fuel fuel n) = Some n.
Proof.
  induction fuel as [|fuel IH]; intros n Hn; [simpl in *; f_equal; lia|]. cbn [dec_fuel].
  destruct (Z.ltb_spec n 10).
  - simpl. rewrite digit_digit_byte by lia. done.
  - rewrite digits_snoc, IH, digit_digit_byte; simpl.
    + f_equal. pose proof (Z.div_mod n 10 ltac:(lia)). lia.
    + apply Z.mod_pos_bound. lia.
    + split; [apply Z.div_pos; lia|]. apply Z.div_lt_upper_bound; [lia|].
      rewrite Nat2Z.inj_succ, Z.pow_succ_r in Hn by lia. lia.
Qed.

Lemma dec_fuel_digits fuel n : 0 <= n -> Forall (fun b => is_Some (digit b)) (dec_fuel fuel n).
Proof.
  revert n. induction fuel as [|fuel IH]; intros n Hn; simpl; [constructor|]. destruct (Z.ltb_spec n 10).
  - constructor; [|done]. rewrite digit_digit_byte by lia. done.
  - apply Forall_app. split; [apply IH, Z.div_pos; lia|]. constructor; [|done].
    rewrite digit_digit_byte by (apply Z.mod_pos_bound; lia). done.
Qed.

Lemma dec_nonempty n : dec n <> [].
Proof.
  unfold dec. generalize 19%nat. intros f. change (dec_fuel (S f) n <> []). cbn [dec_fuel].
  destruct (n <? 10); [done|]. intros E. by apply app_nil in E as [_ ?].
Qed.

Lemma dec_not n b : 0 <= n -> digit b = None -> b ∉ dec n.
Proof.
  intros Hn Hb Hin. pose proof (dec_fuel_digits 20 n Hn) as Hall. rewrite Forall_forall in Hall.
  destruct (Hall b Hin). congruence.
Qed.

Lemma parse_dec n : 0 <= n <= i64_max -> parse_i64 (dec n) = Some n.
Proof.
  intros Hn. unfold parse_i64. pose proof (dec_nonempty n) as Hne.
  pose proof (digits_dec_fuel 20 n ltac:(unfold i64_max in Hn; lia)) as Hd. fold (dec n) in Hd.
  pose proof (dec_not n x2d ltac:(lia) eq_refl) as Hm. pose proof (dec_not n x2b ltac:(lia) eq_refl) as Hp.
  destruct (dec n) as [|b r]; [done|]. apply not_elem_of_cons in Hm as [Hm _], Hp as [Hp _].
  rewrite decide_False, decide_False by done. rewrite Hd. cbn [mbind option_bind].
  rewrite Z.mul_1_l, (proj2 (Z.leb_le i64_min n)), (proj2 (Z.leb_le n i64_max)) by (unfold i64_min, i64_max in *; lia). done.
Qed.

(** A length line in full, and one still arriving. *)
Lemma read_header pre n rest : 0 <= n <= i64_max ->
  read_len_line (pre ++ dec n ++ crlf ++ rest) (length pre) = Some (n, (length pre + length (dec n) + 2)%nat).
Proof.
  intros Hn. unfold read_len_line. rewrite (proj2 (Nat.ltb_ge _ _)) by (rewrite length_app; lia).
  rewrite drop_app_length. change (crlf ++ rest) with ([x0d] ++ x0a :: rest). rewrite app_assoc.
  rewrite position_newline by (rewrite elem_of_app, list_elem_of_singleton; intros [?|?]; [|done]; by apply (dec_not n x0a); [lia|..]).
  cbn [mbind option_bind]. rewrite take_app_length, strip_cr_line, parse_dec by done. cbn [mbind option_bind].
  rewrite length_app. simpl. do 2 f_equal. lia.
Qed.

Lemma read_partial pre n k : 0 <= n -> (k < length (dec n) + 2)%nat ->
  read_len_line (pre ++ take k (dec n ++ crlf)) (length pre) = None.
Proof.
  intros Hn Hk. unfold read_len_line. rewrite (proj2 (Nat.ltb_ge _ _)) by (rewrite length_app; lia).
  rewrite drop_app_length. change crlf with ([x0d] ++ [x0a]). rewrite app_assoc, take_app_le by (rewrite length_app; simpl; lia).
  rewrite position_none; [done|]. intros Hin%elem_of_take. destruct Hin as (j & Hj & _). apply list_elem_of_lookup_2 in Hj.
  apply elem_of_app in Hj as [Hj|Hj%list_elem_of_singleton]; [|done]. revert Hj. by apply dec_not.
Qed.

(** The first argument over the cap, with the ones before it. *)
Fixpoint first_over (cap : Z) (args : list bytes) : option (list bytes * bytes) :=
  match args with
  | [] => None
  | a :: args' => if cap <? Z.of_nat (length a) then Some ([], a)
                  else prod_map (cons a) id <$> first_over cap args'
  end.

(** The header of an argument. *)
Definition bulk_header (a : bytes) : bytes := x24 :: dec (Z.of_nat (length a)) ++ crlf.

(** What the guard answers once [n] bytes of the arguments have arrived. *)
Definition guard_answer (cap : Z) (args : list bytes) (n : nat) : option Z :=
  match first_over cap args with
  | Some (small, big) =>
      if decide (length (concat (map bulk small) ++ bulk_header big) <= n)%nat
      then Some (Z.of_nat (length big)) else None
  | None => None
  end.

Lemma bulk_split a : bulk a = bulk_header a ++ a ++ crlf.
Proof. unfold bulk, bulk_header. cbn [app]. by rewrite <- app_assoc. Qed.

Lemma guard_answer_cons cap a args n :
  Z.of_nat (length a) <= cap ->
  guard_answer cap (a :: args) n = if decide (length (bulk a) <= n)%nat then guard_answer cap args (n - length (bulk a)) else None.
Proof.
  intros Ha. unfold guard_answer. cbn [first_over]. rewrite (proj2 (Z.ltb_ge _ _)) by lia.
  destruct (first_over cap args) as [[small big]|]; cbn [fmap option_fmap option_map prod_map fst snd id map concat];
    [|by case_decide].
  rewrite !length_app. repeat case_decide; (done || lia).
Qed.

Lemma scan_bulks_spec cap args : forall fuel pre n,
  (length (take n (concat (map bulk args))) < fuel)%nat ->
  Z.of_nat (length pre + length (concat (map bulk args))) <= i64_max ->
  scan_bulks fuel (pre ++ take n (concat (map bulk args))) (Z.of_nat (length args)) (length pre) cap
  = guard_answer cap args n.
Proof.
  induction args as [|a args IH]; intros [|fuel] pre n Hf Hsz; try lia; cbn [scan_bulks].
  { done. }
  rewrite (proj2 (Z.leb_gt _ _)) by (simpl; lia). cbn [map concat].
  assert (0 <= Z.of_nat (length a) <= i64_max) as Hla.
  { split; [lia|]. cbn [map concat] in Hsz. rewrite bulk_split, !length_app in Hsz. lia. }
  set (more := concat (map bulk args)) in *. set (len := Z.of_nat (length a)) in *.
  destruct n as [|n].
  { rewrite take_0, app_nil_r, lookup_ge_None_2 by lia. rewrite decide_False by done.
    unfold guard_answer. destruct (first_over cap (a :: args)) as [[small big]|]; [|done].
    rewrite decide_False; [done|]. rewrite length_app. simpl. lia. }
  assert (pre ++ take (S n) (bulk a ++ more) = (pre ++ [x24]) ++ take n (dec len ++ crlf ++ a ++ crlf ++ more)) as Ebuf.
  { rewrite <- app_assoc. unfold bulk. cbn [app take]. by rewrite <- !app_assoc. }
  rewrite Ebuf.
  assert (((pre ++ [x24]) ++ take n (dec len ++ crlf ++ a ++ crlf ++ more)) !! length pre = Some x24) as ->.
  { rewrite <- app_assoc, lookup_app_r, Nat.sub_diag by lia. done. }
  rewrite decide_True by done.
  replace (length pre + 1)%nat with (length (pre ++ [x24])) by (rewrite length_app; simpl; lia).
  destruct (decide (n < length (dec len) + 2)%nat) as [Hpart|Hfull].
  { replace (take n (dec len ++ crlf ++ a ++ crlf ++ more)) with (take n (dec len ++ crlf)).
    2: { rewrite (app_assoc (dec len) crlf). symmetry. apply take_app_le. rewrite length_app. simpl. lia. }
    rewrite read_partial by lia. cbn [mbind option_bind].
    unfold guard_answer. destruct (first_over cap (a :: args)) as [[small big]|] eqn:E; [|done].
    rewrite decide_False; [done|]. cbn [first_over] in E. destruct (Z.ltb_spec cap (Z.of_nat (length a))).
    - simplify_eq. simpl. rewrite length_app. simpl. fold len. lia.
    - destruct (first_over cap args) as [[small' big']|]; [|done]. simplify_eq/=. unfold bulk at 1. fold len.
      simpl. rewrite !length_app. simpl. lia. }
  assert (take n (dec len ++ crlf ++ a ++ crlf ++ more)
    = dec len ++ crlf ++ take (n - (length (dec len) + 2)) (a ++ crlf ++ more)) as Etake.
  { rewrite (app_assoc (dec len) crlf). rewrite take_app_ge by (rewrite length_app; simpl; lia).
    rewrite length_app. simpl. by rewrite <- app_assoc. }
  rewrite Etake, read_header by done. cbn [mbind option_bind].
  rewrite (proj2 (Z.ltb_ge len 0)) by lia. destruct (Z.ltb_spec cap len) as [Hover|Hfit].
  { unfold guard_answer. cbn [first_over]. fold len. rewrite (proj2 (Z.ltb_lt _ _)) by lia.
    rewrite decide_True; [done|]. simpl. rewrite length_app. simpl. fold len. lia. }
  rewrite guard_answer_cons by done.
  assert (length (bulk a) = length (dec len) + length a + 5)%nat as Elen.
  { unfold bulk. fold len. cbn [length]. rewrite !length_app. simpl. lia. }
  assert (length (pre ++ [x24]) = length pre + 1)%nat as Epre by (rewrite length_app; simpl; lia).
  cbn [map concat] in Hsz. rewrite length_app, Elen in Hsz. fold more in Hsz.
  unfold checked_add. rewrite (proj2 (Z.leb_le _ usize_max)) by (unfold usize_max, i64_max in *; lia). cbn [mbind option_bind].
  rewrite (proj2 (Z.leb_le _ usize_max)) by (unfold usize_max, i64_max in *; lia). cbn [mbind option_bind].
  set (m := (n - (length (dec len) + 2))%nat) in *.
  assert (length (take m (a ++ crlf ++ more)) = Nat.min m (length a + 2 + length more)) as Em.
  { rewrite length_take, !length_app. simpl. lia. }
  assert (length ((pre ++ [x24]) ++ dec len ++ crlf ++ take m (a ++ crlf ++ more))
    = length pre + 1 + length (dec len) + 2 + Nat.min m (length a + 2 + length more))%nat as Etot.
  { rewrite !length_app, Em. simpl. lia. }
  destruct (decide (length (bulk a) <= S n)%nat) as [Hall|Hsome].
  - rewrite (proj2 (Z.ltb_ge _ _)) by lia.
    replace (Z.of_nat (length (a :: args)) - 1) with (Z.of_nat (length args)) by (simpl; lia).
    specialize (IH fuel (pre ++ bulk a) (S n - length (bulk a))%nat).
    rewrite length_app in IH. rewrite <- IH; [f_equal| |lia].
    + unfold bulk. fold len. rewrite <- !app_assoc. cbn [app]. do 2 f_equal. rewrite <- !app_assoc. do 2 f_equal.
      rewrite app_assoc. rewrite take_app_ge by (rewrite length_app; simpl; lia). rewrite <- app_assoc.
      do 3 f_equal. cbn [length]. rewrite !length_app. cbn [length crlf]. lia.
    + lia.
    + cbn [map concat] in Hf. rewrite take_app_ge, length_app in Hf by lia. fold more in Hf. lia.
  - rewrite (proj2 (Z.ltb_lt _ _)) by lia. done.
Qed.

(** An oversized value is refused from its header alone.  Of a command
    whose bytes are still arriving, the guard reports the first argument whose
    declared size is over the cap, as soon as its header is complete and never
    before, whatever the values before it contain; a command without one is
    never refused, however far it has arrived. *)
Theorem oversized_seen_from_header cap args n :
  Z.of_nat (length (encode_cmd args)) <= i64_max ->
  oversized_bulk (take n (encode_cmd args)) cap =
  match first_over cap args with
  | None => None
  | Some (small, big) =>
      if decide (length (x2a :: dec (Z.of_nat (length args)) ++ crlf ++ concat (map bulk small) ++ bulk_header big) <= n)%nat
      then Some (Z.of_nat (length big)) else None
  end.
Proof.
  intros Hsz. unfold oversized_bulk, encode_cmd in *. set (c := Z.of_nat (length args)) in *.
  assert (0 <= c <= i64_max) as Hc.
  { split; [lia|]. cbn [length] in Hsz. rewrite !length_app in Hsz.
    assert (length args <= length (concat (map bulk args)))%nat; [|lia].
    clear. induction args as [|a args IH]; simpl; [lia|]. rewrite length_app. lia. }
  destruct n as [|n].
  { cbn [take head]. rewrite decide_False by done. destruct (first_over cap args) as [[small big]|]; [|done].
    rewrite decide_False; [done|]. cbn [length]. lia. }
  cbn [take head]. rewrite decide_True by done.
  destruct (decide (n < length (dec c) + 2)%nat) as [Hpart|Hfull].
  - rewrite (app_assoc (dec c) crlf), take_app_le by (rewrite length_app; simpl; lia).
    pose proof (read_partial [x2a] c n ltac:(lia) Hpart) as Hr. cbn [app length] in Hr. rewrite Hr. cbn [mbind option_bind].
    destruct (first_over cap args) as [[small big]|]; [|done]. rewrite decide_False; [done|].
    cbn [length]. rewrite !length_app. simpl. lia.
  - rewrite (app_assoc (dec c) crlf), take_app_ge by (rewrite length_app; simpl; lia).
    rewrite <- app_assoc. set (m := (n - length (dec c ++ crlf))%nat).
    pose proof (read_header [x2a] c (take m (concat (map bulk args))) Hc) as Hr. cbn [app length] in Hr.
    rewrite Hr. cbn [mbind option_bind fst snd].
    pose proof (scan_bulks_spec cap args (S (S (length (dec c ++ crlf ++ take m (concat (map bulk args))))))
      (x2a :: dec c ++ crlf) m) as Hs.
    cbn [length app] in Hs |- *. rewrite <- app_assoc in Hs.
    replace (S (length (dec c ++ crlf))) with (1 + length (dec c) + 2)%nat in Hs by (rewrite length_app; simpl; lia).
    unfold c at 3. rewrite Hs.
    + unfold guard_answer. destruct (first_over cap args) as [[small big]|]; [|done].
      unfold m. rewrite !length_app. simpl. repeat case_decide; (done || lia).
    + rewrite !length_app. lia.
    + cbn [length] in Hsz. rewrite !length_app in Hsz. simpl in Hsz. lia.
Qed.

Lemma inline_command_roundtrip_witness :
  parse_frame (fun _ => Err "unused"%string)
    (blank_lines 1 ++ str "SET 'k' " ++ (x22 :: str "a\x20b" ++ [x22]) ++ crlf ++ str "GET")
  = Ok (Some (Array [BulkString (str "SET"); BulkString (str "k"); BulkString (str "a b")]), 20%nat).
Proof.
  assert (spelled [str "SET"; str "k"; str "a b"] (str "SET 'k' " ++ (x22 :: str "a\x20b" ++ [x22]))) as Hs.
  { apply (spelled_cons [] _ (str "SET") _ (str " 'k' " ++ (x22 :: str "a\x20b" ++ [x22]))); [constructor| |reflexivity|].
    { apply (written_plain x53 (str "ET")); [discriminate|discriminate|repeat constructor]. }
    apply (spelled_cons [x20] _ (str "'k'") _ (str " " ++ (x22 :: str "a\x20b" ++ [x22]))); [repeat constructor| |reflexivity|].
    { apply (written_single _ [str "k"]). apply List.Forall2_cons; [left; split; [reflexivity|split; discriminate]|constructor]. }
    apply (spelled_cons [x20] _ (x22 :: str "a\x20b" ++ [x22]) _ []); [repeat constructor| |exact I|repeat constructor].
    apply (written_double _ [str "a"; str "\x20"; str "b"]).
    apply List.Forall2_cons; [left; split; [reflexivity|split; discriminate]|].
    apply List.Forall2_cons; [right; right; exists x32, x30, 2, 0; repeat split|].
    apply List.Forall2_cons; [left; split; [reflexivity|split; discriminate]|constructor]. }
  pose proof (proj1 (inline_command_roundtrip (fun _ => Err "unused"%string) 1 _ _ (str "GET") Hs
    ltac:(discriminate) ltac:(apply (bool_decide_unpack _); vm_compute; exact I) ltac:(vm_compute; reflexivity)
    ltac:(intros b [= <-]; apply (bool_decide_unpack _); vm_compute; exact I))) as Hx.
  exact Hx.
Defined.

Lemma oversized_seen_from_header_witness :
  oversized_bulk (take 31 (encode_cmd [str "SET"; str "key"; str "12345678"])) 4 = Some 8 /\
  oversized_bulk (take 25 (encode_cmd [str "SET"; str "key"; str "12345678"])) 4 = None.
Proof.
  split; (rewrite oversized_seen_from_header; [vm_compute; reflexivity|vm_compute; discriminate]).
Defined.
