(* ===== verification/Externals.v ===== *)
(** The third-party crates the storage engine computes with, as interfaces:
    [blake3] (block addresses), [md-5] (ETags), [faster_hex] (names) and the
    laws the engine relies on.  Each interface has a concrete instance at the
    end, so that statements about an arbitrary implementation can be
    evaluated. *)

From S2P Require Import Prelude Bytes.
From Stdlib Require Import Strings.Byte.

(** [blake3::hash]: the 256-bit digest of a byte string. *)
Class Blake3 := blake3_hash : bytes -> bytes.
Class Blake3Laws `{Blake3} : Prop :=
  length_blake3_hash d : length (blake3_hash d) = 32%nat.

(** [Md5::digest].  The streaming interface ([new], [update], [finalize])
    digests the concatenation of the updates. *)
Class Md5 := md5_digest : bytes -> bytes.
Class Md5Laws `{Md5} : Prop :=
  length_md5_digest d : length (md5_digest d) = 16%nat.

Definition is_lower_hex (b : byte) : bool :=
  in_range 0x30 0x39 b || in_range 0x61 0x66 b.

(** [faster_hex]: lowercase encoding two characters per byte, and decoding
    (which answers [None] on a character that is not hexadecimal). *)
Class FasterHex := {
  hex_string : bytes -> bytes;
  hex_decode : bytes -> option bytes
}.
Class FasterHexLaws `{FasterHex} : Prop := {
  length_hex_string d : length (hex_string d) = (2 * length d)%nat;
  hex_string_lower d : Forall (fun b => is_lower_hex b = true) (hex_string d);
  hex_decode_string d : hex_decode (hex_string d) = Some d;
  hex_decode_length s d : hex_decode s = Some d -> length s = (2 * length d)%nat
}.

Section Hex.
Context `{FasterHexLaws}.

Lemma hex_string_inj a b : hex_string a = hex_string b -> a = b.
Proof.
  intros E. apply (f_equal hex_decode) in E.
  rewrite !hex_decode_string in E. by simplify_eq.
Qed.

Lemma hex_string_not_in d c : is_lower_hex c = false -> c ∉ hex_string d.
Proof.
  intros Hc Hin. pose proof (hex_string_lower d) as Hl.
  rewrite Forall_forall in Hl. apply Hl in Hin. congruence.
Qed.
End Hex.

(* ------------------------------------------------------------------ *)
(** * Concrete instances *)

Module Concrete.

(** A digest good enough to evaluate with: the length, then the data padded
    or cut to the digest's width. *)
Definition pad_to (n : nat) (d : bytes) : bytes := resize n Byte.x00 d.

Definition toy_digest (n : nat) (d : bytes) : bytes :=
  pad_to n (byte_of_Z (Z.of_nat (length d)) :: d).

#[global] Instance blake3 : Blake3 := toy_digest 32.
#[global] Instance blake3_laws : Blake3Laws.
Proof. intros d. apply length_resize. Qed.

#[global] Instance md5 : Md5 := toy_digest 16.
#[global] Instance md5_laws : Md5Laws.
Proof. intros d. apply length_resize. Qed.

Definition hex_digit (z : Z) : byte :=
  byte_of_Z (if z <? 10 then 0x30 + z else 0x61 + (z - 10)).

Definition hex_value (b : byte) : option Z :=
  let z := byte_to_Z b in
  if in_range 0x30 0x39 b then Some (z - 0x30)
  else if in_range 0x61 0x66 b then Some (z - 0x61 + 10)
  else if in_range 0x41 0x46 b then Some (z - 0x41 + 10)
  else None.

Fixpoint hex_encode (d : bytes) : bytes :=
  match d with
  | [] => []
  | b :: d' => hex_digit (byte_to_Z b / 16) :: hex_digit (byte_to_Z b mod 16) :: hex_encode d'
  end.

Fixpoint hex_decode_list (s : bytes) : option bytes :=
  match s with
  | [] => Some []
  | hi :: lo :: s' =>
      h ← hex_value hi; l ← hex_value lo; d ← hex_decode_list s';
      Some (byte_of_Z (16 * h + l) :: d)
  | [_] => None
  end.

#[global] Instance hex : FasterHex :=
  {| hex_string := hex_encode; hex_decode := hex_decode_list |}.

Lemma hex_digit_value z : 0 <= z < 16 -> hex_value (hex_digit z) = Some z.
Proof.
  intros Hz. assert (z ∈ seqZ 0 16) as Hin by (apply elem_of_seqZ; lia).
  clear Hz. revert z Hin. apply Forall_forall. repeat constructor.
Qed.

Lemma hex_digit_lower z : 0 <= z < 16 -> is_lower_hex (hex_digit z) = true.
Proof.
  intros Hz. assert (z ∈ seqZ 0 16) as Hin by (apply elem_of_seqZ; lia).
  clear Hz. revert z Hin. apply Forall_forall. repeat constructor.
Qed.

Lemma nibbles_range b : 0 <= byte_to_Z b / 16 < 16 /\ 0 <= byte_to_Z b mod 16 < 16.
Proof.
  pose proof (byte_to_Z_range b). split; [|apply Z.mod_pos_bound; lia].
  split; [apply Z.div_pos; lia|apply Z.div_lt_upper_bound; lia].
Qed.

Lemma hex_decode_list_length n s d : (length s <= n)%nat -> hex_decode_list s = Some d -> length s = (2 * length d)%nat.
Proof.
  revert s d. induction n as [|n IH]; intros [|hi [|lo s]] d Hn E; simpl in *; simplify_eq/=; try lia.
  destruct (hex_value hi), (hex_value lo), (hex_decode_list s) as [d'|] eqn:Es; simplify_eq/=.
  rewrite (IH s d') by (done || lia). lia.
Qed.

#[global] Instance hex_laws : FasterHexLaws.
Proof.
  split; [..|intros s d; by apply (hex_decode_list_length (length s))]; intros d; induction d as [|b d IH]; simpl in *; try done.
  - rewrite IH. lia.
  - destruct (nibbles_range b). repeat constructor; auto using hex_digit_lower.
  - destruct (nibbles_range b).
    rewrite !hex_digit_value by done. simpl. rewrite IH. simpl.
    by rewrite <- Z.div_mod, byte_of_to_Z by lia.
Qed.

End Concrete.
