(* ===== verification/BlockIds.v ===== *)
(** Block addresses (src/cas-storage/src/metastore/block.rs, first half),
    the decode errors (metastore/errors.rs), the ETag digest
    (metastore/content_hash.rs) and the hash function of a store
    (src/cas-storage/src/hasher.rs). *)

From S2P Require Import Prelude Bytes Externals.
From Stdlib Require Import Strings.Byte.

(** [FsError]: why a stored record did not decode. *)
Inductive FsError : Type :=
| Truncated (record : string) (needed got : Z)
| TrailingBytes (record : string) (extra : Z)
| InvalidUtf8 (record field : string)
| UnknownObjectType (t : Z)
| InvalidIdWidth (w : Z)
| LengthOverflow (record field : string).

#[global] Instance FsError_eq_dec : EqDecision FsError.
Proof. solve_decision. Defined.

Definition BLOCKID_SIZE : nat := 16.
Definition MAX_BLOCKID_SIZE : nat := 32.
Definition CONTENT_HASH_SIZE : nat := 16.

(** The directory components of a path, outermost first. *)
Abbreviation path := (list bytes).

(* ------------------------------------------------------------------ *)
(** * [BlockId] *)

Record BlockId : Type := mkBlockId {
  bid_bytes : bytes;
  bid_len : Z
}.

#[global] Instance BlockId_eq_dec : EqDecision BlockId.
Proof. solve_decision. Defined.

#[global] Instance BlockId_countable : Countable BlockId :=
  inj_countable' (fun i => (bid_bytes i, bid_len i)) (fun p => mkBlockId p.1 p.2)
    (fun i => match i with mkBlockId _ _ => eq_refl end).

(** The invariant of the type: 32 bytes of storage, a width of 16 or 32, and
    zero padding past the width. *)
Definition BlockId_wf (i : BlockId) : Prop :=
  length (bid_bytes i) = MAX_BLOCKID_SIZE /\
  (bid_len i = 16 \/ bid_len i = 32) /\
  drop (Z.to_nat (bid_len i)) (bid_bytes i)
    = replicate (MAX_BLOCKID_SIZE - Z.to_nat (bid_len i)) Byte.x00.

#[global] Instance BlockId_wf_dec i : Decision (BlockId_wf i).
Proof. unfold BlockId_wf. apply _. Defined.

Definition from_slice (bs : bytes) : result FsError BlockId :=
  if (length bs =? BLOCKID_SIZE)%nat || (length bs =? MAX_BLOCKID_SIZE)%nat then
    Ok (mkBlockId (bs ++ replicate (MAX_BLOCKID_SIZE - length bs) Byte.x00)
                  (Z.of_nat (length bs)))
  else Err (InvalidIdWidth (Z.min (Z.of_nat (length bs)) u8_max)).

Definition as_slice (i : BlockId) : bytes := take (Z.to_nat (bid_len i)) (bid_bytes i).

Definition id_width (i : BlockId) : nat := Z.to_nat (bid_len i).

Definition is_empty (i : BlockId) : bool := bid_len i =? 0.

Definition to_hex `{FasterHex} (i : BlockId) : bytes := hex_string (as_slice i).

(** [From<[u8; 16]>] and [From<[u8; 32]>]: total, the array type fixes the
    length. *)
Definition from_array16 (bs : bytes) : BlockId :=
  mkBlockId (bs ++ replicate (MAX_BLOCKID_SIZE - BLOCKID_SIZE) Byte.x00) 16.
Definition from_array32 (bs : bytes) : BlockId := mkBlockId bs 32.

(** The derived [Ord]: the padded arrays first, the lengths second. *)
Definition BlockId_ltb (a b : BlockId) : bool :=
  if decide (bid_bytes a = bid_bytes b) then bid_len a <? bid_len b
  else bytes_ltb (bid_bytes a) (bid_bytes b).

(** [block_disk_path]: one directory per leading byte, then the full name. *)
Definition block_disk_path `{FasterHex} (i : BlockId) (depth : Z) (root : path) : path :=
  let depth := Z.to_nat (Z.max 1 (Z.min depth (Z.of_nat (id_width i)))) in
  root ++ map (fun b => hex_string [b]) (take depth (as_slice i)) ++ [to_hex i].

(** The fanout directory a block file lands in: [final_path.parent()]. *)
Definition parent (p : path) : option path :=
  match p with [] => None | _ => Some (take (length p - 1) p) end.

(* ------------------------------------------------------------------ *)
(** * [ContentHash] and [Hasher] *)

(** The MD5 of a whole object: sixteen bytes, never a block address. *)
Record ContentHash : Type := mkContentHash { ch_bytes : bytes }.

#[global] Instance ContentHash_eq_dec : EqDecision ContentHash.
Proof. solve_decision. Defined.

Definition ContentHash_wf (h : ContentHash) : Prop :=
  length (ch_bytes h) = CONTENT_HASH_SIZE.

Definition ch_to_hex `{FasterHex} (h : ContentHash) : bytes := hex_string (ch_bytes h).

Inductive Hasher : Type := Blake3W16 | Blake3W32.

#[global] Instance Hasher_eq_dec : EqDecision Hasher.
Proof. solve_decision. Defined.

Inductive HasherError : Type := UnknownAlgo (algo : Z) | UnsupportedWidth (width : Z).

#[global] Instance HasherError_eq_dec : EqDecision HasherError.
Proof. solve_decision. Defined.

Definition ALGO_BLAKE3 : Z := 1.
Definition WIDTH_16 : Z := 16.
Definition WIDTH_32 : Z := 32.

Definition algo_id (h : Hasher) : Z :=
  match h with Blake3W16 | Blake3W32 => ALGO_BLAKE3 end.

Definition hasher_width (h : Hasher) : Z :=
  match h with Blake3W16 => WIDTH_16 | Blake3W32 => WIDTH_32 end.

Definition hash_block `{Blake3} (h : Hasher) (data : bytes) : BlockId :=
  let full := blake3_hash data in
  match h with
  | Blake3W16 => from_array16 (take (Z.to_nat WIDTH_16) full)
  | Blake3W32 => from_array32 full
  end.

Definition from_header (algo width : Z) : result HasherError Hasher :=
  if algo =? ALGO_BLAKE3 then
    if width =? WIDTH_16 then Ok Blake3W16
    else if width =? WIDTH_32 then Ok Blake3W32
    else Err (UnsupportedWidth width)
  else Err (UnknownAlgo algo).

(* ------------------------------------------------------------------ *)
(** * Facts about block ids *)

Lemma id_width_cases i : BlockId_wf i -> id_width i = 16%nat \/ id_width i = 32%nat.
Proof. unfold id_width. intros (_ & [->| ->] & _); [by left|by right]. Qed.

Lemma length_as_slice i : BlockId_wf i -> length (as_slice i) = id_width i.
Proof.
  intros (Hl & Hw & _). unfold as_slice, id_width. rewrite length_take, Hl.
  unfold MAX_BLOCKID_SIZE. destruct Hw as [->| ->]; done.
Qed.

Lemma bid_bytes_padded i :
  BlockId_wf i ->
  bid_bytes i = as_slice i ++ replicate (MAX_BLOCKID_SIZE - id_width i) Byte.x00.
Proof.
  intros (_ & _ & Hp). unfold as_slice, id_width. rewrite <- Hp.
  by rewrite take_drop.
Qed.

Lemma padded_id_wf bs :
  length bs = 16%nat \/ length bs = 32%nat ->
  let i := mkBlockId (bs ++ replicate (MAX_BLOCKID_SIZE - length bs) Byte.x00)
                     (Z.of_nat (length bs)) in
  BlockId_wf i /\ as_slice i = bs.
Proof.
  intros Hl i. unfold BlockId_wf, as_slice, i. cbn [bid_len bid_bytes].
  rewrite Nat2Z.id, drop_app_length, take_app_length, length_app, length_replicate.
  unfold MAX_BLOCKID_SIZE. split; [|done]. split; [lia|]. split; [lia|done].
Qed.

Lemma from_slice_ok bs i :
  from_slice bs = Ok i -> BlockId_wf i /\ as_slice i = bs.
Proof.
  unfold from_slice.
  destruct (Nat.eqb_spec (length bs) BLOCKID_SIZE) as [H|_];
    [|destruct (Nat.eqb_spec (length bs) MAX_BLOCKID_SIZE) as [H|_]; [|done]];
    cbn [orb]; intros [= <-]; apply padded_id_wf; auto.
Qed.

Lemma from_slice_as_slice i : BlockId_wf i -> from_slice (as_slice i) = Ok i.
Proof.
  intros Hwf. unfold from_slice.
  rewrite length_as_slice by done.
  assert (((id_width i =? BLOCKID_SIZE) || (id_width i =? MAX_BLOCKID_SIZE))%nat = true) as ->.
  { by destruct (id_width_cases i Hwf) as [->| ->]. }
  f_equal. rewrite <- bid_bytes_padded by done. destruct i as [b l].
  simpl in *. f_equal. destruct Hwf as (_ & Hw & _). unfold id_width. simpl in *. lia.
Qed.

Lemma as_slice_inj i j : BlockId_wf i -> BlockId_wf j -> as_slice i = as_slice j -> i = j.
Proof.
  intros Hi Hj E. apply (f_equal from_slice) in E.
  rewrite !from_slice_as_slice in E by done. by simplify_eq.
Qed.

Lemma from_array16_wf bs : length bs = 16%nat -> BlockId_wf (from_array16 bs).
Proof.
  intros H. assert (from_slice bs = Ok (from_array16 bs)) as E.
  { unfold from_slice. by rewrite H. }
  by apply from_slice_ok in E as [].
Qed.

Lemma from_array32_wf bs : length bs = 32%nat -> BlockId_wf (from_array32 bs).
Proof.
  intros H. assert (from_slice bs = Ok (from_array32 bs)) as E.
  { unfold from_slice. rewrite H. simpl. by rewrite app_nil_r. }
  by apply from_slice_ok in E as [].
Qed.

Lemma hash_block_wf `{Blake3Laws} h data : BlockId_wf (hash_block h data).
Proof.
  destruct h; simpl.
  - apply from_array16_wf. by rewrite length_take, length_blake3_hash.
  - apply from_array32_wf. apply length_blake3_hash.
Qed.

Lemma hash_block_width `{Blake3} h data :
  id_width (hash_block h data) = Z.to_nat (hasher_width h).
Proof. by destruct h. Qed.

Lemma zero_le_byte y : byte_to_Z Byte.x00 <= byte_to_Z y.
Proof. pose proof (byte_to_Z_range y). change (byte_to_Z Byte.x00) with 0. lia. Qed.

Lemma bytes_ltb_zeros_l l :
  l <> replicate (length l) Byte.x00 ->
  bytes_ltb (replicate (length l) Byte.x00) l = true.
Proof.
  induction l as [|y l IH]; [done|]. intros Hne. cbn [replicate length bytes_ltb] in *.
  pose proof (zero_le_byte y).
  destruct (Z.ltb_spec (byte_to_Z Byte.x00) (byte_to_Z y)); [done|].
  assert (Byte.x00 = y) as <- by (apply byte_to_Z_inj; lia).
  rewrite Z.eqb_refl. apply IH. congruence.
Qed.

Lemma bytes_ltb_zeros_r l : bytes_ltb l (replicate (length l) Byte.x00) = false.
Proof.
  induction l as [|y l IH]; [done|]. cbn [replicate length bytes_ltb].
  pose proof (zero_le_byte y).
  destruct (Z.ltb_spec (byte_to_Z y) (byte_to_Z Byte.x00)); [lia|].
  by destruct (_ =? _).
Qed.

(** Padding with zeros to a common length keeps the lexicographic order of
    strings whose padded forms differ. *)
Lemma bytes_ltb_padded a b n m :
  (length a + n = length b + m)%nat ->
  a ++ replicate n Byte.x00 <> b ++ replicate m Byte.x00 ->
  bytes_ltb (a ++ replicate n Byte.x00) (b ++ replicate m Byte.x00) = bytes_ltb a b.
Proof.
  revert b. induction a as [|x a IH]; intros [|y b] Hl Hne.
  - simpl in *. by replace m with n in Hne by lia.
  - rewrite app_nil_l in *.
    replace n with (length ((y :: b) ++ replicate m Byte.x00)) in *
      by (rewrite length_app, length_replicate; simpl in *; lia).
    by apply bytes_ltb_zeros_l.
  - rewrite app_nil_l in *.
    replace m with (length ((x :: a) ++ replicate n Byte.x00))
      by (rewrite length_app, length_replicate; simpl in *; lia).
    by rewrite bytes_ltb_zeros_r.
  - simpl in *. destruct (Z.ltb_spec (byte_to_Z x) (byte_to_Z y)); [done|].
    destruct (Z.eqb_spec (byte_to_Z x) (byte_to_Z y)) as [E|]; [|done].
    apply byte_to_Z_inj in E as ->. apply IH; [lia|congruence].
Qed.

Lemma block_disk_path_last `{FasterHex} i d root :
  last (block_disk_path i d root) = Some (to_hex i).
Proof. unfold block_disk_path. by rewrite app_assoc, last_snoc. Qed.

Lemma block_disk_path_name_inj `{FasterHexLaws} i j d d' root root' :
  BlockId_wf i -> BlockId_wf j ->
  block_disk_path i d root = block_disk_path j d' root' -> i = j.
Proof.
  intros Hi Hj E. apply (f_equal last) in E.
  rewrite !block_disk_path_last in E. injection E as E.
  apply hex_string_inj in E. by apply as_slice_inj.
Qed.

(** The number of fanout levels of a path: the clamped depth. *)
Definition clamp_depth (i : BlockId) (d : Z) : Z := Z.max 1 (Z.min d (Z.of_nat (id_width i))).

Lemma length_block_disk_path `{FasterHex} i d root :
  BlockId_wf i ->
  Z.of_nat (length (block_disk_path i d root)) = Z.of_nat (length root) + clamp_depth i d + 1.
Proof.
  intros Hi. unfold block_disk_path. rewrite !length_app, length_map, length_take, length_as_slice by done.
  unfold clamp_depth. destruct (id_width_cases i Hi) as [->| ->]; simpl; lia.
Qed.

Lemma clamp_depth_id i d : BlockId_wf i -> 1 <= d <= Z.of_nat (id_width i) -> clamp_depth i d = d.
Proof. unfold clamp_depth. lia. Qed.

(* ------------------------------------------------------------------ *)
(** * Properties *)

(** The derived comparisons of [BlockId] agree with the byte strings
    [as_slice] returns: two well-formed ids compare, in the order the derive
    gives the padded arrays and then the lengths, exactly as their significant
    bytes compare lexicographically, and they are equal exactly when those
    bytes are. *)
Theorem blockid_order_matches_slices i j :
  BlockId_wf i -> BlockId_wf j ->
  BlockId_ltb i j = bytes_ltb (as_slice i) (as_slice j) /\
  (i = j <-> as_slice i = as_slice j).
Proof.
  intros Hi Hj. split; [|split; [by intros ->|by apply as_slice_inj]].
  unfold BlockId_ltb. rewrite (bid_bytes_padded i), (bid_bytes_padded j) by done.
  pose proof (length_as_slice i Hi) as Li. pose proof (length_as_slice j Hj) as Lj.
  destruct (decide _) as [E|Hne].
  - destruct (id_width_cases i Hi) as [Wi|Wi], (id_width_cases j Hj) as [Wj|Wj];
      rewrite Wi, Wj in *; unfold id_width in *; unfold MAX_BLOCKID_SIZE in E; simpl in E.
    + apply app_inj_length in E as [-> _]; [|lia]. rewrite bytes_ltb_irrefl. lia.
    + rewrite app_nil_r in E. rewrite <- E.
      assert (bytes_ltb (as_slice i) (as_slice i ++ replicate 16 Byte.x00) = true) as H.
      { rewrite <- (app_nil_r (as_slice i)) at 1. by rewrite bytes_ltb_app_same. }
      simpl in H. rewrite H. lia.
    + rewrite app_nil_r in E. rewrite E.
      assert (bytes_ltb (as_slice j ++ replicate 16 Byte.x00) (as_slice j) = false) as H.
      { rewrite <- (app_nil_r (as_slice j)) at 2. by rewrite bytes_ltb_app_same. }
      simpl in H. rewrite H. lia.
    + rewrite !app_nil_r in E. rewrite E, bytes_ltb_irrefl. lia.
  - apply bytes_ltb_padded; [|done]. rewrite Li, Lj. unfold MAX_BLOCKID_SIZE.
    destruct (id_width_cases i Hi) as [->| ->], (id_width_cases j Hj) as [->| ->]; done.
Qed.

Lemma blockid_order_matches_slices_witness :
  let i := from_array16 (replicate 16 Byte.x01) in
  let j := from_array32 (replicate 16 Byte.x01 ++ replicate 16 Byte.x00) in
  BlockId_ltb i j = bytes_ltb (as_slice i) (as_slice j) /\
  (i = j <-> as_slice i = as_slice j).
Proof.
  apply blockid_order_matches_slices.
  - apply from_array16_wf. reflexivity.
  - apply from_array32_wf. reflexivity.
Defined.

(** A block file's name identifies its block at every fanout depth and
    under every root: two well-formed ids never share a path, whatever depth
    their records name.  The path has exactly as many fanout directories as the
    depth clamped to [1 ..= width]. *)
Theorem block_path_identifies_block `{FasterHexLaws} i j d d' root :
  BlockId_wf i -> BlockId_wf j ->
  (block_disk_path i d root = block_disk_path j d' root -> i = j) /\
  Z.of_nat (length (block_disk_path i d root))
    = Z.of_nat (length root) + clamp_depth i d + 1 /\
  1 <= clamp_depth i d <= Z.of_nat (id_width i).
Proof.
  intros Hi Hj. split; [by apply block_disk_path_name_inj|].
  split; [by apply length_block_disk_path|].
  unfold clamp_depth. destruct (id_width_cases i Hi) as [->| ->]; lia.
Qed.

Lemma block_path_identifies_block_witness :
  let i := from_array16 (replicate 16 Byte.xab) in
  let j := from_array16 (replicate 16 Byte.x01) in
  block_disk_path i 255 [str "r"] <> block_disk_path j 0 [str "r"].
Proof.
  intros i j E.
  assert (BlockId_wf i /\ BlockId_wf j) as [Hi Hj].
  { split; apply from_array16_wf; reflexivity. }
  pose proof (proj1 (block_path_identifies_block i j 255 0 [str "r"] Hi Hj) E) as Hij.
  discriminate Hij.
Defined.

(** Both widths of the block hash agree: the address of a block is
    well-formed and as wide as the hasher says, and the narrow address is the
    prefix of the wide one. *)
Theorem narrow_address_is_prefix `{Blake3Laws} data :
  BlockId_wf (hash_block Blake3W16 data) /\ BlockId_wf (hash_block Blake3W32 data) /\
  as_slice (hash_block Blake3W16 data) = take 16 (as_slice (hash_block Blake3W32 data)) /\
  (forall h, from_header (algo_id h) (hasher_width h) = Ok h /\
             length (as_slice (hash_block h data)) = Z.to_nat (hasher_width h)).
Proof.
  split; [apply hash_block_wf|]. split; [apply hash_block_wf|]. split.
  - unfold as_slice, hash_block, from_array16, from_array32. simpl bid_len. simpl bid_bytes.
    change (Z.to_nat 32) with 32%nat. change (Z.to_nat WIDTH_16) with 16%nat.
    change (Z.to_nat 16) with 16%nat.
    rewrite (take_ge (blake3_hash data) 32) by (rewrite length_blake3_hash; lia).
    rewrite take_app_le by (rewrite length_take, length_blake3_hash; lia).
    by rewrite take_take.
  - intros h. split; [by destruct h|].
    by rewrite length_as_slice, hash_block_width by apply hash_block_wf.
Qed.

Lemma narrow_address_is_prefix_witness :
  as_slice (hash_block Blake3W16 (str "abc"))
    = take 16 (as_slice (hash_block Blake3W32 (str "abc"))).
Proof. apply (narrow_address_is_prefix (str "abc")). Defined.

#[export] Hint Resolve hash_block_wf from_slice_as_slice length_as_slice : qss.
