(* ===== verification/Stripes.v ===== *)
(** The stripes (cas/stripes.rs): a fixed set of locks indexed by block
    address.  A task takes the stripes of its blocks in index order, runs its
    critical section and releases them together; the system of all tasks is a
    step relation, in which a stripe is held by at most one task and no set of
    tasks can block each other. *)

From S2P Require Import Prelude Bytes BlockIds.
From Stdlib Require Import Strings.Byte.
Local Open Scope nat_scope.
#[local] Set Warnings "-clear-no-such-hyp".

Definition DEFAULT_STRIPE_COUNT : nat := 1024.
Definition MAX_STRIPE_COUNT : Z := 65536%Z.

(** [Stripes]: the number of its locks. *)
Record Stripes : Type := mkStripes { st_len : nat }.

Definition new_stripes (n : nat) : Stripes := mkStripes (Nat.max n 1).

(** [index_of]: [bytes[0]] and [bytes[1]] index a slice of 16 or 32 bytes;
    [None] is the panic of a shorter one. *)
Definition index_of (s : Stripes) (i : BlockId) : option nat :=
  match as_slice i with
  | b0 :: b1 :: _ =>
      Some (Z.to_nat (Z.lor (Z.shiftl (byte_to_Z b0) 8) (byte_to_Z b1)) mod st_len s)
  | _ => None
  end.

(** [Vec::dedup]: of equal neighbours the first stays. *)
Fixpoint dedup (l : list nat) : list nat :=
  match l with
  | x :: l' => match dedup l' with
               | y :: r => if x =? y then x :: r else x :: y :: r
               | [] => [x]
               end
  | [] => []
  end.

(** The stripes [lock_batch] takes, in the order it takes them; the order of a
    sort of integers is the same whichever the algorithm. *)
Definition wanted (s : Stripes) (ids : list BlockId) : option (list nat) :=
  indices ← mapM (index_of s) ids; Some (dedup (merge_sort Nat.le indices)).

(** One task: it waits for the head of [t_rest], holding [t_held]; with
    nothing left to wait for it is in its critical section; its guard drops
    and it is finished. *)
Record Task : Type := mkTask { t_held : list nat; t_rest : list nat; t_done : bool }.

Definition start (stripes : list nat) : Task := mkTask [] stripes false.

Definition held_by (ts : list Task) (x : nat) : Prop := Exists (fun t => x ∈ t_held t) ts.

(** A lock is taken only when nobody holds it. *)
Inductive step : list Task -> list Task -> Prop :=
| step_acquire ts k held x rest :
    ts !! k = Some (mkTask held (x :: rest) false) -> ~ held_by ts x ->
    step ts (<[k := mkTask (held ++ [x]) rest false]> ts)
| step_release ts k held :
    ts !! k = Some (mkTask held [] false) -> step ts (<[k := mkTask [] [] true]> ts).

(** In its critical section. *)
Definition inside (t : Task) : Prop := t_rest t = [] /\ t_done t = false.

(* ------------------------------------------------------------------ *)
(** * The order of acquisition *)

Lemma index_of_total s i : BlockId_wf i -> is_Some (index_of s i).
Proof.
  intros Hi. unfold index_of. pose proof (length_as_slice i Hi) as Hl.
  destruct (as_slice i) as [|b0 [|b1 r]]; simpl in Hl; [..|done];
    destruct (id_width_cases i Hi) as [E|E]; rewrite E in Hl; lia.
Qed.

Lemma index_of_bound s i x : (1 <= st_len s)%nat -> index_of s i = Some x -> x < st_len s.
Proof.
  unfold index_of. intros Hs. destruct (as_slice i) as [|b0 [|b1 r]]; [done..|].
  intros [= <-]. apply Nat.mod_upper_bound. lia.
Qed.

Lemma elem_of_dedup x l : x ∈ dedup l <-> x ∈ l.
Proof.
  induction l as [|y l IH]; [done|]. simpl. rewrite elem_of_cons, <- IH.
  destruct (dedup l) as [|z r]; [set_solver|]. destruct (Nat.eqb_spec y z); set_solver.
Qed.

Lemma dedup_sorted l : Sorted Nat.le l -> StronglySorted Nat.lt (dedup l).
Proof.
  induction 1 as [|y l Hl IH Hhd]; [constructor|]. simpl.
  assert (forall z, z ∈ l -> y <= z) as Hle.
  { assert (StronglySorted Nat.le (y :: l)) as Hs by (apply Sorted_StronglySorted; [|by constructor]; by intros ???; lia).
    apply StronglySorted_inv in Hs as [_ Hs]. rewrite Forall_forall in Hs. done. }
  assert (forall z, z ∈ dedup l -> y <= z) as Hle' by (intros z; rewrite elem_of_dedup; apply Hle).
  destruct (dedup l) as [|z r]; [by repeat constructor|].
  apply StronglySorted_inv in IH as [Hr Hz]. destruct (Nat.eqb_spec y z) as [->|Hne].
  - by constructor.
  - assert (y < z) by (specialize (Hle' z ltac:(by left)); lia). constructor; [by constructor|].
    constructor; [done|]. eapply Forall_impl; [exact Hz|]. simpl. intros; lia.
Qed.

Lemma wanted_spec s ids l :
  wanted s ids = Some l ->
  StronglySorted Nat.lt l /\ forall x, x ∈ l <-> exists i, i ∈ ids /\ index_of s i = Some x.
Proof.
  unfold wanted. intros (idx & Hidx & [= <-])%bind_Some. apply mapM_Some in Hidx. split.
  - apply dedup_sorted, Sorted_merge_sort. intros ??; lia.
  - intros x. rewrite elem_of_dedup, merge_sort_Permutation. split.
    + intros [k Hk]%list_elem_of_lookup. destruct (Forall2_lookup_r _ _ _ _ _ Hidx Hk) as (i & Hi & Hx).
      exists i. split; [by eapply list_elem_of_lookup_2|done].
    + intros (i & [k Hk]%list_elem_of_lookup & Hx). destruct (Forall2_lookup_l _ _ _ _ _ Hidx Hk) as (y & Hy & Hxy).
      simplify_eq. by eapply list_elem_of_lookup_2.
Qed.

Lemma wanted_total s ids : Forall BlockId_wf ids -> is_Some (wanted s ids).
Proof.
  intros Hids. unfold wanted. assert (is_Some (mapM (index_of s) ids)) as [l ->]; [|by eexists].
  apply mapM_is_Some. eapply Forall_impl; [exact Hids|]. apply index_of_total.
Qed.

(* ------------------------------------------------------------------ *)
(** * The system of tasks *)

Definition task_ok (t : Task) : Prop :=
  StronglySorted Nat.lt (t_held t ++ t_rest t) /\ (t_done t = true -> t_held t = [] /\ t_rest t = []).

Record system_ok (ts : list Task) : Prop := mkSystemOk {
  so_tasks : Forall task_ok ts;
  so_exclusive : forall j k t u x, ts !! j = Some t -> ts !! k = Some u -> x ∈ t_held t -> x ∈ t_held u -> j = k
}.

Lemma start_ok ls : Forall (StronglySorted Nat.lt) ls -> system_ok (map start ls).
Proof.
  intros Hls. split.
  - apply Forall_map. eapply Forall_impl; [exact Hls|]. intros l Hl. by split.
  - intros j k t u x Ht _ Hx. rewrite list_lookup_fmap in Ht. destruct (ls !! j); simplify_eq/=.
    by apply elem_of_nil in Hx.
Qed.

Lemma insert_ok ts k t t' :
  system_ok ts -> ts !! k = Some t -> task_ok t' ->
  (forall x, x ∈ t_held t' -> x ∈ t_held t \/ ~ held_by ts x) -> system_ok (<[k := t']> ts).
Proof.
  intros [Hts Hex] Hk Ht' Hnew. split; [by apply Forall_insert|].
  assert (forall j u x, j <> k -> ts !! j = Some u -> x ∈ t_held u -> x ∉ t_held t') as Hdis.
  { intros j u x Hj Hu Hx Hx'. destruct (Hnew x Hx') as [Ht|Hno].
    - apply Hj. by eapply Hex.
    - apply Hno, Exists_exists. exists u. split; [by eapply list_elem_of_lookup_2|done]. }
  pose proof (lookup_lt_Some _ _ _ Hk) as Hlt. intros j j' u u' x Hu Hu' Hx Hx'.
  destruct (decide (j = k)) as [->|Hj], (decide (j' = k)) as [->|Hj']; try done.
  - rewrite list_lookup_insert_eq in Hu by done. rewrite list_lookup_insert_ne in Hu' by done. simplify_eq.
    exfalso. by eapply (Hdis j').
  - rewrite list_lookup_insert_ne in Hu by done. rewrite list_lookup_insert_eq in Hu' by done. simplify_eq.
    exfalso. by eapply (Hdis j).
  - rewrite list_lookup_insert_ne in Hu, Hu' by done. by eapply Hex.
Qed.

Lemma step_ok ts ts' : step ts ts' -> system_ok ts -> system_ok ts'.
Proof.
  intros Hstep Hok. destruct Hstep as [ts k held x rest Hk Hfree|ts k held Hk];
    pose proof (so_tasks _ Hok) as Hts; rewrite Forall_forall in Hts;
    pose proof (Hts _ (list_elem_of_lookup_2 _ _ _ Hk)) as [Hs _]; simpl in Hs.
  - eapply insert_ok; [done|done| |].
    + split; [|done]. simpl. by rewrite <- app_assoc.
    + simpl. intros y [Hy|Hy%list_elem_of_singleton]%elem_of_app; [by left|right]. by subst.
  - eapply insert_ok; [done|done|split; [constructor|done]|]. simpl. by intros y ?%elem_of_nil.
Qed.

Lemma reachable_ok ls ts : Forall (StronglySorted Nat.lt) ls -> rtc step (map start ls) ts -> system_ok ts.
Proof.
  intros Hls Hr. pose proof (start_ok ls Hls) as H0. induction Hr as [|ts ts1 ts2 Hs _ IH]; [done|].
  by apply IH, (step_ok ts).
Qed.

(** A task's stripes are those it started with until it releases them. *)
Lemma reachable_stripes ls ts k l t :
  rtc step (map start ls) ts -> ls !! k = Some l -> ts !! k = Some t ->
  t_held t ++ t_rest t = l \/ t_done t = true.
Proof.
  intros Hr Hl. revert t. remember (map start ls) as ts0 eqn:E0.
  assert (forall t, ts0 !! k = Some t -> t_held t ++ t_rest t = l \/ t_done t = true) as H0.
  { intros t Ht. rewrite E0, list_lookup_fmap, Hl in Ht. injection Ht as <-. by left. }
  clear E0. induction Hr as [|ts0 ts1 ts2 Hs _ IH]; [done|]. apply IH. intros t Ht.
  destruct Hs as [ts0 j held x rest Hj _|ts0 j held Hj];
    (destruct (decide (j = k)) as [->|Hne];
      [rewrite list_lookup_insert_eq in Ht by (by eapply lookup_lt_Some); injection Ht as <-
      |rewrite list_lookup_insert_ne in Ht by done; by apply H0]).
  - simpl. rewrite <- app_assoc. apply (H0 _ Hj).
  - by right.
Qed.

Lemma max_elem {A} (f : A -> nat) (l : list A) :
  l <> [] -> exists a, a ∈ l /\ forall b, b ∈ l -> f b <= f a.
Proof.
  induction l as [|a l IH]; [done|]. intros _. destruct l as [|a' l'] eqn:E.
  { exists a. split; [by left|]. intros b ->%list_elem_of_singleton. done. }
  rewrite <- E in *. destruct IH as (m & Hm & Hmax); [by rewrite E|].
  destruct (decide (f m <= f a)) as [Hle|Hgt].
  - exists a. split; [by left|]. intros b [->|Hb]%elem_of_cons; [done|]. specialize (Hmax b Hb). lia.
  - exists m. split; [by right|]. intros b [->|Hb]%elem_of_cons; [lia|]. by apply Hmax.
Qed.

Lemma strongly_sorted_app_lt l1 l2 x y :
  StronglySorted Nat.lt (l1 ++ l2) -> x ∈ l1 -> y ∈ l2 -> x < y.
Proof.
  induction l1 as [|a l1 IH]; [by intros _ ?%elem_of_nil|]. simpl. intros [Hs Ha]%StronglySorted_inv Hx Hy.
  apply elem_of_cons in Hx as [->|Hx]; [|by apply IH]. rewrite Forall_forall in Ha. apply Ha, elem_of_app. by right.
Qed.

Definition finished (ts : list Task) : Prop := Forall (fun t => t_done t = true) ts.

(** Of the tasks that wait, the one that waits for the highest stripe can take
    it: whoever held it would wait for a higher one. *)
Lemma progress ts : system_ok ts -> finished ts \/ exists ts', step ts ts'.
Proof.
  intros [Hts Hex]. destruct (decide (Forall (fun t => t_done t = true) ts)) as [|Hun]; [by left|right].
  set (open := filter (fun t => t_done t = false) ts).
  assert (forall t, t ∈ open <-> t_done t = false /\ t ∈ ts) as Hopen by (intros t; unfold open; by rewrite list_elem_of_filter).
  assert (open <> []) as Hne.
  { apply not_Forall_Exists in Hun; [|apply _]. apply Exists_exists in Hun as (t & Ht & Hd). intros E.
    assert (t ∈ open) as Hin by (apply Hopen; split; [by apply not_true_is_false|done]). rewrite E in Hin. by apply elem_of_nil in Hin. }
  destruct (max_elem (fun t => hd 0 (t_rest t)) open Hne) as (t & Ht & Hmax).
  destruct (proj1 (Hopen t) Ht) as [Hd [k Hk]%list_elem_of_lookup]. destruct t as [held rest d]. simpl in Hd. subst d.
  destruct rest as [|x rest]; [eexists; by eapply step_release|].
  destruct (decide (Exists (fun t => x ∈ t_held t) ts)) as [Hheld|Hfree]; [|eexists; by eapply step_acquire].
  apply Exists_exists in Hheld as (u & Hu & Hx). rewrite Forall_forall in Hts. destruct (Hts u Hu) as [Hs Hdone].
  destruct u as [held' rest' [|]]; simpl in *.
  { destruct Hdone as [-> _]; [done|]. by apply elem_of_nil in Hx. }
  destruct rest' as [|y r]; [apply list_elem_of_lookup in Hu as [j Hj]; eexists; by eapply step_release|].
  assert (mkTask held' (y :: r) false ∈ open) as Hin by (by apply Hopen).
  apply Hmax in Hin. simpl in Hin.
  assert (x < y); [|lia]. eapply (strongly_sorted_app_lt held' (y :: r)); [exact Hs|done|by left].
Qed.

(** Every step is one acquisition or one release. *)
Definition work (t : Task) : nat := if t_done t then 0 else Datatypes.S (length (t_rest t)).

Lemma step_work ts ts' : step ts ts' -> sum_list_with work ts = Datatypes.S (sum_list_with work ts').
Proof.
  assert (forall k t t', ts !! k = Some t -> work t = Datatypes.S (work t') ->
    sum_list_with work ts = Datatypes.S (sum_list_with work (<[k := t']> ts))) as Hins.
  { intros k t t' Hk Hw. rewrite insert_take_drop by (by eapply lookup_lt_Some).
    rewrite <- (take_drop_middle _ _ _ Hk) at 1. rewrite !sum_list_with_app. simpl. lia. }
  destruct 1; by eapply Hins.
Qed.

Lemma steps_work n ts ts' : nsteps step n ts ts' -> sum_list_with work ts = n + sum_list_with work ts'.
Proof. induction 1 as [|n ts1 ts2 ts3 Hs _ IH]; [done|]. rewrite (step_work _ _ Hs), IH. lia. Qed.

Lemma total_work ls : sum_list_with work (map start ls) = length ls + length (concat ls).
Proof. induction ls as [|l ls IH]; [done|]. simpl. rewrite IH, length_app. unfold work. simpl. lia. Qed.

(* ------------------------------------------------------------------ *)
(** * The guarantees *)

(** C29: Two tasks never mutate one block at a time.  From any requests, each
    taking the stripes of its blocks through [lock_batch], no two different
    requests of a reachable state are in their critical sections while naming
    a common block (or two blocks of one stripe); every request in its critical
    section holds the stripe of each of its blocks, however many of them share
    one. *)
Theorem stripes_serialize_blocks n reqs ls ts j k ids ids' t u i i' x :
  mapM (wanted (new_stripes n)) reqs = Some ls -> rtc step (map start ls) ts ->
  reqs !! j = Some ids -> reqs !! k = Some ids' -> ts !! j = Some t -> ts !! k = Some u ->
  inside t -> inside u -> i ∈ ids -> i' ∈ ids' ->
  index_of (new_stripes n) i = Some x -> index_of (new_stripes n) i' = Some x -> x ∈ t_held t /\ j = k.
Proof.
  intros Hls Hr Hj Hk Ht Hu Hit Hiu Hi Hi' Hx Hx'. apply mapM_Some in Hls.
  assert (Forall (StronglySorted Nat.lt) ls) as Hsorted.
  { apply Forall_forall. intros l [q Hq]%list_elem_of_lookup.
    destruct (Forall2_lookup_r _ _ _ _ _ Hls Hq) as (r & _ & Hw). by apply (wanted_spec _ _ _ Hw). }
  pose proof (reachable_ok ls ts Hsorted Hr) as [_ Hex].
  assert (forall q r v b, reqs !! q = Some r -> ts !! q = Some v -> inside v -> b ∈ r ->
    index_of (new_stripes n) b = Some x -> x ∈ t_held v) as Hheld.
  { intros q r v b Hq Hv [Hrest Hnd] Hb Hbx. destruct (Forall2_lookup_l _ _ _ _ _ Hls Hq) as (l & Hl & Hw).
    destruct (wanted_spec _ _ _ Hw) as [_ Hel]. assert (x ∈ l) as Hxl by (apply Hel; by exists b).
    destruct (reachable_stripes ls ts q l v Hr Hl Hv) as [E|E]; [|congruence].
    rewrite Hrest, app_nil_r in E. by rewrite E. }
  split; [by eapply (Hheld j)|]. eapply Hex; [exact Ht|exact Hu|by eapply (Hheld j)|by eapply (Hheld k)].
Qed.

(** C30: No deadlock.  However the requests' acquisitions interleave, whichever
    stripes their blocks collide on and however often a request names a block,
    as long as a request is unfinished some request can take its next stripe or
    release; and every run of the system is finished after exactly one step per
    stripe taken and one per request. *)
Theorem stripes_never_deadlock n reqs ls ts m :
  mapM (wanted (new_stripes n)) reqs = Some ls -> nsteps step m (map start ls) ts ->
  (finished ts \/ exists ts', step ts ts') /\
  (m = length ls + length (concat ls) -> finished ts) /\ m <= length ls + length (concat ls).
Proof.
  intros Hls Hr. apply mapM_Some in Hls.
  assert (Forall (StronglySorted Nat.lt) ls) as Hsorted.
  { apply Forall_forall. intros l [q Hq]%list_elem_of_lookup.
    destruct (Forall2_lookup_r _ _ _ _ _ Hls Hq) as (r & _ & Hw). by apply (wanted_spec _ _ _ Hw). }
  pose proof (steps_work _ _ _ Hr) as Hw. rewrite total_work in Hw.
  assert (system_ok ts) as Hok by (apply (reachable_ok ls); [done|]; apply rtc_nsteps; by exists m).
  split; [by apply progress|]. split; [|lia]. intros ->.
  destruct (progress ts Hok) as [|[ts' Hs]]; [done|]. apply step_work in Hs. lia.
Qed.

(* ------------------------------------------------------------------ *)
(** * Two opposed batches *)

Definition sample_id (b0 b1 : byte) : BlockId := mkBlockId (b0 :: b1 :: repeat x00 30) 32.

(** With 256 stripes both name the stripes 2 and 3, in opposite hash order. *)
Definition sample_reqs : list (list BlockId) :=
  [[sample_id x00 x02; sample_id x01 x03]; [sample_id x00 x03; sample_id x01 x02; sample_id x00 x02]].

Lemma sample_wanted : mapM (wanted (new_stripes 256)) sample_reqs = Some [[2; 3]; [2; 3]].
Proof. vm_compute. reflexivity. Qed.

Ltac sample_acquire k :=
  eapply nsteps_l; [eapply (step_acquire _ k); [reflexivity|unfold held_by; apply (bool_decide_unpack _); vm_compute; exact I]|cbn].
Ltac sample_release k := eapply nsteps_l; [eapply (step_release _ k); reflexivity|cbn].

Lemma stripes_serialize_blocks_witness :
  exists ts t, nsteps step 2 (map start [[2; 3]; [2; 3]]) ts /\ ts !! 0 = Some t /\ inside t /\ 2 ∈ t_held t.
Proof.
  assert (nsteps step 2 (map start [[2; 3]; [2; 3]]) [mkTask [2; 3] [] false; mkTask [] [2; 3] false]) as Hr.
  { cbn. sample_acquire 0. sample_acquire 0. apply nsteps_O. }
  exists [mkTask [2; 3] [] false; mkTask [] [2; 3] false], (mkTask [2; 3] [] false).
  split; [exact Hr|]. split; [reflexivity|]. split; [split; reflexivity|].
  refine (proj1 (stripes_serialize_blocks 256 sample_reqs [[2; 3]; [2; 3]]
    [mkTask [2; 3] [] false; mkTask [] [2; 3] false] 0 0 _ _ _ _ (sample_id x00 x02) (sample_id x00 x02) 2
    sample_wanted _ eq_refl eq_refl eq_refl eq_refl _ _ _ _ eq_refl eq_refl)).
  - apply rtc_nsteps. exists 2. exact Hr.
  - split; reflexivity.
  - split; reflexivity.
  - left.
  - left.
Defined.

Lemma stripes_never_deadlock_witness :
  exists ts, nsteps step 6 (map start [[2; 3]; [2; 3]]) ts /\ finished ts.
Proof.
  assert (nsteps step 6 (map start [[2; 3]; [2; 3]]) [mkTask [] [] true; mkTask [] [] true]) as Hr.
  { cbn. sample_acquire 1. sample_acquire 1. sample_release 1. sample_acquire 0. sample_acquire 0. sample_release 0.
    apply nsteps_O. }
  exists [mkTask [] [] true; mkTask [] [] true]. split; [exact Hr|].
  exact (proj1 (proj2 (stripes_never_deadlock 256 sample_reqs _ _ 6 sample_wanted Hr)) eq_refl).
Defined.
