(* ===== verification/Codec.v ===== *)
(** The record codec (src/cas-storage/src/metastore/codec.rs): the cursor
    [Reader] over one record's bytes, and the field writers.

    Every record format of the store is a sequence of these fields.  The
    [_app] lemmas say how each reader consumes what the matching writer
    produced; the record files compose them into round trips. *)

From S2P Require Import Prelude Bytes Externals BlockIds.
From Stdlib Require Import Strings.Byte.

(* ------------------------------------------------------------------ *)
(** * Writers *)

Definition id_list_len (ids : list BlockId) : Z :=
  1 + 8 + Z.of_nat (length ids)
    * match ids with [] => 0 | i :: _ => Z.of_nat (id_width i) end.

Definition put_len (out : bytes) (value : Z) : bytes := out ++ u64_to_le value.

Definition put_id_list (out : bytes) (ids : list BlockId) : bytes :=
  let width := match ids with [] => 0%nat | i :: _ => id_width i end in
  let out := out ++ [byte_of_Z (Z.of_nat width)] in
  let out := put_len out (Z.of_nat (length ids)) in
  fold_left (fun out i => out ++ as_slice i) ids out.

(* ------------------------------------------------------------------ *)
(** * The cursor *)

Record Reader : Type := mkReader {
  rd_record : string;
  rd_buf : bytes;
  rd_pos : Z
}.

Definition new_reader (record : string) (buf : bytes) : Reader := mkReader record buf 0.

Abbreviation read A := (M Reader FsError A).

(** Consumes [len] bytes, or reports why they are not there. *)
Definition rd_take (field : string) (len : Z) : read bytes := fun r =>
  match checked_add (rd_pos r) len with
  | None => (Err (LengthOverflow (rd_record r) field), r)
  | Some end_ =>
      if Z.of_nat (length (rd_buf r)) <? end_ then
        (Err (Truncated (rd_record r) end_ (Z.of_nat (length (rd_buf r)))), r)
      else
        (Ok (take (Z.to_nat len) (drop (Z.to_nat (rd_pos r)) (rd_buf r))),
         mkReader (rd_record r) (rd_buf r) end_)
  end.

Definition rd_u8 (field : string) : read Z :=
  bs ← rd_take field 1; mret (of_le bs).

Definition rd_u16 (field : string) : read Z :=
  raw ← rd_take field 2; mret (u16_from_le raw).

Definition rd_u64 (field : string) : read Z :=
  raw ← rd_take field 8; mret (u64_from_le raw).

Definition rd_i64 (field : string) : read Z :=
  raw ← rd_take field 8; mret (i64_from_le raw).

(** [o.ok_or(e)?], where the error names the record being read. *)
Definition rd_ok_or {A} (o : option A) (e : string -> FsError) : read A := fun r =>
  (ok_or o (e (rd_record r)), r).

(** A length or count field: a [u64] on disk, a [usize] in memory. *)
Definition rd_len (field : string) : read Z :=
  v ← rd_u64 field;
  rd_ok_or (if v <=? usize_max then Some v else None)
           (fun record => LengthOverflow record field).

Definition rd_array (n : nat) (field : string) : read bytes := rd_take field (Z.of_nat n).

Definition rd_bytes (field : string) (len : Z) : read bytes := rd_take field len.

Definition rd_utf8 (field : string) (len : Z) : read bytes :=
  raw ← rd_take field len;
  rd_ok_or (if utf8_valid raw then Some raw else None)
           (fun record => InvalidUtf8 record field).

(** [chunks_exact(w)]: the leftover shorter than [w] is not returned. *)
Fixpoint chunks_n (k w : nat) (l : bytes) : list bytes :=
  match k with
  | O => []
  | S k' => take w l :: chunks_n k' w (drop w l)
  end.
Definition chunks_exact (w : nat) (l : bytes) : list bytes := chunks_n (length l / w) w l.

Definition rd_id_list : read (list BlockId) :=
  width ← rd_u8 "id_width";
  count ← rd_len "id_count";
  if (width =? 0) && (count =? 0) then mret []
  else if (width =? Z.of_nat BLOCKID_SIZE) || (width =? Z.of_nat MAX_BLOCKID_SIZE) then
    total ← rd_ok_or (checked_mul count width)
                     (fun record => LengthOverflow record "id_count");
    raw ← rd_take "ids" total;
    M_map (fun chunk => M_lift (from_slice chunk)) (chunks_exact (Z.to_nat width) raw)
  else M_err (InvalidIdWidth width).

Definition rd_finish : read unit := fun r =>
  if rd_pos r =? Z.of_nat (length (rd_buf r)) then (Ok tt, r)
  else (Err (TrailingBytes (rd_record r) (Z.of_nat (length (rd_buf r)) - rd_pos r)), r).

(** Runs a record decoder over a whole buffer. *)
Definition decode_with {A} (record : string) (d : read A) (buf : bytes) : result FsError A :=
  (d (new_reader record buf)).1.

(* ------------------------------------------------------------------ *)
(** * Reading back what was written *)

(** The cursor between [pre] (consumed) and [rest] (ahead). *)
Definition reader_at (record : string) (pre rest : bytes) : Reader :=
  mkReader record (pre ++ rest) (Z.of_nat (length pre)).

(** A buffer that exists in memory is at most [usize::MAX] bytes long. *)
Definition fits (bs : bytes) : Prop := Z.of_nat (length bs) <= usize_max.

Lemma new_reader_at record buf : new_reader record buf = reader_at record [] buf.
Proof. done. Qed.

Section Reading.
Implicit Types pre a rest : bytes.
Context (record : string).

Lemma rd_take_front field pre a rest n :
  fits (pre ++ a) -> n = Z.of_nat (length a) ->
  rd_take field n (reader_at record pre (a ++ rest))
    = (Ok a, reader_at record (pre ++ a) rest).
Proof.
  intros Hfit ->. unfold rd_take, reader_at, checked_add, fits in *. cbn [rd_pos rd_buf rd_record].
  rewrite !length_app in *.
  rewrite (proj2 (Z.leb_le _ _)) by lia.
  destruct (Z.ltb_spec (Z.of_nat (length pre + (length a + length rest)))
                       (Z.of_nat (length pre) + Z.of_nat (length a))); [lia|].
  rewrite !Nat2Z.id, drop_app_length, take_app_length, app_assoc.
  do 2 f_equal. lia.
Qed.

Lemma fits_front pre a rest : fits (pre ++ a ++ rest) -> fits (pre ++ a).
Proof. unfold fits. rewrite !length_app. lia. Qed.

Lemma rd_take_app field pre a rest n :
  fits (pre ++ a ++ rest) -> n = Z.of_nat (length a) ->
  rd_take field n (reader_at record pre (a ++ rest))
    = (Ok a, reader_at record (pre ++ a) rest).
Proof. intros Hf. apply rd_take_front. by eapply fits_front. Qed.

Lemma rd_u8_front field pre z rest :
  fits (pre ++ [byte_of_Z z]) -> is_u8 z ->
  rd_u8 field (reader_at record pre ([byte_of_Z z] ++ rest))
    = (Ok z, reader_at record (pre ++ [byte_of_Z z]) rest).
Proof.
  intros Hf Hz. unfold rd_u8, mbind, M_MBind, M_bind.
  rewrite rd_take_front by (done || simpl; lia). cbn [of_le].
  rewrite byte_to_of_Z, Z.mod_small, Z.mul_0_r, Z.add_0_r by (int_bounds; lia). done.
Qed.

Lemma rd_u8_app field pre z rest :
  fits (pre ++ [byte_of_Z z] ++ rest) -> is_u8 z ->
  rd_u8 field (reader_at record pre ([byte_of_Z z] ++ rest))
    = (Ok z, reader_at record (pre ++ [byte_of_Z z]) rest).
Proof. intros Hf. apply rd_u8_front. by eapply fits_front. Qed.

Lemma rd_u16_app field pre z rest :
  fits (pre ++ u16_to_le z ++ rest) -> 0 <= z < 2 ^ 16 ->
  rd_u16 field (reader_at record pre (u16_to_le z ++ rest))
    = (Ok z, reader_at record (pre ++ u16_to_le z) rest).
Proof.
  intros Hf Hz. unfold rd_u16, mbind, M_MBind, M_bind.
  rewrite rd_take_app by (done || autorewrite with len; lia). cbn.
  by rewrite u16_le_roundtrip.
Qed.

Lemma rd_u64_front field pre z rest :
  fits (pre ++ u64_to_le z) -> is_u64 z ->
  rd_u64 field (reader_at record pre (u64_to_le z ++ rest))
    = (Ok z, reader_at record (pre ++ u64_to_le z) rest).
Proof.
  intros Hf Hz. unfold rd_u64, mbind, M_MBind, M_bind.
  rewrite rd_take_front by (done || autorewrite with len; lia). cbn.
  by rewrite u64_le_roundtrip.
Qed.

Lemma rd_u64_app field pre z rest :
  fits (pre ++ u64_to_le z ++ rest) -> is_u64 z ->
  rd_u64 field (reader_at record pre (u64_to_le z ++ rest))
    = (Ok z, reader_at record (pre ++ u64_to_le z) rest).
Proof. intros Hf. apply rd_u64_front. by eapply fits_front. Qed.

Lemma rd_i64_app field pre z rest :
  fits (pre ++ i64_to_le z ++ rest) -> is_i64 z ->
  rd_i64 field (reader_at record pre (i64_to_le z ++ rest))
    = (Ok z, reader_at record (pre ++ i64_to_le z) rest).
Proof.
  intros Hf Hz. unfold rd_i64, mbind, M_MBind, M_bind.
  rewrite rd_take_app by (done || autorewrite with len; lia). cbn.
  by rewrite i64_le_roundtrip.
Qed.

Lemma rd_len_front field pre z rest :
  fits (pre ++ u64_to_le z) -> is_usize z ->
  rd_len field (reader_at record pre (u64_to_le z ++ rest))
    = (Ok z, reader_at record (pre ++ u64_to_le z) rest).
Proof.
  intros Hf Hz. unfold rd_len, mbind, M_MBind, M_bind.
  rewrite rd_u64_front by done. rewrite (proj2 (Z.leb_le _ _)) by (int_bounds; lia). done.
Qed.

Lemma rd_len_app field pre z rest :
  fits (pre ++ u64_to_le z ++ rest) -> is_usize z ->
  rd_len field (reader_at record pre (u64_to_le z ++ rest))
    = (Ok z, reader_at record (pre ++ u64_to_le z) rest).
Proof. intros Hf. apply rd_len_front. by eapply fits_front. Qed.

Lemma rd_array_app field n pre a rest :
  fits (pre ++ a ++ rest) -> length a = n ->
  rd_array n field (reader_at record pre (a ++ rest))
    = (Ok a, reader_at record (pre ++ a) rest).
Proof. intros Hf <-. by apply rd_take_app. Qed.

Lemma rd_bytes_app field pre a rest :
  fits (pre ++ a ++ rest) ->
  rd_bytes field (Z.of_nat (length a)) (reader_at record pre (a ++ rest))
    = (Ok a, reader_at record (pre ++ a) rest).
Proof. intros Hf. by apply rd_take_app. Qed.

Lemma rd_utf8_app field pre a rest :
  fits (pre ++ a ++ rest) -> utf8_valid a = true ->
  rd_utf8 field (Z.of_nat (length a)) (reader_at record pre (a ++ rest))
    = (Ok a, reader_at record (pre ++ a) rest).
Proof.
  intros Hf Hu. unfold rd_utf8, mbind, M_MBind, M_bind.
  rewrite rd_take_app by done. by rewrite Hu.
Qed.

Lemma rd_finish_end pre : rd_finish (reader_at record pre []) = (Ok tt, reader_at record pre []).
Proof. unfold rd_finish, reader_at. simpl. by rewrite app_nil_r, Z.eqb_refl. Qed.

Lemma rd_finish_trailing pre x rest :
  rd_finish (reader_at record pre (x :: rest))
    = (Err (TrailingBytes record (Z.of_nat (length (x :: rest)))), reader_at record pre (x :: rest)).
Proof.
  unfold rd_finish, reader_at. cbn [rd_pos rd_buf rd_record]. rewrite length_app.
  destruct (Z.eqb_spec (Z.of_nat (length pre)) (Z.of_nat (length pre + length (x :: rest)))) as [E|_].
  - simpl in E. lia.
  - do 3 f_equal. lia.
Qed.
End Reading.

(* ------------------------------------------------------------------ *)
(** * Block-id lists *)

(** All ids of one record come from one store and share its width. *)
Definition same_width (ids : list BlockId) : Prop :=
  exists w, Forall (fun i => BlockId_wf i /\ id_width i = w) ids.

Definition ids_payload (ids : list BlockId) : bytes := concat (map as_slice ids).

Lemma fold_put_ids ids out :
  fold_left (fun out i => out ++ as_slice i) ids out = out ++ ids_payload ids.
Proof.
  revert out. induction ids as [|i ids IH]; intros out; simpl; [by rewrite app_nil_r|].
  by rewrite IH, <- app_assoc.
Qed.

(** The bytes [put_id_list] appends. *)
Definition id_list_bytes (ids : list BlockId) : bytes :=
  byte_of_Z (match ids with [] => 0 | i :: _ => Z.of_nat (id_width i) end)
    :: u64_to_le (Z.of_nat (length ids)) ++ ids_payload ids.

Lemma put_id_list_app out ids : put_id_list out ids = out ++ id_list_bytes ids.
Proof.
  unfold put_id_list, put_len, id_list_bytes. rewrite fold_put_ids.
  destruct ids; simpl; by rewrite <- !app_assoc.
Qed.

Lemma length_ids_payload ids w :
  Forall (fun i => BlockId_wf i /\ id_width i = w) ids ->
  length (ids_payload ids) = (length ids * w)%nat.
Proof.
  unfold ids_payload. induction 1 as [|i ids [Hi Hw] _ IH]; simpl; [done|].
  rewrite length_app, length_as_slice, IH, Hw by done. lia.
Qed.

Lemma chunks_n_ids ids w :
  Forall (fun i => BlockId_wf i /\ id_width i = w) ids ->
  chunks_n (length ids) w (ids_payload ids) = map as_slice ids.
Proof.
  unfold ids_payload. induction 1 as [|i ids [Hi Hw] _ IH]; [done|].
  cbn [length chunks_n map concat].
  assert (length (as_slice i) = w) as Hl by (by rewrite length_as_slice).
  rewrite (take_app_length' _ _ w), (drop_app_length' _ _ w) by done. by rewrite IH.
Qed.

Lemma map_from_slice_ids ids (r : Reader) :
  Forall BlockId_wf ids ->
  M_map (fun chunk => M_lift (from_slice chunk)) (map as_slice ids) r = (Ok ids, r).
Proof.
  induction 1 as [|i ids Hi _ IH]; [done|].
  cbn [map M_map]. unfold M_bind at 1, M_lift at 1.
  rewrite from_slice_as_slice by done. unfold M_bind. rewrite IH. done.
Qed.

Lemma rd_id_list_app record pre ids rest :
  fits (pre ++ id_list_bytes ids ++ rest) -> same_width ids ->
  rd_id_list (reader_at record pre (id_list_bytes ids ++ rest))
    = (Ok ids, reader_at record (pre ++ id_list_bytes ids) rest).
Proof.
  intros Hf [w Hw].
  assert (Z.of_nat (length ids) <= usize_max) as Hcount.
  { unfold fits, id_list_bytes in Hf. autorewrite with len in Hf.
    destruct ids as [|i ids]; [simpl; int_bounds; lia|].
    rewrite (length_ids_payload _ w) in Hf by done.
    apply Forall_cons in Hw as [[Hi <-] _].
    destruct (id_width_cases i Hi) as [E|E]; rewrite E in Hf; simpl in *; lia. }
  unfold id_list_bytes in *.
  set (W := match ids with [] => 0 | i :: _ => Z.of_nat (id_width i) end) in *.
  assert (is_u8 W) as HW.
  { unfold W. destruct ids as [|i ids]; [int_bounds; lia|].
    apply Forall_cons in Hw as [[Hi _] _].
    destruct (id_width_cases i Hi) as [E|E]; rewrite E; int_bounds; simpl; lia. }
  change (byte_of_Z W :: u64_to_le (Z.of_nat (length ids)) ++ ids_payload ids)
    with ([byte_of_Z W] ++ (u64_to_le (Z.of_nat (length ids)) ++ ids_payload ids)) in *.
  rewrite <- !app_assoc in *.
  unfold rd_id_list, mbind, M_MBind. unfold M_bind at 1.
  rewrite rd_u8_app by done. unfold M_bind at 1.
  rewrite rd_len_app by (rewrite <- ?app_assoc; done || (int_bounds; lia)).
  destruct ids as [|i ids].
  { simpl. unfold reader_at. rewrite <- !app_assoc. done. }
  assert (W = 16 \/ W = 32) as HW'.
  { unfold W. apply Forall_cons in Hw as [[Hi _] _].
    destruct (id_width_cases i Hi) as [E|E]; rewrite E; [left|right]; done. }
  assert (Z.of_nat w = W) as HwW.
  { apply Forall_cons in Hw as [[_ <-] _]. done. }
  assert ((W =? 0) && (Z.of_nat (length (i :: ids)) =? 0) = false) as ->.
  { destruct HW' as [->| ->]; done. }
  assert ((W =? Z.of_nat BLOCKID_SIZE) || (W =? Z.of_nat MAX_BLOCKID_SIZE) = true) as ->.
  { destruct HW' as [->| ->]; done. }
  assert (Z.of_nat (length (i :: ids)) * W = Z.of_nat (length (ids_payload (i :: ids)))) as Hpay.
  { rewrite (length_ids_payload _ w) by done. rewrite <- HwW. lia. }
  unfold M_bind at 1, checked_mul. rewrite Hpay.
  assert (Z.of_nat (length (ids_payload (i :: ids))) <= usize_max) as Hp.
  { unfold fits in Hf. rewrite !length_app in Hf. lia. }
  rewrite (proj2 (Z.leb_le _ _)) by done. unfold rd_ok_or. cbn [ok_or]. unfold M_bind at 1.
  rewrite rd_take_app by (rewrite <- ?app_assoc; done).
  unfold chunks_exact. rewrite (length_ids_payload _ w) by done.
  replace (Z.to_nat W) with w by lia.
  rewrite Nat.div_mul by (destruct HW'; lia).
  rewrite chunks_n_ids by done.
  rewrite map_from_slice_ids by (eapply Forall_impl; [exact Hw|by intros ? []]).
  unfold reader_at. rewrite <- !app_assoc. done.
Qed.

Lemma length_id_list_bytes ids :
  same_width ids -> Z.of_nat (length (id_list_bytes ids)) = id_list_len ids.
Proof.
  intros [w Hw]. unfold id_list_bytes, id_list_len. autorewrite with len.
  rewrite (length_ids_payload _ w) by done.
  destruct ids as [|i ids]; [done|]. apply Forall_cons in Hw as [[_ <-] _]. lia.
Qed.

(* ------------------------------------------------------------------ *)
(** * Automation for the record formats *)

Lemma M_bind_ok {A B} (f : A -> read B) (m : read A) r a r' :
  m r = (Ok a, r') -> (m ≫= f) r = f a r'.
Proof. unfold mbind, M_MBind, M_bind. by intros ->. Qed.

(** Reads one field of a record whose layout is a right-nested append. *)
Ltac rd_side :=
  lazymatch goal with
  | |- fits _ => rewrite <- ?app_assoc; first [assumption | done]
  | |- _ => first [done | assumption | lia | by autorewrite with len]
  end.
Ltac rd_field :=
  erewrite M_bind_ok;
    [| first [ apply rd_u8_app | apply rd_len_app | apply rd_i64_app | apply rd_u64_app
             | apply rd_u16_app | apply rd_utf8_app | apply rd_bytes_app | apply rd_array_app
             | apply rd_id_list_app ]; rd_side ].
