(* ===== verification/Records.v ===== *)
(** The stored records and their on-disk formats: [Block]
    (metastore/block.rs), [Object] (metastore/object.rs), [BucketMeta]
    (metastore/bucket_meta.rs), [UploadRecord] (metastore/upload_record.rs) and
    [MultiPart] with its storage keys (cas/multipart.rs, cas/uploads.rs).

    Every format has its encoder, its decoder, its well-formedness predicate
    and the round trip between them; the storage keys are proved injective and
    ordered. *)

From S2P Require Import Prelude Bytes Externals BlockIds Codec.
From stdpp Require Import pretty.
From Stdlib Require Import Strings.Byte.
Local Open Scope Z_scope.

(* ------------------------------------------------------------------ *)
(** * [Block]: the accounting record of a data block *)

Definition FLAG_DEGRADED : Z := 1.

Record Block : Type := mkBlock {
  b_size : Z;
  b_depth : Z;
  b_rc : Z;
  b_flags : Z
}.

#[global] Instance Block_eq_dec : EqDecision Block.
Proof. solve_decision. Defined.

Definition Block_wf (b : Block) : Prop :=
  is_usize (b_size b) /\ is_u8 (b_depth b) /\ is_usize (b_rc b) /\ is_u8 (b_flags b).

Definition Block_to_vec (b : Block) : bytes :=
  let out := [] in
  let out := put_len out (b_size b) in
  let out := out ++ [byte_of_Z (b_depth b)] in
  let out := put_len out (b_rc b) in
  out ++ [byte_of_Z (b_flags b)].

Definition read_Block : read Block :=
  size ← rd_len "size";
  depth ← rd_u8 "depth";
  rc ← rd_len "rc";
  flags ← rd_u8 "flags";
  _ ← rd_finish;
  mret (mkBlock size depth rc flags).

Definition Block_try_from (value : bytes) : result FsError Block :=
  decode_with "Block" read_Block value.

Definition Block_new (size depth : Z) : Block := mkBlock size depth 1 0.

Definition Block_from_parts (size depth rc flags : Z) : Block := mkBlock size depth rc flags.

Definition is_degraded (b : Block) : bool := negb (Z.land (b_flags b) FLAG_DEGRADED =? 0).

Definition set_degraded (degraded : bool) (b : Block) : Block :=
  mkBlock (b_size b) (b_depth b) (b_rc b)
    (if degraded then Z.lor (b_flags b) FLAG_DEGRADED
     else Z.land (b_flags b) (Z.lxor u8_max FLAG_DEGRADED)).

(** [self.rc += 1] and [self.rc -= 1] wrap in a release build. *)
Definition increment_refcount (b : Block) : Block :=
  mkBlock (b_size b) (b_depth b) (wrap_u64 (b_rc b + 1)) (b_flags b).
Definition decrement_refcount (b : Block) : Block :=
  mkBlock (b_size b) (b_depth b) (wrap_u64 (b_rc b - 1)) (b_flags b).

Definition Block_disk_path `{FasterHex} (b : Block) (i : BlockId) (root : path) : path :=
  block_disk_path i (b_depth b) root.

(* ------------------------------------------------------------------ *)
(** * [Object] *)

Inductive ObjectData : Type :=
| Inline (data : bytes)
| SinglePart (blocks : list BlockId)
| MultiPartData (blocks : list BlockId) (parts : Z).

Inductive ObjectType : Type := Single | Multipart | InlineType.

#[global] Instance ObjectData_eq_dec : EqDecision ObjectData.
Proof. solve_decision. Defined.
#[global] Instance ObjectType_eq_dec : EqDecision ObjectType.
Proof. solve_decision. Defined.

Record Object : Type := mkObject {
  o_type : ObjectType;
  o_size : Z;
  o_ctime : Z;
  o_hash : ContentHash;
  o_data : ObjectData
}.

#[global] Instance Object_eq_dec : EqDecision Object.
Proof. solve_decision. Defined.

Definition as_u8 (t : ObjectType) : Z :=
  match t with Single => 0 | Multipart => 1 | InlineType => 2 end.

Definition type_of_data (d : ObjectData) : ObjectType :=
  match d with
  | SinglePart _ => Single
  | MultiPartData _ _ => Multipart
  | Inline _ => InlineType
  end.

(** [Object::new], with the clock reading [Utc::now().timestamp()] made
    explicit. *)
Definition Object_new (now : Z) (size : Z) (hash : ContentHash) (data : ObjectData) : Object :=
  mkObject (type_of_data data) size now hash data.

Definition o_touch (now : Z) (o : Object) : Object :=
  mkObject (o_type o) (o_size o) now (o_hash o) (o_data o).

Definition o_blocks (o : Object) : list BlockId :=
  match o_data o with
  | SinglePart blocks => blocks
  | MultiPartData blocks _ => blocks
  | Inline _ => []
  end.

Definition has_block (o : Object) (block : BlockId) : bool :=
  match o_data o with
  | SinglePart blocks => bool_decide (block ∈ blocks)
  | MultiPartData blocks _ => bool_decide (block ∈ blocks)
  | Inline _ => false
  end.

Definition is_inlined (o : Object) : bool :=
  match o_data o with Inline _ => true | _ => false end.

Definition o_inlined (o : Object) : option bytes :=
  match o_data o with Inline data => Some data | _ => None end.

Definition format_e_tag `{FasterHex} (o : Object) : bytes :=
  match o_data o with
  | MultiPartData _ parts => ch_to_hex (o_hash o) ++ str "-" ++ str (pretty parts)
  | _ => ch_to_hex (o_hash o)
  end.

Definition OBJECT_HEADER_SIZE : Z := 1 + 8 + 8 + Z.of_nat CONTENT_HASH_SIZE.
Definition minimum_inline_metadata_size : Z := OBJECT_HEADER_SIZE + 8.
Definition minimum_raw_object_size : Z := OBJECT_HEADER_SIZE + 8.

Definition num_bytes (o : Object) : Z :=
  OBJECT_HEADER_SIZE +
  match o_data o with
  | SinglePart blocks => id_list_len blocks
  | MultiPartData blocks _ => 8 + id_list_len blocks
  | Inline data => 8 + Z.of_nat (length data)
  end.

Definition Object_to_vec (o : Object) : bytes :=
  let raw := [] in
  let raw := raw ++ [byte_of_Z (as_u8 (o_type o))] in
  let raw := raw ++ u64_to_le (o_size o) in
  let raw := raw ++ i64_to_le (o_ctime o) in
  let raw := raw ++ ch_bytes (o_hash o) in
  match o_data o with
  | SinglePart blocks => put_id_list raw blocks
  | MultiPartData blocks parts => put_id_list (put_len raw parts) blocks
  | Inline data => put_len raw (Z.of_nat (length data)) ++ data
  end.

Definition read_ObjectType : read ObjectType :=
  t ← rd_u8 "object_type";
  if t =? 0 then mret Single
  else if t =? 1 then mret Multipart
  else if t =? 2 then mret InlineType
  else M_err (UnknownObjectType t).

Definition read_ObjectData (t : ObjectType) : read ObjectData :=
  match t with
  | Single => blocks ← rd_id_list; mret (SinglePart blocks)
  | Multipart =>
      parts ← rd_len "parts";
      blocks ← rd_id_list;
      mret (MultiPartData blocks parts)
  | InlineType =>
      data_len ← rd_len "data_len";
      data ← rd_bytes "data" data_len;
      mret (Inline data)
  end.

Definition read_Object : read Object :=
  object_type ← read_ObjectType;
  size ← rd_u64 "size";
  ctime ← rd_i64 "ctime";
  e_tag ← rd_array CONTENT_HASH_SIZE "hash";
  data ← read_ObjectData object_type;
  _ ← rd_finish;
  mret (mkObject object_type size ctime (mkContentHash e_tag) data).

Definition Object_try_from (value : bytes) : result FsError Object :=
  if Z.of_nat (length value) <? minimum_raw_object_size then
    Err (Truncated "Object" minimum_raw_object_size (Z.of_nat (length value)))
  else decode_with "Object" read_Object value.

Definition ObjectData_wf (d : ObjectData) : Prop :=
  match d with
  | SinglePart blocks => same_width blocks
  | MultiPartData blocks parts => same_width blocks /\ is_usize parts
  | Inline _ => True
  end.

(** What every object the engine builds satisfies: the type tag follows the
    data, the integers are in range, and the record fits in memory. *)
Definition Object_wf (o : Object) : Prop :=
  o_type o = type_of_data (o_data o) /\ is_u64 (o_size o) /\ is_i64 (o_ctime o) /\
  ContentHash_wf (o_hash o) /\ ObjectData_wf (o_data o) /\ fits (Object_to_vec o).

(* ------------------------------------------------------------------ *)
(** * [BucketMeta] and [UploadRecord] *)

Record BucketMeta : Type := mkBucketMeta { bm_ctime : Z; bm_name : bytes }.

Definition BucketMeta_new (now : Z) (name : bytes) : BucketMeta := mkBucketMeta now name.

Definition BucketMeta_to_vec (b : BucketMeta) : bytes :=
  let out := [] in
  let out := out ++ i64_to_le (bm_ctime b) in
  let out := put_len out (Z.of_nat (length (bm_name b))) in
  out ++ bm_name b.

Definition read_BucketMeta : read BucketMeta :=
  ctime ← rd_i64 "ctime";
  name_len ← rd_len "name_len";
  name ← rd_utf8 "name" name_len;
  _ ← rd_finish;
  mret (mkBucketMeta ctime name).

Definition BucketMeta_try_from (value : bytes) : result FsError BucketMeta :=
  decode_with "BucketMeta" read_BucketMeta value.

Definition BucketMeta_wf (b : BucketMeta) : Prop :=
  is_i64 (bm_ctime b) /\ utf8_valid (bm_name b) = true /\ fits (BucketMeta_to_vec b).

Record UploadRecord : Type := mkUploadRecord {
  ur_created_at : Z;
  ur_bucket : bytes;
  ur_key : bytes;
  ur_upload_id : bytes
}.

#[global] Instance UploadRecord_eq_dec : EqDecision UploadRecord.
Proof. solve_decision. Defined.

Definition UploadRecord_new (now : Z) (bucket key upload_id : bytes) : UploadRecord :=
  mkUploadRecord now bucket key upload_id.

Definition UploadRecord_to_vec (u : UploadRecord) : bytes :=
  let out := [] in
  let out := out ++ i64_to_le (ur_created_at u) in
  let out := put_len out (Z.of_nat (length (ur_bucket u))) in
  let out := out ++ ur_bucket u in
  let out := put_len out (Z.of_nat (length (ur_key u))) in
  let out := out ++ ur_key u in
  let out := put_len out (Z.of_nat (length (ur_upload_id u))) in
  out ++ ur_upload_id u.

Definition read_UploadRecord : read UploadRecord :=
  created_at ← rd_i64 "created_at";
  bucket_len ← rd_len "bucket_len";
  bucket ← rd_utf8 "bucket" bucket_len;
  key_len ← rd_len "key_len";
  key ← rd_utf8 "key" key_len;
  upload_id_len ← rd_len "upload_id_len";
  upload_id ← rd_utf8 "upload_id" upload_id_len;
  _ ← rd_finish;
  mret (mkUploadRecord created_at bucket key upload_id).

Definition UploadRecord_try_from (value : bytes) : result FsError UploadRecord :=
  decode_with "UploadRecord" read_UploadRecord value.

Definition UploadRecord_wf (u : UploadRecord) : Prop :=
  is_i64 (ur_created_at u) /\ utf8_valid (ur_bucket u) = true /\
  utf8_valid (ur_key u) = true /\ utf8_valid (ur_upload_id u) = true /\
  fits (UploadRecord_to_vec u).

(* ------------------------------------------------------------------ *)
(** * [MultiPart]: one part of an upload, and the storage keys *)

Record MultiPart : Type := mkMultiPart {
  mp_size : Z;
  mp_part_number : Z;
  mp_bucket : bytes;
  mp_key : bytes;
  mp_upload_id : bytes;
  mp_hash : ContentHash;
  mp_blocks : list BlockId
}.

#[global] Instance MultiPart_eq_dec : EqDecision MultiPart.
Proof. solve_decision. Defined.

Definition MultiPart_to_vec (mp : MultiPart) : bytes :=
  let out := [] in
  let out := put_len out (mp_size mp) in
  let out := out ++ i64_to_le (mp_part_number mp) in
  let out := put_len out (Z.of_nat (length (mp_bucket mp))) in
  let out := out ++ mp_bucket mp in
  let out := put_len out (Z.of_nat (length (mp_key mp))) in
  let out := out ++ mp_key mp in
  let out := put_len out (Z.of_nat (length (mp_upload_id mp))) in
  let out := out ++ mp_upload_id mp in
  let out := out ++ ch_bytes (mp_hash mp) in
  put_id_list out (mp_blocks mp).

Definition read_MultiPart : read MultiPart :=
  size ← rd_len "size";
  part_number ← rd_i64 "part_number";
  bucket_len ← rd_len "bucket_len";
  bucket ← rd_utf8 "bucket" bucket_len;
  key_len ← rd_len "key_len";
  key ← rd_utf8 "key" key_len;
  upload_len ← rd_len "upload_len";
  upload_id ← rd_utf8 "upload_id" upload_len;
  hash ← rd_array CONTENT_HASH_SIZE "hash";
  blocks ← rd_id_list;
  _ ← rd_finish;
  mret (mkMultiPart size part_number bucket key upload_id (mkContentHash hash) blocks).

Definition MultiPart_try_from (value : bytes) : result FsError MultiPart :=
  decode_with "MultiPart" read_MultiPart value.

Definition MultiPart_wf (mp : MultiPart) : Prop :=
  is_usize (mp_size mp) /\ is_i64 (mp_part_number mp) /\
  utf8_valid (mp_bucket mp) = true /\ utf8_valid (mp_key mp) = true /\
  utf8_valid (mp_upload_id mp) = true /\ ContentHash_wf (mp_hash mp) /\
  same_width (mp_blocks mp) /\ fits (MultiPart_to_vec mp).

Definition part_prefix (bucket key upload_id : bytes) : bytes :=
  let out := [] in
  let out := put_len out (Z.of_nat (length bucket)) in
  let out := out ++ bucket in
  let out := put_len out (Z.of_nat (length key)) in
  let out := out ++ key in
  let out := put_len out (Z.of_nat (length upload_id)) in
  out ++ upload_id.

Definition part_key (bucket key upload_id : bytes) (part_number : Z) : bytes :=
  part_prefix bucket key upload_id ++ u64_to_be (as_u64 part_number).

Definition upload_key (bucket key upload_id : bytes) : bytes :=
  let out := [] in
  let out := put_len out (Z.of_nat (length bucket)) in
  let out := out ++ bucket in
  let out := put_len out (Z.of_nat (length key)) in
  let out := out ++ key in
  out ++ upload_id.

(* ------------------------------------------------------------------ *)
(** * Layouts as right-nested appends *)

Lemma Block_layout b :
  Block_to_vec b
  = u64_to_le (b_size b) ++ [byte_of_Z (b_depth b)] ++ u64_to_le (b_rc b)
    ++ [byte_of_Z (b_flags b)].
Proof. unfold Block_to_vec, put_len. by rewrite <- !app_assoc. Qed.

Definition ObjectData_bytes (d : ObjectData) : bytes :=
  match d with
  | SinglePart blocks => id_list_bytes blocks
  | MultiPartData blocks parts => u64_to_le parts ++ id_list_bytes blocks
  | Inline data => u64_to_le (Z.of_nat (length data)) ++ data
  end.

Lemma Object_layout o :
  Object_to_vec o
  = [byte_of_Z (as_u8 (o_type o))] ++ u64_to_le (o_size o) ++ i64_to_le (o_ctime o)
    ++ ch_bytes (o_hash o) ++ ObjectData_bytes (o_data o).
Proof.
  unfold Object_to_vec, put_len. destruct (o_data o); rewrite ?put_id_list_app; simpl;
    by rewrite <- !app_assoc.
Qed.

Lemma BucketMeta_layout b :
  BucketMeta_to_vec b
  = i64_to_le (bm_ctime b) ++ u64_to_le (Z.of_nat (length (bm_name b))) ++ bm_name b.
Proof. unfold BucketMeta_to_vec, put_len. by rewrite <- !app_assoc. Qed.

Lemma UploadRecord_layout u :
  UploadRecord_to_vec u
  = i64_to_le (ur_created_at u)
    ++ u64_to_le (Z.of_nat (length (ur_bucket u))) ++ ur_bucket u
    ++ u64_to_le (Z.of_nat (length (ur_key u))) ++ ur_key u
    ++ u64_to_le (Z.of_nat (length (ur_upload_id u))) ++ ur_upload_id u.
Proof. unfold UploadRecord_to_vec, put_len. by rewrite <- !app_assoc. Qed.

Lemma MultiPart_layout mp :
  MultiPart_to_vec mp
  = u64_to_le (mp_size mp) ++ i64_to_le (mp_part_number mp)
    ++ u64_to_le (Z.of_nat (length (mp_bucket mp))) ++ mp_bucket mp
    ++ u64_to_le (Z.of_nat (length (mp_key mp))) ++ mp_key mp
    ++ u64_to_le (Z.of_nat (length (mp_upload_id mp))) ++ mp_upload_id mp
    ++ ch_bytes (mp_hash mp) ++ id_list_bytes (mp_blocks mp).
Proof.
  unfold MultiPart_to_vec, put_len. rewrite put_id_list_app. by rewrite <- !app_assoc.
Qed.

Lemma part_prefix_layout bucket key upload_id :
  part_prefix bucket key upload_id
  = u64_to_le (Z.of_nat (length bucket)) ++ bucket
    ++ u64_to_le (Z.of_nat (length key)) ++ key
    ++ u64_to_le (Z.of_nat (length upload_id)) ++ upload_id.
Proof. unfold part_prefix, put_len. by rewrite <- !app_assoc. Qed.

Lemma upload_key_layout bucket key upload_id :
  upload_key bucket key upload_id
  = u64_to_le (Z.of_nat (length bucket)) ++ bucket
    ++ u64_to_le (Z.of_nat (length key)) ++ key ++ upload_id.
Proof. unfold upload_key, put_len. by rewrite <- !app_assoc. Qed.

(* ------------------------------------------------------------------ *)
(** * Decoding what was encoded, with any bytes after it *)

(** The outcome of the exact length check on what follows the record. *)
Definition finish_with {A} (record : string) (rest : bytes) (a : A) : result FsError A :=
  match rest with
  | [] => Ok a
  | _ => Err (TrailingBytes record (Z.of_nat (length rest)))
  end.

Lemma rd_finish_with {A} record pre rest (a : A) :
  ((_ ← rd_finish; mret a) (reader_at record pre rest)).1 = finish_with record rest a.
Proof.
  unfold mbind, M_MBind, M_bind. destruct rest as [|x rest].
  - by rewrite rd_finish_end.
  - by rewrite rd_finish_trailing.
Qed.

(** A length field of a part of a buffer that fits is itself in range. *)
Lemma fits_len_usize a pre rest :
  fits (pre ++ a ++ rest) -> is_usize (Z.of_nat (length a)).
Proof. unfold fits. rewrite !length_app. int_bounds. lia. Qed.

Ltac len_side :=
  lazymatch goal with
  | H : fits _ |- is_usize (Z.of_nat (length _)) =>
      unfold fits in H; rewrite ?length_app in H; int_bounds; lia
  end.

(** The consumed part of a fixed-size record is a few bytes long. *)
Ltac small_front := unfold fits, usize_max; autorewrite with len; simpl; lia.

Ltac rd_record_side :=
  lazymatch goal with
  | |- fits _ => rewrite <- ?app_assoc; first [assumption | done]
  | |- is_usize (Z.of_nat (length _)) => len_side
  | |- _ => first [done | assumption | by autorewrite with len]
  end.
Ltac rd_next :=
  erewrite M_bind_ok;
    [| first [ apply rd_u8_app | apply rd_len_app | apply rd_i64_app | apply rd_u64_app
             | apply rd_u16_app | apply rd_utf8_app | apply rd_bytes_app | apply rd_array_app
             | apply rd_id_list_app ]; rd_record_side ].

Lemma Block_decode_app b rest :
  Block_wf b -> Block_try_from (Block_to_vec b ++ rest) = finish_with "Block" rest b.
Proof.
  intros (H1 & H2 & H3 & H4). unfold Block_try_from, decode_with.
  rewrite new_reader_at, Block_layout. rewrite <- !app_assoc. unfold read_Block.
  erewrite M_bind_ok; [|apply rd_len_front; [small_front|done]].
  erewrite M_bind_ok; [|apply rd_u8_front; [small_front|done]].
  erewrite M_bind_ok; [|apply rd_len_front; [small_front|done]].
  erewrite M_bind_ok; [|apply rd_u8_front; [small_front|done]].
  rewrite rd_finish_with. by destruct b.
Qed.

Lemma read_ObjectData_app record pre d rest :
  fits (pre ++ ObjectData_bytes d ++ rest) -> ObjectData_wf d ->
  read_ObjectData (type_of_data d) (reader_at record pre (ObjectData_bytes d ++ rest))
  = (Ok d, reader_at record (pre ++ ObjectData_bytes d) rest).
Proof.
  intros Hf Hd. destruct d as [data|blocks|blocks parts]; simpl in *; rewrite <- ?app_assoc in *.
  - do 2 rd_next. by rewrite <- app_assoc.
  - by rd_next.
  - destruct Hd. do 2 rd_next. by rewrite <- app_assoc.
Qed.

Lemma read_ObjectType_app record pre t rest :
  fits (pre ++ [byte_of_Z (as_u8 t)] ++ rest) ->
  read_ObjectType (reader_at record pre ([byte_of_Z (as_u8 t)] ++ rest))
  = (Ok t, reader_at record (pre ++ [byte_of_Z (as_u8 t)]) rest).
Proof.
  intros Hf. unfold read_ObjectType. erewrite M_bind_ok;
    [|apply rd_u8_app; [done|by destruct t; unfold is_u8, u8_max; simpl; lia]].
  by destruct t.
Qed.

Lemma Object_decode_app o rest :
  Object_wf o -> fits (Object_to_vec o ++ rest) ->
  Object_try_from (Object_to_vec o ++ rest) = finish_with "Object" rest o.
Proof.
  intros (Ht & Hs & Hc & Hh & Hd & _) Hf. unfold Object_try_from.
  destruct (Z.ltb_spec (Z.of_nat (length (Object_to_vec o ++ rest))) minimum_raw_object_size) as [Hlt|_].
  { exfalso. rewrite Object_layout in Hlt. revert Hlt. autorewrite with len.
    rewrite Hh. unfold minimum_raw_object_size, OBJECT_HEADER_SIZE, CONTENT_HASH_SIZE.
    destruct (o_data o); simpl; unfold id_list_bytes; autorewrite with len; lia. }
  unfold decode_with. rewrite new_reader_at, Object_layout in *. rewrite <- !app_assoc in *.
  unfold read_Object.
  erewrite M_bind_ok; [|by apply read_ObjectType_app].
  do 3 rd_next.
  erewrite M_bind_ok; [|rewrite Ht; apply read_ObjectData_app; [by rewrite <- ?app_assoc|done]].
  rewrite rd_finish_with. destruct o as [ty sz ct [h] d]. done.
Qed.

Lemma BucketMeta_decode_app b rest :
  BucketMeta_wf b -> fits (BucketMeta_to_vec b ++ rest) ->
  BucketMeta_try_from (BucketMeta_to_vec b ++ rest) = finish_with "BucketMeta" rest b.
Proof.
  intros (H1 & H2 & _) Hf. unfold BucketMeta_try_from, decode_with.
  rewrite new_reader_at, BucketMeta_layout in *. rewrite <- !app_assoc in *.
  unfold read_BucketMeta. do 3 rd_next. rewrite rd_finish_with. by destruct b.
Qed.

Lemma UploadRecord_decode_app u rest :
  UploadRecord_wf u -> fits (UploadRecord_to_vec u ++ rest) ->
  UploadRecord_try_from (UploadRecord_to_vec u ++ rest) = finish_with "UploadRecord" rest u.
Proof.
  intros (H1 & H2 & H3 & H4 & _) Hf. unfold UploadRecord_try_from, decode_with.
  rewrite new_reader_at, UploadRecord_layout in *. rewrite <- !app_assoc in *.
  unfold read_UploadRecord. do 7 rd_next. rewrite rd_finish_with. by destruct u.
Qed.

Lemma MultiPart_decode_app mp rest :
  MultiPart_wf mp -> fits (MultiPart_to_vec mp ++ rest) ->
  MultiPart_try_from (MultiPart_to_vec mp ++ rest) = finish_with "MultiPart" rest mp.
Proof.
  intros (H1 & H2 & H3 & H4 & H5 & H6 & H7 & _) Hf. unfold MultiPart_try_from, decode_with.
  rewrite new_reader_at, MultiPart_layout in *. rewrite <- !app_assoc in *.
  unfold read_MultiPart. do 10 rd_next. rewrite rd_finish_with.
  by destruct mp as [? ? ? ? ? [] ?].
Qed.

(* ------------------------------------------------------------------ *)
(** * A block record is exactly eighteen bytes *)

Lemma rd_take_short record field pre rest n :
  fits (pre ++ rest) -> 0 <= n <= 8 -> Z.of_nat (length (pre ++ rest)) + 8 <= usize_max ->
  Z.of_nat (length rest) < n ->
  (rd_take field n (reader_at record pre rest)).1
    = Err (Truncated record (Z.of_nat (length pre) + n) (Z.of_nat (length (pre ++ rest)))).
Proof.
  intros _ Hn Hs Hlt. unfold rd_take, reader_at, checked_add. cbn [rd_pos rd_buf rd_record].
  rewrite length_app in *. rewrite (proj2 (Z.leb_le _ _)) by lia.
  by rewrite (proj2 (Z.ltb_lt _ _)) by lia.
Qed.

(** A field that is not there ends the decoding with [Truncated]. *)
Lemma M_bind_err {A B} (f : A -> read B) (m : read A) r e :
  (m r).1 = Err e -> ((m ≫= f) r).1 = Err e.
Proof.
  unfold mbind, M_MBind, M_bind. destruct (m r) as [[a|e'] r']; simpl; [done|]. by intros [= ->].
Qed.

Lemma rd_u8_short record field pre rest :
  fits (pre ++ rest) -> Z.of_nat (length (pre ++ rest)) + 8 <= usize_max ->
  Z.of_nat (length rest) < 1 ->
  (rd_u8 field (reader_at record pre rest)).1
    = Err (Truncated record (Z.of_nat (length pre) + 1) (Z.of_nat (length (pre ++ rest)))).
Proof. intros. apply M_bind_err, rd_take_short; done || lia. Qed.

Lemma rd_len_short record field pre rest :
  fits (pre ++ rest) -> Z.of_nat (length (pre ++ rest)) + 8 <= usize_max ->
  Z.of_nat (length rest) < 8 ->
  (rd_len field (reader_at record pre rest)).1
    = Err (Truncated record (Z.of_nat (length pre) + 8) (Z.of_nat (length (pre ++ rest)))).
Proof. intros. apply M_bind_err, M_bind_err, rd_take_short; done || lia. Qed.

Lemma u64_split bs :
  (8 <= length bs)%nat ->
  exists z rest, bs = u64_to_le z ++ rest /\ is_u64 z.
Proof.
  intros Hl. exists (u64_from_le (take 8 bs)), (drop 8 bs).
  assert (length (take 8 bs) = 8%nat) by (rewrite length_take; lia).
  split; [by rewrite u64_to_from_le, take_drop by done|by apply u64_from_le_range].
Qed.

Lemma u8_split bs :
  (1 <= length bs)%nat -> exists z rest, bs = [byte_of_Z z] ++ rest /\ is_u8 z.
Proof.
  destruct bs as [|x rest]; simpl; [lia|]. intros _. exists (byte_to_Z x), rest.
  rewrite byte_of_to_Z. split; [done|]. pose proof (byte_to_Z_range x). int_bounds. lia.
Qed.

Ltac short_side := autorewrite with len in *; simpl in *; unfold fits, usize_max in *;
  autorewrite with len; simpl; lia.

Lemma Block_short bs :
  (length bs < 18)%nat ->
  exists n, Block_try_from bs = Err (Truncated "Block" n (Z.of_nat (length bs))).
Proof.
  intros Hl. unfold Block_try_from, decode_with. rewrite new_reader_at. unfold read_Block.
  destruct (decide (8 <= length bs)%nat) as [H8|];
    [|eexists; apply M_bind_err, rd_len_short; short_side].
  destruct (u64_split bs H8) as (size & r1 & -> & Hs).
  erewrite M_bind_ok; [|apply rd_len_app; [short_side|done]].
  destruct (decide (1 <= length r1)%nat) as [H1|];
    [|eexists; apply M_bind_err, rd_u8_short; short_side].
  destruct (u8_split r1 H1) as (depth & r2 & -> & Hd).
  erewrite M_bind_ok; [|apply rd_u8_app; [short_side|done]]. rewrite !app_assoc.
  destruct (decide (8 <= length r2)%nat) as [H2|];
    [|eexists; apply M_bind_err, rd_len_short; short_side].
  destruct (u64_split r2 H2) as (rc & r3 & -> & Hr).
  erewrite M_bind_ok; [|apply rd_len_app; [short_side|done]].
  eexists. rewrite app_assoc. apply M_bind_err, rd_u8_short; short_side.
Qed.

Lemma Block_split bs :
  (18 <= length bs)%nat -> exists b rest, bs = Block_to_vec b ++ rest /\ Block_wf b.
Proof.
  intros Hl. destruct (u64_split bs ltac:(lia)) as (size & r1 & -> & Hs). autorewrite with len in Hl.
  destruct (u8_split r1 ltac:(lia)) as (depth & r2 & -> & Hd). autorewrite with len in Hl. simpl in Hl.
  destruct (u64_split r2 ltac:(lia)) as (rc & r3 & -> & Hr). autorewrite with len in Hl.
  destruct (u8_split r3 ltac:(lia)) as (flags & r4 & -> & Hf).
  exists (mkBlock size depth rc flags), r4. rewrite Block_layout. simpl.
  rewrite <- ?app_assoc. simpl. rewrite <- ?app_assoc. done.
Qed.

Lemma length_Block_to_vec b : length (Block_to_vec b) = 18%nat.
Proof. rewrite Block_layout. by autorewrite with len. Qed.

Lemma Block_roundtrip b : Block_wf b -> Block_try_from (Block_to_vec b) = Ok b.
Proof.
  intros Hb. rewrite <- (app_nil_r (Block_to_vec b)). by apply (Block_decode_app b []).
Qed.

Lemma Block_decode_inv bs b :
  Block_try_from bs = Ok b -> Block_wf b /\ Block_to_vec b = bs.
Proof.
  intros E. destruct (decide (length bs < 18)%nat) as [Hl|Hl].
  { destruct (Block_short bs Hl) as [n E']. congruence. }
  destruct (Block_split bs ltac:(lia)) as (b' & rest & -> & Hb).
  rewrite Block_decode_app in E by done.
  destruct rest; simplify_eq/=. by rewrite app_nil_r.
Qed.

(* ------------------------------------------------------------------ *)
(** * Storage keys *)

(* ------------------------------------------------------------------ *)
(** * What a decoder lets through *)

(** Read from any position of a buffer, every value yielded satisfies [P]. *)
Definition yields {A} (m : read A) (P : A -> Prop) : Prop :=
  forall r, 0 <= rd_pos r -> match m r with (Ok a, r') => P a /\ 0 <= rd_pos r' | (Err _, _) => True end.

Create HintDb typed.

Lemma yields_ret {A} (a : A) (P : A -> Prop) : P a -> yields (mret a) P.
Proof. by intros Ha r. Qed.

Lemma yields_err {A} (e : FsError) (P : A -> Prop) : yields (M_err e) P.
Proof. by intros r. Qed.

Lemma yields_bind {A B} (m : read A) (k : A -> read B) (P : A -> Prop) (Q : B -> Prop) :
  yields m P -> (forall a, P a -> yields (k a) Q) -> yields (m ≫= k) Q.
Proof.
  intros Hm Hk r Hr. specialize (Hm r Hr). unfold mbind, M_MBind, M_bind.
  destruct (m r) as [[a|e] r']; [|done]. destruct Hm. by apply Hk.
Qed.

Lemma yields_weaken {A} (m : read A) (P Q : A -> Prop) : yields m P -> (forall a, P a -> Q a) -> yields m Q.
Proof. intros Hm Hpq r Hr. specialize (Hm r Hr). destruct (m r) as [[a|e] r']; [|done]. destruct Hm. auto. Qed.

Lemma yields_map {A B} (f : A -> read B) (P : B -> Prop) l :
  (forall a, a ∈ l -> yields (f a) P) -> yields (M_map f l) (Forall P).
Proof.
  intros Hf. induction l as [|x l IH]; [apply yields_ret; constructor|].
  apply (yields_bind (f x) _ P); [apply Hf; by left|]. intros y Hy.
  apply (yields_bind (M_map f l) _ (Forall P)); [apply IH; intros z Hz; apply Hf; by right|]. intros ys Hys.
  apply yields_ret. by constructor.
Qed.

Lemma yields_ok_or {A} (o : option A) e (P : A -> Prop) : (forall a, o = Some a -> P a) -> yields (rd_ok_or o e) P.
Proof. intros Ho r Hr. unfold rd_ok_or. destruct o; [|done]. split; [by apply Ho|done]. Qed.

Lemma rd_take_typed field n : 0 <= n -> yields (rd_take field n) (fun bs => length bs = Z.to_nat n).
Proof.
  intros Hn r Hr. unfold rd_take, checked_add. destruct (_ <=? _); [|done]. cbn [mbind].
  destruct (Z.ltb_spec (Z.of_nat (length (rd_buf r))) (rd_pos r + n)); [done|]. cbn [rd_pos].
  rewrite length_take, length_drop. lia.
Qed.
#[export] Hint Resolve rd_take_typed : typed.

Lemma rd_u8_typed field : yields (rd_u8 field) is_u8.
Proof.
  eapply yields_bind; [by apply rd_take_typed|]. intros bs Hl. apply yields_ret. pose proof (of_le_range bs) as Hr.
  rewrite Hl in Hr. change (256 ^ _) with 256 in Hr. int_bounds. lia.
Qed.

Lemma rd_u64_typed field : yields (rd_u64 field) is_u64.
Proof. eapply yields_bind; [by apply rd_take_typed|]. intros bs Hl. apply yields_ret. by apply u64_from_le_range. Qed.

Lemma rd_i64_typed field : yields (rd_i64 field) is_i64.
Proof. eapply yields_bind; [by apply rd_take_typed|]. intros bs _. apply yields_ret, as_i64_range. Qed.

Lemma rd_len_typed field : yields (rd_len field) is_usize.
Proof.
  eapply yields_bind; [apply rd_u64_typed|]. intros v Hv. apply yields_ok_or. intros a.
  destruct (Z.leb_spec v usize_max); [|done]. intros [= <-]. int_bounds. lia.
Qed.

Lemma rd_array_typed n field : yields (rd_array n field) (fun bs => length bs = n).
Proof. intros r Hr. pose proof (rd_take_typed field (Z.of_nat n) ltac:(lia) r Hr) as H. by rewrite Nat2Z.id in H. Qed.

Lemma rd_utf8_typed field n : is_usize n -> yields (rd_utf8 field n) (fun bs => utf8_valid bs = true).
Proof.
  intros Hn. eapply yields_bind; [apply rd_take_typed; int_bounds; lia|]. intros bs _. apply yields_ok_or. intros a.
  destruct (utf8_valid bs) eqn:E; [|done]. by intros [= <-].
Qed.

Lemma rd_bytes_typed field n : is_usize n -> yields (rd_bytes field n) (fun _ => True).
Proof. intros Hn r Hr. pose proof (rd_take_typed field n ltac:(int_bounds; lia) r Hr) as H. unfold rd_bytes. destruct (rd_take field n r) as [[bs|e] r']; [|done]. by destruct H. Qed.

Lemma rd_finish_typed : yields rd_finish (fun _ => True).
Proof. intros r Hr. unfold rd_finish. by destruct (_ =? _). Qed.
#[export] Hint Resolve rd_u8_typed rd_u64_typed rd_i64_typed rd_len_typed rd_array_typed rd_utf8_typed rd_bytes_typed rd_finish_typed : typed.

(** The next read of a decoder, by its type. *)
Ltac next x H := eapply yields_bind; [solve [eauto with typed]|]; cbv beta; intros x H.

Lemma chunks_n_widths k w l chunk : (k * w <= length l)%nat -> chunk ∈ chunks_n k w l -> length chunk = w.
Proof.
  revert l. induction k as [|k IH]; intros l Hl; cbn [chunks_n]; [by intros ?%elem_of_nil|].
  intros [->|Hc]%elem_of_cons; [rewrite length_take; lia|]. apply (IH (drop w l)); [rewrite length_drop; lia|done].
Qed.

Lemma rd_id_list_typed : yields rd_id_list same_width.
Proof.
  unfold rd_id_list. next width Hw. next count Hc. destruct (_ && _); [apply yields_ret; by exists 16%nat|].
  destruct (_ || _) eqn:E; [|apply yields_err].
  eapply yields_bind with (P := fun total => 0 <= total).
  { apply yields_ok_or. intros a Ha. unfold checked_mul in Ha. case_match; [|done]. injection Ha as <-. int_bounds. nia. }
  intros total Ht. next raw Hr.
  eapply yields_weaken; [apply yields_map with (P := fun i => BlockId_wf i /\ id_width i = Z.to_nat width)|by exists (Z.to_nat width)].
  intros chunk Hin r Hr0. unfold M_lift. destruct (from_slice chunk) as [i|e] eqn:Ei; [|done].
  apply from_slice_ok in Ei as [Hi <-]. split; [|done]. split; [done|].
  apply chunks_n_widths in Hin; [by rewrite <- Hin, length_as_slice|].
  rewrite Nat.mul_comm. apply Nat.Div0.mul_div_le.
Qed.
#[export] Hint Resolve rd_id_list_typed : typed.

Lemma read_ObjectData_typed t : yields (read_ObjectData t) (fun d => type_of_data d = t /\ ObjectData_wf d).
Proof.
  destruct t; cbn [read_ObjectData].
  - next ids Hi. by apply yields_ret.
  - next parts Hp. next ids Hi. by apply yields_ret.
  - next n Hn. next data Hd. by apply yields_ret.
Qed.

Lemma read_ObjectType_typed : yields read_ObjectType (fun _ => True).
Proof. unfold read_ObjectType. next t Ht. repeat case_match; (by apply yields_ret) || apply yields_err. Qed.
#[export] Hint Resolve read_ObjectData_typed read_ObjectType_typed : typed.

(** What holds of a whole record, but for its size in memory. *)
Definition Object_typed (o : Object) : Prop :=
  o_type o = type_of_data (o_data o) /\ is_u64 (o_size o) /\ is_i64 (o_ctime o) /\
  ContentHash_wf (o_hash o) /\ ObjectData_wf (o_data o).

Definition MultiPart_typed (mp : MultiPart) : Prop :=
  is_usize (mp_size mp) /\ is_i64 (mp_part_number mp) /\
  utf8_valid (mp_bucket mp) = true /\ utf8_valid (mp_key mp) = true /\
  utf8_valid (mp_upload_id mp) = true /\ ContentHash_wf (mp_hash mp) /\ same_width (mp_blocks mp).

Definition UploadRecord_typed (u : UploadRecord) : Prop :=
  is_i64 (ur_created_at u) /\ utf8_valid (ur_bucket u) = true /\
  utf8_valid (ur_key u) = true /\ utf8_valid (ur_upload_id u) = true.

Definition BucketMeta_typed (b : BucketMeta) : Prop := is_i64 (bm_ctime b) /\ utf8_valid (bm_name b) = true.

Lemma read_Object_typed : yields read_Object Object_typed.
Proof.
  unfold read_Object. next t Ht. next sz Hs. next ctime Hc. next h Hh. next d Hd. destruct Hd as [<- Hd]. next u Hu.
  by apply yields_ret.
Qed.

Lemma read_MultiPart_typed : yields read_MultiPart MultiPart_typed.
Proof.
  unfold read_MultiPart. next sz Hs. next pn Hpn. next bl Hbl. next b Hb. next kl Hkl. next k Hk. next ul Hul. next u Hu.
  next h Hh. next ids Hi. next x Hx. by apply yields_ret.
Qed.

Lemma read_UploadRecord_typed : yields read_UploadRecord UploadRecord_typed.
Proof. unfold read_UploadRecord. next c Hc. next bl Hbl. next b Hb. next kl Hkl. next k Hk. next ul Hul. next u Hu. next x Hx. by apply yields_ret. Qed.

Lemma read_BucketMeta_typed : yields read_BucketMeta BucketMeta_typed.
Proof. unfold read_BucketMeta. next c Hc. next nl Hnl. next n Hn. next x Hx. by apply yields_ret. Qed.

Lemma decode_typed {A} record (m : read A) (P : A -> Prop) raw a : yields m P -> decode_with record m raw = Ok a -> P a.
Proof.
  intros Hm. specialize (Hm (new_reader record raw) ltac:(done)). unfold decode_with.
  destruct (m _) as [[b|e] r']; cbn [fst]; [|done]. intros [= <-]. by destruct Hm.
Qed.

Lemma Object_decode_typed raw o : Object_try_from raw = Ok o -> Object_typed o.
Proof. unfold Object_try_from. destruct (_ <? _); [done|]. by apply decode_typed, read_Object_typed. Qed.

Lemma MultiPart_decode_typed raw p : MultiPart_try_from raw = Ok p -> MultiPart_typed p.
Proof. by apply decode_typed, read_MultiPart_typed. Qed.

Lemma same_width_wf ids : same_width ids -> Forall BlockId_wf ids.
Proof. intros [w Hw]. eapply Forall_impl; [exact Hw|]. by intros i [? _]. Qed.

(** Every block an object or part record names has a well-formed address. *)
Lemma Object_decode_blocks raw o : Object_try_from raw = Ok o -> Forall BlockId_wf (o_blocks o).
Proof.
  intros (_ & _ & _ & _ & Hd)%Object_decode_typed. unfold o_blocks. destruct (o_data o); cbn in Hd; [constructor| |].
  - by apply same_width_wf.
  - by apply same_width_wf, Hd.
Qed.

(** Sizes are 64-bit. *)
Lemma Object_decode_size raw o : Object_try_from raw = Ok o -> is_u64 (o_size o).
Proof. by intros (_ & ? & _)%Object_decode_typed. Qed.

Lemma MultiPart_decode_blocks raw p : MultiPart_try_from raw = Ok p -> Forall BlockId_wf (mp_blocks p).
Proof. by intros (_ & _ & _ & _ & _ & _ & ?%same_width_wf)%MultiPart_decode_typed. Qed.

Lemma Object_roundtrip o : Object_wf o -> Object_try_from (Object_to_vec o) = Ok o.
Proof.
  intros Ho. pose proof Ho as (_ & _ & _ & _ & _ & Hf).
  pose proof (Object_decode_app o [] Ho) as E. rewrite app_nil_r in E. by apply E.
Qed.

Lemma MultiPart_roundtrip mp : MultiPart_wf mp -> MultiPart_try_from (MultiPart_to_vec mp) = Ok mp.
Proof.
  intros Hm. assert (fits (MultiPart_to_vec mp)) as Hf by apply Hm.
  pose proof (MultiPart_decode_app mp [] Hm) as E. rewrite app_nil_r in E. by apply E.
Qed.

(** A length-prefixed field at the front of a key can be cut off uniquely. *)
Lemma lp_inj a b x y :
  fits a -> fits b ->
  u64_to_le (Z.of_nat (length a)) ++ a ++ x = u64_to_le (Z.of_nat (length b)) ++ b ++ y ->
  a = b /\ x = y.
Proof.
  intros Ha Hb E. unfold fits in *.
  apply app_inj_length in E as [El E]; [|by autorewrite with len].
  apply u64_to_le_inj in El; [|int_bounds; lia..].
  apply app_inj_length in E as [-> ->]; [done|lia].
Qed.

Lemma part_prefix_prefix_free b k u b' k' u' x y :
  fits b -> fits k -> fits u -> fits b' -> fits k' -> fits u' ->
  part_prefix b k u ++ x = part_prefix b' k' u' ++ y ->
  (b = b' /\ k = k' /\ u = u') /\ x = y.
Proof.
  intros ?????? E. rewrite !part_prefix_layout, <- !app_assoc in E.
  apply lp_inj in E as [-> E]; [|done..].
  apply lp_inj in E as [-> E]; [|done..].
  by apply lp_inj in E as [-> ->].
Qed.

Lemma starts_with_part_prefix b k u b' k' u' n :
  fits b -> fits k -> fits u -> fits b' -> fits k' -> fits u' ->
  starts_with (part_prefix b k u) (part_key b' k' u' n) = true <-> b = b' /\ k = k' /\ u = u'.
Proof.
  intros. rewrite starts_with_spec. unfold part_key. split.
  - intros [t E]. symmetry in E. by apply part_prefix_prefix_free in E as [? _].
  - intros (-> & -> & ->). eauto.
Qed.

Lemma part_key_inj b k u n b' k' u' n' :
  fits b -> fits k -> fits u -> fits b' -> fits k' -> fits u' -> is_i64 n -> is_i64 n' ->
  part_key b k u n = part_key b' k' u' n' -> (b = b' /\ k = k' /\ u = u') /\ n = n'.
Proof.
  unfold part_key. intros ?????? Hn Hn' E. apply part_prefix_prefix_free in E as [? E]; [|done..].
  split; [done|]. apply u64_to_be_inj in E; [|apply as_u64_range..]. by apply as_u64_inj in E.
Qed.

Lemma part_key_ltb b k u n n' :
  0 <= n <= i64_max -> 0 <= n' <= i64_max ->
  bytes_ltb (part_key b k u n) (part_key b k u n') = (n <? n').
Proof.
  intros Hn Hn'. unfold part_key. rewrite bytes_ltb_app_same, u64_to_be_ltb by apply as_u64_range.
  unfold as_u64. int_bounds. by rewrite !Z.mod_small by lia.
Qed.

Lemma upload_key_inj b k u b' k' u' :
  fits b -> fits k -> fits b' -> fits k' ->
  upload_key b k u = upload_key b' k' u' -> b = b' /\ k = k' /\ u = u'.
Proof.
  intros ???? E. rewrite !upload_key_layout in E.
  apply lp_inj in E as [-> E]; [|done..].
  by apply lp_inj in E as [-> ->].
Qed.

(* ------------------------------------------------------------------ *)
(** * Properties *)

(** Bounds of concrete records. *)
Ltac concrete_side := unfold fits; int_bounds; vm_compute; intuition discriminate.

(** The object format is exact.  A well-formed object's bytes decode to
    that object; the same bytes with anything after them are refused as
    [TrailingBytes], counting what follows; and [num_bytes] is the length of
    the encoding, so the inline limit and the encoder agree on the size of a
    record. *)
Theorem object_format_exact o rest :
  Object_wf o -> fits (Object_to_vec o ++ rest) ->
  Object_try_from (Object_to_vec o ++ rest) = finish_with "Object" rest o /\
  num_bytes o = Z.of_nat (length (Object_to_vec o)).
Proof.
  intros Ho Hf. split; [by apply Object_decode_app|].
  destruct Ho as (_ & _ & _ & Hh & Hd & _).
  rewrite Object_layout. autorewrite with len. rewrite Hh.
  unfold num_bytes, OBJECT_HEADER_SIZE, CONTENT_HASH_SIZE.
  destruct (o_data o) as [data|blocks|blocks parts];
    cbn [ObjectData_bytes ObjectData_wf] in *; autorewrite with len; cbn [length].
  - lia.
  - rewrite <- length_id_list_bytes by done. lia.
  - destruct Hd. rewrite <- length_id_list_bytes by done. lia.
Qed.

Lemma object_format_exact_witness :
  let o := mkObject Multipart 11 (-5) (mkContentHash (replicate 16 Byte.x07))
             (MultiPartData [from_array16 (replicate 16 Byte.x01);
                             from_array16 (replicate 16 Byte.x01)] 2) in
  Object_try_from (Object_to_vec o) = Ok o /\ num_bytes o = 82 /\
  Object_try_from (Object_to_vec o ++ [Byte.x00]) = Err (TrailingBytes "Object" 1).
Proof.
  intros o.
  assert (Object_wf o) as Ho.
  { repeat split; try concrete_side.
    exists 16%nat. apply Forall_cons. split; [|apply Forall_singleton];
      (split; [apply from_array16_wf|]; reflexivity). }
  assert (fits (Object_to_vec o ++ [Byte.x00])) as Hf by concrete_side.
  assert (fits (Object_to_vec o ++ [])) as Hf0 by (rewrite app_nil_r; apply Ho).
  destruct (object_format_exact o [] Ho Hf0) as [E L].
  rewrite app_nil_r in E. split; [exact E|]. split; [reflexivity|].
  exact (proj1 (object_format_exact o [Byte.x00] Ho Hf)).
Defined.

(** The accounting record is a bijection with eighteen-byte strings.
    Whatever bytes the block tree holds, the decoder returns a record exactly
    when there are eighteen of them, that record re-encodes to the same bytes,
    and any other length is an error that says whether bytes are missing or
    left over; so no damaged record is read as a plausible one of another
    length, and every record survives a round trip. *)
Theorem block_format_exact bs :
  match Block_try_from bs with
  | Ok b => length bs = 18%nat /\ Block_wf b /\ Block_to_vec b = bs
  | Err e =>
      ((length bs < 18)%nat /\ exists n, e = Truncated "Block" n (Z.of_nat (length bs))) \/
      ((18 < length bs)%nat /\ e = TrailingBytes "Block" (Z.of_nat (length bs) - 18))
  end /\
  (forall b, Block_wf b -> Block_try_from (Block_to_vec b) = Ok b).
Proof.
  split; [|apply Block_roundtrip].
  destruct (decide (length bs < 18)%nat) as [Hl|Hl].
  { destruct (Block_short bs Hl) as [n ->]. eauto. }
  destruct (Block_split bs ltac:(lia)) as (b & rest & -> & Hb).
  rewrite Block_decode_app, length_app, length_Block_to_vec by done.
  destruct rest as [|x rest]; cbn [finish_with].
  - by rewrite app_nil_r.
  - right. split; [simpl; lia|]. f_equal. lia.
Qed.

Lemma block_format_exact_witness :
  match Block_try_from (replicate 17 Byte.x01) with
  | Err (Truncated _ 18 17) => True | _ => False end /\
  Block_try_from (Block_to_vec (mkBlock 4096 3 7 1)) = Ok (mkBlock 4096 3 7 1).
Proof.
  destruct (block_format_exact (replicate 17 Byte.x01)) as [_ H].
  split; [exact I|]. apply H. repeat split; concrete_side.
Defined.

(** The bucket row, the upload record and the part record are exact in
    the same sense: their bytes decode to the record they encode, and with any
    bytes after them they are refused as [TrailingBytes]. *)
Theorem metadata_formats_exact b u mp rest :
  BucketMeta_wf b -> UploadRecord_wf u -> MultiPart_wf mp ->
  Z.of_nat (length rest) <= usize_max - Z.max (Z.of_nat (length (BucketMeta_to_vec b)))
    (Z.max (Z.of_nat (length (UploadRecord_to_vec u))) (Z.of_nat (length (MultiPart_to_vec mp)))) ->
  BucketMeta_try_from (BucketMeta_to_vec b ++ rest) = finish_with "BucketMeta" rest b /\
  UploadRecord_try_from (UploadRecord_to_vec u ++ rest) = finish_with "UploadRecord" rest u /\
  MultiPart_try_from (MultiPart_to_vec mp ++ rest) = finish_with "MultiPart" rest mp.
Proof.
  intros Hb Hu Hm Hr.
  split_and!; [apply BucketMeta_decode_app|apply UploadRecord_decode_app|apply MultiPart_decode_app];
    try done; unfold fits; rewrite length_app; lia.
Qed.

Lemma metadata_formats_exact_witness :
  let mp := mkMultiPart 5 1 (str "b") (str "k") (str "u")
              (mkContentHash (replicate 16 Byte.x00)) [from_array32 (replicate 32 Byte.x09)] in
  MultiPart_try_from (MultiPart_to_vec mp) = Ok mp.
Proof.
  intros mp. rewrite <- (app_nil_r (MultiPart_to_vec mp)).
  apply (metadata_formats_exact (mkBucketMeta 0 (str "b")) (mkUploadRecord 0 [] [] []) mp []).
  - repeat split; concrete_side.
  - repeat split; concrete_side.
  - repeat split; try concrete_side.
    exists 32%nat. apply Forall_singleton. split; [apply from_array32_wf|]; reflexivity.
  - concrete_side.
Defined.

(** The part keys of different uploads never meet.  The prefix a sweep
    of one upload scans selects exactly that upload's parts (whatever bytes
    the bucket, key and upload id contain), part keys are injective, and within
    an upload the byte order of the keys is the numeric order of the part
    numbers S3 allows. *)
Theorem part_keys_partition b k u n b' k' u' n' :
  fits b -> fits k -> fits u -> fits b' -> fits k' -> fits u' -> is_i64 n -> is_i64 n' ->
  (starts_with (part_prefix b k u) (part_key b' k' u' n') = true <-> b = b' /\ k = k' /\ u = u') /\
  (part_key b k u n = part_key b' k' u' n' <-> (b = b' /\ k = k' /\ u = u') /\ n = n') /\
  (upload_key b k u = upload_key b' k' u' <-> b = b' /\ k = k' /\ u = u') /\
  (0 <= n -> 0 <= n' -> bytes_ltb (part_key b k u n) (part_key b k u n') = (n <? n')).
Proof.
  intros. split_and!.
  - by apply starts_with_part_prefix.
  - split; [by apply part_key_inj|]. by intros [(-> & -> & ->) ->].
  - split; [by apply upload_key_inj|]. by intros (-> & -> & ->).
  - intros. apply part_key_ltb; int_bounds; lia.
Qed.

Lemma part_keys_partition_witness :
  starts_with (part_prefix (str "a") (str "bc") (str "u")) (part_key (str "ab") (str "c") (str "u") 7)
    <> true.
Proof.
  intros E.
  apply (part_keys_partition (str "a") (str "bc") (str "u") 7 (str "ab") (str "c") (str "u") 7) in E;
    concrete_side.
Defined.
