(* ===== verification/RecordProps.v ===== *)
(** The record formats, read both ways: what a decoder of Records.v accepts
    and what its encoder writes are the same bytes.  The cursor's [consumes]
    logic says of every field reader which bytes it advances over; composed
    along a decoder it gives the bytes of the whole record. *)

From S2P Require Import Prelude Bytes Externals BlockIds Codec Records.
From Stdlib Require Import Strings.Byte.
Local Open Scope Z_scope.

(* ------------------------------------------------------------------ *)
(** * What a decoder has consumed *)

(** Every run of [m] that yields [a] advances over bytes that [P] relates to
    it. *)
Definition consumes {A} (m : read A) (P : A -> bytes -> Prop) : Prop :=
  forall record pre tail a r', m (reader_at record pre tail) = (Ok a, r') ->
  exists bs rest, tail = bs ++ rest /\ r' = reader_at record (pre ++ bs) rest /\ P a bs.

(** The same of a decoder that leaves nothing of the buffer. *)
Definition consumes_all {A} (m : read A) (P : A -> bytes -> Prop) : Prop :=
  forall record pre tail a r', m (reader_at record pre tail) = (Ok a, r') -> P a tail.

Create HintDb consumes.

Lemma consumes_ret {A} (a : A) (P : A -> bytes -> Prop) : P a [] -> consumes (mret a) P.
Proof. intros Ha record pre tail b r' [= -> <-]. exists [], tail. by rewrite app_nil_r. Qed.

Lemma consumes_err {A} (e : FsError) (P : A -> bytes -> Prop) : consumes (M_err e) P.
Proof. by intros record pre tail b r'. Qed.

Lemma consumes_bind {A B} (m : read A) (k : A -> read B) (P : A -> bytes -> Prop) (Q : B -> bytes -> Prop) :
  consumes m P -> (forall a bs, P a bs -> consumes (k a) (fun b more => Q b (bs ++ more))) -> consumes (m ≫= k) Q.
Proof.
  intros Hm Hk record pre tail b r' E. unfold mbind, M_MBind, M_bind in E.
  destruct (m (reader_at record pre tail)) as [[a|e] r1] eqn:E1; [|done].
  apply Hm in E1 as (bs & rest & -> & -> & Hp). apply (Hk a bs Hp) in E as (more & rest' & -> & -> & Hq).
  exists (bs ++ more), rest'. by rewrite !app_assoc.
Qed.

Lemma consumes_all_bind {A B} (m : read A) (k : A -> read B) (P : A -> bytes -> Prop) (Q : B -> bytes -> Prop) :
  consumes m P -> (forall a bs, P a bs -> consumes_all (k a) (fun b more => Q b (bs ++ more))) -> consumes_all (m ≫= k) Q.
Proof.
  intros Hm Hk record pre tail b r' E. unfold mbind, M_MBind, M_bind in E.
  destruct (m (reader_at record pre tail)) as [[a|e] r1] eqn:E1; [|done].
  apply Hm in E1 as (bs & rest & -> & -> & Hp). by apply (Hk a bs Hp) in E.
Qed.

Lemma consumes_finish {A} (a : A) (P : A -> bytes -> Prop) : P a [] -> consumes_all (_ ← rd_finish; mret a) P.
Proof.
  intros Ha record pre tail b r' E. pose proof (rd_finish_with record pre tail a) as Hf. rewrite E in Hf.
  destruct tail; [|done]. by injection Hf as ->.
Qed.

Lemma consumes_ok_or {A} (o : option A) e (P : A -> bytes -> Prop) : (forall a, o = Some a -> P a []) -> consumes (rd_ok_or o e) P.
Proof.
  intros Ho record pre tail a r' E. unfold rd_ok_or in E. destruct o as [x|]; cbn in E; [|done]. injection E as -> <-.
  exists [], tail. rewrite app_nil_r. auto.
Qed.

Lemma rd_take_consumes field n : 0 <= n -> consumes (rd_take field n) (fun a bs => a = bs /\ Z.of_nat (length bs) = n).
Proof.
  intros Hn record pre tail a r'. unfold rd_take, reader_at, checked_add. cbn [rd_pos rd_buf rd_record].
  destruct (_ <=? _); [|done]. rewrite length_app.
  destruct (Z.ltb_spec (Z.of_nat (length pre + length tail)) (Z.of_nat (length pre) + n)); [done|].
  rewrite Nat2Z.id, drop_app_length. intros [= <- <-].
  assert (length (take (Z.to_nat n) tail) = Z.to_nat n) as Hl by (rewrite length_take; lia).
  exists (take (Z.to_nat n) tail), (drop (Z.to_nat n) tail). rewrite take_drop. split; [done|]. split; [|split; [done|lia]].
  rewrite <- app_assoc, take_drop, length_app, Hl. f_equal. lia.
Qed.

Lemma rd_u8_consumes field : consumes (rd_u8 field) (fun z bs => is_u8 z /\ bs = [byte_of_Z z]).
Proof.
  eapply consumes_bind; [by apply rd_take_consumes|]. cbv beta. intros a bs [-> Hl]. apply consumes_ret.
  rewrite app_nil_r. destruct bs as [|x [|]]; cbn in Hl; [lia| |lia]. cbn [of_le].
  rewrite Z.mul_0_r, Z.add_0_r, byte_of_to_Z. split; [|done]. pose proof (byte_to_Z_range x). int_bounds. lia.
Qed.

Lemma rd_u64_consumes field : consumes (rd_u64 field) (fun z bs => is_u64 z /\ bs = u64_to_le z).
Proof.
  eapply consumes_bind; [by apply rd_take_consumes|]. cbv beta. intros a bs [-> Hl]. apply consumes_ret.
  rewrite app_nil_r, u64_to_from_le by lia. split; [apply u64_from_le_range; lia|done].
Qed.

Lemma rd_i64_consumes field : consumes (rd_i64 field) (fun z bs => bs = i64_to_le z).
Proof.
  eapply consumes_bind; [by apply rd_take_consumes|]. cbv beta. intros a bs [-> Hl]. apply consumes_ret.
  by rewrite app_nil_r, i64_to_from_le by lia.
Qed.

Lemma rd_len_consumes field : consumes (rd_len field) (fun z bs => is_usize z /\ bs = u64_to_le z).
Proof.
  eapply consumes_bind; [apply rd_u64_consumes|]. cbv beta. intros v bs [Hv ->]. apply consumes_ok_or. intros a.
  destruct (Z.leb_spec v usize_max); [|done]. intros [= <-]. rewrite app_nil_r. split; [int_bounds; lia|done].
Qed.

Lemma rd_array_consumes n field : consumes (rd_array n field) (fun a bs => a = bs).
Proof. intros record pre tail a r' E. apply rd_take_consumes in E as (bs & rest & ? & ? & ? & _); [eauto|lia]. Qed.

Lemma rd_bytes_consumes field n : is_usize n -> consumes (rd_bytes field n) (fun a bs => a = bs /\ Z.of_nat (length bs) = n).
Proof. intros Hn. apply rd_take_consumes. int_bounds. lia. Qed.

Lemma rd_utf8_consumes field n : is_usize n -> consumes (rd_utf8 field n) (fun a bs => a = bs /\ Z.of_nat (length bs) = n).
Proof.
  intros Hn. eapply consumes_bind; [apply rd_take_consumes; int_bounds; lia|]. cbv beta. intros a bs [-> Hl].
  apply consumes_ok_or. intros a. destruct (utf8_valid bs); [|done]. intros [= <-]. by rewrite app_nil_r.
Qed.
#[export] Hint Resolve rd_u8_consumes rd_u64_consumes rd_i64_consumes rd_len_consumes rd_array_consumes rd_utf8_consumes rd_bytes_consumes : consumes.

(** The next field of a decoder, by the bytes it takes. *)
Ltac consume x bs H :=
  lazymatch goal with |- consumes_all _ _ => eapply consumes_all_bind | |- consumes _ _ => eapply consumes_bind end; [solve [eauto with consumes]|]; cbv beta; intros x bs H.

Lemma chunks_n_concat k w l : (k * w = length l)%nat -> concat (chunks_n k w l) = l.
Proof.
  revert l. induction k as [|k IH]; intros l Hl; cbn [chunks_n concat]; [by destruct l|].
  rewrite IH by (rewrite length_drop; lia). apply take_drop.
Qed.

Lemma length_chunks_n k w l : length (chunks_n k w l) = k.
Proof. revert l. induction k as [|k IH]; intros l; cbn [chunks_n length]; [done|]. by rewrite IH. Qed.

Lemma map_from_slice_inv l (r r' : Reader) ids :
  M_map (fun chunk => M_lift (from_slice chunk)) l r = (Ok ids, r') -> r' = r /\ Forall BlockId_wf ids /\ map as_slice ids = l.
Proof.
  revert ids r'. induction l as [|chunk l IH]; intros ids r'; cbn [M_map]; [by intros [= <- <-]|].
  unfold M_bind at 1, M_lift at 1. destruct (from_slice chunk) as [i|e] eqn:Ei; [|done]. unfold M_bind.
  destruct (M_map _ l r) as [[is_|e] r1] eqn:E; [|done]. intros [= <- <-].
  destruct (IH _ _ eq_refl) as (-> & Hwf & <-). apply from_slice_ok in Ei as [Hi <-]. split; [done|]. split; [by constructor|done].
Qed.

(** A list of no addresses, under the width byte [w]. *)
Definition empty_id_list (w : Z) : bytes := byte_of_Z w :: u64_to_le 0.

(** The bytes read as a list of addresses: those [put_id_list] writes, and the
    empty list under either width. *)
Definition ids_spelled (ids : list BlockId) (bs : bytes) : Prop :=
  bs = id_list_bytes ids \/ (ids = [] /\ exists w, (w = 16 \/ w = 32) /\ bs = empty_id_list w).

Lemma rd_id_list_consumes : consumes rd_id_list ids_spelled.
Proof.
  unfold rd_id_list. consume w bw Hw. destruct Hw as [Hw ->]. consume c bc Hc. destruct Hc as [Hc ->].
  destruct (_ && _) eqn:E0.
  { apply andb_prop in E0 as [->%Z.eqb_eq ->%Z.eqb_eq]. apply consumes_ret. by left. }
  destruct (_ || _) eqn:E1; [|apply consumes_err].
  assert (w = 16 \/ w = 32) as Hw' by (apply orb_prop in E1 as [?%Z.eqb_eq|?%Z.eqb_eq]; [left|right]; done).
  eapply consumes_bind with (P := fun total bs => total = c * w /\ bs = []).
  { apply consumes_ok_or. intros t Ht. unfold checked_mul in Ht. case_match; [|done]. by injection Ht as <-. }
  cbv beta. intros ? ? [-> ->].
  eapply consumes_bind; [apply rd_take_consumes; int_bounds; nia|]. cbv beta. intros ? raw [-> Hraw].
  intros record pre tail ids r' E. apply map_from_slice_inv in E as (-> & Hwf & Hids).
  exists [], tail. rewrite app_nil_r. split; [done|]. split; [done|].
  assert (length raw = Z.to_nat c * Z.to_nat w)%nat as Hl by (int_bounds; destruct Hw' as [->| ->]; lia).
  assert (length raw / Z.to_nat w = Z.to_nat c)%nat as Hk by (rewrite Hl; apply Nat.div_mul; lia).
  unfold chunks_exact in Hids. rewrite Hk in Hids.
  assert (ids_payload ids = raw) as Hp by (unfold ids_payload; rewrite Hids; by apply chunks_n_concat).
  assert (length ids = Z.to_nat c) as Hn by (rewrite <- (length_map as_slice), Hids; apply length_chunks_n).
  unfold ids_spelled, id_list_bytes. rewrite !app_nil_r, Hp, Hn, Z2Nat.id by (int_bounds; lia).
  destruct ids as [|i ids].
  - right. split; [done|]. exists w. split; [done|]. cbn in Hn. replace c with 0 in * by (int_bounds; lia).
    destruct raw; [done|cbn in Hl; lia].
  - left. cbn [app]. do 2 f_equal. apply Forall_cons in Hwf as [Hi _]. cbn [map] in Hids.
    rewrite <- (length_as_slice i Hi).
    assert (length (as_slice i) = Z.to_nat w) as ->; [|lia].
    apply (chunks_n_widths (Z.to_nat c) (Z.to_nat w) raw); [lia|]. rewrite <- Hids. by left.
Qed.
#[export] Hint Resolve rd_id_list_consumes : consumes.
(* ------------------------------------------------------------------ *)
(** * The formats, field by field *)

Lemma Block_decode_iff raw b : Block_try_from raw = Ok b <-> Block_wf b /\ raw = Block_to_vec b.
Proof.
  split; [by intros [? <-]%Block_decode_inv|]. intros [Hb ->]. by apply Block_roundtrip.
Qed.

Definition ObjectData_spelled (d : ObjectData) (bs : bytes) : Prop :=
  match d with
  | SinglePart ids => ids_spelled ids bs
  | MultiPartData ids parts => exists l, ids_spelled ids l /\ bs = u64_to_le parts ++ l
  | Inline data => bs = u64_to_le (Z.of_nat (length data)) ++ data
  end.

Definition Object_front (o : Object) : bytes :=
  [byte_of_Z (as_u8 (o_type o))] ++ u64_to_le (o_size o) ++ i64_to_le (o_ctime o) ++ ch_bytes (o_hash o).

Definition MultiPart_front (mp : MultiPart) : bytes :=
  u64_to_le (mp_size mp) ++ i64_to_le (mp_part_number mp)
  ++ u64_to_le (Z.of_nat (length (mp_bucket mp))) ++ mp_bucket mp
  ++ u64_to_le (Z.of_nat (length (mp_key mp))) ++ mp_key mp
  ++ u64_to_le (Z.of_nat (length (mp_upload_id mp))) ++ mp_upload_id mp
  ++ ch_bytes (mp_hash mp).

Lemma read_ObjectType_consumes : consumes read_ObjectType (fun t bs => bs = [byte_of_Z (as_u8 t)]).
Proof.
  unfold read_ObjectType. consume t bt Ht. destruct Ht as [_ ->].
  destruct (Z.eqb_spec t 0) as [->|_]; [by apply consumes_ret|].
  destruct (Z.eqb_spec t 1) as [->|_]; [by apply consumes_ret|].
  destruct (Z.eqb_spec t 2) as [->|_]; [by apply consumes_ret|]. apply consumes_err.
Qed.

Lemma read_ObjectData_consumes t : consumes (read_ObjectData t) ObjectData_spelled.
Proof.
  destruct t; cbn [read_ObjectData].
  - consume ids bi Hi. apply consumes_ret. by rewrite app_nil_r.
  - consume parts bp Hp. destruct Hp as [_ ->]. consume ids bi Hi. apply consumes_ret. exists bi. by rewrite app_nil_r.
  - consume n bn Hn. destruct Hn as [Hn ->]. consume data bd Hd. destruct Hd as [<- Hd]. apply consumes_ret.
    cbn. by rewrite Hd, app_nil_r.
Qed.
#[export] Hint Resolve read_ObjectType_consumes read_ObjectData_consumes : consumes.

Lemma read_Object_consumes :
  consumes_all read_Object (fun o raw => exists d, ObjectData_spelled (o_data o) d /\ raw = Object_front o ++ d).
Proof.
  unfold read_Object. consume t bt Ht. subst bt. consume sz bs Hs. destruct Hs as [_ ->]. consume ct bc Hc. subst bc.
  consume h bh Hh. subst bh. consume d bd Hd. apply consumes_finish. exists bd. split; [done|].
  unfold Object_front. cbn [o_type o_size o_ctime o_hash ch_bytes]. by rewrite app_nil_r, <- !app_assoc.
Qed.

Lemma read_MultiPart_consumes :
  consumes_all read_MultiPart (fun mp raw => exists l, ids_spelled (mp_blocks mp) l /\ raw = MultiPart_front mp ++ l).
Proof.
  unfold read_MultiPart. consume sz bs Hs. destruct Hs as [_ ->]. consume pn bp Hp. subst bp.
  consume bl bbl Hb. destruct Hb as [Hb ->]. consume b bb Hb'. destruct Hb' as [<- Lb].
  consume kl bkl Hk. destruct Hk as [Hk ->]. consume k bk Hk'. destruct Hk' as [<- Lk].
  consume ul bul Hu. destruct Hu as [Hu ->]. consume u bu Hu'. destruct Hu' as [<- Lu].
  consume h bh Hh. subst bh. consume ids bi Hi. apply consumes_finish. exists bi. split; [done|].
  unfold MultiPart_front. cbn. by rewrite Lb, Lk, Lu, app_nil_r, <- !app_assoc.
Qed.

Lemma read_UploadRecord_consumes : consumes_all read_UploadRecord (fun u raw => raw = UploadRecord_to_vec u).
Proof.
  unfold read_UploadRecord. consume c bc Hc. subst bc.
  consume bl bbl Hb. destruct Hb as [Hb ->]. consume b bb Hb'. destruct Hb' as [<- Lb].
  consume kl bkl Hk. destruct Hk as [Hk ->]. consume k bk Hk'. destruct Hk' as [<- Lk].
  consume ul bul Hu. destruct Hu as [Hu ->]. consume u bu Hu'. destruct Hu' as [<- Lu].
  apply consumes_finish. rewrite UploadRecord_layout. cbn. by rewrite Lb, Lk, Lu, app_nil_r.
Qed.

Lemma read_BucketMeta_consumes : consumes_all read_BucketMeta (fun b raw => raw = BucketMeta_to_vec b).
Proof.
  unfold read_BucketMeta. consume c bc Hc. subst bc. consume nl bnl Hn. destruct Hn as [Hn ->].
  consume n bn Hn'. destruct Hn' as [<- Ln]. apply consumes_finish. rewrite BucketMeta_layout. cbn. by rewrite Ln, app_nil_r.
Qed.

Lemma decode_consumes {A} record (m : read A) (P : A -> bytes -> Prop) raw a :
  consumes_all m P -> decode_with record m raw = Ok a -> P a raw.
Proof.
  intros Hm. unfold decode_with. rewrite new_reader_at. destruct (m _) as [r r'] eqn:E. cbn [fst]. intros ->. by eapply Hm.
Qed.

(* ------------------------------------------------------------------ *)
(** * The other way: every spelling is read back *)

Lemma rd_take_nothing field r : 0 <= rd_pos r -> rd_pos r <= Z.of_nat (length (rd_buf r)) -> fits (rd_buf r) ->
  rd_take field 0 r = (Ok [], r).
Proof.
  intros H0 H1 H2. unfold rd_take, checked_add, fits in *. rewrite Z.add_0_r, (proj2 (Z.leb_le _ _)) by lia.
  rewrite (proj2 (Z.ltb_ge _ _)) by lia. by destruct r.
Qed.

Lemma rd_id_list_spelled record pre ids bs rest :
  fits (pre ++ bs ++ rest) -> same_width ids -> ids_spelled ids bs ->
  rd_id_list (reader_at record pre (bs ++ rest)) = (Ok ids, reader_at record (pre ++ bs) rest).
Proof.
  intros Hf Hw [->|(-> & w & Hw' & ->)]; [by apply rd_id_list_app|]. unfold empty_id_list in *.
  change (byte_of_Z w :: u64_to_le 0) with ([byte_of_Z w] ++ u64_to_le 0) in *. rewrite <- !app_assoc in *.
  unfold rd_id_list. erewrite M_bind_ok; [|apply rd_u8_app; [done|int_bounds; lia]].
  erewrite M_bind_ok; [|apply rd_len_app; [by rewrite <- !app_assoc|int_bounds; lia]].
  rewrite <- !app_assoc.
  assert ((w =? 0) && (0 =? 0) = false) as -> by (destruct Hw' as [->| ->]; done).
  assert ((w =? Z.of_nat BLOCKID_SIZE) || (w =? Z.of_nat MAX_BLOCKID_SIZE) = true) as -> by (destruct Hw' as [->| ->]; done).
  set (r := reader_at _ _ _).
  erewrite (M_bind_ok _ (rd_ok_or (checked_mul 0 w) _)) by (destruct Hw' as [->| ->]; reflexivity).
  erewrite M_bind_ok; [|apply rd_take_nothing; unfold r, fits in *; cbn [rd_pos rd_buf reader_at]; autorewrite with len in *; lia].
  destruct Hw' as [->| ->]; reflexivity.
Qed.

Ltac rd_spelled :=
  erewrite M_bind_ok; [|apply rd_id_list_spelled; [by rewrite <- ?app_assoc|done|done]].

Lemma read_ObjectData_spelled record pre d bs rest :
  fits (pre ++ bs ++ rest) -> ObjectData_wf d -> ObjectData_spelled d bs ->
  read_ObjectData (type_of_data d) (reader_at record pre (bs ++ rest)) = (Ok d, reader_at record (pre ++ bs) rest).
Proof.
  intros Hf Hd Hs. destruct d as [data|ids|ids parts]; cbn in Hd, Hs; cbn [type_of_data read_ObjectData].
  - subst bs. rewrite <- !app_assoc in *. do 2 rd_next. by rewrite <- app_assoc.
  - by rd_spelled.
  - destruct Hs as (l & Hl & ->), Hd. rewrite <- !app_assoc in *. rd_next. rd_spelled. by rewrite <- app_assoc.
Qed.

Lemma ObjectData_spelled_long d bs : ObjectData_spelled d bs -> (8 <= length bs)%nat.
Proof.
  assert (forall ids l, ids_spelled ids l -> (8 <= length l)%nat) as H.
  { intros ids l [->|(_ & w & _ & ->)]; unfold id_list_bytes, empty_id_list; autorewrite with len; lia. }
  destruct d as [data|ids|ids parts]; cbn; [intros ->; autorewrite with len; lia|apply H|].
  intros (l & Hl%H & ->). autorewrite with len. lia.
Qed.

Lemma Object_decode_spelled o d :
  Object_typed o -> ObjectData_spelled (o_data o) d -> fits (Object_front o ++ d) -> Object_try_from (Object_front o ++ d) = Ok o.
Proof.
  intros (Ht & Hs & Hc & Hh & Hd) Hsp Hf. unfold Object_try_from, Object_front in *.
  rewrite (proj2 (Z.ltb_ge _ _)).
  2:{ apply ObjectData_spelled_long in Hsp. unfold minimum_raw_object_size, OBJECT_HEADER_SIZE.
      autorewrite with len. rewrite Hh. unfold CONTENT_HASH_SIZE. lia. }
  unfold decode_with. rewrite new_reader_at. rewrite <- (app_nil_r d), <- !app_assoc in Hf |- *. unfold read_Object.
  erewrite M_bind_ok; [|by apply read_ObjectType_app]. do 3 rd_next.
  erewrite M_bind_ok; [|rewrite Ht; apply read_ObjectData_spelled; [by rewrite <- ?app_assoc|done|done]].
  rewrite rd_finish_with. by destruct o as [ty sz ct [h] dt].
Qed.

Lemma MultiPart_decode_spelled mp l :
  MultiPart_typed mp -> ids_spelled (mp_blocks mp) l -> fits (MultiPart_front mp ++ l) ->
  MultiPart_try_from (MultiPart_front mp ++ l) = Ok mp.
Proof.
  intros (H1 & H2 & H3 & H4 & H5 & H6 & H7) Hsp Hf. unfold MultiPart_try_from, decode_with, MultiPart_front in *.
  rewrite new_reader_at. rewrite <- (app_nil_r l), <- !app_assoc in Hf |- *.
  unfold read_MultiPart. do 9 rd_next. rd_spelled. rewrite rd_finish_with. by destruct mp as [? ? ? ? ? [] ?].
Qed.

Lemma UploadRecord_decode_iff raw u : fits raw ->
  UploadRecord_try_from raw = Ok u <-> UploadRecord_typed u /\ raw = UploadRecord_to_vec u.
Proof.
  intros Hf. split.
  - intros E. split; [by apply (decode_typed _ _ _ _ _ read_UploadRecord_typed E)|by apply (decode_consumes _ _ _ _ _ read_UploadRecord_consumes E)].
  - intros [(? & ? & ? & ?) ->]. rewrite <- (app_nil_r (UploadRecord_to_vec u)). by apply UploadRecord_decode_app; [|rewrite app_nil_r].
Qed.

Lemma BucketMeta_decode_iff raw b : fits raw ->
  BucketMeta_try_from raw = Ok b <-> BucketMeta_typed b /\ raw = BucketMeta_to_vec b.
Proof.
  intros Hf. split.
  - intros E. split; [by apply (decode_typed _ _ _ _ _ read_BucketMeta_typed E)|by apply (decode_consumes _ _ _ _ _ read_BucketMeta_consumes E)].
  - intros [[? ?] ->]. rewrite <- (app_nil_r (BucketMeta_to_vec b)). by apply BucketMeta_decode_app; [|rewrite app_nil_r].
Qed.

(** [raw] is [canonical] but for the width byte of the empty address list it
    ends with: 16 or 32 where the encoder writes 0. *)
Definition respelled (canonical raw : bytes) : Prop :=
  exists front w, canonical = front ++ empty_id_list 0 /\ raw = front ++ empty_id_list w /\ (w = 16 \/ w = 32).

Lemma ids_spelled_iff front ids raw :
  (exists l, ids_spelled ids l /\ raw = front ++ l) <->
  raw = front ++ id_list_bytes ids \/ (ids = [] /\ respelled (front ++ id_list_bytes ids) raw).
Proof.
  split.
  - intros (l & [->|(-> & w & Hw & ->)] & ->); [by left|]. right. split; [done|]. by exists front, w.
  - intros [->|(-> & front' & w & E & -> & Hw)]; [exists (id_list_bytes ids); by split; [left|]|].
    apply app_inj_2 in E as [-> _]; [|done]. exists (empty_id_list w). split; [|done]. right. eauto.
Qed.

Lemma Object_spelled_iff o raw :
  (exists d, ObjectData_spelled (o_data o) d /\ raw = Object_front o ++ d) <->
  raw = Object_to_vec o \/ (is_inlined o = false /\ o_blocks o = [] /\ respelled (Object_to_vec o) raw).
Proof.
  assert (Object_to_vec o = Object_front o ++ ObjectData_bytes (o_data o)) as ->
    by (rewrite Object_layout; unfold Object_front; by rewrite <- !app_assoc).
  unfold is_inlined, o_blocks. destruct (o_data o) as [data|ids|ids parts]; cbn [ObjectData_spelled ObjectData_bytes].
  - split; [intros (d & -> & ->); by left|]. intros [->|(? & _)]; [eauto|done].
  - rewrite ids_spelled_iff. intuition.
  - pose proof (ids_spelled_iff (Object_front o ++ u64_to_le parts) ids raw) as H. rewrite <- !app_assoc in H.
    transitivity (exists l, ids_spelled ids l /\ raw = Object_front o ++ u64_to_le parts ++ l).
    + split; [intros (d & (l & Hl & ->) & ->); eauto|]. intros (l & Hl & ->). eauto.
    + assert ((exists l, ids_spelled ids l /\ raw = (Object_front o ++ u64_to_le parts) ++ l) <->
              (exists l, ids_spelled ids l /\ raw = Object_front o ++ u64_to_le parts ++ l)) as E
        by (split; intros (l & Hl & ->); exists l; by rewrite <- ?app_assoc).
      rewrite <- E, H. intuition.
Qed.

Lemma Object_decode_iff raw o : fits raw ->
  Object_try_from raw = Ok o <->
  Object_typed o /\ (raw = Object_to_vec o \/ (is_inlined o = false /\ o_blocks o = [] /\ respelled (Object_to_vec o) raw)).
Proof.
  intros Hf. rewrite <- Object_spelled_iff. split.
  - intros E. split; [by eapply Object_decode_typed|]. unfold Object_try_from in E. destruct (_ <? _); [done|].
    by apply (decode_consumes _ _ _ _ _ read_Object_consumes E).
  - intros (Ho & d & Hd & ->). by apply Object_decode_spelled.
Qed.

Lemma MultiPart_decode_iff raw mp : fits raw ->
  MultiPart_try_from raw = Ok mp <->
  MultiPart_typed mp /\ (raw = MultiPart_to_vec mp \/ (mp_blocks mp = [] /\ respelled (MultiPart_to_vec mp) raw)).
Proof.
  intros Hf. assert (MultiPart_to_vec mp = MultiPart_front mp ++ id_list_bytes (mp_blocks mp)) as ->
    by (rewrite MultiPart_layout; unfold MultiPart_front; by rewrite <- !app_assoc).
  rewrite <- ids_spelled_iff. split.
  - intros E. split; [by eapply MultiPart_decode_typed|by apply (decode_consumes _ _ _ _ _ read_MultiPart_consumes E)].
  - intros (Hm & l & Hl & ->). by apply MultiPart_decode_spelled.
Qed.

(* ------------------------------------------------------------------ *)
(** * The property *)

(** C39: A record is read from its own encoding and from nothing else.
    For any bytes that fit in memory, each of the five decoders returns a
    record exactly when the record is well typed (integers in their widths,
    text UTF-8, hashes sixteen bytes, addresses of one width) and the bytes
    are the ones its encoder writes: no field swapped, none skipped, nothing
    left over.  The one exception is the reader's leniency on a list of no
    addresses, whose width byte the encoder writes as 0 and the reader also
    takes as 16 or 32. *)
Theorem records_decode_exactly raw (Hfits : fits raw) :
  (forall b, Block_try_from raw = Ok b <-> Block_wf b /\ raw = Block_to_vec b) /\
  (forall o, Object_try_from raw = Ok o <->
     Object_typed o /\
     (raw = Object_to_vec o \/ (is_inlined o = false /\ o_blocks o = [] /\ respelled (Object_to_vec o) raw))) /\
  (forall mp, MultiPart_try_from raw = Ok mp <->
     MultiPart_typed mp /\
     (raw = MultiPart_to_vec mp \/ (mp_blocks mp = [] /\ respelled (MultiPart_to_vec mp) raw))) /\
  (forall u, UploadRecord_try_from raw = Ok u <-> UploadRecord_typed u /\ raw = UploadRecord_to_vec u) /\
  (forall b, BucketMeta_try_from raw = Ok b <-> BucketMeta_typed b /\ raw = BucketMeta_to_vec b).
Proof.
  split; [intros b; apply Block_decode_iff|].
  split; [intros o; by apply Object_decode_iff|].
  split; [intros mp; by apply MultiPart_decode_iff|].
  split; [intros u; by apply UploadRecord_decode_iff|intros b; by apply BucketMeta_decode_iff].
Qed.

Lemma records_decode_exactly_witness :
  let o := mkObject Single 0 0 (mkContentHash (replicate 16 Byte.x07)) (SinglePart []) in
  let raw := Object_front o ++ empty_id_list 32 in
  raw <> Object_to_vec o /\ Object_try_from raw = Ok o /\
  (forall b, Block_try_from (Block_to_vec (mkBlock 4096 3 7 1)) = Ok b -> b_size b = 4096 /\ b_rc b = 7).
Proof.
  intros o raw. split; [by vm_compute|]. split.
  - apply (records_decode_exactly raw); [concrete_side|]. split.
    + repeat split; try concrete_side. by exists 16%nat.
    + right. split; [done|]. split; [done|]. exists (Object_front o), 32. split; [reflexivity|]. split; [done|by right].
  - intros b Hb. pose proof Hb as E.
    apply (records_decode_exactly (Block_to_vec (mkBlock 4096 3 7 1))) in Hb as [_ Hb]; [|concrete_side].
    assert (Block_try_from (Block_to_vec (mkBlock 4096 3 7 1)) = Ok (mkBlock 4096 3 7 1)) as E' by (vm_compute; reflexivity).
    rewrite E' in E. by injection E as <-.
Defined.
