(* ===== verification/StoreHeader.v ===== *)
(** The QSST store header (metastore/store_header.rs): the record that says
    which format a database has, which hash addresses its blocks and which
    store it belongs to.  The operations that read, write, adopt and raise a
    header through a store are in MetaOps.v; this file holds the record, its
    exact 32-byte form and the refusals. *)

From S2P Require Import Prelude Bytes Externals BlockIds Codec.
From Stdlib Require Import Strings.Byte.
Local Open Scope Z_scope.

Definition STORE_HEADER_TREE : bytes := str "_STORE_HEADER".
Definition STORE_HEADER_KEY : bytes := str "header".
Definition STORE_HEADER_SIZE : nat := 32.
Definition STORE_HEADER_MAGIC : bytes := str "QSST".
Definition STORE_HEADER_VERSION : Z := 3.
Definition STORE_HEADER_VERSION_CAS_NAMESPACE : Z := 4.
Definition SUPPORTED_STORE_HEADER_VERSIONS : list Z :=
  [STORE_HEADER_VERSION; STORE_HEADER_VERSION_CAS_NAMESPACE].
Definition STORE_HEADER_SIDECAR : bytes := str "store_header.bin".
Definition STORE_ID_SIZE : nat := STORE_HEADER_SIZE - 4 - 2 - 1 - 1 - 8.

(** * [StoreId] *)

Record StoreId : Type := mkStoreId { sid_bytes : bytes }.

#[global] Instance StoreId_eq_dec : EqDecision StoreId.
Proof. solve_decision. Defined.

Definition zero_id : bytes := replicate STORE_ID_SIZE Byte.x00.

(** What every minted or decoded id satisfies: sixteen bytes, not all zero. *)
Definition StoreId_wf (i : StoreId) : Prop :=
  length (sid_bytes i) = STORE_ID_SIZE /\ sid_bytes i <> zero_id.

Definition StoreId_from_bytes (bs : bytes) : option StoreId :=
  if decide (bs = zero_id) then None else Some (mkStoreId bs).

Definition StoreId_to_hex `{FasterHex} (i : StoreId) : bytes := hex_string (sid_bytes i).

(** The UTF-8 encodings of the characters [str::trim] removes (Unicode
    [White_Space]). *)
Definition white_space : list bytes :=
  map (fun z => [byte_of_Z z]) [0x09; 0x0a; 0x0b; 0x0c; 0x0d; 0x20]
  ++ map (map byte_of_Z)
       ([[0xC2; 0x85]; [0xC2; 0xA0]; [0xE1; 0x9A; 0x80];
         [0xE2; 0x80; 0xA8]; [0xE2; 0x80; 0xA9]; [0xE2; 0x80; 0xAF];
         [0xE2; 0x81; 0x9F]; [0xE3; 0x80; 0x80]]
        ++ map (fun z => [0xE2; 0x80; z])
             [0x80; 0x81; 0x82; 0x83; 0x84; 0x85; 0x86; 0x87; 0x88; 0x89; 0x8A]).

(** The white space at the front of [s] (after [f], which reverses a pattern
    when [s] is read backwards), dropped one character at a time. *)
Fixpoint trim_with (f : bytes -> bytes) (fuel : nat) (s : bytes) : bytes :=
  match fuel with
  | O => s
  | S fuel' =>
      match list_find (fun w => starts_with (f w) s = true) white_space with
      | Some (_, w) => trim_with f fuel' (drop (length w) s)
      | None => s
      end
  end.
Definition trim_start (s : bytes) : bytes := trim_with id (length s) s.
Definition trim_end (s : bytes) : bytes := rev (trim_with (@rev byte) (length s) (rev s)).
Definition trim (s : bytes) : bytes := trim_end (trim_start s).

Definition parse_hex `{FasterHex} (text : bytes) : option StoreId :=
  let trimmed := trim text in
  if negb (length trimmed =? STORE_ID_SIZE * 2)%nat then None
  else match hex_decode trimmed with
       | Some bs => StoreId_from_bytes bs
       | None => None
       end.

(** * [StoreHeader] *)

Record HeaderSpec : Type := mkHeaderSpec { hs_algo : Z; hs_width : Z }.

Definition spec_of_hasher (h : Hasher) : HeaderSpec := mkHeaderSpec (algo_id h) (hasher_width h).
Definition default_spec : HeaderSpec := spec_of_hasher Blake3W32.

Record StoreHeader : Type := mkStoreHeader {
  sh_version : Z;
  sh_hasher : Hasher;
  sh_created_at : Z;
  sh_store_id : bytes
}.

#[global] Instance StoreHeader_eq_dec : EqDecision StoreHeader.
Proof. solve_decision. Defined.

Inductive StoreHeaderError : Type :=
| HeaderMissing
| BadMagic (found : bytes)
| UnsupportedVersion (version : Z)
| Malformed (e : FsError)
| HashError (e : HasherError).

#[global] Instance StoreHeaderError_eq_dec : EqDecision StoreHeaderError.
Proof. solve_decision. Defined.

Definition create_with (spec : HeaderSpec) (created_at : Z) (store_id : option StoreId) :
    result StoreHeaderError StoreHeader :=
  hasher ← map_err HashError (from_header (hs_algo spec) (hs_width spec));
  mret (mkStoreHeader STORE_HEADER_VERSION hasher created_at
          (match store_id with None => zero_id | Some i => sid_bytes i end)).

(** [create_at]: the freshly minted id ([uuid::Uuid::new_v4]) is an argument. *)
Definition create_at (minted : StoreId) (spec : HeaderSpec) (created_at : Z) :
    result StoreHeaderError StoreHeader :=
  create_with spec created_at (Some minted).

Definition store_id (h : StoreHeader) : option StoreId := StoreId_from_bytes (sh_store_id h).
Definition hash_algo (h : StoreHeader) : Z := algo_id (sh_hasher h).
Definition hash_width (h : StoreHeader) : Z := hasher_width (sh_hasher h).

Definition with_store_id (h : StoreHeader) (i : StoreId) : StoreHeader :=
  mkStoreHeader (sh_version h) (sh_hasher h) (sh_created_at h) (sid_bytes i).

Definition with_version (h : StoreHeader) (version : Z) : StoreHeader :=
  mkStoreHeader version (sh_hasher h) (sh_created_at h) (sh_store_id h).

(** [to_bytes]: the fields at their fixed offsets 0, 4, 6, 7, 8 and 16. *)
Definition to_bytes (h : StoreHeader) : bytes :=
  STORE_HEADER_MAGIC ++ u16_to_le (sh_version h) ++ [byte_of_Z (hash_algo h)]
  ++ [byte_of_Z (hash_width h)] ++ u64_to_le (sh_created_at h) ++ sh_store_id h.

(** A reader whose failures are reported as [Malformed]. *)
Definition hd {A} (m : read A) : M Reader StoreHeaderError A := fun r =>
  let '(x, r') := m r in (map_err Malformed x, r').

Definition from_bytes (buf : bytes) : result StoreHeaderError StoreHeader :=
  ((magic ← hd (rd_array 4 "magic");
    if negb (bool_decide (magic = STORE_HEADER_MAGIC)) then M_err (BadMagic magic) else
    version ← hd (rd_u16 "version");
    if negb (bool_decide (version ∈ SUPPORTED_STORE_HEADER_VERSIONS))
    then M_err (UnsupportedVersion version) else
    algo ← hd (rd_u8 "hash_algo");
    width ← hd (rd_u8 "hash_width");
    created_at ← hd (rd_u64 "created_at");
    sid ← hd (rd_array STORE_ID_SIZE "store_id");
    _ ← hd rd_finish;
    hasher ← M_lift (map_err HashError (from_header algo width));
    mret (mkStoreHeader version hasher created_at sid)) (new_reader "store header" buf)).1.

(** Every header this build constructs or decodes. *)
Definition StoreHeader_wf (h : StoreHeader) : Prop :=
  sh_version h ∈ SUPPORTED_STORE_HEADER_VERSIONS /\ is_u64 (sh_created_at h) /\
  length (sh_store_id h) = STORE_ID_SIZE.

(* ------------------------------------------------------------------ *)
(** * Lemmas *)

Lemma hd_ok {A} (m : read A) r a r' : m r = (Ok a, r') -> hd m r = (Ok a, r').
Proof. unfold hd. by intros ->. Qed.

Lemma hd_bind_ok {A B} (m : read A) (f : A -> M Reader StoreHeaderError B) r a r' :
  m r = (Ok a, r') -> (hd m ≫= f) r = f a r'.
Proof. intros E. unfold mbind, M_MBind, M_bind. by rewrite (hd_ok _ _ _ _ E). Qed.

Lemma length_to_bytes h : StoreHeader_wf h -> length (to_bytes h) = STORE_HEADER_SIZE.
Proof. intros (_ & _ & Hl). unfold to_bytes. autorewrite with len. by rewrite Hl. Qed.

Lemma store_id_with_store_id h i : StoreId_wf i -> store_id (with_store_id h i) = Some i.
Proof.
  intros [_ Hnz]. unfold store_id, with_store_id, StoreId_from_bytes. simpl.
  rewrite decide_False by done. by destruct i.
Qed.

Lemma version_cases v : v ∈ SUPPORTED_STORE_HEADER_VERSIONS -> v = 3 \/ v = 4.
Proof. intros [->|[->|[]%elem_of_nil]%elem_of_cons]%elem_of_cons; auto. Qed.

(** Reading the fields of an arbitrary 32-byte record. *)
Definition header_fields (magic : bytes) (version algo width created_at : Z) (sid rest : bytes) : bytes :=
  magic ++ u16_to_le version ++ [byte_of_Z algo] ++ [byte_of_Z width] ++ u64_to_le created_at
  ++ sid ++ rest.

Lemma from_bytes_fields magic version algo width created_at sid rest :
  length magic = 4%nat -> 0 <= version < 2 ^ 16 -> is_u8 algo -> is_u8 width ->
  is_u64 created_at -> length sid = STORE_ID_SIZE ->
  fits (header_fields magic version algo width created_at sid rest) ->
  from_bytes (header_fields magic version algo width created_at sid rest)
  = (if negb (bool_decide (magic = STORE_HEADER_MAGIC)) then Err (BadMagic magic)
     else if negb (bool_decide (version ∈ SUPPORTED_STORE_HEADER_VERSIONS))
     then Err (UnsupportedVersion version)
     else match rest with
          | [] => (fun h => mkStoreHeader version h created_at sid)
                    <$> map_err HashError (from_header algo width)
          | _ => Err (Malformed (TrailingBytes "store header" (Z.of_nat (length rest))))
          end).
Proof.
  intros Hm Hv Ha Hw Hc Hs Hf. unfold from_bytes, header_fields in *.
  rewrite new_reader_at.
  erewrite hd_bind_ok; [|by apply rd_array_app].
  destruct (negb _); [done|].
  erewrite hd_bind_ok; [|apply rd_u16_app; [by rewrite <- ?app_assoc|done]].
  destruct (negb _); [done|].
  erewrite hd_bind_ok; [|apply rd_u8_app; [by rewrite <- ?app_assoc|done]].
  erewrite hd_bind_ok; [|apply rd_u8_app; [by rewrite <- ?app_assoc|done]].
  erewrite hd_bind_ok; [|apply rd_u64_app; [by rewrite <- ?app_assoc|done]].
  erewrite hd_bind_ok; [|apply rd_array_app; [by rewrite <- ?app_assoc|done]].
  unfold hd, mbind, M_MBind, M_bind. destruct rest as [|x rest].
  - rewrite rd_finish_end. simpl. by destruct (from_header algo width).
  - by rewrite rd_finish_trailing.
Qed.

Lemma to_bytes_fields h :
  to_bytes h = header_fields STORE_HEADER_MAGIC (sh_version h) (hash_algo h) (hash_width h)
                 (sh_created_at h) (sh_store_id h) [].
Proof. unfold to_bytes, header_fields. by rewrite app_nil_r. Qed.

Lemma from_to_bytes h : StoreHeader_wf h -> from_bytes (to_bytes h) = Ok h.
Proof.
  intros Hh. pose proof (length_to_bytes h Hh) as Hlen. destruct Hh as (Hv & Hc & Hl).
  rewrite to_bytes_fields in *.
  assert (is_u8 (hash_algo h) /\ is_u8 (hash_width h)) as [Ha Hw].
  { unfold hash_algo, hash_width. destruct (sh_hasher h); int_bounds; vm_compute; intuition discriminate. }
  rewrite from_bytes_fields; try done.
  - rewrite bool_decide_true by done. rewrite bool_decide_true by done.
    destruct h as [v hs c i]. simpl. by destruct hs.
  - apply version_cases in Hv. lia.
  - unfold fits. rewrite Hlen. unfold STORE_HEADER_SIZE, usize_max. lia.
Qed.

(** A string that starts and ends with a hexadecimal digit has nothing to
    trim: no white-space character starts or ends with one. *)
Lemma no_white (f : bytes -> bytes) w b s :
  Forall (fun w => match f w with x :: _ => is_lower_hex x = false | [] => False end) white_space ->
  w ∈ white_space -> is_lower_hex b = true -> starts_with (f w) (b :: s) = false.
Proof.
  intros Hall Hw Hb. destruct (starts_with (f w) (b :: s)) eqn:E; [|done]. exfalso.
  rewrite Forall_forall in Hall. specialize (Hall w Hw).
  apply starts_with_spec in E as [u E]. destruct (f w); [done|]. simplify_eq/=. congruence.
Qed.

Lemma trim_with_hex f n b s :
  Forall (fun w => match f w with x :: _ => is_lower_hex x = false | [] => False end) white_space ->
  is_lower_hex b = true -> trim_with f n (b :: s) = b :: s.
Proof.
  intros Hall Hb. destruct n; [done|]. cbn [trim_with].
  destruct (list_find _ white_space) as [[i w]|] eqn:E; [|done].
  apply list_find_Some in E as (Hi & Hw & _). apply list_elem_of_lookup_2 in Hi.
  rewrite (no_white f) in Hw by done. done.
Qed.

Lemma trim_front_ok : Forall (fun w => match id w with x :: _ => is_lower_hex x = false | [] => False end) white_space.
Proof. vm_compute. repeat constructor. Qed.
Lemma trim_back_ok : Forall (fun w => match rev w with x :: _ => is_lower_hex x = false | [] => False end) white_space.
Proof. vm_compute. repeat constructor. Qed.

Lemma trim_end_newline s b :
  is_lower_hex b = true -> trim_end (s ++ [b] ++ [Byte.x0a]) = s ++ [b].
Proof.
  intros Hb. unfold trim_end. rewrite app_assoc, rev_unit.
  rewrite (last_length (s ++ [b])). cbn [trim_with].
  assert (forall t, list_find (fun w => starts_with (rev w) (Byte.x0a :: t) = true) white_space
            = Some (1%nat, [Byte.x0a])) as -> by done.
  rewrite rev_unit. cbn [length drop]. rewrite trim_with_hex by (done || apply trim_back_ok).
  rewrite <- rev_unit. apply rev_involutive.
Qed.

Lemma trim_hex_newline s :
  s <> [] -> Forall (fun b => is_lower_hex b = true) s -> trim (s ++ [Byte.x0a]) = s.
Proof.
  intros Hne Hs. unfold trim.
  assert (trim_start (s ++ [Byte.x0a]) = s ++ [Byte.x0a]) as ->.
  { destruct s as [|b s]; [done|]. apply Forall_cons in Hs as [Hb _].
    unfold trim_start. simpl app. apply trim_with_hex; [apply trim_front_ok|done]. }
  destruct (exists_last Hne) as (s' & b & ->).
  apply Forall_app in Hs as [_ Hb]. apply Forall_cons in Hb as [Hb _].
  rewrite <- app_assoc. apply trim_end_newline. exact Hb.
Qed.

Lemma from_header_ok algo width h :
  from_header algo width = Ok h -> algo = algo_id h /\ width = hasher_width h.
Proof.
  unfold from_header. destruct (Z.eqb_spec algo ALGO_BLAKE3) as [->|]; [|done].
  destruct (Z.eqb_spec width WIDTH_16) as [->|]; [by intros [= <-]|].
  destruct (Z.eqb_spec width WIDTH_32) as [->|]; [by intros [= <-]|done].
Qed.

Lemma parse_hex_to_hex `{FasterHexLaws} i :
  StoreId_wf i -> parse_hex (StoreId_to_hex i ++ [Byte.x0a]) = Some i.
Proof.
  intros [Hl Hnz]. unfold parse_hex, StoreId_to_hex.
  pose proof (length_hex_string (sid_bytes i)) as Hlen. rewrite Hl in Hlen.
  rewrite trim_hex_newline; [|intros E; rewrite E in Hlen; done|apply hex_string_lower].
  rewrite Hlen, hex_decode_string. unfold StoreId_from_bytes. simpl.
  rewrite decide_False by done. by destruct i.
Qed.

Lemma parse_hex_wf `{FasterHexLaws} text i : parse_hex text = Some i -> StoreId_wf i.
Proof.
  unfold parse_hex, StoreId_from_bytes.
  destruct (length (trim text) =? STORE_ID_SIZE * 2)%nat eqn:El; [|done]. simpl.
  destruct (hex_decode (trim text)) as [bs|] eqn:E; [|done]. destruct (decide _); [done|].
  intros [= <-]. apply hex_decode_length in E. apply Nat.eqb_eq in El. split; [|done]. simpl. lia.
Qed.

(* ------------------------------------------------------------------ *)
(** * Properties *)

(** The header is exactly thirty-two bytes and survives a round trip, the
    absent and the unknown id patterns included; what a build writes at
    creation it can open again; and the pairing identity read back is the one
    written. *)
Theorem header_roundtrip h minted spec created_at :
  StoreHeader_wf h -> StoreId_wf minted -> is_u64 created_at ->
  length (to_bytes h) = STORE_HEADER_SIZE /\
  from_bytes (to_bytes h) = Ok h /\
  from_bytes (to_bytes (with_store_id h minted)) = Ok (with_store_id h minted) /\
  store_id (with_store_id h minted) = Some minted /\
  (forall h', create_at minted spec created_at = Ok h' ->
     from_bytes (to_bytes h') = Ok h' /\ store_id h' = Some minted /\
     hs_algo spec = hash_algo h' /\ hs_width spec = hash_width h').
Proof.
  intros Hh Hm Hc. split; [by apply length_to_bytes|]. split; [by apply from_to_bytes|].
  split; [apply from_to_bytes; destruct Hh as (?&?&?), Hm; by split_and!|].
  split; [by apply store_id_with_store_id|]. intros h' Hcr.
  unfold create_at, create_with in Hcr.
  destruct (from_header (hs_algo spec) (hs_width spec)) as [hs|e] eqn:Eh; [|done].
  injection Hcr as <-. split_and!.
  - apply from_to_bytes. destruct Hm. split_and!; try done.
    by apply (list_elem_of_lookup_2 _ 0).
  - destruct Hm as [Hl Hnz]. unfold store_id, StoreId_from_bytes. simpl.
    rewrite decide_False by done. by destruct minted.
  - unfold hash_algo. simpl. apply from_header_ok in Eh as [-> _]. done.
  - unfold hash_width. simpl. apply from_header_ok in Eh as [_ ->]. done.
Qed.

Lemma header_roundtrip_witness :
  let i := mkStoreId (replicate 16 Byte.x2a) in
  let h := mkStoreHeader 4 Blake3W16 1700000000 zero_id in
  from_bytes (to_bytes (with_store_id h i)) = Ok (with_store_id h i) /\ store_id h = None.
Proof.
  intros i h. split; [|reflexivity].
  destruct (header_roundtrip h i default_spec 0) as (_ & _ & E & _); [..|exact E].
  - split_and!; [by apply (list_elem_of_lookup_2 _ 1)
                |int_bounds; simpl; lia|reflexivity].
  - by split.
  - int_bounds; lia.
Defined.

(** An open is refused, not guessed.  Over every 32-byte-or-longer record,
    split into its fields: a foreign magic, then an unlisted version, then
    trailing bytes, then an unknown (algorithm, width) pair are refused with
    the first reason that applies, and only a record with none of these faults
    yields a header, which then carries exactly those fields. *)
Lemma header_refusals magic version algo width created_at sid rest :
  length magic = 4%nat -> 0 <= version < 2 ^ 16 -> is_u8 algo -> is_u8 width ->
  is_u64 created_at -> length sid = STORE_ID_SIZE ->
  fits (header_fields magic version algo width created_at sid rest) ->
  match from_bytes (header_fields magic version algo width created_at sid rest) with
  | Err (BadMagic m) => m = magic /\ magic <> STORE_HEADER_MAGIC
  | Err (UnsupportedVersion v) => v = version /\ magic = STORE_HEADER_MAGIC /\ version <> 3 /\ version <> 4
  | Err (Malformed e) => e = TrailingBytes "store header" (Z.of_nat (length rest)) /\ rest <> []
  | Err (HashError _) => rest = [] /\ ~ (algo = 1 /\ (width = 16 \/ width = 32))
  | Err HeaderMissing => False
  | Ok h => magic = STORE_HEADER_MAGIC /\ (version = 3 \/ version = 4) /\ rest = [] /\
            h = mkStoreHeader version (if width =? 16 then Blake3W16 else Blake3W32) created_at sid /\
            algo = 1 /\ (width = 16 \/ width = 32)
  end.
Proof.
  intros Hm Hv Ha Hw Hc Hs Hf. rewrite from_bytes_fields by done.
  destruct (bool_decide_reflect (magic = STORE_HEADER_MAGIC)) as [->|Hne]; [|done]. simpl negb.
  destruct (bool_decide_reflect (version ∈ SUPPORTED_STORE_HEADER_VERSIONS)) as [Hin|Hni]; simpl negb.
  2: { cbn iota. split_and!; [done|done|intros ->..]; apply Hni;
       [by apply (list_elem_of_lookup_2 _ 0)|by apply (list_elem_of_lookup_2 _ 1)]. }
  apply version_cases in Hin. destruct rest as [|x rest]; [|done].
  unfold from_header, ALGO_BLAKE3, WIDTH_16, WIDTH_32.
  destruct (Z.eqb_spec algo 1) as [->|]; [|simpl; split; [done|lia]].
  destruct (Z.eqb_spec width 16) as [->|]; [simpl; auto 10|].
  destruct (Z.eqb_spec width 32) as [->|]; [simpl; auto 10|].
  simpl. split; [done|lia].
Qed.

Lemma header_refusals_witness :
  from_bytes (header_fields STORE_HEADER_MAGIC 5 1 32 0 zero_id []) = Err (UnsupportedVersion 5).
Proof.
  pose proof (header_refusals STORE_HEADER_MAGIC 5 1 32 0 zero_id [] eq_refl
    ltac:(lia) ltac:(int_bounds; lia) ltac:(int_bounds; lia) ltac:(int_bounds; lia) eq_refl
    ltac:(vm_compute; discriminate)) as H.
  destruct (from_bytes _) as [h|e] eqn:E; [destruct H as (_ & [H|H] & _); discriminate H|].
  rewrite <- E. reflexivity.
Defined.
