(* ===== verification/MetaStore.v ===== *)
(** The metadata layer's interfaces (metastore/traits.rs, the
    [TransactionBackend] trait of metastore/meta_store.rs) and the
    transaction-level protocol steps written against them
    (metastore/meta_store/transaction.rs).

    [Store] has one field per trait method.  A store value is an abstract
    state [S]; a transaction [T] owns the store it was begun on, as
    [FjallTransaction] does.  [StoreLaws] says what every implementation
    promises, through the view [kv] of the committed pairs: reads tell the
    truth or fail, a transaction's writes appear together at its commit, and a
    failed write or commit has either happened or not (a commit can fail after
    its writes are visible, when the journal's persist fails).  The protocol
    steps are specified for every implementation of the laws, under every
    pattern of failures. *)

From S2P Require Import Prelude Bytes Externals BlockIds Codec Records StoreHeader.
From Stdlib Require Import Strings.Byte.
Local Open Scope Z_scope.

(* ------------------------------------------------------------------ *)
(** * Errors *)

Record StorePairingMismatch : Type := mkStorePairingMismatch {
  spm_db_path : path;
  spm_header_id : StoreId;
  spm_blocks_root : path;
  spm_marker_id : StoreId
}.

Inductive MetaError : Type :=
| KeyNotFound
| KeyAlreadyExists
| CollectionNotFound
| BucketNotFound
| InsertError (s : string)
| RemoveError (s : string)
| NotMetaTree (s : string)
| TransactionError (s : string)
| PersistError (s : string)
| BlockNotFound
| OtherDBError (s : string)
| Corruption (e : FsError)
| Header (path : path) (source : StoreHeaderError)
| StorePairing (m : StorePairingMismatch)
| ReservedBucketName (name : bytes)
| StoreLocked (path : path).

(** [From<FsError> for MetaError]: [decode(..)?]. *)
Definition decoded {S A} (r : result FsError A) : M S MetaError A := M_lift (map_err Corruption r).

(* ------------------------------------------------------------------ *)
(** * The store traits *)

(** Keys of the whole database: the tree's name and the key in it. *)
Abbreviation tree := bytes.
Abbreviation kvmap := (gmap (tree * bytes) bytes).

(** [Store], [BaseMetaTree], [MetaTreeExt] and [TransactionBackend].  A tree
    handle is the name it was opened under.  [tree_next t c] is one step of
    the iterator [iter_kv] returns: the item after cursor [c], read from the
    store as it is when the iterator is advanced; [tree_prev] is one step of
    [iter_kv_backward]. *)
Class Store (S T : Type) := {
  tree_open : bytes -> M S MetaError tree;
  tree_exists : bytes -> M S MetaError bool;
  list_trees : M S MetaError (list bytes);
  tree_delete : bytes -> M S MetaError unit;
  num_keys_of : bytes -> M S MetaError Z;
  tree_insert : tree -> bytes -> bytes -> M S MetaError unit;
  tree_remove : tree -> bytes -> M S MetaError bool;
  tree_contains_key : tree -> bytes -> M S MetaError bool;
  tree_get : tree -> bytes -> M S MetaError (option bytes);
  tree_len : tree -> M S MetaError Z;
  tree_next : tree -> option bytes -> M S MetaError (option (bytes * bytes));
  tree_prev : tree -> option bytes -> M S MetaError (option (bytes * bytes));
  begin_transaction : S -> T;
  tx_get : bytes -> bytes -> M T MetaError (option bytes);
  tx_insert : bytes -> bytes -> bytes -> M T MetaError unit;
  tx_remove : bytes -> bytes -> M T MetaError unit;
  tx_commit : T -> result MetaError unit * S;
  tx_rollback : T -> S
}.

(** What is committed, what a transaction sees, and what it was begun on. *)
Class StoreView (S T : Type) := {
  kv : S -> kvmap;
  txkv : T -> kvmap;
  txbase : T -> kvmap
}.

(** Strictly above a cursor; no cursor is below every key. *)
Definition above (c : option bytes) (k : bytes) : bool :=
  match c with None => true | Some c => bytes_ltb c k end.

(** [k] is the least key of tree [t] above the cursor. *)
Definition next_key (m : kvmap) (t : tree) (c : option bytes) (k : bytes) : Prop :=
  is_Some (m !! (t, k)) /\ above c k = true /\
  forall k', is_Some (m !! (t, k')) -> above c k' = true -> bytes_ltb k' k = false.

(** Strictly below a cursor, and the greatest such key of tree [t]. *)
Definition below (c : option bytes) (k : bytes) : bool :=
  match c with None => true | Some c => bytes_ltb k c end.

Definition prev_key (m : kvmap) (t : tree) (c : option bytes) (k : bytes) : Prop :=
  is_Some (m !! (t, k)) /\ below c k = true /\
  forall k', is_Some (m !! (t, k')) -> below c k' = true -> bytes_ltb k k' = false.

(** The number of keys of a tree. *)
Definition tree_size (m : kvmap) (t : tree) : nat := length (filter (fun p => p.1.1 = t) (map_to_list m)).

Definition drop_tree (m : kvmap) (t : tree) : kvmap := filter (fun p => p.1.1 <> t) m.

Class StoreLaws (S T : Type) `{Store S T, StoreView S T} : Prop := {
  tree_open_spec n s : wp (tree_open n) s (fun r s' =>
    kv s' = kv s /\ match r with Ok t => t = n | Err _ => True end);
  tree_exists_spec n s : wp (tree_exists n) s (fun r s' => kv s' = kv s);
  list_trees_spec s : wp list_trees s (fun r s' =>
    kv s' = kv s /\
    match r with
    | Ok names => NoDup names /\ forall t k, is_Some (kv s !! (t, k)) -> t ∈ names
    | Err _ => True
    end);
  tree_delete_spec n s : wp (tree_delete n) s (fun r s' =>
    match r with
    | Ok _ => kv s' = drop_tree (kv s) n
    | Err _ => kv s' = drop_tree (kv s) n \/ kv s' = kv s
    end);
  tree_insert_spec t k v s : wp (tree_insert t k v) s (fun r s' =>
    match r with
    | Ok _ => kv s' = <[(t, k) := v]> (kv s)
    | Err _ => kv s' = <[(t, k) := v]> (kv s) \/ kv s' = kv s
    end);
  tree_remove_spec t k s : wp (tree_remove t k) s (fun r s' =>
    match r with
    | Ok b => kv s' = delete (t, k) (kv s) /\ b = bool_decide (is_Some (kv s !! (t, k)))
    | Err _ => kv s' = delete (t, k) (kv s) \/ kv s' = kv s
    end);
  tree_contains_key_spec t k s : wp (tree_contains_key t k) s (fun r s' =>
    kv s' = kv s /\ match r with
                    | Ok b => b = bool_decide (is_Some (kv s !! (t, k))) | Err _ => True end);
  tree_get_spec t k s : wp (tree_get t k) s (fun r s' =>
    kv s' = kv s /\ match r with Ok v => v = kv s !! (t, k) | Err _ => True end);
  tree_next_spec t c s : wp (tree_next t c) s (fun r s' =>
    kv s' = kv s /\
    match r with
    | Ok (Some (k, v)) => next_key (kv s) t c k /\ kv s !! (t, k) = Some v
    | Ok None => forall k, ~ next_key (kv s) t c k
    | Err _ => True
    end);
  tree_prev_spec t c s : wp (tree_prev t c) s (fun r s' =>
    kv s' = kv s /\
    match r with
    | Ok (Some (k, v)) => prev_key (kv s) t c k /\ kv s !! (t, k) = Some v
    | Ok None => forall k, ~ prev_key (kv s) t c k
    | Err _ => True
    end);
  tree_len_spec t s : wp (tree_len t) s (fun r s' =>
    kv s' = kv s /\ match r with Ok n => n = Z.of_nat (tree_size (kv s) t) | Err _ => True end);
  begin_spec s : txkv (begin_transaction s) = kv s /\ txbase (begin_transaction s) = kv s;
  tx_get_spec n k t : wp (tx_get n k) t (fun r t' =>
    txkv t' = txkv t /\ txbase t' = txbase t /\
    match r with Ok v => v = txkv t !! (n, k) | Err _ => True end);
  tx_insert_spec n k v t : wp (tx_insert n k v) t (fun r t' =>
    txbase t' = txbase t /\
    match r with Ok _ => txkv t' = <[(n, k) := v]> (txkv t) | Err _ => txkv t' = txkv t end);
  tx_remove_spec n k t : wp (tx_remove n k) t (fun r t' =>
    txbase t' = txbase t /\
    match r with Ok _ => txkv t' = delete (n, k) (txkv t) | Err _ => txkv t' = txkv t end);
  tx_commit_spec t :
    match (tx_commit t).1 with
    | Ok _ => kv (tx_commit t).2 = txkv t
    | Err _ => kv (tx_commit t).2 = txkv t \/ kv (tx_commit t).2 = txbase t
    end;
  tx_rollback_spec t : kv (tx_rollback t) = txbase t
}.

(* ------------------------------------------------------------------ *)
(** * Tree names *)

Definition DEFAULT_BUCKET_TREE : bytes := str "_BUCKETS".
Definition DEFAULT_BLOCK_TREE : bytes := str "_BLOCKS".
Definition MULTIPART_PARTS_TREE : bytes := str "_MULTIPART_PARTS".
Definition UPLOADS_TREE : bytes := str "_UPLOADS".
Definition DEFAULT_USAGE_TREE : bytes := str "_USAGE".

Definition decode_usage (raw : bytes) : result MetaError Z :=
  if (length raw =? 8)%nat then Ok (u64_from_le raw)
  else Err (OtherDBError "the usage counter is not 8 bytes").

Inductive BlockDecrement : Type :=
| Missing
| Decremented (b : Block)
| Removed (b : Block).

(* ------------------------------------------------------------------ *)
(** * [Transaction] *)

Section Transaction.
Context {S T : Type} `{Store S T}.

Definition bump_block_rc (block_hash : BlockId) : M T MetaError (option Block) :=
  data ← tx_get DEFAULT_BLOCK_TREE (as_slice block_hash);
  match data with
  | None => mret None
  | Some block_data =>
      block ← decoded (Block_try_from block_data);
      if is_degraded block then mret None
      else
        let block := increment_refcount block in
        _ ← tx_insert DEFAULT_BLOCK_TREE (as_slice block_hash) (Block_to_vec block);
        mret (Some block)
  end.

Definition take_object (bucket key : bytes) : M T MetaError (option Object) :=
  raw ← tx_get bucket key;
  match raw with
  | None => mret None
  | Some raw =>
      obj ← decoded (Object_try_from raw);
      _ ← tx_remove bucket key;
      mret (Some obj)
  end.

Definition replace_object (bucket key raw_obj : bytes) : M T MetaError (option Object) :=
  raw ← tx_get bucket key;
  displaced ← match raw with
              | Some raw => obj ← decoded (Object_try_from raw); mret (Some obj)
              | None => mret None
              end;
  _ ← tx_insert bucket key raw_obj;
  mret displaced.

Definition get_bucket_record (bucket_name : bytes) : M T MetaError (option bytes) :=
  tx_get DEFAULT_BUCKET_TREE bucket_name.

Definition put_bucket_record (bucket_name raw_bucket : bytes) : M T MetaError unit :=
  tx_insert DEFAULT_BUCKET_TREE bucket_name raw_bucket.

(** The counter after a move by [delta]: up saturating, down clamped at zero. *)
Definition usage_after (current delta : Z) : Z :=
  if 0 <=? delta then saturating_add_u64 current (Z.abs delta)
  else let down := Z.abs delta in if current <? down then 0 else current - down.

Definition add_bucket_usage (bucket : bytes) (delta : Z) : M T MetaError Z :=
  raw ← tx_get DEFAULT_USAGE_TREE bucket;
  current ← match raw with
            | Some raw => M_lift (decode_usage raw)
            | None => mret 0
            end;
  let updated := usage_after current delta in
  _ ← tx_insert DEFAULT_USAGE_TREE bucket (u64_to_le updated);
  mret updated.

Definition reset_bucket_usage (bucket : bytes) : M T MetaError unit :=
  tx_insert DEFAULT_USAGE_TREE bucket (u64_to_le 0).

Definition take_upload (key : bytes) : M T MetaError (option UploadRecord) :=
  raw ← tx_get UPLOADS_TREE key;
  match raw with
  | None => mret None
  | Some raw =>
      record ← decoded (UploadRecord_try_from raw);
      _ ← tx_remove UPLOADS_TREE key;
      mret (Some record)
  end.

Definition take_part (key : bytes) : M T MetaError (option bytes) :=
  raw ← tx_get MULTIPART_PARTS_TREE key;
  match raw with
  | None => mret None
  | Some raw => _ ← tx_remove MULTIPART_PARTS_TREE key; mret (Some raw)
  end.

Definition decrement_block_rc (block_hash : BlockId) : M T MetaError BlockDecrement :=
  raw ← tx_get DEFAULT_BLOCK_TREE (as_slice block_hash);
  match raw with
  | None => mret Missing
  | Some raw =>
      block ← decoded (Block_try_from raw);
      if b_rc block =? 1 then
        _ ← tx_remove DEFAULT_BLOCK_TREE (as_slice block_hash);
        mret (Removed block)
      else
        let block := decrement_refcount block in
        _ ← tx_insert DEFAULT_BLOCK_TREE (as_slice block_hash) (Block_to_vec block);
        mret (Decremented block)
  end.

(** The record [insert_new_block] writes over what it found ([rc() + 1] wraps
    in a release build). *)
Definition healed_block (data_len depth : Z) (present : option Block) : Block :=
  match present with
  | None => Block_new data_len depth
  | Some present =>
      let present := set_degraded false present in
      Block_from_parts data_len depth (wrap_u64 (b_rc present + 1)) (b_flags present)
  end.

Definition insert_new_block (block_hash : BlockId) (data_len depth : Z) : M T MetaError Block :=
  raw ← tx_get DEFAULT_BLOCK_TREE (as_slice block_hash);
  present ← match raw with
            | Some raw => b ← decoded (Block_try_from raw); mret (Some b)
            | None => mret None
            end;
  let block := healed_block data_len depth present in
  _ ← tx_insert DEFAULT_BLOCK_TREE (as_slice block_hash) (Block_to_vec block);
  mret block.

Definition put_block_record (block_hash : BlockId) (block : Block) : M T MetaError unit :=
  tx_insert DEFAULT_BLOCK_TREE (as_slice block_hash) (Block_to_vec block).

Definition remove_block_record (block_hash : BlockId) : M T MetaError unit :=
  tx_remove DEFAULT_BLOCK_TREE (as_slice block_hash).
End Transaction.

(* ------------------------------------------------------------------ *)
(** * The block records of a database *)

Definition block_key (i : BlockId) : tree * bytes := (DEFAULT_BLOCK_TREE, as_slice i).

(** The decodable record of a block. *)
Definition block_at (m : kvmap) (i : BlockId) : option Block :=
  raw ← m !! block_key i;
  match Block_try_from raw with Ok b => Some b | Err _ => None end.

Definition put_block (m : kvmap) (i : BlockId) (b : Block) : kvmap :=
  <[block_key i := Block_to_vec b]> m.

(** The references a block's record accounts for. *)
Definition rc_of (m : kvmap) (i : BlockId) : Z :=
  match block_at m i with Some b => b_rc b | None => 0 end.

Lemma block_key_inj i j : BlockId_wf i -> BlockId_wf j -> block_key i = block_key j -> i = j.
Proof. intros Hi Hj [= E]. by apply as_slice_inj. Qed.

Lemma block_at_raw m i raw b :
  m !! block_key i = Some raw -> Block_try_from raw = Ok b -> block_at m i = Some b.
Proof. unfold block_at. intros ->. simpl. by intros ->. Qed.

Lemma block_at_wf m i b : block_at m i = Some b -> Block_wf b.
Proof.
  unfold block_at. destruct (m !! block_key i) as [raw|]; simpl; [|done].
  destruct (Block_try_from raw) as [b'|] eqn:E; [|done]. intros [= ->].
  by apply Block_decode_inv in E as [? _].
Qed.

Lemma block_at_None m i : m !! block_key i = None -> block_at m i = None.
Proof. unfold block_at. by intros ->. Qed.

Lemma block_at_put m i b : Block_wf b -> block_at (put_block m i b) i = Some b.
Proof. intros Hb. eapply block_at_raw; [apply lookup_insert_eq|]. by apply Block_roundtrip. Qed.

Lemma block_at_insert_ne m p v i : p <> block_key i -> block_at (<[p := v]> m) i = block_at m i.
Proof. intros. unfold block_at. by rewrite lookup_insert_ne. Qed.

Lemma block_at_put_ne m i j b :
  BlockId_wf i -> BlockId_wf j -> i <> j -> block_at (put_block m i b) j = block_at m j.
Proof. intros Hi Hj Hij. apply block_at_insert_ne. intros E. by apply Hij, block_key_inj. Qed.

Lemma block_at_delete_eq m i : block_at (delete (block_key i) m) i = None.
Proof. apply block_at_None, lookup_delete_eq. Qed.

Lemma block_at_delete_ne m p i : p <> block_key i -> block_at (delete p m) i = block_at m i.
Proof. intros. unfold block_at. by rewrite lookup_delete_ne. Qed.

Lemma wrap_u64_small z : 0 <= z <= u64_max -> wrap_u64 z = z.
Proof. unfold wrap_u64, u64_max. intros. apply Z.mod_small. lia. Qed.

Lemma wrap_u64_range z : is_u64 (wrap_u64 z).
Proof. unfold wrap_u64. int_bounds. pose proof (Z.mod_pos_bound z (2 ^ 64)). lia. Qed.

Lemma increment_wf b : Block_wf b -> Block_wf (increment_refcount b).
Proof. intros (?&?&?&?). pose proof (wrap_u64_range (b_rc b + 1)). by split_and!. Qed.

Lemma decrement_wf b : Block_wf b -> Block_wf (decrement_refcount b).
Proof. intros (?&?&?&?). pose proof (wrap_u64_range (b_rc b - 1)). by split_and!. Qed.

Lemma u8_land_bound a b : is_u8 a -> 0 <= b -> is_u8 (Z.land a b).
Proof.
  intros Ha Hb. int_bounds. split; [apply Z.land_nonneg; lia|].
  rewrite <- (Z2N.id a), <- (Z2N.id b), <- N2Z.inj_land by lia.
  pose proof (N.land_le_l (Z.to_N a) (Z.to_N b)). lia.
Qed.

(** Clearing the degraded bit clears it and moves no other bit. *)
Lemma set_degraded_false b :
  Block_wf b ->
  Block_wf (set_degraded false b) /\ is_degraded (set_degraded false b) = false /\
  forall n, 1 <= n -> Z.testbit (b_flags (set_degraded false b)) n = Z.testbit (b_flags b) n.
Proof.
  intros (?&?&?&Hf). split; [|split].
  - split_and!; try done. apply u8_land_bound; [done|]. vm_compute. discriminate.
  - unfold is_degraded. simpl. rewrite <- Z.land_assoc. by rewrite Z.land_0_r.
  - simpl. intros n Hn. rewrite Z.land_spec. destruct (Z.testbit (b_flags b) n) eqn:E; [|done]. simpl.
    assert (n < 8) as Hn8.
    { destruct (Z.lt_ge_cases n 8) as [|Hge]; [done|].
      rewrite (Z.bits_above_log2 (b_flags b) n) in E; [done|int_bounds; lia|].
      destruct (decide (b_flags b = 0)) as [->|]; [simpl; lia|].
      apply Z.log2_lt_pow2; [int_bounds; lia|].
      apply Z.lt_le_trans with (2 ^ 8); [int_bounds; lia|]. apply Z.pow_le_mono_r; lia. }
    assert (n = 1 \/ n = 2 \/ n = 3 \/ n = 4 \/ n = 5 \/ n = 6 \/ n = 7) as Hc by lia.
    by destruct_or!; subst.
Qed.

Lemma healed_wf data_len depth present :
  is_usize data_len -> is_u8 depth -> (forall b, present = Some b -> Block_wf b) ->
  Block_wf (healed_block data_len depth present).
Proof.
  intros Hl Hd Hp. destruct present as [b|]; simpl.
  - destruct (set_degraded_false b (Hp b eq_refl)) as [(?&?&?&?) _].
    split_and!; try done. apply wrap_u64_range.
  - split_and!; try done; int_bounds; lia.
Qed.

Lemma healed_live data_len depth present :
  (forall b, present = Some b -> Block_wf b) ->
  is_degraded (healed_block data_len depth present) = false.
Proof.
  intros Hp. destruct present as [b|]; [|done]. 
  by destruct (set_degraded_false b (Hp b eq_refl)) as (_ & Hd & _).
Qed.

(* ------------------------------------------------------------------ *)
(** * Specifications of the transaction steps *)

Lemma wp_decoded {S A} (r : result FsError A) (s : S) Q :
  (forall a, r = Ok a -> Q (Ok a) s) -> (forall e, r = Err e -> Q (Err (Corruption e)) s) ->
  wp (decoded r) s Q.
Proof. intros Ho He. unfold decoded. apply wp_lift. destruct r; simpl; eauto. Qed.

(** Steps over the next call of a sequence with its specification and splits
    on its result. *)
Ltac wp_call H :=
  apply wp_bind; eapply wp_mono; [apply H|];
  let r := fresh "r" in let s := fresh "s" in
  intros r s; cbn beta; destruct r.
Ltac wp_done := first [apply wp_ret | apply wp_err | apply wp_lift].

Section TransactionSpecs.
Context {S T : Type} `{StoreLaws S T}.

Lemma bump_spec i (t : T) :
  wp (bump_block_rc i) t (fun r t' =>
    txbase t' = txbase t /\
    match r with
    | Ok None => txkv t' = txkv t /\
        (txkv t !! block_key i = None \/
         exists b, block_at (txkv t) i = Some b /\ is_degraded b = true)
    | Ok (Some b') => exists b, block_at (txkv t) i = Some b /\ is_degraded b = false /\
        b' = increment_refcount b /\ txkv t' = put_block (txkv t) i b'
    | Err _ => txkv t' = txkv t
    end).
Proof.
  unfold bump_block_rc. wp_call tx_get_spec; intros (Hk & Hb & Hr); [|by rewrite Hk, Hb].
  destruct a as [raw|]; [|apply wp_ret; rewrite Hb, Hk; auto].
  apply wp_bind, wp_decoded; [|by intros e _; rewrite Hk, Hb].
  intros b Eb. cbn beta iota.
  assert (block_at (txkv t) i = Some b) as Hat by (by eapply block_at_raw).
  destruct (is_degraded b) eqn:Ed; [apply wp_ret; rewrite Hb, Hk; eauto 10|].
  wp_call tx_insert_spec; intros (Hb' & Hk'); [|rewrite Hb', Hk', Hk, Hb; done].
  apply wp_ret. rewrite Hb', Hk', Hk, Hb. eauto 10.
Qed.

Lemma insert_new_block_spec i data_len depth (t : T) :
  wp (insert_new_block i data_len depth) t (fun r t' =>
    txbase t' = txbase t /\
    match r with
    | Ok b => exists present, b = healed_block data_len depth present /\
        txkv t' = put_block (txkv t) i b /\
        match present with
        | None => txkv t !! block_key i = None
        | Some p => block_at (txkv t) i = Some p
        end
    | Err _ => txkv t' = txkv t
    end).
Proof.
  unfold insert_new_block. wp_call tx_get_spec; intros (Hk & Hb & Hr); [|by rewrite Hk, Hb].
  apply wp_bind. destruct a as [raw|].
  - apply wp_bind, wp_decoded; [|by intros e _; rewrite Hk, Hb].
    intros b Eb. cbn beta iota. apply wp_ret.
    wp_call tx_insert_spec; intros (Hb' & Hk'); [|by rewrite Hb', Hk', Hk, Hb].
    apply wp_ret. rewrite Hb', Hk', Hk, Hb. split; [done|]. exists (Some b).
    split_and!; try done. by eapply block_at_raw.
  - apply wp_ret. wp_call tx_insert_spec; intros (Hb' & Hk'); [|by rewrite Hb', Hk', Hk, Hb].
    apply wp_ret. rewrite Hb', Hk', Hk, Hb. split; [done|]. by exists None.
Qed.

Lemma decrement_spec i (t : T) :
  wp (decrement_block_rc i) t (fun r t' =>
    txbase t' = txbase t /\
    match r with
    | Ok Missing => txkv t' = txkv t /\ txkv t !! block_key i = None
    | Ok (Removed b) => block_at (txkv t) i = Some b /\ b_rc b = 1 /\
        txkv t' = delete (block_key i) (txkv t)
    | Ok (Decremented b') => exists b, block_at (txkv t) i = Some b /\ b_rc b <> 1 /\
        b' = decrement_refcount b /\ txkv t' = put_block (txkv t) i b'
    | Err _ => txkv t' = txkv t
    end).
Proof.
  unfold decrement_block_rc. wp_call tx_get_spec; intros (Hk & Hb & Hr); [|by rewrite Hk, Hb].
  destruct a as [raw|]; [|apply wp_ret; rewrite Hb, Hk; auto].
  apply wp_bind, wp_decoded; [|by intros e _; rewrite Hk, Hb].
  intros b Eb. cbn beta iota.
  assert (block_at (txkv t) i = Some b) as Hat by (by eapply block_at_raw).
  destruct (Z.eqb_spec (b_rc b) 1).
  - wp_call tx_remove_spec; intros (Hb' & Hk'); [|rewrite Hb', Hk', Hk, Hb; done].
    apply wp_ret. rewrite Hb', Hk', Hk, Hb. eauto 10.
  - wp_call tx_insert_spec; intros (Hb' & Hk'); [|rewrite Hb', Hk', Hk, Hb; done].
    apply wp_ret. rewrite Hb', Hk', Hk, Hb. eauto 10.
Qed.
End TransactionSpecs.
