(* ===== verification/Commands.v ===== *)
(** The commands of respcas (respcas/src/cmd.rs, cmd/parse.rs, property.rs):
    how a frame becomes a command, and the values of namespace properties. *)

From S2P Require Import Prelude Bytes Resp Externals BlockIds Codec Records StoreHeader MetaStore.
From Stdlib Require Import Strings.Byte.
Local Open Scope Z_scope.
#[local] Set Warnings "-clear-no-such-hyp,-register-all".

(* ------------------------------------------------------------------ *)
(** * Text *)

Definition is_ascii (b : byte) : Prop := byte_to_Z b < 128.
#[global] Instance is_ascii_dec b : Decision (is_ascii b).
Proof. unfold is_ascii. apply _. Defined.
Definition ascii_upper (b : byte) : byte := if in_range 97 122 b then byte_of_Z (byte_to_Z b - 32) else b.
Definition ascii_lower (b : byte) : byte := if in_range 65 90 b then byte_of_Z (byte_to_Z b + 32) else b.

(** [String::from_utf8_lossy], [str::to_uppercase], [str::to_lowercase] and
    [str::trim].  They follow the Unicode tables; what is relied on is what
    they do on well-formed and on ASCII text. *)
Class Unicode := {
  from_utf8_lossy : bytes -> bytes;
  to_uppercase : bytes -> bytes;
  to_lowercase : bytes -> bytes;
  trim : bytes -> bytes
}.
Class UnicodeLaws `{Unicode} : Prop := {
  lossy_valid s : utf8_valid s = true -> from_utf8_lossy s = s;
  upper_ascii s : Forall is_ascii s -> to_uppercase s = map ascii_upper s;
  lower_ascii s : Forall is_ascii s -> to_lowercase s = map ascii_lower s;
  trim_plain s : Forall (fun b => is_ascii b /\ is_space b = false) s -> trim s = s
}.

(** [str::eq_ignore_ascii_case] *)
Definition eq_ignore_ascii_case (a b : bytes) : bool :=
  bool_decide (map ascii_lower a = map ascii_lower b).

(** [str::parse::<u64>]: an optional plus sign, at least one digit, in range. *)
Definition parse_u64 (l : bytes) : option Z :=
  let number := fun ds : bytes =>
    match ds with
    | [] => None
    | _ => n ← digits 0 ds; if n <=? u64_max then Some n else None
    end in
  match l with
  | b :: r => if decide (b = x2b) then number r else number l
  | [] => None
  end.

(* ------------------------------------------------------------------ *)
(** * Commands *)

(** [CommandError]; [CmdPanic] is an argument read out of bounds. *)
Inductive CommandError : Type :=
| UnknownCommand (name : bytes)
| WrongNumberOfArguments (name : bytes)
| CmdStorage (e : MetaError)
| CmdProtocol (msg : bytes)
| CmdPanic.

Inductive Command : Type :=
| CmdGet (key : bytes)
| CmdMGet (keys : list bytes)
| CmdSet (key value : bytes)
| CmdCSet (value : bytes)
| CmdPing (message : option bytes)
| CmdEcho (message : bytes)
| CmdDel (keys : list bytes)
| CmdExists (key : bytes)
| CmdCheck (key : bytes)
| CmdLength (key : bytes)
| CmdKeyTime (key : bytes)
| CmdSelect (namespace : bytes) (password : option bytes)
| CmdNSNew (name : bytes)
| CmdNSInfo (name : bytes)
| CmdNSList
| CmdAuth (password : bytes)
| CmdDBSize
| CmdScan (cursor : option bytes)
| CmdRScan (cursor : option bytes)
| CmdNSSet (namespace property value : bytes)
| CmdFlush
| CmdTime.

(** The command name, upper case, and every frame, the name's included. *)
Record Args : Type := mkArgs { ar_name : bytes; ar_argv : list Frame }.

Abbreviation CR := (result CommandError).

Section Parse.
Context `{Unicode}.

Definition Args_from_frame (frame : Frame) : CR Args :=
  match frame with
  | Array [] => Err (WrongNumberOfArguments (str "empty command"))
  | Array (BulkString bs :: argv) => Ok (mkArgs (to_uppercase (from_utf8_lossy bs)) (BulkString bs :: argv))
  | Array _ => Err (CmdProtocol (str "Command name must be a bulk string"))
  | _ => Err (CmdProtocol (str "Command must be an array"))
  end.

Definition args_len (a : Args) : nat := length (ar_argv a).
Definition wrong_arity (a : Args) : CommandError := WrongNumberOfArguments (ar_name a).
Definition arity_exact (n : nat) (a : Args) : CR unit :=
  if (args_len a =? n)%nat then Ok tt else Err (wrong_arity a).
Definition arity_min (n : nat) (a : Args) : CR unit :=
  if (n <=? args_len a)%nat then Ok tt else Err (wrong_arity a).
Definition arity_max (n : nat) (a : Args) : CR unit :=
  if (args_len a <=? n)%nat then Ok tt else Err (wrong_arity a).
Definition arity_range (min max : nat) (a : Args) : CR unit := _ ← arity_min min a; arity_max max a.

Definition not_bulk (a : Args) (what : bytes) : CommandError :=
  CmdProtocol (ar_name a ++ str " " ++ what ++ str " must be a bulk string").

(** [&self.argv[idx]] panics out of bounds. *)
Definition bytes_at (a : Args) (idx : nat) (what : bytes) : CR bytes :=
  match ar_argv a !! idx with
  | None => Err CmdPanic
  | Some (BulkString bs) => Ok bs
  | Some _ => Err (not_bulk a what)
  end.

Definition string_at (a : Args) (idx : nat) (what : bytes) : CR bytes :=
  match ar_argv a !! idx with
  | None => Err CmdPanic
  | Some (BulkString bs) => Ok (from_utf8_lossy bs)
  | Some _ => Err (not_bulk a what)
  end.

Definition opt_string_at (a : Args) (idx : nat) (what : bytes) : CR (option bytes) :=
  if (idx <? args_len a)%nat then s ← string_at a idx what; Ok (Some s) else Ok None.
Definition opt_bytes_at (a : Args) (idx : nat) (what : bytes) : CR (option bytes) :=
  if (idx <? args_len a)%nat then s ← bytes_at a idx what; Ok (Some s) else Ok None.

Definition parse_no_args (a : Args) (cmd : Command) : CR Command := _ ← arity_exact 1 a; Ok cmd.
Definition parse_one_arg (a : Args) (what : bytes) (make : bytes -> Command) : CR Command :=
  _ ← arity_exact 2 a; s ← string_at a 1 what; Ok (make s).
Definition parse_one_key (a : Args) (make : bytes -> Command) : CR Command :=
  _ ← arity_exact 2 a; k ← bytes_at a 1 (str "key"); Ok (make k).

(** Cursor [0] is the start of the walk. *)
Definition parse_cursor (a : Args) (make : option bytes -> Command) : CR Command :=
  _ ← arity_max 2 a;
  cursor ← opt_bytes_at a 1 (str "cursor");
  Ok (make (match cursor with
            | Some c => if decide (c = str "0") then None else Some c
            | None => None
            end)).

(** [for idx in 1..args.len()] *)
Fixpoint keys_from (a : Args) (idx n : nat) : CR (list bytes) :=
  match n with
  | O => Ok []
  | S n => k ← bytes_at a idx (str "key"); ks ← keys_from a (S idx) n; Ok (k :: ks)
  end.
Definition parse_keys (a : Args) : CR (list bytes) :=
  _ ← arity_min 2 a; keys_from a 1 (args_len a - 1).
Definition parse_mget (a : Args) : CR Command := ks ← parse_keys a; Ok (CmdMGet ks).
Definition parse_del (a : Args) : CR Command := ks ← parse_keys a; Ok (CmdDel ks).

Definition parse_set (a : Args) : CR Command :=
  _ ← arity_min 3 a;
  key ← bytes_at a 1 (str "key");
  value ← bytes_at a 2 (str "value");
  Ok (CmdSet key value).
Definition parse_cset (a : Args) : CR Command :=
  _ ← arity_exact 2 a; value ← bytes_at a 1 (str "value"); Ok (CmdCSet value).
Definition parse_ping (a : Args) : CR Command := message ← opt_string_at a 1 (str "message"); Ok (CmdPing message).
Definition parse_echo (a : Args) : CR Command :=
  _ ← arity_exact 2 a; message ← bytes_at a 1 (str "message"); Ok (CmdEcho message).
Definition parse_select (a : Args) : CR Command :=
  _ ← arity_range 2 3 a;
  namespace ← string_at a 1 (str "namespace");
  password ← opt_string_at a 2 (str "password");
  Ok (CmdSelect namespace password).
Definition parse_nsset (a : Args) : CR Command :=
  _ ← arity_exact 4 a;
  namespace ← string_at a 1 (str "namespace");
  property ← string_at a 2 (str "property");
  value ← string_at a 3 (str "value");
  Ok (CmdNSSet namespace property value).

(** [match args.name.as_str()] *)
Definition parse_named (a : Args) : CR Command :=
  let named (s : string) := bool_decide (ar_name a = str s) in
  if named "AUTH" then parse_one_arg a (str "password") CmdAuth
  else if named "CHECK" then parse_one_key a CmdCheck
  else if named "CSET" then parse_cset a
  else if named "DBSIZE" then parse_no_args a CmdDBSize
  else if named "DEL" then parse_del a
  else if named "ECHO" then parse_echo a
  else if named "EXISTS" then parse_one_key a CmdExists
  else if named "FLUSH" then parse_no_args a CmdFlush
  else if named "GET" then parse_one_key a CmdGet
  else if named "KEYTIME" then parse_one_key a CmdKeyTime
  else if named "LENGTH" then parse_one_key a CmdLength
  else if named "MGET" then parse_mget a
  else if named "NSINFO" then parse_one_arg a (str "name") CmdNSInfo
  else if named "NSLIST" then parse_no_args a CmdNSList
  else if named "NSNEW" then parse_one_arg a (str "name") CmdNSNew
  else if named "NSSET" then parse_nsset a
  else if named "PING" then parse_ping a
  else if named "RSCAN" then parse_cursor a CmdRScan
  else if named "SCAN" then parse_cursor a CmdScan
  else if named "SELECT" then parse_select a
  else if named "SET" then parse_set a
  else if named "TIME" then parse_no_args a CmdTime
  else Err (UnknownCommand (ar_name a)).

Definition Command_from_frame (frame : Frame) : CR Command :=
  a ← Args_from_frame frame; parse_named a.
End Parse.

(* ------------------------------------------------------------------ *)
(** * Property values *)

Inductive BoolPropertyValue : Type := Off | On.
Definition parse_bool_property (value : bytes) : result bytes BoolPropertyValue :=
  if decide (value = str "0") then Ok Off
  else if decide (value = str "1") then Ok On
  else Err (str "Invalid property value: " ++ value).
Definition to_bool (b : BoolPropertyValue) : bool := match b with Off => false | On => true end.

Inductive KeyMode : Type := UserKey | Sequential | Cas.
#[global] Instance KeyMode_eq_dec : EqDecision KeyMode.
Proof. solve_decision. Defined.

Definition key_mode_name (mode : KeyMode) : bytes :=
  match mode with
  | UserKey => str "userkey"
  | Sequential => str "sequential"
  | Cas => str "cas"
  end.

Section Properties.
Context `{Unicode}.

Definition parse_key_mode (value : bytes) : result bytes KeyMode :=
  let other := to_lowercase value in
  if decide (other = str "userkey") then Ok UserKey
  else if decide (other = str "cas") then Ok Cas
  else if decide (other = str "sequential")
    then Err (str "the sequential key mode is not implemented; namespaces are userkey or cas")
  else Err (str "unknown key mode: " ++ other ++ str " (expected userkey or cas)").

Definition parse_max_size (value : bytes) : result bytes (option Z) :=
  match parse_u64 (trim value) with
  | Some n => if n =? 0 then Ok None else Ok (Some n)
  | None => Err (str "Invalid property value: " ++ value ++ str " (max_size is a number of bytes, 0 for no limit)")
  end.
End Properties.

(* ------------------------------------------------------------------ *)
(** * The wire form of a command *)

Definition cmd_name (c : Command) : bytes :=
  str match c with
      | CmdGet _ => "GET" | CmdMGet _ => "MGET" | CmdSet _ _ => "SET" | CmdCSet _ => "CSET"
      | CmdPing _ => "PING" | CmdEcho _ => "ECHO" | CmdDel _ => "DEL" | CmdExists _ => "EXISTS"
      | CmdCheck _ => "CHECK" | CmdLength _ => "LENGTH" | CmdKeyTime _ => "KEYTIME"
      | CmdSelect _ _ => "SELECT" | CmdNSNew _ => "NSNEW" | CmdNSInfo _ => "NSINFO"
      | CmdNSList => "NSLIST" | CmdAuth _ => "AUTH" | CmdDBSize => "DBSIZE" | CmdScan _ => "SCAN"
      | CmdRScan _ => "RSCAN" | CmdNSSet _ _ _ => "NSSET" | CmdFlush => "FLUSH" | CmdTime => "TIME"
      end.

Definition opt_arg (o : option bytes) : list bytes := match o with Some b => [b] | None => [] end.

Definition cmd_args (c : Command) : list bytes :=
  match c with
  | CmdGet k | CmdExists k | CmdCheck k | CmdLength k | CmdKeyTime k => [k]
  | CmdMGet ks | CmdDel ks => ks
  | CmdSet k v => [k; v]
  | CmdCSet v | CmdEcho v => [v]
  | CmdPing m => opt_arg m
  | CmdSelect n p => n :: opt_arg p
  | CmdNSNew n | CmdNSInfo n => [n]
  | CmdAuth p => [p]
  | CmdScan c | CmdRScan c => opt_arg c
  | CmdNSSet n p v => [n; p; v]
  | CmdNSList | CmdDBSize | CmdFlush | CmdTime => []
  end.

Definition valid_text (s : bytes) : Prop := utf8_valid s = true.
Definition opt_all (P : bytes -> Prop) (o : option bytes) : Prop := match o with Some b => P b | None => True end.

(** What can be asked for: at least one key, names that are text, no cursor
    that means the start. *)
Definition cmd_wf (c : Command) : Prop :=
  match c with
  | CmdMGet ks | CmdDel ks => ks <> []
  | CmdPing m => opt_all valid_text m
  | CmdSelect n p => valid_text n /\ opt_all valid_text p
  | CmdNSNew s | CmdNSInfo s | CmdAuth s => valid_text s
  | CmdScan c | CmdRScan c => opt_all (fun b => b <> str "0") c
  | CmdNSSet n p v => valid_text n /\ valid_text p /\ valid_text v
  | _ => True
  end.

Definition cmd_frame (name : bytes) (c : Command) : Frame := Array (map BulkString (name :: cmd_args c)).

Lemma in_range_ascii b : is_ascii b -> in_range 0 127 b = true.
Proof.
  unfold is_ascii, in_range. pose proof (byte_to_Z_range b). intros Hb.
  rewrite (proj2 (Z.leb_le _ _)), (proj2 (Z.leb_le _ _)) by lia. done.
Qed.

Lemma ascii_utf8_valid s : Forall is_ascii s -> utf8_valid s = true.
Proof. induction 1 as [|b s Hb _ IH]; [done|]. cbn [utf8_valid]. by rewrite in_range_ascii. Qed.

Lemma ascii_upper_inv b : is_ascii (ascii_upper b) -> is_ascii b.
Proof.
  unfold ascii_upper, is_ascii. destruct (in_range 97 122 b) eqn:E; [|done]. intros _.
  unfold in_range in E. apply andb_prop in E as [_ E]. apply Z.leb_le in E. lia.
Qed.

Lemma spelled_ascii s t : map ascii_upper s = t -> Forall is_ascii t -> Forall is_ascii s.
Proof.
  intros <-. rewrite Forall_map. intros Ht. eapply Forall_impl; [exact Ht|]. intros b. apply ascii_upper_inv.
Qed.

(** Results that are not a read out of bounds. *)
Definition calm {A} (r : CR A) : Prop := r <> Err CmdPanic.

Lemma calm_bind {A B} (r : CR A) (k : A -> CR B) : calm r -> (forall a, r = Ok a -> calm (k a)) -> calm (r ≫= k).
Proof. unfold calm. destruct r; cbn; [auto|]. intros Hr _ [= ->]. done. Qed.

Section Wire.
Context `{UnicodeLaws}.

Lemma keys_from_all a n ks idx rest :
  drop idx (ar_argv a) = map BulkString ks ++ rest -> n = length ks -> keys_from a idx n = Ok ks.
Proof.
  revert idx rest n. induction ks as [|k ks IH]; intros idx rest n Hd ->; [done|]. cbn [keys_from length].
  assert (ar_argv a !! idx = Some (BulkString k)) as Hk.
  { rewrite <- (Nat.add_0_r idx), <- lookup_drop, Hd. done. }
  unfold bytes_at. rewrite Hk. cbn [mbind result_bind]. rewrite (IH (S idx) rest); [done| |done].
  rewrite <- Nat.add_1_r, <- drop_drop, Hd. done.
Qed.

Lemma parse_keys_all name argv0 ks :
  ks <> [] -> parse_keys (mkArgs name (argv0 :: map BulkString ks)) = Ok ks.
Proof.
  intros Hne. unfold parse_keys, arity_min, args_len. cbn [ar_argv length]. rewrite length_map.
  destruct ks as [|k ks]; [done|]. cbn [length Nat.leb mbind result_bind].
  apply (keys_from_all _ _ (k :: ks) 1 []); [by rewrite app_nil_r|]. simpl. lia.
Qed.

Lemma bytes_at_calm a idx what : (idx < args_len a)%nat -> calm (bytes_at a idx what).
Proof.
  intros Hi. unfold bytes_at. destruct (lookup_lt_is_Some_2 _ _ Hi) as [f ->]. by destruct f.
Qed.

Lemma string_at_calm a idx what : (idx < args_len a)%nat -> calm (string_at a idx what).
Proof.
  intros Hi. unfold string_at. destruct (lookup_lt_is_Some_2 _ _ Hi) as [f ->]. by destruct f.
Qed.

Lemma opt_bytes_at_calm a idx what : calm (opt_bytes_at a idx what).
Proof.
  unfold opt_bytes_at. destruct (Nat.ltb_spec idx (args_len a)); [|done].
  apply calm_bind; [by apply bytes_at_calm|done].
Qed.

Lemma opt_string_at_calm a idx what : calm (opt_string_at a idx what).
Proof.
  unfold opt_string_at. destruct (Nat.ltb_spec idx (args_len a)); [|done].
  apply calm_bind; [by apply string_at_calm|done].
Qed.

Lemma arity_exact_calm n a : calm (arity_exact n a).
Proof. unfold arity_exact. by destruct (_ =? _)%nat. Qed.
Lemma arity_exact_ok n a u : arity_exact n a = Ok u -> args_len a = n.
Proof. unfold arity_exact. by destruct (Nat.eqb_spec (args_len a) n). Qed.
Lemma arity_min_calm n a : calm (arity_min n a).
Proof. unfold arity_min. by destruct (_ <=? _)%nat. Qed.
Lemma arity_min_ok n a u : arity_min n a = Ok u -> (n <= args_len a)%nat.
Proof. unfold arity_min. by destruct (Nat.leb_spec n (args_len a)). Qed.
Lemma arity_max_calm n a : calm (arity_max n a).
Proof. unfold arity_max. by destruct (_ <=? _)%nat. Qed.

Lemma keys_from_calm a n : forall idx, (idx + n <= args_len a)%nat -> calm (keys_from a idx n).
Proof.
  induction n as [|n IH]; intros idx Hl; [done|]. cbn [keys_from].
  apply calm_bind; [apply bytes_at_calm; lia|]. intros k _.
  apply calm_bind; [apply IH; lia|done].
Qed.

Lemma parse_keys_calm a : calm (parse_keys a).
Proof.
  unfold parse_keys. apply calm_bind; [apply arity_min_calm|]. intros u Hu%arity_min_ok.
  apply keys_from_calm. lia.
Qed.

Lemma parse_one_arg_calm a what make : calm (parse_one_arg a what make).
Proof.
  apply calm_bind; [apply arity_exact_calm|]. intros u Hu%arity_exact_ok.
  apply calm_bind; [apply string_at_calm; lia|done].
Qed.

Lemma parse_one_key_calm a make : calm (parse_one_key a make).
Proof.
  apply calm_bind; [apply arity_exact_calm|]. intros u Hu%arity_exact_ok.
  apply calm_bind; [apply bytes_at_calm; lia|done].
Qed.

Lemma parse_no_args_calm a cmd : calm (parse_no_args a cmd).
Proof. apply calm_bind; [apply arity_exact_calm|done]. Qed.

Lemma parse_cursor_calm a make : calm (parse_cursor a make).
Proof.
  apply calm_bind; [apply arity_max_calm|]. intros u _. apply calm_bind; [apply opt_bytes_at_calm|done].
Qed.

Lemma parse_keyed_calm a make : calm (ks ← parse_keys a; Ok (make ks : Command)).
Proof. apply calm_bind; [apply parse_keys_calm|done]. Qed.

Lemma parse_set_calm a : calm (parse_set a).
Proof.
  apply calm_bind; [apply arity_min_calm|]. intros u Hu%arity_min_ok.
  apply calm_bind; [apply bytes_at_calm; lia|]. intros k _.
  apply calm_bind; [apply bytes_at_calm; lia|done].
Qed.

Lemma parse_value_calm a what make : calm (_ ← arity_exact 2 a; v ← bytes_at a 1 what; Ok (make v : Command)).
Proof.
  apply calm_bind; [apply arity_exact_calm|]. intros u Hu%arity_exact_ok.
  apply calm_bind; [apply bytes_at_calm; lia|done].
Qed.

Lemma parse_ping_calm a : calm (parse_ping a).
Proof. apply calm_bind; [apply opt_string_at_calm|done]. Qed.

Lemma parse_select_calm a : calm (parse_select a).
Proof.
  apply calm_bind; [unfold arity_range; apply calm_bind; [apply arity_min_calm|intros; apply arity_max_calm]|].
  intros u Hu. assert (2 <= args_len a)%nat as Hl.
  { unfold arity_range in Hu. destruct (arity_min 2 a) as [v|] eqn:E; [|done]. by eapply arity_min_ok. }
  apply calm_bind; [apply string_at_calm; lia|]. intros n _. apply calm_bind; [apply opt_string_at_calm|done].
Qed.

Lemma parse_nsset_calm a : calm (parse_nsset a).
Proof.
  apply calm_bind; [apply arity_exact_calm|]. intros u Hu%arity_exact_ok.
  apply calm_bind; [apply string_at_calm; lia|]. intros n _.
  apply calm_bind; [apply string_at_calm; lia|]. intros p _.
  apply calm_bind; [apply string_at_calm; lia|done].
Qed.

#[local] Hint Resolve parse_one_arg_calm parse_one_key_calm parse_no_args_calm parse_cursor_calm parse_set_calm
  parse_ping_calm parse_select_calm parse_nsset_calm : qss.

Lemma parse_named_calm a : calm (parse_named a).
Proof.
  unfold parse_named. repeat (case_bool_decide; [solve [eauto with qss|apply parse_value_calm|apply parse_keyed_calm]|]).
  done.
Qed.

Lemma optional_text a idx what o :
  opt_all valid_text o -> drop idx (ar_argv a) = map BulkString (opt_arg o) -> (idx <= args_len a)%nat ->
  opt_string_at a idx what = Ok o.
Proof.
  intros Ho Hd Hi. unfold opt_string_at, string_at, args_len in *.
  assert (length (ar_argv a) = idx + length (opt_arg o))%nat as Hl.
  { apply (f_equal length) in Hd. rewrite length_drop, length_map in Hd. lia. }
  destruct o as [b|]; simpl in *.
  - rewrite (proj2 (Nat.ltb_lt _ _)) by lia. assert (ar_argv a !! idx = Some (BulkString b)) as ->.
    { rewrite <- (Nat.add_0_r idx), <- lookup_drop, Hd. done. }
    cbn. by rewrite lossy_valid.
  - by rewrite (proj2 (Nat.ltb_ge _ _)) by lia.
Qed.

Lemma parse_cursor_wire name argv0 c make :
  opt_all (fun b => b <> str "0") c ->
  parse_cursor (mkArgs name (argv0 :: map BulkString (opt_arg c))) make = Ok (make c).
Proof. intros Hc. destruct c as [c|]; [|done]. cbn in *. by rewrite decide_False. Qed.

(** Decides the name of a known command. *)
Ltac pick_name :=
  repeat match goal with
  | |- context [bool_decide (?a = ?b)] =>
      let v := eval vm_compute in (bool_decide (a = b)) in
      change (bool_decide (a = b)) with v; cbn iota
  end.

Lemma parse_named_wire c argv0 :
  cmd_wf c -> parse_named (mkArgs (cmd_name c) (argv0 :: map BulkString (cmd_args c))) = Ok c.
Proof.
  intros Hwf. unfold parse_named. cbn [ar_name].
  destruct c; cbn [cmd_name cmd_args cmd_wf] in *; pick_name; try done;
    try (by apply parse_cursor_wire);
    try (unfold parse_mget, parse_del; by rewrite parse_keys_all);
    try (cbn; by rewrite !lossy_valid by naive_solver).
  - unfold parse_ping. by rewrite (optional_text _ 1 _ message) by (done || (unfold args_len; simpl; lia)).
  - destruct Hwf as [Hn Hp]. unfold parse_select.
    assert (length (opt_arg password) <= 1)%nat as Hone by (destruct password; simpl; lia).
    unfold arity_range, arity_min, arity_max, args_len. cbn [ar_argv length map]. rewrite length_map.
    rewrite (proj2 (Nat.leb_le _ _)) by lia. cbn [mbind result_bind].
    rewrite (proj2 (Nat.leb_le _ _)) by lia. cbn [mbind result_bind].
    unfold string_at at 1. cbn [ar_argv lookup list_lookup]. cbn [mbind result_bind]. rewrite lossy_valid by done.
    by rewrite (optional_text _ 2 _ password) by (done || (unfold args_len; simpl; lia)).
Qed.

(** C40: Every command has a wire form, and no request can make the parser
    read past its arguments.  A command's name in any case, followed by its
    arguments as bulk strings, parses to exactly that command; and whatever
    frame arrives, the parser answers with a command or an error of the
    client's, never with an index out of bounds. *)
Theorem commands_parse_exactly (c : Command) (name : bytes) :
  cmd_wf c -> map ascii_upper name = cmd_name c ->
  Command_from_frame (cmd_frame name c) = Ok c /\
  forall frame, Command_from_frame frame <> Err CmdPanic.
Proof.
  intros Hwf Hname. split.
  - assert (to_uppercase (from_utf8_lossy name) = cmd_name c) as Hup.
    { assert (Forall is_ascii name) as Ha.
      { eapply spelled_ascii; [exact Hname|]. destruct c; apply (bool_decide_unpack _); vm_compute; exact I. }
      by rewrite lossy_valid, upper_ascii by auto using ascii_utf8_valid. }
    unfold Command_from_frame, cmd_frame. cbn [map Args_from_frame mbind result_bind]. rewrite Hup.
    by apply parse_named_wire.
  - intros frame. unfold Command_from_frame. apply calm_bind; [|intros a _; apply parse_named_calm].
    destruct frame as [| | | |[|[] l]|]; done.
Qed.
End Wire.

(* ------------------------------------------------------------------ *)
(** * Evaluation *)

Module AsciiText.
Definition replace_non_ascii (b : byte) : byte := if decide (is_ascii b) then b else x3f.

#[global] Instance text : Unicode := {|
  from_utf8_lossy s := if utf8_valid s then s else map replace_non_ascii s;
  to_uppercase := map ascii_upper;
  to_lowercase := map ascii_lower;
  trim s := rev (skip_space (rev (skip_space s)))
|}.

Lemma skip_space_none s : Forall (fun b => is_ascii b /\ is_space b = false) s -> skip_space s = s.
Proof. destruct 1 as [|b s [_ Hb] _]; [done|]. simpl. by rewrite Hb. Qed.

#[global] Instance text_laws : UnicodeLaws.
Proof.
  split; intros s Hs; [|done|done|].
  - simpl. by rewrite Hs.
  - simpl. rewrite (skip_space_none s) by done. rewrite skip_space_none; [apply rev_involutive|].
    by apply List.Forall_rev.
Qed.
End AsciiText.
Import AsciiText.

Lemma commands_parse_exactly_witness :
  Command_from_frame (Array (map BulkString [str "nsSet"; str "ns1"; str "worm"; str "1"]))
  = Ok (CmdNSSet (str "ns1") (str "worm") (str "1")).
Proof.
  exact (proj1 (commands_parse_exactly (CmdNSSet (str "ns1") (str "worm") (str "1")) (str "nsSet")
    ltac:(repeat split; vm_compute; reflexivity) ltac:(vm_compute; reflexivity))).
Defined.
