(* ===== verification/Disk.v ===== *)
(** Block files on disk (cas/block_disk.rs, cas/block_disk/store_id.rs): the
    low-level operations [BlockDiskOps], the atomic writer with its staged
    batches, and the pairing marker.

    [BlockDiskOps] has one field per trait method and [DiskLaws] says what
    they do to the file contents; the writer is specified against the laws.
    [RealDiskOps] (over a model of [std::fs] whose calls can fail) is an
    implementation of them, in RealDisk.v. *)

From S2P Require Import Prelude Bytes Externals BlockIds Codec Records StoreHeader.
From stdpp Require Import pretty.
From Stdlib Require Import Strings.Byte.
Local Open Scope Z_scope.
#[local] Set Warnings "-clear-no-such-hyp".

(** [io::ErrorKind], as far as the source tells kinds apart. *)
Inductive ErrorKind : Type :=
| IoNotFound | IoAlreadyExists | IoCrossesDevices | IoInvalidInput | IoBrokenPipe | IoOther.

Record IoError : Type := mkIoError { io_kind : ErrorKind; io_msg : string }.

Inductive Durability : Type := Buffer | Fsync.

(* ------------------------------------------------------------------ *)
(** * The disk traits *)

Class BlockDiskOps (D : Type) := {
  create_dir_all : path -> M D IoError unit;
  write_new_file : path -> bytes -> M D IoError unit;
  fsync_file : path -> bool -> M D IoError unit;
  fsync_dir : path -> M D IoError unit;
  rename : path -> path -> M D IoError unit;
  remove_file : path -> M D IoError unit;
  list_dir : path -> M D IoError (list path);
  device_of : path -> M D IoError (option Z)
}.

(** What the engine asks [std::fs] directly: [fs::read], [fs::write] (which
    truncates), [Path::is_dir], [Path::is_file], and the entry count of a
    directory ([None] when it cannot be read). *)
Class StdFs (D : Type) := {
  fs_read : path -> M D IoError bytes;
  fs_write : path -> bytes -> M D IoError unit;
  is_dir : path -> D -> bool;
  is_file : path -> D -> bool;
  entry_count : path -> D -> option Z
}.

Class DiskView (D : Type) := files : D -> gmap path bytes.

(** What the operations do to the files.  A failed write may leave a partial
    file behind; a failed rename or removal has not touched the names, or (for
    a removal) has already removed the file. *)
Class DiskLaws (D : Type) `{BlockDiskOps D, StdFs D, DiskView D} : Prop := {
  create_dir_all_spec p d : wp (create_dir_all p) d (fun _ d' => files d' = files d);
  write_new_file_spec p c d : wp (write_new_file p c) d (fun r d' =>
    match r with
    | Ok _ => files d !! p = None /\ files d' = <[p := c]> (files d)
    | Err _ => files d' = files d \/
               (files d !! p = None /\ exists part, files d' = <[p := part]> (files d))
    end);
  fsync_file_spec p b d : wp (fsync_file p b) d (fun _ d' => files d' = files d);
  fsync_dir_spec p d : wp (fsync_dir p) d (fun _ d' => files d' = files d);
  rename_spec a b d : wp (rename a b) d (fun r d' =>
    match r with
    | Ok _ => exists c, files d !! a = Some c /\ files d' = <[b := c]> (delete a (files d))
    | Err _ => files d' = files d
    end);
  remove_file_spec p d : wp (remove_file p) d (fun r d' =>
    match r with
    | Ok _ => files d' = delete p (files d)
    | Err _ => files d' = files d \/ files d' = delete p (files d)
    end);
  list_dir_spec p d : wp (list_dir p) d (fun r d' =>
    files d' = files d /\ match r with Ok l => forall q, q ∈ l -> exists n, q = p ++ [n] | Err _ => True end);
  device_of_spec p d : wp (device_of p) d (fun _ d' => files d' = files d);
  fs_read_spec p d : wp (fs_read p) d (fun r d' =>
    files d' = files d /\ match r with
    | Ok c => files d !! p = Some c
    | Err e => io_kind e = IoNotFound -> files d !! p = None
    end);
  fs_write_spec p c d : wp (fs_write p c) d (fun r d' =>
    match r with
    | Ok _ => files d' = <[p := c]> (files d)
    | Err _ => forall q, q <> p -> files d' !! q = files d !! q
    end);
  is_file_spec p d : is_file p d = true -> is_Some (files d !! p)
}.

(* ------------------------------------------------------------------ *)
(** * The writer *)

Definition TMP_DIR_NAME : bytes := str ".tmp".
Definition QUARANTINE_DIR_NAME : bytes := str ".quarantine".
Definition BLOCKS_DB_DIR_NAME : bytes := str ".db".
Definition STORE_ID_MARKER_NAME : bytes := str ".store-id".

Inductive StoreIdMarker : Type :=
| Absent
| Unreadable (found : bytes)
| Present (i : StoreId).

Record StagedBlock : Type := mkStagedBlock {
  sb_depth : Z;
  temp_path : path;
  final_path : path;
  fanout_dir : path
}.

(** The fields of [AtomicBlockWriter] that never change after [open]. *)
Record AtomicBlockWriter : Type := mkWriter {
  aw_root : path;
  aw_tmp : path;
  aw_durability : Durability;
  aw_store_id_marker : StoreIdMarker
}.

(** The disk, the writer's [known_durable] set and the process-wide
    [TEMP_NONCE]. *)
Record DiskState (D : Type) : Type := mkDiskState {
  ds_disk : D;
  ds_known_durable : gset path;
  ds_nonce : Z
}.
Arguments mkDiskState {D}.
Arguments ds_disk {D}.
Arguments ds_known_durable {D}.
Arguments ds_nonce {D}.

Definition syncs (w : AtomicBlockWriter) : bool :=
  match aw_durability w with Buffer => false | Fsync => true end.

Section Writer.
Context {D : Type} `{BlockDiskOps D, StdFs D, FasterHex}.
Abbreviation DM := (M (DiskState D) IoError).

(** A disk call made by the writer. *)
Definition on_disk {A} (m : M D IoError A) : DM A := fun ds =>
  let '(r, d') := m (ds_disk ds) in
  (r, mkDiskState d' (ds_known_durable ds) (ds_nonce ds)).

(** [let _ = m]: a best-effort call. *)
Definition ignore {A} (m : DM A) : DM unit := fun ds => let '(_, ds') := m ds in (Ok tt, ds').

(** [TEMP_NONCE.fetch_add(1)]. *)
Definition next_nonce : DM Z := fun ds =>
  (Ok (ds_nonce ds),
   mkDiskState (ds_disk ds) (ds_known_durable ds) (wrap_u64 (ds_nonce ds + 1))).

Definition add_durable (ps : list path) : DM unit := fun ds =>
  (Ok tt, mkDiskState (ds_disk ds) (list_to_set ps ∪ ds_known_durable ds) (ds_nonce ds)).

(** [self.tmp.join(format!("{name}-{nonce}"))]. *)
Definition temp_name (tmp : path) (name : bytes) (nonce : Z) : path :=
  tmp ++ [name ++ str "-" ++ str (pretty (Z.to_N nonce))].

(** The marker file's text as a claim.  [String::from_utf8_lossy] replaces
    what is not UTF-8, which never parses as an id; the excerpt an unreadable
    marker carries for the log is kept whole. *)
Definition marker_of_text (raw : bytes) : StoreIdMarker :=
  if utf8_valid raw then
    match parse_hex raw with Some i => Present i | None => Unreadable raw end
  else Unreadable raw.

Definition read_store_id_marker (blocks_root : path) : M D IoError StoreIdMarker := fun d =>
  match fs_read (blocks_root ++ [STORE_ID_MARKER_NAME]) d with
  | (Ok raw, d') => (Ok (marker_of_text raw), d')
  | (Err e, d') =>
      match io_kind e with
      | IoNotFound => (Ok Absent, d')
      | _ => (Err e, d')
      end
  end.

Definition open_writer (root : path) (durability : Durability) : DM AtomicBlockWriter :=
  let tmp := root ++ [TMP_DIR_NAME] in
  _ ← on_disk (create_dir_all root);
  _ ← on_disk (create_dir_all tmp);
  stale ← on_disk (list_dir tmp);
  _ ← M_iter (fun p => on_disk (remove_file p)) stale;
  root_dev ← on_disk (device_of root);
  tmp_dev ← on_disk (device_of tmp);
  _ ← match root_dev, tmp_dev with
      | Some r, Some t => if r =? t then mret tt
                          else M_err (mkIoError IoInvalidInput "blocks root and temp dir are on different filesystems")
      | _, _ => mret tt
      end;
  marker ← on_disk (read_store_id_marker root);
  let writer := mkWriter root tmp durability marker in
  if syncs writer then
    _ ← on_disk (fsync_dir tmp);
    _ ← on_disk (fsync_dir root);
    _ ← match parent root with Some p => on_disk (fsync_dir p) | None => mret tt end;
    _ ← add_durable [tmp; root];
    mret writer
  else mret writer.

(** The directories from [dir] up to the first one known durable, at most up
    to the root; [fuel] bounds the walk by the path's length. *)
Fixpoint chain_up (fuel : nat) (root : path) (durable : gset path) (cursor : path) : list path :=
  match fuel with
  | O => []
  | Datatypes.S fuel' =>
      if decide (cursor ∈ durable) then []
      else cursor ::
        match parent cursor with
        | Some p => if decide (cursor = root) then [] else chain_up fuel' root durable p
        | None => []
        end
  end.

Definition fsync_chain_deepest_up (w : AtomicBlockWriter) (dir : path) : DM unit := fun ds =>
  let chain := chain_up (Datatypes.S (length dir)) (aw_root w) (ds_known_durable ds) dir in
  (_ ← M_iter (fun p => on_disk (fsync_dir p)) chain; add_durable chain) ds.

(** [final_path.parent().expect(..)]: a block path is never empty. *)
Definition parent_dir (p : path) : path := take (length p - 1) p.

(** [match attempt { Err(e) => { let _ = cleanup; Err(e) } .. }]. *)
Definition with_cleanup {A} (attempt : DM A) (cleanup : DM unit) : DM A := fun ds =>
  match attempt ds with
  | (Ok a, ds') => (Ok a, ds')
  | (Err e, ds') => (Err e, (ignore cleanup ds').2)
  end.

Definition write_block (w : AtomicBlockWriter) (i : BlockId) (depth : Z) (bs : bytes) : DM path :=
  let final_path := block_disk_path i depth (aw_root w) in
  let fanout_dir := parent_dir final_path in
  _ ← on_disk (create_dir_all fanout_dir);
  nonce ← next_nonce;
  let temp_path := temp_name (aw_tmp w) (to_hex i) nonce in
  with_cleanup
    (_ ← on_disk (write_new_file temp_path bs);
     _ ← (if syncs w then
            _ ← on_disk (fsync_file temp_path true);
            fsync_chain_deepest_up w fanout_dir
          else mret tt);
     _ ← on_disk (rename temp_path final_path);
     _ ← (if syncs w then on_disk (fsync_dir fanout_dir) else mret tt);
     mret final_path)
    (on_disk (remove_file temp_path)).

Definition unlink_block (w : AtomicBlockWriter) (i : BlockId) (depth : Z) : DM unit :=
  on_disk (remove_file (block_disk_path i depth (aw_root w))).

Definition stage_block (w : AtomicBlockWriter) (i : BlockId) (depth : Z) (bs : bytes) :
    DM StagedBlock :=
  let final_path := block_disk_path i depth (aw_root w) in
  let fanout_dir := parent_dir final_path in
  _ ← on_disk (create_dir_all fanout_dir);
  nonce ← next_nonce;
  let temp_path := temp_name (aw_tmp w) (to_hex i) nonce in
  _ ← with_cleanup (on_disk (write_new_file temp_path bs)) (on_disk (remove_file temp_path));
  mret (mkStagedBlock depth temp_path final_path fanout_dir).

(** The concurrent syncs of a batch: every one runs, the first error in
    submission order is the answer. *)
Fixpoint sync_all (ps : list path) (first_error : option IoError) : DM unit :=
  match ps with
  | [] => match first_error with Some e => M_err e | None => mret tt end
  | p :: ps' => fun ds =>
      match on_disk (fsync_file p true) ds with
      | (Ok _, ds') => sync_all ps' first_error ds'
      | (Err e, ds') =>
          sync_all ps' (match first_error with None => Some e | Some e0 => Some e0 end) ds'
      end
  end.

Definition sync_batch (w : AtomicBlockWriter) (temp_paths : list path) : DM unit :=
  if negb (syncs w) || bool_decide (temp_paths = []) then mret tt
  else sync_all temp_paths None.

(** The directories [land_batch] plans to sync: each landing directory, and
    its ancestors until one already known durable or already planned. *)
Fixpoint plan_ancestors (fuel : nat) (root : path) (durable : gset path) (cursor : path)
    (chain : list path) (planned : gset path) : list path * gset path :=
  match fuel with
  | O => (chain, planned)
  | Datatypes.S fuel' =>
      match parent cursor with
      | None => (chain, planned)
      | Some p =>
          if decide (cursor = root) then (chain, planned)
          else if decide (p ∈ durable) then (chain, planned)
          else if decide (p ∈ planned) then (chain, planned)
          else plan_ancestors fuel' root durable p (chain ++ [p]) ({[p]} ∪ planned)
      end
  end.

Fixpoint plan_chain (root : path) (durable : gset path) (staged : list StagedBlock)
    (chain : list path) (planned : gset path) : list path :=
  match staged with
  | [] => chain
  | b :: staged' =>
      let cursor := fanout_dir b in
      let chain1 := if decide (cursor ∈ planned) then chain else chain ++ [cursor] in
      let '(chain2, planned2) :=
        plan_ancestors (Datatypes.S (length cursor)) root durable cursor chain1 ({[cursor]} ∪ planned) in
      plan_chain root durable staged' chain2 planned2
  end.

(** [sort_by_key(Reverse(components().count()))], a stable sort. *)
Definition deeper (a b : path) : Prop := (length b <= length a)%nat.
#[global] Instance deeper_dec a b : Decision (deeper a b).
Proof. unfold deeper. apply _. Defined.

Fixpoint insert_deepest (x : path) (l : list path) : list path :=
  match l with
  | [] => [x]
  | y :: l' => if decide (deeper x y) then x :: l else y :: insert_deepest x l'
  end.
Fixpoint sort_deepest (l : list path) : list path :=
  match l with [] => [] | x :: l' => insert_deepest x (sort_deepest l') end.

Definition landing_chain (w : AtomicBlockWriter) (durable : gset path)
    (staged : list StagedBlock) : list path :=
  sort_deepest (plan_chain (aw_root w) durable staged [] ∅).

Definition sync_landing (w : AtomicBlockWriter) (staged : list StagedBlock) : DM unit := fun ds =>
  let chain := landing_chain w (ds_known_durable ds) staged in
  (_ ← M_iter (fun dir => on_disk (fsync_dir dir)) chain; add_durable chain) ds.

Definition land_batch (w : AtomicBlockWriter) (staged : list StagedBlock) : DM unit :=
  _ ← M_iter (fun b => on_disk (rename (temp_path b) (final_path b))) staged;
  if negb (syncs w) then mret tt else sync_landing w staged.

Definition discard_staged (b : StagedBlock) : DM unit := ignore (on_disk (remove_file (temp_path b))).

(** [store_id::write_marker]: synced at every durability level. *)
Definition write_marker (root tmp : path) (i : StoreId) : DM unit :=
  _ ← on_disk (create_dir_all tmp);
  nonce ← next_nonce;
  let temp_path := temp_name tmp STORE_ID_MARKER_NAME nonce in
  let contents := StoreId_to_hex i ++ [Byte.x0a] in
  with_cleanup
    (_ ← on_disk (write_new_file temp_path contents);
     _ ← on_disk (fsync_file temp_path false);
     _ ← on_disk (rename temp_path (root ++ [STORE_ID_MARKER_NAME]));
     on_disk (fsync_dir root))
    (on_disk (remove_file temp_path)).

Definition write_store_id_marker (w : AtomicBlockWriter) (i : StoreId) : DM unit :=
  write_marker (aw_root w) (aw_tmp w) i.
End Writer.

(* ------------------------------------------------------------------ *)
(** * What the writer does to the files *)

(** The two maps agree outside [P]. *)
Definition agree_off {A} (P : path -> Prop) (m m' : gmap path A) : Prop :=
  forall p, ~ P p -> m' !! p = m !! p.

Lemma agree_off_refl {A} (P : path -> Prop) (m : gmap path A) : agree_off P m m.
Proof. done. Qed.

Lemma agree_off_trans {A} (P : path -> Prop) (m1 m2 m3 : gmap path A) :
  agree_off P m1 m2 -> agree_off P m2 m3 -> agree_off P m1 m3.
Proof. intros H1 H2 p Hp. by rewrite H2, H1. Qed.

Lemma agree_off_mono {A} (P Q : path -> Prop) (m m' : gmap path A) :
  agree_off P m m' -> (forall p, P p -> Q p) -> agree_off Q m m'.
Proof. intros H HPQ p Hp. apply H. auto. Qed.

Lemma agree_off_insert {A} (P : path -> Prop) (m : gmap path A) p v : P p -> agree_off P m (<[p := v]> m).
Proof. intros Hp q Hq. rewrite lookup_insert_ne; [done|]. by intros ->. Qed.

Lemma agree_off_delete {A} (P : path -> Prop) (m : gmap path A) p : P p -> agree_off P m (delete p m).
Proof. intros Hp q Hq. rewrite lookup_delete_ne; [done|]. by intros ->. Qed.

Section WriterSpecs.
Context {D : Type} `{DiskLaws D, FasterHexLaws}.
Implicit Types (ds : DiskState D) (w : AtomicBlockWriter).

Definition dfiles ds : gmap path bytes := files (ds_disk ds).

Lemma wp_on_disk {A} (m : M D IoError A) ds Q :
  wp m (ds_disk ds) (fun r d' => Q r (mkDiskState d' (ds_known_durable ds) (ds_nonce ds))) ->
  wp (on_disk m) ds Q.
Proof. unfold wp, on_disk. by destruct (m (ds_disk ds)). Qed.

Lemma wp_ignore {A} (m : M (DiskState D) IoError A) ds Q :
  wp m ds (fun _ ds' => Q (Ok tt) ds') -> wp (ignore m) ds Q.
Proof. unfold wp, ignore. by destruct (m ds). Qed.

Lemma wp_with_cleanup {A} (m : M (DiskState D) IoError A) c ds Q :
  wp m ds (fun r ds' => match r with
                        | Ok a => Q (Ok a) ds'
                        | Err e => wp c ds' (fun _ ds'' => Q (Err e) ds'')
                        end) ->
  wp (with_cleanup m c) ds Q.
Proof.
  unfold wp, with_cleanup, ignore. destruct (m ds) as [[a|e] ds']; simpl; [done|].
  by destruct (c ds').
Qed.

(** A call that moves no file and leaves the nonce alone. *)
Definition quiet {A} (m : M (DiskState D) IoError A) : Prop :=
  forall ds, wp m ds (fun _ ds' => dfiles ds' = dfiles ds /\ ds_nonce ds' = ds_nonce ds).

Lemma quiet_ret {A} (a : A) : quiet (mret a).
Proof. intros ds. by apply wp_ret. Qed.

Lemma quiet_bind {A B} (m : M (DiskState D) IoError A) (k : A -> M (DiskState D) IoError B) :
  quiet m -> (forall a, quiet (k a)) -> quiet (m ≫= k).
Proof.
  intros Hm Hk ds. apply wp_bind. eapply wp_mono; [apply Hm|].
  intros [a|e] ds' [Hf Hn]; [|done]. eapply wp_mono; [apply Hk|].
  intros r ds'' [-> ->]. done.
Qed.

Lemma quiet_iter {A} (f : A -> M (DiskState D) IoError unit) l :
  (forall a, quiet (f a)) -> quiet (M_iter f l).
Proof.
  intros Hf. induction l as [|x l IH]; [apply quiet_ret|].
  by apply (quiet_bind (f x) (fun _ => M_iter f l)).
Qed.

Lemma quiet_on_disk {A} (m : M D IoError A) :
  (forall d, wp m d (fun _ d' => files d' = files d)) -> quiet (on_disk m).
Proof. intros Hm ds. apply wp_on_disk. eapply wp_mono; [apply Hm|]. intros r d' E. by split. Qed.

Lemma quiet_create_dir_all p : quiet (on_disk (create_dir_all p)).
Proof. apply quiet_on_disk. intros. apply create_dir_all_spec. Qed.

Lemma quiet_fsync_file p b : quiet (on_disk (fsync_file p b)).
Proof. apply quiet_on_disk. intros. apply fsync_file_spec. Qed.

Lemma quiet_fsync_dir p : quiet (on_disk (fsync_dir p)).
Proof. apply quiet_on_disk. intros. apply fsync_dir_spec. Qed.

Lemma quiet_add_durable ps : quiet (add_durable ps).
Proof. by intros ds. Qed.

Lemma quiet_fsync_chain w dir : quiet (fsync_chain_deepest_up w dir).
Proof.
  intros ds. unfold fsync_chain_deepest_up. apply quiet_bind.
  - apply quiet_iter. intros. apply quiet_fsync_dir.
  - intros _. apply quiet_add_durable.
Qed.

Lemma quiet_sync_landing w staged : quiet (sync_landing w staged).
Proof.
  intros ds. unfold sync_landing. apply quiet_bind.
  - apply quiet_iter. intros. apply quiet_fsync_dir.
  - intros _. apply quiet_add_durable.
Qed.

Lemma quiet_sync_all ps e : quiet (sync_all ps e).
Proof.
  revert e. induction ps as [|p ps IH]; intros e ds; simpl.
  - destruct e; [by apply wp_err|by apply wp_ret].
  - pose proof (quiet_fsync_file p true ds) as Hq. unfold wp in *.
    destruct (on_disk (fsync_file p true) ds) as [[u|e'] ds'] eqn:E; simpl in Hq;
      destruct Hq as [<- <-]; apply IH.
Qed.

Lemma quiet_sync_batch w ps : quiet (sync_batch w ps).
Proof. unfold sync_batch. destruct (_ || _); [apply quiet_ret|apply quiet_sync_all]. Qed.

Lemma wp_quiet {A B} (m : M (DiskState D) IoError A) (k : A -> M (DiskState D) IoError B) ds Q :
  quiet m ->
  (forall e ds', dfiles ds' = dfiles ds -> ds_nonce ds' = ds_nonce ds -> Q (Err e) ds') ->
  (forall a ds', dfiles ds' = dfiles ds -> ds_nonce ds' = ds_nonce ds -> wp (k a) ds' Q) ->
  wp (m ≫= k) ds Q.
Proof.
  intros Hm He Hk. apply wp_bind. eapply wp_mono; [apply Hm|]. intros [a|e] ds' [Hf Hn]; auto.
Qed.

(** The temp file of the next write. *)
Definition next_temp w (i : BlockId) ds : path := temp_name (aw_tmp w) (to_hex i) (ds_nonce ds).

Definition nonce_step ds ds' : Prop :=
  ds_nonce ds' = ds_nonce ds \/ ds_nonce ds' = wrap_u64 (ds_nonce ds + 1).

Lemma stage_block_spec w i depth bs ds :
  wp (stage_block w i depth bs) ds (fun r ds' =>
    nonce_step ds ds' /\
    match r with
    | Ok sb => sb = mkStagedBlock depth (next_temp w i ds) (block_disk_path i depth (aw_root w))
                      (parent_dir (block_disk_path i depth (aw_root w))) /\
               ds_nonce ds' = wrap_u64 (ds_nonce ds + 1) /\
               dfiles ds' = <[next_temp w i ds := bs]> (dfiles ds)
    | Err _ => agree_off (fun p => p = next_temp w i ds) (dfiles ds) (dfiles ds')
    end).
Proof.
  unfold stage_block. apply wp_quiet; [apply quiet_create_dir_all|..].
  { intros e ds' Hf Hn. split; [by left|]. by rewrite Hf. }
  intros _ ds1 Hf1 Hn1. apply wp_bind. unfold wp at 1, next_nonce. cbn. rewrite Hn1.
  apply wp_bind, wp_with_cleanup, wp_on_disk. eapply wp_mono; [apply write_new_file_spec|].
  intros [u|e] d' Hw; cbn.
  - destruct Hw as [_ Hw]. apply wp_ret. split; [by right|]. split_and!; try done.
    rewrite <- Hf1. exact Hw.
  - apply wp_on_disk. eapply wp_mono; [apply remove_file_spec|].
    intros r d'' Hr. cbn. split; [by right|]. rewrite <- Hf1.
    apply agree_off_trans with (files d').
    + destruct Hw as [Hw|(_ & part & Hw)]; unfold dfiles; rewrite Hw;
        [done|by apply agree_off_insert].
    + unfold dfiles. cbn. destruct r; [|destruct Hr as [Hr|Hr]]; rewrite Hr;
        [by apply agree_off_delete|done|by apply agree_off_delete].
Qed.

(** The write attempt, up to and including its rename. *)
Lemma wp_remove_temp (Q : result IoError unit -> DiskState D -> Prop) p ds :
  (forall r ds', ds_nonce ds' = ds_nonce ds ->
     agree_off (fun q => q = p) (dfiles ds) (dfiles ds') -> Q r ds') ->
  wp (on_disk (remove_file p)) ds Q.
Proof.
  intros HQ. apply wp_on_disk. eapply wp_mono; [apply remove_file_spec|].
  intros r d' Hr. apply HQ; [done|]. unfold dfiles. cbn.
  destruct r; [|destruct Hr as [Hr|Hr]]; rewrite Hr;
    [by apply agree_off_delete|done|by apply agree_off_delete].
Qed.

(** A failed write leaves at most its temp file, and the final path either as
    it was or holding the whole block. *)
Definition write_failed (tp final : path) (bs : bytes) (m m' : gmap path bytes) : Prop :=
  agree_off (fun p => p = tp \/ p = final) m m' /\
  (m' !! final = m !! final \/ m' !! final = Some bs).

Lemma write_cleanup tp final bs part m ds :
  tp <> final ->
  dfiles ds = <[tp := part]> m \/ dfiles ds = m \/ dfiles ds = <[final := bs]> m ->
  wp (on_disk (remove_file tp)) ds (fun (_ : result IoError unit) ds' =>
    ds_nonce ds' = ds_nonce ds /\ write_failed tp final bs m (dfiles ds')).
Proof.
  intros Hne Hf. apply wp_remove_temp. intros r ds' Hn Ha. split; [done|].
  assert (dfiles ds' !! final = dfiles ds !! final) as Hfin by (apply Ha; congruence).
  split.
  - apply agree_off_trans with (dfiles ds); [|by eapply agree_off_mono; [apply Ha|auto]].
    destruct Hf as [->|[->| ->]]; [|done|]; apply agree_off_insert; auto.
  - rewrite Hfin. destruct Hf as [->|[->| ->]]; [|by left|right; apply lookup_insert_eq].
    left. by rewrite lookup_insert_ne.
Qed.

Lemma write_block_spec w i depth bs ds :
  let final := block_disk_path i depth (aw_root w) in
  next_temp w i ds <> final ->
  wp (write_block w i depth bs) ds (fun r ds' =>
    nonce_step ds ds' /\
    match r with
    | Ok p => p = final /\ dfiles ds' = <[final := bs]> (dfiles ds)
    | Err _ => write_failed (next_temp w i ds) final bs (dfiles ds) (dfiles ds')
    end).
Proof.
  intros final Hne. unfold write_block. apply wp_quiet; [apply quiet_create_dir_all|..].
  { intros e ds' Hf Hn. rewrite Hf. split; [by left|]. split; [done|]. by left. }
  intros _ ds1 Hf1 Hn1. apply wp_bind. unfold wp at 1, next_nonce. cbn. rewrite Hn1.
  fold (next_temp w i ds). set (tp := next_temp w i ds) in *. fold final.
  assert (forall (e : IoError) ds' part, ds_nonce ds' = wrap_u64 (ds_nonce ds + 1) ->
    dfiles ds' = <[tp := part]> (dfiles ds) \/ dfiles ds' = dfiles ds \/
    (dfiles ds' = <[final := bs]> (dfiles ds)) ->
    wp (on_disk (remove_file tp)) ds' (fun (_ : result IoError unit) ds'' =>
      nonce_step ds ds'' /\ write_failed tp final bs (dfiles ds) (dfiles ds''))) as Hclean.
  { intros e ds' part Hn' Hf'. eapply wp_mono; [by eapply (write_cleanup tp final bs part)|].
    intros _ ds'' [Hn'' Hw]. split; [right; congruence|done]. }
  apply wp_with_cleanup. apply wp_bind, wp_on_disk.
  eapply wp_mono; [apply write_new_file_spec|]. intros [u|e] d2 Hw; cbn.
  2: { destruct Hw as [Hw|(_ & part & Hw)].
       - apply (Hclean e _ []); [done|]. right; left. by rewrite <- Hf1.
       - apply (Hclean e _ part); [done|]. left. by rewrite <- Hf1. }
  destruct Hw as [Hfresh Hw]. cbn [ds_disk] in Hfresh, Hw.
  change (files (ds_disk ds1)) with (dfiles ds1) in Hfresh, Hw. rewrite Hf1 in Hfresh, Hw.
  apply wp_quiet.
  { destruct (syncs w); [|apply quiet_ret]. apply quiet_bind; [apply quiet_fsync_file|].
    intros _. apply quiet_fsync_chain. }
  { intros e ds3 Hf3 Hn3. apply (Hclean e _ bs); [by rewrite Hn3|]. left. rewrite Hf3. exact Hw. }
  intros _ ds3 Hf3 Hn3. cbn in Hn3. apply wp_bind, wp_on_disk.
  eapply wp_mono; [apply rename_spec|]. intros [u'|e] d4 Hr; cbn.
  2: { apply (Hclean e _ bs); [done|]. left. unfold dfiles in *. cbn. rewrite Hr, Hf3. exact Hw. }
  destruct Hr as (c & Hc & Hr).
  change (files (ds_disk ds3)) with (dfiles ds3) in Hc, Hr. rewrite Hf3 in Hc, Hr.
  unfold dfiles in Hc, Hr. cbn in Hc, Hr. rewrite Hw in Hc, Hr.
  rewrite lookup_insert_eq in Hc. injection Hc as <-.
  rewrite delete_insert_id in Hr by done.
  apply wp_quiet.
  { destruct (syncs w); [apply quiet_fsync_dir|apply quiet_ret]. }
  { intros e ds5 Hf5 Hn5. apply (Hclean e _ []); [by rewrite Hn5|]. right; right.
    rewrite Hf5. exact Hr. }
  intros _ ds5 Hf5 Hn5. apply wp_ret. split; [right; by rewrite Hn5|]. split; [done|].
  rewrite Hf5. exact Hr.
Qed.

Lemma unlink_block_spec w i depth ds :
  wp (unlink_block w i depth) ds (fun _ ds' =>
    ds_nonce ds' = ds_nonce ds /\
    agree_off (fun p => p = block_disk_path i depth (aw_root w)) (dfiles ds) (dfiles ds')).
Proof. by apply wp_remove_temp. Qed.

Lemma discard_staged_spec b ds :
  wp (discard_staged b) ds (fun r ds' =>
    r = Ok tt /\ ds_nonce ds' = ds_nonce ds /\
    agree_off (fun p => p = temp_path b) (dfiles ds) (dfiles ds')).
Proof. apply wp_ignore. by apply wp_remove_temp. Qed.

(** Renames of a batch whose temp and final paths do not interfere. *)
Definition landable (staged : list StagedBlock) : Prop :=
  NoDup (map temp_path staged) /\ NoDup (map final_path staged) /\
  forall a b, a ∈ staged -> b ∈ staged -> temp_path a <> final_path b.

Definition batch_path (staged : list StagedBlock) (p : path) : Prop :=
  exists b, b ∈ staged /\ (p = temp_path b \/ p = final_path b).

Lemma landable_cons b staged : landable (b :: staged) -> landable staged.
Proof.
  intros (Ht & Hf & Hd). simpl in *. apply NoDup_cons in Ht as [_ ?], Hf as [_ ?].
  split_and!; try done. intros a c Ha Hc. apply Hd; by apply elem_of_cons; right.
Qed.

Lemma renames_spec staged ds :
  landable staged ->
  wp (M_iter (fun b => on_disk (rename (temp_path b) (final_path b))) staged) ds (fun r ds' =>
    ds_nonce ds' = ds_nonce ds /\
    agree_off (batch_path staged) (dfiles ds) (dfiles ds') /\
    match r with
    | Ok _ => forall b, b ∈ staged -> is_Some (dfiles ds !! temp_path b) /\
                dfiles ds' !! final_path b = dfiles ds !! temp_path b
    | Err _ => True
    end).
Proof.
  revert ds. induction staged as [|b staged IH]; intros ds Hl.
  { apply wp_ret. split_and!; try done. by intros b ?%elem_of_nil. }
  apply wp_bind, wp_on_disk. eapply wp_mono; [apply rename_spec|].
  intros [u|e] d' Hr; cbn beta iota.
  2: { split_and!; try done. unfold dfiles. cbn. by rewrite Hr. }
  destruct Hr as (c & Hc & Hr). set (ds1 := mkDiskState d' _ _).
  assert (agree_off (fun p => p = temp_path b \/ p = final_path b) (dfiles ds) (dfiles ds1)) as Ha.
  { unfold dfiles. cbn. rewrite Hr. eapply agree_off_trans; [apply agree_off_delete|apply agree_off_insert]; auto. }
  eapply wp_mono; [apply IH; by eapply landable_cons|].
  intros r ds2 (Hn & Ha2 & Hok). split; [done|].
  destruct Hl as (Ht & Hf & Hd). simpl in Ht, Hf.
  apply NoDup_cons in Ht as [Ht _], Hf as [Hf _].
  split.
  { eapply agree_off_trans.
    - eapply agree_off_mono; [exact Ha|]. intros p [->| ->]; exists b; split; auto; by apply elem_of_cons; left.
    - eapply agree_off_mono; [exact Ha2|]. intros p (b' & Hb' & Hp). exists b'.
      split; [by apply elem_of_cons; right|done]. }
  destruct r as [u'|e]; [|done]. intros b' [->|Hb']%elem_of_cons.
  - split; [by exists c|]. unfold dfiles at 2. rewrite Hc. rewrite Ha2.
    + unfold dfiles. cbn. rewrite Hr. apply lookup_insert_eq.
    + intros (b2 & Hb2 & [E|E]).
      * apply (Hd b2 b); [by apply elem_of_cons; right|by apply elem_of_cons; left|done].
      * apply Hf. rewrite E. by apply list_elem_of_fmap_2.
  - destruct (Hok b' Hb') as [Hs He]. rewrite He.
    assert (dfiles ds1 !! temp_path b' = dfiles ds !! temp_path b') as Hsame.
    { apply Ha. intros [E|E].
      - apply Ht. rewrite <- E. by apply list_elem_of_fmap_2.
      - apply (Hd b' b); [by apply elem_of_cons; right|by apply elem_of_cons; left|done]. }
    by rewrite <- Hsame.
Qed.

Lemma land_batch_spec w staged ds :
  landable staged ->
  wp (land_batch w staged) ds (fun r ds' =>
    ds_nonce ds' = ds_nonce ds /\
    agree_off (batch_path staged) (dfiles ds) (dfiles ds') /\
    match r with
    | Ok _ => forall b, b ∈ staged -> is_Some (dfiles ds !! temp_path b) /\
                dfiles ds' !! final_path b = dfiles ds !! temp_path b
    | Err _ => True
    end).
Proof.
  intros Hl. apply wp_bind. eapply wp_mono; [by apply renames_spec|].
  intros [u|e] ds1 (Hn & Ha & Hok); [|done].
  destruct (negb (syncs w)); [by apply wp_ret|].
  eapply wp_mono; [apply quiet_sync_landing|]. intros r ds2 [Hf2 Hn2].
  rewrite Hf2, Hn2. split_and!; try done. by destruct r.
Qed.
End WriterSpecs.

(* ------------------------------------------------------------------ *)
(** * Temp files and block files never share a path *)

Lemma split_first {A} (c : A) a b x y :
  c ∉ a -> c ∉ b -> a ++ c :: x = b ++ c :: y -> a = b /\ x = y.
Proof.
  revert b. induction a as [|z a IH]; intros [|z' b] Ha Hb E; simplify_eq/=.
  - done.
  - by apply not_elem_of_cons in Hb as [? _].
  - by apply not_elem_of_cons in Ha as [? _].
  - apply not_elem_of_cons in Ha as [_ Ha], Hb as [_ Hb].
    destruct (IH b Ha Hb) as [-> ->]; [done|]. done.
Qed.

Lemma str_inj a b : str a = str b -> a = b.
Proof.
  unfold str. intros E. rewrite <- (String.string_of_list_byte_of_string a),
    <- (String.string_of_list_byte_of_string b). by rewrite E.
Qed.

Section Paths.
Context `{FasterHexLaws}.

Lemma temp_name_inj tmp a b n m :
  0 <= n -> 0 <= m ->
  temp_name tmp (hex_string a) n = temp_name tmp (hex_string b) m -> a = b /\ n = m.
Proof.
  intros Hn Hm E. unfold temp_name in E. apply app_inv_head in E. injection E as E.
  change (str "-" ++ str (pretty (Z.to_N n))) with (Byte.x2d :: str (pretty (Z.to_N n))) in E.
  change (str "-" ++ str (pretty (Z.to_N m))) with (Byte.x2d :: str (pretty (Z.to_N m))) in E.
  apply split_first in E as [Ea En]; [|by apply hex_string_not_in..].
  apply hex_string_inj in Ea. apply str_inj, (inj pretty) in En. split; [done|lia].
Qed.

Lemma temp_not_block i depth root name n :
  BlockId_wf i -> temp_name (root ++ [TMP_DIR_NAME]) name n <> block_disk_path i depth root.
Proof.
  intros Hi E. unfold temp_name, block_disk_path in E. rewrite <- app_assoc in E.
  apply app_inv_head in E.
  set (k := Z.to_nat _) in E. assert (1 <= k)%nat as Hk.
  { unfold k. destruct (id_width_cases i Hi) as [->| ->]; lia. }
  pose proof (length_as_slice i Hi) as Hl.
  destruct (as_slice i) as [|b bs]; [by destruct (id_width_cases i Hi) as [E0|E0]; rewrite E0 in Hl|].
  destruct k; [lia|]. simpl in E. injection E as E _.
  apply (f_equal length) in E. rewrite length_hex_string in E. done.
Qed.
End Paths.

(* ------------------------------------------------------------------ *)
(** * The directories a landed batch syncs *)

Section LandingChain.
Context (root : path) (durable : gset path).

(** The entry naming [d] is durable once the chain has been synced. *)
Definition closed (chain : list path) (d : path) : Prop :=
  d = root \/ exists p, parent d = Some p /\ (p ∈ durable \/ p ∈ chain).

Lemma closed_mono chain chain' d : closed chain d -> chain ⊆ chain' -> closed chain' d.
Proof. intros [->|(p & Hp & Hd)] Hsub; [by left|]. right. exists p. set_solver. Qed.

Lemma length_parent c p : parent c = Some p -> length c = Datatypes.S (length p).
Proof.
  unfold parent. destruct c as [|x c]; [done|]. intros [= <-].
  rewrite length_take. simpl. lia.
Qed.

Lemma parent_below c p :
  parent c = Some p -> root `prefix_of` c -> c <> root -> root `prefix_of` p.
Proof.
  intros Ep [k ->] Hne. unfold parent in Ep.
  assert (p = take (length (root ++ k) - 1) (root ++ k)) as -> by (by destruct (root ++ k); simplify_eq).
  destruct k as [|x k]; [by rewrite app_nil_r in Hne|].
  rewrite take_app_ge by (rewrite length_app; simpl; lia). eexists. reflexivity.
Qed.

(** [planned] is the set of the chain's members. *)
Definition plan_inv (chain : list path) (planned : gset path) : Prop :=
  NoDup chain /\ planned = list_to_set chain.

Lemma plan_inv_snoc chain planned p :
  plan_inv chain planned -> p ∉ planned -> plan_inv (chain ++ [p]) ({[p]} ∪ planned).
Proof.
  intros [Hnd ->] Hp. split; [|set_solver].
  apply NoDup_app. split_and!; [done|set_solver|apply NoDup_singleton].
Qed.

Lemma plan_ancestors_spec fuel cursor chain planned chain' planned' :
  plan_ancestors fuel root durable cursor chain planned = (chain', planned') ->
  (length cursor < fuel)%nat -> root `prefix_of` cursor ->
  plan_inv chain planned -> cursor ∈ chain ->
  (forall d, d ∈ chain -> d <> cursor -> closed chain d) ->
  plan_inv chain' planned' /\ chain ⊆ chain' /\ (forall d, d ∈ chain' -> closed chain' d).
Proof.
  revert cursor chain planned.
  induction fuel as [|fuel IH]; intros cursor chain planned E Hlt Hroot Hinv Hc Hcl; [lia|].
  cbn [plan_ancestors] in E.
  assert (closed chain cursor -> (chain', planned') = (chain, planned) ->
    plan_inv chain' planned' /\ chain ⊆ chain' /\ (forall d, d ∈ chain' -> closed chain' d)) as Hstop.
  { intros Hcur [= -> ->]. split_and!; [done|done|]. intros d Hd.
    destruct (decide (d = cursor)) as [->|]; auto. }
  destruct (parent cursor) as [p|] eqn:Ep.
  2: { apply Hstop; [|by simplify_eq]. left. destruct cursor; [|done].
       by apply prefix_nil_inv in Hroot. }
  destruct (decide (cursor = root)) as [->|Hnr]; [apply Hstop; [by left|by simplify_eq]|].
  destruct (decide (p ∈ durable)) as [Hd|Hnd];
    [apply Hstop; [right; exists p; auto|by simplify_eq]|].
  destruct (decide (p ∈ planned)) as [Hpl|Hnpl].
  { apply Hstop; [|by simplify_eq]. right. exists p. split; [done|]. right.
    destruct Hinv as [_ ->]. set_solver. }
  apply IH in E.
  - destruct E as (? & ? & ?). split_and!; [done|set_solver|done].
  - pose proof (length_parent _ _ Ep). lia.
  - by eapply parent_below.
  - by apply plan_inv_snoc.
  - set_solver.
  - intros d Hd Hne. apply elem_of_app in Hd as [Hd|Hd]; [|set_solver].
    destruct (decide (d = cursor)) as [->|Hdc].
    + right. exists p. set_solver.
    + eapply closed_mono; [by apply Hcl|set_solver].
Qed.

Lemma plan_chain_spec staged chain planned :
  Forall (fun b => root `prefix_of` fanout_dir b) staged ->
  plan_inv chain planned -> (forall d, d ∈ chain -> closed chain d) ->
  let chain' := plan_chain root durable staged chain planned in
  NoDup chain' /\ chain ⊆ chain' /\ (forall b, b ∈ staged -> fanout_dir b ∈ chain') /\
  (forall d, d ∈ chain' -> closed chain' d).
Proof.
  revert chain planned. induction staged as [|b staged IH]; intros chain planned Hpre Hinv Hcl.
  { simpl. split_and!; [apply Hinv|done|by intros b ?%elem_of_nil|done]. }
  cbn [plan_chain]. apply Forall_cons in Hpre as [Hb Hpre].
  set (c := fanout_dir b) in *.
  set (chain1 := if decide (c ∈ planned) then chain else chain ++ [c]).
  assert (plan_inv chain1 ({[c]} ∪ planned)) as Hinv1.
  { unfold chain1. destruct (decide (c ∈ planned)); [|by apply plan_inv_snoc].
    destruct Hinv as [? ->]. split; [done|]. set_solver. }
  assert (chain ⊆ chain1 /\ c ∈ chain1) as [Hsub Hc1].
  { unfold chain1. destruct Hinv as [_ ->]. destruct (decide _); set_solver. }
  destruct (plan_ancestors _ _ _ _ _ _) as [chain2 planned2] eqn:E.
  apply plan_ancestors_spec in E as (Hinv2 & Hsub2 & Hcl2); [|lia|done|done|done|].
  2: { intros d Hd Hne. eapply closed_mono; [apply Hcl|done]. unfold chain1 in Hd.
       destruct (decide _); set_solver. }
  destruct (IH chain2 planned2 Hpre Hinv2 Hcl2) as (Hnd & Hsub3 & Hall & Hcl3).
  split_and!; [done|set_solver| |done].
  intros b' [->|Hb']%elem_of_cons; [set_solver|by apply Hall].
Qed.
End LandingChain.

Lemma insert_deepest_perm x l : insert_deepest x l ≡ₚ x :: l.
Proof.
  induction l as [|y l IH]; simpl; [done|]. destruct (decide _); [done|].
  rewrite IH. apply Permutation_swap.
Qed.

Lemma sort_deepest_perm l : sort_deepest l ≡ₚ l.
Proof. induction l as [|x l IH]; simpl; [done|]. by rewrite insert_deepest_perm, IH. Qed.

Lemma insert_deepest_sorted x l : StronglySorted deeper l -> StronglySorted deeper (insert_deepest x l).
Proof.
  induction 1 as [|y l Hl IH Hy]; simpl; [repeat constructor|].
  destruct (decide (deeper x y)) as [Hxy|Hxy]; unfold deeper in *.
  - constructor; [by constructor|]. constructor; [done|].
    eapply Forall_impl; [exact Hy|]. simpl. lia.
  - constructor; [done|]. rewrite insert_deepest_perm. constructor; [lia|done].
Qed.

Lemma sort_deepest_sorted l : StronglySorted deeper (sort_deepest l).
Proof. induction l; simpl; [constructor|by apply insert_deepest_sorted]. Qed.

(** What a landed batch syncs.  The directories are synced deepest first,
    none of them twice; every directory a block was renamed into is among
    them; and for each of them, up to the blocks root, the entry that names it
    is durable afterwards too, because its parent is synced in the same pass
    or was already known durable. *)
Theorem landing_chain_complete w durable staged :
  Forall (fun b => aw_root w `prefix_of` fanout_dir b) staged ->
  let chain := landing_chain w durable staged in
  StronglySorted deeper chain /\ NoDup chain /\
  (forall b, b ∈ staged -> fanout_dir b ∈ chain) /\
  (forall d, d ∈ chain ->
     d = aw_root w \/ exists p, parent d = Some p /\ (p ∈ durable \/ p ∈ chain)).
Proof.
  intros Hpre chain. unfold chain, landing_chain.
  pose proof (sort_deepest_perm (plan_chain (aw_root w) durable staged [] ∅)) as Hp.
  destruct (plan_chain_spec (aw_root w) durable staged [] ∅ Hpre) as (Hnd & _ & Hall & Hcl).
  { split; [apply NoDup_nil_2|done]. }
  { by intros d ?%elem_of_nil. }
  split_and!.
  - apply sort_deepest_sorted.
  - by rewrite Hp.
  - intros b Hb. rewrite Hp. auto.
  - intros d Hd. rewrite Hp in Hd. destruct (Hcl d Hd) as [?|(p & Hpar & Hin)]; [by left|].
    right. exists p. rewrite Hp. auto.
Qed.

Lemma landing_chain_complete_witness :
  let w := mkWriter [str "r"] [str "r"; TMP_DIR_NAME] Fsync Absent in
  let sb d := mkStagedBlock 2 [] [] [str "r"; str "ab"; d] in
  NoDup (landing_chain w {[ [str "r"] ]} [sb (str "01"); sb (str "02")]) /\
  landing_chain w {[ [str "r"] ]} [sb (str "01"); sb (str "02")]
  = [[str "r"; str "ab"; str "01"]; [str "r"; str "ab"; str "02"]; [str "r"; str "ab"]].
Proof.
  intros w sb. split; [|vm_compute; reflexivity].
  apply (landing_chain_complete w {[ [str "r"] ]} [sb (str "01"); sb (str "02")]).
  repeat constructor; eexists; reflexivity.
Defined.
