(* ===== verification/BlockStream.v ===== *)
(** Reading an object back (cas/block_stream.rs, cas/range_request.rs): a
    stream over the block files of an object.  [poll_next] is one pass through
    the source's function up to its next I/O call or its return; the answer of
    that call (not ready, failed, how many bytes) is an argument, so a run is a
    list of answers and every schedule of short reads and delays is covered.
    A file is opened by path and its bytes do not change while it is read. *)

From S2P Require Import Prelude Bytes Externals BlockIds Disk.
From Stdlib Require Import Strings.Byte.
Local Open Scope Z_scope.
#[local] Set Warnings "-clear-no-such-hyp".

Definition VERIFY_READ_CHUNK : Z := 64 * 1024.

Inductive RangeRequest : Type :=
| All
| Range (start fin : Z)
| ToBytes (fin : Z)
| FromBytes (start : Z).

(** [BlockCorruption] *)
Record BlockCorruption : Type := mkCorruption { bc_expected : BlockId; bc_actual : BlockId; bc_path : path }.

Inductive StreamError : Type :=
| SIo (e : IoError)
| SCorrupt (c : BlockCorruption).

(** An open file and the position of its cursor. *)
Record OpenFile : Type := mkOpenFile { of_data : bytes; of_pos : nat }.

Record BlockStream : Type := mkBlockStream {
  bs_paths : list (path * Z);
  bs_fp : nat;
  bs_size : Z;
  bs_processed : Z;
  bs_has_seeked : bool;
  bs_range : RangeRequest;
  bs_file : option OpenFile;
  bs_open_fut : option path;
  bs_verify : option (Hasher * list BlockId);
  bs_reading : nat;
  bs_buf : bytes
}.

Definition new_stream (paths : list (path * Z)) (size : Z) (range : RangeRequest) : BlockStream :=
  mkBlockStream paths 0 size 0 true range None None None 0 [].

Definition is_all (r : RangeRequest) : bool := match r with All => true | _ => false end.

(** A release build: [debug_assert!] is compiled out. *)
Definition verified (s : BlockStream) (hasher : Hasher) (block_ids : list BlockId) : BlockStream :=
  if is_all (bs_range s) && (length block_ids =? length (bs_paths s))%nat
  then mkBlockStream (bs_paths s) (bs_fp s) (bs_size s) (bs_processed s) (bs_has_seeked s) (bs_range s)
         (bs_file s) (bs_open_fut s) (Some (hasher, block_ids)) (bs_reading s) (bs_buf s)
  else s.

(** [bounds]: start and exclusive end. *)
Definition bounds (s : BlockStream) : Z * Z :=
  match bs_range s with
  | All => (0, bs_size s)
  | Range start fin => (start, saturating_add_u64 fin 1)
  | ToBytes fin => (0, saturating_add_u64 fin 1)
  | FromBytes start => (start, u64_max)
  end.

Definition size_hint (s : BlockStream) : Z :=
  let '(start, fin) := bounds s in Z.max 0 (Z.min fin (bs_size s) - start).

(* ------------------------------------------------------------------ *)
(** * Polling *)

Inductive IoAnswer : Type := NotReady | Fails (e : IoError) | Gives (n : nat).

(** Where one pass ends. *)
Inductive Polled : Type :=
| Again                          (* [self.poll_next(cx)] *)
| Waiting                        (* [Poll::Pending] *)
| Yields (chunk : bytes)
| YieldsErr (e : StreamError)
| Ended                          (* [Poll::Ready(None)] *)
| Panics.                        (* an index out of bounds *)

Definition set_file (f : option OpenFile) (s : BlockStream) : BlockStream :=
  mkBlockStream (bs_paths s) (bs_fp s) (bs_size s) (bs_processed s) (bs_has_seeked s) (bs_range s)
    f (bs_open_fut s) (bs_verify s) (bs_reading s) (bs_buf s).
Definition set_processed (p : Z) (s : BlockStream) : BlockStream :=
  mkBlockStream (bs_paths s) (bs_fp s) (bs_size s) p (bs_has_seeked s) (bs_range s)
    (bs_file s) (bs_open_fut s) (bs_verify s) (bs_reading s) (bs_buf s).
Definition set_seeked (b : bool) (s : BlockStream) : BlockStream :=
  mkBlockStream (bs_paths s) (bs_fp s) (bs_size s) (bs_processed s) b (bs_range s)
    (bs_file s) (bs_open_fut s) (bs_verify s) (bs_reading s) (bs_buf s).
Definition set_buf (b : bytes) (s : BlockStream) : BlockStream :=
  mkBlockStream (bs_paths s) (bs_fp s) (bs_size s) (bs_processed s) (bs_has_seeked s) (bs_range s)
    (bs_file s) (bs_open_fut s) (bs_verify s) (bs_reading s) b.
Definition set_fp (fp : nat) (s : BlockStream) : BlockStream :=
  mkBlockStream (bs_paths s) fp (bs_size s) (bs_processed s) (bs_has_seeked s) (bs_range s)
    (bs_file s) (bs_open_fut s) (bs_verify s) (bs_reading s) (bs_buf s).
Definition set_opening (o : option path) (s : BlockStream) : BlockStream :=
  mkBlockStream (bs_paths s) (bs_fp s) (bs_size s) (bs_processed s) (bs_has_seeked s) (bs_range s)
    (bs_file s) o (bs_verify s) (bs_reading s) (bs_buf s).
Definition set_reading (r : nat) (s : BlockStream) : BlockStream :=
  mkBlockStream (bs_paths s) (bs_fp s) (bs_size s) (bs_processed s) (bs_has_seeked s) (bs_range s)
    (bs_file s) (bs_open_fut s) (bs_verify s) r (bs_buf s).

(** [poll_read] into a buffer of [cap > 0] bytes: no bytes only at the end of
    the file, otherwise some, as many as the call pleases. *)
Definition read_some (f : OpenFile) (cap : Z) (n : nat) : bytes * OpenFile :=
  let avail := drop (of_pos f) (of_data f) in
  let chunk := take (Nat.min (Nat.max 1 n) (Z.to_nat cap)) avail in
  (chunk, mkOpenFile (of_data f) (of_pos f + length chunk)).

Section Polling.
Context `{Blake3}.

Definition finish_verified_block (s : BlockStream) : Polled * BlockStream :=
  let bs := bs_buf s in
  let s := set_buf [] s in
  match bs_verify s with
  | None => (Panics, s)
  | Some (hasher, ids) =>
      match ids !! bs_reading s with
      | None => (YieldsErr (SIo (mkIoError IoOther "no block address to verify block against")), s)
      | Some expected =>
          let actual := hash_block hasher bs in
          if bool_decide (actual = expected)
          then (Yields bs, set_processed (wrap_u64 (bs_processed s + Z.of_nat (length bs))) s)
          else match bs_paths s !! bs_reading s with
               | None => (Panics, s)
               | Some (p, _) => (YieldsErr (SCorrupt (mkCorruption expected actual p)), s)
               end
      end
  end.

(** The skip loop over the paths from [fp] on. *)
Inductive Skipped : Type := SkReturn | SkBreak | SkPanic.
Fixpoint skip_files (rest : list (path * Z)) (start fin processed : Z) (fp : nat) : Skipped * Z * nat :=
  if fin <=? processed then (SkReturn, processed, fp)
  else if processed <? start then
    match rest with
    | [] => (SkPanic, processed, fp)
    | (_, sz) :: rest' =>
        if wrap_u64 (processed + sz) <=? start then
          let processed := wrap_u64 (processed + sz) in
          match rest' with
          | [] => (SkReturn, processed, S fp)
          | _ => skip_files rest' start fin processed (S fp)
          end
        else (SkBreak, processed, fp)
    end
  else (SkBreak, processed, fp).

(** The open of the file in flight. *)
Definition poll_open (files : gmap path bytes) (a : IoAnswer) (p : path) (s : BlockStream) : Polled * BlockStream :=
  match a with
  | NotReady => (Waiting, s)
  | Fails e => (YieldsErr (SIo e), set_opening None s)
  | Gives _ =>
      match files !! p with
      | None => (YieldsErr (SIo (mkIoError IoNotFound "no such file")), set_opening None s)
      | Some data => (Again, set_seeked false (set_file (Some (mkOpenFile data 0)) (set_opening None s)))
      end
  end.

Definition poll_next (files : gmap path bytes) (a : IoAnswer) (s : BlockStream) : Polled * BlockStream :=
  let '(start, fin) := bounds s in
  let processed := bs_processed s in
  if fin <=? processed then (Ended, s)
  else
  match bs_file s with
  | Some f =>
      if negb (bs_has_seeked s) && (processed <? start) then
        let skip := start - processed in
        if i64_max <? skip
        then (YieldsErr (SIo (mkIoError IoInvalidInput "range start does not fit the platform address space")), s)
        else match a with
             | NotReady => (Waiting, s)
             | Fails e => (YieldsErr (SIo e), s)
             | Gives _ => (Again, set_processed (wrap_u64 (processed + skip)) (set_seeked true
                            (set_file (Some (mkOpenFile (of_data f) (of_pos f + Z.to_nat skip))) s)))
             end
      else
      match a with
      | NotReady => (Waiting, s)
      | Fails e => (YieldsErr (SIo e), s)
      | Gives n =>
          match bs_verify s with
          | Some _ =>
              let '(chunk, f') := read_some f VERIFY_READ_CHUNK n in
              match chunk with
              | [] => finish_verified_block (set_file None s)
              | _ => (Again, set_buf (bs_buf s ++ chunk) (set_file (Some f') s))
              end
          | None =>
              let '(chunk, f') := read_some f (Z.min (fin - processed) 4096) n in
              match chunk with
              | [] => (Again, set_file None s)
              | _ => (Yields chunk, set_processed (wrap_u64 (processed + Z.of_nat (length chunk))) (set_file (Some f') s))
              end
          end
      end
  | None =>
      match bs_open_fut s with
      | Some p => poll_open files a p s
      | None =>
          let '(sk, processed, fp) := skip_files (drop (bs_fp s) (bs_paths s)) start fin processed (bs_fp s) in
          let s := set_fp fp (set_processed processed s) in
          match sk with
          | SkPanic => (Panics, s)
          | SkReturn => (Ended, s)
          | SkBreak =>
              match bs_paths s !! fp with
              | None => (Ended, s)
              | Some (p, _) => poll_open files a p (set_fp (S fp) (set_reading fp (set_opening (Some p) s)))
              end
          end
      end
  end.

(** The consumer: polls until the end or the first error. *)
Inductive Finish : Type := Finished | FailedWith (e : StreamError) | Crashed | Unfinished.

Fixpoint consume (files : gmap path bytes) (answers : list IoAnswer) (s : BlockStream) : list bytes * Finish :=
  match answers with
  | [] => ([], Unfinished)
  | a :: answers' =>
      match poll_next files a s with
      | (Again, s') | (Waiting, s') => consume files answers' s'
      | (Yields chunk, s') => let '(out, f) := consume files answers' s' in (chunk :: out, f)
      | (YieldsErr e, _) => ([], FailedWith e)
      | (Ended, _) => ([], Finished)
      | (Panics, _) => ([], Crashed)
      end
  end.
End Polling.

(* ------------------------------------------------------------------ *)
(** * What a plain stream yields *)

(** The bytes a request names. *)
Definition requested (r : RangeRequest) (content : bytes) : bytes :=
  match r with
  | All => content
  | Range start fin => take (Z.to_nat (fin + 1 - start)) (drop (Z.to_nat start) content)
  | ToBytes fin => take (Z.to_nat (fin + 1)) content
  | FromBytes start => drop (Z.to_nat start) content
  end.

Definition range_wf (r : RangeRequest) : Prop :=
  match r with
  | All => True
  | Range start fin => is_u64 start /\ is_u64 fin
  | ToBytes fin => is_u64 fin
  | FromBytes start => is_u64 start
  end.

Lemma take_length_take {A} n (l : list A) : take (length (take n l)) l = take n l.
Proof.
  rewrite length_take. destruct (decide (n <= length l)%nat).
  - by rewrite Nat.min_l.
  - by rewrite !take_ge by lia.
Qed.

Lemma take_add_split {A} n m (l : list A) : take (n + m) l = take n l ++ take m (drop n l).
Proof. revert n. induction l as [|x l IH]; intros [|n]; simpl; [done|by rewrite take_nil|done|]. by rewrite IH. Qed.

Section Window.
Context `{Blake3} (files : gmap path bytes) (paths : list (path * Z)) (datas : list bytes) (range : RangeRequest).
Definition stored (p : path * Z) (data : bytes) : Prop :=
  files !! p.1 = Some data /\ p.2 = Z.of_nat (length data).
Abbreviation content := (concat datas).
Abbreviation total := (Z.of_nat (length content)).
Abbreviation start := ((bounds (new_stream paths total range)).1).
Abbreviation fin := ((bounds (new_stream paths total range)).2).
Context (Hpaths : Forall2 stored paths datas) (Htotal : total <= i64_max) (Hrange : range_wf range)
  (Hne : paths <> [] \/ start = 0).

Definition off (k : nat) : Z := Z.of_nat (length (concat (take k datas))).
Definition slice (a b : Z) : bytes := take (Z.to_nat (b - a)) (drop (Z.to_nat a) content).

Lemma start_range : 0 <= start.
Proof. destruct range; simpl in *; unfold is_u64 in *; lia. Qed.

Lemma off_S k d : datas !! k = Some d -> off (S k) = off k + Z.of_nat (length d).
Proof.
  intros Hk. unfold off. rewrite (take_S_r _ _ _ Hk), concat_app, length_app. simpl. rewrite app_nil_r. lia.
Qed.

Lemma off_range k : 0 <= off k <= total.
Proof.
  unfold off. assert (length content = length (concat (take k datas)) + length (concat (drop k datas)))%nat; [|lia].
  by rewrite <- length_app, <- concat_app, take_drop.
Qed.

Lemma off_end k : (length datas <= k)%nat -> off k = total.
Proof. intros Hk. unfold off. by rewrite take_ge. Qed.

Lemma drop_content k pos d :
  datas !! k = Some d -> (pos <= length d)%nat ->
  exists rest, drop (Z.to_nat (off k + Z.of_nat pos)) content = drop pos d ++ rest.
Proof.
  intros Hk Hpos. exists (concat (drop (S k) datas)).
  rewrite <- (take_drop_middle _ _ _ Hk) at 1. rewrite concat_app. simpl.
  rewrite drop_app_ge by (unfold off; lia). unfold off.
  replace (_ - _)%nat with pos by lia. by rewrite drop_app_le.
Qed.

Lemma slice_extend p chunk :
  start <= p -> chunk = take (length chunk) (drop (Z.to_nat p) content) ->
  slice start p ++ chunk = slice start (p + Z.of_nat (length chunk)).
Proof.
  intros Hp Hc. pose proof start_range. unfold slice. rewrite Hc at 1.
  replace (Z.to_nat (p + Z.of_nat (length chunk) - start)) with (Z.to_nat (p - start) + length chunk)%nat by lia.
  replace (Z.to_nat p) with (Z.to_nat start + Z.to_nat (p - start))%nat by lia.
  rewrite <- drop_drop. symmetry. rewrite <- (take_drop (Z.to_nat (p - start)) (drop (Z.to_nat start) content)) at 1.
  destruct (decide (Z.to_nat (p - start) <= length (drop (Z.to_nat start) content))%nat) as [Hle|Hgt].
  - rewrite take_app_ge by (rewrite length_take; lia). rewrite length_take. do 3 f_equal. lia.
  - rewrite !(drop_ge (drop _ _)) by lia. rewrite take_nil, !app_nil_r.
    rewrite take_take. f_equal. lia.
Qed.

Lemma slice_empty p : p <= start -> slice start p = [].
Proof. intros Hp. unfold slice. by replace (Z.to_nat (p - start)) with 0%nat by lia. Qed.

(** The window ends where the stream does. *)
Lemma window_slice p : fin <= p <= Z.max start fin \/ p = total -> p <= Z.max start fin -> slice start p = requested range content.
Proof.
  pose proof start_range as Hs. intros Hp Hm. unfold slice.
  assert (forall n m, (n = m \/ length content - Z.to_nat start <= n /\ length content - Z.to_nat start <= m)%nat ->
    take n (drop (Z.to_nat start) content) = take m (drop (Z.to_nat start) content)) as Htake.
  { intros n m [->|[Hn Hm']]; [done|]. by rewrite !take_ge by (rewrite length_drop; lia). }
  destruct range; simpl in *; unfold is_u64, saturating_add_u64, u64_max, i64_max in *; rewrite ?drop_0 in *.
  - apply take_ge. lia.
  - apply Htake. lia.
  - apply Htake. lia.
  - rewrite take_ge; [done|]. rewrite length_drop. lia.
Qed.

Lemma wrap_small z : 0 <= z <= total -> wrap_u64 z = z.
Proof. intros Hz. unfold wrap_u64. apply Z.mod_small. unfold i64_max in *. lia. Qed.

Lemma paths_stored k p : paths !! k = Some p -> exists d, datas !! k = Some d /\ stored p d.
Proof. intros Hk. destruct (Forall2_lookup_l _ _ _ _ _ Hpaths Hk) as (d & Hd & Hs). by exists d. Qed.

Lemma length_paths : length paths = length datas.
Proof. by apply Forall2_length in Hpaths. Qed.

(** Where the cursor stands. *)
Definition position (s : BlockStream) : Prop :=
  match bs_file s, bs_open_fut s with
  | Some f, None => exists k, bs_fp s = S k /\ datas !! k = Some (of_data f) /\ (of_pos f <= length (of_data f))%nat /\
      off k + Z.of_nat (of_pos f) = bs_processed s /\
      (bs_processed s < start -> bs_has_seeked s = false /\ start < off (S k))
  | None, Some p => exists k z, bs_fp s = S k /\ paths !! k = Some (p, z) /\ off k = bs_processed s /\
      (bs_processed s < start -> start < off (S k))
  | None, None => (bs_fp s <= length paths)%nat /\ off (bs_fp s) = bs_processed s /\
      (bs_fp s = length paths -> start <= bs_processed s)
  | Some _, Some _ => False
  end.

Record stream_inv (s : BlockStream) (out : bytes) : Prop := mkStreamInv {
  si_paths : bs_paths s = paths;
  si_size : bs_size s = total;
  si_range : bs_range s = range;
  si_verify : bs_verify s = None;
  si_processed : 0 <= bs_processed s <= total /\ bs_processed s <= Z.max start fin;
  si_out : out = slice start (bs_processed s);
  si_pos : position s
}.

(** Reads, end-of-file answers and opens that are left. *)
Definition effort (s : BlockStream) : nat :=
  (Z.to_nat (total - bs_processed s) + 2 * (length paths - bs_fp s)
   + (match bs_file s with Some _ => 1 | None => 0 end) + (match bs_open_fut s with Some _ => 2 | None => 0 end))%nat.

Lemma new_inv : stream_inv (new_stream paths total range) [].
Proof.
  pose proof start_range as Hs. split; try done.
  - change (bs_processed _) with 0. lia.
  - change (bs_processed _) with 0. by rewrite slice_empty.
  - unfold position. cbn [bs_file bs_open_fut new_stream bs_fp bs_processed]. split; [lia|]. split; [done|].
    intros E. destruct Hne as [Hp|Hz]; [by destruct paths|]. by rewrite Hz.
Qed.

Lemma new_effort : effort (new_stream paths total range) = (length content + 2 * length paths)%nat.
Proof. unfold effort. simpl. lia. Qed.

(** The outcome of one pass. *)
Definition pass_ok (a : IoAnswer) (s : BlockStream) (out : bytes) (r : Polled * BlockStream) : Prop :=
  let less := (match a with Gives _ => S (effort r.2) | _ => effort r.2 end <= effort s)%nat in
  match r.1 with
  | Again => stream_inv r.2 out /\ less
  | Waiting => stream_inv r.2 out /\ less /\ a = NotReady
  | Yields chunk => stream_inv r.2 (out ++ chunk) /\ less
  | YieldsErr e => exists e', a = Fails e' /\ e = SIo e'
  | Ended => out = requested range content
  | Panics => False
  end.

Lemma stream_bounds s out : stream_inv s out -> bounds s = (start, fin).
Proof. intros [Hp Hs Hr _ _ _ _]. unfold bounds. rewrite Hs, Hr. by destruct range. Qed.

Lemma skip_files_spec rest : forall processed fp,
  rest = drop fp paths -> (fp <= length paths)%nat -> off fp = processed ->
  (fp = length paths -> start <= processed) -> processed <= Z.max start fin ->
  let '(sk, processed', fp') := skip_files rest start fin processed fp in
  (fp <= fp' <= length paths)%nat /\ off fp' = processed' /\ processed <= processed' <= Z.max start fin /\ processed' <= Z.max processed start /\
  match sk with
  | SkPanic => False
  | SkReturn => fin <= processed' \/ (processed' = total /\ processed' <= start)
  | SkBreak => (processed' < start -> (fp' < length paths)%nat /\ start < off (S fp')) /\ processed' < fin
  end.
Proof.
  induction rest as [|[p z] rest IH]; intros processed fp Hrest Hfp Hoff Hend Hmax; simpl.
  - assert (fp = length paths) as Efp.
    { apply (f_equal length) in Hrest. rewrite length_drop in Hrest. simpl in Hrest. lia. }
    specialize (Hend Efp). destruct (Z.leb_spec fin processed); [split_and!; (lia || done || auto)|].
    destruct (Z.ltb_spec processed start); [lia|]. split_and!; (lia || done).
  - assert (paths !! fp = Some (p, z)) as Hp.
    { rewrite <- (Nat.add_0_r fp), <- lookup_drop, <- Hrest. done. }
    pose proof (lookup_lt_Some _ _ _ Hp) as Hlt.
    destruct (paths_stored _ _ Hp) as (d & Hd & _ & Hz). simpl in Hz. pose proof (off_S _ _ Hd) as HS.
    pose proof (off_range (S fp)) as Hr1.
    destruct (Z.leb_spec fin processed); [split_and!; (lia || done || auto)|].
    destruct (Z.ltb_spec processed start); [|split_and!; (lia || done)].
    rewrite (wrap_small (processed + z)) by (rewrite Hz, <- Hoff, <- HS; lia).
    destruct (Z.leb_spec (processed + z) start) as [Hle|Hgt].
    + assert (rest = drop (S fp) paths) as Hrest'.
      { apply (f_equal tail) in Hrest. simpl in Hrest. rewrite Hrest. rewrite <- Nat.add_1_r, <- drop_drop.
        by destruct (drop fp paths). }
      destruct rest as [|q rest'].
      * assert (S fp = length paths) as Efp.
        { apply (f_equal length) in Hrest'. rewrite length_drop in Hrest'. simpl in Hrest'. lia. }
        assert (off (S fp) = total) by (apply off_end; rewrite <- length_paths; lia).
        split_and!; (lia || auto).
      * assert (S fp < length paths)%nat as Hlt'.
        { apply (f_equal length) in Hrest'. rewrite length_drop in Hrest'. simpl in Hrest'. lia. }
        specialize (IH (processed + z) (S fp) Hrest' ltac:(lia) ltac:(lia) ltac:(lia) ltac:(lia)).
        destruct (skip_files (q :: rest') start fin (processed + z) (S fp)) as [[sk pr] fp'].
        destruct IH as (? & ? & ? & ? & ?). split_and!; (lia || done).
    + split_and!; (lia || done).
Qed.

(** Opening the file of block [k], the request for which is in flight. *)
Lemma poll_open_ok a p z k s out :
  bs_paths s = paths -> bs_size s = total -> bs_range s = range -> bs_verify s = None ->
  0 <= bs_processed s <= total /\ bs_processed s <= Z.max start fin -> out = slice start (bs_processed s) ->
  bs_file s = None -> bs_open_fut s = Some p -> bs_fp s = S k -> paths !! k = Some (p, z) ->
  off k = bs_processed s -> (bs_processed s < start -> start < off (S k)) ->
  pass_ok a s out (poll_open files a p s).
Proof.
  intros Hp Hsz Hr Hv Hpr Hout Hf Ho Hfp Hk Hoff Hst. destruct (paths_stored _ _ Hk) as (d & Hd & Hfile & _).
  simpl in Hfile. pose proof (lookup_lt_Some _ _ _ Hk). unfold poll_open. destruct a as [|e|n]; unfold pass_ok; cbn [fst snd].
  - split_and!; [|done|done]. split; try done. unfold position. rewrite Hf, Ho. by exists k, z.
  - by exists e.
  - rewrite Hfile. split.
    + split; try done. unfold position. cbn. exists k. split_and!; [done|done|lia|lia|]. auto.
    + unfold effort. cbn. rewrite Hf, Ho. lia.
Qed.

Lemma seek_ok a f s out :
  stream_inv s out -> bs_file s = Some f -> bs_processed s < start -> bs_processed s < fin ->
  pass_ok a s out (poll_next files a s).
Proof.
  intros Hinv Hf Hlt Hfin. pose proof (stream_bounds _ _ Hinv) as Hb. destruct Hinv as [Hp Hsz Hr Hv Hpr Hout Hpos].
  unfold position in Hpos. rewrite Hf in Hpos. destruct (bs_open_fut s) as [|] eqn:Ho; [done|].
  destruct Hpos as (k & Hfp & Hd & Hle & Hoff & Hseek). destruct (Hseek Hlt) as [Hns Hin].
  pose proof (off_S _ _ Hd) as HS. pose proof (off_range (S k)) as Hr1. pose proof start_range as Hs0.
  unfold poll_next. rewrite Hb, Hf, Hns. rewrite (proj2 (Z.leb_gt _ _)) by lia.
  rewrite (proj2 (Z.ltb_lt (bs_processed s) start)) by lia. cbn [negb andb].
  rewrite (proj2 (Z.ltb_ge i64_max _)) by lia. replace (bs_processed s + (start - bs_processed s)) with start by lia.
  rewrite wrap_small by lia. destruct a as [|e|n]; unfold pass_ok; cbn [fst snd].
  - split_and!; [|done|done]. split; try done. unfold position. rewrite Hf, Ho. by exists k.
  - by exists e.
  - split.
    + split; try done.
      * cbn [bs_processed set_processed]. lia.
      * cbn [bs_processed set_processed]. rewrite Hout, !slice_empty by lia. done.
      * unfold position. cbn -[bounds]. rewrite Ho. exists k. split_and!; [done|done|lia|lia|lia].
    + unfold effort. cbn -[bounds]. rewrite Hf, Ho. lia.
Qed.

Lemma read_ok a f s out :
  stream_inv s out -> bs_file s = Some f -> start <= bs_processed s -> bs_processed s < fin ->
  pass_ok a s out (poll_next files a s).
Proof.
  intros Hinv Hf Hge Hfin. pose proof (stream_bounds _ _ Hinv) as Hb. destruct Hinv as [Hp Hsz Hr Hv Hpr Hout Hpos].
  pose proof Hpos as Hpos0. unfold position in Hpos. rewrite Hf in Hpos. destruct (bs_open_fut s) as [|] eqn:Ho; [done|].
  destruct Hpos as (k & Hfp & Hd & Hle & Hoff & _).
  pose proof (off_S _ _ Hd) as HS. pose proof (off_range (S k)) as Hr1.
  pose proof (lookup_lt_Some _ _ _ Hd) as Hk. rewrite <- length_paths in Hk.
  unfold poll_next. rewrite Hb, Hf, Hv. rewrite (proj2 (Z.leb_gt _ _)) by lia.
  rewrite (proj2 (Z.ltb_ge (bs_processed s) start)) by lia. rewrite andb_false_r. destruct a as [|e|n]; unfold pass_ok; cbn [fst snd].
  - split_and!; [|done|done]. by split.
  - by exists e.
  - unfold read_some. set (cap := Nat.min (Nat.max 1 n) (Z.to_nat (Z.min (fin - bs_processed s) 4096))).
    assert ((1 <= cap)%nat /\ Z.of_nat cap <= fin - bs_processed s) as [Hc1 Hc2] by lia.
    destruct (take cap (drop (of_pos f) (of_data f))) as [|c chunk] eqn:Ec.
    + assert (of_pos f = length (of_data f)) as Epos.
      { apply (f_equal length) in Ec. rewrite length_take, length_drop in Ec. simpl in Ec. lia. }
      split.
      * split; try done. unfold position. cbn -[bounds]. rewrite Ho, Hfp. split_and!; lia.
      * unfold effort. cbn. rewrite Hf, Ho. lia.
    + rewrite <- Ec. assert (1 <= length (take cap (drop (of_pos f) (of_data f))))%nat as Hc3 by (rewrite Ec; simpl; lia).
      clear Ec. set (ch := take cap (drop (of_pos f) (of_data f))) in *.
      assert (length ch <= cap /\ of_pos f + length ch <= length (of_data f))%nat as [Hl1 Hl2].
      { unfold ch. rewrite length_take, length_drop. lia. }
      rewrite wrap_small by lia. split.
      * split; try done; cbn [fst snd bs_processed set_processed set_file].
        -- lia.
        -- rewrite Hout. apply slice_extend; [done|]. rewrite <- Hoff.
           destruct (drop_content k (of_pos f) _ Hd Hle) as [rest ->]. rewrite take_app_le by (rewrite length_drop; lia).
           symmetry. apply take_length_take.
        -- unfold position. cbn -[bounds]. rewrite Ho. exists k. split_and!; [done|done|lia|lia|lia].
      * unfold effort. cbn -[bounds]. rewrite Hf, Ho. lia.
Qed.

Lemma pass_ok_mono a s s' out r : (effort s' <= effort s)%nat -> pass_ok a s' out r -> pass_ok a s out r.
Proof. intros He. unfold pass_ok. destruct r as [[] r]; cbn [fst snd]; destruct a; intuition lia. Qed.

Lemma poll_next_ok a s out : stream_inv s out -> pass_ok a s out (poll_next files a s).
Proof.
  intros Hinv. destruct (decide (fin <= bs_processed s)) as [Hdone|Hmore].
  { unfold poll_next. rewrite (stream_bounds _ _ Hinv). rewrite (proj2 (Z.leb_le _ _)) by lia.
    destruct Hinv as [_ _ _ _ Hpr Hout _]. unfold pass_ok; cbn [fst snd]. rewrite Hout. apply window_slice; lia. }
  destruct (bs_file s) as [f|] eqn:Hf.
  { destruct (decide (bs_processed s < start)); [by eapply seek_ok; [..|lia]|by eapply read_ok; [..|lia|lia]]. }
  pose proof (stream_bounds _ _ Hinv) as Hb. destruct Hinv as [Hp Hsz Hr Hv Hpr Hout Hpos].
  unfold position in Hpos. rewrite Hf in Hpos. unfold poll_next. rewrite Hb, Hf. rewrite (proj2 (Z.leb_gt _ _)) by lia.
  destruct (bs_open_fut s) as [p|] eqn:Ho.
  - destruct Hpos as (k & z & Hfp & Hk & Hoff & Hst). by eapply poll_open_ok.
  - destruct Hpos as (Hfp & Hoff & Hend). rewrite Hp.
    pose proof (skip_files_spec (drop (bs_fp s) paths) (bs_processed s) (bs_fp s) eq_refl Hfp Hoff Hend ltac:(lia)) as Hsk.
    destruct (skip_files (drop (bs_fp s) paths) start fin (bs_processed s) (bs_fp s)) as [[sk pr] fp'].
    destruct Hsk as (Hfp' & Hoff' & Hpr' & Hpr2 & Hsk). pose proof (off_range fp') as Hr'.
    assert (slice start pr = out) as Hout'.
    { destruct (decide (pr <= start)); [rewrite Hout, !slice_empty by lia; done|].
      rewrite Hout. f_equal. lia. }
    destruct sk; cbn [fst snd]; [| |done].
    + unfold pass_ok; cbn [fst snd]. rewrite <- Hout'. apply window_slice; lia.
    + cbn [bs_paths set_fp set_processed]. rewrite Hp. destruct (paths !! fp') as [[p z]|] eqn:Hk; cbn [fst snd].
      * pose proof (lookup_lt_Some _ _ _ Hk). eapply pass_ok_mono; [|eapply poll_open_ok]; try done.
        -- unfold effort. cbn -[bounds]. rewrite Hf, Ho. lia.
        -- cbn -[bounds]. lia.
        -- cbn -[bounds]. lia.
      * apply lookup_ge_None in Hk. assert (fp' = length paths) as Efp by lia.
        rewrite off_end in Hoff' by (rewrite <- length_paths; lia).
        unfold pass_ok; cbn [fst snd]. rewrite <- Hout'. apply window_slice; lia.
Qed.

Definition gives (answers : list IoAnswer) : nat :=
  length (omap (fun a => match a with Gives n => Some n | _ => None end) answers).
Lemma gives_cons a answers :
  gives (a :: answers) = ((match a with Gives _ => 1 | _ => 0 end) + gives answers)%nat.
Proof. by destruct a. Qed.
Definition failure (answers : list IoAnswer) (e : StreamError) : Prop :=
  exists e', Fails e' ∈ answers /\ e = SIo e'.

Lemma consume_ok answers : forall s out, stream_inv s out ->
  let '(chunks, f) := consume files answers s in
  (exists p, p <= Z.max start fin /\ out ++ concat chunks = slice start p) /\
  match f with
  | Finished => out ++ concat chunks = requested range content
  | FailedWith e => failure answers e
  | Crashed => False
  | Unfinished => (gives answers <= effort s)%nat
  end.
Proof.
  induction answers as [|a answers IH]; intros s out Hinv; cbn [consume].
  { destruct Hinv as [_ _ _ _ Hpr Hout _]. split; [|apply Nat.le_0_l]. exists (bs_processed s). rewrite app_nil_r.
    split; [lia|done]. }
  assert (forall e, failure answers e -> failure (a :: answers) e) as Hfail.
  { intros e (e' & He & ->). exists e'. split; [by right|done]. }
  assert (exists p, p <= Z.max start fin /\ out ++ concat [] = slice start p) as Hnow.
  { destruct Hinv as [_ _ _ _ Hpr Hout _]. exists (bs_processed s). rewrite app_nil_r. split; [lia|done]. }
  pose proof (poll_next_ok a s out Hinv) as Hpass. destruct (poll_next files a s) as [r s']. unfold pass_ok in Hpass.
  cbn [fst snd] in Hpass. destruct r as [| |chunk|e| |].
  - destruct Hpass as [Hinv' Hless]. specialize (IH s' out Hinv'). destruct (consume files answers s') as [chunks f].
    destruct IH as [Hp Hf]. split; [done|]. destruct f; auto. rewrite gives_cons. destruct a; lia.
  - destruct Hpass as (Hinv' & Hless & ->). specialize (IH s' out Hinv'). destruct (consume files answers s') as [chunks f].
    destruct IH as [Hp Hf]. split; [done|]. destruct f; auto. rewrite gives_cons. cbn iota in *. lia.
  - destruct Hpass as [Hinv' Hless]. specialize (IH s' _ Hinv'). destruct (consume files answers s') as [chunks f].
    simpl. rewrite <- app_assoc in IH. destruct IH as [Hp Hf]. split; [done|]. destruct f; auto.
    rewrite gives_cons. destruct a; lia.
  - split; [done|]. destruct Hpass as (e' & -> & ->). exists e'. split; [by left|done].
  - split; [done|]. by rewrite app_nil_r.
  - done.
Qed.
End Window.

(* ------------------------------------------------------------------ *)
(** * What a verifying stream yields *)

Section Verified.
Context `{Blake3} (files : gmap path bytes) (paths : list (path * Z)) (size : Z) (hasher : Hasher) (ids : list BlockId).
Context (Hids : length ids = length paths).

(** Block [k] was read whole and has its address. *)
Definition intact (k : nat) (chunk : bytes) : Prop :=
  exists p z, paths !! k = Some (p, z) /\ files !! p = Some chunk /\ ids !! k = Some (hash_block hasher chunk).

Record verify_inv (s : BlockStream) (k : nat) : Prop := mkVerifyInv {
  vi_paths : bs_paths s = paths;
  vi_size : bs_size s = size;
  vi_range : bs_range s = All;
  vi_verify : bs_verify s = Some (hasher, ids);
  vi_processed : 0 <= bs_processed s;
  vi_pos : match bs_file s, bs_open_fut s with
           | Some f, None => bs_fp s = S k /\ bs_reading s = k /\ bs_buf s = take (of_pos f) (of_data f) /\
               exists p z, paths !! k = Some (p, z) /\ files !! p = Some (of_data f)
           | None, Some p => bs_fp s = S k /\ bs_reading s = k /\ bs_buf s = [] /\ exists z, paths !! k = Some (p, z)
           | None, None => bs_fp s = k /\ bs_buf s = []
           | Some _, Some _ => False
           end
}.

Definition corruption_of (k : nat) (c : BlockCorruption) : Prop :=
  exists z data, paths !! k = Some (bc_path c, z) /\ ids !! k = Some (bc_expected c) /\
    files !! bc_path c = Some data /\ bc_actual c = hash_block hasher data /\ bc_actual c <> bc_expected c.

Definition verify_pass (s : BlockStream) (k : nat) (r : Polled * BlockStream) : Prop :=
  match r.1 with
  | Again | Waiting => verify_inv r.2 k /\ bs_processed r.2 = bs_processed s
  | Yields chunk => intact k chunk /\ verify_inv r.2 (S k) /\
      bs_processed r.2 = wrap_u64 (bs_processed s + Z.of_nat (length chunk))
  | YieldsErr (SCorrupt c) => corruption_of k c
  | YieldsErr (SIo _) => True
  | Ended => size <= bs_processed s \/ (length paths <= k)%nat
  | Panics => False
  end.

Lemma skip_none rest fin processed fp :
  0 <= processed ->
  skip_files rest 0 fin processed fp = (if fin <=? processed then SkReturn else SkBreak, processed, fp).
Proof.
  intros Hp. assert ((processed <? 0) = false) as E by (apply Z.ltb_ge; lia).
  destruct rest as [|[p z] rest]; simpl; rewrite E; by destruct (fin <=? processed).
Qed.

Lemma finish_verified_ok f s k :
  verify_inv s k -> bs_file s = Some f -> drop (of_pos f) (of_data f) = [] ->
  verify_pass s k (finish_verified_block (set_file None s)).
Proof.
  intros [Hp Hsz Hr Hv Hpr Hpos] Hf Heof. rewrite Hf in Hpos. destruct (bs_open_fut s) eqn:Ho; [done|].
  destruct Hpos as (Hfp & Hrd & Hbuf & p & z & Hk & Hfile).
  assert (bs_buf s = of_data f) as Hall.
  { rewrite Hbuf. rewrite <- (take_drop (of_pos f) (of_data f)) at 2. by rewrite Heof, app_nil_r. }
  unfold finish_verified_block. cbn [bs_verify set_buf set_file bs_reading bs_buf]. rewrite Hv, Hrd, Hall.
  pose proof (lookup_lt_Some _ _ _ Hk) as Hlt. rewrite <- Hids in Hlt. destruct (lookup_lt_is_Some_2 _ _ Hlt) as [i Hi].
  rewrite Hi. case_bool_decide as Eh.
  - split; [exists p, z; by rewrite Eh|]. split; [split; try done; cbn|done].
    + apply Z.mod_pos_bound. lia.
    + by rewrite Ho.
  - cbn [bs_paths set_buf set_file]. rewrite Hp, Hk. unfold verify_pass. cbn [fst]. by exists z, (of_data f).
Qed.

Lemma verify_open_ok a p z s k :
  bs_paths s = paths -> bs_size s = size -> bs_range s = All -> bs_verify s = Some (hasher, ids) ->
  0 <= bs_processed s -> bs_file s = None -> bs_open_fut s = Some p -> bs_fp s = S k -> bs_reading s = k ->
  bs_buf s = [] -> paths !! k = Some (p, z) ->
  forall s0, bs_processed s = bs_processed s0 -> verify_pass s0 k (poll_open files a p s).
Proof.
  intros Hp Hsz Hr Hv Hpr Hf Ho Hfp Hrd Hbuf Hk s0 Heq. unfold poll_open. destruct a as [|e|n].
  - split; [|done]. split; try done. cbn. rewrite Hf, Ho. split_and!; try done. by exists z.
  - done.
  - destruct (files !! p) as [d|] eqn:E; [|done]. split; [|done]. split; try done. cbn. split_and!; try done. by exists p, z.
Qed.

Lemma verify_next_ok a s k : verify_inv s k -> verify_pass s k (poll_next files a s).
Proof.
  intros Hinv. pose proof Hinv as [Hp Hsz Hr Hv Hpr Hpos].
  unfold poll_next, bounds. rewrite Hr, Hsz. destruct (Z.leb_spec size (bs_processed s)); [by left|].
  assert ((bs_processed s <? 0) = false) as E0 by (apply Z.ltb_ge; lia). rewrite E0, andb_false_r.
  destruct (bs_file s) as [f|] eqn:Hf.
  - destruct a as [|e|n]; [done|done|]. rewrite Hv. unfold read_some.
    destruct (take _ (drop (of_pos f) (of_data f))) as [|c chunk] eqn:Ec.
    + apply (finish_verified_ok f); [done|done|].
      destruct (drop (of_pos f) (of_data f)) as [|b l]; [done|]. destruct n; done.
    + rewrite <- Ec. clear Ec. destruct (bs_open_fut s) eqn:Ho; [done|].
      destruct Hpos as (Hfp & Hrd & Hbuf & Hfile). split; [|done]. split; try done. cbn. rewrite Ho. split_and!; try done.
      rewrite Hbuf. set (m := Nat.min _ _). clearbody m. rewrite take_add_split. f_equal.
      by rewrite take_length_take.
  - destruct (bs_open_fut s) as [p|] eqn:Ho.
    + destruct Hpos as (Hfp & Hrd & Hbuf & z & Hk). by eapply verify_open_ok.
    + destruct Hpos as [Hfp Hbuf]. rewrite skip_none by done. rewrite (proj2 (Z.leb_gt _ _)) by lia.
      cbn [bs_paths set_fp set_processed]. rewrite Hp, Hfp. destruct (paths !! k) as [[p z]|] eqn:Hk.
      * by eapply verify_open_ok.
      * right. by apply lookup_ge_None in Hk.
Qed.

Lemma wrap_le z : 0 <= z -> wrap_u64 z <= z.
Proof. intros Hz. apply Z.mod_le; [done|lia]. Qed.

Lemma verified_inv : verify_inv (verified (new_stream paths size All) hasher ids) 0 /\
  bs_processed (verified (new_stream paths size All) hasher ids) = 0.
Proof. unfold verified. cbn [new_stream bs_range bs_paths is_all andb]. rewrite Hids, Nat.eqb_refl. by repeat split. Qed.

Lemma verify_consume_ok answers : forall s k, verify_inv s k ->
  let '(chunks, f) := consume files answers s in
  (forall j chunk, chunks !! j = Some chunk -> intact (k + j) chunk) /\
  match f with
  | Finished => (length paths <= k + length chunks)%nat \/ size <= bs_processed s + Z.of_nat (length (concat chunks))
  | FailedWith (SCorrupt c) => corruption_of (k + length chunks) c
  | Crashed => False
  | _ => True
  end.
Proof.
  induction answers as [|a answers IH]; intros s k Hinv; cbn [consume]; [done|].
  pose proof (verify_next_ok a s k Hinv) as Hpass. destruct (poll_next files a s) as [r s']. unfold verify_pass in Hpass.
  cbn [fst snd] in Hpass. destruct r as [| |chunk|[e|c]| |]; try done.
  - destruct Hpass as [Hinv' <-]. by apply IH.
  - destruct Hpass as [Hinv' <-]. by apply IH.
  - destruct Hpass as (Hi & Hinv' & Hpr). specialize (IH s' (S k) Hinv'). destruct (consume files answers s') as [chunks f].
    rewrite Hpr in IH. destruct IH as [Hall Hf]. split.
    + intros [|j] c; simpl; [intros [= <-]; by rewrite Nat.add_0_r|]. intros Hj.
      replace (k + S j)%nat with (S k + j)%nat by lia. by apply Hall.
    + simpl. replace (k + S (length chunks))%nat with (S k + length chunks)%nat by lia. destruct f as [| | |]; try done.
      rewrite length_app. destruct Hf as [Hf|Hf]; [by left|right].
      pose proof (wrap_le (bs_processed s + Z.of_nat (length chunk))). destruct Hinv. lia.
  - split; [done|]. simpl. by rewrite Nat.add_0_r.
  - split; [done|]. cbn [length concat]. destruct Hpass; [right|left]; lia.
Qed.
End Verified.

(* ------------------------------------------------------------------ *)
(** * The guarantees *)

Section Claims.
Context `{Blake3}.

(** Whatever the reads give, the bytes served are those of the window. *)
Lemma window_served files paths datas range answers :
  let content := concat datas in
  let s := new_stream paths (Z.of_nat (length content)) range in
  Forall2 (stored files) paths datas -> Z.of_nat (length content) <= i64_max -> range_wf range ->
  paths <> [] \/ (bounds s).1 = 0 ->
  let '(chunks, f) := consume files answers s in
  concat chunks `prefix_of` requested range content /\
  match f with
  | Finished => concat chunks = requested range content
  | FailedWith e => failure answers e
  | Crashed => False
  | Unfinished => (gives answers <= length content + 2 * length paths)%nat
  end.
Proof.
  intros content s. subst content s. intros Hp Ht Hr Hne.
  pose proof (consume_ok files paths datas range Hp Ht Hr Hne answers _ [] (new_inv files paths datas range Hp Hr Hne)) as Hc.
  rewrite new_effort in Hc. destruct (consume files answers _) as [chunks f]. cbn [app] in Hc.
  destruct Hc as [(p & Hle & Hs) Hf]. split; [|done]. rewrite Hs.
  set (b := bounds (new_stream paths (Z.of_nat (length (concat datas))) range)) in *.
  rewrite <- (window_slice paths datas range Ht Hr Hne (Z.max b.1 b.2)) by (unfold b; lia).
  unfold slice. fold b. exists (drop (Z.to_nat (p - b.1)) (take (Z.to_nat (Z.max b.1 b.2 - b.1)) (drop (Z.to_nat b.1) (concat datas)))).
  rewrite <- (take_drop (Z.to_nat (p - b.1)) (take (Z.to_nat (Z.max b.1 b.2 - b.1)) _)) at 1.
  by rewrite take_take, Nat.min_l by lia.
Qed.

(** The length a stream advertises is the number of bytes it serves. *)
Lemma size_hint_exact paths datas range :
  let content := concat datas in
  Z.of_nat (length content) <= i64_max -> range_wf range ->
  size_hint (new_stream paths (Z.of_nat (length content)) range) = Z.of_nat (length (requested range content)).
Proof.
  intros content Ht Hr. unfold size_hint, bounds, new_stream. cbn [bs_range bs_size].
  destruct range; simpl in *; unfold is_u64, saturating_add_u64, u64_max, i64_max in *;
    rewrite ?length_take, ?length_drop; lia.
Qed.

(** C31: A read of an object serves exactly the bytes requested.  Over block
    files of the sizes the records state, whatever the range and however the
    reads are cut short or delayed, what has been served is a prefix of the
    requested bytes; a stream that ends without an error has served all of
    them; only a failed I/O call makes it fail; it never indexes out of bounds
    (a range that starts past the beginning needs at least one block); it
    does end: after one answered call per byte and two per block it has; and
    the length it advertises is the number of bytes it serves. *)
Theorem stream_serves_window files paths datas range answers :
  let content := concat datas in
  let s := new_stream paths (Z.of_nat (length content)) range in
  Forall2 (stored files) paths datas -> Z.of_nat (length content) <= i64_max -> range_wf range ->
  paths <> [] \/ (bounds s).1 = 0 ->
  size_hint s = Z.of_nat (length (requested range content)) /\
  (let '(chunks, f) := consume files answers s in
     concat chunks `prefix_of` requested range content /\
     match f with
     | Finished => concat chunks = requested range content
     | FailedWith e => failure answers e
     | Crashed => False
     | Unfinished => (gives answers <= length content + 2 * length paths)%nat
     end).
Proof.
  intros content s Hp Ht Hr Hne. split; [by apply size_hint_exact|]. by apply window_served.
Qed.

(** C32: A verifying read serves no corrupt byte.  Whatever the block files
    hold and however the reads are cut, each chunk served is the whole file of
    the next block and hashes to that block's address; a corruption is
    reported for the first block that does not, with its address, its path and
    what its file hashes to, and nothing of it has been served; a stream that
    ends without an error has served every block, or as many bytes as the
    object has; it never panics. *)
Theorem verified_stream_serves_only_intact files paths size hasher ids answers :
  length ids = length paths ->
  let '(chunks, f) := consume files answers (verified (new_stream paths size All) hasher ids) in
  (forall k chunk, chunks !! k = Some chunk -> intact files paths hasher ids k chunk) /\
  match f with
  | Finished => (length paths <= length chunks)%nat \/ size <= Z.of_nat (length (concat chunks))
  | FailedWith (SCorrupt c) => corruption_of files paths hasher ids (length chunks) c
  | Crashed => False
  | _ => True
  end.
Proof.
  intros Hl. destruct (verified_inv files paths size hasher ids Hl) as [Hs H0].
  pose proof (verify_consume_ok files paths size hasher ids Hl answers _ 0 Hs) as Hc. by rewrite H0 in Hc.
Qed.
End Claims.

Import Concrete.

Definition sample_paths : list (path * Z) := [([str "a"], 3); ([str "b"], 2)].
Definition sample_files : gmap path bytes := {[ [str "a"] := str "abc"; [str "b"] := str "de" ]}.
Definition sample_answers : list IoAnswer := Gives 9 :: NotReady :: repeat (Gives 1) 12.

Lemma stream_serves_window_witness :
  concat (consume sample_files sample_answers (new_stream sample_paths 5 (Range 1 3))).1 = str "bcd".
Proof.
  pose proof (stream_serves_window sample_files sample_paths [str "abc"; str "de"] (Range 1 3) sample_answers
    ltac:(repeat constructor) ltac:(vm_compute; discriminate)
    ltac:(split; split; vm_compute; discriminate) ltac:(left; discriminate)) as Hx.
  change (Z.of_nat (length (concat [str "abc"; str "de"]))) with 5 in Hx.
  assert ((consume sample_files sample_answers (new_stream sample_paths 5 (Range 1 3))).2 = Finished) as E by reflexivity.
  destruct (consume sample_files sample_answers (new_stream sample_paths 5 (Range 1 3))) as [chunks f].
  simpl in E. subst f. exact (proj2 (proj2 Hx)).
Defined.

Lemma size_hint_exact_witness : size_hint (new_stream sample_paths 5 (Range 1 9)) = 4.
Proof.
  exact (size_hint_exact sample_paths [str "abc"; str "de"] (Range 1 9)
    ltac:(vm_compute; discriminate) ltac:(split; split; vm_compute; discriminate)).
Defined.

(** The second block's file has rotted. *)
Definition sample_ids : list BlockId := [hash_block Blake3W32 (str "abc"); hash_block Blake3W32 (str "DE")].

Lemma verified_stream_serves_only_intact_witness :
  exists c, (consume sample_files sample_answers (verified (new_stream sample_paths 5 All) Blake3W32 sample_ids)) =
      ([str "abc"], FailedWith (SCorrupt c)) /\
    corruption_of sample_files sample_paths Blake3W32 sample_ids 1 c.
Proof.
  pose proof (verified_stream_serves_only_intact sample_files sample_paths 5 Blake3W32 sample_ids sample_answers eq_refl) as Hx.
  eexists. split; [vm_compute; reflexivity|].
  match type of Hx with context [consume ?a ?b ?c] =>
    let v := eval vm_compute in (consume a b c) in change (consume a b c) with v in Hx end.
  exact (proj2 Hx).
Defined.
