(* ===== verification/Placement.v ===== *)
(** Fanout placement of block files (cas/placement.rs): the probe for an
    orphan file to heal in place, the occupancy policy and its approximate
    per-directory counters. *)

From S2P Require Import Prelude Bytes Externals BlockIds Codec Records StoreHeader Disk.
From Stdlib Require Import Strings.Byte.
Local Open Scope Z_scope.
#[local] Set Warnings "-clear-no-such-hyp".

Definition DEFAULT_MAX_DIR_ENTRIES : Z := 4096.

Record BlockPlacement : Type := mkPlacement { bp_root : path; bp_max_dir_entries : Z }.

(** [with_max_entries]: a limit of zero is raised to one. *)
Definition with_max_entries (root : path) (max_dir_entries : Z) : BlockPlacement :=
  mkPlacement root (Z.max max_dir_entries 1).
Definition new_placement (root : path) : BlockPlacement :=
  with_max_entries root DEFAULT_MAX_DIR_ENTRIES.

(** The approximate entry counts, by directory. *)
Abbreviation counters := (gmap path Z).

Section Placement.
Context {D : Type} `{StdFs D, FasterHex}.

(** [dir.push(hex_string(&[byte]))]. *)
Definition push_byte (dir : path) (b : byte) : path := dir ++ [hex_string [b]].

(** [entries.count()], or zero for a directory that cannot be read. *)
Definition approximate_entry_count (dir : path) (d : D) : Z :=
  match entry_count dir d with Some n => n | None => 0 end.

(** [counters.entry(dir).or_insert_with(..)]. *)
Definition counter_entry (dir : path) (d : D) (c : counters) : Z * counters :=
  match c !! dir with
  | Some n => (n, c)
  | None => let n := approximate_entry_count dir d in (n, <[dir := n]> c)
  end.

(** The walk of [probe_orphan] from level [level] down, over the id's
    remaining bytes. *)
Fixpoint probe_from (name : bytes) (level : Z) (dir : path) (rest : bytes) (d : D) : option Z :=
  match rest with
  | [] => None
  | b :: rest' =>
      let dir := push_byte dir b in
      if negb (is_dir dir d) then None
      else if is_file (dir ++ [name]) d then Some (level + 1)
      else probe_from name (level + 1) dir rest' d
  end.

Definition probe_orphan (p : BlockPlacement) (i : BlockId) (d : D) : option Z :=
  probe_from (to_hex i) 0 (bp_root p) (as_slice i) d.

Fixpoint policy_from (p : BlockPlacement) (width level : Z) (dir : path) (rest : bytes) (d : D)
    (c : counters) : Z * counters :=
  match rest with
  | [] => (width, c)
  | b :: rest' =>
      let dir := push_byte dir b in
      let '(count, c) := counter_entry dir d c in
      if (count <? bp_max_dir_entries p) || (level + 1 =? width) then (level + 1, c)
      else policy_from p width (level + 1) dir rest' d c
  end.

Definition policy_depth (p : BlockPlacement) (i : BlockId) (d : D) (c : counters) : Z * counters :=
  policy_from p (Z.of_nat (id_width i)) 0 (bp_root p) (as_slice i) d c.

(** The directory of the first [clamp(depth, 1, width)] bytes. *)
Definition placement_dir (p : BlockPlacement) (i : BlockId) (depth : Z) : path :=
  fold_left push_byte (take (Z.to_nat (Z.max 1 (Z.min depth (Z.of_nat (id_width i))))) (as_slice i))
    (bp_root p).

Definition record_placement (p : BlockPlacement) (i : BlockId) (depth : Z) (d : D) (c : counters) :
    counters :=
  let dir := placement_dir p i depth in
  let '(n, c) := counter_entry dir d c in <[dir := n + 1]> c.

Definition choose_depth (p : BlockPlacement) (i : BlockId) (d : D) (c : counters) : Z * counters :=
  match probe_orphan p i d with
  | Some found => (found, c)
  | None =>
      let '(depth, c) := policy_depth p i d c in
      (depth, record_placement p i depth d c)
  end.

(* ------------------------------------------------------------------ *)
(** * Lemmas *)

(** The directory chain of an id, level by level. *)
Definition chain_dir (p : BlockPlacement) (i : BlockId) (n : nat) : path :=
  bp_root p ++ map (fun b => hex_string [b]) (take n (as_slice i)).

Lemma fold_push dir bs : fold_left push_byte bs dir = dir ++ map (fun b => hex_string [b]) bs.
Proof.
  revert dir. induction bs as [|b bs IH]; intros dir; simpl; [by rewrite app_nil_r|].
  rewrite IH. unfold push_byte. by rewrite <- app_assoc.
Qed.

Lemma probe_from_spec name level dir rest d found :
  probe_from name level dir rest d = Some found ->
  exists n, (n < length rest)%nat /\ found = level + Z.of_nat n + 1 /\
    is_file ((dir ++ map (fun b => hex_string [b]) (take (S n) rest)) ++ [name]) d = true /\
    forall m, (m < n)%nat ->
      is_file ((dir ++ map (fun b => hex_string [b]) (take (S m) rest)) ++ [name]) d = false.
Proof.
  revert level dir. induction rest as [|b rest IH]; intros level dir; cbn [probe_from]; [done|].
  destruct (is_dir _ d); [|done]. cbn [negb].
  destruct (is_file (push_byte dir b ++ [name]) d) eqn:Ef.
  - intros [= <-]. exists 0%nat. simpl. split_and!; [lia|lia|done|lia].
  - intros (n & Hn & -> & Hf & Hm)%IH. exists (S n). unfold push_byte in *. split_and!.
    + simpl. lia.
    + lia.
    + rewrite <- (app_assoc dir) in Hf. exact Hf.
    + intros [|m] Hlt; [done|]. specialize (Hm m ltac:(lia)).
      rewrite <- (app_assoc dir) in Hm. exact Hm.
Qed.

Lemma policy_from_range p width level dir rest d c :
  rest <> [] -> width = level + Z.of_nat (length rest) -> 0 <= level ->
  level + 1 <= (policy_from p width level dir rest d c).1 <= width.
Proof.
  revert level dir c. induction rest as [|b rest IH]; intros level dir c Hne Hw Hl; [done|].
  cbn [policy_from]. destruct (counter_entry _ d c) as [count c'].
  simpl length in Hw. destruct (Z.ltb_spec count (bp_max_dir_entries p)); cbn [orb fst]; [lia|].
  destruct (Z.eqb_spec (level + 1) width); [simpl; lia|].
  specialize (IH (level + 1) (push_byte dir b) c').
  destruct rest; [simpl in Hw; lia|]. destruct IH; [done|lia|lia|]. lia.
Qed.

Lemma choose_depth_range p i d c :
  BlockId_wf i -> 1 <= (choose_depth p i d c).1 <= Z.of_nat (id_width i).
Proof.
  intros Hi. unfold choose_depth. pose proof (length_as_slice i Hi) as Hl.
  destruct (probe_orphan p i d) as [found|] eqn:E.
  - apply probe_from_spec in E as (n & Hn & -> & _). simpl. lia.
  - unfold policy_depth. pose proof (policy_from_range p (Z.of_nat (id_width i)) 0 (bp_root p)
      (as_slice i) d c) as Hr.
    destruct (policy_from _ _ _ _ _ _ _) as [depth c']. simpl in *. apply Hr; [|lia|lia].
    intros E0. rewrite E0 in Hl. by destruct (id_width_cases i Hi) as [E1|E1]; rewrite E1 in Hl.
Qed.

(** What the policy believes a directory holds. *)
Definition count_at (dir : path) (d : D) (c : counters) : Z :=
  match c !! dir with Some n => n | None => approximate_entry_count dir d end.

Lemma counter_entry_spec dir d c :
  (counter_entry dir d c).1 = count_at dir d c /\
  forall dir', count_at dir' d (counter_entry dir d c).2 = count_at dir' d c.
Proof.
  unfold counter_entry, count_at. destruct (c !! dir) as [n|] eqn:E; simpl; [done|].
  split; [done|]. intros dir'. destruct (decide (dir = dir')) as [->|].
  - by rewrite lookup_insert_eq, E.
  - by rewrite lookup_insert_ne.
Qed.

Lemma policy_from_spec p width level dir rest d c depth c' :
  policy_from p width level dir rest d c = (depth, c') ->
  rest <> [] -> width = level + Z.of_nat (length rest) -> 0 <= level ->
  let dir_of n := dir ++ map (fun b => hex_string [b]) (take n rest) in
  (forall n, 0 < Z.of_nat n < depth - level -> bp_max_dir_entries p <= count_at (dir_of n) d c) /\
  (depth = width \/ count_at (dir_of (Z.to_nat (depth - level))) d c < bp_max_dir_entries p) /\
  (forall dir', count_at dir' d c' = count_at dir' d c).
Proof.
  revert level dir c. induction rest as [|b rest IH]; intros level dir c E Hne Hw Hl dir_of; [done|].
  cbn [policy_from] in E. destruct (counter_entry_spec (push_byte dir b) d c) as [Hc1 Hc2].
  destruct (counter_entry _ d c) as [count c1] eqn:Ec. simpl in Hc1, Hc2. simpl length in Hw.
  assert (dir_of 1%nat = push_byte dir b) as H1 by done.
  destruct (Z.ltb_spec count (bp_max_dir_entries p)) as [Hlt|Hge]; cbn [orb] in E.
  { injection E as <- <-. split_and!; [lia| |done]. right.
    replace (Z.to_nat (level + 1 - level)) with 1%nat by lia. rewrite H1. lia. }
  destruct (Z.eqb_spec (level + 1) width) as [Heq|Hneq].
  { injection E as <- <-. split_and!; [lia|by left|done]. }
  assert (rest <> []) as Hne' by (destruct rest; [simpl in Hw; lia|done]).
  pose proof (policy_from_range p width (level + 1) (push_byte dir b) rest d c1) as Hrange.
  rewrite E in Hrange. simpl in Hrange. specialize (Hrange Hne' ltac:(lia) ltac:(lia)).
  apply IH in E as (Hlow & Hlast & Hkeep); [|done|lia|lia].
  assert (forall n, push_byte dir b ++ map (fun b => hex_string [b]) (take n rest) = dir_of (S n)) as Hd.
  { intros n. unfold dir_of, push_byte. simpl. by rewrite <- app_assoc. }
  split_and!.
  - intros n Hn. destruct n as [|[|n]]; [lia|rewrite H1; lia|].
    rewrite <- Hd. rewrite <- Hc2. apply Hlow. lia.
  - destruct Hlast as [?|Hlast]; [by left|right]. rewrite Hd, Hc2 in Hlast.
    by replace (Z.to_nat (depth - level)) with (S (Z.to_nat (depth - (level + 1)))) by lia.
  - intros dir'. by rewrite Hkeep.
Qed.

Lemma block_path_in_chain p i depth :
  BlockId_wf i -> 1 <= depth <= Z.of_nat (id_width i) ->
  block_disk_path i depth (bp_root p) = chain_dir p i (Z.to_nat depth) ++ [to_hex i].
Proof.
  intros Hi Hd. unfold block_disk_path, chain_dir. rewrite <- app_assoc.
  do 3 f_equal. f_equal. lia.
Qed.

Lemma placement_dir_chain p i depth :
  1 <= depth <= Z.of_nat (id_width i) -> placement_dir p i depth = chain_dir p i (Z.to_nat depth).
Proof. intros Hd. unfold placement_dir, chain_dir. rewrite fold_push. do 3 f_equal. lia. Qed.
End Placement.

(** The depth chosen for a new block file.  It is always between one
    and the id's width, so a path can be derived from it.  If a file named
    after the block already lies on the id's directory chain, the shallowest
    such file's depth is returned, so the rename heals it in place, and no
    counter moves.  Otherwise the shallowest directory believed to hold fewer
    than the limit is taken (the deepest one when all are full), and exactly
    its counter goes up by one. *)
Theorem placement_choice {D} `{DiskLaws D, FasterHexLaws} p i (d : D) c :
  BlockId_wf i ->
  let depth := (choose_depth p i d c).1 in
  let c' := (choose_depth p i d c).2 in
  1 <= depth <= Z.of_nat (id_width i) /\
  match probe_orphan p i d with
  | Some found =>
      depth = found /\ c' = c /\
      is_Some (files d !! block_disk_path i depth (bp_root p)) /\
      forall n, 1 <= n < depth -> is_file (block_disk_path i n (bp_root p)) d = false
  | None =>
      (depth = Z.of_nat (id_width i) \/
       count_at (chain_dir p i (Z.to_nat depth)) d c < bp_max_dir_entries p) /\
      (forall n, 0 < Z.of_nat n < depth -> bp_max_dir_entries p <= count_at (chain_dir p i n) d c) /\
      (forall dir, count_at dir d c'
         = count_at dir d c + (if decide (dir = chain_dir p i (Z.to_nat depth)) then 1 else 0))
  end.
Proof.
  intros Hi depth c'. pose proof (choose_depth_range p i d c Hi) as Hr. fold depth in Hr.
  split; [done|]. unfold depth, c', choose_depth in *. clear depth c'.
  destruct (probe_orphan p i d) as [found|] eqn:E.
  - split_and!; [done|done|..]; simpl in *.
    + rewrite block_path_in_chain by done.
      apply probe_from_spec in E as (n & Hn & -> & Hf & _).
      apply (is_file_spec (D := D)). replace (Z.to_nat (0 + Z.of_nat n + 1)) with (S n) by lia. exact Hf.
    + intros m Hm. rewrite block_path_in_chain by (done || lia).
      apply probe_from_spec in E as (n & Hn & -> & _ & Hlt).
      replace (Z.to_nat m) with (S (Z.to_nat (m - 1))) by lia. apply Hlt. lia.
  - destruct (policy_depth p i d c) as [depth c1] eqn:Ep. simpl in *.
    pose proof (length_as_slice i Hi) as Hl.
    apply policy_from_spec in Ep as (Hlow & Hlast & Hkeep); [|..|lia|lia].
    2: { intros E0. rewrite E0 in Hl. by destruct (id_width_cases i Hi) as [E1|E1]; rewrite E1 in Hl. }
    rewrite Z.sub_0_r in Hlast. split_and!; [done|intros n Hn; apply Hlow; lia|].
    intros dir. unfold record_placement. rewrite placement_dir_chain by done.
    destruct (counter_entry_spec (chain_dir p i (Z.to_nat depth)) d c1) as [Hc1 Hc2].
    destruct (counter_entry _ d c1) as [n c2]. simpl in *.
    destruct (decide (dir = chain_dir p i (Z.to_nat depth))) as [->|Hne].
    + unfold count_at at 1. rewrite lookup_insert_eq, Hc1, Hkeep. done.
    + rewrite <- (Hkeep dir), <- Hc2. unfold count_at. rewrite lookup_insert_ne by done. lia.
Qed.
