(* ===== verification/RealDisk.v ===== *)
(** [RealDiskOps] (cas/block_disk.rs) over a model of the part of [std::fs] it
    calls: files, directories and mount points, with a list of outcomes that
    lets any system call fail (a failing write after any prefix of its bytes).
    The instance satisfies the disk laws whatever the outcomes are. *)

From S2P Require Import Prelude Bytes Externals BlockIds Codec Records StoreHeader Disk Placement.
From Stdlib Require Import Strings.Byte.
Local Open Scope Z_scope.
#[local] Set Warnings "-clear-no-such-hyp".

(** A system call that fails, and how much of a write got through.  Faults
    are the errors of a device or of permissions; "no such file" is an answer
    about the tree. *)
Record Fault : Type := mkFault { fault_written : nat }.

Record Fs : Type := mkFs {
  fs_files : gmap path bytes;
  fs_dirs : gset path;
  fs_mounts : gmap path Z;
  fs_faults : list (option Fault)
}.

Definition with_files (m : gmap path bytes) (d : Fs) : Fs :=
  mkFs m (fs_dirs d) (fs_mounts d) (fs_faults d).
Definition with_dirs (s : gset path) (d : Fs) : Fs :=
  mkFs (fs_files d) s (fs_mounts d) (fs_faults d).

(** The outcome of the next system call. *)
Definition next_fault (d : Fs) : option Fault * Fs :=
  match fs_faults d with
  | [] => (None, d)
  | f :: fs' => (f, mkFs (fs_files d) (fs_dirs d) (fs_mounts d) fs')
  end.

Definition io_fail {A} : result IoError A := Err (mkIoError IoOther "input/output error").

(** A system call whose body runs when it does not fail. *)
Definition syscall {A} (body : M Fs IoError A) : M Fs IoError A := fun d =>
  let '(f, d') := next_fault d in
  match f with Some _ => (io_fail, d') | None => body d' end.

Definition in_dir (p : path) (d : Fs) : bool :=
  match parent p with Some q => bool_decide (q ∈ fs_dirs d) | None => true end.

(** Every non-empty prefix of a path. *)
Definition prefixes (p : path) : list path := map (fun n => take n p) (seq 1 (length p)).

Fixpoint device_from (fuel : nat) (d : Fs) (p : path) : Z :=
  match fs_mounts d !! p with
  | Some dev => dev
  | None => match fuel, parent p with
            | S fuel', Some q => device_from fuel' d q
            | _, _ => 0
            end
  end.
Definition device (d : Fs) (p : path) : Z := device_from (length p) d p.

Definition std_create_dir_all (p : path) : M Fs IoError unit := syscall (fun d =>
  if forallb (fun q => bool_decide (fs_files d !! q = None)) (prefixes p)
  then (Ok tt, with_dirs (list_to_set (prefixes p) ∪ fs_dirs d) d)
  else (Err (mkIoError IoOther "not a directory"), d)).

(** [OpenOptions::new().write(true).create_new(true).open(path)], then
    [write_all]. *)
Definition real_write_new_file (p : path) (contents : bytes) : M Fs IoError unit :=
  syscall (fun d =>
    if bool_decide (is_Some (fs_files d !! p)) || bool_decide (p ∈ fs_dirs d)
    then (Err (mkIoError IoAlreadyExists "exists"), d)
    else if negb (in_dir p d) then (Err (mkIoError IoNotFound "no such directory"), d)
    else
      let '(f, d) := next_fault d in
      match f with
      | Some f => (io_fail, with_files (<[p := take (fault_written f) contents]> (fs_files d)) d)
      | None => (Ok tt, with_files (<[p := contents]> (fs_files d)) d)
      end).

Definition real_fsync_file (p : path) (data_only : bool) : M Fs IoError unit :=
  syscall (fun d =>
    if bool_decide (is_Some (fs_files d !! p)) then syscall (mret tt) d
    else (Err (mkIoError IoNotFound "no such file"), d)).

Definition real_fsync_dir (p : path) : M Fs IoError unit :=
  syscall (fun d =>
    if bool_decide (p ∈ fs_dirs d) then syscall (mret tt) d
    else (Err (mkIoError IoNotFound "no such directory"), d)).

Definition std_rename (a b : path) : M Fs IoError unit := syscall (fun d =>
  match fs_files d !! a with
  | None => (Err (mkIoError IoNotFound "no such file"), d)
  | Some c =>
      if negb (device d a =? device d b) then (Err (mkIoError IoCrossesDevices "cross-device"), d)
      else if bool_decide (b ∈ fs_dirs d) then (Err (mkIoError IoOther "is a directory"), d)
      else if negb (in_dir b d) then (Err (mkIoError IoNotFound "no such directory"), d)
      else (Ok tt, with_files (<[b := c]> (delete a (fs_files d))) d)
  end).

Definition std_remove_file (p : path) : M Fs IoError unit := syscall (fun d =>
  match fs_files d !! p with
  | Some _ => (Ok tt, with_files (delete p (fs_files d)) d)
  | None => if bool_decide (p ∈ fs_dirs d) then (Err (mkIoError IoOther "is a directory"), d)
            else (Err (mkIoError IoNotFound "no such file"), d)
  end).

(** [RealDiskOps::remove_file]: a missing file is not an error. *)
Definition real_remove_file (p : path) : M Fs IoError unit := fun d =>
  match std_remove_file p d with
  | (Err e, d') => match io_kind e with IoNotFound => (Ok tt, d') | _ => (Err e, d') end
  | r => r
  end.

Definition children (p : path) (d : Fs) : list path :=
  filter (fun q => parent q = Some p)
    ((map_to_list (fs_files d)).*1 ++ elements (fs_dirs d)).

Definition real_list_dir (p : path) : M Fs IoError (list path) := syscall (fun d =>
  if bool_decide (p ∈ fs_dirs d) then (Ok (children p d), d)
  else (Err (mkIoError IoNotFound "no such directory"), d)).

Definition real_device_of (p : path) : M Fs IoError (option Z) := syscall (fun d =>
  if bool_decide (p ∈ fs_dirs d) || bool_decide (is_Some (fs_files d !! p))
  then (Ok (Some (device d p)), d)
  else (Err (mkIoError IoNotFound "no such file"), d)).

#[global] Instance RealDiskOps : BlockDiskOps Fs := {|
  create_dir_all := std_create_dir_all;
  write_new_file := real_write_new_file;
  fsync_file := real_fsync_file;
  fsync_dir := real_fsync_dir;
  rename := std_rename;
  remove_file := real_remove_file;
  list_dir := real_list_dir;
  device_of := real_device_of
|}.

#[global] Instance Fs_std : StdFs Fs := {|
  fs_read p := syscall (fun d =>
    match fs_files d !! p with
    | Some c => (Ok c, d)
    | None => if bool_decide (p ∈ fs_dirs d) then (Err (mkIoError IoOther "is a directory"), d)
              else (Err (mkIoError IoNotFound "no such file"), d)
    end);
  fs_write p c := syscall (fun d =>
    if bool_decide (p ∈ fs_dirs d) then (Err (mkIoError IoOther "is a directory"), d)
    else if negb (in_dir p d) then (Err (mkIoError IoNotFound "no such directory"), d)
    else
      let '(f, d) := next_fault d in
      match f with
      | Some f => (io_fail, with_files (<[p := take (fault_written f) c]> (fs_files d)) d)
      | None => (Ok tt, with_files (<[p := c]> (fs_files d)) d)
      end);
  is_dir p d := bool_decide (p ∈ fs_dirs d);
  is_file p d := bool_decide (is_Some (fs_files d !! p));
  entry_count p d :=
    if bool_decide (p ∈ fs_dirs d) then Some (Z.of_nat (length (children p d))) else None
|}.

#[global] Instance Fs_view : DiskView Fs := fs_files.

Lemma next_fault_files d : fs_files (next_fault d).2 = fs_files d.
Proof. unfold next_fault. by destruct (fs_faults d). Qed.

Lemma wp_syscall {A} (body : M Fs IoError A) d Q :
  (forall d', fs_files d' = fs_files d -> Q io_fail d') ->
  (forall d', fs_files d' = fs_files d -> wp body d' Q) -> wp (syscall body) d Q.
Proof.
  intros He Hb. unfold wp, syscall. pose proof (next_fault_files d) as Hf.
  destruct (next_fault d) as [[f|] d']; simpl in *; [by apply He|by apply Hb].
Qed.

Lemma parent_child p q : parent q = Some p -> exists n, q = p ++ [n].
Proof.
  intros Hq. assert (q <> []) as Hne by (by intros ->). destruct (exists_last Hne) as (l & x & ->). exists x.
  assert (parent (l ++ [x]) = Some (take (length (l ++ [x]) - 1) (l ++ [x]))) as E by (unfold parent; by destruct l).
  rewrite E, length_app in Hq. cbn [length] in Hq. replace (length l + 1 - 1)%nat with (length l) in Hq by lia.
  rewrite take_app_length in Hq. by injection Hq as ->.
Qed.

#[global] Instance RealDiskLaws : DiskLaws Fs.
Proof.
  constructor.
  - intros p d. apply wp_syscall; [done|]. intros d' Hf. unfold wp, files, Fs_view in *. by case_match.
  - intros p c d. apply wp_syscall; [intros; by left|]. intros d' Hf. unfold wp, files, Fs_view in *.
    destruct (bool_decide _ || bool_decide _) eqn:E; [by left|].
    apply orb_false_iff in E as [E _]. apply bool_decide_eq_false in E.
    assert (fs_files d !! p = None) as Hp by (rewrite <- Hf; by apply eq_None_not_Some).
    destruct (negb _); [by left|]. pose proof (next_fault_files d') as Hn.
    destruct (next_fault d') as [[f|] d2]; simpl in *; rewrite Hn, Hf; eauto.
  - intros p b d. apply wp_syscall; [done|]. intros d' Hf. unfold wp. case_match; [|done].
    apply (wp_syscall (mret tt) d' (fun _ d2 => files d2 = files d));
      unfold files, Fs_view, wp; simpl; congruence.
  - intros p d. apply wp_syscall; [done|]. intros d' Hf. unfold wp. case_match; [|done].
    apply (wp_syscall (mret tt) d' (fun _ d2 => files d2 = files d));
      unfold files, Fs_view, wp; simpl; congruence.
  - intros a b d. apply wp_syscall; [done|]. intros d' Hf. unfold wp, files, Fs_view in *.
    rewrite <- Hf. destruct (fs_files d' !! a) as [c|] eqn:Ea; [|done].
    repeat case_match; try done. exists c. done.
  - intros p d. unfold wp. simpl. unfold real_remove_file.
    assert (wp (std_remove_file p) d (fun r d' => match r with
      | Ok _ => fs_files d' = delete p (fs_files d)
      | Err e => fs_files d' = fs_files d /\ (io_kind e = IoNotFound -> fs_files d !! p = None) end)) as Hw.
    { apply wp_syscall; [done|]. intros d' Hf. unfold wp. rewrite <- Hf.
      destruct (fs_files d' !! p) eqn:Ep; [done|]. destruct (bool_decide _); simpl; auto. }
    unfold wp in Hw. destruct (std_remove_file p d) as [[u|e] d']; simpl in *; [done|].
    destruct Hw as [Hw Hn]. destruct (io_kind e) eqn:Ek; simpl; unfold files, Fs_view; auto.
    rewrite delete_id; auto.
  - intros p d. apply wp_syscall; [done|]. intros d' Hf. unfold wp, files, Fs_view in *. destruct (bool_decide _); [|done].
    split; [done|]. intros q Hq. unfold children in Hq. apply list_elem_of_filter in Hq as [Hq _]. by apply parent_child.
  - intros p d. apply wp_syscall; [done|]. intros d' Hf. unfold wp, files, Fs_view in *. by case_match.
  - intros p d. apply wp_syscall; [done|]. intros d' Hf. unfold wp, files, Fs_view in *. rewrite <- Hf.
    destruct (fs_files d' !! p) eqn:Ep; [done|]. destruct (bool_decide _); simpl; auto.
  - intros p c d. apply wp_syscall; [by intros d' Hf q _; unfold files, Fs_view; rewrite Hf|].
    intros d' Hf. unfold wp, files, Fs_view in *.
    destruct (bool_decide _); [by simpl; rewrite Hf|]. destruct (negb _); [by simpl; rewrite Hf|].
    pose proof (next_fault_files d') as Hn.
    destruct (next_fault d') as [[f|] d2]; simpl in *; rewrite Hn, Hf; [|done].
    intros q Hq. by rewrite lookup_insert_ne.
  - intros p d Hp. simpl in Hp. by apply bool_decide_eq_true in Hp.
Qed.

Lemma placement_choice_witness :
  let i := from_array16 (replicate 16 Byte.xab) in
  let p := new_placement [str "r"] in
  let d := mkFs ∅ {[ [str "r"] ]} ∅ [] in
  1 <= (choose_depth p i d ∅).1 <= 16 /\ (choose_depth p i d ∅).1 = 1.
Proof.
  intros i p d. split; [|vm_compute; reflexivity].
  apply (placement_choice p i d ∅). apply from_array16_wf. reflexivity.
Defined.
