(* ===== verification/Fjall.v ===== *)
(** The fjall metadata backend (metastore/stores/fjall.rs and
    stores/fjall/tree.rs): [FjallStore], [FjallTransaction] and [FjallTree]
    over the third-party [fjall] database, which is a parameter.

    [Fjall] has the calls the backend makes and [FjallLaws] what the backend
    relies on: point reads and ordered range reads of the committed pairs, a
    write transaction whose writes overlay them and are applied together by
    its commit.  Every call may fail.  The backend is proved to implement the
    [Store] interface; [MemFjall] is a concrete database, with a list of
    outcomes that lets any call fail. *)

From S2P Require Import Prelude Bytes Externals BlockIds Codec Records StoreHeader MetaStore Disk.
From Stdlib Require Import Strings.Byte.
Local Open Scope Z_scope.
#[local] Set Warnings "-clear-no-such-hyp".

(* ------------------------------------------------------------------ *)
(** * The third-party database *)

Inductive PersistMode : Type := ModeBuffer | ModeSyncAll.

(** [SingleWriterTxDatabase] ([DB]), [SingleWriterTxKeyspace] (named) and
    [SingleWriterWriteTx] ([WT]). *)
Class Fjall (DB WT : Type) := {
  fj_keyspace : bytes -> M DB unit unit;
  fj_keyspace_exists : bytes -> DB -> bool;
  fj_list_keyspace_names : DB -> list bytes;
  fj_delete_keyspace : bytes -> M DB unit unit;
  fj_persist : PersistMode -> M DB unit unit;
  fj_insert : bytes -> bytes -> bytes -> M DB unit unit;
  fj_remove : bytes -> bytes -> M DB unit unit;
  fj_contains_key : bytes -> bytes -> M DB unit bool;
  fj_get : bytes -> bytes -> M DB unit (option bytes);
  fj_len : bytes -> M DB unit Z;
  (** [read_tx().range(from..).next()], decoded *)
  fj_range_next : bytes -> bytes -> M DB unit (option (bytes * bytes));
  (** [read_tx().range(..below).next_back()], decoded; [None] is no bound *)
  fj_range_prev : bytes -> option bytes -> M DB unit (option (bytes * bytes));
  fj_write_tx : DB -> WT;
  fj_tx_get : bytes -> bytes -> WT -> M DB unit (option bytes);
  fj_tx_insert : bytes -> bytes -> bytes -> WT -> WT;
  fj_tx_remove : bytes -> bytes -> WT -> WT;
  fj_tx_commit : WT -> M DB unit unit;
  fj_tx_rollback : WT -> DB -> DB
}.

Class FjallView (DB WT : Type) := {
  fkv : DB -> kvmap;
  wt_apply : WT -> kvmap -> kvmap
}.

(** A key at or above [from] of keyspace [ks], and the least such key. *)
Definition least_from (m : kvmap) (ks from k : bytes) : Prop :=
  is_Some (m !! (ks, k)) /\ bytes_ltb k from = false /\
  forall k', is_Some (m !! (ks, k')) -> bytes_ltb k' from = false -> bytes_ltb k' k = false.

Class FjallLaws (DB WT : Type) `{Fjall DB WT, FjallView DB WT} : Prop := {
  fj_keyspace_spec n db : wp (fj_keyspace n) db (fun _ db' => fkv db' = fkv db);
  fj_list_keyspace_names_spec db :
    NoDup (fj_list_keyspace_names db) /\
    forall n k, is_Some (fkv db !! (n, k)) -> n ∈ fj_list_keyspace_names db;
  fj_delete_keyspace_spec n db : wp (fj_delete_keyspace n) db (fun r db' =>
    match r with
    | Ok _ => fkv db' = drop_tree (fkv db) n
    | Err _ => fkv db' = drop_tree (fkv db) n \/ fkv db' = fkv db end);
  fj_persist_spec p db : wp (fj_persist p) db (fun _ db' => fkv db' = fkv db);
  fj_insert_spec n k v db : wp (fj_insert n k v) db (fun r db' =>
    match r with
    | Ok _ => fkv db' = <[(n, k) := v]> (fkv db)
    | Err _ => fkv db' = <[(n, k) := v]> (fkv db) \/ fkv db' = fkv db end);
  fj_remove_spec n k db : wp (fj_remove n k) db (fun r db' =>
    match r with
    | Ok _ => fkv db' = delete (n, k) (fkv db)
    | Err _ => fkv db' = delete (n, k) (fkv db) \/ fkv db' = fkv db end);
  fj_contains_key_spec n k db : wp (fj_contains_key n k) db (fun r db' =>
    fkv db' = fkv db /\
    match r with Ok b => b = bool_decide (is_Some (fkv db !! (n, k))) | Err _ => True end);
  fj_get_spec n k db : wp (fj_get n k) db (fun r db' =>
    fkv db' = fkv db /\ match r with Ok v => v = fkv db !! (n, k) | Err _ => True end);
  fj_range_next_spec n from db : wp (fj_range_next n from) db (fun r db' =>
    fkv db' = fkv db /\
    match r with
    | Ok (Some (k, v)) => least_from (fkv db) n from k /\ fkv db !! (n, k) = Some v
    | Ok None => forall k, ~ least_from (fkv db) n from k
    | Err _ => True
    end);
  fj_range_prev_spec n c db : wp (fj_range_prev n c) db (fun r db' =>
    fkv db' = fkv db /\
    match r with
    | Ok (Some (k, v)) => prev_key (fkv db) n c k /\ fkv db !! (n, k) = Some v
    | Ok None => forall k, ~ prev_key (fkv db) n c k
    | Err _ => True
    end);
  fj_len_spec n db : wp (fj_len n) db (fun r db' =>
    fkv db' = fkv db /\ match r with Ok k => k = Z.of_nat (tree_size (fkv db) n) | Err _ => True end);
  fj_write_tx_spec db m : wt_apply (fj_write_tx db) m = m;
  fj_tx_get_spec n k wt db : wp (fj_tx_get n k wt) db (fun r db' =>
    fkv db' = fkv db /\
    match r with Ok v => v = wt_apply wt (fkv db) !! (n, k) | Err _ => True end);
  fj_tx_insert_spec n k v wt m : wt_apply (fj_tx_insert n k v wt) m = <[(n, k) := v]> (wt_apply wt m);
  fj_tx_remove_spec n k wt m : wt_apply (fj_tx_remove n k wt) m = delete (n, k) (wt_apply wt m);
  fj_tx_commit_spec wt db : wp (fj_tx_commit wt) db (fun r db' =>
    match r with
    | Ok _ => fkv db' = wt_apply wt (fkv db)
    | Err _ => fkv db' = wt_apply wt (fkv db) \/ fkv db' = fkv db end);
  fj_tx_rollback_spec wt db : fkv (fj_tx_rollback wt db) = fkv db
}.

(* ------------------------------------------------------------------ *)
(** * The backend *)

Definition DEFAULT_INLINED_METADATA_SIZE : Z := 1.

(** [TxDb] and [FjallStore], with the names of the cached keyspace handles. *)
Record FjallStore (DB : Type) : Type := mkFjallStore {
  fst_db : DB;
  fst_durability : PersistMode;
  fst_inlined_metadata_size : Z;
  fst_partition_cache : gset bytes
}.
Arguments mkFjallStore {DB}.
Arguments fst_db {DB}.
Arguments fst_durability {DB}.
Arguments fst_inlined_metadata_size {DB}.
Arguments fst_partition_cache {DB}.

Record FjallTransaction (DB WT : Type) : Type := mkFjallTransaction {
  ftx_tx : option WT;
  ftx_store : FjallStore DB
}.
Arguments mkFjallTransaction {DB WT}.
Arguments ftx_tx {DB WT}.
Arguments ftx_store {DB WT}.

Inductive AckPersist : Type := Contract | Recoverable.

Definition ack_persist_for (name : bytes) : AckPersist :=
  if bool_decide (name = MULTIPART_PARTS_TREE) || bool_decide (name = UPLOADS_TREE)
  then Recoverable else Contract.

Section Backend.
Context {DB WT : Type} `{Fjall DB WT}.
Abbreviation SM := (M (FjallStore DB) MetaError).
Abbreviation TM := (M (FjallTransaction DB WT) MetaError).

Definition with_db (s : FjallStore DB) (db : DB) : FjallStore DB :=
  mkFjallStore db (fst_durability s) (fst_inlined_metadata_size s) (fst_partition_cache s).
Definition with_cache (s : FjallStore DB) (c : gset bytes) : FjallStore DB :=
  mkFjallStore (fst_db s) (fst_durability s) (fst_inlined_metadata_size s) c.

(** A database call, with its error reported as [e]. *)
Definition db_call {A} (e : MetaError) (m : M DB unit A) : SM A := fun s =>
  let '(r, db') := m (fst_db s) in (map_err (fun _ => e) r, with_db s db').

Definition db_error : MetaError := OtherDBError "fjall".

(** [FjallStore::new], once the database is open. *)
Definition new_store (db : DB) (inlined_metadata_size : option Z) (durability : option Durability) :
    FjallStore DB :=
  mkFjallStore db
    (match match durability with Some d => d | None => Fsync end with
     | Buffer => ModeBuffer | Fsync => ModeSyncAll end)
    (match inlined_metadata_size with Some n => n | None => DEFAULT_INLINED_METADATA_SIZE end) ∅.

Definition persist : SM unit := fun s =>
  db_call (PersistError "fjall") (fj_persist (fst_durability s)) s.

Definition commit_persist (wt : WT) : SM unit :=
  _ ← db_call (TransactionError "fjall") (fj_tx_commit wt);
  persist.

Definition get_partition (name : bytes) : SM bytes := fun s =>
  if decide (name ∈ fst_partition_cache s) then (Ok name, s)
  else
    match db_call db_error (fj_keyspace name) s with
    | (Ok _, s') => (Ok name, with_cache s' ({[name]} ∪ fst_partition_cache s'))
    | (Err e, s') => (Err e, s')
    end.

Definition fjall_tree_delete (name : bytes) : SM unit :=
  partition ← get_partition name;
  M_run (fun s => db_call db_error (fj_delete_keyspace partition)
                    (with_cache s (fst_partition_cache s ∖ {[name]}))).

Definition count_keys (name : bytes) : SM Z :=
  partition ← get_partition name;
  db_call db_error (fj_len partition).

(** [FjallTree::insert] and [FjallTree::remove]. *)
Definition fjall_insert (t key value : bytes) : SM unit :=
  _ ← db_call db_error (fj_insert t key value);
  match ack_persist_for t with Contract => persist | Recoverable => mret tt end.

Definition fjall_remove (t key : bytes) : SM bool :=
  existed ← db_call db_error (fj_contains_key t key);
  _ ← db_call db_error (fj_remove t key);
  _ ← match ack_persist_for t with Contract => persist | Recoverable => mret tt end;
  mret existed.

(** One step of [iter_kv]: the first item of the range above the cursor. *)
Definition iter_step (t : bytes) (cursor : option bytes) : SM (option (bytes * bytes)) :=
  let from := match cursor with Some k => k ++ [Byte.x00] | None => [] end in
  db_call db_error (fj_range_next t from).

(** One step of [iter_kv_backward]: the last item of the range below the
    cursor. *)
Definition iter_step_backward (t : bytes) (cursor : option bytes) : SM (option (bytes * bytes)) :=
  db_call db_error (fj_range_prev t cursor).

Definition fjall_begin (s : FjallStore DB) : FjallTransaction DB WT :=
  mkFjallTransaction (Some (fj_write_tx (fst_db s))) s.

(** A call on the transaction's store. *)
Definition on_store {A} (m : SM A) : TM A := fun t =>
  let '(r, s') := m (ftx_store t) in (r, mkFjallTransaction (ftx_tx t) s').

Definition rolled_back {A} : result MetaError A :=
  Err (TransactionError "Transaction already rolled back").

Definition fjall_tx_get (name key : bytes) : TM (option bytes) :=
  partition ← on_store (get_partition name);
  M_run (fun t => match ftx_tx t with
           | Some wt => on_store (db_call db_error (fj_tx_get partition key wt)) t
           | None => (rolled_back, t)
           end).

Definition fjall_tx_insert (name key data : bytes) : TM unit :=
  partition ← on_store (get_partition name);
  M_run (fun t => match ftx_tx t with
           | Some wt => (Ok tt, mkFjallTransaction (Some (fj_tx_insert partition key data wt)) (ftx_store t))
           | None => (rolled_back, t)
           end).

Definition fjall_tx_remove (name key : bytes) : TM unit :=
  partition ← on_store (get_partition name);
  M_run (fun t => match ftx_tx t with
           | Some wt => (Ok tt, mkFjallTransaction (Some (fj_tx_remove partition key wt)) (ftx_store t))
           | None => (rolled_back, t)
           end).

Definition fjall_commit (t : FjallTransaction DB WT) : result MetaError unit * FjallStore DB :=
  match ftx_tx t with
  | Some wt => commit_persist wt (ftx_store t)
  | None => (rolled_back, ftx_store t)
  end.

Definition fjall_rollback (t : FjallTransaction DB WT) : FjallStore DB :=
  match ftx_tx t with
  | Some wt => with_db (ftx_store t) (fj_tx_rollback wt (fst_db (ftx_store t)))
  | None => ftx_store t
  end.

#[global] Instance Fjall_store : Store (FjallStore DB) (FjallTransaction DB WT) := {|
  tree_open := get_partition;
  tree_exists n := fun s => (Ok (fj_keyspace_exists n (fst_db s)), s);
  list_trees := fun s => (Ok (fj_list_keyspace_names (fst_db s)), s);
  tree_delete := fjall_tree_delete;
  num_keys_of := count_keys;
  tree_insert := fjall_insert;
  tree_remove := fjall_remove;
  tree_contains_key t k := db_call KeyNotFound (fj_contains_key t k);
  tree_get t k := db_call db_error (fj_get t k);
  tree_len t := db_call db_error (fj_len t);
  tree_next := iter_step;
  tree_prev := iter_step_backward;
  begin_transaction := fjall_begin;
  tx_get := fjall_tx_get;
  tx_insert := fjall_tx_insert;
  tx_remove := fjall_tx_remove;
  tx_commit := fjall_commit;
  tx_rollback := fjall_rollback
|}.
End Backend.

(* ------------------------------------------------------------------ *)
(** * The backend implements the store interface *)

Section BackendLaws.
Context {DB WT : Type} `{FjallLaws DB WT}.

#[global] Instance Fjall_view : StoreView (FjallStore DB) (FjallTransaction DB WT) := {|
  kv s := fkv (fst_db s);
  txkv t := match ftx_tx t with
            | Some wt => wt_apply wt (fkv (fst_db (ftx_store t)))
            | None => fkv (fst_db (ftx_store t))
            end;
  txbase t := fkv (fst_db (ftx_store t))
|}.

Lemma wp_db_call {A} e (m : M DB unit A) (s : FjallStore DB) Q :
  wp m (fst_db s) (fun r db' => Q (map_err (fun _ => e) r) (with_db s db')) -> wp (db_call e m) s Q.
Proof. unfold wp, db_call. by destruct (m (fst_db s)). Qed.

Lemma wp_on_store {A} (m : M (FjallStore DB) MetaError A) (t : FjallTransaction DB WT) Q :
  wp m (ftx_store t) (fun r s' => Q r (mkFjallTransaction (ftx_tx t) s')) -> wp (on_store m) t Q.
Proof. unfold wp, on_store. by destruct (m (ftx_store t)). Qed.

Lemma get_partition_spec n (s : FjallStore DB) :
  wp (get_partition n) s (fun r s' =>
    fkv (fst_db s') = fkv (fst_db s) /\ match r with Ok t => t = n | Err _ => True end).
Proof.
  unfold get_partition, wp. case_decide; [done|].
  pose proof (wp_db_call db_error (fj_keyspace n) s
    (fun _ s' => fkv (fst_db s') = fkv (fst_db s))) as Hw.
  unfold wp in Hw at 2. destruct (db_call db_error (fj_keyspace n) s) as [[u|e] s']; simpl in *.
  - split; [|done]. apply Hw. eapply wp_mono; [apply fj_keyspace_spec|]. done.
  - split; [|done]. apply Hw. eapply wp_mono; [apply fj_keyspace_spec|]. done.
Qed.

Lemma persist_spec (s : FjallStore DB) :
  wp persist s (fun _ s' => fkv (fst_db s') = fkv (fst_db s)).
Proof.
  apply (wp_db_call (PersistError "fjall") (fj_persist (fst_durability s)) s
    (fun _ s' => fkv (fst_db s') = fkv (fst_db s))).
  eapply wp_mono; [apply fj_persist_spec|]. done.
Qed.

Lemma ack_spec t (s : FjallStore DB) :
  wp (match ack_persist_for t with Contract => persist | Recoverable => mret tt end) s
     (fun _ s' => fkv (fst_db s') = fkv (fst_db s)).
Proof. destruct (ack_persist_for t); [apply persist_spec|by apply wp_ret]. Qed.

Lemma fjall_tx_spec {A} (name : bytes) (f : bytes -> M (FjallTransaction DB WT) MetaError A)
    (t : FjallTransaction DB WT) Q :
  (forall e s', fkv (fst_db s') = fkv (fst_db (ftx_store t)) ->
     Q (Err e) (mkFjallTransaction (ftx_tx t) s')) ->
  (forall s', fkv (fst_db s') = fkv (fst_db (ftx_store t)) ->
     wp (f name) (mkFjallTransaction (ftx_tx t) s') Q) ->
  wp (partition ← on_store (get_partition name); f partition) t Q.
Proof.
  intros He Hf. apply wp_bind, wp_on_store. eapply wp_mono; [apply get_partition_spec|].
  intros [p|e] s' [Hk Hp]; [subst p; auto|auto].
Qed.

Lemma cursor_least m t c k :
  least_from m t (match c with Some k => k ++ [Byte.x00] | None => [] end) k <-> next_key m t c k.
Proof.
  unfold least_from, next_key. destruct c as [c|]; simpl above.
  - setoid_rewrite bytes_ltb_snoc_zero. setoid_rewrite negb_false_iff. done.
  - assert (forall k, bytes_ltb k [] = false) as Hnil by (by intros []).
    split; intros (? & _ & Hmin); split_and!; auto.
Qed.

#[global] Instance Fjall_store_laws : StoreLaws (FjallStore DB) (FjallTransaction DB WT).
Proof.
  constructor.
  - intros n s. apply get_partition_spec.
  - done.
  - intros s. split; [done|]. apply fj_list_keyspace_names_spec.
  - intros n s. simpl. apply wp_bind. eapply wp_mono; [apply get_partition_spec|].
    intros [p|e] s' [Hk Hp]; [|by right]. subst p. unfold M_run, wp. 
    pose proof (wp_db_call db_error (fj_delete_keyspace n)
      (with_cache s' (fst_partition_cache s' ∖ {[n]}))) as Hw. unfold wp in Hw at 2.
    apply Hw. eapply wp_mono; [apply fj_delete_keyspace_spec|]. simpl. intros [u|u] db'; simpl; by rewrite Hk.
  - intros t k v s. apply wp_bind, wp_db_call. eapply wp_mono; [apply fj_insert_spec|].
    intros [u|u] db' Hk; simpl in *; [|done]. eapply wp_mono; [apply ack_spec|].
    intros [u'|e] s' Hs; simpl in *; rewrite Hs; auto.
  - intros t k s. apply wp_bind, wp_db_call. eapply wp_mono; [apply fj_contains_key_spec|].
    intros [b|u] db' [Hk Hb]; simpl in *; [|by right].
    apply wp_bind, wp_db_call. eapply wp_mono; [apply fj_remove_spec|].
    intros [u|u] db2 Hk2; simpl in *; rewrite Hk in Hk2; [|done].
    apply wp_bind. eapply wp_mono; [apply ack_spec|].
    intros [u'|e] s' Hs; simpl in *; [apply wp_ret|left]; by rewrite Hs, Hk2.
  - intros t k s. apply wp_db_call. eapply wp_mono; [apply fj_contains_key_spec|]. by intros [].
  - intros t k s. apply wp_db_call. eapply wp_mono; [apply fj_get_spec|]. by intros [].
  - intros t c s. apply wp_db_call. eapply wp_mono; [apply fj_range_next_spec|].
    intros [[[k v]|]|u] db' [Hk Hr]; simpl in *; split; try done.
    + rewrite <- cursor_least. done.
    + intros k. rewrite <- cursor_least. apply Hr.
  - intros t c s. apply wp_db_call. eapply wp_mono; [apply fj_range_prev_spec|].
    by intros [[[k v]|]|u] db' [Hk Hr].
  - intros t s. apply wp_db_call. eapply wp_mono; [apply fj_len_spec|]. by intros [].
  - intros s. simpl. by rewrite fj_write_tx_spec.
  - intros n k t. apply fjall_tx_spec.
    + intros e s' Hk. simpl. rewrite Hk. done.
    + intros s' Hk. unfold M_run, wp. destruct t as [[wt|] s]; simpl in *; [|by rewrite Hk].
      set (t' := mkFjallTransaction (Some wt) s').
      enough (wp (on_store (db_call db_error (fj_tx_get n k wt))) t' (fun r t2 =>
        txkv t2 = wt_apply wt (fkv (fst_db s)) /\ txbase t2 = fkv (fst_db s) /\
        match r with Ok v => v = wt_apply wt (fkv (fst_db s)) !! (n, k) | Err _ => True end)) as Hw
        by exact Hw.
      apply wp_on_store, wp_db_call. eapply wp_mono; [apply fj_tx_get_spec|].
      intros [v|u] db' [Hdb Hv]; simpl in *; rewrite Hdb, Hk; by rewrite ?Hk in Hv.
  - intros n k v t. apply fjall_tx_spec.
    + intros e s' Hk. simpl. by rewrite Hk.
    + intros s' Hk. unfold M_run, wp. destruct t as [[wt|] s]; simpl in *; rewrite Hk; [|done].
      by rewrite fj_tx_insert_spec.
  - intros n k t. apply fjall_tx_spec.
    + intros e s' Hk. simpl. by rewrite Hk.
    + intros s' Hk. unfold M_run, wp. destruct t as [[wt|] s]; simpl in *; rewrite Hk; [|done].
      by rewrite fj_tx_remove_spec.
  - intros [[wt|] s]; simpl; [|by right]. unfold fjall_commit. simpl.
    enough (wp (commit_persist wt) s (fun r s' => match r with
      | Ok _ => fkv (fst_db s') = wt_apply wt (fkv (fst_db s))
      | Err _ => fkv (fst_db s') = wt_apply wt (fkv (fst_db s)) \/ fkv (fst_db s') = fkv (fst_db s)
      end)) as Hw by exact Hw.
    apply wp_bind, wp_db_call. eapply wp_mono; [apply fj_tx_commit_spec|].
    intros [u|u] db' Hk; simpl in *; [|done]. eapply wp_mono; [apply persist_spec|].
    intros [u'|e] s' Hs; simpl in *; rewrite Hs; auto.
  - intros [[wt|] s]; simpl; [|done]. apply fj_tx_rollback_spec.
Qed.
End BackendLaws.

(* ------------------------------------------------------------------ *)
(** * A concrete database *)

Module MemFjall.

Record MemDB : Type := mkMemDB {
  mdb_kv : kvmap;
  mdb_names : gset bytes;
  (** [true]: the next call fails *)
  mdb_faults : list bool
}.

(** The writes of a transaction, newest first; [None] is a removal. *)
Abbreviation MemTx := (list ((bytes * bytes) * option bytes)).

Definition mem_write (w : (bytes * bytes) * option bytes) (m : kvmap) : kvmap :=
  match w.2 with Some v => <[w.1 := v]> m | None => delete w.1 m end.

Definition mem_apply (wt : MemTx) (m : kvmap) : kvmap := foldr mem_write m wt.

(** The keyspaces of the database: those created, and those written to. *)
Definition mem_keyspaces (db : MemDB) : gset bytes :=
  mdb_names db ∪ set_map fst (dom (mdb_kv db)).

Definition set_kv (m : kvmap) (db : MemDB) : MemDB := mkMemDB m (mdb_names db) (mdb_faults db).

(** A call that fails when the list of outcomes says so. *)
Definition call {A} (f : MemDB -> A * MemDB) : M MemDB unit A := fun db =>
  match mdb_faults db with
  | true :: fs => (Err tt, mkMemDB (mdb_kv db) (mdb_names db) fs)
  | false :: fs => let '(a, db') := f (mkMemDB (mdb_kv db) (mdb_names db) fs) in (Ok a, db')
  | [] => let '(a, db') := f db in (Ok a, db')
  end.

(** The better of two candidate pairs, by key. *)
Definition best_pair (lt : bytes -> bytes -> bool) (a b : option (bytes * bytes)) : option (bytes * bytes) :=
  match a, b with
  | Some x, Some y => if lt x.1 y.1 then Some x else Some y
  | Some x, None => Some x
  | None, b => b
  end.

Definition candidate (ks : bytes) (keep : bytes -> bool) (p : (bytes * bytes) * bytes) : option (bytes * bytes) :=
  if bool_decide (p.1.1 = ks) && keep p.1.2 then Some (p.1.2, p.2) else None.

Definition scan (lt : bytes -> bytes -> bool) (keep : bytes -> bool) (ks : bytes) (l : list ((bytes * bytes) * bytes)) :
    option (bytes * bytes) :=
  foldr (fun p acc => best_pair lt (candidate ks keep p) acc) None l.

Definition mem_range_next (ks from : bytes) (m : kvmap) : option (bytes * bytes) :=
  scan bytes_ltb (fun k => negb (bytes_ltb k from)) ks (map_to_list m).

Definition mem_range_prev (ks : bytes) (c : option bytes) (m : kvmap) : option (bytes * bytes) :=
  scan (fun a b => bytes_ltb b a) (below c) ks (map_to_list m).

#[global] Instance mem_fjall : Fjall MemDB MemTx := {|
  fj_keyspace n := call (fun db => (tt, mkMemDB (mdb_kv db) ({[n]} ∪ mdb_names db) (mdb_faults db)));
  fj_keyspace_exists n db := bool_decide (n ∈ mem_keyspaces db);
  fj_list_keyspace_names db := elements (mem_keyspaces db);
  fj_delete_keyspace n := call (fun db =>
    (tt, mkMemDB (drop_tree (mdb_kv db) n) (mdb_names db ∖ {[n]}) (mdb_faults db)));
  fj_persist _ := call (fun db => (tt, db));
  fj_insert n k v := call (fun db => (tt, set_kv (<[(n, k) := v]> (mdb_kv db)) db));
  fj_remove n k := call (fun db => (tt, set_kv (delete (n, k) (mdb_kv db)) db));
  fj_contains_key n k := call (fun db => (bool_decide (is_Some (mdb_kv db !! (n, k))), db));
  fj_get n k := call (fun db => (mdb_kv db !! (n, k), db));
  fj_len n := call (fun db => (Z.of_nat (tree_size (mdb_kv db) n), db));
  fj_range_next n from := call (fun db => (mem_range_next n from (mdb_kv db), db));
  fj_range_prev n c := call (fun db => (mem_range_prev n c (mdb_kv db), db));
  fj_write_tx _ := [];
  fj_tx_get n k wt := call (fun db => (mem_apply wt (mdb_kv db) !! (n, k), db));
  fj_tx_insert n k v wt := ((n, k), Some v) :: wt;
  fj_tx_remove n k wt := ((n, k), None) :: wt;
  fj_tx_commit wt := call (fun db => (tt, set_kv (mem_apply wt (mdb_kv db)) db));
  fj_tx_rollback _ db := db
|}.

#[global] Instance mem_view : FjallView MemDB MemTx := {| fkv := mdb_kv; wt_apply := mem_apply |}.

Lemma wp_call {A} (f : MemDB -> A * MemDB) db Q :
  (forall db', mdb_kv db' = mdb_kv db -> Q (Err tt) db') ->
  (forall db', mdb_kv db' = mdb_kv db -> Q (Ok (f db').1) (f db').2) -> wp (call f) db Q.
Proof.
  intros He Hf. unfold wp, call. destruct (mdb_faults db) as [|[] fs]; [|by apply He|].
  - specialize (Hf db eq_refl). by destruct (f db).
  - specialize (Hf (mkMemDB (mdb_kv db) (mdb_names db) fs) eq_refl).
    by destruct (f (mkMemDB (mdb_kv db) (mdb_names db) fs)).
Qed.

Section Scan.
Context (lt : bytes -> bytes -> bool) (keep : bytes -> bool) (ks : bytes).
Context (lt_irrefl : forall a, lt a a = false)
  (lt_trans : forall a b c, lt a b = true -> lt b c = true -> lt a c = true).

(** The scan finds the best candidate of a list. *)
Lemma scan_spec l :
  match scan lt keep ks l with
  | None => forall p, p ∈ l -> candidate ks keep p = None
  | Some kv => (exists p, p ∈ l /\ candidate ks keep p = Some kv) /\
      forall p kv', p ∈ l -> candidate ks keep p = Some kv' -> lt kv'.1 kv.1 = false
  end.
Proof.
  unfold scan. induction l as [|p l IH]; simpl; [by intros p ?%elem_of_nil|].
  destruct (foldr _ None l) as [y|].
  - destruct IH as [(q & Hq & Eq) Hmin]. destruct (candidate ks keep p) as [x|] eqn:Ex; simpl.
    + destruct (lt x.1 y.1) eqn:Exy.
      * split; [exists p; split; [by apply elem_of_cons; left|done]|]. intros p' kv' [->|Hp]%elem_of_cons Ek.
        { rewrite Ex in Ek. injection Ek as <-. apply lt_irrefl. }
        specialize (Hmin _ _ Hp Ek). destruct (lt kv'.1 x.1) eqn:E; [|done].
        by rewrite (lt_trans _ _ _ E Exy) in Hmin.
      * split; [exists q; split; [by apply elem_of_cons; right|done]|]. intros p' kv' [->|Hp]%elem_of_cons Ek; [|by eauto].
        rewrite Ex in Ek. by injection Ek as <-.
    + split; [exists q; split; [by apply elem_of_cons; right|done]|]. intros p' kv' [->|Hp]%elem_of_cons Ek; [congruence|eauto].
  - destruct (candidate ks keep p) as [x|] eqn:Ex; simpl.
    + split; [exists p; split; [by apply elem_of_cons; left|done]|]. intros p' kv' [->|Hp]%elem_of_cons Ek.
      * rewrite Ex in Ek. injection Ek as <-. apply lt_irrefl.
      * rewrite IH in Ek by done. done.
    + intros p' [->|Hp]%elem_of_cons; auto.
Qed.

Lemma candidate_spec p kv :
  candidate ks keep p = Some kv <-> p = ((ks, kv.1), kv.2) /\ keep kv.1 = true.
Proof.
  destruct p as [[t k] v], kv as [k' v']. unfold candidate. simpl.
  destruct (bool_decide_reflect (t = ks)) as [->|]; simpl; [|split; [done|]; by intros [[= ? ? ?] _]].
  destruct (keep k) eqn:E; simpl.
  - split; [by intros [= <- <-]|]. by intros [[= -> ->] _].
  - split; [done|]. intros [[= -> ->] Hf]. congruence.
Qed.

(** What the scan of a database answers. *)
Lemma scan_map_spec m :
  match scan lt keep ks (map_to_list m) with
  | Some (k, v) => (is_Some (m !! (ks, k)) /\ keep k = true /\
      forall k', is_Some (m !! (ks, k')) -> keep k' = true -> lt k' k = false) /\ m !! (ks, k) = Some v
  | None => forall k, is_Some (m !! (ks, k)) -> keep k = false
  end.
Proof.
  pose proof (scan_spec (map_to_list m)) as Hs. destruct (scan _ _ _ _) as [[k v]|].
  - destruct Hs as [(p & Hp & Ep) Hmin]. apply candidate_spec in Ep as [-> Hf]. simpl in *.
    apply elem_of_map_to_list in Hp. split; [|done]. split_and!; [by eexists|done|].
    intros k' [v' Hk'] Hf'. apply (Hmin ((ks, k'), v') (k', v')); [by apply elem_of_map_to_list|].
    by apply candidate_spec.
  - intros k [v Hk]. destruct (keep k) eqn:E; [|done]. specialize (Hs ((ks, k), v)).
    rewrite (proj2 (candidate_spec _ (k, v))) in Hs by done.
    by discriminate Hs; apply elem_of_map_to_list.
Qed.
End Scan.

Lemma mem_range_next_spec ks from m :
  match mem_range_next ks from m with
  | Some (k, v) => least_from m ks from k /\ m !! (ks, k) = Some v
  | None => forall k, ~ least_from m ks from k
  end.
Proof.
  unfold mem_range_next.
  pose proof (scan_map_spec bytes_ltb (fun k => negb (bytes_ltb k from)) ks bytes_ltb_irrefl bytes_ltb_trans m) as Hs.
  destruct (scan _ _ _ _) as [[k v]|].
  - destruct Hs as [(Hk & Hf & Hmin) Hv]. split; [|done]. rewrite negb_true_iff in Hf. split_and!; [done|done|].
    intros k' Hk' Hf'. apply Hmin; [done|]. by rewrite Hf'.
  - intros k (Hk & Hf & _). specialize (Hs k Hk). cbn in Hs. by rewrite Hf in Hs.
Qed.

Lemma mem_range_prev_spec ks c m :
  match mem_range_prev ks c m with
  | Some (k, v) => prev_key m ks c k /\ m !! (ks, k) = Some v
  | None => forall k, ~ prev_key m ks c k
  end.
Proof.
  unfold mem_range_prev.
  pose proof (scan_map_spec (fun a b => bytes_ltb b a) (below c) ks bytes_ltb_irrefl
    (fun x y z Hxy Hyz => bytes_ltb_trans z y x Hyz Hxy) m) as Hs.
  destruct (scan _ _ _ _) as [[k v]|]; [done|]. intros k (Hk & Hf & _). specialize (Hs k Hk). congruence.
Qed.

#[global] Instance mem_laws : FjallLaws MemDB MemTx.
Proof.
  constructor; intros.
  - by apply wp_call.
  - simpl. split; [apply NoDup_elements|]. intros n k Hk. apply elem_of_elements, elem_of_union_r.
    apply elem_of_map. exists (n, k). split; [done|]. by apply elem_of_dom.
  - apply wp_call; simpl; intros db' ->; auto.
  - by apply wp_call.
  - apply wp_call; simpl; intros db' ->; auto.
  - apply wp_call; simpl; intros db' ->; auto.
  - apply wp_call; simpl; intros db' ->; auto.
  - apply wp_call; simpl; intros db' ->; auto.
  - apply wp_call; simpl; intros db' ->; split; try done. apply mem_range_next_spec.
  - apply wp_call; simpl; intros db' ->; split; try done. apply mem_range_prev_spec.
  - apply wp_call; simpl; intros db' ->; auto.
  - done.
  - apply wp_call; simpl; intros db' ->; auto.
  - done.
  - done.
  - apply wp_call; simpl; intros db' ->; auto.
  - done.
Qed.

(** An empty store over it. *)
Definition empty_store : FjallStore MemDB := mkFjallStore (mkMemDB ∅ ∅ []) ModeBuffer 1 ∅.
End MemFjall.
