(* ===== verification/MetaOps.v ===== *)
(** [MetaStore] (metastore/meta_store/ops.rs, meta_store/block_tree.rs) and
    the header operations (metastore/store_header/ops.rs), over any store that
    implements the interface: buckets, object records, usage counters, block
    records, and the header's read, write, adoption and version raise. *)

From S2P Require Import Prelude Bytes Externals BlockIds Codec Records StoreHeader MetaStore Disk.
From Stdlib Require Import Strings.Byte.
Local Open Scope Z_scope.
#[local] Set Warnings "-clear-no-such-hyp".

(* ------------------------------------------------------------------ *)
(** * Transactions as blocks *)

Section Transact.
Context {S T E : Type} `{Store S T}.

(** [let mut tx = begin(); match body(&mut tx) { .. }]: commit what [keep]
    says to commit, roll back the rest and every error.  [fail] is the
    conversion of a commit's error ([e.into()]). *)
Definition transact_when {A} (fail : MetaError -> E) (keep : A -> bool) (body : M T E A) : M S E A :=
  fun s =>
    match body (begin_transaction s) with
    | (Ok a, t) =>
        if keep a then
          match tx_commit t with
          | (Ok _, s') => (Ok a, s')
          | (Err e, s') => (Err (fail e), s')
          end
        else (Ok a, tx_rollback t)
    | (Err e, t) => (Err e, tx_rollback t)
    end.

Definition transact {A} (fail : MetaError -> E) (body : M T E A) : M S E A :=
  transact_when fail (fun _ => true) body.

Context `{!StoreView S T, !StoreLaws S T}.

(** Whatever the body establishes of its view holds of the store if it
    commits; a commit that fails has happened or not; a rollback has not. *)
Lemma wp_transact {A} (fail : MetaError -> E) (keep : A -> bool) (body : M T E A) (s : S) (P : A -> kvmap -> Prop)
    (Q : result E A -> S -> Prop) :
  wp body (begin_transaction s) (fun r t =>
    txbase t = kv s /\ match r with Ok a => P a (txkv t) | Err e => forall s', kv s' = kv s -> Q (Err e) s' end) ->
  (forall a s', keep a = true -> P a (kv s') -> Q (Ok a) s') ->
  (forall a m s', keep a = false -> P a m -> kv s' = kv s -> Q (Ok a) s') ->
  (forall a e s', keep a = true -> P a (kv s') -> Q (Err (fail e)) s') ->
  (forall e s', kv s' = kv s -> Q (Err (fail e)) s') ->
  wp (transact_when fail keep body) s Q.
Proof.
  intros Hb Hok Hno Hlate Herr. unfold wp in *. unfold transact_when.
  destruct (body (begin_transaction s)) as [[a|e] t]; simpl in Hb; destruct Hb as [Hbase Hr].
  - destruct (keep a) eqn:Ek.
    + pose proof (tx_commit_spec t) as Hc. destruct (tx_commit t) as [[u|e] s']; simpl in *.
      * apply Hok; [done|]. by rewrite Hc.
      * destruct Hc as [Hc|Hc]; [eapply Hlate; [done|by rewrite Hc]|apply Herr; by rewrite Hc].
    + simpl. eapply Hno; [done|done|]. by rewrite tx_rollback_spec.
  - simpl. apply Hr. by rewrite tx_rollback_spec.
Qed.
End Transact.

(* ------------------------------------------------------------------ *)
(** * Walking a tree *)

Definition key_lt (a b : bytes) : Prop := bytes_ltb a b = true.
#[global] Instance key_lt_dec a b : Decision (key_lt a b).
Proof. unfold key_lt. apply _. Defined.
#[global] Instance key_lt_trans : Transitive key_lt.
Proof. intros a b c. apply bytes_ltb_trans. Qed.

Section Walk.
Context {S T : Type} `{Store S T}.

(** [tree.iter_all().map(f).collect()]: each item of the walk through [f],
    stopping at the first error of either.  [fuel] bounds the number of items;
    more fuel than the tree has keys is enough ([iter_map_spec]). *)
Fixpoint iter_map {B} (fuel : nat) (f : bytes * bytes -> result MetaError B) (t : tree)
    (cursor : option bytes) : M S MetaError (list B) :=
  match fuel with
  | O => mret []
  | Datatypes.S fuel' =>
      item ← tree_next t cursor;
      match item with
      | None => mret []
      | Some (k, v) =>
          y ← M_lift (f (k, v));
          rest ← iter_map fuel' f t (Some k);
          mret (y :: rest)
      end
  end.

Definition iter_all (fuel : nat) (t : tree) : M S MetaError (list (bytes * bytes)) :=
  iter_map fuel (fun item => Ok item) t None.

Context `{!StoreView S T, !StoreLaws S T}.

(** The keys of tree [t] above the cursor. *)
Definition keys_above (m : kvmap) (t : tree) (c : option bytes) : gset bytes :=
  set_map snd (filter (fun p => p.1 = t /\ above c p.2 = true)
                 (dom m)).

Lemma elem_of_keys_above (m : kvmap) (t : tree) (c : option bytes) (k : bytes) :
  k ∈ keys_above m t c <->
  is_Some (m !! (t, k)) /\ above c k = true.
Proof.
  unfold keys_above. rewrite elem_of_map. split.
  - intros ([t' k'] & -> & Hf). apply elem_of_filter in Hf as [[Ht Hc] Hd]. simpl in *. subst t'.
    by apply elem_of_dom in Hd.
  - intros [Hs Hc]. exists (t, k). split; [done|]. apply elem_of_filter. split; [done|].
    by apply elem_of_dom.
Qed.

(** What a completed walk returns: the pairs of the tree above the cursor, in
    key order, each exactly once. *)
Definition walk_of (m : kvmap) (t : tree) (c : option bytes) (l : list (bytes * bytes)) : Prop :=
  StronglySorted (fun a b => bytes_ltb a.1 b.1 = true) l /\
  forall k v, (k, v) ∈ l <-> m !! (t, k) = Some v /\ above c k = true.

Lemma keys_above_next m t c k :
  next_key m t c k -> (size (keys_above m t (Some k)) < size (keys_above m t c))%nat.
Proof.
  intros (Hs & Hc & Hmin). apply subset_size. split.
  - intros k' [Hs' Hk']%elem_of_keys_above. apply elem_of_keys_above. split; [done|].
    destruct c as [c|]; [|done]. simpl in *. by eapply bytes_ltb_trans.
  - intros Hsub. assert (k ∈ keys_above m t (Some k)) as Hk.
    { apply Hsub, elem_of_keys_above. done. }
    apply elem_of_keys_above in Hk as [_ Hk]. simpl in Hk. by rewrite bytes_ltb_irrefl in Hk.
Qed.

Lemma walk_step m t c k v l :
  next_key m t c k -> m !! (t, k) = Some v -> walk_of m t (Some k) l -> walk_of m t c ((k, v) :: l).
Proof.
  intros (Hs & Hc & Hmin) Hv [Hsort Hmem]. split.
  - constructor; [done|]. apply Forall_forall. intros [k' v'] [_ Hk']%Hmem. done.
  - intros k' v'. rewrite elem_of_cons, Hmem. split.
    + intros [[= -> ->]|[Hm Hk]]; [done|]. split; [done|].
      destruct c as [c|]; [|done]. simpl in *. by eapply bytes_ltb_trans.
    + intros [Hm Hk']. simpl above in *. destruct (bytes_ltb k k') eqn:E; [by right|left].
      assert (k' = k) as ->. { apply bytes_ltb_total; [|done]. by apply Hmin; [eexists|]. }
      congruence.
Qed.

Lemma walk_end m t c : (forall k, ~ next_key m t c k) -> walk_of m t c [].
Proof.
  intros Hno. split; [constructor|]. intros k v. split; [by intros ?%elem_of_nil|].
  intros [Hm Hk]. exfalso.
  assert (keys_above m t c ≢ ∅) as Hne.
  { intros E. assert (k ∈ keys_above m t c) as Hin by (apply elem_of_keys_above; eauto). set_solver. }
  destruct (minimal_exists_elem_of key_lt (keys_above m t c) Hne) as (x & Hx & Hmin).
  apply (Hno x). apply elem_of_keys_above in Hx as [Hs Hc]. split_and!; [done|done|].
  intros k' Hs' Hc'. destruct (bytes_ltb k' x) eqn:E; [|done].
  assert (k' ∈ keys_above m t c) as Hk'' by (by apply elem_of_keys_above).
  specialize (Hmin k' Hk'' E). unfold key_lt in Hmin. apply bytes_ltb_asym in Hmin. congruence.
Qed.

(** A walk with enough fuel meets the whole tree: whenever it returns without
    an error, it has mapped the pairs above the cursor in key order, each
    once, and the store is unchanged. *)
Lemma iter_map_spec {B} fuel (f : bytes * bytes -> result MetaError B) (t : tree) (c : option bytes)
    (s : S) :
  (size (keys_above (kv s) t c) < fuel)%nat ->
  wp (iter_map fuel f t c) s (fun r s' =>
    kv s' = kv s /\
    match r with
    | Ok ys => exists l, walk_of (kv s) t c l /\ Forall2 (fun x y => f x = Ok y) l ys
    | Err _ => True
    end).
Proof.
  revert c s. induction fuel as [|fuel IH]; intros c s Hf; [lia|]. cbn [iter_map].
  apply wp_bind. eapply wp_mono; [apply tree_next_spec|]. intros [[[k v]|]|e] s1 [Hk Hr]; cbn beta iota.
  - destruct Hr as [Hnext Hv]. apply wp_bind, wp_lift. destruct (f (k, v)) as [y|e] eqn:Ef; [|done].
    apply wp_bind.
    eapply wp_mono; [apply IH; rewrite Hk; pose proof (keys_above_next _ _ _ _ Hnext); lia|].
    intros [ys|e] s2 [Hk2 Hl]; cbn beta iota; [apply wp_ret|]; rewrite Hk2, Hk; [|done].
    split; [done|]. rewrite Hk in Hl. destruct Hl as (l & Hl & HF).
    exists ((k, v) :: l). split; [by eapply walk_step|by constructor].
  - apply wp_ret. split; [done|]. exists []. split; [by apply walk_end|constructor].
  - done.
Qed.

Lemma iter_all_spec fuel (t : tree) (s : S) :
  (size (keys_above (kv s) t None) < fuel)%nat ->
  wp (iter_all fuel t) s (fun r s' =>
    kv s' = kv s /\ match r with Ok l => walk_of (kv s) t None l | Err _ => True end).
Proof.
  intros Hf. eapply wp_mono; [by apply iter_map_spec|]. intros [ys|e] s' [Hk Hr]; [|done].
  split; [done|]. destruct Hr as (l & Hl & HF).
  assert (l = ys) as <-; [|done]. clear Hl. induction HF as [|x y l ys [= ->] _ IH]; [done|]. by f_equal.
Qed.
End Walk.

(* ------------------------------------------------------------------ *)
(** * [MetaStore] *)

(** [MetaStore::new]'s default, and the limit derived from it. *)
Definition META_DEFAULT_INLINED_METADATA_SIZE : Z := 1.

Definition max_inlined_data_length (inlined_metadata_size : Z) : Z :=
  if inlined_metadata_size <? minimum_inline_metadata_size then 0
  else inlined_metadata_size - minimum_inline_metadata_size.

(** [bucket_name.starts_with('_')]. *)
Definition reserved (name : bytes) : bool := starts_with (str "_") name.

Section MetaStore.
Context {S T : Type} `{Store S T}.
Abbreviation SM := (M S MetaError).

Definition bucket_exists (bucket_name : bytes) : SM bool := tree_exists bucket_name.

Definition drop_bucket (name : bytes) : SM unit :=
  buckets ← tree_open DEFAULT_BUCKET_TREE;
  _ ← tree_remove buckets name;
  usage ← tree_open DEFAULT_USAGE_TREE;
  _ ← tree_remove usage name;
  present ← bucket_exists name;
  if (present : bool) then tree_delete name else mret tt.

Definition bucket_usage (bucket : bytes) : SM (option Z) :=
  usage ← tree_open DEFAULT_USAGE_TREE;
  raw ← tree_get usage bucket;
  match raw with
  | Some raw => n ← M_lift (decode_usage raw); mret (Some n)
  | None => mret None
  end.

Definition set_bucket_usage (bucket : bytes) (n : Z) : SM unit :=
  usage ← tree_open DEFAULT_USAGE_TREE;
  tree_insert usage bucket (u64_to_le n).

Definition insert_bucket (bucket_name raw_bucket : bytes) : SM unit :=
  if reserved bucket_name then M_err (ReservedBucketName bucket_name) else
  buckets ← tree_open DEFAULT_BUCKET_TREE;
  _ ← tree_insert buckets bucket_name raw_bucket;
  _ ← tree_open bucket_name;
  set_bucket_usage bucket_name 0.

(** The claim of a free name, in its transaction: [false] is "taken". *)
Definition claim_bucket (bucket_name raw_bucket : bytes) : M T MetaError bool :=
  record ← get_bucket_record bucket_name;
  match record with
  | Some _ => mret false
  | None =>
      _ ← put_bucket_record bucket_name raw_bucket;
      _ ← reset_bucket_usage bucket_name;
      mret true
  end.

Definition insert_bucket_if_absent (bucket_name raw_bucket : bytes) : SM bool :=
  if reserved bucket_name then M_err (ReservedBucketName bucket_name) else
  claimed ← transact_when id id (claim_bucket bucket_name raw_bucket);
  if (claimed : bool) then _ ← tree_open bucket_name; mret true else mret false.

Definition list_buckets (fuel : nat) : SM (list BucketMeta) :=
  bucket ← tree_open DEFAULT_BUCKET_TREE;
  iter_map fuel (fun kv => map_err Corruption (BucketMeta_try_from kv.2)) bucket None.

Definition list_bucket_names (fuel : nat) : SM (list bytes) :=
  bucket ← tree_open DEFAULT_BUCKET_TREE;
  iter_map fuel (fun kv => if utf8_valid kv.1 then Ok kv.1
                           else Err (OtherDBError "bucket name is not valid utf-8")) bucket None.

Definition insert_meta (bucket_name key raw_obj : bytes) : SM unit :=
  bucket ← tree_open bucket_name;
  tree_insert bucket key raw_obj.

Definition get_meta (bucket_name key : bytes) : SM (option Object) :=
  bucket ← tree_open bucket_name;
  raw ← tree_get bucket key;
  match raw with
  | Some data => obj ← decoded (Object_try_from data); mret (Some obj)
  | None => mret None
  end.

Definition num_keys : SM Z := num_keys_of DEFAULT_BUCKET_TREE.

(** [BlockTree::get_block], on the handle opened with the store. *)
Definition get_block (key : bytes) : SM (option Block) :=
  raw ← tree_get DEFAULT_BLOCK_TREE key;
  match raw with
  | Some data => block ← decoded (Block_try_from data); mret (Some block)
  | None => mret None
  end.

(** [BlockTree::iter_all]. *)
Definition iter_blocks (fuel : nat) : SM (list (BlockId * Block)) :=
  iter_map fuel (fun kv =>
    i ← map_err (fun _ => OtherDBError "Malformed block key") (from_slice kv.1);
    block ← map_err Corruption (Block_try_from kv.2);
    mret (i, block)) DEFAULT_BLOCK_TREE None.
End MetaStore.

(* ------------------------------------------------------------------ *)
(** * The header in its store *)

Inductive StoreInit : Type := Create | Open.

(** A store beside the directory its sidecar copy lives in. *)
Record Home (S D : Type) : Type := mkHome { h_store : S; h_disk : D }.
Arguments mkHome {S D}.
Arguments h_store {S D}.
Arguments h_disk {S D}.

Section HeaderOps.
Context {S T D : Type} `{Store S T, BlockDiskOps D, StdFs D}.
Abbreviation HM := (M (Home S D) MetaError).

Definition with_store {A} (m : M S MetaError A) : HM A := fun h =>
  let '(r, s') := m (h_store h) in (r, mkHome s' (h_disk h)).

(** [std::fs::read_dir(path)]: an empty or missing directory is a store to
    create. *)
Definition classify_db_dir (p : path) : HM StoreInit := fun h =>
  let '(r, d') := list_dir p (h_disk h) in
  (match r with
   | Ok [] => Ok Create
   | Ok _ => Ok Open
   | Err e => match io_kind e with
              | IoNotFound => Ok Create
              | _ => Err (OtherDBError "cannot inspect metadata store directory")
              end
   end, mkHome (h_store h) d').

Definition read_header (db_path : path) : HM (option StoreHeader) :=
  raw ← with_store (t ← tree_open STORE_HEADER_TREE; tree_get t STORE_HEADER_KEY);
  match raw with
  | Some raw => h ← M_lift (map_err (Header db_path) (from_bytes raw)); mret (Some h)
  | None => mret None
  end.

Definition write_header (h : StoreHeader) : HM unit :=
  with_store (t ← tree_open STORE_HEADER_TREE; tree_insert t STORE_HEADER_KEY (to_bytes h)).

(** Best effort: a failure is logged and dropped. *)
Definition write_sidecar (store_dir : path) (h : StoreHeader) : HM unit := fun hm =>
  let '(_, d') := fs_write (store_dir ++ [STORE_HEADER_SIDECAR]) (to_bytes h) (h_disk hm) in
  (Ok tt, mkHome (h_store hm) d').

Definition adopt_store_id (store_dir : path) (header : StoreHeader) (i : StoreId) : HM StoreHeader :=
  let adopted := with_store_id header i in
  _ ← write_header adopted;
  _ ← write_sidecar store_dir adopted;
  mret adopted.

Definition raise_version (db_path store_dir : path) (version : Z) : HM StoreHeader :=
  if negb (bool_decide (version ∈ SUPPORTED_STORE_HEADER_VERSIONS))
  then M_err (Header db_path (UnsupportedVersion version)) else
  header ← read_header db_path;
  match header with
  | None => M_err (Header db_path HeaderMissing)
  | Some header =>
      if version <=? sh_version header then mret header else
      let raised := with_version header version in
      _ ← write_header raised;
      _ ← write_sidecar store_dir raised;
      mret raised
  end.

(** [MetaStore::open_or_create].  [build] opens the database; the clock and
    the minted id of [StoreHeader::create] are arguments. *)
Definition open_or_create (now : Z) (minted : StoreId) (db_path : path) (spec : HeaderSpec)
    (build : path -> HM unit) : HM StoreHeader :=
  init ← classify_db_dir db_path;
  _ ← build db_path;
  match init with
  | Create =>
      header ← M_lift (map_err (Header db_path) (create_at minted spec now));
      _ ← write_header header;
      _ ← match parent db_path with
          | Some store_dir => write_sidecar store_dir header
          | None => mret tt
          end;
      mret header
  | Open =>
      header ← read_header db_path;
      match header with
      | Some header => mret header
      | None => M_err (Header db_path HeaderMissing)
      end
  end.
End HeaderOps.

(* ------------------------------------------------------------------ *)
(** * Specifications *)

Section Specs.
Context {S T : Type} `{StoreLaws S T}.

Lemma get_block_spec i (s : S) :
  wp (get_block (as_slice i)) s (fun r s' =>
    kv s' = kv s /\
    match r with
    | Ok (Some b) => block_at (kv s) i = Some b
    | Ok None => kv s !! block_key i = None
    | Err _ => True
    end).
Proof.
  unfold get_block. wp_call tree_get_spec; intros [Hk Hr]; [|done].
  destruct a as [raw|]; [|apply wp_ret; auto].
  apply wp_bind, wp_decoded; [|done]. intros b Hb. cbn beta iota. apply wp_ret.
  split; [done|]. by eapply block_at_raw.
Qed.

Lemma get_meta_spec bucket key (s : S) :
  wp (get_meta bucket key) s (fun r s' =>
    kv s' = kv s /\
    match r with
    | Ok (Some o) => exists raw, kv s !! (bucket, key) = Some raw /\ Object_try_from raw = Ok o
    | Ok None => kv s !! (bucket, key) = None
    | Err _ => True
    end).
Proof.
  unfold get_meta. wp_call tree_open_spec; intros [Hk Hr]; [subst a|done].
  wp_call tree_get_spec; intros [Hk2 Hr]; rewrite Hk in *; [|done].
  destruct a as [raw|]; [|by apply wp_ret].
  apply wp_bind, wp_decoded; [|done]. intros o Ho. cbn beta iota. apply wp_ret. eauto.
Qed.

Lemma claim_bucket_spec name raw (t : T) :
  wp (claim_bucket name raw) t (fun r t' =>
    txbase t' = txbase t /\
    match r with
    | Ok true => txkv t !! (DEFAULT_BUCKET_TREE, name) = None /\
        txkv t' = <[(DEFAULT_USAGE_TREE, name) := u64_to_le 0]>
                    (<[(DEFAULT_BUCKET_TREE, name) := raw]> (txkv t))
    | Ok false => is_Some (txkv t !! (DEFAULT_BUCKET_TREE, name)) /\ txkv t' = txkv t
    | Err _ => True
    end).
Proof.
  unfold claim_bucket, get_bucket_record, put_bucket_record, reset_bucket_usage.
  wp_call tx_get_spec; intros (Hk & Hb & Hr); [|done].
  destruct a as [r|]; [apply wp_ret; rewrite Hb, <- Hr, Hk; eauto|].
  wp_call tx_insert_spec; intros (Hb1 & Hk1); [|by rewrite Hb1].
  wp_call tx_insert_spec; intros (Hb2 & Hk2); [|by rewrite Hb2, Hb1].
  apply wp_ret. rewrite Hb2, Hb1, Hk2, Hk1, Hk. auto.
Qed.
End Specs.

Section HeaderSpecs.
Context {S T D : Type} `{StoreLaws S T, BlockDiskOps D, StdFs D}.

Lemma wp_with_store {A} (m : M S MetaError A) (h : Home S D) Q :
  wp m (h_store h) (fun r s' => Q r (mkHome s' (h_disk h))) -> wp (with_store m) h Q.
Proof. unfold wp, with_store. by destruct (m (h_store h)). Qed.

Lemma read_header_spec db_path old (h : Home S D) :
  kv (h_store h) !! (STORE_HEADER_TREE, STORE_HEADER_KEY) = Some (to_bytes old) ->
  StoreHeader_wf old ->
  wp (read_header db_path) h (fun r h' =>
    kv (h_store h') = kv (h_store h) /\ match r with Ok v => v = Some old | Err _ => True end).
Proof.
  intros Hold Hwf. unfold read_header. apply wp_bind, wp_with_store.
  wp_call tree_open_spec; intros [Hk Hr]; [subst a|done].
  eapply wp_mono; [apply tree_get_spec|]. rewrite Hk, Hold.
  intros [v|e] s2 [Hk2 Hv]; [subst v|done]. cbn beta iota. rewrite from_to_bytes by done.
  apply wp_bind, wp_lift. cbn. by apply wp_ret.
Qed.

Lemma write_header_spec hd (h : Home S D) :
  let written := <[(STORE_HEADER_TREE, STORE_HEADER_KEY) := to_bytes hd]> (kv (h_store h)) in
  wp (write_header hd) h (fun r h' =>
    match r with
    | Ok _ => kv (h_store h') = written
    | Err _ => kv (h_store h') = kv (h_store h) \/ kv (h_store h') = written
    end).
Proof.
  intros written. apply wp_with_store.
  wp_call tree_open_spec; intros [Hk Hr]; [subst a|left; by rewrite <- Hk].
  eapply wp_mono; [apply tree_insert_spec|]. rewrite Hk. simpl.
  intros [u|e] s2 Hs; [done|destruct Hs; auto].
Qed.

Lemma write_sidecar_spec store_dir hd (h : Home S D) :
  wp (write_sidecar store_dir hd) h (fun r h' => r = Ok tt /\ kv (h_store h') = kv (h_store h)).
Proof. unfold wp, write_sidecar. by destruct (fs_write _ _ _). Qed.

(** Raising the version writes the header record and its copy, nothing else. *)
Lemma raise_version_frame `{!DiskView D, !DiskLaws D} db_path store_dir version (h : Home S D) :
  wp (raise_version db_path store_dir version) h (fun _ h' =>
    (kv (h_store h') = kv (h_store h) \/
     exists v, kv (h_store h') = <[(STORE_HEADER_TREE, STORE_HEADER_KEY) := v]> (kv (h_store h))) /\
    agree_off (fun p => p = store_dir ++ [STORE_HEADER_SIDECAR]) (files (h_disk h)) (files (h_disk h'))).
Proof.
  unfold raise_version. destruct (negb _); [apply wp_err; by split; [left|]|].
  apply wp_bind. unfold read_header. apply wp_bind, wp_with_store.
  assert (wp (t ← tree_open STORE_HEADER_TREE; tree_get t STORE_HEADER_KEY) (h_store h) (fun _ s' => kv s' = kv (h_store h))) as Hread.
  { wp_call tree_open_spec; intros [Hk Hr]; [|done]. eapply wp_mono; [apply tree_get_spec|].
    intros r s' [Hk2 _]. by rewrite Hk2. }
  eapply wp_mono; [exact Hread|]. intros [raw|e] s1 Hk1; cbn beta iota; [|by split; [left|]].
  assert (forall hd : StoreHeader, wp (_ ← write_header hd; _ ← write_sidecar store_dir hd; mret hd) (mkHome s1 (h_disk h)) (fun _ h' =>
    (kv (h_store h') = kv (h_store h) \/
     exists v, kv (h_store h') = <[(STORE_HEADER_TREE, STORE_HEADER_KEY) := v]> (kv (h_store h))) /\
    agree_off (fun p => p = store_dir ++ [STORE_HEADER_SIDECAR]) (files (h_disk h)) (files (h_disk h')))) as Hw.
  { intros hd. apply wp_bind. unfold write_header. apply wp_with_store.
    wp_call tree_open_spec; intros [Hk Hr]; [subst a|split; [left; simpl in *; congruence|done]].
    eapply wp_mono; [apply tree_insert_spec|]. cbn [h_store] in *. intros r s2 Hs2.
    assert (kv s2 = kv (h_store h) \/
      exists v, kv s2 = <[(STORE_HEADER_TREE, STORE_HEADER_KEY) := v]> (kv (h_store h))) as Hs.
    { rewrite Hk, Hk1 in Hs2. destruct r; [eauto|destruct Hs2; eauto]. }
    destruct r as [u|e]; cbn [h_disk]; [|by split]. apply wp_bind. unfold wp, write_sidecar. cbn [h_disk h_store].
    pose proof (fs_write_spec (store_dir ++ [STORE_HEADER_SIDECAR]) (to_bytes hd) (h_disk h)) as Hf. unfold wp in Hf.
    destruct (fs_write _ _ _) as [[u'|e] d']; simpl in *; (split; [done|]); intros p Hp.
    - rewrite Hf. by rewrite lookup_insert_ne.
    - by apply Hf. }
  destruct raw as [raw|].
  - apply wp_bind, wp_lift. destruct (from_bytes raw) as [hd|e]; cbn [map_err]; [|by split; [left|]].
    apply wp_ret. destruct (version <=? sh_version hd); [by apply wp_ret; split; [left|]|]. apply Hw.
  - apply wp_ret. apply wp_err. by split; [left|].
Qed.
End HeaderSpecs.

(** The claim of a name, on every branch. *)
Lemma insert_bucket_if_absent_spec {S T} `{StoreLaws S T} name raw (s : S) :
  let claimed := <[(DEFAULT_USAGE_TREE, name) := u64_to_le 0]>
                   (<[(DEFAULT_BUCKET_TREE, name) := raw]> (kv s)) in
  let free := kv s !! (DEFAULT_BUCKET_TREE, name) = None in
  wp (insert_bucket_if_absent name raw) s (fun r s' =>
    match r with
    | Ok true => reserved name = false /\ free /\ kv s' = claimed
    | Ok false => reserved name = false /\ ~ free /\ kv s' = kv s
    | Err e => kv s' = kv s \/ (reserved name = false /\ free /\ kv s' = claimed)
    end).
Proof.
  intros claimed free. unfold insert_bucket_if_absent.
  destruct (reserved name) eqn:Er; [apply wp_err; auto|].
  apply wp_bind. destruct (begin_spec s) as [Hb1 Hb2].
  apply wp_transact with (P := fun (a : bool) m =>
    if a then free /\ m = claimed else ~ free /\ m = kv s).
  - eapply wp_mono; [apply claim_bucket_spec|]. rewrite Hb1, Hb2.
    intros [[|]|e] t' [Hb Hr]; (split; [done|]); [done| |by auto].
    destruct Hr as [Hs Hm]. split; [|done]. intros Hn. unfold free in Hn. rewrite Hn in Hs. by destruct Hs.
  - intros [|] s' Hk HP; [|done]. destruct HP as [Hf Hm]. cbn beta iota.
    apply wp_bind. eapply wp_mono; [apply tree_open_spec|].
    intros [x|e] s2 [Hk2 _]; cbn beta iota; [apply wp_ret|]; rewrite Hk2; auto.
  - intros [|] m s' Hk [Hf _] Hs; [done|]. cbn beta iota. apply wp_ret. auto.
  - intros [|] e s' Hk HP; [|done]. destruct HP. auto.
  - auto.
Qed.

(** A bucket name is claimed at most once.  A reserved name is refused
    before anything is written.  Otherwise the answer [true] means the name
    was free and now carries exactly the given record and a zero usage
    counter, [false] means it was taken and nothing changed, and a failure has
    left either nothing or the complete claim of a free name: never a record
    without its counter, and never a record written over another. *)
Theorem bucket_claim_exclusive {S T} `{StoreLaws S T} name raw (s : S) :
  let claimed := <[(DEFAULT_USAGE_TREE, name) := u64_to_le 0]>
                   (<[(DEFAULT_BUCKET_TREE, name) := raw]> (kv s)) in
  let free := kv s !! (DEFAULT_BUCKET_TREE, name) = None in
  wp (insert_bucket_if_absent name raw) s (fun r s' =>
    match r with
    | Ok true => reserved name = false /\ free /\ kv s' = claimed
    | Ok false => reserved name = false /\ ~ free /\ kv s' = kv s
    | Err e => kv s' = kv s \/ (reserved name = false /\ free /\ kv s' = claimed)
    end).
Proof. exact (insert_bucket_if_absent_spec name raw s). Qed.

(** Raising a store's version.  Only a listed version is ever written;
    the answer is the header the store now holds, at or above the requested
    version; a store already there is left alone; and whatever happens the
    header record is afterwards the one that was there or the raised one, so a
    version never goes down and no other record is touched. *)
Theorem raise_version_monotone {S T D} `{StoreLaws S T, BlockDiskOps D, StdFs D}
    db_path store_dir version old (h : Home S D) :
  kv (h_store h) !! (STORE_HEADER_TREE, STORE_HEADER_KEY) = Some (to_bytes old) ->
  StoreHeader_wf old ->
  let raised := with_version old version in
  wp (raise_version db_path store_dir version) h (fun r h' =>
    (kv (h_store h') = kv (h_store h) \/
     version ∈ SUPPORTED_STORE_HEADER_VERSIONS /\ sh_version old < version /\
     kv (h_store h') = <[(STORE_HEADER_TREE, STORE_HEADER_KEY) := to_bytes raised]> (kv (h_store h))) /\
    match r with
    | Ok hd => hd = (if version <=? sh_version old then old else raised) /\
        version <= sh_version hd /\ sh_version old <= sh_version hd /\
        version ∈ SUPPORTED_STORE_HEADER_VERSIONS /\
        kv (h_store h') !! (STORE_HEADER_TREE, STORE_HEADER_KEY) = Some (to_bytes hd)
    | Err _ => True
    end).
Proof.
  intros Hold Hwf raised. unfold raise_version.
  destruct (bool_decide_reflect (version ∈ SUPPORTED_STORE_HEADER_VERSIONS)) as [Hin|]; simpl negb;
    [|by apply wp_err; auto].
  wp_call (read_header_spec db_path old h Hold Hwf); intros [Hk1 Hr]; [subst a|by auto].
  destruct (Z.leb_spec version (sh_version old)) as [Hle|Hlt].
  { apply wp_ret. rewrite Hk1. split_and!; auto; lia. }
  wp_call (write_header_spec raised s); rewrite Hk1; intros Hw; [|split; [destruct Hw; auto|done]].
  apply wp_bind. eapply wp_mono; [apply (write_sidecar_spec store_dir raised)|].
  intros r h2 [-> Hk2]. cbn beta iota. apply wp_ret. rewrite Hk2, Hw, lookup_insert_eq.
  split_and!; auto; simpl; lia.
Qed.
