(* ===== verification/StoreProps.v ===== *)
(** The two backends implement their interfaces, and evaluations of the
    metadata store's claims on the in-memory database. *)

From S2P Require Import Prelude Bytes Externals BlockIds Codec Records StoreHeader MetaStore Disk Placement RealDisk Fjall MetaOps.
From Stdlib Require Import Strings.Byte.
Local Open Scope Z_scope.
Import Concrete MemFjall.

(** C36: The fjall backend implements the store interface.  Over any database
    that keeps its documented promises, the trees, iterators and transactions
    of [FjallStore] satisfy every law the engine relies on, under every
    pattern of failing calls: reads tell the truth or fail, an iterator yields
    the next key in order, a write or delete has happened if it says so, and a
    transaction's writes appear together at its commit, never before and never
    in part, also when the persist after the commit fails. *)
Theorem fjall_implements_store {DB WT} `{FjallLaws DB WT} :
  @StoreLaws (FjallStore DB) (FjallTransaction DB WT) Fjall_store Fjall_view.
Proof. apply _. Qed.

Lemma fjall_implements_store_witness :
  @StoreLaws (FjallStore MemDB) (FjallTransaction MemDB MemTx) Fjall_store Fjall_view.
Proof. exact (@fjall_implements_store MemDB MemTx _ _ mem_laws). Defined.

(** The disk operations implement theirs.  Over the model of the file
    system, in which every call can fail and a failed write leaves any prefix
    behind, [RealDiskOps] satisfies the laws the block writer relies on: a new
    file is never written over another, a rename moves whole contents or
    nothing, removing a missing file is a success. *)
Lemma real_disk_implements_ops : @DiskLaws Fs RealDiskOps Fs_std Fs_view.
Proof. apply _. Qed.

Lemma bucket_claim_exclusive_witness :
  let name := str "bkt" in
  (insert_bucket_if_absent name (str "raw") empty_store).1 = Ok true /\
  wp (insert_bucket_if_absent name (str "raw")) empty_store (fun r s' =>
    match r with
    | Ok true => reserved name = false /\ kv empty_store !! (DEFAULT_BUCKET_TREE, name) = None /\
        kv s' = <[(DEFAULT_USAGE_TREE, name) := u64_to_le 0]>
                  (<[(DEFAULT_BUCKET_TREE, name) := str "raw"]> (kv empty_store))
    | _ => True
    end).
Proof.
  intros name. split; [vm_compute; reflexivity|].
  eapply wp_mono; [apply (bucket_claim_exclusive name (str "raw") empty_store)|].
  intros [[|]|e] s' Hr; [exact Hr|exact I|exact I].
Defined.

(** A store whose header is of version one. *)
Definition s_header : StoreHeader := mkStoreHeader STORE_HEADER_VERSION Blake3W16 0 (replicate STORE_ID_SIZE Byte.x07).
Definition s_home : Home (FjallStore MemDB) Fs :=
  mkHome (h_store (write_header s_header (mkHome empty_store (mkFs ∅ {[ [str "m"] ]} ∅ []))).2)
    (mkFs ∅ {[ [str "m"] ]} ∅ []).

Lemma raise_version_monotone_witness :
  wp (raise_version [str "m"; str "db"] [str "m"] STORE_HEADER_VERSION_CAS_NAMESPACE) s_home (fun r h' =>
    match r with Ok hd => STORE_HEADER_VERSION <= sh_version hd | Err _ => True end).
Proof.
  eapply wp_mono; [apply (raise_version_monotone [str "m"; str "db"] [str "m"] STORE_HEADER_VERSION_CAS_NAMESPACE s_header s_home)|].
  - vm_compute. reflexivity.
  - split; [by left|]. split; [split; vm_compute; discriminate|reflexivity].
  - intros [hd|e] h' [_ Hr]; [|exact I]. destruct Hr as (_ & _ & Hv & _). exact Hv.
Defined.
