(* ===== verification/Accounting.v ===== *)
(** Who holds a block, and the invariant of the engine: leakage, never loss.

    Every occurrence of a block in an object record of a bucket, and in a
    part record, is a reference; requests in flight hold further references,
    the frame [F].  The invariant [Inv] says that no block has more references
    than its record counts, and that the record of every healthy block names a
    file whose bytes hash to the block's address.  The lemmas of this file are
    the effect of each single write on it; the engine files compose them. *)

From S2P Require Import Prelude Bytes Externals BlockIds Codec Records StoreHeader MetaStore Disk MetaOps.
From Stdlib Require Import Strings.Byte.
Local Open Scope Z_scope.
#[local] Set Warnings "-clear-no-such-hyp".

(* ------------------------------------------------------------------ *)
(** * Sums over a database *)

Section Sums.
Context (f : tree * bytes -> bytes -> nat).

Definition msum (m : kvmap) : nat := sum_with (fun p => f p.1 p.2) (map_to_list m).

(** The value at a key counts as nothing when it is not there. *)
Definition at_key (k : tree * bytes) (m : kvmap) : nat :=
  match m !! k with Some v => f k v | None => 0%nat end.

Lemma sum_with_perm {A} (g : A -> nat) l l' : l ≡ₚ l' -> sum_with g l = sum_with g l'.
Proof. unfold sum_with. induction 1; simpl; lia. Qed.

Lemma msum_delete k m : (msum (delete k m) + at_key k m = msum m)%nat.
Proof.
  unfold at_key. destruct (m !! k) as [v|] eqn:E.
  - unfold msum. rewrite (sum_with_perm _ _ _ (symmetry (map_to_list_delete m k v E))).
    unfold sum_with. simpl. lia.
  - rewrite delete_id by done. lia.
Qed.

Lemma msum_insert k v m : (msum (<[k := v]> m) + at_key k m = msum m + f k v)%nat.
Proof.
  rewrite <- insert_delete_eq. rewrite <- (msum_delete k m).
  assert (msum (<[k := v]> (delete k m)) = f k v + msum (delete k m))%nat as ->; [|lia].
  unfold msum. rewrite (sum_with_perm _ _ _ (map_to_list_insert (delete k m) k v ltac:(apply lookup_delete_eq))).
  done.
Qed.

Lemma msum_insert_0 k v m : f k v = 0%nat -> at_key k m = 0%nat -> msum (<[k := v]> m) = msum m.
Proof. intros Hv Ha. pose proof (msum_insert k v m). lia. Qed.

Lemma msum_delete_le k m : (msum (delete k m) <= msum m)%nat.
Proof. pose proof (msum_delete k m). lia. Qed.

Lemma msum_insert_new k v m : m !! k = None -> msum (<[k := v]> m) = (msum m + f k v)%nat.
Proof. intros Hk. pose proof (msum_insert k v m) as Hi. unfold at_key in Hi. rewrite Hk in Hi. lia. Qed.

Lemma msum_filter_le (P : (tree * bytes) * bytes -> Prop) `{!forall x, Decision (P x)} m : (msum (filter P m) <= msum m)%nat.
Proof.
  induction m as [|k v m Hk IH] using map_ind; [by rewrite map_filter_empty|].
  rewrite (msum_insert_new k v m Hk). destruct (decide (P (k, v))).
  - rewrite map_filter_insert_True by done. rewrite msum_insert_new; [lia|].
    apply map_lookup_filter_None. by left.
  - rewrite map_filter_insert_False by done. rewrite delete_id by done. lia.
Qed.

Lemma msum_empty : msum ∅ = 0%nat.
Proof. done. Qed.
End Sums.

(* ------------------------------------------------------------------ *)
(** * Holders *)

Definition blocks_of_object_raw (raw : bytes) : list BlockId :=
  match Object_try_from raw with Ok o => o_blocks o | Err _ => [] end.

Definition blocks_of_part_raw (raw : bytes) : list BlockId :=
  match MultiPart_try_from raw with Ok p => mp_blocks p | Err _ => [] end.

Definition object_weight (i : BlockId) (k : tree * bytes) (raw : bytes) : nat :=
  if reserved k.1 then 0 else occ i (blocks_of_object_raw raw).

Definition part_weight (i : BlockId) (k : tree * bytes) (raw : bytes) : nat :=
  if decide (k.1 = MULTIPART_PARTS_TREE) then occ i (blocks_of_part_raw raw) else 0.

(** References from the object records of a namespace database, and from the
    part records of the shared one. *)
Definition obj_refs (ns : kvmap) (i : BlockId) : nat := msum (object_weight i) ns.
Definition part_refs (sh : kvmap) (i : BlockId) : nat := msum (part_weight i) sh.

(** A frame of references extended with the occurrences of a list. *)
Definition add_refs (F : BlockId -> nat) (l : list BlockId) (i : BlockId) : nat := (F i + occ i l)%nat.

Record Inv `{Blake3, FasterHex} (h : Hasher) (root : path) (ns sh : kvmap) (fl : gmap path bytes)
    (F : BlockId -> nat) : Prop := mkInv {
  inv_refs : forall i, BlockId_wf i ->
    Z.of_nat (obj_refs ns i + part_refs sh i + F i) <= rc_of sh i;
  inv_files : forall i b, BlockId_wf i -> block_at sh i = Some b -> is_degraded b = false ->
    exists data, fl !! block_disk_path i (b_depth b) root = Some data /\
      hash_block h data = i /\ Z.of_nat (length data) = b_size b
}.

Lemma part_weight_block i j raw : part_weight j (block_key i) raw = 0%nat.
Proof. done. Qed.

Lemma part_refs_put_block sh i b j : part_refs (put_block sh i b) j = part_refs sh j.
Proof. apply msum_insert_0; [done|]. unfold at_key. by destruct (sh !! block_key i). Qed.

Lemma part_refs_delete_block sh i j : part_refs (delete (block_key i) sh) j = part_refs sh j.
Proof.
  pose proof (msum_delete (part_weight j) (block_key i) sh) as Hd.
  unfold part_refs, at_key in *. destruct (sh !! block_key i); rewrite ?part_weight_block in Hd; lia.
Qed.

Section InvLemmas.
Context `{Blake3, FasterHexLaws} (h : Hasher) (root : path).
Implicit Types (ns sh : kvmap) (fl : gmap path bytes) (F : BlockId -> nat).

Lemma inv_mono ns sh fl F F' :
  (forall i, (F' i <= F i)%nat) -> Inv h root ns sh fl F -> Inv h root ns sh fl F'.
Proof. intros HF [Hr Hf]. split; [|done]. intros i Hi. specialize (Hr i Hi). specialize (HF i). lia. Qed.

Lemma inv_drop ns sh fl F l : Inv h root ns sh fl (add_refs F l) -> Inv h root ns sh fl F.
Proof. apply inv_mono. intros i. unfold add_refs. lia. Qed.

(** A holder can always find the record of what it holds. *)
Lemma inv_held ns sh fl F i :
  Inv h root ns sh fl F -> BlockId_wf i -> (0 < obj_refs ns i + part_refs sh i + F i)%nat ->
  exists b, block_at sh i = Some b /\ 0 < b_rc b.
Proof.
  intros [Hr _] Hi Hpos. specialize (Hr i Hi). unfold rc_of in Hr.
  destruct (block_at sh i) as [b|]; [|lia]. exists b. split; [done|lia].
Qed.

(** Files of healthy blocks are all that matters of the disk. *)
Lemma inv_disk ns sh fl fl' F :
  (forall i b, BlockId_wf i -> block_at sh i = Some b -> is_degraded b = false ->
     fl' !! block_disk_path i (b_depth b) root = fl !! block_disk_path i (b_depth b) root) ->
  Inv h root ns sh fl F -> Inv h root ns sh fl' F.
Proof.
  intros Hsame [Hr Hf]. split; [done|]. intros i b Hi Hb Hd.
  rewrite Hsame by done. by apply Hf.
Qed.

Definition has_file fl (i : BlockId) (b : Block) : Prop :=
  exists data, fl !! block_disk_path i (b_depth b) root = Some data /\
    hash_block h data = i /\ Z.of_nat (length data) = b_size b.

(** Writing the record of one block. *)
Lemma inv_put ns sh fl F F' i b :
  BlockId_wf i -> Block_wf b ->
  (is_degraded b = false -> has_file fl i b) ->
  (forall j, j <> i -> (F' j <= F j)%nat) ->
  Z.of_nat (obj_refs ns i + part_refs sh i + F' i) <= b_rc b ->
  Inv h root ns sh fl F -> Inv h root ns (put_block sh i b) fl F'.
Proof.
  intros Hi Hb Hfile HF Hrc [Hr Hf]. split.
  - intros j Hj. rewrite part_refs_put_block. unfold rc_of.
    destruct (decide (j = i)) as [->|Hne]; [by rewrite block_at_put|].
    rewrite block_at_put_ne by done. specialize (Hr j Hj). specialize (HF j Hne).
    unfold rc_of in Hr. lia.
  - intros j b' Hj. destruct (decide (j = i)) as [->|Hne].
    + rewrite block_at_put by done. intros [= <-]. apply Hfile.
    + rewrite block_at_put_ne by done. by apply Hf.
Qed.

Lemma inv_bump ns sh fl F i b :
  BlockId_wf i -> block_at sh i = Some b -> is_degraded b = false -> b_rc b < usize_max ->
  Inv h root ns sh fl F ->
  Inv h root ns (put_block sh i (increment_refcount b)) fl (add_refs F [i]).
Proof.
  intros Hi Hb Hd Hmax Hinv. pose proof (block_at_wf _ _ _ Hb) as Hwf.
  assert (b_rc (increment_refcount b) = b_rc b + 1) as Hrc.
  { simpl. apply wrap_u64_small. destruct Hwf as (_ & _ & ? & _). int_bounds. lia. }
  eapply inv_put; [done|by apply increment_wf|..|exact Hinv].
  - intros _. exact (inv_files _ _ _ _ _ _ Hinv i b Hi Hb Hd).
  - intros j Hne. unfold add_refs. rewrite occ_cons_ne by done. simpl. lia.
  - rewrite Hrc. unfold add_refs. rewrite occ_cons_eq. simpl.
    pose proof (inv_refs _ _ _ _ _ _ Hinv i Hi) as Hr. unfold rc_of in Hr. rewrite Hb in Hr. lia.
Qed.

Lemma inv_insert ns sh fl F i data depth present :
  BlockId_wf i -> hash_block h data = i -> is_usize (Z.of_nat (length data)) -> is_u8 depth ->
  fl !! block_disk_path i depth root = Some data ->
  match present with
  | None => sh !! block_key i = None
  | Some p => block_at sh i = Some p /\ b_rc p < usize_max
  end ->
  Inv h root ns sh fl F ->
  Inv h root ns (put_block sh i (healed_block (Z.of_nat (length data)) depth present)) fl (add_refs F [i]).
Proof.
  intros Hi Hh Hl Hd Hfl Hp Hinv.
  assert (forall p, present = Some p -> Block_wf p) as Hpwf.
  { intros p ->. destruct Hp as [Hp _]. by eapply block_at_wf. }
  pose proof (inv_refs _ _ _ _ _ _ Hinv i Hi) as Hr. unfold rc_of in Hr.
  eapply inv_put; [done|by apply healed_wf|..|exact Hinv].
  - intros _. exists data. split_and!; [|done|by destruct present].
    by destruct present.
  - intros j Hne. unfold add_refs. rewrite occ_cons_ne by done. simpl. lia.
  - unfold add_refs. rewrite occ_cons_eq. simpl occ. destruct present as [p|]; simpl.
    + destruct Hp as [Hp Hmax]. rewrite Hp in Hr. rewrite wrap_u64_small; [lia|].
      destruct (Hpwf p eq_refl) as (_ & _ & ? & _). int_bounds. lia.
    + rewrite block_at_None in Hr by done. lia.
Qed.

Lemma inv_decrement ns sh fl F i b :
  BlockId_wf i -> block_at sh i = Some b ->
  Inv h root ns sh fl (add_refs F [i]) ->
  Inv h root ns (put_block sh i (decrement_refcount b)) fl F.
Proof.
  intros Hi Hb Hinv. pose proof (block_at_wf _ _ _ Hb) as Hwf.
  pose proof (inv_refs _ _ _ _ _ _ Hinv i Hi) as Hr. unfold rc_of in Hr. rewrite Hb in Hr.
  unfold add_refs in Hr. rewrite occ_cons_eq in Hr. simpl occ in Hr.
  eapply inv_put; [done|by apply decrement_wf|..|exact Hinv].
  - intros Hd. exact (inv_files _ _ _ _ _ _ Hinv i b Hi Hb Hd).
  - intros j Hne. unfold add_refs. lia.
  - simpl. rewrite wrap_u64_small; [lia|]. destruct Hwf as (_ & _ & ? & _). int_bounds. lia.
Qed.

(** The last reference: record gone, then the file (or not). *)
Lemma inv_remove ns sh fl fl' F i b d :
  BlockId_wf i -> block_at sh i = Some b -> b_rc b = 1 ->
  agree_off (fun p => p = block_disk_path i d root) fl fl' ->
  Inv h root ns sh fl (add_refs F [i]) ->
  Inv h root ns (delete (block_key i) sh) fl' F.
Proof.
  intros Hi Hb Hrc Ha Hinv. destruct Hinv as [Hr Hf]. split.
  - intros j Hj. rewrite part_refs_delete_block. specialize (Hr j Hj). unfold rc_of, add_refs in *.
    destruct (decide (j = i)) as [->|Hne].
    + rewrite block_at_delete_eq. rewrite Hb, Hrc, occ_cons_eq in Hr. lia.
    + rewrite block_at_delete_ne; [|intros E; apply Hne; symmetry; by apply block_key_inj]. lia.
  - intros j b' Hj Hb' Hd. destruct (decide (j = i)) as [->|Hne].
    { by rewrite block_at_delete_eq in Hb'. }
    rewrite block_at_delete_ne in Hb'; [|intros E; apply Hne; symmetry; by apply block_key_inj].
    rewrite Ha; [by apply Hf|]. intros E. apply Hne. by eapply block_disk_path_name_inj.
Qed.

(** Writing an object record in a bucket: the references it names must be in
    the frame; those of the record it displaces go to the frame. *)
Lemma inv_object ns sh fl F bucket key raw :
  reserved bucket = false ->
  Inv h root ns sh fl (add_refs F (blocks_of_object_raw raw)) ->
  Inv h root (<[(bucket, key) := raw]> ns) sh fl
    (add_refs F (match ns !! (bucket, key) with Some old => blocks_of_object_raw old | None => [] end)).
Proof.
  intros Hres [Hr Hf]. split; [|done]. intros i Hi. specialize (Hr i Hi).
  pose proof (msum_insert (object_weight i) (bucket, key) raw ns) as Hs.
  unfold obj_refs, add_refs, at_key, object_weight in *. simpl in Hs. rewrite Hres in Hs.
  destruct (ns !! (bucket, key)); simpl in *; rewrite ?Hres in *; simpl in *; lia.
Qed.

Lemma inv_object_delete ns sh fl F bucket key old :
  reserved bucket = false -> ns !! (bucket, key) = Some old ->
  Inv h root ns sh fl F ->
  Inv h root (delete (bucket, key) ns) sh fl (add_refs F (blocks_of_object_raw old)).
Proof.
  intros Hres Hold [Hr Hf]. split; [|done]. intros i Hi. specialize (Hr i Hi).
  pose proof (msum_delete (object_weight i) (bucket, key) ns) as Hs.
  unfold obj_refs, add_refs, at_key, object_weight in *. rewrite Hold in Hs. simpl in Hs. rewrite Hres in Hs. lia.
Qed.

(** A write in a reserved tree of the namespace moves no reference. *)
Lemma inv_ns_reserved ns sh fl F t k v :
  reserved t = true -> Inv h root ns sh fl F -> Inv h root (<[(t, k) := v]> ns) sh fl F.
Proof.
  intros Hres [Hr Hf]. split; [|done]. intros i Hi. specialize (Hr i Hi).
  pose proof (msum_insert (object_weight i) (t, k) v ns) as Hs.
  unfold obj_refs, at_key, object_weight in *. simpl in Hs. rewrite Hres in Hs.
  destruct (ns !! (t, k)); simpl in *; rewrite ?Hres in *; lia.
Qed.

(** Removals from the namespace database. *)
Lemma inv_ns_le ns ns' sh fl F :
  (forall i, (obj_refs ns' i <= obj_refs ns i)%nat) -> Inv h root ns sh fl F -> Inv h root ns' sh fl F.
Proof. intros Hle [Hr Hf]. split; [|done]. intros i Hi. specialize (Hr i Hi). specialize (Hle i). lia. Qed.

Lemma inv_ns_drop ns sh fl F t : Inv h root ns sh fl F -> Inv h root (drop_tree ns t) sh fl F.
Proof. apply inv_ns_le. intros i. apply msum_filter_le. Qed.

Lemma inv_ns_delete ns sh fl F p : Inv h root ns sh fl F -> Inv h root (delete p ns) sh fl F.
Proof. apply inv_ns_le. intros i. apply msum_delete_le. Qed.

(** Taking a part record out of the shared database. *)
Lemma inv_part_delete ns sh fl F key old :
  sh !! (MULTIPART_PARTS_TREE, key) = Some old ->
  Inv h root ns sh fl F ->
  Inv h root ns (delete (MULTIPART_PARTS_TREE, key) sh) fl (add_refs F (blocks_of_part_raw old)).
Proof.
  intros Hold [Hr Hf]. split.
  - intros i Hi. specialize (Hr i Hi).
    pose proof (msum_delete (part_weight i) (MULTIPART_PARTS_TREE, key) sh) as Hs.
    unfold rc_of in *. rewrite block_at_delete_ne by done.
    unfold part_refs, add_refs, at_key, part_weight in *. rewrite Hold in Hs. simpl in Hs. lia.
  - intros i b Hi. rewrite block_at_delete_ne by done. by apply Hf.
Qed.

(** Filing a part record: it takes over the references the frame held. *)
Lemma inv_part_insert ns sh fl F key raw :
  Inv h root ns sh fl (add_refs F (blocks_of_part_raw raw)) ->
  Inv h root ns (<[(MULTIPART_PARTS_TREE, key) := raw]> sh) fl F.
Proof.
  intros [Hr Hf]. split.
  - intros i Hi. specialize (Hr i Hi).
    pose proof (msum_insert (part_weight i) (MULTIPART_PARTS_TREE, key) raw sh) as Hs.
    unfold rc_of in *. rewrite block_at_insert_ne by done.
    unfold part_refs, add_refs, at_key, part_weight in *. simpl in Hs. lia.
  - intros i b Hi. rewrite block_at_insert_ne by done. by apply Hf.
Qed.

(** Other trees of the shared database hold no references. *)
Lemma inv_sh_other_insert ns sh fl F t k v :
  t <> DEFAULT_BLOCK_TREE -> t <> MULTIPART_PARTS_TREE ->
  Inv h root ns sh fl F -> Inv h root ns (<[(t, k) := v]> sh) fl F.
Proof.
  intros Hb Hp [Hr Hf]. assert (forall i, (t, k) <> block_key i) as Hk by (intros i [= E]; done).
  split.
  - intros i Hi. specialize (Hr i Hi). unfold rc_of in *. rewrite block_at_insert_ne by done.
    unfold part_refs. rewrite msum_insert_0; [done|..]; unfold at_key, part_weight; simpl.
    + by rewrite decide_False.
    + destruct (sh !! (t, k)); [by rewrite decide_False|done].
  - intros i b Hi. rewrite block_at_insert_ne by done. by apply Hf.
Qed.

Lemma inv_sh_other_delete ns sh fl F t k :
  t <> DEFAULT_BLOCK_TREE ->
  Inv h root ns sh fl F -> Inv h root ns (delete (t, k) sh) fl F.
Proof.
  intros Hb [Hr Hf]. assert (forall i, (t, k) <> block_key i) as Hk by (intros i [= E]; done).
  split.
  - intros i Hi. specialize (Hr i Hi). unfold rc_of in *. rewrite block_at_delete_ne by done.
    pose proof (msum_delete_le (part_weight i) (t, k) sh). unfold part_refs in *. lia.
  - intros i b Hi. rewrite block_at_delete_ne by done. by apply Hf.
Qed.

Lemma inv_empty F : (forall i, F i = 0%nat) -> Inv h root ∅ ∅ ∅ F.
Proof.
  intros HF. split.
  - intros i Hi. rewrite HF. unfold rc_of, block_at. by rewrite lookup_empty.
  - intros i b Hi. unfold block_at. by rewrite lookup_empty.
Qed.
End InvLemmas.
