(* ===== verification/Engine.v ===== *)
(** The write path (cas/write_path.rs, cas/write_path/batch.rs): chunks are
    resolved into a batch, a batch is closed in the order files, directories,
    records, and an object's record replaces the one under its key.

    The state is a [World]: the namespace database, the shared database, the
    disk with the writer's state, and the placement counters.  One closure run
    by [spawn_blocking] under its stripes, and one transaction, is one atomic
    step of the model; the functions below compose such steps as the source
    does. *)

From S2P Require Import Prelude Bytes Externals BlockIds Codec Records StoreHeader MetaStore Disk Placement MetaOps Accounting.
From Stdlib Require Import Strings.Byte.
Local Open Scope Z_scope.
#[local] Set Warnings "-clear-no-such-hyp".

(* ------------------------------------------------------------------ *)
(** * Worlds *)

(** The errors of the engine: [MetaError], [io::Error], or a panic. *)
Inductive EngErr : Type := EMeta (e : MetaError) | EIo (e : IoError) | EPanic (msg : string).

Definition io_other (msg : string) : EngErr := EIo (mkIoError IoOther msg).

(** What [SharedBlockStore] and [CasFS] fix at open. *)
Record StoreCfg : Type := mkStoreCfg {
  cfg_hasher : Hasher;
  cfg_writer : AtomicBlockWriter;
  cfg_placement : BlockPlacement;
  cfg_max_blocks_per_commit : nat
}.

Definition blocks_root (cfg : StoreCfg) : path := aw_root (cfg_writer cfg).

Record World (S D : Type) : Type := mkWorld {
  w_ns : S;
  w_shared : S;
  w_disk : DiskState D;
  w_counters : counters
}.
Arguments mkWorld {S D}.
Arguments w_ns {S D}.
Arguments w_shared {S D}.
Arguments w_disk {S D}.
Arguments w_counters {S D}.

(* ------------------------------------------------------------------ *)
(** * Batches *)

Inductive Payload : Type := Staged (b : StagedBlock) | Deduped (bs : bytes).

Record BatchEntry : Type := mkBatchEntry {
  be_id : BlockId;
  be_len : Z;
  be_occurrences : nat;
  be_payload : Payload;
  be_depth : option Z
}.

Record BlockBatch : Type := mkBlockBatch {
  bb_entries : list BatchEntry;
  bb_seen : gmap BlockId nat;
  bb_cap : nat
}.

Definition new_batch (cap : nat) : BlockBatch := mkBlockBatch [] ∅ (Nat.max cap 1).

Definition more_occurrences (e : BatchEntry) : BatchEntry :=
  mkBatchEntry (be_id e) (be_len e) (S (be_occurrences e)) (be_payload e) (be_depth e).

(** [entries[slot].occurrences += 1], when the id has a slot. *)
Definition add_occurrence (b : BlockBatch) (i : BlockId) : bool * BlockBatch :=
  match bb_seen b !! i with
  | Some slot => (true, mkBlockBatch (alter more_occurrences slot (bb_entries b)) (bb_seen b) (bb_cap b))
  | None => (false, b)
  end.

Definition push (b : BlockBatch) (e : BatchEntry) : BlockBatch :=
  mkBlockBatch (bb_entries b ++ [e]) (<[be_id e := length (bb_entries b)]> (bb_seen b)) (bb_cap b).

Definition is_full (b : BlockBatch) : bool := (bb_cap b <=? length (bb_entries b))%nat.

(** [take]: the accumulator is left empty. *)
Definition emptied (b : BlockBatch) : BlockBatch := mkBlockBatch [] ∅ (bb_cap b).

Record FlushOutcome : Type := mkFlushOutcome { fo_written : nat; fo_ignored : nat }.

(** The id of every reference a list of entries adds, one per occurrence. *)
Definition batch_refs (es : list BatchEntry) : list BlockId :=
  concat (map (fun e => replicate (be_occurrences e) (be_id e)) es).

(* ------------------------------------------------------------------ *)
(** * The write path *)

Section WritePath.
Context {S T D : Type} `{Store S T, BlockDiskOps D, StdFs D, Blake3, Md5, FasterHex}.
Context (cfg : StoreCfg).
Abbreviation EM := (M (World S D) EngErr).

Definition on_ns {E A} (f : E -> EngErr) (m : M S E A) : EM A := fun w =>
  let '(r, s') := m (w_ns w) in
  (map_err f r, mkWorld s' (w_shared w) (w_disk w) (w_counters w)).

Definition on_shared {E A} (f : E -> EngErr) (m : M S E A) : EM A := fun w =>
  let '(r, s') := m (w_shared w) in
  (map_err f r, mkWorld (w_ns w) s' (w_disk w) (w_counters w)).

Definition on_files {A} (m : M (DiskState D) IoError A) : EM A := fun w =>
  let '(r, ds') := m (w_disk w) in
  (map_err EIo r, mkWorld (w_ns w) (w_shared w) ds' (w_counters w)).

(** A call inside a transaction. *)
Definition in_tx {A} (m : M T MetaError A) : M T EngErr A := fun t =>
  let '(r, t') := m t in (map_err EMeta r, t').

(** [shared.placement().choose_depth(&id)]. *)
Definition place (i : BlockId) : EM Z := fun w =>
  let '(depth, c') := choose_depth (cfg_placement cfg) i (ds_disk (w_disk w)) (w_counters w) in
  (Ok depth, mkWorld (w_ns w) (w_shared w) (w_disk w) c').

Definition has_live_record (i : BlockId) : EM bool :=
  record ← on_shared (fun _ => io_other "reading the block record") (get_block (as_slice i));
  mret (match record with Some block => negb (is_degraded block) | None => false end).

Definition resolve_chunk (i : BlockId) (bs : bytes) : EM Payload :=
  live ← has_live_record i;
  if (live : bool) then mret (Deduped bs)
  else
    depth ← place i;
    staged ← on_files (stage_block (cfg_writer cfg) i depth bs);
    mret (Staged staged).

Definition new_entry (i : BlockId) (len : Z) (p : Payload) : BatchEntry :=
  mkBatchEntry i len 1 p (match p with Staged b => Some (sb_depth b) | Deduped _ => None end).

(** The batch after one arriving chunk. *)
Definition accumulate (batch : BlockBatch) (i : BlockId) (bs : bytes) : EM BlockBatch :=
  let '(seen, batch) := add_occurrence batch i in
  if seen then mret batch
  else
    payload ← resolve_chunk i bs;
    mret (push batch (new_entry i (Z.of_nat (length bs)) payload)).

(** Temp files of a batch that will not land. *)
Definition abandon (es : list BatchEntry) : EM unit :=
  M_iter (fun e => match be_payload e with
                   | Staged b => on_files (discard_staged b)
                   | Deduped _ => mret tt
                   end) es.

(** A deduplicated block whose record is gone is written after all. *)
Definition overtake (el : BatchEntry * bool) : EM BatchEntry :=
  let '(e, live) := el in
  if (live : bool) then mret e
  else match be_payload e with
       | Staged _ => mret e
       | Deduped bs =>
           depth ← place (be_id e);
           _ ← on_files (write_block (cfg_writer cfg) (be_id e) depth bs);
           mret (mkBatchEntry (be_id e) (be_len e) (be_occurrences e) (be_payload e) (Some depth))
       end.

(** Surplus temp files are dropped; the others are to be landed. *)
Fixpoint sort_out (els : list (BatchEntry * bool)) : EM (list StagedBlock) :=
  match els with
  | [] => mret []
  | (e, live) :: els' =>
      match be_payload e, live with
      | Staged b, true => _ ← on_files (discard_staged b); sort_out els'
      | Staged b, false => rest ← sort_out els'; mret (b :: rest)
      | Deduped _, _ => sort_out els'
      end
  end.

(** [for _ in 0..n { tx.bump_block_rc(id)?; }]. *)
Fixpoint bump_times (n : nat) (i : BlockId) : M T MetaError unit :=
  match n with
  | O => mret tt
  | Datatypes.S n' => _ ← bump_block_rc i; bump_times n' i
  end.

Definition record_entry (e : BatchEntry) : M T EngErr bool :=
  bumped ← in_tx (bump_block_rc (be_id e));
  inserted ← match bumped with
             | None =>
                 match be_depth e with
                 | None => M_err (EPanic "a block with no live record has had a file placed by this batch")
                 | Some depth => _ ← in_tx (insert_new_block (be_id e) (be_len e) depth); mret true
                 end
             | Some _ => mret false
             end;
  _ ← in_tx (bump_times (be_occurrences e - 1) (be_id e));
  mret inserted.

Definition outcome_of (inserted : list bool) : FlushOutcome :=
  mkFlushOutcome (length (filter (fun b => b = true) inserted))
                 (length (filter (fun b => b = false) inserted)).

(** The blocking half of a flush, under the stripes of every entry. *)
Definition commit_batch (es : list BatchEntry) : EM FlushOutcome :=
  live ← M_map (fun e => has_live_record (be_id e)) es;
  es ← M_map overtake (zip es live);
  to_land ← sort_out (zip es live);
  _ ← on_files (land_batch (cfg_writer cfg) to_land);
  inserted ← on_shared id (transact EMeta (M_map record_entry es));
  mret (outcome_of inserted).

(** A panic inside the closure is the join error of its task. *)
Definition close_alone (es : list BatchEntry) : EM FlushOutcome := fun w =>
  match commit_batch es w with
  | (Err (EPanic _), w') => (Err (io_other "block batch task did not complete"), w')
  | r => r
  end.

Definition temp_paths (es : list BatchEntry) : list path :=
  omap (fun e => match be_payload e with Staged b => Some (temp_path b) | Deduped _ => None end) es.

(** Closes a batch (with no commit station): sync, then [close_alone]. *)
Definition flush_batch (batch : BlockBatch) : EM BlockBatch := fun w =>
  match bb_entries batch with
  | [] => (Ok batch, w)
  | es =>
      match on_files (sync_batch (cfg_writer cfg) (temp_paths es)) w with
      | (Err e, w') => (Err e, (abandon es w').2)
      | (Ok _, w') => (_ ← close_alone es; mret (emptied batch)) w'
      end
  end.

(** The request's running state in [store_object]; [up_data] is what the MD5
    has been fed. *)
Record Upload : Type := mkUpload {
  up_data : bytes;
  up_size : Z;
  up_blocks : list BlockId;
  up_batch : BlockBatch
}.

Definition feed (u : Upload) (bs : bytes) : EM Upload := fun w =>
  let i := hash_block (cfg_hasher cfg) bs in
  let data := up_data u ++ bs in
  let size := wrap_u64 (up_size u + Z.of_nat (length bs)) in
  let blocks := up_blocks u ++ [i] in
  match accumulate (up_batch u) i bs w with
  | (Err e, w') => (Err e, (abandon (bb_entries (up_batch u)) w').2)
  | (Ok batch, w') =>
      (batch ← (if is_full batch then flush_batch batch else mret batch);
       mret (mkUpload data size blocks batch)) w'
  end.

Fixpoint feed_all (u : Upload) (buffers : list bytes) : EM Upload :=
  match buffers with
  | [] => mret u
  | bs :: buffers' => u ← feed u bs; feed_all u buffers'
  end.

(** The loop over the items of the buffered stream. *)
Fixpoint store_items (u : Upload) (items : list (result IoError (list bytes))) : EM Upload :=
  match items with
  | [] => mret u
  | Err e :: _ => fun w => (Err (EIo e), (abandon (bb_entries (up_batch u)) w).2)
  | Ok buffers :: items' => u ← feed_all u buffers; store_items u items'
  end.

Definition store_object (items : list (result IoError (list bytes))) :
    EM (list BlockId * ContentHash * Z) :=
  u ← store_items (mkUpload [] 0 [] (new_batch (cfg_max_blocks_per_commit cfg))) items;
  _ ← flush_batch (up_batch u);
  mret (up_blocks u, mkContentHash (md5_digest (up_data u)), up_size u).

(** The replace transaction, with the bucket's counter. *)
Definition replace_object_record (bucket_name key raw_obj : bytes) (size : Z) :
    M S MetaError (option Object) :=
  transact id (
    displaced ← replace_object bucket_name key raw_obj;
    let previous := match displaced with Some o => o_size o | None => 0 end in
    let delta := as_i64 (as_i64 size - as_i64 previous) in
    _ ← add_bucket_usage bucket_name delta;
    mret displaced).
End WritePath.

(* ------------------------------------------------------------------ *)
(** * Releasing references, object records, deletes and clones *)

Section ObjectPaths.
Context {S T D : Type} `{Store S T, BlockDiskOps D, StdFs D, Blake3, Md5, FasterHex}.
Context (cfg : StoreCfg).
Abbreviation EM := (M (World S D) EngErr).

Definition keeps_decrement (d : BlockDecrement) : bool :=
  match d with Missing => false | Decremented _ | Removed _ => true end.

(** One decrement under the block's stripe: commit, then unlink. *)
Definition decrement_one_block (i : BlockId) : EM unit :=
  outcome ← on_shared EMeta (transact_when id keeps_decrement (decrement_block_rc i));
  match outcome with
  | Missing | Decremented _ => mret tt
  | Removed block => M_run (fun w =>
      match on_files (unlink_block (cfg_writer cfg) i (b_depth block)) w with
      | (Ok _, w') => (Ok tt, w')
      | (Err _, w') => (Err (EMeta (OtherDBError "unlinking block file")), w')
      end)
  end.

(** One decrement per occurrence; a failure is logged and the loop goes on. *)
Fixpoint release_blocks (blocks : list BlockId) : EM unit :=
  match blocks with
  | [] => mret tt
  | i :: blocks' => fun w => release_blocks blocks' (decrement_one_block i w).2
  end.

(** Every write of an object record: replace, commit, then release. *)
Definition create_object_meta (now : Z) (bucket_name key : bytes) (size : Z) (hash : ContentHash)
    (object_data : ObjectData) : EM Object :=
  let obj_meta := Object_new now size hash object_data in
  displaced ← on_ns EMeta (replace_object_record bucket_name key (Object_to_vec obj_meta) size);
  _ ← match displaced with
      | Some old => if decide (o_blocks old = []) then mret tt else release_blocks (o_blocks old)
      | None => mret tt
      end;
  mret obj_meta.

(** [.await.unwrap()] on the metadata write. *)
Definition unwrap {A} (m : EM A) : EM A := fun w =>
  match m w with
  | (Err _, w') => (Err (EPanic "called `Result::unwrap()` on an `Err` value"), w')
  | r => r
  end.

Definition store_single_object_and_meta (now : Z) (bucket_name key : bytes)
    (items : list (result IoError (list bytes))) (len : Z) : EM Object :=
  stored ← (if 0 <? len then store_object cfg items
            else mret ([], mkContentHash (md5_digest []), 0));
  let '(blocks, content_hash, size) := stored in
  unwrap (create_object_meta now bucket_name key size content_hash (SinglePart blocks)).

Definition store_inlined_object (now : Z) (bucket_name key data : bytes) : EM Object :=
  create_object_meta now bucket_name key (Z.of_nat (length data)) (mkContentHash (md5_digest data))
    (Inline data).

(** The delete transaction: the record out, its bytes off the counter. *)
Definition take_object_record (bucket key : bytes) : M S MetaError (option Object) :=
  transact id (
    obj ← take_object bucket key;
    _ ← match obj with
        | Some obj => _ ← add_bucket_usage bucket (as_i64 (- as_i64 (o_size obj))); mret tt
        | None => mret tt
        end;
    mret obj).

Definition delete_object (bucket key : bytes) : EM bool :=
  obj ← on_ns EMeta (take_object_record bucket key);
  match obj with
  | None => mret false
  | Some obj => _ ← release_blocks (o_blocks obj); mret true
  end.

(** [for key_val in bucket.iter_all() { delete_object(..)?; }]: the cursor
    reads the tree as it is at each step. *)
Fixpoint delete_objects (fuel : nat) (bucket_name : bytes) (cursor : option bytes) : EM unit :=
  match fuel with
  | O => mret tt
  | Datatypes.S fuel' =>
      item ← on_ns EMeta (tree_next bucket_name cursor);
      match item with
      | None => mret tt
      | Some (key, _) =>
          _ ← delete_object bucket_name key;
          delete_objects fuel' bucket_name (Some key)
      end
  end.

Definition bucket_delete (fuel : nat) (bucket_name : bytes) : EM unit :=
  bmt ← on_ns EMeta (tree_open DEFAULT_BUCKET_TREE);
  _ ← on_ns EMeta (tree_remove bmt bucket_name);
  _ ← on_ns EMeta (tree_open bucket_name);
  _ ← delete_objects fuel bucket_name None;
  on_ns EMeta (drop_bucket bucket_name).

(** One reference under the block's stripe; [false]: not there to reference. *)
Definition acquire_one (i : BlockId) : EM bool :=
  bumped ← on_shared EMeta (transact_when id (fun b => bool_decide (is_Some b)) (bump_block_rc i));
  mret (bool_decide (is_Some bumped)).

Fixpoint acquire_from (taken blocks : list BlockId) : EM bool :=
  match blocks with
  | [] => mret true
  | i :: blocks' =>
      bumped ← acquire_one i;
      if (bumped : bool) then acquire_from (taken ++ [i]) blocks'
      else _ ← release_blocks taken; mret false
  end.

Definition acquire_references (blocks : list BlockId) : EM bool := acquire_from [] blocks.

Definition clone_object_by_reference (now : Z) (source_bucket source_key dest_bucket dest_key : bytes) :
    EM (option Object) :=
  source ← on_ns EMeta (get_meta source_bucket source_key);
  match source with
  | None => mret None
  | Some source =>
      let write d := obj ← create_object_meta now dest_bucket dest_key (o_size source) (o_hash source) d;
                     mret (Some obj) in
      match o_data source with
      | Inline data => write (Inline data)
      | SinglePart blocks =>
          ok ← acquire_references blocks;
          if (ok : bool) then write (SinglePart blocks) else mret None
      | MultiPartData blocks parts =>
          ok ← acquire_references blocks;
          if (ok : bool) then write (MultiPartData blocks parts) else mret None
      end
  end.

(** [get_object_paths]: the path and length of every block, in order. *)
Definition block_path (i : BlockId) : EM (path * Z) :=
  record ← on_shared EMeta (get_block (as_slice i));
  match record with
  | Some block => mret (Block_disk_path block i (blocks_root cfg), b_size block)
  | None => M_err (EMeta BlockNotFound)
  end.

Definition get_object_paths (bucket_name key : bytes) : EM (option (Object * list (path * Z))) :=
  obj ← on_ns EMeta (get_meta bucket_name key);
  match obj with
  | None => mret None
  | Some obj_meta =>
      if is_inlined obj_meta then mret (Some (obj_meta, []))
      else paths ← M_map block_path (o_blocks obj_meta); mret (Some (obj_meta, paths))
  end.

Definition create_bucket (now : Z) (bucket_name : bytes) : EM unit :=
  on_ns EMeta (insert_bucket bucket_name (BucketMeta_to_vec (BucketMeta_new now bucket_name))).

Definition key_exists (bucket key : bytes) : EM bool :=
  t ← on_ns EMeta (tree_open bucket);
  on_ns EMeta (tree_contains_key t key).
End ObjectPaths.
