(* ===== verification/BatchSpecs.v ===== *)
(** The write path's guarantees, part one: what a batch does to the reference
    counts and to the block files (cas/write_path/batch.rs).

    The accounting of one entry and of a transaction's loop over entries is
    shared by the lone close and by the commit station; it is stated for a
    list of entries that may repeat a block. *)

From S2P Require Import Prelude Bytes Externals BlockIds Codec Records StoreHeader MetaStore Disk Placement MetaOps Accounting Engine.
From Stdlib Require Import Strings.Byte.
Local Open Scope Z_scope.
#[local] Set Warnings "-clear-no-such-hyp".

(* ------------------------------------------------------------------ *)
(** * Running a component inside the world *)

Section WorldWp.
Context {S T D : Type}.
Implicit Types w : World S D.

Lemma wp_on_ns {E A} (f : E -> EngErr) (m : M S E A) w Q :
  wp m (w_ns w) (fun r s' =>
    Q (map_err f r) (mkWorld s' (w_shared w) (w_disk w) (w_counters w))) ->
  wp (on_ns f m) w Q.
Proof. unfold wp, on_ns. by destruct (m (w_ns w)). Qed.

Lemma wp_on_shared {E A} (f : E -> EngErr) (m : M S E A) w Q :
  wp m (w_shared w) (fun r s' =>
    Q (map_err f r) (mkWorld (w_ns w) s' (w_disk w) (w_counters w))) ->
  wp (on_shared f m) w Q.
Proof. unfold wp, on_shared. by destruct (m (w_shared w)). Qed.

Lemma wp_on_files {A} (m : M (DiskState D) IoError A) w Q :
  wp m (w_disk w) (fun r ds' =>
    Q (map_err EIo r) (mkWorld (w_ns w) (w_shared w) ds' (w_counters w))) ->
  wp (on_files m) w Q.
Proof. unfold wp, on_files. by destruct (m (w_disk w)). Qed.

Lemma wp_in_tx {A} (m : M T MetaError A) (t : T) Q :
  wp m t (fun r t' => Q (map_err EMeta r) t') -> wp (in_tx m) t Q.
Proof. unfold wp, in_tx. by destruct (m t). Qed.
End WorldWp.

(** [e] is not a panic. *)
Definition no_panic (e : EngErr) : Prop := match e with EPanic _ => False | _ => True end.

(* ------------------------------------------------------------------ *)
(** * Recording entries *)

(** A committed, usable record. *)
Definition live_at (m : kvmap) (i : BlockId) : bool :=
  match block_at m i with Some b => negb (is_degraded b) | None => false end.

Lemma batch_refs_cons e es :
  batch_refs (e :: es) = replicate (be_occurrences e) (be_id e) ++ batch_refs es.
Proof. done. Qed.

Lemma elem_of_batch_refs e es : e ∈ es -> (1 <= be_occurrences e)%nat -> be_id e ∈ batch_refs es.
Proof.
  intros He Ho. unfold batch_refs. apply list_elem_of_In, in_concat.
  exists (replicate (be_occurrences e) (be_id e)). split.
  - apply list_elem_of_In, list_elem_of_fmap. by exists e.
  - destruct (be_occurrences e); [lia|]. by left.
Qed.

Lemma occ_replicate {A} `{EqDecision A} (x y : A) n :
  occ x (replicate n y) = if decide (x = y) then n else 0%nat.
Proof.
  induction n as [|n IH]; simpl; [by destruct (decide _)|]. rewrite IH. by destruct (decide _).
Qed.

Lemma add_refs_app F l k i : add_refs F (l ++ k) i = add_refs (add_refs F l) k i.
Proof. unfold add_refs. rewrite occ_app. lia. Qed.

Section Recording.
Context {S T : Type} `{StoreLaws S T, Blake3, FasterHexLaws}.
Context (h : Hasher) (root : path) (ns : kvmap) (fl : gmap path bytes).
Abbreviation TInv := (fun m F => Inv h root ns m fl F).

(** A file for the block lies at depth [d]. *)
Definition placed_at (i : BlockId) (len d : Z) : Prop :=
  is_u8 d /\ exists data, fl !! block_disk_path i d root = Some data /\
    hash_block h data = i /\ Z.of_nat (length data) = len.

(** An entry the transaction may record: if the block has no usable record,
    the batch has placed its file. *)
Definition recordable (m : kvmap) (e : BatchEntry) : Prop :=
  BlockId_wf (be_id e) /\ (1 <= be_occurrences e)%nat /\ is_usize (be_len e) /\
  (live_at m (be_id e) = false -> exists d, be_depth e = Some d /\ placed_at (be_id e) (be_len e) d).

(** The database after [l] more references: counts exact, usable records
    still usable, nothing but those blocks' records touched. *)
Definition counted (l : list BlockId) (m m' : kvmap) : Prop :=
  (forall i, BlockId_wf i -> rc_of m' i = rc_of m i + Z.of_nat (occ i l)) /\
  (forall i, BlockId_wf i -> live_at m i = true \/ i ∈ l -> live_at m' i = true) /\
  (forall p, (forall i, i ∈ l -> p <> block_key i) -> m' !! p = m !! p).

Lemma counted_nil m : counted [] m m.
Proof.
  split_and!; [intros; simpl; lia| |done]. intros i Hi [?|Hn]; [done|by apply elem_of_nil in Hn].
Qed.

Lemma counted_app l k m1 m2 m3 : counted l m1 m2 -> counted k m2 m3 -> counted (l ++ k) m1 m3.
Proof.
  intros (Hr1 & Hl1 & Hf1) (Hr2 & Hl2 & Hf2). split_and!.
  - intros i Hi. rewrite Hr2, Hr1, occ_app by done. lia.
  - intros i Hi Hor. apply Hl2; [done|].
    rewrite elem_of_app in Hor. destruct Hor as [Ha|[Ha|Ha]]; [left|left|by right]; apply Hl1; auto.
  - intros p Hp. rewrite Hf2, Hf1; [done|..]; intros i Hi; apply Hp, elem_of_app; auto.
Qed.

Lemma put_counted m i b b0rc :
  BlockId_wf i -> Block_wf b -> is_degraded b = false -> rc_of m i = b0rc -> b_rc b = b0rc + 1 ->
  counted [i] m (put_block m i b).
Proof.
  intros Hi Hb Hd Hrc Hb1. split_and!.
  - intros j Hj. unfold rc_of in *. destruct (decide (j = i)) as [->|Hne].
    + rewrite block_at_put by done. rewrite occ_cons_eq. simpl. lia.
    + rewrite block_at_put_ne by done. rewrite occ_cons_ne by done. simpl. lia.
  - intros j Hj Hor. unfold live_at in *. destruct (decide (j = i)) as [->|Hne].
    + rewrite block_at_put by done. by rewrite Hd.
    + rewrite block_at_put_ne by done. destruct Hor as [?|Hin]; [done|]. set_solver.
  - intros p Hp. unfold put_block. rewrite lookup_insert_ne; [done|].
    intros E. apply (Hp i); [set_solver|done].
Qed.

(** The panic-free bump of a usable record. *)
Lemma bump_counts i (t : T) F :
  BlockId_wf i -> rc_of (txkv t) i < usize_max -> TInv (txkv t) F ->
  wp (bump_block_rc i) t (fun r t' =>
    txbase t' = txbase t /\
    match r with
    | Ok (Some _) => live_at (txkv t) i = true /\ counted [i] (txkv t) (txkv t') /\ TInv (txkv t') (add_refs F [i])
    | Ok None => txkv t' = txkv t /\ live_at (txkv t) i = false
    | Err _ => True
    end).
Proof.
  intros Hi Hroom Hinv. eapply wp_mono; [apply bump_spec|].
  intros [[b'|]|e] t' [Hb Hr]; (split; [done|]); [| |done].
  - destruct Hr as (b & Hat & Hd & -> & ->).
    assert (rc_of (txkv t) i = b_rc b) as Hrc by (unfold rc_of; by rewrite Hat).
    pose proof (block_at_wf _ _ _ Hat) as Hwf. split_and!; [|..|apply inv_bump; auto; lia].
    { unfold live_at. by rewrite Hat, Hd. }
    apply (put_counted _ _ _ (b_rc b)); [done|by apply increment_wf|done|done|]. simpl.
    apply wrap_u64_small. destruct Hwf as (_ & _ & ? & _). int_bounds. lia.
  - destruct Hr as [-> Hr]. split; [done|]. unfold live_at.
    destruct Hr as [Hn|(b & -> & ->)]; [by rewrite block_at_None|done].
Qed.

Lemma bump_times_counts n i (t : T) F :
  BlockId_wf i -> rc_of (txkv t) i + Z.of_nat n <= usize_max -> live_at (txkv t) i = true ->
  TInv (txkv t) F ->
  wp (bump_times n i) t (fun r t' =>
    txbase t' = txbase t /\
    match r with
    | Ok _ => counted (replicate n i) (txkv t) (txkv t') /\ TInv (txkv t') (add_refs F (replicate n i))
    | Err _ => True
    end).
Proof.
  intros Hi. revert t F. induction n as [|n IH]; intros t F Hroom Hlive Hinv.
  { apply wp_ret. split_and!; [done|apply counted_nil|]. eapply inv_mono; [|exact Hinv].
    intros j. unfold add_refs. simpl. lia. }
  cbn [bump_times]. wp_call (bump_counts i t F Hi ltac:(lia) Hinv); intros [Hb Hr]; [|done].
  destruct a as [b|]; [|by destruct Hr as [_ Hr]; rewrite Hlive in Hr].
  destruct Hr as (_ & Hc & Hinv1). pose proof Hc as (Hrc & Hl & Hf).
  eapply wp_mono; [apply (IH _ (add_refs F [i]))|].
  - rewrite Hrc by done. rewrite occ_cons_eq. simpl occ. lia.
  - apply Hl; auto.
  - done.
  - intros r t2 [Hb2 Hr2]. rewrite Hb2, Hb. split; [done|]. destruct r as [u|e]; [|done].
    destruct Hr2 as [Hc2 Hinv2]. split; [by apply (counted_app [i] _ _ (txkv s))|].
    eapply inv_mono; [|exact Hinv2]. intros j. unfold add_refs. simpl. destruct (decide _); lia.
Qed.

Lemma insert_counts e d (t : T) F :
  BlockId_wf (be_id e) -> is_usize (be_len e) -> placed_at (be_id e) (be_len e) d ->
  rc_of (txkv t) (be_id e) < usize_max -> TInv (txkv t) F ->
  wp (insert_new_block (be_id e) (be_len e) d) t (fun r t' =>
    txbase t' = txbase t /\
    match r with
    | Ok _ => counted [be_id e] (txkv t) (txkv t') /\ TInv (txkv t') (add_refs F [be_id e])
    | Err _ => True
    end).
Proof.
  intros Hi Hlen (Hd & data & Hfl & Hh & Hl) Hroom Hinv.
  eapply wp_mono; [apply insert_new_block_spec|]. intros [b|err] t' [Hb Hr]; (split; [done|]); [|done].
  destruct Hr as (present & -> & -> & Hp). rewrite <- Hl in *.
  assert (forall p, present = Some p -> Block_wf p) as Hpwf.
  { intros p ->. by eapply block_at_wf. }
  assert (rc_of (txkv t) (be_id e) = match present with Some p => b_rc p | None => 0 end) as Hrc.
  { unfold rc_of. destruct present; [by rewrite Hp|by rewrite block_at_None]. }
  split.
  - eapply put_counted; [done|by apply healed_wf|by apply healed_live|exact Hrc|].
    destruct present as [p|]; simpl; [|lia]. apply wrap_u64_small.
    destruct (Hpwf p eq_refl) as (_ & _ & ? & _). int_bounds. lia.
  - eapply inv_insert; eauto. destruct present; [split; [done|lia]|done].
Qed.

Lemma record_entry_counts e (t : T) F :
  recordable (txkv t) e ->
  rc_of (txkv t) (be_id e) + Z.of_nat (be_occurrences e) <= usize_max ->
  TInv (txkv t) F ->
  wp (record_entry e) t (fun r t' =>
    txbase t' = txbase t /\
    match r with
    | Ok inserted => inserted = negb (live_at (txkv t) (be_id e)) /\
        counted (replicate (be_occurrences e) (be_id e)) (txkv t) (txkv t') /\
        TInv (txkv t') (add_refs F (replicate (be_occurrences e) (be_id e)))
    | Err err => no_panic err
    end).
Proof.
  intros (Hi & Hocc & Hlen & Hready) Hroom Hinv. unfold record_entry.
  destruct (be_occurrences e) as [|n] eqn:En; [lia|].
  apply wp_bind, wp_in_tx. eapply wp_mono; [apply (bump_counts _ t F Hi); [lia|done]|].
  assert (forall (t1 : T) inserted, txbase t1 = txbase t ->
    counted [be_id e] (txkv t) (txkv t1) -> TInv (txkv t1) (add_refs F [be_id e]) ->
    inserted = negb (live_at (txkv t) (be_id e)) ->
    wp ((in_tx (bump_times (Datatypes.S n - 1) (be_id e)) : M T EngErr unit) ≫= fun _ => mret inserted) t1
      (fun r t' => txbase t' = txbase t /\
        match r with
        | Ok inserted => inserted = negb (live_at (txkv t) (be_id e)) /\
            counted (replicate (Datatypes.S n) (be_id e)) (txkv t) (txkv t') /\
            TInv (txkv t') (add_refs F (replicate (Datatypes.S n) (be_id e)))
        | Err err => no_panic err
        end)) as Hrest.
  { intros t1 ins Hb1 Hc1 Hinv1 Hins. apply wp_bind, wp_in_tx.
    replace (Datatypes.S n - 1)%nat with n by lia. pose proof Hc1 as (Hrc & Hl & _).
    eapply wp_mono; [apply (bump_times_counts n _ t1 (add_refs F [be_id e]) Hi)|].
    - rewrite Hrc by done. rewrite occ_cons_eq. simpl occ. lia.
    - apply Hl; [done|right; set_solver].
    - done.
    - intros [u|err] t2 [Hb2 Hr2]; cbn beta iota; [|rewrite Hb2, Hb1; done].
      apply wp_ret. rewrite Hb2, Hb1. destruct Hr2 as [Hc2 Hinv2]. split_and!; [done|done|..].
      + by apply (counted_app [be_id e] _ _ (txkv t1)).
      + eapply inv_mono; [|exact Hinv2]. intros j. unfold add_refs. simpl. destruct (decide _); lia. }
  intros [[b|]|err] t1 [Hb1 Hr]; cbn beta iota; [..|done].
  - apply wp_bind, wp_ret. cbn beta iota. destruct Hr as (El & Hc & Hinv1). apply Hrest; [done..|].
    by rewrite El.
  - destruct Hr as [Ht1 Hdead]. destruct (Hready Hdead) as (d & -> & Hpl).
    apply wp_bind, wp_bind, wp_in_tx.
    eapply wp_mono; [apply (insert_counts e d t1 F Hi Hlen Hpl); rewrite Ht1; [lia|done]|].
    rewrite Ht1. intros [b|err] t2 [Hb2 Hr2]; cbn beta iota; [|rewrite Hb2; done].
    apply wp_ret. destruct Hr2 as [Hc2 Hinv2]. apply Hrest; [by rewrite Hb2|done|done|].
    by rewrite Hdead.
Qed.

Lemma recordable_counted l m m' e : counted l m m' -> recordable m e -> recordable m' e.
Proof.
  intros (_ & Hl & _) (Hi & Ho & Hlen & Hr). split_and!; [done..|]. intros Hd. apply Hr.
  destruct (live_at m (be_id e)) eqn:E; [|done]. rewrite Hl in Hd; auto.
Qed.

Lemma record_all_counts es (t : T) F :
  Forall (recordable (txkv t)) es ->
  (forall i, BlockId_wf i -> rc_of (txkv t) i + Z.of_nat (occ i (batch_refs es)) <= usize_max) ->
  TInv (txkv t) F ->
  wp (M_map record_entry es) t (fun r t' =>
    txbase t' = txbase t /\
    match r with
    | Ok _ => counted (batch_refs es) (txkv t) (txkv t') /\ TInv (txkv t') (add_refs F (batch_refs es))
    | Err err => no_panic err
    end).
Proof.
  revert t F. induction es as [|e es IH]; intros t F Hok Hroom Hinv.
  { apply wp_ret. split_and!; [done|apply counted_nil|]. eapply inv_mono; [|exact Hinv].
    intros j. unfold add_refs. simpl. lia. }
  apply Forall_cons in Hok as [He Hok]. pose proof He as (Hi & _).
  setoid_rewrite batch_refs_cons in Hroom. setoid_rewrite occ_app in Hroom.
  apply (wp_bind (record_entry e)).
  eapply wp_mono; [apply (record_entry_counts e t F He); [|done]|].
  { specialize (Hroom _ Hi). rewrite occ_replicate, decide_True in Hroom by done. lia. }
  intros [b|err] t1 [Hb1 Hr1]; cbn beta iota; [|done]. destruct Hr1 as (_ & Hc1 & Hinv1).
  apply (wp_bind (M_map record_entry es)). eapply wp_mono; [eapply (IH t1); [..|exact Hinv1]|].
  - eapply Forall_impl; [exact Hok|]. intros e'. by eapply recordable_counted.
  - intros i Hwf. destruct Hc1 as (Hrc & _). rewrite Hrc by done. specialize (Hroom i Hwf). lia.
  - intros [bs|err] t2 [Hb2 Hr2]; cbn beta iota; [|by rewrite Hb2]. apply wp_ret.
    destruct Hr2 as [Hc2 Hinv2]. rewrite Hb2. split_and!; [done|by eapply counted_app|].
    eapply inv_mono; [|exact Hinv2]. intros i. by rewrite batch_refs_cons, add_refs_app.
Qed.

(** The transaction: all of it or none of it. *)
Lemma record_tx_counts es (s : S) F :
  Forall (recordable (kv s)) es ->
  (forall i, BlockId_wf i -> rc_of (kv s) i + Z.of_nat (occ i (batch_refs es)) <= usize_max) ->
  TInv (kv s) F ->
  wp (transact EMeta (M_map record_entry es)) s (fun r s' =>
    match r with
    | Ok _ => counted (batch_refs es) (kv s) (kv s') /\ TInv (kv s') (add_refs F (batch_refs es))
    | Err err => no_panic err /\
        (kv s' = kv s \/
         counted (batch_refs es) (kv s) (kv s') /\ TInv (kv s') (add_refs F (batch_refs es)))
    end).
Proof.
  intros Hok Hroom Hinv. destruct (begin_spec s) as [Hb1 Hb2].
  apply wp_transact with (P := fun _ m =>
    counted (batch_refs es) (kv s) m /\ TInv m (add_refs F (batch_refs es))).
  - eapply wp_mono; [apply (record_all_counts es (begin_transaction s) F); by rewrite ?Hb1|].
    rewrite Hb1, Hb2. intros [bs|err] t [Hb Hr]; (split; [done|]); [done|auto].
  - auto.
  - done.
  - intros bs e s' _ HP. simpl. auto.
  - intros e s' Hs. simpl. auto.
Qed.
End Recording.

(* ------------------------------------------------------------------ *)
(** * The file work of a batch *)

Section FileWork.
Context {S T D : Type} `{StoreLaws S T, DiskLaws D, Blake3Laws, Md5, FasterHexLaws}.
Context (cfg : StoreCfg).
Abbreviation root := (blocks_root cfg).
Abbreviation tmp := (aw_tmp (cfg_writer cfg)).
Implicit Types w : World S D.

Definition wfiles w : gmap path bytes := dfiles (w_disk w).
Definition wnonce w : Z := ds_nonce (w_disk w).

(** Both databases read as before. *)
Definition same_dbs w w' : Prop :=
  kv (w_ns w') = kv (w_ns w) /\ kv (w_shared w') = kv (w_shared w).

Lemma same_dbs_refl w : same_dbs w w.
Proof. done. Qed.

Lemma same_dbs_trans w1 w2 w3 : same_dbs w1 w2 -> same_dbs w2 w3 -> same_dbs w1 w3.
Proof. unfold same_dbs. intuition congruence. Qed.

Lemma has_live_spec i w :
  wp (has_live_record i) w (fun r w' =>
    same_dbs w w' /\ w_disk w' = w_disk w /\
    match r with Ok l => l = live_at (kv (w_shared w)) i | Err e => no_panic e end).
Proof.
  unfold has_live_record. apply wp_bind, wp_on_shared. eapply wp_mono; [apply get_block_spec|].
  intros [[b|]|e] s' [Hk Hr]; cbn; [apply wp_ret|apply wp_ret|done]; (split_and!; [done|done|]);
    unfold live_at; [by rewrite Hr|by rewrite block_at_None].
Qed.

Lemma live_all_spec es w :
  wp (M_map (fun e => has_live_record (be_id e)) es) w (fun r w' =>
    same_dbs w w' /\ w_disk w' = w_disk w /\
    match r with
    | Ok ls => ls = map (fun e => live_at (kv (w_shared w)) (be_id e)) es
    | Err e => no_panic e
    end).
Proof.
  revert w. induction es as [|e es IH]; intros w; [by apply wp_ret|].
  apply (wp_bind (has_live_record (be_id e))). eapply wp_mono; [apply has_live_spec|].
  intros [l|err] w1 (Hs1 & Hd1 & Hr1); cbn beta iota; [|done].
  apply (wp_bind (M_map _ es)). eapply wp_mono; [apply IH|].
  intros [ls|err] w2 (Hs2 & Hd2 & Hr2); cbn beta iota;
    [apply wp_ret|]; (split_and!; [by eapply same_dbs_trans|congruence|]); [|done].
  destruct Hs1 as [_ Hk]. rewrite Hk in Hr2. by subst.
Qed.

Lemma id_width_u8 i d : BlockId_wf i -> 1 <= d <= Z.of_nat (id_width i) -> is_u8 d.
Proof. intros Hi Hd. destruct (id_width_cases i Hi) as [E|E]; rewrite E in Hd; int_bounds; lia. Qed.

Lemma place_spec i w :
  BlockId_wf i ->
  wp (place cfg i) w (fun r w' =>
    same_dbs w w' /\ w_disk w' = w_disk w /\ exists d, r = Ok d /\ is_u8 d).
Proof.
  intros Hi. unfold wp, place.
  pose proof (choose_depth_range (cfg_placement cfg) i (ds_disk (w_disk w)) (w_counters w) Hi) as Hr.
  destruct (choose_depth _ _ _ _) as [d c']. simpl in *. split_and!; [done|done|].
  exists d. split; [done|]. by eapply id_width_u8.
Qed.

(** The entry's block has no usable record in [m] and its bytes are at hand. *)
Definition overtaken_entry (m : kvmap) (e : BatchEntry) : Prop :=
  live_at m (be_id e) = false /\ exists bs, be_payload e = Deduped bs.

(** The paths an overtake may write: any block path of the id, and a temp file
    no older than nonce [n]. *)
Definition overtake_paths (m : kvmap) (es : list BatchEntry) (n : Z) (p : path) : Prop :=
  (exists e d, e ∈ es /\ overtaken_entry m e /\ p = block_disk_path (be_id e) d root) \/
  (exists i k, n <= k /\ p = temp_name tmp (to_hex i) k).

Definition with_depth (e : BatchEntry) (d : option Z) : BatchEntry :=
  mkBatchEntry (be_id e) (be_len e) (be_occurrences e) (be_payload e) d.

(** The entry after the overtake pass. *)
Definition overtaken (m : kvmap) (fl : gmap path bytes) (e e' : BatchEntry) : Prop :=
  match live_at m (be_id e), be_payload e with
  | false, Deduped bs => exists d, e' = with_depth e (Some d) /\ is_u8 d /\
      fl !! block_disk_path (be_id e) d root = Some bs
  | _, _ => e' = e
  end.

Context (Hcfg : tmp = root ++ [TMP_DIR_NAME]).

Lemma tmp_not_block i j k d : BlockId_wf i -> temp_name tmp (to_hex j) k <> block_disk_path i d root.
Proof. rewrite Hcfg. apply temp_not_block. Qed.

Lemma overtake_spec e w :
  let m := kv (w_shared w) in
  BlockId_wf (be_id e) -> 0 <= wnonce w < u64_max ->
  wp (overtake cfg (e, live_at m (be_id e))) w (fun r w' =>
    same_dbs w w' /\ wnonce w <= wnonce w' <= wnonce w + 1 /\
    agree_off (overtake_paths m [e] (wnonce w)) (wfiles w) (wfiles w') /\
    match r with Ok e' => overtaken m (wfiles w') e e' | Err err => no_panic err end).
Proof.
  intros m Hi Hn. unfold overtake, overtaken. destruct (live_at m (be_id e)) eqn:El.
  { apply wp_ret. split_and!; (done || lia). }
  destruct (be_payload e) as [sb|bs] eqn:Ep; [apply wp_ret; split_and!; (done || lia)|].
  apply wp_bind. eapply wp_mono; [by apply place_spec|].
  intros r w1 (Hs1 & Hd1 & d & -> & Hd). cbn beta iota.
  apply wp_bind, wp_on_files. rewrite Hd1.
  eapply wp_mono; [apply write_block_spec; by apply tmp_not_block|].
  assert (overtake_paths m [e] (wnonce w) (block_disk_path (be_id e) d root)) as HP1.
  { left. exists e, d. split_and!; [set_solver| |done]. split; [done|by exists bs]. }
  assert (overtake_paths m [e] (wnonce w) (next_temp (cfg_writer cfg) (be_id e) (w_disk w))) as HP2.
  { right. exists (be_id e), (wnonce w). split; [lia|done]. }
  assert (forall ds, nonce_step (w_disk w) ds -> wnonce w <= ds_nonce ds <= wnonce w + 1) as Hstep.
  { intros ds Hst. unfold wnonce in *. destruct Hst as [->| ->]; [lia|]. rewrite wrap_u64_small by lia. lia. }
  intros [p|err] ds' [Hst Hr]; cbn beta iota.
  - apply wp_ret. destruct Hr as [_ Hf]. unfold wfiles, wnonce. cbn. rewrite Hf.
    split_and!; [apply Hs1|by apply Hstep..|by apply agree_off_insert|].
    exists d. split_and!; [by rewrite <- Ep|apply Hd..|apply lookup_insert_eq].
  - destruct Hr as [Ha _]. cbn.
    split_and!; [apply Hs1|by apply Hstep..| |done].
    eapply agree_off_mono; [exact Ha|]. intros p [->| ->]; done.
Qed.

Lemma overtaken_id m fl e e' : overtaken m fl e e' -> be_id e' = be_id e.
Proof. unfold overtaken. destruct (live_at _ _), (be_payload e); naive_solver. Qed.

Lemma overtake_paths_cons m e es n n' p :
  n <= n' -> overtake_paths m [e] n p \/ overtake_paths m es n' p -> overtake_paths m (e :: es) n p.
Proof.
  intros Hn [[(e' & d & He & Ho)|(i & k & Hk & Hp)]|[(e' & d & He & Ho)|(i & k & Hk & Hp)]];
    [left; exists e', d; set_solver|right; exists i, k|left; exists e', d; set_solver|right; exists i, k];
    (split; [lia|done]).
Qed.

(** A block path of [i] is not one an overtake of other blocks writes. *)
Lemma not_overtake_path m es n i d :
  BlockId_wf i -> Forall (fun e => BlockId_wf (be_id e)) es -> i ∉ map be_id es ->
  ~ overtake_paths m es n (block_disk_path i d root).
Proof.
  intros Hi Hes Hni [(e & d' & He & _ & E)|(j & k & _ & E)].
  - apply Hni. rewrite Forall_forall in Hes. apply list_elem_of_fmap. exists e. split; [|done].
    by eapply block_disk_path_name_inj; eauto.
  - symmetry in E. revert E. by apply tmp_not_block.
Qed.

Lemma overtakes_spec es w :
  let m := kv (w_shared w) in
  Forall (fun e => BlockId_wf (be_id e)) es -> NoDup (map be_id es) ->
  0 <= wnonce w -> wnonce w + Z.of_nat (length es) <= u64_max ->
  wp (M_map (overtake cfg) (zip es (map (fun e => live_at m (be_id e)) es))) w (fun r w' =>
    same_dbs w w' /\ wnonce w <= wnonce w' <= wnonce w + Z.of_nat (length es) /\
    agree_off (overtake_paths m es (wnonce w)) (wfiles w) (wfiles w') /\
    match r with Ok es' => Forall2 (overtaken m (wfiles w')) es es' | Err err => no_panic err end).
Proof.
  revert w. induction es as [|e es IH]; intros w m Hwf Hnd Hn Hroom.
  { apply wp_ret. split_and!; (done || constructor || (simpl; lia)). }
  apply Forall_cons in Hwf as [Hi Hwf]. simpl in Hnd, Hroom. apply NoDup_cons in Hnd as [Hni Hnd].
  cbn [zip_with map M_map]. apply (wp_bind (overtake cfg (e, live_at m (be_id e)))).
  eapply wp_mono; [apply overtake_spec; [done|lia]|]. fold m.
  intros r w1 (Hs1 & Hn1 & Ha1 & Hr1). pose proof Hs1 as [_ Hk1].
  assert (agree_off (overtake_paths m (e :: es) (wnonce w)) (wfiles w) (wfiles w1)) as Ha1'.
  { eapply agree_off_mono; [exact Ha1|]. intros p Hp. eapply overtake_paths_cons; eauto. reflexivity. }
  destruct r as [e'|err]; cbn beta iota; [|simpl; split_and!; (done || lia)].
  apply (wp_bind (M_map (overtake cfg) _)). unfold m at 1. rewrite <- Hk1.
  eapply wp_mono; [apply IH; [done|done|lia|lia]|]. rewrite Hk1. fold m.
  intros r w2 (Hs2 & Hn2 & Ha2 & Hr2).
  assert (same_dbs w w2) as Hs by (by eapply same_dbs_trans).
  assert (agree_off (overtake_paths m (e :: es) (wnonce w)) (wfiles w) (wfiles w2)) as Ha.
  { eapply agree_off_trans; [exact Ha1'|]. eapply agree_off_mono; [exact Ha2|].
    intros p Hp. eapply overtake_paths_cons; [|by right]. lia. }
  destruct r as [es'|err]; cbn beta iota; [apply wp_ret|]; simpl length; (split_and!; [done|lia|lia|done|]); [|done].
  constructor; [|done]. unfold overtaken in *.
  destruct (live_at m (be_id e)), (be_payload e) as [sb|bs]; try done.
  destruct Hr1 as (d & -> & Hd & Hf). exists d. split_and!; [done|apply Hd..|].
  rewrite Ha2; [done|]. by apply not_overtake_path.
Qed.

(** The staged files that are to be landed. *)
Definition lands (els : list (BatchEntry * bool)) : list StagedBlock :=
  omap (fun el => match be_payload el.1, el.2 with Staged b, false => Some b | _, _ => None end) els.

Lemma sort_out_spec els w :
  wp (sort_out els) w (fun r w' =>
    same_dbs w w' /\ wnonce w' = wnonce w /\ r = Ok (lands els) /\
    agree_off (fun p => exists e b, (e, true) ∈ els /\ be_payload e = Staged b /\ p = temp_path b)
      (wfiles w) (wfiles w')).
Proof.
  revert w. induction els as [|[e l] els IH]; intros w; [by apply wp_ret|].
  assert (forall w0, wp (sort_out els) w0 (fun r w' =>
    same_dbs w0 w' /\ wnonce w' = wnonce w0 /\ r = Ok (lands els) /\
    agree_off (fun p => exists e0 b, (e0, true) ∈ (e, l) :: els /\ be_payload e0 = Staged b /\ p = temp_path b)
      (wfiles w0) (wfiles w'))) as IH'.
  { intros w0. eapply wp_mono; [apply IH|]. intros r w' (? & ? & ? & Ha). split_and!; try done.
    eapply agree_off_mono; [exact Ha|]. intros p (e0 & b & He & Hp). exists e0, b. set_solver. }
  cbn [sort_out]. unfold lands. cbn [omap list_omap fst snd]. fold (lands els).
  destruct (be_payload e) as [sb|bs] eqn:Ep; [|apply IH'].
  destruct l.
  - apply wp_bind, wp_on_files. eapply wp_mono; [apply discard_staged_spec|].
    intros r ds' (-> & Hn & Ha). cbn beta iota. eapply wp_mono; [apply IH'|].
    intros r w' (Hs & Hn' & Hr & Ha'). split_and!; [done|by rewrite Hn'|done|].
    eapply agree_off_trans; [|exact Ha']. eapply agree_off_mono; [exact Ha|].
    intros p ->. exists e, sb. set_solver.
  - apply wp_bind. eapply wp_mono; [apply IH'|]. intros r w' (Hs & Hn' & -> & Ha').
    cbn beta iota. by apply wp_ret.
Qed.

(* ------------------------------------------------------------------ *)
(** * Entries of a batch *)

(** The staged block of an entry was staged for it, under a nonce below [n]. *)
Definition staged_for (n : Z) (e : BatchEntry) : Prop :=
  match be_payload e with
  | Staged b =>
      be_depth e = Some (sb_depth b) /\ is_u8 (sb_depth b) /\
      final_path b = block_disk_path (be_id e) (sb_depth b) root /\
      exists k, 0 <= k < n /\ temp_path b = temp_name tmp (to_hex (be_id e)) k
  | Deduped _ => be_depth e = None
  end.

Definition entry_data (fl : gmap path bytes) (e : BatchEntry) : option bytes :=
  match be_payload e with Staged b => fl !! temp_path b | Deduped bs => Some bs end.

(** An entry as [accumulate] leaves it: bytes at hand that hash to its id. *)
Definition entry_ok (fl : gmap path bytes) (n : Z) (e : BatchEntry) : Prop :=
  (1 <= be_occurrences e)%nat /\ is_usize (be_len e) /\ staged_for n e /\
  exists data, entry_data fl e = Some data /\ hash_block (cfg_hasher cfg) data = be_id e /\
    Z.of_nat (length data) = be_len e.

Lemma entry_ok_wf fl n e : entry_ok fl n e -> BlockId_wf (be_id e).
Proof. intros (_ & _ & _ & data & _ & <- & _). apply hash_block_wf. Qed.

(** The entries beside what was read of their blocks. *)
Lemma zip_live (f : BatchEntry -> bool) es : zip es (map f es) = map (fun e => (e, f e)) es.
Proof. induction es as [|e es IH]; simpl; [done|]. by rewrite IH. Qed.

Lemma elem_of_lands m es b :
  b ∈ lands (map (fun e => (e, live_at m (be_id e))) es) <->
  exists e, e ∈ es /\ live_at m (be_id e) = false /\ be_payload e = Staged b.
Proof.
  unfold lands. rewrite list_elem_of_omap. split.
  - intros (el & Hin & Hb). apply list_elem_of_fmap in Hin as (e & -> & He). simpl in Hb.
    exists e. destruct (be_payload e), (live_at m (be_id e)); naive_solver.
  - intros (e & He & Hl & Hp). exists (e, live_at m (be_id e)).
    split; [by apply (list_elem_of_fmap_2 (fun e => (e, live_at m (be_id e))))|]. simpl. by rewrite Hp, Hl.
Qed.

Lemma to_hex_inj i j : BlockId_wf i -> BlockId_wf j -> to_hex i = to_hex j -> i = j.
Proof. intros Hi Hj E. apply as_slice_inj; [done|done|]. by apply hex_string_inj. Qed.

(** Distinct blocks have distinct temp files and distinct final paths. *)
Lemma staged_paths n e e' b b' :
  BlockId_wf (be_id e) -> BlockId_wf (be_id e') -> staged_for n e -> staged_for n e' ->
  be_payload e = Staged b -> be_payload e' = Staged b' ->
  (temp_path b = temp_path b' -> be_id e = be_id e') /\
  (final_path b = final_path b' -> be_id e = be_id e') /\
  temp_path b <> final_path b'.
Proof.
  unfold staged_for. intros Hi Hi' He He' Hb Hb'. rewrite Hb in He. rewrite Hb' in He'.
  destruct He as (_ & _ & -> & k & Hk & ->), He' as (_ & _ & -> & k' & Hk' & ->).
  split_and!.
  - intros E. unfold to_hex in E. apply temp_name_inj in E as [E _]; [|lia..]. by apply as_slice_inj.
  - intros E. by eapply block_disk_path_name_inj.
  - by apply tmp_not_block.
Qed.

Lemma lands_NoDup {B} (g : StagedBlock -> B) (f : BatchEntry -> bool) es :
  NoDup (map be_id es) ->
  (forall e e' b b', e ∈ es -> e' ∈ es -> be_payload e = Staged b -> be_payload e' = Staged b' ->
     g b = g b' -> be_id e = be_id e') ->
  NoDup (map g (lands (map (fun e => (e, f e)) es))).
Proof.
  induction es as [|e es IH]; intros Hnd Hinj; [apply NoDup_nil_2|].
  simpl in Hnd. apply NoDup_cons in Hnd as [Hni Hnd].
  assert (NoDup (map g (lands (map (fun e => (e, f e)) es)))) as Hrest.
  { apply IH; [done|]. intros e1 e2 b1 b2 H1' H2'. apply Hinj; by apply elem_of_cons; right. }
  unfold lands. cbn [map omap list_omap fst snd]. fold (lands (map (fun e => (e, f e)) es)).
  destruct (be_payload e) as [b|] eqn:Ep; [|done]. destruct (f e); [done|].
  simpl. apply NoDup_cons. split; [|done].
  intros (b' & E & Hb')%list_elem_of_fmap. apply Hni.
  unfold lands in Hb'. apply list_elem_of_omap in Hb' as (el & Hel & Hb').
  apply list_elem_of_fmap in Hel as (e' & -> & He'). simpl in Hb'.
  destruct (be_payload e') as [b2|] eqn:Ep'; [|done]. destruct (f e'); [done|]. simplify_eq.
  apply list_elem_of_fmap. exists e'. split; [|done].
  eapply Hinj; [by apply elem_of_cons; left|by apply elem_of_cons; right|done|done|done].
Qed.

Lemma lands_landable m n es :
  NoDup (map be_id es) -> Forall (fun e => BlockId_wf (be_id e) /\ staged_for n e) es ->
  landable (lands (map (fun e => (e, live_at m (be_id e))) es)).
Proof.
  intros Hnd Hes. rewrite Forall_forall in Hes.
  assert (forall e e' b b', e ∈ es -> e' ∈ es -> be_payload e = Staged b -> be_payload e' = Staged b' ->
    (temp_path b = temp_path b' -> be_id e = be_id e') /\
    (final_path b = final_path b' -> be_id e = be_id e') /\ temp_path b <> final_path b') as Hp.
  { intros e e' b b' He He' Hb Hb'. destruct (Hes e He), (Hes e' He'). by eapply staged_paths. }
  split_and!.
  - apply lands_NoDup; [done|]. intros e e' b b' He He' Hb Hb'. by destruct (Hp e e' b b' He He' Hb Hb') as (? & ? & ?).
  - apply lands_NoDup; [done|]. intros e e' b b' He He' Hb Hb'. by destruct (Hp e e' b b' He He' Hb Hb') as (? & ? & ?).
  - intros b b' (e & He & _ & Hb)%elem_of_lands (e' & He' & _ & Hb')%elem_of_lands.
    by destruct (Hp e e' b b' He He' Hb Hb') as (? & ? & ?).
Qed.

(* ------------------------------------------------------------------ *)
(** * Closing a batch *)

Definition winv w (F : BlockId -> nat) : Prop :=
  Inv (cfg_hasher cfg) root (kv (w_ns w)) (kv (w_shared w)) (wfiles w) F.

(** The paths a close may write: block paths of its blocks without a usable
    record, its own temp files, and temp files newer than [n]. *)
Definition commit_paths (m : kvmap) (es : list BatchEntry) (n : Z) (p : path) : Prop :=
  (exists e d, e ∈ es /\ live_at m (be_id e) = false /\ p = block_disk_path (be_id e) d root) \/
  (exists e b, e ∈ es /\ be_payload e = Staged b /\ p = temp_path b) \/
  (exists i k, n <= k /\ p = temp_name tmp (to_hex i) k).

Lemma overtake_commit_paths m es n p : overtake_paths m es n p -> commit_paths m es n p.
Proof.
  intros [(e & d & He & [Hl _] & Hp)|Hk]; [left; by exists e, d|by right; right].
Qed.

Lemma overtaken_payload m fl e e' :
  overtaken m fl e e' -> be_payload e' = be_payload e /\ be_len e' = be_len e /\
    be_occurrences e' = be_occurrences e.
Proof. unfold overtaken. destruct (live_at _ _), (be_payload e) eqn:?; naive_solver. Qed.

Lemma overtaken_map {B} (g : BatchEntry -> B) m fl es es' :
  (forall e e', overtaken m fl e e' -> g e' = g e) ->
  Forall2 (overtaken m fl) es es' -> map g es' = map g es.
Proof. intros Hg. induction 1 as [|e e' es es' He _ IH]; simpl; [done|]. by rewrite (Hg e e'), IH. Qed.

Lemma overtaken_refs m fl es es' :
  Forall2 (overtaken m fl) es es' -> batch_refs es' = batch_refs es.
Proof.
  intros HF. unfold batch_refs. f_equal. eapply overtaken_map; [|exact HF].
  intros e e' He. destruct (overtaken_payload _ _ _ _ He) as (_ & _ & ->). by rewrite (overtaken_id _ _ _ _ He).
Qed.

Lemma inv_commit_paths m n n' es ns fl fl' F :
  Forall (fun e => BlockId_wf (be_id e) /\ staged_for n e) es ->
  agree_off (commit_paths m es n') fl fl' ->
  Inv (cfg_hasher cfg) root ns m fl F -> Inv (cfg_hasher cfg) root ns m fl' F.
Proof.
  intros Hes Ha. rewrite Forall_forall in Hes. apply inv_disk. intros i b Hi Hb Hd. apply Ha.
  intros [(e & d & He & Hl & E)|[(e & sb & He & Hp & E)|(j & k & _ & E)]].
  - apply block_disk_path_name_inj in E; [|done|by apply Hes]. subst i. unfold live_at in Hl.
    by rewrite Hb, Hd in Hl.
  - destruct (Hes e He) as [_ Hst]. unfold staged_for in Hst. rewrite Hp in Hst.
    destruct Hst as (_ & _ & _ & k & _ & Hk). rewrite Hk in E. symmetry in E. by eapply tmp_not_block.
  - symmetry in E. by eapply tmp_not_block.
Qed.

(** After the file work every entry can be recorded. *)
Lemma entry_recordable m n es fl0 fl1 fl2 fl3 e e' :
  NoDup (map be_id es) -> Forall (entry_ok fl0 n) es ->
  let staged := lands (map (fun e => (e, live_at m (be_id e))) es) in
  agree_off (overtake_paths m es n) fl0 fl1 ->
  agree_off (fun p => exists e b, e ∈ es /\ live_at m (be_id e) = true /\
               be_payload e = Staged b /\ p = temp_path b) fl1 fl2 ->
  agree_off (batch_path staged) fl2 fl3 ->
  (forall b, b ∈ staged -> fl3 !! final_path b = fl2 !! temp_path b) ->
  e ∈ es -> overtaken m fl1 e e' -> recordable (cfg_hasher cfg) root fl3 m e'.
Proof.
  intros Hnd Hok staged Ha1 Ha2 Ha3 Hland He Ho.
  pose proof Hok as Hall. rewrite Forall_forall in Hall.
  assert (forall e0, e0 ∈ es -> be_id e0 = be_id e -> e0 = e) as Huniq.
  { intros e0 He0 Eid. apply list_elem_of_lookup in He0 as [k0 Hk0], He as [k Hk].
    assert (k0 = k) as ->; [|congruence]. eapply NoDup_lookup; [exact Hnd|..]; rewrite list_lookup_fmap;
      [rewrite Hk0|rewrite Hk]; simpl; [done|by rewrite Eid]. }
  destruct (overtaken_payload _ _ _ _ Ho) as (Hp & Hl & Hoc).
  pose proof (overtaken_id _ _ _ _ Ho) as Hid.
  pose proof (Hall e He) as (Hocc & Hlen & Hst & data & Hdata & Hh & Hdl).
  assert (BlockId_wf (be_id e)) as Hi by (by eapply entry_ok_wf, Hall).
  split_and!; [by rewrite Hid|by rewrite Hoc|by rewrite Hl|].
  rewrite Hid, Hl. intros Hdead. unfold overtaken in Ho. rewrite Hdead in Ho.
  unfold entry_data in Hdata. unfold staged_for in Hst.
  destruct (be_payload e) as [b|bs] eqn:Ep.
  - subst e'. destruct Hst as (Hd & Hu & Hfin & k & Hk & Htmp). exists (sb_depth b).
    split; [done|]. split; [done|]. exists data.
    assert (b ∈ staged) as Hb by (by apply elem_of_lands; exists e).
    rewrite <- Hfin, (Hland b Hb), Ha2, Ha1; [done|..].
    + rewrite Htmp. intros [(e0 & d & He0 & _ & E)|(j & k' & Hk' & E)].
      * revert E. apply tmp_not_block. by eapply entry_ok_wf, Hall.
      * unfold to_hex in E. apply temp_name_inj in E as [_ E]; lia.
    + intros (e0 & b0 & He0 & Hl0 & Hp0 & E).
      assert (be_id e = be_id e0) as Eid; [|rewrite Eid in Hdead; congruence].
      refine (proj1 (staged_paths n e e0 b b0 Hi _ _ _ Ep Hp0) E).
      * by eapply entry_ok_wf, Hall.
      * by apply Hall.
      * by apply Hall.
  - destruct Ho as (d & -> & Hd & Hf). simplify_eq. exists d. split; [done|]. split; [done|].
    exists data. split_and!; [|done..]. rewrite Ha3, Ha2; [done|..].
    + intros (e0 & b0 & He0 & _ & Hp0 & E). pose proof (Hall e0 He0) as (_ & _ & Hst0 & _).
      unfold staged_for in Hst0. rewrite Hp0 in Hst0. destruct Hst0 as (_ & _ & _ & k & _ & Hk).
      rewrite Hk in E. symmetry in E. by eapply tmp_not_block.
    + intros (b0 & Hb0 & E). apply elem_of_lands in Hb0 as (e0 & He0 & _ & Hp0).
      pose proof (Hall e0 He0) as (_ & _ & Hst0 & _).
      unfold staged_for in Hst0. rewrite Hp0 in Hst0. destruct Hst0 as (_ & _ & Hf0 & k & _ & Hk).
      destruct E as [E|E].
      * rewrite Hk in E. symmetry in E. by eapply tmp_not_block.
      * rewrite Hf0 in E. apply block_disk_path_name_inj in E; [|done|by eapply entry_ok_wf, Hall].
        rewrite (Huniq e0) in Hp0; [|done|done]. congruence.
Qed.

(** What every outcome of a close leaves alone. *)
Definition close_frame (es : list BatchEntry) w w' : Prop :=
  kv (w_ns w') = kv (w_ns w) /\ wnonce w <= wnonce w' <= wnonce w + Z.of_nat (length es) /\
  agree_off (commit_paths (kv (w_shared w)) es (wnonce w)) (wfiles w) (wfiles w').

Lemma close_frame_files es w w' F n :
  Forall (fun e => BlockId_wf (be_id e) /\ staged_for n e) es ->
  same_dbs w w' -> close_frame es w w' -> winv w F -> winv w' F.
Proof.
  intros Hes [Hns Hsh] (_ & _ & Ha) Hinv. unfold winv. rewrite Hns, Hsh.
  by eapply inv_commit_paths.
Qed.

(** The transaction of a close, once its files are in place. *)
Lemma commit_tx_spec es es' w0 w F :
  same_dbs w0 w -> close_frame es w0 w -> batch_refs es' = batch_refs es ->
  Forall (recordable (cfg_hasher cfg) root (wfiles w) (kv (w_shared w0))) es' ->
  (forall i, BlockId_wf i ->
     rc_of (kv (w_shared w0)) i + Z.of_nat (occ i (batch_refs es)) <= usize_max) ->
  winv w F ->
  wp (inserted ← on_shared id (transact EMeta (M_map record_entry es')); mret (outcome_of inserted)) w
    (fun r w' => close_frame es w0 w' /\ match r with
     | Ok _ => counted (batch_refs es) (kv (w_shared w0)) (kv (w_shared w')) /\
               winv w' (add_refs F (batch_refs es))
     | Err err => no_panic err /\ winv w' F /\
         (kv (w_shared w') = kv (w_shared w0) \/
          counted (batch_refs es) (kv (w_shared w0)) (kv (w_shared w')))
     end).
Proof.
  intros Hs Hfr Hrefs Hrec Hroom Hinv. pose proof Hs as [_ Hsh]. apply wp_bind, wp_on_shared.
  rewrite <- Hsh in Hrec, Hroom |- *.
  eapply wp_mono; [apply (record_tx_counts (cfg_hasher cfg) root (kv (w_ns w)) (wfiles w) es'
    (w_shared w) F Hrec); [by rewrite Hrefs|done]|].
  assert (forall s', close_frame es w0 (mkWorld (w_ns w) s' (w_disk w) (w_counters w))) as Hfr'.
  { intros s'. exact Hfr. }
  rewrite Hrefs. intros [ins|err] s' Hr; cbn beta iota.
  - apply wp_ret. split; [done|exact Hr].
  - simpl. destruct Hr as [Hnp Hr]. split_and!; [apply Hfr'|done| |].
    + destruct Hr as [Hr|[_ Hr]]; [unfold winv; simpl; by rewrite Hr|]. by eapply inv_drop.
    + destruct Hr as [Hr|[Hr _]]; auto.
Qed.


Lemma entries_staged fl n es :
  Forall (entry_ok fl n) es -> Forall (fun e => BlockId_wf (be_id e) /\ staged_for n e) es.
Proof. intros Hok. eapply Forall_impl; [exact Hok|]. intros e He. split; [by eapply entry_ok_wf|apply He]. Qed.

Lemma overtaken_back m fl es es' e' :
  Forall2 (overtaken m fl) es es' -> e' ∈ es' -> exists e, e ∈ es /\ overtaken m fl e e'.
Proof.
  intros HF [k Hk]%list_elem_of_lookup. destruct (Forall2_lookup_r _ _ _ _ _ HF Hk) as (e & He & Ho).
  exists e. split; [by eapply list_elem_of_lookup_2|done].
Qed.

Lemma overtaken_lands m fl es es' :
  Forall2 (overtaken m fl) es es' ->
  lands (map (fun e => (e, live_at m (be_id e))) es') = lands (map (fun e => (e, live_at m (be_id e))) es).
Proof.
  induction 1 as [|e e' es es' He _ IH]; [done|]. unfold lands in *. cbn [map omap list_omap fst snd].
  destruct (overtaken_payload _ _ _ _ He) as (-> & _). rewrite (overtaken_id _ _ _ _ He). by rewrite IH.
Qed.

(** The first half of the file work: the reads and the overtakes. *)
Lemma overtake_phase {A} es w (k : list BatchEntry -> list bool -> M (World S D) EngErr A) Q :
  let m := kv (w_shared w) in
  Forall (fun e => BlockId_wf (be_id e)) es -> NoDup (map be_id es) ->
  0 <= wnonce w -> wnonce w + Z.of_nat (length es) <= u64_max ->
  (forall err w', no_panic err -> same_dbs w w' -> close_frame es w w' -> Q (Err err) w') ->
  (forall es' w', same_dbs w w' -> close_frame es w w' ->
     agree_off (overtake_paths m es (wnonce w)) (wfiles w) (wfiles w') ->
     Forall2 (overtaken m (wfiles w')) es es' ->
     wp (k es' (map (fun e => live_at m (be_id e)) es')) w' Q) ->
  wp (live ← M_map (fun e => has_live_record (be_id e)) es;
      es ← M_map (overtake cfg) (zip es live); k es live) w Q.
Proof.
  intros m Hwf Hnd Hn0 Hn Herr Hk. apply wp_bind. eapply wp_mono; [apply live_all_spec|].
  intros [ls|err] w1 (Hs1 & Hd1 & Hr1); cbn beta iota.
  2: { apply Herr; [done..|]. unfold close_frame, wfiles, wnonce. rewrite Hd1.
       split_and!; [apply Hs1|lia|lia|done]. }
  subst ls. fold m. pose proof Hs1 as [_ Hk1]. fold m in Hk1.
  assert (wnonce w1 = wnonce w) as Hn1 by (unfold wnonce; by rewrite Hd1).
  assert (wfiles w1 = wfiles w) as Hf1 by (unfold wfiles; by rewrite Hd1).
  pose proof (overtakes_spec es w1 Hwf Hnd) as Hov. rewrite Hk1, Hn1, Hf1 in Hov.
  apply wp_bind. eapply wp_mono; [by apply Hov|]. intros r w2 (Hs2 & Hn2 & Ha2 & Hr2).
  assert (same_dbs w w2) as Hs02 by (by eapply same_dbs_trans).
  assert (close_frame es w w2) as Hfr2.
  { split_and!; [apply Hs02|lia|lia|]. eapply agree_off_mono; [exact Ha2|]. apply overtake_commit_paths. }
  destruct r as [es'|err]; cbn beta iota; [|by apply Herr].
  replace (map (fun e => live_at m (be_id e)) es) with (map (fun e => live_at m (be_id e)) es');
    [by apply Hk|].
  eapply overtaken_map; [|exact Hr2]. intros e e' He. by rewrite (overtaken_id _ _ _ _ He).
Qed.

(** The second half: surplus dropped, the rest landed. *)
Lemma landing_phase {A} es es' w w2 (k : M (World S D) EngErr A) Q :
  let m := kv (w_shared w) in
  NoDup (map be_id es) -> Forall (entry_ok (wfiles w) (wnonce w)) es ->
  same_dbs w w2 -> close_frame es w w2 ->
  agree_off (overtake_paths m es (wnonce w)) (wfiles w) (wfiles w2) ->
  Forall2 (overtaken m (wfiles w2)) es es' ->
  (forall err w', no_panic err -> same_dbs w w' -> close_frame es w w' -> Q (Err err) w') ->
  (forall w', same_dbs w w' -> close_frame es w w' ->
     Forall (recordable (cfg_hasher cfg) root (wfiles w') m) es' -> wp k w' Q) ->
  wp (to_land ← sort_out (zip es' (map (fun e => live_at m (be_id e)) es'));
      _ ← on_files (land_batch (cfg_writer cfg) to_land); k) w2 Q.
Proof.
  intros m Hnd Hok Hs2 Hfr2 Ha2 Hr2 Herr Hk. pose proof (entries_staged _ _ _ Hok) as Hes.
  rewrite zip_live. apply wp_bind. eapply wp_mono; [apply sort_out_spec|].
  intros r w3 (Hs3 & Hn3 & -> & Ha3). cbn beta iota. rewrite (overtaken_lands _ _ _ _ Hr2).
  assert (agree_off (fun p => exists e b, e ∈ es /\ live_at m (be_id e) = true /\
            be_payload e = Staged b /\ p = temp_path b) (wfiles w2) (wfiles w3)) as Ha3'.
  { eapply agree_off_mono; [exact Ha3|]. intros p (e' & b & Hin & Hp & ->).
    apply list_elem_of_fmap in Hin as (e1 & [= -> Hl] & He1).
    destruct (overtaken_back _ _ _ _ _ Hr2 He1) as (e & He & Ho). exists e, b.
    destruct (overtaken_payload _ _ _ _ Ho) as (Hp' & _).
    rewrite (overtaken_id _ _ _ _ Ho) in Hl. rewrite Hp' in Hp. done. }
  set (staged := lands (map (fun e => (e, live_at m (be_id e))) es)) in *.
  apply wp_bind, wp_on_files.
  eapply wp_mono; [apply land_batch_spec; by eapply lands_landable|]. intros r ds4 (Hn4 & Ha4 & Hr4).
  set (w4 := mkWorld (w_ns w3) (w_shared w3) ds4 (w_counters w3)).
  assert (same_dbs w w4) as Hs04 by (by eapply same_dbs_trans).
  assert (close_frame es w w4) as Hfr4.
  { destruct Hfr2 as (_ & ? & Hf2). unfold close_frame, wnonce in *. cbn. rewrite Hn4, Hn3.
    split_and!; [apply Hs04|lia|lia|]. eapply agree_off_trans; [exact Hf2|].
    eapply agree_off_trans; [|eapply agree_off_mono; [exact Ha4|]].
    - eapply agree_off_mono; [exact Ha3'|]. intros p (e & b & He & _ & Hp & ->). right; left. by exists e, b.
    - intros p (b & Hb & Hp). apply elem_of_lands in Hb as (e & He & Hl & Hp').
      destruct Hp as [->| ->]; [right; left; by exists e, b|left].
      rewrite Forall_forall in Hes. destruct (Hes e He) as [_ Hst]. unfold staged_for in Hst.
      rewrite Hp' in Hst. destruct Hst as (_ & _ & -> & _). by exists e, (sb_depth b). }
  destruct r as [u|err]; cbn beta iota; [|by apply Herr].
  apply Hk; [done|done|]. apply Forall_forall. intros e' He'.
  destruct (overtaken_back _ _ _ _ _ Hr2 He') as (e & He & Ho).
  eapply (entry_recordable m (wnonce w) es (wfiles w) (wfiles w2) (wfiles w3)); try done.
  intros b Hb. by apply Hr4.
Qed.

Lemma commit_batch_spec es w F :
  NoDup (map be_id es) -> Forall (entry_ok (wfiles w) (wnonce w)) es ->
  0 <= wnonce w -> wnonce w + Z.of_nat (length es) <= u64_max ->
  (forall i, BlockId_wf i ->
     rc_of (kv (w_shared w)) i + Z.of_nat (occ i (batch_refs es)) <= usize_max) ->
  winv w F ->
  wp (commit_batch cfg es) w (fun r w' =>
    close_frame es w w' /\ match r with
    | Ok _ => counted (batch_refs es) (kv (w_shared w)) (kv (w_shared w')) /\
              winv w' (add_refs F (batch_refs es))
    | Err err => no_panic err /\ winv w' F /\
        (kv (w_shared w') = kv (w_shared w) \/
         counted (batch_refs es) (kv (w_shared w)) (kv (w_shared w')))
    end).
Proof.
  intros Hnd Hok Hn0 Hn Hroom Hinv. pose proof (entries_staged _ _ _ Hok) as Hes.
  assert (Forall (fun e => BlockId_wf (be_id e)) es) as Hwf
    by (eapply Forall_impl; [exact Hes|]; naive_solver).
  assert (forall w' err, no_panic err -> same_dbs w w' -> close_frame es w w' ->
    close_frame es w w' /\ no_panic err /\ winv w' F /\
    (kv (w_shared w') = kv (w_shared w) \/
     counted (batch_refs es) (kv (w_shared w)) (kv (w_shared w')))) as Hfail.
  { intros w' err Hnp Hs Hfr. split_and!; [done|done|by eapply close_frame_files|]. left. apply Hs. }
  unfold commit_batch. apply overtake_phase; [done..|by auto|].
  intros es' w2 Hs2 Hfr2 Ha2 Hr2. eapply (landing_phase es es' w w2); [done..|by auto|].
  intros w4 Hs4 Hfr4 Hrec. eapply commit_tx_spec; [done|done|by eapply overtaken_refs|done|done|].
  by eapply close_frame_files.
Qed.
End FileWork.
