(* ===== verification/WriteSpecs.v ===== *)
(** The write path's guarantees, part two: from arriving chunks to the block
    list of an object (cas/write_path.rs, cas/write_path/batch.rs). *)

From S2P Require Import Prelude Bytes Externals BlockIds Codec Records StoreHeader MetaStore Disk Placement MetaOps Accounting Engine BatchSpecs.
From Stdlib Require Import Strings.Byte.
Local Open Scope Z_scope.
#[local] Set Warnings "-clear-no-such-hyp".

Section Accumulating.
Context {S T D : Type} `{StoreLaws S T, DiskLaws D, Blake3Laws, Md5, FasterHexLaws}.
Context (cfg : StoreCfg).
Abbreviation root := (blocks_root cfg).
Abbreviation tmp := (aw_tmp (cfg_writer cfg)).
Context (Hcfg : tmp = root ++ [TMP_DIR_NAME]).
Implicit Types w : World S D.

(* ------------------------------------------------------------------ *)
(** * The accumulator's invariant *)

(** The index of a batch: exactly the slots of its ids. *)
Definition indexed (b : BlockBatch) : Prop :=
  forall i slot, bb_seen b !! i = Some slot <-> map be_id (bb_entries b) !! slot = Some i.

Record batch_ok (fl : gmap path bytes) (n : Z) (b : BlockBatch) : Prop := mkBatchOk {
  bo_entries : Forall (entry_ok cfg fl n) (bb_entries b);
  bo_index : indexed b;
  bo_cap : (1 <= bb_cap b)%nat
}.

Lemma indexed_NoDup (b : BlockBatch) : indexed b -> NoDup (map be_id (bb_entries b)).
Proof.
  intros Hix. apply NoDup_alt. intros a c i Ha Hc.
  apply Hix in Ha, Hc. congruence.
Qed.

Lemma new_batch_ok fl n cap : batch_ok fl n (new_batch cap).
Proof.
  split; [constructor| |simpl; lia]. intros i slot. simpl. rewrite lookup_empty. by destruct slot.
Qed.

Lemma emptied_ok fl n fl' n' b : batch_ok fl n b -> batch_ok fl' n' (emptied b).
Proof.
  intros [_ _ Hc]. split; [constructor| |done]. intros i slot. simpl. rewrite lookup_empty. by destruct slot.
Qed.

(** An entry keeps its bytes as long as nobody writes its temp file. *)
Lemma entry_ok_frame fl fl' n n' e :
  entry_ok cfg fl n e -> n <= n' ->
  (forall b, be_payload e = Staged b -> fl' !! temp_path b = fl !! temp_path b) ->
  entry_ok cfg fl' n' e.
Proof.
  intros (Ho & Hl & Hst & data & Hd & Hh & Hlen) Hn Hfl. split_and!; [done|done| |].
  - unfold staged_for in *. destruct (be_payload e); [|done].
    destruct Hst as (? & ? & ? & k & Hk & ?). split_and!; try done. exists k. split; [lia|done].
  - exists data. split_and!; [|done|done]. unfold entry_data in *.
    destruct (be_payload e) as [b|]; [|done]. by rewrite Hfl.
Qed.

(** Temp files of nonces from [n] on belong to nobody yet. *)
Lemma entry_temp_old fl n e b i k :
  entry_ok cfg fl n e -> be_payload e = Staged b -> n <= k -> temp_path b <> temp_name tmp (to_hex i) k.
Proof.
  intros (_ & _ & Hst & _) Hp Hk E. unfold staged_for in Hst. rewrite Hp in Hst.
  destruct Hst as (_ & _ & _ & k' & Hk' & Ht). rewrite Ht in E. unfold to_hex in E.
  apply temp_name_inj in E as [_ E]; lia.
Qed.

Lemma batch_ok_newer fl fl' n n' b :
  batch_ok fl n b -> n <= n' ->
  agree_off (fun p => exists i k, n <= k /\ p = temp_name tmp (to_hex i) k) fl fl' ->
  batch_ok fl' n' b.
Proof.
  intros [He Hi Hc] Hn Ha. split; [|done|done]. eapply Forall_impl; [exact He|].
  intros e Hok. eapply entry_ok_frame; [exact Hok|done|]. intros sb Hp. apply Ha.
  intros (i & k & Hk & E). by eapply entry_temp_old.
Qed.

Lemma batch_refs_alter b i slot :
  indexed b -> bb_seen b !! i = Some slot ->
  forall j, occ j (batch_refs (alter more_occurrences slot (bb_entries b)))
            = (occ j (batch_refs (bb_entries b)) + if decide (j = i) then 1 else 0)%nat.
Proof.
  intros Hix Hs j. apply Hix in Hs. rewrite list_lookup_fmap in Hs.
  destruct (bb_entries b !! slot) as [e|] eqn:E; [|done]. simpl in Hs. simplify_eq. clear Hix.
  revert slot E. induction (bb_entries b) as [|e' es IH]; intros slot E; [done|].
  destruct slot as [|slot]; simpl in E.
  - simplify_eq. cbn [alter list_alter]. rewrite !batch_refs_cons, !occ_app. simpl. destruct (decide _); lia.
  - cbn [alter list_alter]. rewrite !batch_refs_cons, !occ_app.
    change (list_alter more_occurrences slot es) with (alter more_occurrences slot es).
    rewrite (IH slot E). lia.
Qed.

Lemma map_id_alter slot es : map be_id (alter more_occurrences slot es) = map be_id es.
Proof.
  revert slot. induction es as [|e es IH]; intros [|slot]; simpl; [done..|]. f_equal. apply IH.
Qed.

Lemma length_alter_entries slot (es : list BatchEntry) : length (alter more_occurrences slot es) = length es.
Proof. apply length_alter. Qed.

Lemma add_occurrence_ok fl n b i slot :
  batch_ok fl n b -> bb_seen b !! i = Some slot -> batch_ok fl n (add_occurrence b i).2.
Proof.
  intros [He Hi Hc] Hs. unfold add_occurrence. rewrite Hs. simpl. split; simpl.
  - apply Forall_alter; [done|]. intros e _ (Ho & Hl & Hst & Hd). split_and!; [simpl; lia|done..].
  - intros j k. simpl. rewrite map_id_alter. apply Hi.
  - done.
Qed.

Lemma push_ok fl n b e :
  batch_ok fl n b -> entry_ok cfg fl n e -> bb_seen b !! be_id e = None -> batch_ok fl n (push b e).
Proof.
  intros [He Hi Hc] Hok Hs. split; simpl.
  - apply Forall_app. split; [done|]. by constructor.
  - intros j k. simpl. rewrite map_app. simpl.
    pose proof (length_map be_id (bb_entries b)) as Hlen.
    destruct (decide (j = be_id e)) as [->|Hne].
    + rewrite lookup_insert_eq. split.
      * intros [= <-]. rewrite lookup_app_r by lia. by rewrite Hlen, Nat.sub_diag.
      * intros Hk. destruct (decide (k < length (map be_id (bb_entries b)))%nat) as [Hlt|Hge].
        { rewrite lookup_app_l in Hk by done. apply Hi in Hk. congruence. }
        rewrite lookup_app_r in Hk by lia. apply list_lookup_singleton_Some in Hk as [Hk _]. f_equal. lia.
    + rewrite lookup_insert_ne by done. unfold indexed in Hi. rewrite Hi. split.
      * intros Hk. by apply lookup_app_l_Some.
      * intros Hk. apply lookup_app_Some in Hk as [Hk|[_ Hk]]; [done|].
        by apply list_lookup_singleton_Some in Hk as [_ Hk].
  - done.
Qed.

(* ------------------------------------------------------------------ *)
(** * One chunk, and one batch *)

Abbreviation newer_temps := (fun (n : Z) (p : path) => exists i k, n <= k /\ p = temp_name tmp (to_hex i) k).

Lemma inv_newer_temps ns sh n fl fl' F :
  agree_off (newer_temps n) fl fl' ->
  Inv (cfg_hasher cfg) root ns sh fl F -> Inv (cfg_hasher cfg) root ns sh fl' F.
Proof.
  intros Ha. apply inv_disk. intros i b Hi _ _. apply Ha. intros (j & k & _ & E).
  symmetry in E. revert E. by apply tmp_not_block.
Qed.

(** What a call that only stages leaves alone. *)
Definition stage_frame (n : Z) w w' : Prop :=
  same_dbs w w' /\ wnonce w <= wnonce w' <= wnonce w + n /\
  agree_off (newer_temps (wnonce w)) (wfiles w) (wfiles w').

Lemma stage_frame_inv n w w' F : stage_frame n w w' -> winv cfg w F -> winv cfg w' F.
Proof.
  intros ([Hns Hsh] & _ & Ha) Hinv. unfold winv. rewrite Hns, Hsh. by eapply inv_newer_temps.
Qed.

Lemma resolve_chunk_spec i bs w :
  hash_block (cfg_hasher cfg) bs = i -> is_usize (Z.of_nat (length bs)) ->
  0 <= wnonce w < u64_max ->
  wp (resolve_chunk cfg i bs) w (fun r w' =>
    stage_frame 1 w w' /\ match r with
    | Ok p => entry_ok cfg (wfiles w') (wnonce w') (new_entry i (Z.of_nat (length bs)) p)
    | Err e => no_panic e
    end).
Proof.
  intros Hh Hlen Hn. assert (BlockId_wf i) as Hi by (rewrite <- Hh; apply hash_block_wf).
  unfold resolve_chunk. apply wp_bind. eapply wp_mono; [apply has_live_spec|].
  intros [l|e] w1 (Hs1 & Hd1 & Hr1); cbn beta iota.
  2: { split; [|done]. unfold stage_frame, wnonce, wfiles. rewrite Hd1. split_and!; [done|lia|lia|done]. }
  destruct l.
  { apply wp_ret. split.
    - unfold stage_frame, wnonce, wfiles. rewrite Hd1. split_and!; [done|lia|lia|done].
    - split_and!; [simpl; lia|done|done|]. exists bs. done. }
  apply wp_bind. eapply wp_mono; [by apply place_spec|]. intros r w2 (Hs2 & Hd2 & d & -> & Hd).
  cbn beta iota. apply wp_bind, wp_on_files. rewrite Hd2, Hd1.
  eapply wp_mono; [apply stage_block_spec|].
  assert (same_dbs w w2) as Hs by (by eapply same_dbs_trans).
  intros [sb|e] ds' [Hst Hr]; cbn beta iota.
  - destruct Hr as (-> & Hn' & Hf). apply wp_ret. unfold wnonce, wfiles in *. cbn in *.
    rewrite wrap_u64_small in Hn' by lia. split.
    + split_and!; unfold wnonce, wfiles; cbn; [done|lia|lia|]. rewrite Hf. apply agree_off_insert.
      exists i, (wnonce w). split; [reflexivity|done].
    + split_and!; [simpl; lia|done| |].
      * split_and!; [done|apply Hd|done|]. exists (wnonce w). cbn. rewrite Hn'. unfold wnonce in *.
        split; [lia|done].
      * exists bs. unfold entry_data. cbn. rewrite Hf. by rewrite lookup_insert_eq.
  - split; [|done]. unfold stage_frame, wnonce, wfiles in *. cbn in *.
    split_and!; [done|..].
    + destruct Hst as [->| ->]; [lia|]. rewrite wrap_u64_small by lia. lia.
    + destruct Hst as [->| ->]; [lia|]. rewrite wrap_u64_small by lia. lia.
    + eapply agree_off_mono; [exact Hr|]. intros p ->. exists i, (wnonce w). split; [reflexivity|done].
Qed.

Lemma accumulate_spec b i bs w :
  hash_block (cfg_hasher cfg) bs = i -> is_usize (Z.of_nat (length bs)) ->
  0 <= wnonce w < u64_max -> batch_ok (wfiles w) (wnonce w) b ->
  wp (accumulate cfg b i bs) w (fun r w' =>
    stage_frame 1 w w' /\ batch_ok (wfiles w') (wnonce w') b /\ match r with
    | Ok b' => batch_ok (wfiles w') (wnonce w') b' /\ bb_cap b' = bb_cap b /\
        (length (bb_entries b') <= Datatypes.S (length (bb_entries b)))%nat /\
        (forall j, occ j (batch_refs (bb_entries b')) = occ j (batch_refs (bb_entries b) ++ [i]))
    | Err e => no_panic e
    end).
Proof.
  intros Hh Hlen Hn Hok. unfold accumulate.
  assert (stage_frame 1 w w) as Hrefl.
  { split_and!; [apply same_dbs_refl|lia|lia|done]. }
  destruct (bb_seen b !! i) as [slot|] eqn:Es.
  - pose proof (add_occurrence_ok _ _ b i slot Hok Es) as Hok'. unfold add_occurrence in *. rewrite Es in *.
    apply wp_ret. simpl in *. split_and!; try done.
    + rewrite length_alter_entries. lia.
    + intros j. rewrite (batch_refs_alter b i slot (bo_index _ _ _ Hok) Es), occ_app. simpl.
      destruct (decide _); lia.
  - unfold add_occurrence. rewrite Es. apply wp_bind. eapply wp_mono; [by apply resolve_chunk_spec|].
    intros [p|e] w' [Hfr Hr]; cbn beta iota.
    + pose proof Hfr as (_ & Hn' & Ha). assert (batch_ok (wfiles w') (wnonce w') b) as Hb'.
      { eapply batch_ok_newer; [exact Hok|lia|done]. }
      apply wp_ret. split_and!; [done|done| |done|simpl; rewrite length_app; simpl; lia|].
      * by apply push_ok.
      * intros j. simpl. unfold batch_refs. rewrite map_app, concat_app. simpl.
        by rewrite occ_app.
    + split_and!; [done| |done]. eapply batch_ok_newer; [exact Hok|apply Hfr|apply Hfr].
Qed.

Lemma abandon_spec es w :
  wp (abandon es) w (fun r w' =>
    r = Ok tt /\ same_dbs w w' /\ wnonce w' = wnonce w /\
    agree_off (fun p => exists e b, e ∈ es /\ be_payload e = Staged b /\ p = temp_path b)
      (wfiles w) (wfiles w')).
Proof.
  unfold abandon. revert w. induction es as [|e es IH]; intros w; [by apply wp_ret|].
  cbn [M_iter]. apply (wp_bind (match be_payload e with
    | Staged b => on_files (discard_staged b) | Deduped _ => mret tt end)).
  assert (forall w1, same_dbs w w1 -> wnonce w1 = wnonce w ->
    agree_off (fun p => exists b, be_payload e = Staged b /\ p = temp_path b) (wfiles w) (wfiles w1) ->
    wp (M_iter (fun e => match be_payload e with
      | Staged b => on_files (discard_staged b) | Deduped _ => mret tt end) es) w1 (fun r w' =>
      r = Ok tt /\ same_dbs w w' /\ wnonce w' = wnonce w /\
      agree_off (fun p => exists e0 b, e0 ∈ e :: es /\ be_payload e0 = Staged b /\ p = temp_path b)
        (wfiles w) (wfiles w'))) as Hrest.
  { intros w1 Hs1 Hn1 Ha1. eapply wp_mono; [apply IH|]. intros r w2 (-> & Hs2 & Hn2 & Ha2).
    split_and!; [done|by eapply same_dbs_trans|congruence|]. eapply agree_off_trans.
    - eapply agree_off_mono; [exact Ha1|]. intros p (b & Hb). exists e, b. set_solver.
    - eapply agree_off_mono; [exact Ha2|]. intros p (e0 & b & He & Hb). exists e0, b. set_solver. }
  destruct (be_payload e) as [b|bs] eqn:Ep.
  - apply wp_on_files. eapply wp_mono; [apply discard_staged_spec|]. intros r ds' (-> & Hn & Ha).
    cbn beta iota. apply Hrest; [done|done|]. eapply agree_off_mono; [exact Ha|]. naive_solver.
  - apply wp_ret. by apply Hrest.
Qed.

Lemma abandon_inv es w F fl n :
  Forall (entry_ok cfg fl n) es -> winv cfg w F ->
  wp (abandon es) w (fun _ w' => same_dbs w w' /\ wnonce w' = wnonce w /\ winv cfg w' F /\
    agree_off (fun p => exists e b, e ∈ es /\ be_payload e = Staged b /\ p = temp_path b)
      (wfiles w) (wfiles w')).
Proof.
  intros Hes Hinv. eapply wp_mono; [apply abandon_spec|].
  intros r w' (_ & Hs & Hn & Ha). split_and!; [done|done| |done]. destruct Hs as [Hns Hsh].
  unfold winv. rewrite Hns, Hsh.
  eapply (inv_commit_paths cfg Hcfg _ n 0); [by eapply entries_staged| |exact Hinv].
  eapply agree_off_mono; [exact Ha|]. intros p Hp. by right; left.
Qed.

Abbreviation room := (fun w (l : list BlockId) => forall i, BlockId_wf i ->
  rc_of (kv (w_shared w)) i + Z.of_nat (occ i l) <= usize_max).

Lemma close_alone_spec es w F :
  NoDup (map be_id es) -> Forall (entry_ok cfg (wfiles w) (wnonce w)) es ->
  0 <= wnonce w -> wnonce w + Z.of_nat (length es) <= u64_max ->
  room w (batch_refs es) -> winv cfg w F ->
  wp (close_alone cfg es) w (fun r w' =>
    close_frame cfg es w w' /\ match r with
    | Ok _ => counted (batch_refs es) (kv (w_shared w)) (kv (w_shared w')) /\
              winv cfg w' (add_refs F (batch_refs es))
    | Err err => no_panic err /\ winv cfg w' F /\
        (kv (w_shared w') = kv (w_shared w) \/
         counted (batch_refs es) (kv (w_shared w)) (kv (w_shared w')))
    end).
Proof.
  intros Hnd Hok Hn0 Hn Hroom Hinv.
  pose proof (commit_batch_spec cfg Hcfg es w F Hnd Hok Hn0 Hn Hroom Hinv) as Hc.
  unfold wp, close_alone in *. destruct (commit_batch cfg es w) as [[o|[me|io|msg]] w']; simpl in *; try done.
  by destruct Hc as (_ & [] & _).
Qed.

Lemma flush_batch_spec b w F :
  batch_ok (wfiles w) (wnonce w) b ->
  0 <= wnonce w -> wnonce w + Z.of_nat (length (bb_entries b)) <= u64_max ->
  room w (batch_refs (bb_entries b)) -> winv cfg w F ->
  wp (flush_batch cfg b) w (fun r w' =>
    close_frame cfg (bb_entries b) w w' /\ match r with
    | Ok b' => bb_entries b' = [] /\ bb_cap b' = bb_cap b /\ batch_ok (wfiles w') (wnonce w') b' /\
        counted (batch_refs (bb_entries b)) (kv (w_shared w)) (kv (w_shared w')) /\
        winv cfg w' (add_refs F (batch_refs (bb_entries b)))
    | Err err => no_panic err /\ winv cfg w' F /\
        (kv (w_shared w') = kv (w_shared w) \/
         counted (batch_refs (bb_entries b)) (kv (w_shared w)) (kv (w_shared w')))
    end).
Proof.
  intros Hok Hn0 Hn Hroom Hinv. unfold flush_batch.
  destruct (bb_entries b) as [|e0 es0] eqn:Ee.
  { unfold wp. simpl. unfold close_frame. simpl.
    split_and!; [done|lia|lia|done|done|done|done|apply counted_nil|].
    eapply inv_mono; [|exact Hinv]. intros i. unfold add_refs. simpl. lia. }
  rewrite <- Ee in *. set (es := bb_entries b) in *. clear e0 es0 Ee.
  pose proof (quiet_sync_batch (cfg_writer cfg) (temp_paths es) (w_disk w)) as Hq.
  unfold wp. unfold on_files. unfold wp in Hq.
  destruct (sync_batch (cfg_writer cfg) (temp_paths es) (w_disk w)) as [[u|e] ds'] eqn:E; simpl in Hq.
  - destruct Hq as [Hf Hnn]. simpl map_err. cbn beta iota.
    set (w1 := mkWorld (w_ns w) (w_shared w) ds' (w_counters w)).
    assert (wfiles w1 = wfiles w) as Hf1 by exact Hf. assert (wnonce w1 = wnonce w) as Hn1 by exact Hnn.
    change (wp (_ ← close_alone cfg es; mret (emptied b)) w1 (fun r w' =>
      close_frame cfg es w w' /\ match r with
      | Ok b' => bb_entries b' = [] /\ bb_cap b' = bb_cap b /\ batch_ok (wfiles w') (wnonce w') b' /\
          counted (batch_refs es) (kv (w_shared w)) (kv (w_shared w')) /\
          winv cfg w' (add_refs F (batch_refs es))
      | Err err => no_panic err /\ winv cfg w' F /\
          (kv (w_shared w') = kv (w_shared w) \/
           counted (batch_refs es) (kv (w_shared w)) (kv (w_shared w')))
      end)).
    assert (forall w', close_frame cfg es w1 w' -> close_frame cfg es w w') as Hfr.
    { intros w' Hc. unfold close_frame in *. by rewrite Hf1, Hn1 in Hc. }
    apply wp_bind. eapply wp_mono; [apply (close_alone_spec es w1 F)|].
    + apply indexed_NoDup, Hok.
    + rewrite Hf1, Hn1. apply Hok.
    + lia.
    + lia.
    + done.
    + unfold winv. by rewrite Hf1.
    + intros [o|err] w' [Hc Hr]; cbn beta iota; [apply wp_ret|]; (split; [by apply Hfr|]); [|done].
      destruct Hr. split_and!; try done. by eapply emptied_ok.
  - destruct Hq as [Hf Hnn]. simpl map_err. cbn beta iota.
    set (w1 := mkWorld (w_ns w) (w_shared w) ds' (w_counters w)).
    pose proof (abandon_inv es w1 F (wfiles w) (wnonce w) (bo_entries _ _ _ Hok)) as Ha.
    assert (winv cfg w1 F) as Hinv1 by (unfold winv, wfiles; simpl; by rewrite Hf). specialize (Ha Hinv1).
    unfold wp in Ha. destruct (abandon es w1) as [r w2]. simpl in *. destruct Ha as (Hs & Hn2 & Hinv2 & Ha).
    unfold wnonce, wfiles in *. simpl in *. rewrite Hf in Ha. rewrite Hnn in Hn2.
    split; [|split_and!; [done|done|left; apply Hs]].
    unfold close_frame. split_and!; [apply Hs|unfold wnonce; lia|unfold wnonce; lia|].
    eapply agree_off_mono; [exact Ha|]. intros p Hp. right; left. exact Hp.
Qed.

(* ------------------------------------------------------------------ *)
(** * The whole request *)

Abbreviation addresses := (map (hash_block (cfg_hasher cfg))).

(** Enough headroom for a request of these chunks: nonces, the size counter
    and the reference counts do not overflow. *)
Record budget w (l : list bytes) : Prop := mkBudget {
  bg_nonce : 0 <= wnonce w /\ wnonce w + 2 * Z.of_nat (length l) <= u64_max;
  bg_size : Z.of_nat (length (concat l)) <= u64_max;
  bg_room : room w (addresses l)
}.

Lemma budget_prefix w l k : budget w (l ++ k) -> budget w l.
Proof.
  intros [Hn Hs Hr]. rewrite length_app in Hn. rewrite concat_app, length_app in Hs. split; [lia|lia|].
  intros i Hi. specialize (Hr i Hi). rewrite map_app, occ_app in Hr. lia.
Qed.

(** The request after the chunks [fed], of whose references [C] have been
    committed; [w0] is the world it started in. *)
Record upload_inv w0 F (fed : list bytes) (u : Upload) w (C : list BlockId) : Prop := mkUploadInv {
  ui_batch : batch_ok (wfiles w) (wnonce w) (up_batch u);
  ui_data : up_data u = concat fed;
  ui_size : up_size u = Z.of_nat (length (concat fed));
  ui_blocks : up_blocks u = addresses fed;
  ui_refs : forall i, occ i (addresses fed) = (occ i C + occ i (batch_refs (bb_entries (up_batch u))))%nat;
  ui_counted : counted C (kv (w_shared w0)) (kv (w_shared w));
  ui_inv : winv cfg w (add_refs F C);
  ui_ns : kv (w_ns w) = kv (w_ns w0);
  ui_nonce : wnonce w0 <= wnonce w /\
    wnonce w + Z.of_nat (length (bb_entries (up_batch u))) <= wnonce w0 + 2 * Z.of_nat (length fed)
}.

(** A request that failed after the chunks [fed]: at most its own references
    stay counted (leaked), and nothing else has changed. *)
Definition upload_failed w0 F (fed : list bytes) (e : EngErr) w : Prop :=
  no_panic e /\ winv cfg w F /\ kv (w_ns w) = kv (w_ns w0) /\
  exists C, counted C (kv (w_shared w0)) (kv (w_shared w)) /\
    forall i, (occ i C <= occ i (addresses fed))%nat.

Lemma upload_failed_mono w0 F fed fed' e w :
  upload_failed w0 F fed e w -> upload_failed w0 F (fed ++ fed') e w.
Proof.
  intros (? & ? & ? & C & ? & HC). split_and!; try done. exists C. split; [done|].
  intros i. rewrite map_app, occ_app. specialize (HC i). lia.
Qed.

Lemma upload_abandoned w0 F fed u w C w' e :
  upload_inv w0 F fed u w C -> no_panic e -> same_dbs w w' -> winv cfg w' (add_refs F C) ->
  upload_failed w0 F fed e w'.
Proof.
  intros Hu Hnp [Hns Hsh] Hinv. split_and!; [done|by eapply inv_drop|..].
  - rewrite Hns. apply Hu.
  - exists C. rewrite Hsh. split; [apply Hu|]. intros i. rewrite (ui_refs _ _ _ _ _ _ Hu). lia.
Qed.

(** Closing the batch, at the cap or at the end. *)
Lemma flush_upload w0 F fed u w C :
  budget w0 fed -> upload_inv w0 F fed u w C ->
  wp (flush_batch cfg (up_batch u)) w (fun r w' =>
    match r with
    | Ok b' => bb_entries b' = [] /\
        upload_inv w0 F fed (mkUpload (up_data u) (up_size u) (up_blocks u) b') w' (addresses fed)
    | Err e => upload_failed w0 F fed e w'
    end).
Proof.
  intros Hbg Hu. pose proof (ui_nonce _ _ _ _ _ _ Hu) as [Hn0 Hn1]. pose proof (bg_nonce _ _ Hbg) as [Hb0 Hb1].
  pose proof (ui_refs _ _ _ _ _ _ Hu) as Hrefs.
  pose proof (ui_counted _ _ _ _ _ _ Hu) as Hc.
  eapply wp_mono; [apply (flush_batch_spec (up_batch u) w (add_refs F C) (ui_batch _ _ _ _ _ _ Hu));
    [lia|lia| |apply Hu]|].
  { intros i Hi. pose proof Hc as (Hrc & _). rewrite Hrc by done.
    pose proof (bg_room _ _ Hbg i Hi) as Hr. rewrite Hrefs in Hr. lia. }
  intros [b'|e] w' [Hfr Hr]; pose proof Hfr as (Hns & Hn & _).
  - destruct Hr as (He & Hcap & Hok & Hcnt & Hinv). split; [done|].
    assert (forall i, occ i (addresses fed) = occ i (C ++ batch_refs (bb_entries (up_batch u)))) as Heq.
    { intros i. by rewrite Hrefs, occ_app. }
    destruct (counted_app _ _ _ _ _ Hc Hcnt) as (Hc1 & Hc2 & Hc3).
    split; simpl; try apply Hu.
    + exact Hok.
    + intros i. rewrite He. simpl. lia.
    + split_and!.
      * intros i Hi. rewrite Heq. by apply Hc1.
      * intros i Hi [Hl|Hin]; [apply Hc2; auto|]. apply Hc2; [done|right].
        apply occ_pos in Hin. rewrite Heq in Hin.
        destruct (decide (i ∈ C ++ batch_refs (bb_entries (up_batch u)))) as [|Hni]; [done|].
        apply occ_zero in Hni. lia.
      * intros p Hp. apply Hc3. intros i Hi. apply Hp.
        apply occ_pos in Hi. rewrite <- Heq in Hi.
        destruct (decide (i ∈ addresses fed)) as [|Hni]; [done|]. apply occ_zero in Hni. lia.
    + eapply inv_mono; [|exact Hinv]. intros i. unfold add_refs. rewrite Heq, occ_app. lia.
    + rewrite Hns. apply Hu.
    + rewrite He. simpl. lia.
  - destruct Hr as (Hnp & Hinv & Hsh). split_and!; [done|by eapply inv_drop|by rewrite Hns; apply Hu|].
    destruct Hsh as [Hsh|Hsh].
    + exists C. rewrite Hsh. split; [done|]. intros i. rewrite Hrefs. lia.
    + eexists. split; [by eapply counted_app|]. intros i. by rewrite occ_app, Hrefs.
Qed.

(** A failure that leaves the batch's temp files behind is cleaned up. *)
Lemma abandon_upload w0 F fed u w1 C e :
  upload_inv w0 F fed u w1 C -> no_panic e ->
  upload_failed w0 F fed e (abandon (bb_entries (up_batch u)) w1).2.
Proof.
  intros Hu Hnp. pose proof (abandon_inv (bb_entries (up_batch u)) w1 (add_refs F C) _ _
    (bo_entries _ _ _ (ui_batch _ _ _ _ _ _ Hu)) (ui_inv _ _ _ _ _ _ Hu)) as (Hs & _ & Hinv & _).
  by eapply upload_abandoned.
Qed.

Lemma stage_frame_upload w0 F fed u w C w' b' :
  upload_inv w0 F fed u w C -> stage_frame 1 w w' -> batch_ok (wfiles w') (wnonce w') b' ->
  forall bs, is_u64 (Z.of_nat (length (concat (fed ++ [bs])))) ->
  (length (bb_entries b') <= Datatypes.S (length (bb_entries (up_batch u))))%nat ->
  (forall j, occ j (batch_refs (bb_entries b')) =
     occ j (batch_refs (bb_entries (up_batch u)) ++ [hash_block (cfg_hasher cfg) bs])) ->
  upload_inv w0 F (fed ++ [bs])
    (mkUpload (up_data u ++ bs) (wrap_u64 (up_size u + Z.of_nat (length bs)))
       (up_blocks u ++ [hash_block (cfg_hasher cfg) bs]) b') w' C.
Proof.
  intros Hu Hfr Hok bs Hsz Hlen Hocc. pose proof Hfr as ([Hns Hsh] & Hn & _).
  assert (concat (fed ++ [bs]) = concat fed ++ bs) as Hcat by (rewrite concat_app; simpl; by rewrite app_nil_r).
  pose proof (ui_nonce _ _ _ _ _ _ Hu). split; simpl.
  - done.
  - rewrite (ui_data _ _ _ _ _ _ Hu). by rewrite Hcat.
  - rewrite (ui_size _ _ _ _ _ _ Hu). rewrite Hcat, length_app in Hsz |- *.
    rewrite wrap_u64_small; int_bounds; lia.
  - rewrite (ui_blocks _ _ _ _ _ _ Hu). by rewrite map_app.
  - intros i. rewrite map_app, occ_app, (ui_refs _ _ _ _ _ _ Hu), Hocc, occ_app. simpl. lia.
  - rewrite Hsh. apply Hu.
  - eapply stage_frame_inv; [exact Hfr|apply Hu].
  - rewrite Hns. apply Hu.
  - rewrite length_app. simpl. lia.
Qed.

Lemma feed_spec w0 F fed u w C bs :
  budget w0 (fed ++ [bs]) -> upload_inv w0 F fed u w C ->
  wp (feed cfg u bs) w (fun r w' =>
    match r with
    | Ok u' => exists C', upload_inv w0 F (fed ++ [bs]) u' w' C'
    | Err e => upload_failed w0 F (fed ++ [bs]) e w'
    end).
Proof.
  intros Hbg Hu. pose proof (bg_nonce _ _ Hbg) as [Hb0 Hb1]. rewrite length_app in Hb1. simpl in Hb1.
  pose proof (ui_nonce _ _ _ _ _ _ Hu) as [Hn0 Hn1]. pose proof (bg_size _ _ Hbg) as Hsz.
  assert (is_u64 (Z.of_nat (length (concat (fed ++ [bs]))))) as Hsz' by (int_bounds; lia).
  assert (is_usize (Z.of_nat (length bs))) as Hlen.
  { rewrite concat_app, length_app in Hsz. simpl in Hsz. rewrite app_nil_r in Hsz. int_bounds. lia. }
  pose proof (accumulate_spec (up_batch u) (hash_block (cfg_hasher cfg) bs) bs w eq_refl Hlen
    ltac:(lia) (ui_batch _ _ _ _ _ _ Hu)) as Hacc.
  unfold wp, feed in *. destruct (accumulate cfg (up_batch u) _ bs w) as [[b'|e] w1]; simpl in Hacc.
  - destruct Hacc as (Hfr & _ & Hok & _ & Hle & Hocc).
    pose proof (stage_frame_upload w0 F fed u w C w1 b' Hu Hfr Hok bs Hsz' Hle Hocc) as Hu'.
    change (wp (b'' ← (if is_full b' then flush_batch cfg b' else mret b');
                mret (mkUpload (up_data u ++ bs) (wrap_u64 (up_size u + Z.of_nat (length bs)))
                        (up_blocks u ++ [hash_block (cfg_hasher cfg) bs]) b'')) w1 (fun r w' =>
      match r with
      | Ok u' => exists C', upload_inv w0 F (fed ++ [bs]) u' w' C'
      | Err e => upload_failed w0 F (fed ++ [bs]) e w'
      end)).
    apply wp_bind. destruct (is_full b'); [|apply wp_ret; apply wp_ret; eauto].
    eapply wp_mono; [apply (flush_upload w0 F _ _ w1 C Hbg Hu')|].
    intros [b''|e] w2 Hr; cbn beta iota; [|done]. apply wp_ret. destruct Hr as [_ Hr]. eauto.
  - destruct Hacc as (Hfr & Hok & Hnp). apply upload_failed_mono. simpl.
    pose proof (abandon_inv (bb_entries (up_batch u)) w1 (add_refs F C) _ _ (bo_entries _ _ _ Hok)
      (stage_frame_inv _ _ _ _ Hfr (ui_inv _ _ _ _ _ _ Hu))) as (Hs & _ & Hinv & _).
    eapply upload_abandoned; [exact Hu|done| |exact Hinv].
    eapply same_dbs_trans; [apply Hfr|exact Hs].
Qed.

Lemma feed_all_spec w0 F bufs : forall fed u w C,
  budget w0 (fed ++ bufs) -> upload_inv w0 F fed u w C ->
  wp (feed_all cfg u bufs) w (fun r w' =>
    match r with
    | Ok u' => exists C', upload_inv w0 F (fed ++ bufs) u' w' C'
    | Err e => upload_failed w0 F (fed ++ bufs) e w'
    end).
Proof.
  induction bufs as [|bs bufs IH]; intros fed u w C Hbg Hu.
  { apply wp_ret. rewrite app_nil_r. eauto. }
  replace (fed ++ bs :: bufs) with ((fed ++ [bs]) ++ bufs) in * by (by rewrite <- app_assoc).
  cbn [feed_all]. apply wp_bind.
  eapply wp_mono; [apply (feed_spec w0 F fed u w C bs); [by eapply budget_prefix|done]|].
  intros [u'|e] w1 Hr; cbn beta iota; [|by apply upload_failed_mono].
  destruct Hr as [C' Hu']. by eapply IH.
Qed.

(** The chunks of the items before the first error, and whether there is one. *)
Fixpoint stream_chunks (items : list (result IoError (list bytes))) : list bytes * bool :=
  match items with
  | [] => ([], true)
  | Err _ :: _ => ([], false)
  | Ok bufs :: items' => let '(cs, ok) := stream_chunks items' in (bufs ++ cs, ok)
  end.

Lemma store_items_spec w0 F items : forall fed u w C,
  budget w0 (fed ++ (stream_chunks items).1) -> upload_inv w0 F fed u w C ->
  wp (store_items cfg u items) w (fun r w' =>
    match r with
    | Ok u' => (stream_chunks items).2 = true /\
        exists C', upload_inv w0 F (fed ++ (stream_chunks items).1) u' w' C'
    | Err e => upload_failed w0 F (fed ++ (stream_chunks items).1) e w'
    end).
Proof.
  induction items as [|[bufs|e] items IH]; intros fed u w C Hbg Hu; cbn [store_items stream_chunks] in *.
  - apply wp_ret. rewrite app_nil_r. eauto.
  - destruct (stream_chunks items) as [cs ok] eqn:Ec. simpl in Hbg |- *. rewrite app_assoc in *.
    apply wp_bind. eapply wp_mono; [apply (feed_all_spec w0 F bufs fed u w C); [by eapply budget_prefix|done]|].
    intros [u'|e] w1 Hr; cbn beta iota; [|by apply upload_failed_mono].
    destruct Hr as [C' Hu']. apply (IH _ u' w1 C'); simpl in *; done.
  - unfold wp. simpl. rewrite app_nil_r. eapply abandon_upload; [exact Hu|done].
Qed.

Lemma store_object_spec items w F :
  let chunks := (stream_chunks items).1 in
  budget w chunks -> winv cfg w F ->
  wp (store_object cfg items) w (fun r w' =>
    match r with
    | Ok (blocks, hash, size) =>
        (stream_chunks items).2 = true /\
        blocks = addresses chunks /\ hash = mkContentHash (md5_digest (concat chunks)) /\
        size = Z.of_nat (length (concat chunks)) /\
        kv (w_ns w') = kv (w_ns w) /\ counted blocks (kv (w_shared w)) (kv (w_shared w')) /\
        winv cfg w' (add_refs F blocks)
    | Err e => upload_failed w F chunks e w'
    end).
Proof.
  intros chunks Hbg Hinv. unfold store_object.
  apply wp_bind. eapply wp_mono; [apply (store_items_spec w F items [] _ w [])|].
  - done.
  - split; simpl; [apply new_batch_ok|done|done|done|done|apply counted_nil|by apply inv_mono with F;
      [intros i; unfold add_refs; simpl; lia|]|done|]. pose proof (bg_nonce _ _ Hbg). lia.
  - intros [u|e] w1 Hr; cbn beta iota; [|done]. destruct Hr as [Hst [C Hu]].
    simpl in Hu. apply wp_bind. eapply wp_mono; [by apply (flush_upload w F chunks u w1 C)|].
    intros [b'|e] w2 Hr; cbn beta iota; [|done]. apply wp_ret. destruct Hr as [_ Hu2].
    destruct Hu2; simpl in *. split_and!; try done.
    + by f_equal; f_equal.
    + by rewrite ui_blocks0.
    + by rewrite ui_blocks0.
Qed.
End Accumulating.
