(* ===== verification/Chunking.v ===== *)
(** Cutting a request body into blocks (cas/buffered_byte_stream.rs over
    cas/byte_stream.rs): frames of any size come in, blocks of [BLOCK_SIZE]
    bytes go out, and the block boundaries do not depend on the framing.  A
    frame that is not ready only suspends the stream, so a body is the list of
    its frames.  [Vec::with_capacity(n)] is taken to have capacity [n]. *)

From S2P Require Import Prelude Bytes Externals BlockIds Codec Records StoreHeader MetaStore Disk Placement MetaOps Accounting Engine BatchSpecs WriteSpecs.
From Stdlib Require Import Strings.Byte.
Local Open Scope nat_scope.
#[local] Set Warnings "-clear-no-such-hyp".

Definition BLOCK_SIZE : Z := Z.shiftl 1 20.

Record BufferedByteStream : Type := mkBuffered { bf_buffer : bytes; bf_finished : bool }.

Section Chunking.
Context (block_size : nat).

Definition new_buffered : BufferedByteStream := mkBuffered [] false.

(** The [while] loop over a frame larger than the buffer's remainder: whole
    blocks while more than one block is left; each iteration drops
    [block_size] bytes. *)
Fixpoint cut (fuel : nat) (bs : bytes) : list bytes * bytes :=
  match fuel with
  | 0 => ([], bs)
  | S fuel =>
      if block_size <? length bs then
        let '(out, rest) := cut fuel (drop block_size bs) in (take block_size bs :: out, rest)
      else ([], bs)
  end.

(** One frame: the new buffer and the item returned, if any. *)
Definition accept (buffer frame : bytes) : bytes * option (list bytes) :=
  let buf_remainder := block_size - length buffer in
  if length frame <? buf_remainder then (buffer ++ frame, None)
  else if length frame =? buf_remainder then ([], Some [buffer ++ frame])
  else
    let first := buffer ++ take buf_remainder frame in
    let '(out, rest) := cut (length frame) (drop buf_remainder frame) in
    (rest, Some (first :: out)).

(** [poll_next]: the item returned ([None] at the end), the stream left, the
    frames left. *)
Fixpoint poll_chunks (s : BufferedByteStream) (frames : list (result IoError bytes)) :
    option (result IoError (list bytes)) * BufferedByteStream * list (result IoError bytes) :=
  if bf_finished s then (None, s, frames)
  else
    match frames with
    | [] =>
        match bf_buffer s with
        | [] => (None, mkBuffered [] true, [])
        | buffer => (Some (Ok [buffer]), mkBuffered [] true, [])
        end
    | Err e :: frames' => (Some (Err e), s, frames')
    | Ok bs :: frames' =>
        match accept (bf_buffer s) bs with
        | (buffer, Some out) => (Some (Ok out), mkBuffered buffer false, frames')
        | (buffer, None) => poll_chunks (mkBuffered buffer false) frames'
        end
    end.

(** Everything the stream returns; a poll uses up a frame or ends it. *)
Fixpoint drain_chunks (fuel : nat) (s : BufferedByteStream) (frames : list (result IoError bytes)) :
    list (result IoError (list bytes)) :=
  match fuel with
  | 0 => []
  | S fuel =>
      match poll_chunks s frames with
      | (None, _, _) => []
      | (Some item, s', frames') => item :: drain_chunks fuel s' frames'
      end
  end.

Definition chunk_stream (frames : list (result IoError bytes)) : list (result IoError (list bytes)) :=
  drain_chunks (S (S (length frames))) new_buffered frames.

(* ------------------------------------------------------------------ *)
(** * The blocks of a body *)

(** The cut of [body] into full blocks and a last one that is not empty. *)
Definition blocks_of (body : bytes) (blocks : list bytes) : Prop :=
  concat blocks = body /\
  forall k b, blocks !! k = Some b ->
    (S k < length blocks -> length b = block_size) /\ 1 <= length b <= block_size.

Context (Hpos : 1 <= block_size).

Lemma blocks_of_unique body l l' : blocks_of body l -> blocks_of body l' -> l = l'.
Proof.
  revert body l'. induction l as [|b l IH]; intros body l' [Hc Hb] [Hc' Hb'].
  - destruct l' as [|b' l']; [done|]. destruct (Hb' 0 b' eq_refl) as [_ Hl]. simpl in *. rewrite <- Hc in Hc'.
    apply (f_equal length) in Hc'. rewrite length_app in Hc'. simpl in Hc'. lia.
  - destruct l' as [|b' l'].
    { destruct (Hb 0 b eq_refl) as [_ Hl]. simpl in *. rewrite <- Hc' in Hc.
      apply (f_equal length) in Hc. rewrite length_app in Hc. simpl in Hc. lia. }
    destruct (Hb 0 b eq_refl) as [Hf Hr], (Hb' 0 b' eq_refl) as [Hf' Hr']. simpl in *.
    assert (length b = length b') as El.
    { pose proof (f_equal length Hc) as E. rewrite <- Hc' in E. rewrite !length_app in E.
      destruct l as [|c l], l' as [|c' l']; simpl in *; rewrite ?Nat.add_0_r in *.
      - done.
      - destruct (Hb' 1 c' eq_refl) as [_ Hc1]. rewrite length_app in E. specialize (Hf' ltac:(lia)). lia.
      - destruct (Hb 1 c eq_refl) as [_ Hc1]. rewrite length_app in E. specialize (Hf ltac:(lia)). lia.
      - rewrite Hf, Hf' by lia. done. }
    rewrite <- Hc' in Hc. apply app_inj_1 in Hc as [-> Hrest]; [|done]. f_equal.
    apply (IH (concat l)); split; try done.
    + intros k c Hk. destruct (Hb (S k) c Hk) as [H1 H2]. split; [|done]. intros. apply H1. lia.
    + intros k c Hk. destruct (Hb' (S k) c Hk) as [H1 H2]. split; [|done]. intros. apply H1. lia.
Qed.

Lemma cut_spec fuel : forall bs, length bs <= fuel ->
  let '(out, rest) := cut fuel bs in
  concat out ++ rest = bs /\ Forall (fun b => length b = block_size) out /\ length rest <= block_size /\
  (1 <= length bs -> 1 <= length rest).
Proof.
  induction fuel as [|fuel IH]; intros bs Hl; simpl.
  { split_and!; [done|constructor|lia|done]. }
  destruct (Nat.ltb_spec block_size (length bs)) as [Hlt|Hge]; [|split_and!; [done|constructor|lia|done]].
  specialize (IH (drop block_size bs)). rewrite length_drop in IH. specialize (IH ltac:(lia)).
  destruct (cut fuel (drop block_size bs)) as [out rest]. destruct IH as (Hc & Ha & Hr & Hn). split_and!.
  - simpl. by rewrite <- app_assoc, Hc, take_drop.
  - constructor; [|done]. rewrite length_take. lia.
  - done.
  - intros _. apply Hn. lia.
Qed.

Lemma accept_spec buffer frame : length buffer <= block_size ->
  let '(buffer', out) := accept buffer frame in
  concat (default [] out) ++ buffer' = buffer ++ frame /\ length buffer' <= block_size /\
  Forall (fun b => length b = block_size) (default [] out).
Proof.
  intros Hb. unfold accept. destruct (Nat.ltb_spec (length frame) (block_size - length buffer)) as [Hlt|Hge].
  { split_and!; [done|rewrite length_app; lia|constructor]. }
  destruct (Nat.eqb_spec (length frame) (block_size - length buffer)) as [Heq|Hne].
  { simpl. split_and!; [by rewrite !app_nil_r|lia|]. constructor; [|done]. rewrite length_app. lia. }
  pose proof (cut_spec (length frame) (drop (block_size - length buffer) frame)) as Hc.
  rewrite length_drop in Hc. specialize (Hc ltac:(lia)).
  destruct (cut _ _) as [out rest]. destruct Hc as (Hc & Ha & Hr & _). simpl. split_and!; [|done|].
  - by rewrite <- !app_assoc, Hc, take_drop.
  - constructor; [|done]. rewrite length_app, length_take. lia.
Qed.

(** A poll of a body without errors: the emitted blocks are full, or they are
    what was left and the body is over. *)
Lemma poll_chunks_spec frames : forall s,
  bf_finished s = false -> length (bf_buffer s) <= block_size ->
  let '(item, s', more) := poll_chunks s (map Ok frames) in
  match item with
  | None => bf_buffer s ++ concat frames = []
  | Some (Ok out) =>
      (exists more', more = map Ok more' /\ length more' < length frames /\ bf_finished s' = false /\
         length (bf_buffer s') <= block_size /\ Forall (fun b => length b = block_size) out /\
         concat out ++ bf_buffer s' ++ concat more' = bf_buffer s ++ concat frames) \/
      (bf_finished s' = true /\ exists b, out = [b] /\ 1 <= length b <= block_size /\ b = bf_buffer s ++ concat frames)
  | Some (Err _) => False
  end.
Proof.
  induction frames as [|frame frames IH]; intros s Hf Hb; simpl; rewrite Hf.
  - destruct (bf_buffer s) as [|c r] eqn:E; [done|]. right. split; [done|]. exists (c :: r).
    rewrite app_nil_r. split_and!; [done|simpl; lia|done|done].
  - pose proof (accept_spec (bf_buffer s) frame Hb) as Ha. destruct (accept (bf_buffer s) frame) as [buffer [out|]].
    + destruct Ha as (Hc & Hl & Hall). left. exists frames. simpl in *. split_and!; try done; [lia|].
      by rewrite app_assoc, Hc, <- app_assoc.
    + destruct Ha as (Hc & Hl & _). simpl in Hc. specialize (IH (mkBuffered buffer false) eq_refl Hl).
      destruct (poll_chunks (mkBuffered buffer false) (map Ok frames)) as [[[[out|e]|] s'] more].
      * destruct IH as [(more' & -> & Hlt & Hf' & Hl' & Hall & Hcat)|(Hf' & b & -> & Hlb & ->)].
        -- left. exists more'. split_and!; try done; [simpl; lia|]. simpl in *. by rewrite Hcat, Hc, <- app_assoc.
        -- right. split; [done|]. eexists. split; [done|]. split; [exact Hlb|]. simpl. by rewrite Hc, <- app_assoc.
      * done.
      * simpl in IH. by rewrite Hc, <- app_assoc in IH.
Qed.

Lemma blocks_of_app out body blocks rest :
  Forall (fun b => length b = block_size) out -> blocks_of rest blocks -> concat out ++ rest = body ->
  blocks_of body (out ++ blocks).
Proof.
  intros Hall [Hc Hb] <-. split; [by rewrite concat_app, Hc|]. intros k b Hk.
  rewrite Forall_forall in Hall. apply lookup_app_Some in Hk as [Hk|[Hge Hk]].
  - rewrite (Hall b) by (by eapply list_elem_of_lookup_2). split; [done|lia].
  - destruct (Hb _ _ Hk) as [H1 H2]. split; [|done]. rewrite length_app. intros. apply H1. lia.
Qed.

Lemma drain_chunks_spec fuel : forall s frames,
  bf_finished s = false -> length (bf_buffer s) <= block_size -> 2 + length frames <= fuel ->
  blocks_of (bf_buffer s ++ concat frames) (stream_chunks (drain_chunks fuel s (map Ok frames))).1 /\
  (stream_chunks (drain_chunks fuel s (map Ok frames))).2 = true.
Proof.
  induction fuel as [|fuel IH]; intros s frames Hf Hb Hfuel; [lia|]. cbn [drain_chunks].
  pose proof (poll_chunks_spec frames s Hf Hb) as Hp.
  destruct (poll_chunks s (map Ok frames)) as [[[[out|e]|] s'] more]; [|done|].
  - destruct Hp as [(more' & -> & Hlt & Hf' & Hl' & Hall & Hcat)|(Hf' & b & -> & Hlb & ->)].
    + destruct (IH s' more' Hf' Hl' ltac:(lia)) as [IH1 IH2]. cbn [stream_chunks].
      destruct (stream_chunks (drain_chunks fuel s' (map Ok more'))) as [cs ok]. simpl in *.
      split; [|done]. by eapply blocks_of_app.
    + assert (drain_chunks fuel s' more = []) as ->.
      { destruct fuel; [done|]. cbn [drain_chunks]. destruct more; simpl; by rewrite Hf'. }
      simpl. split; [|done]. split; [simpl; by rewrite app_nil_r|]. intros [|k] b; simpl; [|done].
      intros [= <-]. split; [lia|done].
  - simpl. rewrite Hp. split; [|done]. split; [done|]. by intros k b.
Qed.
End Chunking.

(** A body without errors is cut into its blocks. *)
Lemma chunk_stream_blocks block_size frames :
  1 <= block_size ->
  blocks_of block_size (concat frames) (stream_chunks (chunk_stream block_size (map Ok frames))).1 /\
  (stream_chunks (chunk_stream block_size (map Ok frames))).2 = true.
Proof.
  intros Hpos. unfold chunk_stream. rewrite length_map.
  apply (drain_chunks_spec block_size Hpos _ new_buffered frames); simpl; lia.
Qed.

(** C33: The block boundaries of a body depend on its bytes alone.  However a
    body arrives, cut into frames of any sizes, the blocks handed on are full
    except possibly the last, which is not empty; they are the body's bytes in
    order; so two framings of one body give the same blocks and the same
    addresses.  The stream always ends. *)
Theorem chunking_ignores_framing block_size frames :
  1 <= block_size ->
  let items := chunk_stream block_size (map Ok frames) in
  (stream_chunks items).2 = true /\
  blocks_of block_size (concat frames) (stream_chunks items).1 /\
  forall frames', concat frames' = concat frames ->
    (stream_chunks (chunk_stream block_size (map Ok frames'))).1 = (stream_chunks items).1.
Proof.
  intros Hpos items.
  destruct (chunk_stream_blocks block_size frames Hpos) as [H1 H2]. split_and!; [done|done|]. intros fs Heq.
  destruct (chunk_stream_blocks block_size fs Hpos) as [H3 _]. rewrite Heq in H3. by eapply blocks_of_unique.
Qed.

Lemma chunking_ignores_framing_witness :
  (stream_chunks (chunk_stream 3 [Ok (str "ab"); Ok (str "cdefghijk"); Ok []; Ok (str "l")])).1
  = (stream_chunks (chunk_stream 3 [Ok (str "abcdefghijkl")])).1 /\
  (stream_chunks (chunk_stream 3 [Ok (str "abcdefghijkl")])).1 = [str "abc"; str "def"; str "ghi"; str "jkl"].
Proof.
  split; [|reflexivity].
  exact (proj2 (proj2 (chunking_ignores_framing 3 [str "abcdefghijkl"] ltac:(lia)))
    [str "ab"; str "cdefghijk"; []; str "l"] eq_refl).
Defined.
