(* ===== verification/Namespaces.v ===== *)
(** The namespaces of respcas (respcas/src/storage.rs, namespace.rs,
    content.rs): the metadata record of a namespace, the cache of open
    namespaces with their in-memory properties, and the operations on keys,
    content-addressed ingest included.

    A namespace is a bucket of the block engine.  The state is a [RespWorld]:
    the engine's world and the cache, which every connection shares; a handler
    refers to its namespace by the name it is cached under.  The clock, the
    answers of the reads of block files and the bounds on walks of the
    namespace list are arguments. *)

From S2P Require Import Prelude Bytes Resp Externals BlockIds Codec Records StoreHeader MetaStore Commands Disk BlockStream Placement MetaOps Accounting Engine BatchSpecs WriteSpecs Chunking.
From Stdlib Require Import Strings.Byte.
Local Open Scope Z_scope.
#[local] Set Warnings "-clear-no-such-hyp,-register-all".

(* ------------------------------------------------------------------ *)
(** * Metadata *)

Record NamespaceMeta : Type := mkNamespaceMeta {
  nm_name : bytes;
  nm_password : option bytes;
  nm_max_size : option Z;
  nm_public : bool;
  nm_worm : bool;
  nm_locked : bool;
  nm_key_mode : KeyMode
}.

(** [rmp_serde]: the MessagePack form of the record. *)
Class Msgpack := {
  to_msgpack : NamespaceMeta -> result string bytes;
  from_msgpack : bytes -> result string NamespaceMeta
}.
Class MsgpackLaws `{Msgpack} : Prop :=
  msgpack_roundtrip m raw : to_msgpack m = Ok raw -> from_msgpack raw = Ok m.

Definition NamespaceMeta_new (name : bytes) : NamespaceMeta :=
  mkNamespaceMeta name None None true false false UserKey.

Definition set_mode (mode : KeyMode) (m : NamespaceMeta) : NamespaceMeta :=
  mkNamespaceMeta (nm_name m) (nm_password m) (nm_max_size m) (nm_public m) (nm_worm m) (nm_locked m) mode.

(** [StorageError] and the errors of the layers above it, with the reasons of
    a refusal in place of their texts. *)
Inductive NsErr : Type :=
| NamespaceNotFound
| NamespaceExists (namespace : bytes)
| NamespaceNotEmpty (namespace : bytes) (keys : Z)
| StorageMeta (e : MetaError)
| NsCodec (msg : string)
| NsEngine (e : EngErr)
| LockedNamespace
| WormProtects
| WormDelete
| OverQuota (limit usage adding after : Z)
| BadKeyLength
| HashMismatch (actual key : bytes)
| WentAway (key : bytes)
| ReadFailed (key : bytes) (f : Finish)
| NotInline
| FlushesDefault.

(* ------------------------------------------------------------------ *)
(** * State *)

Record NamespaceProperties : Type := mkProps {
  pr_namespace_name : bytes;
  pr_worm : bool;
  pr_locked : bool;
  pr_public : bool;
  pr_key_mode : KeyMode;
  pr_max_size : option Z
}.

Definition default_props (name : bytes) : NamespaceProperties := mkProps name false false true UserKey None.

(** [Namespace]: the tree it reads from, its properties. *)
Record Namespace : Type := mkNamespace { ns_tree : tree; ns_props : NamespaceProperties }.

Definition sync_properties_from_meta (m : NamespaceMeta) (n : Namespace) : Namespace :=
  mkNamespace (ns_tree n)
    (mkProps (pr_namespace_name (ns_props n)) (nm_worm m) (nm_locked m) (nm_public m) (nm_key_mode m) (nm_max_size m)).

Definition with_tree (t : tree) (n : Namespace) : Namespace := mkNamespace t (ns_props n).

Record RespWorld (S D : Type) : Type := mkRespWorld { rw_world : World S D; rw_cache : gmap bytes Namespace }.
Arguments mkRespWorld {S D}.
Arguments rw_world {S D}.
Arguments rw_cache {S D}.

(** What [Storage] and [CasFS] fix at open. *)
Record RespCfg : Type := mkRespCfg {
  rc_engine : StoreCfg;
  rc_db_path : path;
  rc_data_dir : path;
  rc_inlined_metadata_size : Z;
  rc_verify_on_read : bool
}.

(** What a request is given: the clock, the answers of block reads, and how
    many namespaces a walk of the list goes through. *)
Record Env : Type := mkEnv { en_now : Z; en_micros : Z; en_answers : list IoAnswer; en_fuel : nat }.

Definition CAS_KEY_LEN : nat := 32.

Section Storage.
Context {S T D : Type} `{Store S T, BlockDiskOps D, DiskView D, StdFs D, Blake3, Md5, FasterHex, Msgpack}.
Context (rcfg : RespCfg) (env : Env).
Abbreviation NM := (M (RespWorld S D) NsErr).
Abbreviation cfg := (rc_engine rcfg).

Definition on_engine {A} (m : M (World S D) EngErr A) : NM A := fun rw =>
  let '(r, w') := m (rw_world rw) in (map_err NsEngine r, mkRespWorld w' (rw_cache rw)).

(** A call on the namespace database. *)
Definition on_meta {A} (m : M S MetaError A) : NM A := fun rw =>
  let w := rw_world rw in
  let '(r, s') := m (w_ns w) in
  (map_err StorageMeta r, mkRespWorld (mkWorld s' (w_shared w) (w_disk w) (w_counters w)) (rw_cache rw)).

(** A call on the namespace database and the directory of its sidecar. *)
Definition on_home {A} (m : M (Home S D) MetaError A) : NM A := fun rw =>
  let w := rw_world rw in
  let '(r, h') := m (mkHome (w_ns w) (ds_disk (w_disk w))) in
  (map_err StorageMeta r,
   mkRespWorld (mkWorld (h_store h') (w_shared w)
     (mkDiskState (h_disk h') (ds_known_durable (w_disk w)) (ds_nonce (w_disk w))) (w_counters w)) (rw_cache rw)).

Definition lift_codec {A} (r : result string A) : NM A := M_lift (map_err NsCodec r).

Definition from_cache {A} (f : gmap bytes Namespace -> A) : NM A := fun rw => (Ok (f (rw_cache rw)), rw).
Definition set_cache (f : gmap bytes Namespace -> gmap bytes Namespace) : NM unit := fun rw =>
  (Ok tt, mkRespWorld (rw_world rw) (f (rw_cache rw))).

(* ------------------------------------------------------------------ *)
(** ** [Storage] *)

(** [if !self.store.bucket_exists(name)? { return Err(NamespaceNotFound) }] *)
Definition require_namespace (name : bytes) : NM unit :=
  present ← on_meta (bucket_exists name);
  if (present : bool) then mret tt else M_err NamespaceNotFound.

Definition get_namespace (name : bytes) : NM tree :=
  _ ← require_namespace name;
  on_meta (tree_open name).

Definition get_namespace_meta (name : bytes) : NM NamespaceMeta :=
  _ ← require_namespace name;
  raw ← on_meta (bucketlist_tree ← tree_open DEFAULT_BUCKET_TREE; tree_get bucketlist_tree name);
  match raw with
  | Some raw => lift_codec (from_msgpack raw)
  | None => M_err NamespaceNotFound
  end.

Definition update_namespace_meta (name : bytes) (meta : NamespaceMeta) : NM unit :=
  _ ← require_namespace name;
  meta_raw ← lift_codec (to_msgpack meta);
  on_meta (bucketlist_tree ← tree_open DEFAULT_BUCKET_TREE; tree_insert bucketlist_tree name meta_raw).

Definition create_namespace (name : bytes) : NM tree :=
  raw ← lift_codec (to_msgpack (NamespaceMeta_new name));
  claimed ← on_meta (insert_bucket_if_absent name raw);
  if (claimed : bool) then get_namespace name else M_err (NamespaceExists name).

Definition delete_namespace (name : bytes) : NM unit :=
  _ ← require_namespace name;
  on_meta (drop_bucket name).

(** A loop over [iter_namespace]: each step reads the list as it is then; an
    item that cannot be read does not advance the iterator. *)
Fixpoint each_namespace {A} (fuel : nat) (f : result NsErr NamespaceMeta -> A -> NM A) (acc : A)
    (cursor : option bytes) : NM A :=
  match fuel with
  | O => mret acc
  | Datatypes.S fuel =>
      item ← M_try (on_meta (tree_next DEFAULT_BUCKET_TREE cursor));
      match item with
      | Ok None => mret acc
      | Ok (Some (key, value)) =>
          acc ← f (map_err NsCodec (from_msgpack value)) acc;
          each_namespace fuel f acc (Some key)
      | Err e => acc ← f (Err e) acc; each_namespace fuel f acc cursor
      end
  end.

Definition for_namespaces {A} (f : result NsErr NamespaceMeta -> A -> NM A) (acc : A) : NM A :=
  _ ← on_meta (tree_open DEFAULT_BUCKET_TREE);
  each_namespace (en_fuel env) f acc None.

Definition sum_record_sizes (name : bytes) : NM Z :=
  t ← get_namespace name;
  sizes ← on_meta (iter_map (en_fuel env)
    (fun item => map_err Corruption (Object_try_from item.2) ≫= (fun o => Ok (o_size o))) t None);
  mret (foldl saturating_add_u64 0 sizes).

Definition namespace_usage (name : bytes) : NM Z :=
  _ ← require_namespace name;
  usage ← on_meta (bucket_usage name);
  match usage with
  | Some n => mret n
  | None =>
      total ← sum_record_sizes name;
      _ ← on_meta (set_bucket_usage name total);
      mret total
  end.

(** [adopt_usage_ledger], run once at open. *)
Definition adopt_namespace (name : bytes) : NM unit :=
  usage ← on_meta (bucket_usage name);
  match usage with
  | Some _ => mret tt
  | None => total ← sum_record_sizes name; on_meta (set_bucket_usage name total)
  end.
Definition adopt_usage_ledger : NM unit :=
  for_namespaces (fun item _ => meta ← M_lift item; adopt_namespace (nm_name meta)) tt.

Definition declare_cas_namespaces : NM unit :=
  _ ← on_home (raise_version (rc_db_path rcfg) (rc_data_dir rcfg) STORE_HEADER_VERSION_CAS_NAMESPACE); mret tt.

Definition set_key_mode (name : bytes) (mode : KeyMode) : NM unit :=
  meta ← get_namespace_meta name;
  if decide (nm_key_mode meta = mode) then mret tt
  else
    t ← get_namespace name;
    keys ← on_meta (tree_len t);
    if negb (keys =? 0) then M_err (NamespaceNotEmpty name keys)
    else
      _ ← (if decide (mode = Cas) then declare_cas_namespaces else mret tt);
      update_namespace_meta name (set_mode mode meta).

Definition cas_namespaces : NM (list bytes) :=
  for_namespaces (fun item names =>
    meta ← M_lift item;
    mret (if decide (nm_key_mode meta = Cas) then names ++ [nm_name meta] else names)) [].

(** [Storage::init_namespace] *)
Definition init_namespace : NM unit :=
  present ← on_meta (bucket_exists (str "default"));
  if (present : bool) then mret tt else _ ← create_namespace (str "default"); mret tt.

(* ------------------------------------------------------------------ *)
(** ** [NamespaceCache] *)

(** [insert_new]: a metadata record that cannot be read leaves the default
    properties. *)
Definition insert_new (name : bytes) (t : tree) : NM unit := fun rw =>
  let fresh := mkNamespace t (default_props name) in
  match get_namespace_meta name rw with
  | (Ok meta, rw') => set_cache (<[name := sync_properties_from_meta meta fresh]>) rw'
  | (Err _, rw') => set_cache (<[name := fresh]>) rw'
  end.

Definition get_or_create (name : bytes) : NM unit :=
  cached ← from_cache (fun c => c !! name);
  match cached with
  | Some _ => mret tt
  | None => t ← get_namespace name; insert_new name t
  end.

Definition create_if_not_exists (name : bytes) : NM unit := fun rw =>
  match get_or_create name rw with
  | (Ok _, rw') => (Ok tt, rw')
  | (Err _, rw') =>
      match create_namespace name rw' with
      | (Ok t, rw2) => insert_new name t rw2
      | (Err (NamespaceExists _), rw2) => get_or_create name rw2
      | (Err e, rw2) => (Err e, rw2)
      end
  end.

Definition update_all_instances (name : bytes) (f : NamespaceProperties -> NamespaceProperties) : NM unit :=
  set_cache (alter (fun n => mkNamespace (ns_tree n) (f (ns_props n))) name).

Definition flush_namespace (name : bytes) : NM unit :=
  cached ← from_cache (fun c => c !! name);
  match cached with
  | None => mret tt
  | Some _ =>
      meta ← get_namespace_meta name;
      placeholder ← get_namespace (str "default");
      _ ← set_cache (alter (with_tree placeholder) name);
      _ ← delete_namespace name;
      new_tree ← create_namespace name;
      _ ← set_cache (alter (with_tree new_tree) name);
      update_namespace_meta name meta
  end.

(* ------------------------------------------------------------------ *)
(** ** [Namespace] *)

(** The properties and the tree of the cached namespace [ns]. *)
Definition props_of (ns : bytes) : NM NamespaceProperties :=
  from_cache (fun c => match c !! ns with Some n => ns_props n | None => default_props ns end).
Definition tree_of (ns : bytes) : NM tree :=
  from_cache (fun c => match c !! ns with Some n => ns_tree n | None => ns end).
Definition name_of (ns : bytes) : NM bytes := props ← props_of ns; mret (pr_namespace_name props).

Definition get_object (ns key : bytes) : NM (option Object) :=
  t ← tree_of ns;
  data ← on_meta (tree_get t key);
  match data with
  | Some data => obj ← on_meta (decoded (Object_try_from data)); mret (Some obj)
  | None => mret None
  end.

Definition exists_key (ns key : bytes) : NM bool := t ← tree_of ns; on_meta (tree_contains_key t key).

Definition length_of (ns key : bytes) : NM (option Z) :=
  obj ← get_object ns key; mret (option_map o_size obj).

(** [UNIX_EPOCH + Duration::from_secs(ctime as u64)] panics past the last
    representable time. *)
Definition keytime (ns key : bytes) : NM (option Z) :=
  obj ← get_object ns key;
  match obj with
  | None => mret None
  | Some obj =>
      if o_ctime obj <? 0 then M_err (NsEngine (EPanic "overflow when adding duration to instant"))
      else mret (Some (o_ctime obj))
  end.

Definition refuse_over_quota (ns : bytes) (limit adding replacing : Z) : NM unit :=
  namespace ← name_of ns;
  usage ← on_meta (bucket_usage namespace);
  let usage := match usage with Some n => n | None => 0 end in
  let after := saturating_add_u64 (Z.max 0 (usage - replacing)) adding in
  if limit <? after then M_err (OverQuota limit usage adding after) else mret tt.

Definition refuse_unless_within_quota (ns key : bytes) (adding : Z) : NM unit :=
  props ← props_of ns;
  match pr_max_size props with
  | None => mret tt
  | Some limit =>
      replacing ← length_of ns key;
      refuse_over_quota ns limit adding (match replacing with Some n => n | None => 0 end)
  end.

Definition refuse_unless_room_for (ns : bytes) (adding : Z) : NM unit :=
  props ← props_of ns;
  match pr_max_size props with
  | None => mret tt
  | Some limit => refuse_over_quota ns limit adding 0
  end.

Definition refuse_unless_writable (ns : bytes) (worm_guards_key : option bytes) : NM unit :=
  props ← props_of ns;
  if pr_locked props then M_err LockedNamespace
  else if pr_worm props then
    occupied ← match worm_guards_key with Some key => exists_key ns key | None => mret false end;
    if (occupied : bool) then M_err WormProtects else mret tt
  else mret tt.

Definition ns_set (ns key value : bytes) : NM unit :=
  _ ← refuse_unless_writable ns (Some key);
  _ ← refuse_unless_within_quota ns key (Z.of_nat (length value));
  bucket ← name_of ns;
  _ ← on_engine (store_inlined_object cfg (en_now env) bucket key value);
  mret tt.

(** The single-item stream a value arrives as, cut into blocks. *)
Definition value_stream (value : bytes) : list (result IoError (list bytes)) :=
  chunk_stream (Z.to_nat BLOCK_SIZE) [Ok value].

Definition store_verified (ns key value : bytes) : NM unit :=
  _ ← refuse_unless_writable ns None;
  _ ← refuse_unless_room_for ns (Z.of_nat (length value));
  bucket ← name_of ns;
  if Z.of_nat (length value) <=? max_inlined_data_length (rc_inlined_metadata_size rcfg)
  then _ ← on_engine (store_inlined_object cfg (en_now env) bucket key value); mret tt
  else
    stored ← on_engine (store_object cfg (value_stream value));
    let '(blocks, hash, size) := stored in
    _ ← on_engine (create_object_meta cfg (en_now env) bucket key size hash (SinglePart blocks));
    mret tt.

(** The whole stream, polled to its end. *)
Definition read_blocks (ns key : bytes) (obj : Object) : NM bytes :=
  bucket ← name_of ns;
  found ← on_engine (get_object_paths cfg bucket key);
  match found with
  | None => M_err (WentAway key)
  | Some (_, paths) => M_run (fun rw =>
      let s := new_stream paths (o_size obj) All in
      let s := if rc_verify_on_read rcfg then verified s (cfg_hasher cfg) (o_blocks obj) else s in
      let '(chunks, f) := consume (wfiles (rw_world rw)) (en_answers env) s in
      match f with
      | Finished => (Ok (concat chunks), rw)
      | _ => (Err (ReadFailed key f), rw)
      end)
  end.

Definition ns_get (ns key : bytes) : NM (option bytes) :=
  obj ← get_object ns key;
  match obj with
  | None => mret None
  | Some obj =>
      match o_data obj with
      | Inline data => mret (Some data)
      | _ => value ← read_blocks ns key obj; mret (Some value)
      end
  end.

Definition ns_del (ns key : bytes) : NM bool :=
  props ← props_of ns;
  if pr_locked props then M_err LockedNamespace
  else if pr_worm props then M_err WormDelete
  else bucket ← name_of ns; on_engine (delete_object cfg bucket key).

Definition value_key (value : bytes) : bytes := blake3_hash value.

Definition ns_check (ns key : bytes) : NM (option bool) :=
  obj ← get_object ns key;
  match obj with
  | None => mret None
  | Some obj =>
      props ← props_of ns;
      if decide (pr_key_mode props = Cas) then
        value ← match o_data obj with Inline data => mret data | _ => read_blocks ns key obj end;
        mret (Some (bool_decide (value_key value = key)))
      else match o_data obj with
           | Inline data => mret (Some (bool_decide (mkContentHash (md5_digest data) = o_hash obj)))
           | _ => M_err NotInline
           end
  end.

Definition ns_num_keys (ns : bytes) : NM Z := t ← tree_of ns; on_meta (tree_len t).

(** The loop over [iter_kv] or [iter_kv_backward], up to [n] keys. *)
Fixpoint collect_keys (next : option bytes -> M S MetaError (option (bytes * bytes))) (n : nat)
    (cursor : option bytes) : M S MetaError (list bytes) :=
  match n with
  | O => mret []
  | Datatypes.S n =>
      item ← next cursor;
      match item with
      | None => mret []
      | Some (key, _) => rest ← collect_keys next n (Some key); mret (key :: rest)
      end
  end.

Definition ns_scan (ns : bytes) (start_key : option bytes) (num : nat) : NM (list bytes) :=
  t ← tree_of ns; on_meta (collect_keys (tree_next t) num start_key).
Definition ns_scan_backward (ns : bytes) (start_key : option bytes) (num : nat) : NM (list bytes) :=
  t ← tree_of ns; on_meta (collect_keys (tree_prev t) num start_key).

Definition ns_flush (ns : bytes) : NM unit :=
  namespace ← name_of ns;
  if decide (namespace = str "default") then M_err FlushesDefault else flush_namespace namespace.

(* ------------------------------------------------------------------ *)
(** ** Content-addressed ingest *)

Inductive Ingest : Type := ServerHashed | ClientHashed (claimed : bytes).

(** The loop of [clone_from_another_namespace] over the sources. *)
Fixpoint clone_from (ns key : bytes) (sources : list bytes) : NM bool :=
  match sources with
  | [] => mret false
  | source :: sources' =>
      this ← name_of ns;
      if decide (source = this) then clone_from ns key sources'
      else
        t ← get_namespace source;
        present ← on_meta (tree_contains_key t key);
        if negb present then clone_from ns key sources'
        else
          props ← props_of ns;
          _ ← match pr_max_size props with
              | None => mret tt
              | Some _ =>
                  obj ← on_meta (get_meta source key);
                  refuse_unless_room_for ns (match obj with Some o => o_size o | None => 0 end)
              end;
          cloned ← on_engine (clone_object_by_reference cfg (en_now env) source key this key);
          match cloned with
          | Some _ => mret true
          | None => clone_from ns key sources'
          end
  end.

Definition clone_from_another_namespace (ns key : bytes) : NM bool :=
  sources ← cas_namespaces; clone_from ns key sources.

Definition ingest (ns : bytes) (mode : Ingest) (value : bytes) : NM bytes :=
  key ← match mode with
        | ServerHashed => mret (value_key value)
        | ClientHashed claimed =>
            if (length claimed =? CAS_KEY_LEN)%nat then mret claimed else M_err BadKeyLength
        end;
  present ← exists_key ns key;
  if (present : bool) then mret key
  else
    cloned ← clone_from_another_namespace ns key;
    if (cloned : bool) then mret key
    else
      _ ← match mode with
          | ClientHashed _ =>
              let actual := value_key value in
              if decide (actual = key) then mret tt else M_err (HashMismatch actual key)
          | ServerHashed => mret tt
          end;
      _ ← store_verified ns key value;
      mret key.
End Storage.
