(* ===== verification/Handlers.v ===== *)
(** The commands of respcas at work (respcas/src/cmd/keys.rs, cmd/ns.rs,
    cmd.rs) and the session that serves a connection (respcas/src/server.rs,
    conn.rs): the handler bound to a namespace, SELECT and AUTH, which rebind
    it, and the loop over the frames of a read buffer.

    A handler's answer is a frame and the world it leaves; the text of an
    error is a parameter, what is written around it is the source's. *)

From S2P Require Import Prelude Bytes Resp Externals BlockIds Codec Records StoreHeader MetaStore Commands Disk BlockStream Placement MetaOps Accounting Engine BatchSpecs Namespaces.
From stdpp Require Import pretty.
From Stdlib Require Import Strings.Byte.
Local Open Scope Z_scope.
#[local] Set Warnings "-clear-no-such-hyp,-register-all".

Definition SCAN_PAGE : nat := 10.

(** [CommandHandler]; the namespace is the one cached under [ch_namespace]. *)
Record CommandHandler : Type := mkHandler {
  ch_namespace : bytes;
  ch_is_admin : bool;
  ch_namespace_authenticated : bool
}.

Definition text_of (b : bytes) : string := String.string_of_list_byte b.

Section Handlers.
Context {S T D : Type} `{Store S T, BlockDiskOps D, DiskView D, StdFs D, Blake3, Md5, FasterHex, Msgpack, Unicode}.
Context (rcfg : RespCfg) (env : Env) (show : NsErr -> string).
Abbreviation RW := (RespWorld S D).
Abbreviation NM := (M RW NsErr).
Abbreviation HM := (RW -> Frame * RW).

(** [match m { Ok(a) => ok(a), Err(e) => err(e) }] *)
Definition answer {A} (m : NM A) (ok : A -> Frame) (err : NsErr -> Frame) : HM := fun rw =>
  match m rw with
  | (Ok a, rw') => (ok a, rw')
  | (Err e, rw') => (err e, rw')
  end.

Definition err_frame (e : NsErr) : Frame := FError ("ERR " ++ show e).
Definition reply (f : Frame) : HM := fun rw => (f, rw).
Definition ok_frame : Frame := SimpleString (str "OK").

Section Handler.
Context (self : CommandHandler).
Abbreviation ns := (ch_namespace self).

(** The cached properties, read under their lock. *)
Definition cached_props (rw : RW) : NamespaceProperties :=
  match rw_cache rw !! ns with Some n => ns_props n | None => default_props ns end.

Definition may_read (rw : RW) : bool := pr_public (cached_props rw) || ch_namespace_authenticated self.

Definition read_denied : Frame := FError "ERR Authentication required for read operations".
Definition write_denied : Frame := FError "ERR: Authentication required for write operations".

Definition handle_get (key : bytes) : HM := fun rw =>
  if negb (may_read rw) then (read_denied, rw)
  else answer (ns_get rcfg env ns key)
         (fun v => match v with Some value => BulkString value | None => Null end) err_frame rw.

Fixpoint mget_values (keys : list bytes) (rw : RW) : list Frame * RW :=
  match keys with
  | [] => ([], rw)
  | key :: keys' =>
      let '(value, rw1) := answer (ns_get rcfg env ns key)
        (fun v => match v with Some value => BulkString value | None => Null end) (fun _ => Null) rw in
      let '(values, rw2) := mget_values keys' rw1 in
      (value :: values, rw2)
  end.

Definition handle_mget (keys : list bytes) : HM := fun rw =>
  if negb (may_read rw) then (read_denied, rw)
  else let '(values, rw') := mget_values keys rw in (Array values, rw').

Definition handle_ingest (mode : Ingest) (value : bytes) : HM :=
  answer (ingest rcfg env ns mode value)
    (fun key => match mode with ServerHashed => BulkString key | ClientHashed _ => ok_frame end) err_frame.

Definition handle_set (key value : bytes) : HM := fun rw =>
  if negb (ch_namespace_authenticated self) then (write_denied, rw)
  else if decide (pr_key_mode (cached_props rw) = Cas) then
    handle_ingest (match key with [] => ServerHashed | _ => ClientHashed key end) value rw
  else answer (ns_set rcfg env ns key value) (fun _ => ok_frame) err_frame rw.

Definition handle_cset (value : bytes) : HM := fun rw =>
  if negb (ch_namespace_authenticated self) then (write_denied, rw)
  else if decide (pr_key_mode (cached_props rw) = Cas) then handle_ingest ServerHashed value rw
  else (FError "ERR CSET is only valid in a content-addressed namespace (NSSET <namespace> key_mode cas)", rw).

Definition handle_ping (message : option bytes) : HM :=
  reply (match message with Some msg => BulkString msg | None => SimpleString (str "PONG") end).

Definition handle_echo (message : bytes) : HM := reply (BulkString message).

Fixpoint del_keys (keys : list bytes) (removed : Z) : NM Z :=
  match keys with
  | [] => mret removed
  | key :: keys' =>
      gone ← ns_del rcfg ns key;
      del_keys keys' (if (gone : bool) then removed + 1 else removed)
  end.

Definition handle_del (keys : list bytes) : HM := fun rw =>
  if negb (ch_namespace_authenticated self) then (write_denied, rw)
  else answer (del_keys keys 0) Integer err_frame rw.

Definition handle_exists (key : bytes) : HM := fun rw =>
  if negb (may_read rw) then (read_denied, rw)
  else answer (exists_key ns key) (fun b : bool => Integer (if b then 1 else 0)) err_frame rw.

Definition handle_check (key : bytes) : HM :=
  answer (ns_check rcfg env ns key)
    (fun r => Integer (match r with Some true => 1 | _ => 0 end)) err_frame.

Definition handle_length (key : bytes) : HM :=
  answer (length_of ns key)
    (fun r => match r with Some size => Integer (as_i64 size) | None => Null end) err_frame.

Definition handle_keytime (key : bytes) : HM :=
  answer (keytime ns key) (fun r => match r with Some t => Integer t | None => Null end) err_frame.

Definition handle_time : HM :=
  reply (if en_now env <? 0 then FError "ERR Failed to get system time"
         else Array [BulkString (str (pretty (en_now env))); BulkString (str (pretty (en_micros env)))]).

(* ------------------------------------------------------------------ *)
(** ** Namespace commands *)

Definition handle_nsnew (name : bytes) : HM := fun rw =>
  if negb (ch_is_admin self) then (FError "ERR NSNEW command requires admin privileges", rw)
  else answer (create_namespace name) (fun _ => ok_frame) err_frame rw.

Definition yes_no (b : bool) : bytes := if b then str "yes" else str "no".
Definition newline : bytes := [x0a].

Definition info_text (meta : NamespaceMeta) (usage : Z) : bytes :=
  str "# namespace" ++ newline ++ str "name: " ++ nm_name meta ++
  newline ++ str "public: " ++ yes_no (nm_public meta) ++
  newline ++ str "password: " ++ yes_no (bool_decide (is_Some (nm_password meta))) ++
  newline ++ str "data_size_bytes: " ++ str (pretty usage) ++
  newline ++ str "data_limits_bytes: " ++ str (pretty (match nm_max_size meta with Some n => n | None => 0 end)) ++
  newline ++ str "mode: " ++ key_mode_name (nm_key_mode meta) ++
  newline ++ str "worm: " ++ yes_no (nm_worm meta) ++
  newline ++ str "locked: " ++ yes_no (nm_locked meta).

Definition handle_nsinfo (name : bytes) : HM :=
  answer (meta ← get_namespace_meta name; usage ← namespace_usage env name; mret (info_text meta usage))
    BulkString err_frame.

Definition handle_nslist : HM :=
  answer (for_namespaces env (fun item result =>
            mret (match item with Ok meta => result ++ [BulkString (nm_name meta)] | Err _ => result end)) [])
    Array err_frame.

Definition handle_nsset_key_mode (namespace value : bytes) : HM := fun rw =>
  match parse_key_mode value with
  | Err e => (FError ("ERR " ++ text_of e), rw)
  | Ok mode =>
      answer (_ ← set_key_mode rcfg namespace mode;
              update_all_instances namespace (fun p =>
                mkProps (pr_namespace_name p) (pr_worm p) (pr_locked p) (pr_public p) mode (pr_max_size p)))
        (fun _ => ok_frame) err_frame rw
  end.

(** The metadata after [property = value]. *)
Definition set_property (property value : bytes) (meta : NamespaceMeta) : result string NamespaceMeta :=
  let '(mkNamespaceMeta name password max_size public worm locked mode) := meta in
  let flag (make : bool -> NamespaceMeta) :=
    match parse_bool_property value with Ok v => Ok (make (to_bool v)) | Err e => Err ("ERR " ++ text_of e)%string end in
  let p := to_lowercase property in
  if decide (p = str "worm") then flag (fun b => mkNamespaceMeta name password max_size public b locked mode)
  else if decide (p = str "lock") then flag (fun b => mkNamespaceMeta name password max_size public worm b mode)
  else if decide (p = str "public") then flag (fun b => mkNamespaceMeta name password max_size b worm locked mode)
  else if decide (p = str "password") then
    Ok (mkNamespaceMeta name (match value with [] => None | _ => Some value end) max_size public worm locked mode)
  else if decide (p = str "max_size") then
    match parse_max_size value with
    | Ok limit => Ok (mkNamespaceMeta name password limit public worm locked mode)
    | Err e => Err ("ERR " ++ text_of e)%string
    end
  else Err ("ERR Unknown property: " ++ text_of property)%string.

(** The in-memory copy of the property that was set. *)
Definition sync_property (property : bytes) (meta : NamespaceMeta) (p : NamespaceProperties) : NamespaceProperties :=
  let '(mkProps name worm locked public mode max_size) := p in
  let prop := to_lowercase property in
  if decide (prop = str "worm") then mkProps name (nm_worm meta) locked public mode max_size
  else if decide (prop = str "lock") then mkProps name worm (nm_locked meta) public mode max_size
  else if decide (prop = str "public") then mkProps name worm locked (nm_public meta) mode max_size
  else if decide (prop = str "max_size") then mkProps name worm locked public mode (nm_max_size meta)
  else p.

Definition handle_nsset (namespace property value : bytes) : HM := fun rw =>
  if negb (ch_is_admin self) then (FError "ERR NSSET command requires admin privileges", rw)
  else if eq_ignore_ascii_case property (str "key_mode") then handle_nsset_key_mode namespace value rw
  else
    match get_namespace_meta namespace rw with
    | (Err e, rw1) => (FError ("ERR Namespace not found: " ++ show e), rw1)
    | (Ok meta, rw1) =>
        match set_property property value meta with
        | Err e => (FError e, rw1)
        | Ok meta' =>
            answer (_ ← update_namespace_meta namespace meta';
                    update_all_instances namespace (sync_property property meta'))
              (fun _ => ok_frame) (fun e => FError ("ERR Failed to update namespace metadata: " ++ show e)) rw1
        end
    end.

Definition handle_dbsize : HM := answer (ns_num_keys ns) (fun n => Integer (as_i64 n)) err_frame.

Definition scan_reply (keys : list bytes) : Frame :=
  let next_cursor := if (length keys <? SCAN_PAGE)%nat then str "0"
                     else match last keys with Some k => k | None => [] end in
  Array [BulkString next_cursor; Array (map BulkString keys)].

Definition handle_scan (cursor : option bytes) : HM := answer (ns_scan ns cursor SCAN_PAGE) scan_reply err_frame.
Definition handle_rscan (cursor : option bytes) : HM :=
  answer (ns_scan_backward ns cursor SCAN_PAGE) scan_reply err_frame.

Definition handle_flush : HM := fun rw =>
  let props := cached_props rw in
  if pr_public props then (FError "ERR: FLUSH command is only allowed on private namespaces", rw)
  else
    let '(meta, rw1) := get_namespace_meta (pr_namespace_name props) rw in
    let has_password := match meta with Ok meta => bool_decide (is_Some (nm_password meta)) | Err _ => false end in
    if negb has_password then (FError "ERR: FLUSH command is only allowed on password-protected namespaces", rw1)
    else if negb (ch_namespace_authenticated self)
    then (FError "ERR: Authentication required for FLUSH command", rw1)
    else answer (ns_flush ns) (fun _ => ok_frame) err_frame rw1.

Definition execute (cmd : Command) : HM :=
  match cmd with
  | CmdGet key => handle_get key
  | CmdMGet keys => handle_mget keys
  | CmdSet key value => handle_set key value
  | CmdCSet value => handle_cset value
  | CmdPing message => handle_ping message
  | CmdEcho message => handle_echo message
  | CmdDel keys => handle_del keys
  | CmdExists key => handle_exists key
  | CmdCheck key => handle_check key
  | CmdLength key => handle_length key
  | CmdKeyTime key => handle_keytime key
  | CmdNSNew name => handle_nsnew name
  | CmdNSInfo name => handle_nsinfo name
  | CmdNSList => handle_nslist
  | CmdDBSize => handle_dbsize
  | CmdScan cursor => handle_scan cursor
  | CmdRScan cursor => handle_rscan cursor
  | CmdNSSet namespace property value => handle_nsset namespace property value
  | CmdFlush => handle_flush
  | CmdTime => handle_time
  | CmdSelect _ _ => reply (FError "ERR SELECT should be handled at connection level")
  | CmdAuth _ => reply (FError "ERR AUTH should be handled at connection level")
  end.
End Handler.

(** [CommandHandler::new]: authenticated when the metadata names no password
    or cannot be read. *)
Definition new_handler (ns : bytes) (is_admin : bool) (rw : RW) : CommandHandler * RW :=
  let props := match rw_cache rw !! ns with Some n => ns_props n | None => default_props ns end in
  let '(meta, rw') := get_namespace_meta (pr_namespace_name props) rw in
  (mkHandler ns is_admin (match meta with Ok meta => bool_decide (nm_password meta = None) | Err _ => true end), rw').

(* ------------------------------------------------------------------ *)
(** * Sessions *)

(** [Session], with its [Conn]. *)
Record Session : Type := mkSession {
  ss_conn_namespace : bytes;
  ss_conn_admin : bool;
  ss_handler : CommandHandler;
  ss_admin_password : option bytes
}.

Definition default_namespace : bytes := str "default".

(** [Session::new] *)
Definition new_session (admin_password : option bytes) (rw : RW) : result NsErr Session * RW :=
  let is_admin := bool_decide (admin_password = None) in
  match create_if_not_exists default_namespace rw with
  | (Err e, rw1) => (Err e, rw1)
  | (Ok _, rw1) =>
      let '(handler, rw2) := new_handler default_namespace is_admin rw1 in
      (Ok (mkSession default_namespace is_admin handler admin_password), rw2)
  end.

Definition namespace_password_accepted (namespace : bytes) (provided : option bytes) (rw : RW) : bool * RW :=
  match get_namespace_meta namespace rw with
  | (Ok meta, rw') => (match nm_password meta with
                       | Some ns_password => bool_decide (provided = Some ns_password)
                       | None => true
                       end, rw')
  | (Err _, rw') => (false, rw')
  end.

Definition with_authenticated (b : bool) (h : CommandHandler) : CommandHandler :=
  mkHandler (ch_namespace h) (ch_is_admin h) b.

Definition select_namespace (s : Session) (namespace : bytes) (password : option bytes) (rw : RW) :
    Frame * Session * RW :=
  let s := mkSession namespace (ss_conn_admin s) (ss_handler s) (ss_admin_password s) in
  match get_or_create namespace rw with
  | (Err e, rw1) => (err_frame e, s, rw1)
  | (Ok _, rw1) =>
      let '(is_authenticated, rw2) := namespace_password_accepted namespace password rw1 in
      let is_public := match rw_cache rw2 !! namespace with Some n => pr_public (ns_props n) | None => true end in
      let '(handler, rw3) := new_handler namespace (ss_conn_admin s) rw2 in
      let s := mkSession namespace (ss_conn_admin s) (with_authenticated is_authenticated handler) (ss_admin_password s) in
      (SimpleString (if is_authenticated : bool then str "OK"
                     else if is_public : bool then str "OK (read-only access)"
                     else str "OK (no access without the namespace password)"), s, rw3)
  end.

Definition authenticate (s : Session) (password : bytes) (rw : RW) : Frame * Session * RW :=
  match ss_admin_password s with
  | None => (ok_frame, s, rw)
  | Some admin_password =>
      if negb (bool_decide (password = admin_password)) then (FError "ERR invalid password", s, rw)
      else
        let s := mkSession (ss_conn_namespace s) true (ss_handler s) (ss_admin_password s) in
        match get_or_create (ss_conn_namespace s) rw with
        | (Err e, rw1) => (err_frame e, s, rw1)
        | (Ok _, rw1) =>
            let namespace_authenticated := ch_namespace_authenticated (ss_handler s) in
            let '(handler, rw2) := new_handler (ss_conn_namespace s) (ss_conn_admin s) rw1 in
            (ok_frame, mkSession (ss_conn_namespace s) (ss_conn_admin s)
               (with_authenticated namespace_authenticated handler) (ss_admin_password s), rw2)
        end
  end.

Definition serve_command (s : Session) (cmd : Command) (rw : RW) : Frame * Session * RW :=
  match cmd with
  | CmdSelect namespace password => select_namespace s namespace password rw
  | CmdAuth password => authenticate s password rw
  | cmd => let '(f, rw') := execute (ss_handler s) cmd rw in (f, s, rw')
  end.

Context (show_command_error : CommandError -> string).

Definition dispatch (s : Session) (frame : Frame) (rw : RW) : Frame * Session * RW :=
  match Command_from_frame frame with
  | Ok cmd => serve_command s cmd rw
  | Err e => (FError ("Error: " ++ show_command_error e), s, rw)
  end.

Inductive SessionEnd : Type := WriteFailed | ProtocolError.

Context (decode : bytes -> result string (option (Frame * nat))) (show_resp_error : RespError -> string).

(** [serve_buffered_frames]: the replies written, the session and the world,
    and the bytes consumed or the reason the session ends.  [writes] says
    which writes to the socket fail; each frame uses up a byte. *)
Fixpoint serve_frames (fuel : nat) (s : Session) (buffer : bytes) (pos : nat) (writes : list bool) (rw : RW) :
    list Frame * Session * RW * result SessionEnd nat :=
  match fuel with
  | O => ([], s, rw, Ok pos)
  | Datatypes.S fuel =>
      if (length buffer <=? pos)%nat then ([], s, rw, Ok pos)
      else
        match parse_frame decode (drop pos buffer) with
        | Ok (Some frame, len) =>
            let '(response, s, rw) := dispatch s frame rw in
            match writes with
            | false :: _ => ([], s, rw, Err WriteFailed)
            | _ =>
                let '(rest, s, rw, e) := serve_frames fuel s buffer (pos + len) (tail writes) rw in
                (response :: rest, s, rw, e)
            end
        | Ok (None, skipped) => ([], s, rw, Ok (pos + skipped)%nat)
        | Err e =>
            match writes with
            | false :: _ => ([], s, rw, Err WriteFailed)
            | _ => ([FError ("ERR " ++ show_resp_error e)], s, rw, Err ProtocolError)
            end
        end
  end.

Definition serve_buffered_frames (s : Session) (buffer : bytes) (writes : list bool) (rw : RW) :
    list Frame * Session * RW * result SessionEnd nat :=
  serve_frames (Datatypes.S (length buffer)) s buffer 0 writes rw.
End Handlers.
