(* ===== verification/ObjectSpecs.v ===== *)
(** Guarantees of the operations on whole objects (cas/write_path.rs,
    cas/delete_path.rs, cas/clone_path.rs, cas/fs.rs): overwrite, delete,
    clone by reference and read, against the accounting invariant, and the
    bucket's usage counter. *)

From S2P Require Import Prelude Bytes Externals BlockIds Codec Records StoreHeader MetaStore Disk Placement MetaOps Accounting Engine BatchSpecs WriteSpecs.
From Stdlib Require Import Strings.Byte.
Local Open Scope Z_scope.
#[local] Set Warnings "-clear-no-such-hyp".

(* ------------------------------------------------------------------ *)
(** * The usage counter *)

(** What [add_bucket_usage] reads: an absent counter is zero. *)
Definition usage_read (m : kvmap) (bucket : bytes) : result MetaError Z :=
  match m !! (DEFAULT_USAGE_TREE, bucket) with Some raw => decode_usage raw | None => Ok 0 end.

Definition size_weight (bucket : bytes) (k : tree * bytes) (raw : bytes) : nat :=
  if decide (k.1 = bucket) then
    match Object_try_from raw with Ok o => Z.to_nat (o_size o) | Err _ => 0 end
  else 0.

(** The logical bytes of the objects in a bucket. *)
Definition stored_bytes (m : kvmap) (bucket : bytes) : nat := msum (size_weight bucket) m.

Lemma decode_usage_to_le n : is_u64 n -> decode_usage (u64_to_le n) = Ok n.
Proof.
  intros Hn. unfold decode_usage. rewrite length_u64_to_le. simpl.
  by rewrite u64_le_roundtrip.
Qed.

Lemma decode_usage_range raw n : decode_usage raw = Ok n -> is_u64 n.
Proof.
  unfold decode_usage. destruct (Nat.eqb_spec (length raw) 8) as [E|]; [|done].
  intros [= <-]. by apply u64_from_le_range.
Qed.

(* ------------------------------------------------------------------ *)
(** * The record transactions *)

Section RecordTx.
Context {S T : Type} `{StoreLaws S T}.

(** The record an operation found under a key. *)
Definition found (m : kvmap) (bucket key : bytes) (o : option Object) : Prop :=
  match o with
  | None => m !! (bucket, key) = None
  | Some o => exists raw, m !! (bucket, key) = Some raw /\ Object_try_from raw = Ok o
  end.

Definition old_size (o : option Object) : Z := match o with Some o => o_size o | None => 0 end.
Definition old_blocks (o : option Object) : list BlockId := match o with Some o => o_blocks o | None => [] end.

(** The namespace after an overwrite that displaced [d]. *)
Definition replaced (bucket key raw : bytes) (size : Z) (d : option Object) (m m' : kvmap) : Prop :=
  found m bucket key d /\ exists current, usage_read m bucket = Ok current /\
    m' = <[(DEFAULT_USAGE_TREE, bucket) :=
             u64_to_le (usage_after current (as_i64 (as_i64 size - as_i64 (old_size d))))]>
           (<[(bucket, key) := raw]> m).

(** The namespace after a delete that took [d]. *)
Definition taken (bucket key : bytes) (d : option Object) (m m' : kvmap) : Prop :=
  found m bucket key d /\
  match d with
  | None => m' = m
  | Some o => exists current, usage_read m bucket = Ok current /\
      m' = <[(DEFAULT_USAGE_TREE, bucket) :=
               u64_to_le (usage_after current (as_i64 (- as_i64 (o_size o))))]>
             (delete (bucket, key) m)
  end.

Lemma usage_read_insert_ne m p v bucket :
  p.1 <> DEFAULT_USAGE_TREE -> usage_read (<[p := v]> m) bucket = usage_read m bucket.
Proof. intros Hp. unfold usage_read. rewrite lookup_insert_ne; [done|]. by intros ->. Qed.

Lemma usage_read_delete_ne m p bucket :
  p.1 <> DEFAULT_USAGE_TREE -> usage_read (delete p m) bucket = usage_read m bucket.
Proof. intros Hp. unfold usage_read. rewrite lookup_delete_ne; [done|]. by intros ->. Qed.

Lemma unreserved_usage bucket : reserved bucket = false -> bucket <> DEFAULT_USAGE_TREE.
Proof. by intros Hr ->. Qed.

Lemma add_bucket_usage_spec bucket delta (t : T) :
  wp (add_bucket_usage bucket delta) t (fun r t' =>
    txbase t' = txbase t /\
    match r with
    | Ok _ => exists current, usage_read (txkv t) bucket = Ok current /\
        txkv t' = <[(DEFAULT_USAGE_TREE, bucket) := u64_to_le (usage_after current delta)]> (txkv t)
    | Err _ => True
    end).
Proof.
  unfold add_bucket_usage. wp_call tx_get_spec; intros (Hk & Hb & Hr); [|done].
  assert (forall current (t0 : T), txbase t0 = txbase t -> txkv t0 = txkv t ->
    usage_read (txkv t) bucket = Ok current ->
    wp (_ ← tx_insert DEFAULT_USAGE_TREE bucket (u64_to_le (usage_after current delta));
        mret (usage_after current delta)) t0 (fun r t' =>
      txbase t' = txbase t /\
      match r with
      | Ok _ => exists current, usage_read (txkv t) bucket = Ok current /\
          txkv t' = <[(DEFAULT_USAGE_TREE, bucket) := u64_to_le (usage_after current delta)]> (txkv t)
      | Err _ => True
      end)) as Hrest.
  { intros current t0 Hb0 Hk0 Hu. wp_call tx_insert_spec; intros (Hb1 & Hk1); [|by rewrite Hb1].
    apply wp_ret. rewrite Hb1, Hk1, Hk0. eauto. }
  destruct a as [raw|].
  - apply wp_bind, wp_lift. destruct (decode_usage raw) as [current|e] eqn:Ed; [|done].
    apply Hrest; [done|done|]. unfold usage_read. by rewrite <- Hr, Ed.
  - apply wp_bind, wp_ret. apply Hrest; [done|done|]. unfold usage_read. by rewrite <- Hr.
Qed.

Lemma replace_object_spec bucket key raw (t : T) :
  wp (replace_object bucket key raw) t (fun r t' =>
    txbase t' = txbase t /\
    match r with
    | Ok d => found (txkv t) bucket key d /\ txkv t' = <[(bucket, key) := raw]> (txkv t)
    | Err _ => True
    end).
Proof.
  unfold replace_object. wp_call tx_get_spec; intros (Hk & Hb & Hr); [|done].
  apply wp_bind. destruct a as [old|].
  - apply wp_bind, wp_decoded; [|done]. intros o Ho. cbn beta iota. apply wp_ret.
    wp_call tx_insert_spec; intros (Hbi & Hki); [|by rewrite Hbi]. apply wp_ret.
    rewrite Hbi, Hki, Hk. split_and!; [done| |done]. by exists old.
  - apply wp_ret. wp_call tx_insert_spec; intros (Hbi & Hki); [|by rewrite Hbi]. apply wp_ret.
    by rewrite Hbi, Hki, Hk.
Qed.

Lemma take_object_spec bucket key (t : T) :
  wp (take_object bucket key) t (fun r t' =>
    txbase t' = txbase t /\
    match r with
    | Ok d => found (txkv t) bucket key d /\
        txkv t' = match d with Some _ => delete (bucket, key) (txkv t) | None => txkv t end
    | Err _ => True
    end).
Proof.
  unfold take_object. wp_call tx_get_spec; intros (Hk & Hb & Hr); [|done].
  destruct a as [old|]; [|apply wp_ret; by rewrite Hb, Hk].
  apply wp_bind, wp_decoded; [|done]. intros o Ho. cbn beta iota.
  wp_call tx_remove_spec; intros (Hbr & Hkr); [|by rewrite Hbr]. apply wp_ret.
  rewrite Hbr, Hkr, Hk. split_and!; [done| |done]. by exists old.
Qed.

Lemma replace_object_record_spec bucket key raw size (s : S) :
  reserved bucket = false ->
  wp (replace_object_record bucket key raw size) s (fun r s' =>
    match r with
    | Ok d => replaced bucket key raw size d (kv s) (kv s')
    | Err _ => kv s' = kv s \/ exists d, replaced bucket key raw size d (kv s) (kv s')
    end).
Proof.
  intros Hres. pose proof (unreserved_usage _ Hres) as Hne. destruct (begin_spec s) as [Hb1 Hb2].
  apply wp_transact with (P := fun d m => replaced bucket key raw size d (kv s) m);
    [|done|done|eauto|auto].
  wp_call replace_object_spec; intros [Hb Hr]; rewrite Hb2 in Hb; rewrite ?Hb1 in Hr; [|auto].
  destruct Hr as [Hd Hk]. cbn zeta.
  wp_call add_bucket_usage_spec; intros (Hbu & Hku); [|rewrite Hbu, Hb; auto].
  apply wp_ret. rewrite Hbu, Hb. split; [done|]. split; [done|].
  destruct Hku as (current & Hu & ->). rewrite Hk in *.
  rewrite usage_read_insert_ne in Hu by done. by exists current.
Qed.

Lemma take_object_record_spec bucket key (s : S) :
  reserved bucket = false ->
  wp (take_object_record bucket key) s (fun r s' =>
    match r with
    | Ok d => taken bucket key d (kv s) (kv s')
    | Err _ => kv s' = kv s \/ exists d, taken bucket key d (kv s) (kv s')
    end).
Proof.
  intros Hres. pose proof (unreserved_usage _ Hres) as Hne. destruct (begin_spec s) as [Hb1 Hb2].
  apply wp_transact with (P := fun d m => taken bucket key d (kv s) m); [|done|done|eauto|auto].
  wp_call take_object_spec; intros [Hb Hr]; rewrite Hb2 in Hb; rewrite ?Hb1 in Hr; [|auto].
  destruct Hr as [Hd Hk]. apply wp_bind. destruct a as [o|].
  - wp_call add_bucket_usage_spec; intros (Hbu & Hku); [|rewrite Hbu, Hb; auto].
    do 2 apply wp_ret. rewrite Hbu, Hb. split; [done|]. split; [done|].
    destruct Hku as (current & Hu & ->). rewrite Hk in *.
    rewrite usage_read_delete_ne in Hu by done. by exists current.
  - do 2 apply wp_ret. rewrite Hb. split; [done|]. split; [done|]. by rewrite Hk.
Qed.
End RecordTx.

(* ------------------------------------------------------------------ *)
(** * The ledger *)

Definition usage_exact (m : kvmap) (bucket : bytes) : Prop :=
  usage_read m bucket = Ok (Z.of_nat (stored_bytes m bucket)).

Lemma as_i64_small z : 0 <= z <= i64_max -> as_i64 z = z.
Proof.
  unfold as_i64, i64_max. intros Hz. rewrite Z.mod_small by lia.
  destruct (Z.ltb_spec z (2 ^ 63)); lia.
Qed.

Lemma as_i64_id z : is_i64 z -> as_i64 z = z.
Proof.
  intros Hz. unfold as_i64. int_bounds. destruct (decide (0 <= z)).
  - rewrite Z.mod_small by lia. destruct (Z.ltb_spec z (2 ^ 63)); lia.
  - replace (z mod 2 ^ 64) with (z + 2 ^ 64) by (apply (Zmod_unique _ _ (-1)); lia).
    destruct (Z.ltb_spec (z + 2 ^ 64) (2 ^ 63)); lia.
Qed.

(** Within range the counter moves by exactly the difference. *)
Lemma usage_after_exact current delta :
  0 <= current -> 0 <= current + delta <= u64_max -> usage_after current delta = current + delta.
Proof.
  intros Hc Hr. unfold usage_after, saturating_add_u64. destruct (Z.leb_spec 0 delta); [lia|].
  destruct (Z.ltb_spec current (Z.abs delta)); lia.
Qed.

Lemma stored_found m bucket key d :
  found m bucket key d -> Z.of_nat (at_key (size_weight bucket) (bucket, key) m) = old_size d.
Proof.
  unfold at_key, size_weight. destruct d as [o|]; simpl.
  - intros (raw & -> & Ho). simpl. rewrite decide_True, Ho by done.
    apply Object_decode_size in Ho. int_bounds. lia.
  - by intros ->.
Qed.

Lemma stored_usage_insert m bucket b v :
  bucket <> DEFAULT_USAGE_TREE ->
  stored_bytes (<[(DEFAULT_USAGE_TREE, b) := v]> m) bucket = stored_bytes m bucket.
Proof.
  intros Hne. unfold stored_bytes. apply msum_insert_0; unfold at_key, size_weight; simpl.
  - by rewrite decide_False.
  - destruct (m !! _); [|done]. by rewrite decide_False.
Qed.

Lemma stored_other_insert m bucket b key v :
  b <> bucket -> stored_bytes (<[(b, key) := v]> m) bucket = stored_bytes m bucket.
Proof.
  intros Hne. unfold stored_bytes. apply msum_insert_0; unfold at_key, size_weight; simpl.
  - by rewrite decide_False.
  - destruct (m !! _); [|done]. by rewrite decide_False.
Qed.

Lemma usage_exact_write m bucket n :
  bucket <> DEFAULT_USAGE_TREE -> is_u64 n -> Z.of_nat (stored_bytes m bucket) = n ->
  usage_exact (<[(DEFAULT_USAGE_TREE, bucket) := u64_to_le n]> m) bucket.
Proof.
  intros Hne Hn Hs. unfold usage_exact. rewrite stored_usage_insert by done.
  unfold usage_read. rewrite lookup_insert_eq, decode_usage_to_le by done. by rewrite Hs.
Qed.

Lemma replaced_ledger bucket key raw o d m m' :
  reserved bucket = false -> Object_try_from raw = Ok o ->
  Z.of_nat (stored_bytes m bucket) + o_size o <= i64_max -> usage_exact m bucket ->
  replaced bucket key raw (o_size o) d m m' ->
  usage_exact m' bucket /\
  Z.of_nat (stored_bytes m' bucket) = Z.of_nat (stored_bytes m bucket) + o_size o - old_size d.
Proof.
  intros Hres Ho Hmax Hex (Hd & current & Hu & ->). pose proof (unreserved_usage _ Hres) as Hne.
  unfold usage_exact in Hex. rewrite Hex in Hu. injection Hu as <-.
  pose proof (stored_found _ _ _ _ Hd) as Hold.
  pose proof (msum_insert (size_weight bucket) (bucket, key) raw m) as Hsum.
  pose proof (msum_delete (size_weight bucket) (bucket, key) m) as Hdel.
  pose proof (Object_decode_size _ _ Ho) as Hsz.
  assert (Z.of_nat (size_weight bucket (bucket, key) raw) = o_size o) as Hnew.
  { unfold size_weight. simpl. rewrite decide_True, Ho by done. int_bounds. lia. }
  fold (stored_bytes m bucket) in Hsum, Hdel.
  assert (0 <= old_size d <= Z.of_nat (stored_bytes m bucket)) as Hdr by lia.
  assert (as_i64 (as_i64 (o_size o) - as_i64 (old_size d)) = o_size o - old_size d) as ->.
  { rewrite (as_i64_small (o_size o)), (as_i64_small (old_size d)) by (int_bounds; lia). apply as_i64_id. int_bounds. lia. }
  rewrite usage_after_exact by (int_bounds; lia).
  assert (Z.of_nat (stored_bytes (<[(bucket, key) := raw]> m) bucket)
          = Z.of_nat (stored_bytes m bucket) + o_size o - old_size d) as Hs.
  { unfold stored_bytes in *. lia. }
  split; [|rewrite stored_usage_insert by done; exact Hs].
  apply usage_exact_write; [done|int_bounds; lia|]. lia.
Qed.

Lemma taken_ledger bucket key d m m' :
  reserved bucket = false ->
  Z.of_nat (stored_bytes m bucket) <= i64_max -> usage_exact m bucket ->
  taken bucket key d m m' ->
  usage_exact m' bucket /\
  Z.of_nat (stored_bytes m' bucket) = Z.of_nat (stored_bytes m bucket) - old_size d.
Proof.
  intros Hres Hmax Hex (Hd & Hm). pose proof (unreserved_usage _ Hres) as Hne.
  destruct d as [o|]; [|subst m'; simpl; split; [done|lia]].
  destruct Hm as (current & Hu & ->). unfold usage_exact in Hex. rewrite Hex in Hu. injection Hu as <-.
  pose proof (stored_found _ _ _ _ Hd) as Hold. simpl in Hold |- *.
  pose proof (msum_delete (size_weight bucket) (bucket, key) m) as Hdel.
  fold (stored_bytes m bucket) (stored_bytes (delete (bucket, key) m) bucket) in Hdel.
  assert (as_i64 (- as_i64 (o_size o)) = - o_size o) as ->.
  { rewrite (as_i64_small (o_size o)) by (int_bounds; lia). apply as_i64_id. int_bounds. lia. }
  rewrite usage_after_exact by (int_bounds; lia).
  rewrite stored_usage_insert by done. split; [|lia].
  apply usage_exact_write; [done|int_bounds; lia|]. lia.
Qed.

(* ------------------------------------------------------------------ *)
(** * Releasing references *)

Section ObjectOps.
Context {S T D : Type} `{StoreLaws S T, DiskLaws D, Blake3Laws, Md5, FasterHexLaws}.
Context (cfg : StoreCfg).
Abbreviation root := (blocks_root cfg).
Implicit Types w : World S D.

(** At most one reference per entry of [l] has gone, no block has become
    degraded, and only those blocks' records were touched. *)
Definition released (l : list BlockId) (m m' : kvmap) : Prop :=
  (forall i, BlockId_wf i -> rc_of m i - Z.of_nat (occ i l) <= rc_of m' i <= rc_of m i) /\
  (forall i b', BlockId_wf i -> block_at m' i = Some b' ->
     exists b, block_at m i = Some b /\ is_degraded b' = is_degraded b) /\
  (forall p, (forall i, i ∈ l -> p <> block_key i) -> m' !! p = m !! p).

Lemma released_refl l m : released l m m.
Proof. split_and!; [|by eauto|done]. intros i Hi. lia. Qed.

Lemma released_app l k m1 m2 m3 : released l m1 m2 -> released k m2 m3 -> released (l ++ k) m1 m3.
Proof.
  intros (Hr1 & Hl1 & Hf1) (Hr2 & Hl2 & Hf2). split_and!.
  - intros i Hi. specialize (Hr1 i Hi). specialize (Hr2 i Hi). rewrite occ_app. lia.
  - intros i b3 Hi Hb3. destruct (Hl2 i b3 Hi Hb3) as (b2 & Hb2 & ->). by apply Hl1.
  - intros p Hp. rewrite Hf2, Hf1; [done|..]; intros i Hi; apply Hp, elem_of_app; auto.
Qed.

(** What a release leaves alone. *)
Definition release_frame (l : list BlockId) w w' : Prop :=
  kv (w_ns w') = kv (w_ns w) /\ wnonce w' = wnonce w /\
  released l (kv (w_shared w)) (kv (w_shared w')) /\
  agree_off (fun p => exists i d, i ∈ l /\ p = block_disk_path i d root) (wfiles w) (wfiles w').

Lemma release_frame_refl l w : release_frame l w w.
Proof. split_and!; [done|done|apply released_refl|done]. Qed.

Lemma put_released m i b b0 :
  BlockId_wf i -> Block_wf b -> block_at m i = Some b0 -> b_rc b0 - 1 = b_rc b ->
  is_degraded b = is_degraded b0 -> released [i] m (put_block m i b).
Proof.
  intros Hi Hb Hat0 Hrc Hdeg. split_and!.
  - intros j Hj. unfold rc_of. destruct (decide (j = i)) as [->|Hne].
    + rewrite block_at_put, Hat0 by done. rewrite occ_cons_eq. simpl. lia.
    + rewrite block_at_put_ne by done. rewrite occ_cons_ne by done. simpl. lia.
  - intros j b' Hj. destruct (decide (j = i)) as [->|Hne].
    + rewrite block_at_put by done. intros [= <-]. eauto.
    + rewrite block_at_put_ne by done. eauto.
  - intros p Hp. unfold put_block. rewrite lookup_insert_ne; [done|].
    intros E. apply (Hp i); [set_solver|done].
Qed.

Lemma delete_released m i b0 :
  BlockId_wf i -> block_at m i = Some b0 -> b_rc b0 = 1 -> released [i] m (delete (block_key i) m).
Proof.
  intros Hi Hat0 Hrc.
  assert (forall j, BlockId_wf j -> j <> i -> block_key i <> block_key j) as Hk.
  { intros j Hj Hne E. apply Hne. symmetry. by apply block_key_inj. }
  split_and!.
  - intros j Hj. unfold rc_of. destruct (decide (j = i)) as [->|Hne].
    + rewrite block_at_delete_eq, Hat0, occ_cons_eq. simpl. lia.
    + rewrite block_at_delete_ne by auto. rewrite occ_cons_ne by done. simpl. lia.
  - intros j b' Hj. destruct (decide (j = i)) as [->|Hne]; [by rewrite block_at_delete_eq|].
    rewrite block_at_delete_ne by auto. eauto.
  - intros p Hp. rewrite lookup_delete_ne; [done|]. intros E. apply (Hp i); [set_solver|done].
Qed.

(** The decrement transaction on the shared database. *)
Lemma decrement_tx_spec i (s : S) ns fl F :
  BlockId_wf i -> Inv (cfg_hasher cfg) root ns (kv s) fl (add_refs F [i]) ->
  wp (transact_when id keeps_decrement (decrement_block_rc i)) s (fun r s' =>
    released [i] (kv s) (kv s') /\
    match r with
    | Ok (Removed b) => forall fl' d,
        agree_off (fun p => p = block_disk_path i d root) fl fl' ->
        Inv (cfg_hasher cfg) root ns (kv s') fl' F
    | _ => Inv (cfg_hasher cfg) root ns (kv s') fl F
    end).
Proof.
  intros Hi Hinv. destruct (begin_spec s) as [Hb1 Hb2].
  pose proof (inv_drop _ _ _ _ _ _ _ Hinv) as HinvF.
  set (P := fun (d : BlockDecrement) (m : kvmap) => released [i] (kv s) m /\
    match d with
    | Removed b => forall fl' d, agree_off (fun p => p = block_disk_path i d root) fl fl' ->
                     Inv (cfg_hasher cfg) root ns m fl' F
    | _ => Inv (cfg_hasher cfg) root ns m fl F
    end).
  apply wp_transact with (P := P).
  - eapply wp_mono; [apply decrement_spec|]. rewrite Hb1, Hb2.
    intros [[|b'|b]|e] t' [Hb Hr]; (split; [done|]).
    + destruct Hr as [-> _]. split; [apply released_refl|done].
    + destruct Hr as (b & Hat & Hne1 & -> & ->).
      destruct (inv_held _ _ _ _ _ _ i Hinv Hi) as (b2 & Hat2 & Hpos).
      { unfold add_refs. rewrite occ_cons_eq. simpl. lia. }
      rewrite Hat in Hat2. injection Hat2 as <-. pose proof (block_at_wf _ _ _ Hat) as Hwf.
      split; [|by apply inv_decrement].
      apply (put_released _ _ _ b); [done|by apply decrement_wf|done| |done]. simpl. rewrite wrap_u64_small; [done|]. destruct Hwf as (_ & _ & ? & _). int_bounds. lia.
    + destruct Hr as (Hat & Hrc & ->). split; [by eapply delete_released|].
      intros fl' d Ha. by eapply inv_remove.
    + intros s' Hs. rewrite Hs. split; [apply released_refl|done].
  - intros d s' _ HP. exact HP.
  - intros [| |] m s' Hk HP Hs; try done. rewrite Hs. split; [apply released_refl|done].
  - intros d e s' _ [Hrel HP]. split; [done|]. destruct d; [done|done|].
    by apply (HP fl 0).
  - intros e s' Hs. rewrite Hs. split; [apply released_refl|done].
Qed.

Lemma decrement_one_block_spec i w F :
  BlockId_wf i -> winv cfg w (add_refs F [i]) ->
  wp (decrement_one_block cfg i) w (fun r w' => release_frame [i] w w' /\ winv cfg w' F).
Proof.
  intros Hi Hinv. unfold decrement_one_block. apply wp_bind, wp_on_shared.
  eapply wp_mono; [by apply (decrement_tx_spec i (w_shared w) (kv (w_ns w)) (wfiles w) F)|].
  intros [[|b'|b]|e] s' [Hrel Hr]; cbn beta iota; [by apply wp_ret|by apply wp_ret| |done].
  unfold wp, M_run, on_files. simpl.
  pose proof (unlink_block_spec (cfg_writer cfg) i (b_depth b) (w_disk w)) as Hu. unfold wp in Hu.
  destruct (unlink_block _ _ _ (w_disk w)) as [[u|e] ds']; simpl in *; destruct Hu as [Hn Ha];
    (split; [|by apply (Hr _ (b_depth b))]); (split_and!; [done|done|done|]);
    (eapply agree_off_mono; [exact Ha|]; intros p ->; exists i, (b_depth b); set_solver).
Qed.

Lemma release_blocks_spec blocks w F :
  Forall BlockId_wf blocks -> winv cfg w (add_refs F blocks) ->
  wp (release_blocks cfg blocks) w (fun r w' => r = Ok tt /\ release_frame blocks w w' /\ winv cfg w' F).
Proof.
  revert w. induction blocks as [|i blocks IH]; intros w Hwf Hinv.
  { apply wp_ret. split_and!; [done|apply release_frame_refl|]. by eapply inv_drop. }
  apply Forall_cons in Hwf as [Hi Hwf].
  pose proof (decrement_one_block_spec i w (add_refs F blocks) Hi) as Hd.
  assert (winv cfg w (add_refs (add_refs F blocks) [i])) as Hinv'.
  { eapply inv_mono; [|exact Hinv]. intros j. unfold add_refs. simpl. lia. }
  specialize (Hd Hinv'). unfold wp in Hd. destruct Hd as [Hfr1 Hinv1].
  unfold wp. cbn [release_blocks]. set (w1 := (decrement_one_block cfg i w).2) in *.
  destruct (IH w1 Hwf Hinv1) as (Hr & Hfr2 & Hinv2). split_and!; [done| |done].
  destruct Hfr1 as (Hns1 & Hn1 & Hrel1 & Ha1), Hfr2 as (Hns2 & Hn2 & Hrel2 & Ha2).
  split_and!; [congruence|congruence|by apply (released_app [i] blocks _ (kv (w_shared w1)))|].
  eapply agree_off_trans; (eapply agree_off_mono; [eassumption|]); intros p (j & d & Hj & ->);
    exists j, d; set_solver.
Qed.

(* ------------------------------------------------------------------ *)
(** * Object records *)

Lemma found_blocks m bucket key d : found m bucket key d -> Forall BlockId_wf (old_blocks d).
Proof. destruct d as [o|]; [|constructor]. intros (raw & _ & Ho). by eapply Object_decode_blocks. Qed.

Lemma found_raw m bucket key d :
  found m bucket key d ->
  match m !! (bucket, key) with Some old => blocks_of_object_raw old | None => [] end = old_blocks d.
Proof.
  destruct d as [o|]; simpl; [|by intros ->]. intros (raw & -> & Ho).
  unfold blocks_of_object_raw. by rewrite Ho.
Qed.

Lemma usage_tree_reserved : reserved DEFAULT_USAGE_TREE = true.
Proof. done. Qed.

Lemma inv_replaced bucket key raw size d ns ns' sh fl F :
  reserved bucket = false -> replaced bucket key raw size d ns ns' ->
  Inv (cfg_hasher cfg) root ns sh fl (add_refs F (blocks_of_object_raw raw)) ->
  Inv (cfg_hasher cfg) root ns' sh fl (add_refs F (old_blocks d)).
Proof.
  intros Hres (Hd & current & _ & ->) Hinv. apply inv_ns_reserved; [done|].
  rewrite <- (found_raw _ _ _ _ Hd). by apply inv_object.
Qed.

Lemma inv_taken bucket key d ns ns' sh fl F :
  reserved bucket = false -> taken bucket key d ns ns' ->
  Inv (cfg_hasher cfg) root ns sh fl F ->
  Inv (cfg_hasher cfg) root ns' sh fl (add_refs F (old_blocks d)).
Proof.
  intros Hres (Hd & Hm) Hinv. destruct d as [o|].
  - destruct Hm as (current & _ & ->). apply inv_ns_reserved; [done|].
    destruct Hd as (raw & Hraw & Ho). simpl.
    replace (o_blocks o) with (blocks_of_object_raw raw) by (unfold blocks_of_object_raw; by rewrite Ho).
    by apply inv_object_delete.
  - subst ns'. eapply inv_mono; [|exact Hinv]. intros i. unfold add_refs. simpl. lia.
Qed.

(** The outcome of an operation that moves one object record: a release of
    what the record held follows the commit. *)
Definition record_moved (moved : option Object -> kvmap -> kvmap -> Prop) (d : option Object) w w' : Prop :=
  moved d (kv (w_ns w)) (kv (w_ns w')) /\ wnonce w' = wnonce w /\
  released (old_blocks d) (kv (w_shared w)) (kv (w_shared w')) /\
  agree_off (fun p => exists i n, i ∈ old_blocks d /\ p = block_disk_path i n root) (wfiles w) (wfiles w').

(** A failed one: the commit has happened or not, and nothing was released. *)
Definition record_failed (moved : option Object -> kvmap -> kvmap -> Prop) w w' : Prop :=
  kv (w_shared w') = kv (w_shared w) /\ w_disk w' = w_disk w /\
  (kv (w_ns w') = kv (w_ns w) \/ exists d, moved d (kv (w_ns w)) (kv (w_ns w'))).

Lemma release_moved moved d w w1 w2 F :
  moved d (kv (w_ns w)) (kv (w_ns w1)) -> w_shared w1 = w_shared w -> w_disk w1 = w_disk w ->
  release_frame (old_blocks d) w1 w2 -> winv cfg w2 F -> record_moved moved d w w2 /\ winv cfg w2 F.
Proof.
  intros Hm Hsh Hdk (Hns & Hn & Hrel & Ha) Hinv. split; [|done].
  unfold record_moved, wnonce, wfiles in *. rewrite Hns. rewrite Hsh in Hrel. rewrite Hdk in *. done.
Qed.

Lemma create_object_meta_spec now bucket key size hash data w F :
  let obj := Object_new now size hash data in
  reserved bucket = false -> Object_wf obj -> winv cfg w (add_refs F (o_blocks obj)) ->
  let moved := replaced bucket key (Object_to_vec obj) size in
  wp (create_object_meta cfg now bucket key size hash data) w (fun r w' =>
    winv cfg w' F /\ match r with
    | Ok o => o = obj /\ exists d, record_moved moved d w w'
    | Err e => no_panic e /\ record_failed moved w w'
    end).
Proof.
  intros obj Hres Hwf Hinv moved.
  assert (blocks_of_object_raw (Object_to_vec obj) = o_blocks obj) as Hraw.
  { unfold blocks_of_object_raw. by rewrite Object_roundtrip. }
  rewrite <- Hraw in Hinv. unfold create_object_meta. apply wp_bind, wp_on_ns.
  eapply wp_mono; [by apply replace_object_record_spec|]. intros [d|e] s' Hr; cbn beta iota.
  - set (w1 := mkWorld s' (w_shared w) (w_disk w) (w_counters w)).
    assert (winv cfg w1 (add_refs F (old_blocks d))) as Hinv1.
    { by eapply inv_replaced; [..|exact Hinv]. }
    assert (Forall BlockId_wf (old_blocks d)) as Hbw by (eapply found_blocks; apply Hr).
    apply wp_bind.
    assert (wp (match d with
                | Some old => if decide (o_blocks old = []) then mret tt else release_blocks cfg (o_blocks old)
                | None => mret tt
                end : M (World S D) EngErr unit) w1
             (fun r w' => r = Ok tt /\ release_frame (old_blocks d) w1 w' /\ winv cfg w' F)) as Hrel.
    { destruct d as [o|]; simpl in *;
        [|apply wp_ret; split_and!; [done|apply release_frame_refl|by eapply inv_drop]].
      destruct (decide (o_blocks o = [])) as [E|]; [|by apply release_blocks_spec].
      apply wp_ret. split_and!; [done|apply release_frame_refl|by eapply inv_drop]. }
    eapply wp_mono; [exact Hrel|]. intros r w2 (-> & Hfr & Hinv2). cbn beta iota. apply wp_ret.
    split; [done|]. split; [done|]. exists d.
    by eapply (release_moved moved d w w1 w2).
  - simpl. split; [|split; [done|]].
    + unfold winv. simpl. destruct Hr as [Hr|[d Hr]].
      * rewrite Hr. by eapply inv_drop.
      * eapply inv_drop. by eapply inv_replaced; [..|exact Hinv].
    + split_and!; [done|done|exact Hr].
Qed.

Lemma delete_object_spec bucket key w F :
  reserved bucket = false -> winv cfg w F ->
  let moved := taken bucket key in
  wp (delete_object cfg bucket key) w (fun r w' =>
    winv cfg w' F /\ match r with
    | Ok b => exists d, record_moved moved d w w' /\ b = bool_decide (is_Some d)
    | Err e => no_panic e /\ record_failed moved w w'
    end).
Proof.
  intros Hres Hinv moved. unfold delete_object. apply wp_bind, wp_on_ns.
  eapply wp_mono; [by apply take_object_record_spec|]. intros [d|e] s' Hr; cbn beta iota.
  - set (w1 := mkWorld s' (w_shared w) (w_disk w) (w_counters w)).
    assert (winv cfg w1 (add_refs F (old_blocks d))) as Hinv1 by (by eapply inv_taken).
    assert (Forall BlockId_wf (old_blocks d)) as Hbw by (eapply found_blocks; apply Hr).
    destruct d as [o|].
    + apply wp_bind. eapply wp_mono; [by apply release_blocks_spec|].
      intros r w2 (-> & Hfr & Hinv2). cbn beta iota. apply wp_ret. split; [done|].
      exists (Some o). split; [|done]. by eapply (release_moved moved (Some o) w w1 w2).
    + apply wp_ret. split; [by eapply inv_drop|]. exists None. split; [|done].
      eapply (release_moved moved None w w1 w1 F); [exact Hr|done|done|apply release_frame_refl|by eapply inv_drop].
  - simpl. split; [|split; [done|]].
    + unfold winv. simpl. destruct Hr as [Hr|[d Hr]]; [by rewrite Hr|].
      eapply inv_drop. by eapply inv_taken.
    + split_and!; [done|done|exact Hr].
Qed.

(* ------------------------------------------------------------------ *)
(** * Clones *)

Abbreviation room := (fun w (l : list BlockId) => forall i, BlockId_wf i ->
  rc_of (kv (w_shared w)) i + Z.of_nat (occ i l) <= usize_max).

Lemma acquire_one_spec i w F :
  BlockId_wf i -> rc_of (kv (w_shared w)) i < usize_max -> winv cfg w F ->
  wp (acquire_one i) w (fun r w' =>
    kv (w_ns w') = kv (w_ns w) /\ w_disk w' = w_disk w /\
    match r with
    | Ok true => counted [i] (kv (w_shared w)) (kv (w_shared w')) /\ winv cfg w' (add_refs F [i])
    | Ok false => live_at (kv (w_shared w)) i = false /\ kv (w_shared w') = kv (w_shared w)
    | Err e => no_panic e /\ winv cfg w' F
    end).
Proof.
  intros Hi Hroom Hinv. unfold acquire_one. apply wp_bind, wp_on_shared.
  destruct (begin_spec (w_shared w)) as [Hb1 Hb2]. unfold winv in Hinv. rewrite <- Hb1 in Hroom, Hinv.
  apply wp_transact with (P := fun b m =>
    match b with
    | Some _ => counted [i] (kv (w_shared w)) m /\
        Inv (cfg_hasher cfg) root (kv (w_ns w)) m (wfiles w) (add_refs F [i])
    | None => live_at (kv (w_shared w)) i = false /\ m = kv (w_shared w)
    end).
  - eapply wp_mono; [by apply (bump_counts (cfg_hasher cfg) root (kv (w_ns w)) (wfiles w) i _ F)|].
    rewrite Hb1, Hb2 in *. intros [[b|]|e] t' [Hb Hr]; (split; [done|]).
    + by destruct Hr as (_ & ? & ?).
    + by destruct Hr.
    + intros s' Hs. simpl. split_and!; [done|done|done|]. unfold winv. simpl. by rewrite Hs.
  - intros [b|] s' Hk HP; [|done]. apply wp_ret. split_and!; [done|done|]. exact HP.
  - intros [b|] m s' Hk HP Hs; [done|]. cbn. apply wp_ret. simpl. destruct HP as [HP _]. by split_and!.
  - intros [b|] e s' Hk HP; [|done]. simpl. split_and!; [done|done|done|].
    destruct HP as [_ HP]. unfold winv. simpl. by eapply inv_drop.
  - intros e s' Hs. simpl. split_and!; [done|done|done|]. unfold winv. simpl. rewrite Hs, <- Hb1. exact Hinv.
Qed.

Lemma acquire_from_spec blocks : forall held w F,
  Forall BlockId_wf held -> Forall BlockId_wf blocks -> room w blocks -> winv cfg w (add_refs F held) ->
  wp (acquire_from cfg held blocks) w (fun r w' =>
    kv (w_ns w') = kv (w_ns w) /\ wnonce w' = wnonce w /\
    match r with
    | Ok true => w_disk w' = w_disk w /\ counted blocks (kv (w_shared w)) (kv (w_shared w')) /\
                 winv cfg w' (add_refs F (held ++ blocks))
    | Ok false => winv cfg w' F /\
                  forall i, BlockId_wf i -> rc_of (kv (w_shared w')) i <= rc_of (kv (w_shared w)) i + Z.of_nat (occ i blocks)
    | Err e => no_panic e /\ winv cfg w' F
    end).
Proof.
  induction blocks as [|i blocks IH]; intros held w F Hheld Hwf Hroom Hinv.
  { apply wp_ret. rewrite app_nil_r. split_and!; [done|done|done|apply counted_nil|done]. }
  apply Forall_cons in Hwf as [Hi Hwf]. cbn [acquire_from]. apply wp_bind.
  eapply wp_mono; [apply (acquire_one_spec i w (add_refs F held)); [done| |done]|].
  { specialize (Hroom i Hi). rewrite occ_cons_eq in Hroom. lia. }
  intros [[|]|e] w1 (Hns & Hd & Hr); cbn beta iota.
  - destruct Hr as [Hc Hinv1]. eapply wp_mono; [apply (IH (held ++ [i]) w1 F)|].
    + apply Forall_app. split; [done|by constructor].
    + done.
    + intros j Hj. destruct Hc as (Hrc & _). rewrite Hrc by done. specialize (Hroom j Hj). simpl in Hroom |- *. lia.
    + eapply inv_mono; [|exact Hinv1]. intros j. by rewrite add_refs_app.
    + intros r w2 (Hns2 & Hn2 & Hr2). unfold wnonce in *. rewrite Hns2, Hns, Hn2, Hd. split_and!; [done|done|].
      destruct r as [[|]|e]; [| |done].
      2: { destruct Hr2 as [Hinv2 Hle]. split; [done|]. intros j Hj. specialize (Hle j Hj). destruct Hc as (Hrc & _).
           rewrite Hrc in Hle by done. simpl in *. lia. }
      destruct Hr2 as (Hd2 & Hc2 & Hinv2).
      rewrite <- app_assoc in Hinv2. split_and!; [congruence| |done].
      by apply (counted_app [i] blocks _ (kv (w_shared w1))).
  - destruct Hr as [_ Hsh]. apply wp_bind.
    eapply wp_mono; [apply (release_blocks_spec held w1 F); [done|]|].
    { unfold winv, wfiles in *. by rewrite Hns, Hsh, Hd. }
    intros r w2 (-> & (Hns2 & Hn2 & (Hrel & _) & _) & Hinv2). cbn beta iota. apply wp_ret.
    unfold wnonce in *. split_and!; [congruence|congruence|done|].
    intros j Hj. specialize (Hrel j Hj). rewrite Hsh in Hrel. lia.
  - destruct Hr as [Hnp Hinv1].
    split_and!; [done|unfold wnonce; by rewrite Hd|done|by eapply inv_drop].
Qed.

(** A clone leaves nothing behind when it declines, and the copy's record when
    it succeeds. *)
Definition clone_post now sb sk db dk F w (r : result EngErr (option Object)) w' : Prop :=
  winv cfg w' F /\ wnonce w' = wnonce w /\ match r with
  | Ok None => kv (w_ns w') = kv (w_ns w) /\
      exists source, found (kv (w_ns w)) sb sk source /\
        forall i, BlockId_wf i -> rc_of (kv (w_shared w')) i <= rc_of (kv (w_shared w)) i + Z.of_nat (occ i (old_blocks source))
  | Ok (Some o) => exists source d,
      found (kv (w_ns w)) sb sk (Some source) /\
      o = Object_new now (o_size source) (o_hash source) (o_data source) /\
      replaced db dk (Object_to_vec o) (o_size source) d (kv (w_ns w)) (kv (w_ns w'))
  | Err e => no_panic e /\
      (kv (w_ns w') = kv (w_ns w) \/ exists source d, found (kv (w_ns w)) sb sk (Some source) /\
        replaced db dk (Object_to_vec (Object_new now (o_size source) (o_hash source) (o_data source)))
          (o_size source) d (kv (w_ns w)) (kv (w_ns w')))
  end.

(** The write of a copy whose references have been taken. *)
Lemma clone_write now sb sk db dk F w w2 o :
  reserved db = false -> found (kv (w_ns w)) sb sk (Some o) ->
  Object_wf (Object_new now (o_size o) (o_hash o) (o_data o)) ->
  kv (w_ns w2) = kv (w_ns w) -> wnonce w2 = wnonce w -> winv cfg w2 (add_refs F (o_blocks o)) ->
  wp (obj ← create_object_meta cfg now db dk (o_size o) (o_hash o) (o_data o); mret (Some obj)) w2
    (clone_post now sb sk db dk F w).
Proof.
  intros Hdb Hf Hwf Hns2 Hn2 Hinv2. apply wp_bind.
  eapply wp_mono; [apply (create_object_meta_spec now db dk _ _ _ w2 F Hdb Hwf Hinv2)|].
  intros [o'|e] w3 [Hinv3 Hr3]; cbn beta iota.
  - apply wp_ret. destruct Hr3 as (-> & d & Hm & Hn3 & _). split_and!; [done|congruence|].
    exists o, d. by rewrite Hns2 in Hm.
  - destruct Hr3 as (Hnp & _ & Hd3 & Hm). rewrite Hns2 in Hm.
    split_and!; [done|unfold wnonce in *; by rewrite Hd3|done|].
    destruct Hm as [Hm|(d & Hm)]; [by left|right; by exists o, d].
Qed.

(** A clone, given that the copy's record can be encoded. *)
Lemma clone_spec now sb sk db dk w F :
  reserved db = false -> winv cfg w F ->
  (forall o, found (kv (w_ns w)) sb sk (Some o) ->
     Object_wf (Object_new now (o_size o) (o_hash o) (o_data o)) /\ room w (o_blocks o)) ->
  wp (clone_object_by_reference cfg now sb sk db dk) w (clone_post now sb sk db dk F w).
Proof.
  intros Hdb Hinv Hsrc. unfold clone_object_by_reference. apply wp_bind, wp_on_ns.
  assert (forall s1, kv s1 = kv (w_ns w) ->
    winv cfg (mkWorld s1 (w_shared w) (w_disk w) (w_counters w)) F) as Hinv'.
  { intros s1 Hk. unfold winv. simpl. by rewrite Hk. }
  eapply wp_mono; [apply get_meta_spec|]. intros [[o|]|e] s1 [Hk Hr]; cbn beta iota;
    [|apply wp_ret; split_and!; [auto|done|done|]|split_and!; by auto].
  2: { exists None. split; [exact Hr|]. intros i Hi. simpl. lia. }
  set (w1 := mkWorld s1 (w_shared w) (w_disk w) (w_counters w)).
  pose proof (Hinv' s1 Hk) as Hinv1. fold w1 in Hinv1.
  assert (found (kv (w_ns w)) sb sk (Some o)) as Hf by exact Hr.
  destruct (Hsrc o Hf) as [Hwf Hroom].
  assert (Forall BlockId_wf (o_blocks o)) as Hbl by (by apply (found_blocks _ _ _ (Some o) Hf)).
  assert (wp (ok ← acquire_references cfg (o_blocks o);
              if (ok : bool) then obj ← create_object_meta cfg now db dk (o_size o) (o_hash o) (o_data o);
                                  mret (Some obj) else mret None) w1 (clone_post now sb sk db dk F w)) as Hblk.
  { apply wp_bind. eapply wp_mono; [apply (acquire_from_spec (o_blocks o) [] w1 F);
      [constructor|done|done|by eapply inv_mono; [|exact Hinv1]; intros i; unfold add_refs; simpl; lia]|].
    intros [[|]|e] w2 (Hns2 & Hn2 & Hr2); cbn beta iota.
    - destruct Hr2 as (_ & _ & Hinv2). apply (clone_write _ _ _ _ _ _ w w2 o); try done. by rewrite Hns2.
    - apply wp_ret. destruct Hr2 as [Hinv2 Hle]. split_and!; [done|done|by rewrite Hns2|]. by exists (Some o).
    - destruct Hr2 as [Hnp Hinv2]. split_and!; [done|done|done|left; by rewrite Hns2]. }
  pose proof (fun Hi => clone_write now sb sk db dk F w w1 o Hdb Hf Hwf Hk eq_refl Hi) as Hwrite.
  unfold o_blocks in Hblk, Hwrite. cbn [map_err]. destruct (o_data o) as [data|bl|bl parts] eqn:Ed; [|exact Hblk|exact Hblk].
  apply Hwrite. eapply inv_mono; [|exact Hinv1]. intros i. unfold add_refs. simpl. lia.
Qed.

(* ------------------------------------------------------------------ *)
(** * Reads *)

(** The occurrences of a block in the records of a bucket are references. *)
Lemma found_refs m bucket key o i :
  reserved bucket = false -> found m bucket key (Some o) -> i ∈ o_blocks o -> (0 < obj_refs m i)%nat.
Proof.
  intros Hres (raw & Hraw & Ho) Hin. unfold obj_refs.
  pose proof (msum_delete (object_weight i) (bucket, key) m) as Hs. unfold at_key in Hs.
  rewrite Hraw in Hs. unfold object_weight in Hs at 2. simpl in Hs. rewrite Hres in Hs.
  unfold blocks_of_object_raw in Hs. rewrite Ho in Hs. apply occ_pos in Hin. lia.
Qed.

(** The path and length of one block, from its record. *)
Definition located w (i : BlockId) (p : path * Z) : Prop :=
  exists b, block_at (kv (w_shared w)) i = Some b /\ p = (block_disk_path i (b_depth b) root, b_size b).

Lemma block_path_spec i w :
  wp (block_path cfg i) w (fun r w' =>
    same_dbs w w' /\ w_disk w' = w_disk w /\
    match r with Ok p => located w i p | Err e => no_panic e end).
Proof.
  unfold block_path. apply wp_bind, wp_on_shared. eapply wp_mono; [apply get_block_spec|].
  intros [[b|]|e] s' [Hk Hr]; cbn beta iota; [apply wp_ret|apply wp_err|]; (split_and!; [done|done|]);
    [by exists b|done|done].
Qed.

Lemma block_paths_spec blocks w :
  wp (M_map (block_path cfg) blocks) w (fun r w' =>
    same_dbs w w' /\ w_disk w' = w_disk w /\
    match r with Ok ps => Forall2 (located w) blocks ps | Err e => no_panic e end).
Proof.
  revert w. induction blocks as [|i blocks IH]; intros w; [apply wp_ret; split_and!; (done || constructor)|].
  apply (wp_bind (block_path cfg i)). eapply wp_mono; [apply block_path_spec|].
  intros [p|e] w1 (Hs1 & Hd1 & Hr1); cbn beta iota; [|done].
  apply (wp_bind (M_map _ blocks)). eapply wp_mono; [apply IH|].
  intros [ps|e] w2 (Hs2 & Hd2 & Hr2); cbn beta iota; [apply wp_ret|];
    (split_and!; [by eapply same_dbs_trans|congruence|]); [|done].
  constructor; [done|]. eapply Forall2_impl; [exact Hr2|]. intros j q. unfold located.
  destruct Hs1 as [_ Hk]. by rewrite Hk.
Qed.

Lemma get_object_paths_spec bucket key w :
  wp (get_object_paths cfg bucket key) w (fun r w' =>
    same_dbs w w' /\ w_disk w' = w_disk w /\ match r with
    | Ok None => found (kv (w_ns w)) bucket key None
    | Ok (Some (o, ps)) => found (kv (w_ns w)) bucket key (Some o) /\
        (if is_inlined o then ps = [] else Forall2 (located w) (o_blocks o) ps)
    | Err e => no_panic e
    end).
Proof.
  unfold get_object_paths. apply wp_bind, wp_on_ns. eapply wp_mono; [apply get_meta_spec|].
  intros [[o|]|e] s1 [Hk Hr]; cbn [map_err]; [|by apply wp_ret|done].
  destruct (is_inlined o) eqn:Ei.
  { apply wp_ret. split_and!; [done|done|exact Hr|]. by rewrite Ei. }
  apply wp_bind. eapply wp_mono; [apply block_paths_spec|].
  intros r w2 (Hs2 & Hd2 & Hr2).
  assert (same_dbs w w2) as Hs by (destruct Hs2; split; simpl in *; congruence).
  destruct r as [ps|e]; cbn beta iota; [|done].
  apply wp_ret. split_and!; [done|done|exact Hr|]. by rewrite Ei.
Qed.

(** Under the invariant nothing an object names is dangling: each of its
    blocks has a record, and unless that record is marked degraded, the file
    at the located path holds bytes with the block's address. *)
Lemma object_readable bucket key o w F i p :
  reserved bucket = false -> winv cfg w F -> found (kv (w_ns w)) bucket key (Some o) -> i ∈ o_blocks o ->
  exists b, block_at (kv (w_shared w)) i = Some b /\ 0 < b_rc b /\
    (located w i p -> p = (block_disk_path i (b_depth b) root, b_size b)) /\
    (is_degraded b = false -> exists data,
       wfiles w !! block_disk_path i (b_depth b) root = Some data /\
       hash_block (cfg_hasher cfg) data = i /\ Z.of_nat (length data) = b_size b).
Proof.
  intros Hres Hinv Hf Hin.
  assert (BlockId_wf i) as Hi.
  { pose proof (found_blocks _ _ _ _ Hf) as Hb. rewrite Forall_forall in Hb. by apply Hb. }
  destruct (inv_held _ _ _ _ _ _ i Hinv Hi) as (b & Hb & Hpos).
  { pose proof (found_refs _ _ _ _ i Hres Hf Hin). lia. }
  exists b. split_and!; [done|done|..].
  - intros (b' & Hb' & ->). by simplify_eq.
  - intros Hd. by eapply inv_files.
Qed.

(* ------------------------------------------------------------------ *)
(** * PUT, then GET *)

(** The bytes of the files a read visits, in order. *)
Fixpoint read_back (fl : gmap path bytes) (ps : list (path * Z)) : option bytes :=
  match ps with
  | [] => Some []
  | p :: ps' => data ← fl !! p.1; rest ← read_back fl ps'; Some (data ++ rest)
  end.

(** A file with the address of each chunk, under the length the record says. *)
Definition serves (fl : gmap path bytes) (c : bytes) (p : path * Z) : Prop :=
  exists data, fl !! p.1 = Some data /\ hash_block (cfg_hasher cfg) data = hash_block (cfg_hasher cfg) c /\
    Z.of_nat (length data) = p.2.

Lemma read_back_chunks fl chunks ps :
  Forall2 (serves fl) chunks ps ->
  (forall c p data, c ∈ chunks -> fl !! p = Some data ->
     hash_block (cfg_hasher cfg) data = hash_block (cfg_hasher cfg) c -> data = c) ->
  read_back fl ps = Some (concat chunks).
Proof.
  induction 1 as [|c p chunks ps (data & Hf & Hh & _) _ IH]; intros Hnc; [done|]. simpl.
  rewrite Hf. simpl. rewrite IH; [|intros c' p' d' Hc'; apply Hnc; set_solver]. simpl.
  rewrite (Hnc c p.1 data); [done|set_solver|done|done].
Qed.

Context (Hcfg : aw_tmp (cfg_writer cfg) = root ++ [TMP_DIR_NAME]).
Abbreviation addresses := (map (hash_block (cfg_hasher cfg))).

(** The object a PUT of these chunks files. *)
Definition put_object (now : Z) (chunks : list bytes) : Object :=
  Object_new now (Z.of_nat (length (concat chunks))) (mkContentHash (md5_digest (concat chunks)))
    (SinglePart (addresses chunks)).

Lemma store_single_spec now bucket key items len w F :
  let chunks := (stream_chunks items).1 in
  reserved bucket = false -> 0 < len -> budget cfg w chunks -> winv cfg w F ->
  Object_wf (put_object now chunks) ->
  wp (store_single_object_and_meta cfg now bucket key items len) w (fun r w' =>
    winv cfg w' F /\ match r with
    | Ok o => (stream_chunks items).2 = true /\ o = put_object now chunks /\
        kv (w_ns w') !! (bucket, key) = Some (Object_to_vec o) /\
        exists d, replaced bucket key (Object_to_vec o) (o_size o) d (kv (w_ns w)) (kv (w_ns w')) /\
        (forall i, i ∈ addresses chunks -> is_Some (block_at (kv (w_shared w')) i) ->
           live_at (kv (w_shared w')) i = true)
    | Err _ => True
    end).
Proof.
  intros chunks Hres Hlen Hbg Hinv Hwf. unfold store_single_object_and_meta.
  destruct (Z.ltb_spec 0 len); [|lia]. apply wp_bind.
  eapply wp_mono; [by apply (store_object_spec cfg Hcfg items w F)|]. fold chunks.
  intros [[[blocks hash] size]|e] w1 Hr; cbn beta iota; [|by destruct Hr as (_ & ? & _)].
  destruct Hr as (Hst & -> & -> & -> & Hns & Hc & Hinv1).
  pose proof (create_object_meta_spec now bucket key (Z.of_nat (length (concat chunks)))
    (mkContentHash (md5_digest (concat chunks))) (SinglePart (addresses chunks)) w1 F Hres Hwf Hinv1) as Hcr.
  unfold wp, unwrap in *. destruct (create_object_meta _ _ _ _ _ _ _ w1) as [[o|e] w2]; simpl in *;
    destruct Hcr as [Hinv2 Hcr]; [|done].
  destruct Hcr as (-> & d & Hm & _ & Hrel & _). split_and!; [done|done|done|..].
  - destruct Hm as (_ & cur & _ & ->). pose proof (unreserved_usage _ Hres).
    rewrite lookup_insert_ne by congruence. apply lookup_insert_eq.
  - exists d. rewrite Hns in Hm. split; [exact Hm|]. intros i Hi [b Hb].
    destruct Hrel as (_ & Hdeg & _). destruct Hc as (_ & Hl & _).
    assert (BlockId_wf i) as Hiw.
    { apply list_elem_of_fmap in Hi as (c & -> & _). apply hash_block_wf. }
    specialize (Hl i Hiw (or_intror Hi)). destruct (Hdeg i b Hiw Hb) as (b1 & Hb1 & Hd1).
    unfold live_at in *. rewrite Hb1 in Hl. by rewrite Hb, Hd1.
Qed.

(** An object of live blocks reads back as files with its chunks' addresses. *)
Lemma read_stored_spec now bucket key chunks w F :
  reserved bucket = false -> winv cfg w F -> Object_wf (put_object now chunks) ->
  kv (w_ns w) !! (bucket, key) = Some (Object_to_vec (put_object now chunks)) ->
  (forall i, i ∈ addresses chunks -> is_Some (block_at (kv (w_shared w)) i) -> live_at (kv (w_shared w)) i = true) ->
  wp (get_object_paths cfg bucket key) w (fun r w' =>
    winv cfg w' F /\ match r with
    | Ok None => False
    | Ok (Some (o, ps)) => o = put_object now chunks /\ Forall2 (serves (wfiles w')) chunks ps
    | Err _ => True
    end).
Proof.
  intros Hres Hinv Hwf Hrec Hlive. eapply wp_mono; [apply get_object_paths_spec|]. intros r w2 ([Hns Hsh] & Hdk & Hr).
  assert (winv cfg w2 F) as Hinv2. { unfold winv, wfiles. by rewrite Hns, Hsh, Hdk. }
  split; [done|]. destruct r as [[[o ps]|]|e]; [|simpl in Hr; congruence|done].
  destruct Hr as [Hf Hps].
  assert (o = put_object now chunks) as ->.
  { destruct Hf as (raw & Hraw & Ho). rewrite Hrec in Hraw. injection Hraw as <-.
    rewrite Object_roundtrip in Ho by done. congruence. }
  split; [done|]. simpl in Hps. unfold o_blocks in Hps. simpl in Hps.
  unfold wfiles. rewrite Hdk. fold (wfiles w).
  change (addresses chunks) with (hash_block (cfg_hasher cfg) <$> chunks) in Hps.
  rewrite Forall2_fmap_l in Hps. apply Forall2_same_length_lookup in Hps as [Hl Hps].
  apply Forall2_same_length_lookup. split; [exact Hl|]. intros k c p Hc Hp.
  specialize (Hps k c p Hc Hp). set (i := hash_block (cfg_hasher cfg) c) in *.
  assert (i ∈ addresses chunks) as Hi.
  { apply list_elem_of_fmap. exists c. split; [done|]. by eapply list_elem_of_lookup_2. }
  destruct (object_readable bucket key (put_object now chunks) w F i p Hres Hinv Hf Hi)
    as (b & Hb & _ & Hloc & Hfile).
  rewrite (Hloc Hps). unfold serves. simpl. apply Hfile.
  specialize (Hlive i Hi ltac:(eauto)). unfold live_at in Hlive. rewrite Hb in Hlive.
  by destruct (is_degraded b).
Qed.

Lemma put_get_spec now bucket key items len w F :
  let chunks := (stream_chunks items).1 in
  reserved bucket = false -> 0 < len -> budget cfg w chunks -> winv cfg w F ->
  Object_wf (put_object now chunks) ->
  wp (_ ← store_single_object_and_meta cfg now bucket key items len;
      get_object_paths cfg bucket key) w (fun r w' =>
    winv cfg w' F /\ match r with
    | Ok None => False
    | Ok (Some (o, ps)) => o = put_object now chunks /\ Forall2 (serves (wfiles w')) chunks ps
    | Err _ => True
    end).
Proof.
  intros chunks Hres Hlen Hbg Hinv Hwf. apply wp_bind.
  eapply wp_mono; [by apply (store_single_spec now bucket key items len w F)|]. fold chunks.
  intros [o|e] w1 [Hinv1 Hr]; cbn beta iota; [|done].
  destruct Hr as (_ & -> & Hrec & d & _ & Hlive).
  by apply (read_stored_spec now bucket key chunks w1 F).
Qed.
End ObjectOps.
