(* ===== verification/NsSpecs.v ===== *)
(** What the operations on namespaces do (respcas/src/storage.rs,
    namespace.rs, content.rs): which calls only read, and for the others what
    they write to the namespace database, on every branch and under every
    pattern of failures. *)

From S2P Require Import Prelude Bytes Resp Externals BlockIds Codec Records StoreHeader MetaStore Commands Disk BlockStream Placement MetaOps Accounting Engine BatchSpecs WriteSpecs Chunking Namespaces ObjectSpecs.
From Stdlib Require Import Strings.Byte.
Local Open Scope Z_scope.
#[local] Set Warnings "-clear-no-such-hyp,-register-all".

Section Reads.
Context {S T D : Type} `{StoreLaws S T, DiskLaws D, Blake3Laws, Md5, FasterHexLaws, MsgpackLaws}.
Abbreviation RW := (RespWorld S D).
Abbreviation NM := (M RW NsErr).
Implicit Types (rw : RW) (m : kvmap).

(** The namespace database of a world. *)
Definition nskv rw : kvmap := kv (w_ns (rw_world rw)).

(** The metadata record of a namespace. *)
Definition meta_of m (name : bytes) : option NamespaceMeta :=
  raw ← m !! (DEFAULT_BUCKET_TREE, name);
  match from_msgpack raw with Ok meta => Some meta | Err _ => None end.

(** Nothing a later call could read has changed. *)
Definition quiet rw rw' : Prop :=
  nskv rw' = nskv rw /\ kv (w_shared (rw_world rw')) = kv (w_shared (rw_world rw)) /\
  w_disk (rw_world rw') = w_disk (rw_world rw) /\ rw_cache rw' = rw_cache rw.

#[global] Instance quiet_refl : Reflexive quiet.
Proof. by intros rw. Qed.
#[global] Instance quiet_trans : Transitive quiet.
Proof. intros a b c (?&?&?&?) (?&?&?&?). split_and!; congruence. Qed.

Lemma quiet_winv cfg rw rw' F : quiet rw rw' -> winv cfg (rw_world rw) F -> winv cfg (rw_world rw') F.
Proof. intros (Hn & Hs & Hd & _). unfold winv, wfiles, nskv in *. by rewrite Hn, Hs, Hd. Qed.

Lemma quiet_nskv rw rw' : quiet rw rw' -> nskv rw' = nskv rw.
Proof. by intros (?&_). Qed.
Lemma quiet_cache rw rw' : quiet rw rw' -> rw_cache rw' = rw_cache rw.
Proof. by intros (_&_&_&?). Qed.

(* ------------------------------------------------------------------ *)
(** * Running a component inside the world *)

Lemma wp_on_meta {A} (m : M S MetaError A) rw Q :
  wp m (w_ns (rw_world rw)) (fun r s' =>
    Q (map_err StorageMeta r)
      (mkRespWorld (mkWorld s' (w_shared (rw_world rw)) (w_disk (rw_world rw)) (w_counters (rw_world rw))) (rw_cache rw))) ->
  wp (on_meta m) rw Q.
Proof. unfold wp, on_meta. by destruct (m (w_ns (rw_world rw))). Qed.

Lemma wp_on_engine {A} (m : M (World S D) EngErr A) rw Q :
  wp m (rw_world rw) (fun r w' => Q (map_err NsEngine r) (mkRespWorld w' (rw_cache rw))) -> wp (on_engine m) rw Q.
Proof. unfold wp, on_engine. by destruct (m (rw_world rw)). Qed.

(** A read of the namespace database. *)
Lemma wp_read_meta {A} (m : M S MetaError A) rw (P : result MetaError A -> Prop) Q :
  wp m (w_ns (rw_world rw)) (fun r s' => kv s' = nskv rw /\ P r) ->
  (forall r rw', quiet rw rw' -> P r -> Q (map_err StorageMeta r) rw') ->
  wp (on_meta m) rw Q.
Proof.
  intros Hm HQ. apply wp_on_meta. eapply wp_mono; [exact Hm|]. intros r s' [Hk HP]. by apply HQ.
Qed.

Lemma wp_from_cache {A} (f : gmap bytes Namespace -> A) rw Q : Q (Ok (f (rw_cache rw))) rw -> wp (from_cache f) rw Q.
Proof. done. Qed.

(** A call that only reads, with what its answer means. *)
Definition reads {A} (m : NM A) rw (P : A -> Prop) : Prop :=
  wp m rw (fun r rw' => quiet rw rw' /\ match r with Ok a => P a | Err _ => True end).

Lemma reads_use {A} (m : NM A) rw P Q :
  reads m rw P ->
  (forall a rw', quiet rw rw' -> P a -> Q (Ok a) rw') -> (forall e rw', quiet rw rw' -> Q (Err e) rw') -> wp m rw Q.
Proof.
  unfold reads. intros Hm Hok Herr. eapply wp_mono; [exact Hm|]. intros [a|e] rw' [Hq Hr]; [by apply Hok|by apply Herr].
Qed.

Lemma reads_bind {A B} (m : NM A) (k : A -> NM B) rw P P' :
  reads m rw P -> (forall a rw', quiet rw rw' -> P a -> reads (k a) rw' P') -> reads (m ≫= k) rw P'.
Proof.
  unfold reads. intros Hm Hk. apply wp_bind. eapply wp_mono; [exact Hm|]. intros [a|e] rw' [Hq Hr]; cbn beta iota; [|done].
  eapply wp_mono; [by apply Hk|]. intros r rw2 [Hq2 Hr2]. split; [by etrans|done].
Qed.

Lemma reads_ret {A} (a : A) rw (P : A -> Prop) : P a -> reads (mret a) rw P.
Proof. intros. by apply wp_ret. Qed.
Lemma reads_err {A} e rw (P : A -> Prop) : reads (M_err e) rw P.
Proof. by apply wp_err. Qed.
Lemma reads_mono {A} (m : NM A) rw (P P' : A -> Prop) : reads m rw P -> (forall a, P a -> P' a) -> reads m rw P'.
Proof. unfold reads. intros Hm HP. eapply wp_mono; [exact Hm|]. intros [a|e] rw' [Hq Hr]; split; auto. Qed.

Lemma reads_meta {A} (m : M S MetaError A) rw (P : A -> Prop) :
  wp m (w_ns (rw_world rw)) (fun r s' => kv s' = nskv rw /\ match r with Ok a => P a | Err _ => True end) ->
  reads (on_meta m) rw P.
Proof.
  intros Hm. apply (wp_read_meta m rw _ _ Hm). intros [a|e] rw' Hq HP; by split.
Qed.

Lemma reads_cache {A} (f : gmap bytes Namespace -> A) rw : reads (from_cache f) rw (fun a => a = f (rw_cache rw)).
Proof. by apply wp_from_cache. Qed.

Lemma reads_props ns rw n :
  rw_cache rw !! ns = Some n -> reads (props_of ns) rw (fun p => p = ns_props n).
Proof. intros Hn. eapply reads_mono; [apply reads_cache|]. simpl. intros p ->. by rewrite Hn. Qed.
Lemma reads_tree ns rw n :
  rw_cache rw !! ns = Some n -> reads (tree_of ns) rw (fun t => t = ns_tree n).
Proof. intros Hn. eapply reads_mono; [apply reads_cache|]. simpl. intros p ->. by rewrite Hn. Qed.
Lemma reads_name ns rw n :
  rw_cache rw !! ns = Some n -> reads (name_of ns) rw (fun b => b = pr_namespace_name (ns_props n)).
Proof.
  intros Hn. eapply reads_bind; [by eapply reads_props|]. intros p rw' _ ->. by apply reads_ret.
Qed.

(* ------------------------------------------------------------------ *)
(** * The namespace list *)

Lemma reads_require name rw : reads (require_namespace name) rw (fun _ => True).
Proof.
  eapply (reads_bind _ _ _ (fun _ => True)).
  - apply reads_meta. eapply wp_mono; [apply tree_exists_spec|]. intros [b|e] s' Hk; by split.
  - intros [|] rw' _ _; [by apply reads_ret|apply reads_err].
Qed.

Lemma reads_open name rw : reads (on_meta (tree_open name)) rw (fun t => t = name).
Proof. apply reads_meta. eapply wp_mono; [apply tree_open_spec|]. by intros [t|e] s' [Hk Ht]. Qed.

Lemma reads_namespace name rw : reads (get_namespace name) rw (fun t => t = name).
Proof. eapply reads_bind; [apply reads_require|]. intros u rw' _ _. apply reads_open. Qed.

Lemma reads_contains t key rw :
  reads (on_meta (tree_contains_key t key)) rw (fun b => b = bool_decide (is_Some (nskv rw !! (t, key)))).
Proof. apply reads_meta. eapply wp_mono; [apply tree_contains_key_spec|]. by intros [b|e] s' [Hk Hb]. Qed.

Lemma reads_get t key rw : reads (on_meta (tree_get t key)) rw (fun v => v = nskv rw !! (t, key)).
Proof. apply reads_meta. eapply wp_mono; [apply tree_get_spec|]. by intros [b|e] s' [Hk Hb]. Qed.

Lemma reads_codec {A} (r : result string A) rw : reads (lift_codec r) rw (fun a => r = Ok a).
Proof. unfold lift_codec. apply wp_lift. destruct r; simpl; by split. Qed.

Lemma reads_row name rw :
  reads (on_meta (bucketlist_tree ← tree_open DEFAULT_BUCKET_TREE; tree_get bucketlist_tree name)) rw
    (fun v => v = nskv rw !! (DEFAULT_BUCKET_TREE, name)).
Proof.
  apply reads_meta. apply wp_bind. eapply wp_mono; [apply tree_open_spec|]. intros [t|e] s' [Hk Ht]; [subst t|done].
  eapply wp_mono; [apply tree_get_spec|]. unfold nskv. intros [v|e] s2 [Hk2 Hv]; rewrite Hk2, Hk; [|done].
  by rewrite Hv, Hk.
Qed.

Lemma reads_namespace_meta name rw :
  reads (get_namespace_meta name) rw (fun meta => meta_of (nskv rw) name = Some meta).
Proof.
  eapply reads_bind; [apply reads_require|]. intros u rw1 Hq1 _.
  eapply reads_bind; [apply reads_row|]. intros v rw2 Hq2 Hv. rewrite (quiet_nskv _ _ Hq1) in Hv.
  destruct v as [raw|]; [|apply reads_err]. eapply reads_mono; [apply reads_codec|].
  intros meta Hm. unfold meta_of. rewrite <- Hv. simpl. by rewrite Hm.
Qed.

(** A record of the list. *)
Definition listed m (item : result NsErr NamespaceMeta) : Prop :=
  match item with
  | Ok meta => exists name raw, m !! (DEFAULT_BUCKET_TREE, name) = Some raw /\ from_msgpack raw = Ok meta
  | Err _ => True
  end.

(** A loop over the namespaces that reads visits records of the list only, and
    no more than it has fuel for. *)
Lemma each_namespace_reads {A} fuel (f : result NsErr NamespaceMeta -> A -> NM A) (I : nat -> A -> Prop) rw0 :
  (forall item acc n rw, quiet rw0 rw -> I n acc -> listed (nskv rw0) item -> reads (f item acc) rw (I (Datatypes.S n))) ->
  forall acc cursor n rw, quiet rw0 rw -> I n acc ->
  reads (each_namespace fuel f acc cursor) rw (fun a => exists k, (k <= n + fuel)%nat /\ I k a).
Proof.
  intros Hf. induction fuel as [|fuel IH]; intros acc cursor n rw Hq Hacc.
  { apply reads_ret. exists n. split; [lia|done]. }
  cbn [each_namespace].
  eapply (reads_bind _ _ _ (fun item => match item with
    | Ok (Some (k, v)) => nskv rw0 !! (DEFAULT_BUCKET_TREE, k) = Some v | _ => True end)).
  { apply wp_try. eapply (wp_read_meta _ _ (fun r => match r with
      | Ok (Some (k, v)) => nskv rw0 !! (DEFAULT_BUCKET_TREE, k) = Some v | _ => True end)).
    - eapply wp_mono; [apply tree_next_spec|]. intros r s' [Hk Hr]. split; [done|].
      destruct r as [[[k v]|]|e]; try done. destruct Hr as [_ Hv]. by rewrite <- (quiet_nskv _ _ Hq).
    - intros r rw1 Hq1 HP. split; [done|]. by destruct r as [[[k v]|]|e]. }
  intros item rw1 Hq1 Hi. assert (quiet rw0 rw1) as Hq01 by (by etrans).
  assert (forall item' cursor', listed (nskv rw0) item' ->
    reads (acc ← f item' acc; each_namespace fuel f acc cursor') rw1
      (fun a => exists k, (k <= n + Datatypes.S fuel)%nat /\ I k a)) as Hgo.
  { intros item' cursor' Hl. eapply reads_bind; [by apply (Hf item' acc n rw1)|]. intros acc' rw2 Hq2 Hacc'.
    eapply reads_mono; [apply (IH acc' cursor' (Datatypes.S n)); [by etrans|done]|].
    intros a (k & Hk & Ha). exists k. split; [lia|done]. }
  destruct item as [[[k v]|]|e]; [apply Hgo| |by apply Hgo].
  - destruct (from_msgpack v) as [meta|e] eqn:E; simpl; [|done]. by exists k, v.
  - apply reads_ret. exists n. split; [lia|done].
Qed.

Lemma for_namespaces_reads {A} env (f : result NsErr NamespaceMeta -> A -> NM A) (I : nat -> A -> Prop) acc rw :
  I 0%nat acc ->
  (forall item acc n rw', quiet rw rw' -> I n acc -> listed (nskv rw) item -> reads (f item acc) rw' (I (Datatypes.S n))) ->
  reads (for_namespaces env f acc) rw (fun a => exists k, (k <= en_fuel env)%nat /\ I k a).
Proof.
  intros Hacc Hf. eapply reads_bind; [apply reads_open|]. intros t rw1 Hq1 _.
  by apply (each_namespace_reads _ _ I rw Hf acc None 0%nat).
Qed.

(** A namespace whose stored record says its keys are addresses. *)
Definition cas_ns m (name : bytes) : Prop :=
  exists meta, meta_of m name = Some meta /\ nm_key_mode meta = Cas.

(** The records of the list: of unreserved names, each under its own. *)
Definition rows_ok m : Prop :=
  forall name raw, m !! (DEFAULT_BUCKET_TREE, name) = Some raw ->
    reserved name = false /\ exists meta, from_msgpack raw = Ok meta /\ nm_name meta = name.

(** The namespaces a clone may take from are content-addressed ones. *)
Lemma reads_cas_namespaces env rw :
  rows_ok (nskv rw) ->
  reads (cas_namespaces env) rw (fun names =>
    (length names <= en_fuel env)%nat /\ Forall (cas_ns (nskv rw)) names).
Proof.
  intros Hrows. eapply reads_mono; [apply (for_namespaces_reads env _ (fun n names =>
    (length names <= n)%nat /\ Forall (cas_ns (nskv rw)) names))|].
  - split; [simpl; lia|constructor].
  - intros item acc n rw' Hq [Hlen Hacc] Hitem.
    eapply (reads_bind _ _ _ (fun meta => item = Ok meta)).
    { apply wp_lift. destruct item; by split. }
    intros meta rw2 Hq2 ->. apply reads_ret. destruct Hitem as (row & raw & Hraw & Hm).
    case_decide as Hmode; [|split; [lia|done]]. rewrite length_app. split; [simpl; lia|].
    apply Forall_app. split; [done|]. constructor; [|constructor]. exists meta. split; [|done].
    assert (nm_name meta = row) as -> by (destruct (Hrows _ _ Hraw) as (_ & m2 & Hm2 & <-); congruence).
    unfold meta_of. rewrite Hraw. simpl. by rewrite Hm.
  - intros names (k & Hk & Hl & Hf). split; [lia|done].
Qed.
End Reads.

(* ------------------------------------------------------------------ *)
(** * Keys *)

Section Keys.
Context {S T D : Type} `{StoreLaws S T, DiskLaws D, Blake3Laws, Md5Laws, FasterHexLaws, MsgpackLaws}.
Context (rcfg : RespCfg) (env : Env).
Abbreviation cfg := (rc_engine rcfg).
Abbreviation RW := (RespWorld S D).
Implicit Types (rw : RW) (m : kvmap) (n : Namespace) (F : BlockId -> nat).

Lemma reads_object ns key rw n :
  rw_cache rw !! ns = Some n -> reads (get_object ns key) rw (found (nskv rw) (ns_tree n) key).
Proof.
  intros Hn. eapply reads_bind; [by eapply reads_tree|]. intros t rw1 Hq1 ->.
  eapply reads_bind; [apply reads_get|]. intros v rw2 Hq2 Hv. rewrite (quiet_nskv _ _ Hq1) in Hv.
  destruct v as [raw|]; [|by apply reads_ret].
  eapply (reads_bind _ _ _ (fun o => Object_try_from raw = Ok o)).
  { apply reads_meta. apply wp_lift. split; [done|]. by destruct (Object_try_from raw). }
  intros o rw3 _ Ho. apply reads_ret. exists raw. by rewrite Hv.
Qed.

Lemma reads_exists ns key rw n :
  rw_cache rw !! ns = Some n ->
  reads (exists_key ns key) rw (fun b => b = bool_decide (is_Some (nskv rw !! (ns_tree n, key)))).
Proof.
  intros Hn. eapply reads_bind; [by eapply reads_tree|]. intros t rw1 Hq1 ->.
  eapply reads_mono; [apply reads_contains|]. intros b ->. by rewrite (quiet_nskv _ _ Hq1).
Qed.

Lemma reads_length ns key rw n :
  rw_cache rw !! ns = Some n ->
  reads (length_of ns key) rw (fun z => exists o, found (nskv rw) (ns_tree n) key o /\ z = option_map o_size o).
Proof.
  intros Hn. eapply reads_bind; [by apply reads_object|]. intros o rw1 _ Ho. apply reads_ret. eauto.
Qed.

Lemma reads_usage name rw :
  reads (on_meta (bucket_usage name)) rw (fun u =>
    usage_read (nskv rw) name = Ok (match u with Some k => k | None => 0 end)).
Proof.
  apply reads_meta. unfold bucket_usage, usage_read, nskv. wp_call tree_open_spec; intros [Hk Ht]; [subst a|done].
  wp_call tree_get_spec; intros [Hk2 Hv]; rewrite Hk in *; [|done]. subst a.
  destruct (kv (w_ns (rw_world rw)) !! (DEFAULT_USAGE_TREE, name)) as [raw|]; [|by apply wp_ret].
  apply wp_bind, wp_lift. destruct (decode_usage raw); [by apply wp_ret|done].
Qed.

(** The limit of a namespace leaves room for [adding] bytes in place of
    [replacing]. *)
Definition within_quota m (p : NamespaceProperties) (adding replacing : Z) : Prop :=
  match pr_max_size p with
  | None => True
  | Some limit => exists usage, usage_read m (pr_namespace_name p) = Ok usage /\
      saturating_add_u64 (Z.max 0 (usage - replacing)) adding <= limit
  end.

Lemma reads_over_quota ns limit adding replacing rw n :
  rw_cache rw !! ns = Some n ->
  reads (refuse_over_quota ns limit adding replacing) rw (fun _ =>
    exists usage, usage_read (nskv rw) (pr_namespace_name (ns_props n)) = Ok usage /\
      saturating_add_u64 (Z.max 0 (usage - replacing)) adding <= limit).
Proof.
  intros Hn. eapply reads_bind; [by eapply reads_name|]. intros b rw1 Hq1 ->.
  eapply reads_bind; [apply reads_usage|]. intros u rw2 _ Hu. rewrite (quiet_nskv _ _ Hq1) in Hu. cbn zeta.
  destruct (Z.ltb_spec limit (saturating_add_u64 (Z.max 0 ((match u with Some k => k | None => 0 end) - replacing)) adding));
    [apply reads_err|]. apply reads_ret. eauto.
Qed.

Lemma reads_quota ns key adding rw n :
  rw_cache rw !! ns = Some n ->
  reads (refuse_unless_within_quota ns key adding) rw (fun _ =>
    pr_max_size (ns_props n) = None \/
    exists o, found (nskv rw) (ns_tree n) key o /\ within_quota (nskv rw) (ns_props n) adding (old_size o)).
Proof.
  intros Hn. eapply reads_bind; [by eapply reads_props|]. intros p rw1 Hq1 ->.
  destruct (pr_max_size (ns_props n)) as [limit|] eqn:El; [|by apply reads_ret; left].
  assert (rw_cache rw1 !! ns = Some n) as Hn1 by (by rewrite (quiet_cache _ _ Hq1)).
  eapply reads_bind; [by eapply reads_length|]. intros z rw2 Hq2 (o & Ho & ->). rewrite (quiet_nskv _ _ Hq1) in Ho.
  assert (rw_cache rw2 !! ns = Some n) as Hn2 by (by rewrite (quiet_cache _ _ Hq2)).
  eapply reads_mono; [by eapply reads_over_quota|]. intros _ (u & Hu & Hle). right. exists o. split; [done|].
  rewrite (quiet_nskv _ _ Hq2), (quiet_nskv _ _ Hq1) in Hu.
  unfold within_quota. rewrite El. exists u. split; [done|]. by destruct o.
Qed.

Lemma reads_room_for ns adding rw n :
  rw_cache rw !! ns = Some n ->
  reads (refuse_unless_room_for ns adding) rw (fun _ => within_quota (nskv rw) (ns_props n) adding 0).
Proof.
  intros Hn. eapply reads_bind; [by eapply reads_props|]. intros p rw1 Hq1 ->.
  unfold within_quota. destruct (pr_max_size (ns_props n)) as [limit|] eqn:El; [|by apply reads_ret].
  assert (rw_cache rw1 !! ns = Some n) as Hn1 by (by rewrite (quiet_cache _ _ Hq1)).
  eapply reads_mono; [by eapply reads_over_quota|]. intros u Hx. by rewrite (quiet_nskv _ _ Hq1) in Hx.
Qed.

Lemma reads_writable ns guard rw n :
  rw_cache rw !! ns = Some n ->
  reads (refuse_unless_writable ns guard) rw (fun _ =>
    pr_locked (ns_props n) = false /\
    (pr_worm (ns_props n) = true ->
       match guard with Some key => nskv rw !! (ns_tree n, key) = None | None => True end)).
Proof.
  intros Hn. eapply reads_bind; [by eapply reads_props|]. intros p rw1 Hq1 ->.
  destruct (pr_locked (ns_props n)) eqn:El; [apply reads_err|].
  destruct (pr_worm (ns_props n)) eqn:Ew; [|by apply reads_ret].
  assert (rw_cache rw1 !! ns = Some n) as Hn1 by (by rewrite (quiet_cache _ _ Hq1)).
  eapply (reads_bind _ _ _ (fun b : bool => b = false ->
    match guard with Some key => nskv rw !! (ns_tree n, key) = None | None => True end)).
  - destruct guard as [key|]; [|by apply reads_ret].
    eapply reads_mono; [by eapply reads_exists|]. intros b -> Hb. rewrite (quiet_nskv _ _ Hq1) in Hb.
    apply bool_decide_eq_false in Hb. by apply eq_None_not_Some.
  - intros [|] rw2 _ Hb; [apply reads_err|]. apply reads_ret. split; [done|]. intros _. by apply Hb.
Qed.

(* ------------------------------------------------------------------ *)
(** ** Writes *)

(** The record of a value: its bytes, or the addresses of its chunks. *)
Definition holds (o : Object) (value : bytes) : Prop :=
  o_size o = Z.of_nat (length value) /\
  match o_data o with
  | Inline data => data = value
  | SinglePart blocks => exists chunks, blocks = map (hash_block (cfg_hasher cfg)) chunks /\ concat chunks = value
  | MultiPartData _ _ => False
  end.

Definition addressed (key : bytes) (o : Object) : Prop := exists value, holds o value /\ blake3_hash value = key.

(** A record [o] written under a key, with what it displaced. *)
Definition wrote (bucket key : bytes) (o : Object) m m' : Prop :=
  Object_wf o /\ exists d, replaced bucket key (Object_to_vec o) (o_size o) d m m'.

(** The outcome of a call that writes at most once: [E] relates the database
    before and after the write. *)
Definition writes {A} (m : M RW NsErr A) rw F (E : kvmap -> kvmap -> Prop) : Prop :=
  wp m rw (fun r rw' =>
    winv cfg (rw_world rw') F /\ rw_cache rw' = rw_cache rw /\
    match r with
    | Ok _ => E (nskv rw) (nskv rw')
    | Err _ => nskv rw' = nskv rw \/ E (nskv rw) (nskv rw')
    end).

Lemma writes_after_reads {A B} (m : M RW NsErr A) (k : A -> M RW NsErr B) rw F (P : A -> Prop) (E : kvmap -> kvmap -> Prop) :
  reads m rw P -> winv cfg (rw_world rw) F ->
  (forall a rw', quiet rw rw' -> winv cfg (rw_world rw') F -> P a -> writes (k a) rw' F E) ->
  writes (m ≫= k) rw F E.
Proof.
  unfold writes. intros Hm Hinv Hk. apply wp_bind. apply (reads_use _ _ _ _ Hm).
  - intros a rw' Hq HP. eapply wp_mono; [apply Hk; [done|by eapply quiet_winv|done]|].
    intros r rw2 (Hi & Hc & Hr). split; [done|]. split; [by rewrite Hc, (quiet_cache _ _ Hq)|].
    by rewrite (quiet_nskv _ _ Hq) in Hr.
  - intros e rw' Hq. split; [by eapply quiet_winv|]. split; [by apply quiet_cache|]. left. by apply quiet_nskv.
Qed.

Lemma writes_mono {A} (m : M RW NsErr A) rw F (E E' : kvmap -> kvmap -> Prop) :
  writes m rw F E -> (forall m', E (nskv rw) m' -> E' (nskv rw) m') -> writes m rw F E'.
Proof.
  unfold writes. intros Hm HE. eapply wp_mono; [exact Hm|]. intros [a|e] rw' (Hi & Hc & Hr);
    (split; [done|]); (split; [done|]); [auto|]. destruct Hr; auto.
Qed.

Lemma writes_bind_ret {A B} (m : M RW NsErr A) (f : A -> B) rw F (E : kvmap -> kvmap -> Prop) :
  writes m rw F E -> writes (a ← m; mret (f a)) rw F E.
Proof.
  unfold writes. intros Hm. apply wp_bind. eapply wp_mono; [exact Hm|]. intros [a|e] rw' Hr; [by apply wp_ret|exact Hr].
Qed.

Definition inline_object (now : Z) (value : bytes) : Object :=
  Object_new now (Z.of_nat (length value)) (mkContentHash (md5_digest value)) (Inline value).
Definition value_chunks (value : bytes) : list bytes := (stream_chunks (value_stream value)).1.
Definition blocks_object (now : Z) (value : bytes) : Object :=
  Object_new now (Z.of_nat (length value)) (mkContentHash (md5_digest value))
    (SinglePart (map (hash_block (cfg_hasher cfg)) (value_chunks value))).

Lemma value_chunks_spec value :
  concat (value_chunks value) = value /\ (stream_chunks (value_stream value)).2 = true /\
  (length (value_chunks value) <= length value)%nat.
Proof.
  destruct (chunk_stream_blocks (Z.to_nat BLOCK_SIZE) [value]) as [[Hc Hb] Hok]; [change BLOCK_SIZE with 1048576; lia|].
  change (map Ok [value]) with [Ok value : result IoError bytes] in *. simpl concat in Hc. rewrite app_nil_r in Hc.
  unfold value_chunks, value_stream. set (l := (stream_chunks _).1) in *. split_and!; [done|done|].
  rewrite <- Hc. assert (forall k b, l !! k = Some b -> (1 <= length b)%nat) as Hpos by (intros k b Hk; by apply (Hb k b)).
  clear Hc Hb Hok. clearbody l. induction l as [|b l IH]; simpl; [lia|]. rewrite length_app.
  pose proof (Hpos 0%nat b eq_refl). specialize (IH (fun k => Hpos (Datatypes.S k))). lia.
Qed.

Lemma inline_wf now value : is_i64 now -> Z.of_nat (length value) < 2 ^ 56 -> Object_wf (inline_object now value).
Proof.
  intros Hnow Hl. repeat split; try done; try apply Hnow; try (simpl; int_bounds; lia).
  - apply length_md5_digest.
  - unfold fits. rewrite Object_layout. simpl. rewrite !length_app, length_md5_digest, !length_u64_to_le, length_i64_to_le.
    unfold usize_max. lia.
Qed.

Lemma blocks_wf now value : is_i64 now -> Z.of_nat (length value) < 2 ^ 56 -> Object_wf (blocks_object now value).
Proof.
  intros Hnow Hl. destruct (value_chunks_spec value) as (_ & _ & Hn).
  assert (same_width (map (hash_block (cfg_hasher cfg)) (value_chunks value))) as Hw.
  { exists (Z.to_nat (hasher_width (cfg_hasher cfg))). apply Forall_map. apply Forall_true. intros c. split; [apply hash_block_wf|].
    apply hash_block_width. }
  repeat split; try done; try apply Hnow; try (simpl; int_bounds; lia).
  - apply length_md5_digest.
  - unfold fits. rewrite Object_layout. simpl ObjectData_bytes. rewrite !length_app, length_u64_to_le, length_i64_to_le.
    change (ch_bytes (o_hash (blocks_object now value))) with (md5_digest value). rewrite length_md5_digest.
    assert (Z.of_nat (length (id_list_bytes (map (hash_block (cfg_hasher cfg)) (value_chunks value)))) <= 2 ^ 62) as Hb.
    { rewrite length_id_list_bytes by done. unfold id_list_len. rewrite length_map.
      destruct (value_chunks value) as [|c l]; cbn [map length] in *; [lia|]. rewrite hash_block_width.
      destruct (cfg_hasher cfg); cbn [hasher_width]; unfold WIDTH_16, WIDTH_32; lia. }
    cbn [length]. unfold usize_max. lia.
Qed.

Lemma writes_create now bucket key size hash data rw F :
  let obj := Object_new now size hash data in
  reserved bucket = false -> Object_wf obj -> winv cfg (rw_world rw) (add_refs F (o_blocks obj)) ->
  writes (on_engine (create_object_meta cfg now bucket key size hash data)) rw F (wrote bucket key obj).
Proof.
  intros obj Hres Hwf Hinv. apply wp_on_engine.
  eapply wp_mono; [by apply create_object_meta_spec|]. unfold nskv. intros [o|e] w' [Hi Hr]; cbn [map_err].
  - destruct Hr as (-> & d & Hm & _). split; [done|]. split; [done|]. split; [done|]. by exists d.
  - destruct Hr as (_ & _ & _ & Hm). split; [done|]. split; [done|]. simpl.
    destruct Hm as [Hm|(d & Hm)]; [by left|right]. split; [done|]. by exists d.
Qed.

Lemma writes_inline bucket key value rw F :
  reserved bucket = false -> Object_wf (inline_object (en_now env) value) -> winv cfg (rw_world rw) F ->
  writes (_ ← on_engine (store_inlined_object cfg (en_now env) bucket key value); mret tt) rw F
    (wrote bucket key (inline_object (en_now env) value)).
Proof.
  intros Hres Hwf Hinv. apply (writes_bind_ret _ (fun _ => tt)). apply writes_create; [done|done|].
  eapply inv_mono; [|exact Hinv]. intros i. unfold add_refs. simpl. lia.
Qed.

(** What a write that the namespace admits has passed. *)
Definition unlocked n : Prop := pr_locked (ns_props n) = false.

(** SET in a user-keyed namespace. *)
Definition set_effect n key value m m' : Prop :=
  unlocked n /\ (pr_worm (ns_props n) = true -> m !! (ns_tree n, key) = None) /\
  (pr_max_size (ns_props n) = None \/
   exists o, found m (ns_tree n) key o /\ within_quota m (ns_props n) (Z.of_nat (length value)) (old_size o)) /\
  wrote (pr_namespace_name (ns_props n)) key (inline_object (en_now env) value) m m'.

Lemma ns_set_spec ns key value rw n F :
  rw_cache rw !! ns = Some n -> reserved (pr_namespace_name (ns_props n)) = false ->
  Object_wf (inline_object (en_now env) value) -> winv cfg (rw_world rw) F ->
  writes (ns_set rcfg env ns key value) rw F (set_effect n key value).
Proof.
  intros Hn Hres Hwf Hinv.
  eapply writes_after_reads; [by eapply reads_writable|done|]. intros u1 rw1 Hq1 Hinv1 [Hl Hw].
  assert (rw_cache rw1 !! ns = Some n) as Hn1 by (by rewrite (quiet_cache _ _ Hq1)).
  eapply writes_after_reads; [by eapply reads_quota|done|]. intros u2 rw2 Hq2 Hinv2 Hquota.
  assert (rw_cache rw2 !! ns = Some n) as Hn2 by (by rewrite (quiet_cache _ _ Hq2)).
  eapply writes_after_reads; [by eapply reads_name|done|]. intros b rw3 Hq3 Hinv3 ->.
  eapply writes_mono; [by apply writes_inline|]. intros m' Hwr. unfold set_effect.
  rewrite (quiet_nskv _ _ Hq3), (quiet_nskv _ _ Hq2) in *. split_and!; [done| |done|done].
  intros Hworm. rewrite (quiet_nskv _ _ Hq1). by apply Hw.
Qed.

(** The write that materializes a value under its address. *)
Definition store_effect n key value m m' : Prop :=
  unlocked n /\ within_quota m (ns_props n) (Z.of_nat (length value)) 0 /\
  exists o, holds o value /\ wrote (pr_namespace_name (ns_props n)) key o m m'.

Lemma inline_holds now value : holds (inline_object now value) value.
Proof. done. Qed.
Lemma blocks_holds now value : holds (blocks_object now value) value.
Proof. split; [done|]. exists (value_chunks value). split; [done|]. apply value_chunks_spec. Qed.

#[local] Opaque value_stream.

Context (Hcfg : aw_tmp (cfg_writer cfg) = blocks_root cfg ++ [TMP_DIR_NAME]).

Lemma store_verified_spec ns key value rw n F :
  rw_cache rw !! ns = Some n -> reserved (pr_namespace_name (ns_props n)) = false ->
  is_i64 (en_now env) -> Z.of_nat (length value) < 2 ^ 56 -> budget cfg (rw_world rw) (value_chunks value) ->
  winv cfg (rw_world rw) F ->
  writes (store_verified rcfg env ns key value) rw F (store_effect n key value).
Proof.
  intros Hn Hres Hnow Hlen Hbg Hinv.
  eapply writes_after_reads; [by eapply reads_writable|done|]. intros u1 rw1 Hq1 Hinv1 [Hl _].
  assert (rw_cache rw1 !! ns = Some n) as Hn1 by (by rewrite (quiet_cache _ _ Hq1)).
  eapply writes_after_reads; [by eapply reads_room_for|done|]. intros u2 rw2 Hq2 Hinv2 Hquota.
  assert (rw_cache rw2 !! ns = Some n) as Hn2 by (by rewrite (quiet_cache _ _ Hq2)).
  eapply writes_after_reads; [by eapply reads_name|done|]. intros b rw3 Hq3 Hinv3 ->.
  assert (quiet rw rw3) as Hq by (by repeat (etrans; [eassumption|])).
  assert (within_quota (nskv rw3) (ns_props n) (Z.of_nat (length value)) 0) as Hquota3.
  { by rewrite (quiet_nskv _ _ Hq3), (quiet_nskv _ _ Hq2). }
  destruct (_ <=? _).
  { eapply writes_mono; [apply writes_inline; [done|by apply inline_wf|done]|]. intros m' Hwr.
    split_and!; [done|done|]. exists (inline_object (en_now env) value). split; [apply inline_holds|done]. }
  assert (budget cfg (rw_world rw3) (value_chunks value)) as Hbg3.
  { destruct Hq as (_ & Hs & Hd & _). destruct Hbg as [Hb1 Hb2 Hb3]. split; [unfold wnonce in *; by rewrite Hd|done|].
    intros i Hi. rewrite Hs. by apply Hb3. }
  unfold writes. apply wp_bind, wp_on_engine.
  pose proof (store_object_spec cfg Hcfg (value_stream value) (rw_world rw3) F Hbg3 Hinv3) as Hso.
  destruct (value_chunks_spec value) as (Hcat & _).
  eapply wp_mono; [exact Hso|]. fold (value_chunks value).
  intros [[[blocks hash] size]|e] w1 Hr; cbn [map_err].
  - destruct Hr as (_ & -> & -> & -> & Hns & _ & Hinv4). rewrite Hcat.
    pose proof (writes_create (en_now env) (pr_namespace_name (ns_props n)) key (Z.of_nat (length value))
      (mkContentHash (md5_digest value)) (SinglePart (map (hash_block (cfg_hasher cfg)) (value_chunks value)))
      (mkRespWorld w1 (rw_cache rw3)) F Hres (blocks_wf (en_now env) value Hnow Hlen) Hinv4) as Hc.
    pose proof (writes_bind_ret _ (fun _ : Object => tt) _ _ _ Hc) as Hc2. unfold writes in Hc2.
    eapply wp_mono; [exact Hc2|]. unfold nskv. intros r rw4 (Hi4 & Hca & Hr). simpl in Hca, Hr. rewrite Hns in Hr.
    assert (forall m', wrote (pr_namespace_name (ns_props n)) key (blocks_object (en_now env) value) (nskv rw3) m' ->
      store_effect n key value (nskv rw3) m') as Hst.
    { intros m' Hwr. split_and!; [done|done|]. exists (blocks_object (en_now env) value). split; [apply blocks_holds|done]. }
    split; [done|]. split; [done|]. destruct r; [by apply Hst|]. destruct Hr as [Hr|Hr]; [by left|right; by apply Hst].
  - destruct Hr as (_ & Hi & Hns & _). split_and!; [done|done|by left].
Qed.

(** DEL. *)
Definition del_effect n key m m' : Prop :=
  unlocked n /\ pr_worm (ns_props n) = false /\ exists d, taken (pr_namespace_name (ns_props n)) key d m m'.

Lemma ns_del_spec ns key rw n F :
  rw_cache rw !! ns = Some n -> reserved (pr_namespace_name (ns_props n)) = false -> winv cfg (rw_world rw) F ->
  writes (ns_del rcfg ns key) rw F (del_effect n key).
Proof.
  intros Hn Hres Hinv.
  eapply writes_after_reads; [by eapply reads_props|done|]. intros p rw1 Hq1 Hinv1 ->.
  assert (rw_cache rw1 !! ns = Some n) as Hn1 by (by rewrite (quiet_cache _ _ Hq1)).
  destruct (pr_locked (ns_props n)) eqn:El; [apply wp_err; by auto|].
  destruct (pr_worm (ns_props n)) eqn:Ew; [apply wp_err; by auto|].
  eapply writes_after_reads; [by eapply reads_name|done|]. intros b rw2 Hq2 Hinv2 ->.
  apply wp_on_engine. eapply wp_mono; [by apply delete_object_spec|]. unfold nskv.
  intros [gone|e] w' [Hi Hr]; cbn [map_err]; (split; [done|]); (split; [done|]).
  - destruct Hr as (d & (Hm & _) & _). split_and!; [done|done|]. by exists d.
  - destruct Hr as (_ & _ & _ & [Hm|(d & Hm)]); [by left|right]. split_and!; [done|done|]. by exists d.
Qed.

(* ------------------------------------------------------------------ *)
(** ** Clones and ingest *)

Definition copy_of (o : Object) : Object := Object_new (en_now env) (o_size o) (o_hash o) (o_data o).

Definition clone_effect n key m m' : Prop :=
  exists source o, cas_ns m source /\ source <> pr_namespace_name (ns_props n) /\ found m source key (Some o) /\
    within_quota m (ns_props n) (o_size o) 0 /\ wrote (pr_namespace_name (ns_props n)) key (copy_of o) m m'.

(** What a copy of the records under [key] needs: they can be encoded again,
    and no reference count is near its limit. *)
Definition copyable m key : Prop :=
  forall b o, cas_ns m b -> found m b key (Some o) -> Object_wf (copy_of o) /\ Z.of_nat (length (o_blocks o)) <= 2 ^ 32.
Definition rc_cap rw (z : Z) : Prop := forall i, BlockId_wf i -> rc_of (kv (w_shared (rw_world rw))) i <= z.

Lemma found_fun m b k o o' : found m b k o -> found m b k o' -> o = o'.
Proof.
  destruct o as [o|], o' as [o'|]; simpl; [|intros (? & ? & _) ?; congruence|intros ? (? & ? & _); congruence|done].
  intros (raw & Hr & Ho) (raw' & Hr' & Ho'). congruence.
Qed.

Definition clone_loop_post n key rw F (k : Z) (r : result NsErr bool) rw' : Prop :=
  winv cfg (rw_world rw') F /\ rw_cache rw' = rw_cache rw /\
  match r with
  | Ok true => clone_effect n key (nskv rw) (nskv rw')
  | Ok false => nskv rw' = nskv rw /\ wnonce (rw_world rw') = wnonce (rw_world rw) /\ rc_cap rw' (2 ^ 62 + 2 ^ 32 * k)
  | Err _ => nskv rw' = nskv rw \/ clone_effect n key (nskv rw) (nskv rw')
  end.

Lemma clone_from_spec ns key n F sources : forall rw k,
  rw_cache rw !! ns = Some n -> reserved (pr_namespace_name (ns_props n)) = false ->
  Forall (cas_ns (nskv rw)) sources -> copyable (nskv rw) key ->
  0 <= k -> k + Z.of_nat (length sources) <= 2 ^ 24 -> rc_cap rw (2 ^ 62 + 2 ^ 32 * k) ->
  winv cfg (rw_world rw) F ->
  wp (clone_from rcfg env ns key sources) rw (clone_loop_post n key rw F (k + Z.of_nat (length sources))).
Proof.
  induction sources as [|source sources IH]; intros rw k Hn Hres Hcas Hcopy Hk0 Hk Hcap Hinv.
  { apply wp_ret. split_and!; try done. simpl. by rewrite Z.add_0_r. }
  apply Forall_cons in Hcas as [Hsrc Hcas]. cbn [length] in Hk. rewrite Nat2Z.inj_succ in Hk.
  (* The rest of the loop, from a world in which nothing was written. *)
  assert (forall rw1, nskv rw1 = nskv rw -> rw_cache rw1 = rw_cache rw -> wnonce (rw_world rw1) = wnonce (rw_world rw) ->
    rc_cap rw1 (2 ^ 62 + 2 ^ 32 * (k + 1)) -> winv cfg (rw_world rw1) F ->
    wp (clone_from rcfg env ns key sources) rw1
      (clone_loop_post n key rw F (k + Z.of_nat (length (source :: sources))))) as Hnext.
  { intros rw1 Hm Hc Hnn Hcap1 Hinv1. eapply wp_mono; [apply (IH rw1 (k + 1)); rewrite ?Hm, ?Hc; try done; lia|].
    unfold clone_loop_post. rewrite Hm, Hc, Hnn. cbn [length]. rewrite Nat2Z.inj_succ.
    intros r rw2. by replace (k + 1 + Z.of_nat (length sources)) with (k + Z.succ (Z.of_nat (length sources))) by lia. }
  assert (forall rw1, quiet rw rw1 -> wp (clone_from rcfg env ns key sources) rw1
      (clone_loop_post n key rw F (k + Z.of_nat (length (source :: sources))))) as Hskip.
  { intros rw1 Hq. apply Hnext; [by apply quiet_nskv|by apply quiet_cache| | |by eapply quiet_winv].
    - destruct Hq as (_ & _ & Hd & _). unfold wnonce. by rewrite Hd.
    - intros i Hi. destruct Hq as (_ & Hs & _). rewrite Hs. specialize (Hcap i Hi). lia. }
  assert (forall e rw1, quiet rw rw1 -> clone_loop_post n key rw F (k + Z.of_nat (length (source :: sources))) (Err e) rw1) as Hfail.
  { intros e rw1 Hq. split_and!; [by eapply quiet_winv|by apply quiet_cache|left; by apply quiet_nskv]. }
  cbn [clone_from]. apply wp_bind. eapply reads_use; [by eapply reads_name| |auto]. intros b rw1 Hq1 ->.
  case_decide as Hne; [by apply Hskip|].
  apply wp_bind. eapply reads_use; [apply reads_namespace| |intros; apply Hfail; by etrans].
  intros t rw2 Hq2 ->. assert (quiet rw rw2) as Hq02 by (by etrans).
  apply wp_bind. eapply reads_use; [apply reads_contains| |intros; apply Hfail; by etrans].
  intros b rw3 Hq3 Hb. assert (quiet rw rw3) as Hq03 by (by etrans). rewrite (quiet_nskv _ _ Hq02) in Hb.
  destruct b; cbn [negb]; [|by apply Hskip].
  apply wp_bind. eapply reads_use; [eapply reads_props; by rewrite (quiet_cache _ _ Hq03)| |intros; apply Hfail; by etrans].
  intros p rw4 Hq4 ->. assert (quiet rw rw4) as Hq04 by (by etrans).
  apply wp_bind. eapply (reads_use _ _ (fun _ => forall o, found (nskv rw) source key (Some o) ->
    within_quota (nskv rw) (ns_props n) (o_size o) 0)); [| |intros; apply Hfail; by etrans].
  { destruct (pr_max_size (ns_props n)) as [limit|] eqn:El.
    2: { apply reads_ret. intros o _. unfold within_quota. by rewrite El. }
    eapply (reads_bind _ _ _ (found (nskv rw) source key)).
    - apply reads_meta. eapply wp_mono; [apply get_meta_spec|]. fold (nskv rw4). rewrite (quiet_nskv _ _ Hq04).
      intros [[o|]|e] s' [Hks Hr]; by split.
    - intros o rw5 Hq5 Ho. assert (quiet rw rw5) as Hq05 by (by etrans).
      eapply reads_mono; [eapply reads_room_for; by rewrite (quiet_cache _ _ Hq05)|].
      intros u Hu o' Ho'. pose proof (found_fun _ _ _ _ _ Ho Ho') as ->. by rewrite (quiet_nskv _ _ Hq05) in Hu. }
  intros u rw5 Hq5 Hquota. assert (quiet rw rw5) as Hq05 by (by etrans).
  apply wp_bind, wp_on_engine. pose proof (quiet_nskv _ _ Hq05) as Hm5. unfold nskv in Hm5 at 1.
  eapply wp_mono; [apply (clone_spec cfg (en_now env) source key (pr_namespace_name (ns_props n)) key (rw_world rw5) F Hres)|].
  { by eapply quiet_winv. }
  { rewrite Hm5. intros o Ho. destruct (Hcopy source o Hsrc Ho) as [Hwf Hlen]. split; [exact Hwf|].
    intros i Hi. destruct Hq05 as (_ & Hs & _). rewrite Hs. specialize (Hcap i Hi).
    pose proof (occ_length i (o_blocks o)). unfold usize_max. lia. }
  unfold clone_post. rewrite Hm5. intros [[o|]|e] w' (Hi' & Hn' & Hr); cbn [map_err].
  - apply wp_ret. split; [done|]. split; [exact (quiet_cache _ _ Hq05)|].
    destruct Hr as (so & d & Hf & -> & Hrep). exists source, so. split_and!; [done|done|done|by apply Hquota|].
    split; [exact (proj1 (Hcopy source so Hsrc Hf))|by exists d].
  - destruct Hr as (Hns & so & Hf & Hrc). apply Hnext; [exact Hns|exact (quiet_cache _ _ Hq05)| | |done].
    + simpl. destruct Hq05 as (_ & _ & Hd & _). unfold wnonce in *. by rewrite Hn', Hd.
    + intros i Hi. specialize (Hrc i Hi). specialize (Hcap i Hi). simpl. destruct Hq05 as (_ & Hs & _). rewrite Hs in Hrc.
      destruct so as [so|]; simpl in Hrc; [|lia]. destruct (Hcopy source so Hsrc Hf) as [_ Hlen].
      pose proof (occ_length i (o_blocks so)). lia.
  - split; [done|]. split; [exact (quiet_cache _ _ Hq05)|]. destruct Hr as [_ [Hns|(so & d & Hf & Hrep)]]; [by left|right].
    exists source, so. split_and!; [done|done|done|by apply Hquota|]. split; [exact (proj1 (Hcopy source so Hsrc Hf))|by exists d].
Qed.

(** What a request needs of the store to be carried out: counters away from
    their limits, and records that can be copied. *)
Record roomy rw (key value : bytes) : Prop := mkRoomy {
  ry_now : is_i64 (en_now env);
  ry_len : Z.of_nat (length value) < 2 ^ 56;
  ry_nonce : 0 <= wnonce (rw_world rw) /\
    wnonce (rw_world rw) + 2 * Z.of_nat (length (value_chunks value)) <= u64_max;
  ry_rc : rc_cap rw (2 ^ 62);
  ry_fuel : Z.of_nat (en_fuel env) <= 2 ^ 24;
  ry_copy : copyable (nskv rw) key
}.

Lemma quiet_roomy rw rw' key value : quiet rw rw' -> roomy rw key value -> roomy rw' key value.
Proof.
  intros Hq [? ? Hn Hr ? Hc]. split; try done.
  - destruct Hq as (_ & _ & Hd & _). unfold wnonce in *. by rewrite Hd.
  - destruct Hq as (_ & Hs & _). intros i Hi. rewrite Hs. by apply Hr.
  - by rewrite (quiet_nskv _ _ Hq).
Qed.

Definition ingest_key (mode : Ingest) (value : bytes) : bytes :=
  match mode with ServerHashed => value_key value | ClientHashed claimed => claimed end.

Definition ingest_effect n mode value m m' : Prop :=
  let key := ingest_key mode value in
  m !! (ns_tree n, key) = None /\
  (clone_effect n key m m' \/ value_key value = key /\ store_effect n key value m m').

Definition ingest_post n mode value rw F (r : result NsErr bytes) rw' : Prop :=
  winv cfg (rw_world rw') F /\ rw_cache rw' = rw_cache rw /\
  match r with
  | Ok key => key = ingest_key mode value /\ length key = CAS_KEY_LEN /\
      (nskv rw' = nskv rw /\ is_Some (nskv rw !! (ns_tree n, key)) \/ ingest_effect n mode value (nskv rw) (nskv rw'))
  | Err _ => nskv rw' = nskv rw \/ ingest_effect n mode value (nskv rw) (nskv rw')
  end.

Lemma ingest_spec ns mode value rw n F :
  rw_cache rw !! ns = Some n -> reserved (pr_namespace_name (ns_props n)) = false -> rows_ok (nskv rw) ->
  roomy rw (ingest_key mode value) value -> winv cfg (rw_world rw) F ->
  wp (ingest rcfg env ns mode value) rw (ingest_post n mode value rw F).
Proof.
  intros Hn Hres Hrows Hroom Hinv. set (key := ingest_key mode value) in *.
  assert (forall e rw1, quiet rw rw1 -> ingest_post n mode value rw F (Err e) rw1) as Hfail.
  { intros e rw1 Hq. split; [by eapply quiet_winv|]. split; [by apply quiet_cache|]. left. by apply quiet_nskv. }
  unfold ingest. apply wp_bind. eapply (reads_use _ _ (fun k => k = key /\ length k = CAS_KEY_LEN)); [| |auto].
  { destruct mode as [|claimed]; [apply reads_ret; split; [done|apply length_blake3_hash]|].
    destruct (Nat.eqb_spec (length claimed) CAS_KEY_LEN); [by apply reads_ret|apply reads_err]. }
  intros k rw1 Hq1 [-> Hlen].
  apply wp_bind. eapply reads_use; [eapply reads_exists; by rewrite (quiet_cache _ _ Hq1)| |intros; apply Hfail; by etrans].
  intros b rw2 Hq2 Hb. rewrite (quiet_nskv _ _ Hq1) in Hb. assert (quiet rw rw2) as Hq02 by (by etrans).
  destruct b.
  { apply wp_ret. split; [by eapply quiet_winv|]. split; [by apply quiet_cache|]. split; [done|]. split; [done|]. left.
    split; [by apply quiet_nskv|]. symmetry in Hb. by apply bool_decide_eq_true in Hb. }
  symmetry in Hb. apply bool_decide_eq_false in Hb. apply eq_None_not_Some in Hb.
  apply wp_bind. unfold clone_from_another_namespace. apply wp_bind.
  eapply reads_use; [apply reads_cas_namespaces; by rewrite (quiet_nskv _ _ Hq02)| |intros; apply Hfail; by etrans].
  intros sources rw3 Hq3 [Hls Hcas]. rewrite (quiet_nskv _ _ Hq02) in Hcas. assert (quiet rw rw3) as Hq03 by (by etrans).
  pose proof (quiet_roomy _ _ _ _ Hq03 Hroom) as [Hnow Hvl Hnonce Hrc Hfuel Hcopy].
  rewrite (quiet_nskv _ _ Hq03) in Hcopy.
  assert (wp (clone_from rcfg env ns key sources) rw3 (clone_loop_post n key rw3 F (0 + Z.of_nat (length sources)))) as Hloop.
  { apply clone_from_spec; rewrite ?(quiet_nskv _ _ Hq03), ?(quiet_cache _ _ Hq03); try done; [lia|by eapply quiet_winv]. }
  eapply wp_mono; [exact Hloop|].
  unfold clone_loop_post. rewrite (quiet_nskv _ _ Hq03), (quiet_cache _ _ Hq03).
  intros [[|]|e] rw4 (Hinv4 & Hc4 & Hr); cbn beta iota.
  - apply wp_ret. split; [done|]. split; [done|]. split; [done|]. split; [done|]. right. by split; [|left].
  - destruct Hr as (Hm4 & Hn4 & Hcap4).
    apply wp_bind. eapply (reads_use _ _ (fun _ => value_key value = key)).
    { destruct mode as [|claimed]; [by apply reads_ret|]. cbn zeta.
      case_decide; [by apply reads_ret|apply reads_err]. }
    2: { intros e rw5 Hq5. split; [by eapply quiet_winv|]. split; [rewrite (quiet_cache _ _ Hq5); done|].
         left. by rewrite (quiet_nskv _ _ Hq5). }
    intros u rw5 Hq5 Hkey.
    apply wp_bind. eapply wp_mono; [apply (store_verified_spec ns key value rw5 n F); try done|].
    + rewrite (quiet_cache _ _ Hq5), Hc4. done.
    + destruct (value_chunks_spec value) as (Hcat & _ & Hcl).
      split; [unfold wnonce in *; destruct Hq5 as (_ & _ & Hd & _); rewrite Hd, Hn4; done|rewrite Hcat; unfold u64_max; lia|].
      intros i Hi. destruct Hq5 as (_ & Hs & _). rewrite Hs. specialize (Hcap4 i Hi).
      pose proof (occ_length i (map (hash_block (cfg_hasher cfg)) (value_chunks value))) as Ho. rewrite length_map in Ho.
      unfold usize_max. lia.
    + by eapply quiet_winv.
    + rewrite (quiet_nskv _ _ Hq5), (quiet_cache _ _ Hq5), Hm4, Hc4.
      intros [u'|e] rw6 (Hi6 & Hc6 & Hr6); cbn beta iota; [apply wp_ret|]; (split; [done|]); (split; [done|]).
      * split; [done|]. split; [done|]. right. split; [done|]. by right.
      * destruct Hr6 as [Hr6|Hr6]; [by left|]. right. split; [done|]. by right.
  - split; [done|]. split; [done|]. destruct Hr as [Hr|Hr]; [by left|]. right. split; [done|]. by left.
Qed.
End Keys.
