(* ===== verification/NsInvariant.v ===== *)
(** The invariant of a respcas store: in a content-addressed namespace every
    record is filed under the hash of its value, the namespace list is well
    formed, and the cached namespaces know their key mode.  Each write that
    the operations of NsSpecs.v make preserves it. *)

From S2P Require Import Prelude Bytes Resp Externals BlockIds Codec Records StoreHeader MetaStore Commands Disk BlockStream Placement MetaOps Accounting Engine BatchSpecs WriteSpecs Chunking Namespaces Handlers ObjectSpecs NsSpecs.
From Stdlib Require Import Strings.Byte.
Local Open Scope Z_scope.
#[local] Set Warnings "-clear-no-such-hyp,-register-all".

Section Invariant.
Context {S T D : Type} `{StoreLaws S T, DiskLaws D, Blake3Laws, Md5Laws, FasterHexLaws, MsgpackLaws}.
Context (rcfg : RespCfg).
Abbreviation cfg := (rc_engine rcfg).
Abbreviation RW := (RespWorld S D).
Implicit Types (rw : RW) (m : kvmap) (n : Namespace) (F : BlockId -> nat).

(** Every record of a content-addressed namespace is under its address. *)
Definition content_ok m : Prop :=
  forall name key o, cas_ns m name -> found m name key (Some o) -> addressed rcfg key o.

(** A cached namespace is its own tree, and content-addressed if its record
    says so. *)
Definition cache_ok m (c : gmap bytes Namespace) : Prop :=
  forall name n, c !! name = Some n ->
    pr_namespace_name (ns_props n) = name /\ ns_tree n = name /\ (cas_ns m name -> pr_key_mode (ns_props n) = Cas).

Record RInv rw F : Prop := mkRInv {
  ri_winv : winv cfg (rw_world rw) F;
  ri_rows : rows_ok (nskv rw);
  ri_content : content_ok (nskv rw);
  ri_cache : cache_ok (nskv rw) (rw_cache rw)
}.

Lemma quiet_RInv rw rw' F : quiet rw rw' -> RInv rw F -> RInv rw' F.
Proof.
  intros Hq [Hw Hr Hc Hca]. split; [by eapply quiet_winv|..]; by rewrite ?(quiet_cache _ _ Hq), (quiet_nskv _ _ Hq).
Qed.

(* ------------------------------------------------------------------ *)
(** * Writes that leave the list alone *)

Lemma cas_unreserved m name : rows_ok m -> cas_ns m name -> reserved name = false.
Proof.
  intros Hrows (meta & Hm & _). unfold meta_of in Hm.
  destruct (m !! (DEFAULT_BUCKET_TREE, name)) as [raw|] eqn:E; [|done]. by destruct (Hrows _ _ E).
Qed.

(** The same list. *)
Definition same_list m m' : Prop := forall name, m' !! (DEFAULT_BUCKET_TREE, name) = m !! (DEFAULT_BUCKET_TREE, name).

Lemma same_list_meta m m' name : same_list m m' -> meta_of m' name = meta_of m name.
Proof. intros Hl. unfold meta_of. by rewrite Hl. Qed.
Lemma same_list_cas m m' name : same_list m m' -> cas_ns m' name <-> cas_ns m name.
Proof. intros Hl. unfold cas_ns. by rewrite (same_list_meta _ _ _ Hl). Qed.
Lemma same_list_rows m m' : same_list m m' -> rows_ok m -> rows_ok m'.
Proof. intros Hl Hr name raw. rewrite Hl. apply Hr. Qed.
Lemma same_list_cache m m' c : same_list m m' -> cache_ok m c -> cache_ok m' c.
Proof.
  intros Hl Hc name n Hn. destruct (Hc name n Hn) as (? & ? & Hm). split_and!; [done|done|].
  by rewrite (same_list_cas _ _ _ Hl).
Qed.

(** Keys of a reserved tree and of a namespace's are apart. *)
Lemma key_ne (t name k k' : bytes) : reserved t = true -> reserved name = false -> (t, k) <> (name, k').
Proof. intros Ht Hn E. injection E as E _. congruence. Qed.
Lemma key_ne' (t name k k' : bytes) : reserved t = true -> reserved name = false -> (name, k') <> (t, k).
Proof. intros Ht Hn E. injection E as E _. congruence. Qed.

(** The records of the content-addressed namespaces after such a write. *)
Lemma content_step m m' :
  same_list m m' -> rows_ok m -> content_ok m ->
  (forall name key o, cas_ns m name -> reserved name = false -> found m' name key (Some o) ->
     found m name key (Some o) \/ addressed rcfg key o) ->
  content_ok m'.
Proof.
  intros Hl Hrows Hc Hstep name key o Hcas Hf. rewrite (same_list_cas _ _ _ Hl) in Hcas.
  destruct (Hstep name key o Hcas (cas_unreserved _ _ Hrows Hcas) Hf) as [Hold|]; [|done]. by apply (Hc name).
Qed.

Lemma wrote_step bucket key o m m' :
  reserved bucket = false -> rows_ok m -> content_ok m -> wrote bucket key o m m' ->
  (cas_ns m bucket -> addressed rcfg key o) ->
  same_list m m' /\ content_ok m'.
Proof.
  intros Hres Hrows Hc (Hwf & d & Hd & current & _ & ->) Ho.
  assert (same_list m (<[(DEFAULT_USAGE_TREE, bucket) :=
    u64_to_le (usage_after current (as_i64 (as_i64 (o_size o) - as_i64 (old_size d))))]> (<[(bucket, key) := Object_to_vec o]> m))) as Hl.
  { intros name. rewrite lookup_insert_ne by done. by rewrite lookup_insert_ne by (by apply key_ne'). }
  split; [done|]. apply (content_step m); [done|done|done|].
  intros name k o' Hcas Hn (raw & Hraw & Ho'). rewrite lookup_insert_ne in Hraw by (by apply key_ne).
  destruct (decide ((bucket, key) = (name, k))) as [[= <- <-]|Hne].
  - rewrite lookup_insert_eq in Hraw. injection Hraw as <-. rewrite Object_roundtrip in Ho' by done.
    injection Ho' as <-. right. by apply Ho.
  - rewrite lookup_insert_ne in Hraw by done. left. by exists raw.
Qed.

Lemma taken_step bucket key d m m' :
  reserved bucket = false -> rows_ok m -> content_ok m -> taken bucket key d m m' ->
  same_list m m' /\ content_ok m'.
Proof.
  intros Hres Hrows Hc [Hf Hm]. destruct d as [o|]; [|subst m'; done].
  destruct Hm as (current & _ & ->).
  match goal with |- same_list m ?x /\ _ => assert (same_list m x) as Hl end.
  { intros name. rewrite lookup_insert_ne by done. by rewrite lookup_delete_ne by (by apply key_ne'). }
  split; [done|]. apply (content_step m); [done|done|done|].
  intros name k o' Hcas Hn (raw & Hraw & Ho'). rewrite lookup_insert_ne in Hraw by (by apply key_ne).
  apply lookup_delete_Some in Hraw as [_ Hraw]. left. by exists raw.
Qed.

Lemma usage_step m b v : rows_ok m -> content_ok m ->
  same_list m (<[(DEFAULT_USAGE_TREE, b) := v]> m) /\ content_ok (<[(DEFAULT_USAGE_TREE, b) := v]> m).
Proof.
  intros Hrows Hc. assert (same_list m (<[(DEFAULT_USAGE_TREE, b) := v]> m)) as Hl.
  { intros name. by rewrite lookup_insert_ne. }
  split; [done|]. apply (content_step m); [done|done|done|].
  intros name k o Hcas Hn (raw & Hraw & Ho). rewrite lookup_insert_ne in Hraw by (by apply key_ne).
  left. by exists raw.
Qed.

Lemma header_step m k v : rows_ok m -> content_ok m ->
  same_list m (<[(STORE_HEADER_TREE, k) := v]> m) /\ content_ok (<[(STORE_HEADER_TREE, k) := v]> m).
Proof.
  intros Hrows Hc. assert (same_list m (<[(STORE_HEADER_TREE, k) := v]> m)) as Hl.
  { intros name. by rewrite lookup_insert_ne. }
  split; [done|]. apply (content_step m); [done|done|done|].
  intros name k' o Hcas Hn (raw & Hraw & Ho). rewrite lookup_insert_ne in Hraw by (by apply key_ne).
  left. by exists raw.
Qed.

(* ------------------------------------------------------------------ *)
(** * Writes of the list *)

(** The record of one namespace is written: its key mode may become [Cas]
    only while what it holds is under its addresses. *)
Lemma row_step m name meta raw :
  rows_ok m -> content_ok m -> from_msgpack raw = Ok meta -> nm_name meta = name -> reserved name = false ->
  (nm_key_mode meta = Cas -> forall key o, found m name key (Some o) -> addressed rcfg key o) ->
  let m' := <[(DEFAULT_BUCKET_TREE, name) := raw]> m in
  rows_ok m' /\ content_ok m' /\ meta_of m' name = Some meta /\
  forall other, other <> name -> meta_of m' other = meta_of m other.
Proof.
  intros Hrows Hc Hraw Hname Hres Hmode m'.
  assert (meta_of m' name = Some meta) as Hme.
  { unfold meta_of, m'. rewrite lookup_insert_eq. simpl. by rewrite Hraw. }
  assert (forall other, other <> name -> meta_of m' other = meta_of m other) as Hother.
  { intros other Hne. unfold meta_of, m'. rewrite lookup_insert_ne; [done|]. intros E. injection E as E. done. }
  assert (forall b key o, reserved b = false -> found m' b key (Some o) -> found m b key (Some o)) as Hfound.
  { intros b key o Hb (r & Hr & Ho). unfold m' in Hr. rewrite lookup_insert_ne in Hr by (by apply key_ne). by exists r. }
  split_and!; [| |done|done].
  - intros other r Hr. unfold m' in Hr. destruct (decide (other = name)) as [->|Hne].
    + rewrite lookup_insert_eq in Hr. injection Hr as <-. split; [done|]. by exists meta.
    + rewrite lookup_insert_ne in Hr by (intros E; injection E as E; congruence). by apply Hrows.
  - intros b key o Hcas Hf. destruct (decide (b = name)) as [->|Hne].
    + apply Hfound in Hf; [|done]. destruct Hcas as (meta' & Hm' & Hk'). rewrite Hme in Hm'. injection Hm' as <-.
      by apply (Hmode Hk').
    + assert (cas_ns m b) as Hcas' by (destruct Hcas as (me & Hme' & Hk); exists me; by rewrite <- Hother).
      apply (Hc b); [done|]. apply Hfound; [|done]. by eapply cas_unreserved.
Qed.

(** A namespace's row, counter and tree are removed. *)
Lemma sub_step m m' :
  rows_ok m -> content_ok m ->
  (forall p v, m' !! p = Some v -> m !! p = Some v) -> rows_ok m' /\ content_ok m'.
Proof.
  intros Hrows Hc Hsub. split.
  - intros name raw Hr. by apply Hrows, Hsub.
  - intros name key o (meta & Hm & Hk) (raw & Hr & Ho). apply (Hc name).
    + exists meta. split; [|done]. unfold meta_of in *. destruct (m' !! (DEFAULT_BUCKET_TREE, name)) as [r|] eqn:E; [|done].
      by rewrite (Hsub _ _ E).
    + exists raw. split; [by apply Hsub|done].
Qed.
End Invariant.
