(* ===== verification/NsAdmin.v ===== *)
(** What the administrative operations leave of a namespace store
    (respcas/src/storage.rs, namespace.rs): creation, the metadata record, the
    key mode, the usage ledger and FLUSH, each with the part of the invariant
    of NsInvariant.v it keeps on every branch, failures included. *)

From S2P Require Import Prelude Bytes Resp Externals BlockIds Codec Records StoreHeader MetaStore Commands Disk BlockStream Placement MetaOps Accounting Engine BatchSpecs WriteSpecs Chunking Namespaces Handlers ObjectSpecs NsSpecs NsInvariant.
From Stdlib Require Import Strings.Byte.
Local Open Scope Z_scope.
#[local] Set Warnings "-clear-no-such-hyp,-register-all".

Section Admin.
Context {S T D : Type} `{StoreLaws S T, DiskLaws D, Blake3Laws, Md5Laws, FasterHexLaws, MsgpackLaws}.
Context (rcfg : RespCfg) (env : Env).
Abbreviation cfg := (rc_engine rcfg).
Abbreviation RW := (RespWorld S D).
Abbreviation NM := (M RW NsErr).
Implicit Types (rw : RW) (m : kvmap) (n : Namespace) (F : BlockId -> nat).

(** The invariant without the cache. *)
Record Stored rw F : Prop := mkStored {
  st_winv : winv cfg (rw_world rw) F;
  st_rows : rows_ok (nskv rw);
  st_content : content_ok rcfg (nskv rw)
}.

Lemma RInv_stored rw F : RInv rcfg rw F <-> Stored rw F /\ cache_ok (nskv rw) (rw_cache rw).
Proof.
  split; [intros [Hw Hr Hc Hca]; split; [by split|done]|intros [[Hw Hr Hc] Hca]; by split].
Qed.

Lemma quiet_stored rw rw' F : quiet rw rw' -> Stored rw F -> Stored rw' F.
Proof. intros Hq [Hw Hr Hc]. split; [by eapply quiet_winv|..]; by rewrite (quiet_nskv _ _ Hq). Qed.

Lemma same_stored rw rw' F :
  nskv rw' = nskv rw /\ kv (w_shared (rw_world rw')) = kv (w_shared (rw_world rw)) /\
  w_disk (rw_world rw') = w_disk (rw_world rw) -> Stored rw F -> Stored rw' F.
Proof.
  intros (Hn & Hs & Hd) [Hw Hr Hc]. split; [|by rewrite Hn..].
  unfold winv, wfiles, nskv in *. by rewrite Hn, Hs, Hd.
Qed.

(** No namespace becomes content-addressed. *)
Definition no_new_cas m m' : Prop := forall name, cas_ns m' name -> cas_ns m name.

#[global] Instance no_new_cas_refl : Reflexive no_new_cas.
Proof. by intros m name. Qed.
#[global] Instance no_new_cas_trans : Transitive no_new_cas.
Proof. intros a b c Hab Hbc name Hn. by apply Hab, Hbc. Qed.

Lemma same_list_no_new m m' : same_list m m' -> no_new_cas m m'.
Proof. intros Hl name. by rewrite (same_list_cas _ _ _ Hl). Qed.

Lemma no_new_cas_cache m m' c : no_new_cas m m' -> cache_ok m c -> cache_ok m' c.
Proof. intros Hl Hc name n Hn. destruct (Hc name n Hn) as (? & ? & Hm). split_and!; [done|done|]. intros Hx. by apply Hm, Hl. Qed.

(** Only the namespace database differs. *)
Definition ns_only rw rw' : Prop :=
  kv (w_shared (rw_world rw')) = kv (w_shared (rw_world rw)) /\
  w_disk (rw_world rw') = w_disk (rw_world rw) /\ rw_cache rw' = rw_cache rw.

Lemma quiet_ns_only rw rw' : quiet rw rw' -> ns_only rw rw'.
Proof. by intros (_ & ? & ? & ?). Qed.
#[global] Instance ns_only_trans : Transitive ns_only.
Proof. intros a b c (?&?&?) (?&?&?). split_and!; congruence. Qed.

Lemma ns_only_winv rw rw' F :
  ns_only rw rw' ->
  Inv (cfg_hasher cfg) (blocks_root cfg) (nskv rw') (kv (w_shared (rw_world rw))) (wfiles (rw_world rw)) F ->
  winv cfg (rw_world rw') F.
Proof. intros (Hs & Hd & _). unfold winv, wfiles, nskv. by rewrite Hs, Hd. Qed.

Lemma ns_only_stored rw rw' F : ns_only rw rw' -> nskv rw' = nskv rw -> Stored rw F -> Stored rw' F.
Proof.
  intros Hf Hk [Hw Hr Hc]. split; [apply (ns_only_winv _ _ _ Hf); by rewrite Hk|by rewrite Hk|by rewrite Hk].
Qed.

(** A call on the namespace database that may write. *)
Lemma wp_ns_meta {A} (m : M S MetaError A) rw (R : result MetaError A -> kvmap -> Prop) Q :
  wp m (w_ns (rw_world rw)) (fun r s' => R r (kv s')) ->
  (forall r rw', ns_only rw rw' -> R r (nskv rw') -> Q (map_err StorageMeta r) rw') ->
  wp (on_meta m) rw Q.
Proof.
  intros Hm HQ. apply wp_on_meta. eapply wp_mono; [exact Hm|]. intros r s' HR. by apply HQ.
Qed.

(* ------------------------------------------------------------------ *)
(** * The metadata record *)

(** [update_namespace_meta]: the record is the one there was, or [meta]. *)
Lemma update_meta_spec name meta rw F :
  Stored rw F -> reserved name = false -> nm_name meta = name ->
  (nm_key_mode meta = Cas -> forall key o, found (nskv rw) name key (Some o) -> addressed rcfg key o) ->
  wp (update_namespace_meta name meta) rw (fun r rw' =>
    Stored rw' F /\ ns_only rw rw' /\
    (forall other, other <> name -> cas_ns (nskv rw') other -> cas_ns (nskv rw) other) /\
    match r with
    | Ok _ => meta_of (nskv rw') name = Some meta
    | Err _ => nskv rw' = nskv rw \/ meta_of (nskv rw') name = Some meta
    end).
Proof.
  intros Hst Hres Hname Hmode.
  assert (forall rw1, quiet rw rw1 -> Stored rw1 F /\ ns_only rw rw1 /\
    (forall other, other <> name -> cas_ns (nskv rw1) other -> cas_ns (nskv rw) other) /\
    (nskv rw1 = nskv rw \/ meta_of (nskv rw1) name = Some meta)) as Hfail.
  { intros rw1 Hq. split; [by eapply quiet_stored|]. split; [by apply quiet_ns_only|].
    rewrite (quiet_nskv _ _ Hq). by split; [|left]. }
  unfold update_namespace_meta. apply wp_bind. eapply reads_use; [apply reads_require| |by auto].
  intros u rw1 Hq1 _. apply wp_bind. eapply reads_use; [apply reads_codec| |intros; apply Hfail; by etrans].
  intros raw rw2 Hq2 Hraw. assert (quiet rw rw2) as Hq by (by etrans). clear rw1 Hq1 Hq2.
  set (m' := <[(DEFAULT_BUCKET_TREE, name) := raw]> (nskv rw)).
  assert (forall rw3, ns_only rw2 rw3 -> nskv rw3 = nskv rw \/ nskv rw3 = m' ->
    Stored rw3 F /\ ns_only rw rw3 /\
    (forall other, other <> name -> cas_ns (nskv rw3) other -> cas_ns (nskv rw) other) /\
    (nskv rw3 = m' -> meta_of (nskv rw3) name = Some meta)) as Hdone.
  { intros rw3 Hf Hk. assert (ns_only rw rw3) as Hf3 by (etrans; [by apply quiet_ns_only|done]).
    destruct (row_step rcfg (nskv rw) name meta raw (st_rows _ _ Hst) (st_content _ _ Hst)
      (msgpack_roundtrip _ _ Hraw) Hname Hres Hmode) as (Hr' & Hc' & Hm' & Ho').
    destruct Hk as [Hk|Hk].
    - split; [by apply (ns_only_stored rw)|].
      split; [done|]. split; [intros other _; by rewrite Hk|]. intros Hx. rewrite Hx. exact Hm'.
    - split; [split|].
      + apply (ns_only_winv _ _ _ Hf3). rewrite Hk. apply inv_ns_reserved; [done|apply Hst].
      + by rewrite Hk.
      + by rewrite Hk.
      + split; [done|]. rewrite Hk. split; [|intros _; exact Hm']. intros other Hne (me & Hme & Hkm). exists me. by rewrite <- Ho'. }
  eapply (wp_ns_meta _ _ (fun r k => match r with Ok _ => k = m' | Err _ => k = m' \/ k = nskv rw end)).
  - apply wp_bind. eapply wp_mono; [apply tree_open_spec|]. fold (nskv rw2). rewrite (quiet_nskv _ _ Hq).
    intros [t|e] s1 [Hk Ht]; cbn beta iota; [subst t|by right]. eapply wp_mono; [apply tree_insert_spec|].
    rewrite Hk. intros [|] s2 Hs2; exact Hs2.
  - intros [a|e] rw3 Hf HR; simpl.
    + destruct (Hdone rw3 Hf (or_intror HR)) as (? & ? & ? & Hm). split_and!; auto.
    + destruct (Hdone rw3 Hf) as (? & ? & ? & Hm); [destruct HR; auto|]. split_and!; auto. destruct HR; auto.
Qed.

(* ------------------------------------------------------------------ *)
(** * Creation *)

(** The keys of the namespaces and what they hold. *)
Definition same_records m m' : Prop := forall b key, reserved b = false -> m' !! (b, key) = m !! (b, key).

Lemma create_spec name rw F :
  Stored rw F ->
  wp (create_namespace name) rw (fun r rw' =>
    Stored rw' F /\ ns_only rw rw' /\ no_new_cas (nskv rw) (nskv rw') /\
    same_records (nskv rw) (nskv rw') /\
    match r with Ok t => t = name | Err _ => True end).
Proof.
  intros Hst. unfold create_namespace. apply wp_bind. eapply reads_use; [apply reads_codec| |].
  2: { intros e rw1 Hq. split; [by eapply quiet_stored|]. split; [by apply quiet_ns_only|].
       split; by rewrite (quiet_nskv _ _ Hq). }
  intros raw rw1 Hq1 Hraw. pose proof (quiet_stored _ _ F Hq1 Hst) as Hst1.
  set (m' := <[(DEFAULT_USAGE_TREE, name) := u64_to_le 0]> (<[(DEFAULT_BUCKET_TREE, name) := raw]> (nskv rw))).
  assert (reserved name = false -> forall rw2, ns_only rw1 rw2 -> nskv rw2 = m' ->
    Stored rw2 F /\ no_new_cas (nskv rw) (nskv rw2) /\ same_records (nskv rw) (nskv rw2)) as Hdone.
  { intros Hres rw2 Hf Hk.
    destruct (row_step rcfg (nskv rw) name (NamespaceMeta_new name) raw (st_rows _ _ Hst) (st_content _ _ Hst)
      (msgpack_roundtrip _ _ Hraw) eq_refl Hres (fun E => ltac:(discriminate))) as (Hr' & Hc' & Hm' & Ho').
    destruct (usage_step rcfg _ name (u64_to_le 0) Hr' Hc') as [Hl Hc2]. fold m' in Hl, Hc2.
    split; [split|split].
    - apply (ns_only_winv _ _ _ Hf). rewrite Hk. apply inv_ns_reserved; [done|]. apply inv_ns_reserved; [done|].
      fold m'. rewrite <- (quiet_nskv _ _ Hq1). apply Hst1.
    - rewrite Hk. by eapply same_list_rows.
    - by rewrite Hk.
    - rewrite Hk. intros other Ho. apply (same_list_no_new _ _ Hl) in Ho. destruct Ho as (me & Hme & Hmo).
      destruct (decide (other = name)) as [->|Hne].
      + rewrite Hm' in Hme. by injection Hme as <-.
      + exists me. by rewrite <- Ho'.
    - intros b key Hb. rewrite Hk. unfold m'. by rewrite !lookup_insert_ne by (by apply key_ne). }
  apply wp_bind. eapply (wp_ns_meta _ _ (fun r k =>
    match r with
    | Ok true => reserved name = false /\ nskv rw !! (DEFAULT_BUCKET_TREE, name) = None /\ k = m'
    | Ok false => k = nskv rw
    | Err _ => k = nskv rw \/ reserved name = false /\ k = m' end)).
  { eapply wp_mono; [apply insert_bucket_if_absent_spec|]. fold (nskv rw1). rewrite (quiet_nskv _ _ Hq1).
    intros [[|]|e] s' Hr; [done|by destruct Hr as (?&?&?)|]. destruct Hr as [|(?&?&?)]; [by left|by right]. }
  assert (forall rw2, ns_only rw1 rw2 -> nskv rw2 = nskv rw ->
    Stored rw2 F /\ no_new_cas (nskv rw) (nskv rw2) /\ same_records (nskv rw) (nskv rw2)) as Hsame.
  { intros rw2 Hf Hk. split; [|split; [by rewrite Hk|intros b key _; by rewrite Hk]]. apply (ns_only_stored rw1); [done|by rewrite (quiet_nskv _ _ Hq1)|done]. }
  intros [[|]|e] rw2 Hf HR; simpl.
  - destruct HR as (Hres & Hnone & Hk). destruct (Hdone Hres rw2 Hf Hk) as (Hst2 & Hnc & Hrest).
    assert (forall rw3, quiet rw2 rw3 -> Stored rw3 F /\ ns_only rw rw3 /\ no_new_cas (nskv rw) (nskv rw3) /\
      same_records (nskv rw) (nskv rw3)) as Hq.
    { intros rw3 Hq3. split; [by eapply quiet_stored|]. rewrite (quiet_nskv _ _ Hq3). split; [|done].
      etrans; [by apply quiet_ns_only|]. etrans; [done|by apply quiet_ns_only]. }
    eapply reads_use; [apply reads_namespace|..].
    + intros t rw3 Hq3 ->. by destruct (Hq rw3 Hq3) as (? & ? & ? & ?).
    + intros e rw3 Hq3. by destruct (Hq rw3 Hq3) as (? & ? & ? & ?).
  - destruct (Hsame rw2 Hf HR) as (? & ? & ?). apply wp_err. split; [done|].
    split; [etrans; [by apply quiet_ns_only|done]|done].
  - assert (Stored rw2 F /\ no_new_cas (nskv rw) (nskv rw2) /\ same_records (nskv rw) (nskv rw2)) as (? & ? & ?).
    { destruct HR as [HR|[Hres HR]]; [by apply Hsame|by apply Hdone]. }
    split; [done|]. split; [etrans; [by apply quiet_ns_only|done]|done].
Qed.

(* ------------------------------------------------------------------ *)
(** * The usage ledger *)

Lemma iter_map_reads {B} fuel (f : bytes * bytes -> result MetaError B) t c (s : S) :
  wp (iter_map fuel f t c) s (fun _ s' => kv s' = kv s).
Proof.
  revert c s. induction fuel as [|fuel IH]; intros c s; [by apply wp_ret|]. cbn [iter_map].
  apply wp_bind. eapply wp_mono; [apply tree_next_spec|]. intros [[[k v]|]|e] s1 [Hk Hr]; cbn beta iota; [|by apply wp_ret|done].
  apply wp_bind, wp_lift. destruct (f (k, v)) as [y|e]; [|done].
  apply wp_bind. eapply wp_mono; [apply IH|]. intros [ys|e] s2 Hk2; cbn beta iota; [apply wp_ret|]; by rewrite Hk2.
Qed.

Lemma reads_sum name rw : reads (sum_record_sizes env name) rw (fun _ => True).
Proof.
  eapply reads_bind; [apply reads_namespace|]. intros t rw1 Hq1 ->.
  eapply (reads_bind _ _ _ (fun _ => True)); [|intros; by apply reads_ret].
  apply reads_meta. eapply wp_mono; [apply iter_map_reads|]. intros [a|e] s' Hk; by split.
Qed.

(** What a call may do to the list and to the records. *)
Definition keeps {A} (m : NM A) rw F : Prop :=
  wp m rw (fun _ rw' => Stored rw' F /\ rw_cache rw' = rw_cache rw /\ no_new_cas (nskv rw) (nskv rw')).

Lemma keeps_reads {A} (m : NM A) rw F P : reads m rw P -> Stored rw F -> keeps m rw F.
Proof.
  unfold reads, keeps. intros Hm Hst. eapply wp_mono; [exact Hm|]. intros r rw' [Hq _].
  split; [by eapply quiet_stored|]. split; [by apply quiet_cache|]. by rewrite (quiet_nskv _ _ Hq).
Qed.

Lemma keeps_bind {A B} (m : NM A) (k : A -> NM B) rw F :
  keeps m rw F -> (forall a rw', Stored rw' F -> keeps (k a) rw' F) -> keeps (m ≫= k) rw F.
Proof.
  unfold keeps. intros Hm Hk. apply wp_bind. eapply wp_mono; [exact Hm|]. intros [a|e] rw' (Hst & Hc & Hn); cbn beta iota; [|done].
  eapply wp_mono; [by apply Hk|]. intros r rw2 (Hst2 & Hc2 & Hn2). split; [done|]. split; [congruence|by etrans].
Qed.

Lemma keeps_ret {A} (a : A) rw F : Stored rw F -> keeps (mret a) rw F.
Proof. intros Hst. by eapply keeps_reads; [apply (reads_ret _ _ (fun _ => True))|]. Qed.

Lemma keeps_set_usage name v rw F : Stored rw F -> keeps (on_meta (set_bucket_usage name v)) rw F.
Proof.
  intros Hst. set (m' := <[(DEFAULT_USAGE_TREE, name) := u64_to_le v]> (nskv rw)).
  eapply (wp_ns_meta _ _ (fun _ k => k = nskv rw \/ k = m')).
  - unfold set_bucket_usage. apply wp_bind. eapply wp_mono; [apply tree_open_spec|]. fold (nskv rw).
    intros [t|e] s1 [Hk Ht]; cbn beta iota; [subst t|by left]. eapply wp_mono; [apply tree_insert_spec|].
    rewrite Hk. intros [u|e] s2 Hs2; [by right|]. destruct Hs2; [by right|by left].
  - intros r rw1 Hf [Hk|Hk].
    + split; [by apply (ns_only_stored rw)|]. split; [apply Hf|by rewrite Hk].
    + destruct (usage_step rcfg _ name (u64_to_le v) (st_rows _ _ Hst) (st_content _ _ Hst)) as [Hl Hc].
      fold m' in Hl, Hc. split; [|split; [apply Hf|rewrite Hk; by apply same_list_no_new]].
      split; [|rewrite Hk; by eapply same_list_rows, Hst|by rewrite Hk].
      apply (ns_only_winv _ _ _ Hf). rewrite Hk. apply inv_ns_reserved; [done|apply Hst].
Qed.

(** NSINFO's reading of a counter, the backfill of a missing one included. *)
Lemma keeps_usage name rw F : Stored rw F -> keeps (namespace_usage env name) rw F.
Proof.
  intros Hst. apply keeps_bind; [eapply keeps_reads; [apply reads_require|done]|]. intros u rw1 Hst1.
  apply keeps_bind; [eapply keeps_reads; [apply reads_usage|done]|]. intros usage rw2 Hst2.
  destruct usage as [k|]; [by apply keeps_ret|].
  apply keeps_bind; [eapply keeps_reads; [apply reads_sum|done]|]. intros total rw3 Hst3.
  apply keeps_bind; [by apply keeps_set_usage|]. intros u' rw4 Hst4. by apply keeps_ret.
Qed.

(* ------------------------------------------------------------------ *)
(** * The key mode *)

Lemma sidecar_not_block `{FasterHexLaws} (dir : path) i d root :
  block_disk_path i d root <> dir ++ [STORE_HEADER_SIDECAR].
Proof.
  intros E. apply (f_equal last) in E. rewrite block_disk_path_last, last_snoc in E. injection E as E.
  apply (hex_string_not_in (as_slice i) x5f); [done|]. change (hex_string (as_slice i)) with (to_hex i). rewrite E.
  vm_compute. set_solver.
Qed.

Lemma wp_on_home {A} (m : M (Home S D) MetaError A) rw Q :
  wp m (mkHome (w_ns (rw_world rw)) (ds_disk (w_disk (rw_world rw)))) (fun r h' =>
    Q (map_err StorageMeta r) (mkRespWorld (mkWorld (h_store h') (w_shared (rw_world rw))
      (mkDiskState (h_disk h') (ds_known_durable (w_disk (rw_world rw))) (ds_nonce (w_disk (rw_world rw))))
      (w_counters (rw_world rw))) (rw_cache rw))) ->
  wp (on_home m) rw Q.
Proof. unfold wp, on_home. by destruct (m _). Qed.

Lemma declare_spec rw F :
  Stored rw F ->
  wp (declare_cas_namespaces rcfg) rw (fun _ rw' =>
    Stored rw' F /\ rw_cache rw' = rw_cache rw /\ same_list (nskv rw) (nskv rw') /\
    forall b key, reserved b = false -> nskv rw' !! (b, key) = nskv rw !! (b, key)).
Proof.
  intros Hst. unfold declare_cas_namespaces. apply wp_bind, wp_on_home.
  eapply wp_mono; [apply raise_version_frame|]. intros r h' [Hk Hf].
  change (kv (h_store (mkHome (w_ns (rw_world rw)) (ds_disk (w_disk (rw_world rw)))))) with (nskv rw) in Hk.
  set (rw' := mkRespWorld _ _).
  assert (kv (h_store h') = nskv rw' /\ rw_cache rw' = rw_cache rw) as [Hs' Hc'] by done. rewrite Hs' in Hk.
  assert (Inv (cfg_hasher cfg) (blocks_root cfg) (nskv rw') (kv (w_shared (rw_world rw))) (wfiles (rw_world rw)) F ->
    winv cfg (rw_world rw') F) as Hinv.
  { intros Hi. eapply (inv_disk _ _ _ _ (wfiles (rw_world rw))); [|exact Hi]. intros i b Hwf _ _. apply Hf.
    apply sidecar_not_block. }
  assert (Stored rw' F /\ rw_cache rw' = rw_cache rw /\ same_list (nskv rw) (nskv rw') /\
    forall b key, reserved b = false -> nskv rw' !! (b, key) = nskv rw !! (b, key)) as Hdone.
  { destruct Hk as [Hk|(v & Hk)].
    - split; [|split; [done|split; [intros name; by rewrite Hk|intros b key _; by rewrite Hk]]].
      split; [apply Hinv; rewrite Hk; apply Hst|rewrite Hk; apply Hst|rewrite Hk; apply Hst].
    - destruct (header_step rcfg _ STORE_HEADER_KEY v (st_rows _ _ Hst) (st_content _ _ Hst)) as [Hl Hc].
      split; [|split; [done|split; [by rewrite Hk|]]].
      + split; [apply Hinv; rewrite Hk; apply inv_ns_reserved; [done|apply Hst]| |by rewrite Hk].
        rewrite Hk. by eapply same_list_rows, Hst.
      + intros b key Hb. rewrite Hk. by rewrite lookup_insert_ne by (by apply key_ne). }
  by destruct r.
Qed.

Lemma tree_size_0 m t key : tree_size m t = 0%nat -> m !! (t, key) = None.
Proof.
  intros Hs. destruct (m !! (t, key)) as [v|] eqn:E; [|done]. apply elem_of_map_to_list in E.
  apply nil_length_inv in Hs.
  assert (((t, key), v) ∈ filter (fun p => p.1.1 = t) (map_to_list m)) as Hin by (by apply list_elem_of_filter).
  rewrite Hs in Hin. by apply elem_of_nil in Hin.
Qed.

(** A row of the list, from the record read there. *)
Lemma meta_of_row m name meta : rows_ok m -> meta_of m name = Some meta -> reserved name = false /\ nm_name meta = name.
Proof.
  intros Hr Hm. unfold meta_of in Hm. destruct (m !! (DEFAULT_BUCKET_TREE, name)) as [raw|] eqn:E; [|done].
  destruct (Hr _ _ E) as (Hres & me & Hme & Hn). simpl in Hm. rewrite Hme in Hm. by injection Hm as <-.
Qed.

Lemma meta_of_fun m name me me' : meta_of m name = Some me -> meta_of m name = Some me' -> me = me'.
Proof. congruence. Qed.

(** [set_key_mode]: no other namespace is touched, and the one it names is
    content-addressed afterwards only if that was asked for. *)
Lemma set_key_mode_spec name mode rw F :
  Stored rw F ->
  wp (set_key_mode rcfg name mode) rw (fun r rw' =>
    Stored rw' F /\ rw_cache rw' = rw_cache rw /\
    (forall other, other <> name -> cas_ns (nskv rw') other -> cas_ns (nskv rw) other) /\
    match r with Ok _ => cas_ns (nskv rw') name -> mode = Cas | Err _ => True end).
Proof.
  intros Hst.
  assert (forall rw1, Stored rw1 F -> rw_cache rw1 = rw_cache rw -> no_new_cas (nskv rw) (nskv rw1) ->
    Stored rw1 F /\ rw_cache rw1 = rw_cache rw /\
    (forall other, other <> name -> cas_ns (nskv rw1) other -> cas_ns (nskv rw) other)) as Hsame.
  { intros rw1 Hst1 Hc Hn. split; [done|]. split; [done|]. intros other _. apply Hn. }
  assert (forall rw1, quiet rw rw1 -> Stored rw1 F /\ rw_cache rw1 = rw_cache rw /\
    (forall other, other <> name -> cas_ns (nskv rw1) other -> cas_ns (nskv rw) other)) as Hquiet.
  { intros rw1 Hq. apply Hsame; [by eapply quiet_stored|by apply quiet_cache|by rewrite (quiet_nskv _ _ Hq)]. }
  assert (forall rw1 (P : Prop), (Stored rw1 F /\ rw_cache rw1 = rw_cache rw /\
    (forall other, other <> name -> cas_ns (nskv rw1) other -> cas_ns (nskv rw) other)) -> P ->
    Stored rw1 F /\ rw_cache rw1 = rw_cache rw /\
    (forall other, other <> name -> cas_ns (nskv rw1) other -> cas_ns (nskv rw) other) /\ P) as Hand by tauto.
  unfold set_key_mode. apply wp_bind. eapply reads_use; [apply reads_namespace_meta| |intros; apply Hand; auto].
  intros meta rw1 Hq1 Hm. case_decide as Hmode.
  { apply wp_ret. apply Hand; [auto|]. rewrite (quiet_nskv _ _ Hq1). intros (me & Hme & Hk).
    by rewrite (meta_of_fun _ _ _ _ Hm Hme) in Hmode; rewrite <- Hmode. }
  apply wp_bind. eapply reads_use; [apply reads_namespace| |intros; apply Hand; [apply Hquiet; by etrans|done]].
  intros t rw2 Hq2 ->. assert (quiet rw rw2) as Hq by (by etrans). clear rw1 Hq1 Hq2.
  apply wp_bind. eapply (reads_use _ _ (fun z => z = Z.of_nat (tree_size (nskv rw2) name)));
    [apply reads_meta, tree_len_spec| |intros; apply Hand; [apply Hquiet; by etrans|done]].
  intros keys rw3 Hq3 Hkeys. assert (quiet rw rw3) as Hq03 by (by etrans).
  destruct (Z.eqb_spec keys 0) as [Hz|Hz]; cbn [negb]; [|apply wp_err; apply Hand; auto].
  assert (forall key, nskv rw !! (name, key) = None) as Hempty.
  { intros key. apply tree_size_0. rewrite (quiet_nskv _ _ Hq) in Hkeys. lia. }
  destruct (meta_of_row _ _ _ (st_rows _ _ Hst) Hm) as [Hres Hname].
  assert (forall rw4, Stored rw4 F -> rw_cache rw4 = rw_cache rw -> no_new_cas (nskv rw) (nskv rw4) ->
    (forall key, nskv rw4 !! (name, key) = None) ->
    wp (update_namespace_meta name (set_mode mode meta)) rw4 (fun r rw' =>
      Stored rw' F /\ rw_cache rw' = rw_cache rw /\
      (forall other, other <> name -> cas_ns (nskv rw') other -> cas_ns (nskv rw) other) /\
      match r with Ok _ => cas_ns (nskv rw') name -> mode = Cas | Err _ => True end)) as Hupd.
  { intros rw4 Hst4 Hc4 Hn4 He4. eapply wp_mono; [apply (update_meta_spec name (set_mode mode meta) rw4 F Hst4 Hres Hname)|].
    - intros _ key o (raw & Hr & _). by rewrite He4 in Hr.
    - intros r rw5 (Hst5 & (_ & _ & Hc5) & Ho5 & Hr5). split; [done|]. split; [congruence|].
      split; [intros other Hne Hx; by apply Hn4, Ho5|]. destruct r as [u|e]; [|done].
      intros (me & Hme & Hk). by pose proof (meta_of_fun _ _ _ _ Hr5 Hme) as <-. }
  destruct (decide (mode = Cas)) as [->|Hu].
  - apply wp_bind. pose proof (quiet_stored _ _ F Hq03 Hst) as Hst3.
    eapply wp_mono; [by apply (declare_spec rw3 F)|]. rewrite (quiet_nskv _ _ Hq03), (quiet_cache _ _ Hq03).
    intros [u|e] rw4 (Hst4 & Hc4 & Hl4 & Hk4); cbn beta iota; [|apply Hand; [|done]; by apply Hsame, same_list_no_new].
    apply Hupd; [done|done|by apply same_list_no_new|]. intros key. by rewrite Hk4.
  - apply wp_bind, wp_ret. apply Hupd; [by eapply quiet_stored|by apply quiet_cache|by rewrite (quiet_nskv _ _ Hq03)|].
    intros key. by rewrite (quiet_nskv _ _ Hq03).
Qed.

(* ------------------------------------------------------------------ *)
(** * FLUSH *)

(** [drop_bucket] only removes: what removals preserve, it preserves. *)
Lemma drop_bucket_spec (name : bytes) (s : S) (J : kvmap -> Prop) :
  (forall m (p : tree * bytes), J m -> J (delete p m)) -> (forall m t, J m -> J (drop_tree m t)) -> J (kv s) ->
  wp (drop_bucket name) s (fun _ s' => J (kv s')).
Proof.
  intros Hdel Hdrop HJ. unfold drop_bucket.
  assert (forall t k s1, J (kv s1) -> wp (tree_remove t k) s1 (fun _ s2 => J (kv s2))) as Hrem.
  { intros t k s1 HJ1. eapply wp_mono; [apply tree_remove_spec|].
    intros [b|e] s2 Hr; [destruct Hr as [-> _]; auto|destruct Hr as [->| ->]; auto]. }
  wp_call tree_open_spec; intros [Hk Ht]; rewrite <- Hk in HJ; [|done].
  apply wp_bind. eapply wp_mono; [by apply Hrem|]. intros [u|e] s1 HJ1; cbn beta iota; [|done].
  wp_call tree_open_spec; intros [Hk1 Ht1]; rewrite <- Hk1 in HJ1; [|done].
  apply wp_bind. eapply wp_mono; [by apply Hrem|]. intros [u2|e] s3 HJ3; cbn beta iota; [|done].
  apply wp_bind. unfold bucket_exists. eapply wp_mono; [apply tree_exists_spec|].
  intros [[|]|e] s4 Hk4; rewrite <- Hk4 in HJ3; cbn beta iota; [|by apply wp_ret|done].
  eapply wp_mono; [apply tree_delete_spec|]. intros [u4|e] s5 Hr; [rewrite Hr; auto|destruct Hr as [->| ->]; auto].
Qed.

Lemma delete_ns_spec name rw F :
  Stored rw F ->
  wp (delete_namespace name) rw (fun _ rw' =>
    Stored rw' F /\ rw_cache rw' = rw_cache rw /\ forall p v, nskv rw' !! p = Some v -> nskv rw !! p = Some v).
Proof.
  intros Hst. unfold delete_namespace. apply wp_bind. eapply reads_use; [apply reads_require|..].
  2: { intros e rw1 Hq. split; [by eapply quiet_stored|]. split; [by apply quiet_cache|]. by rewrite (quiet_nskv _ _ Hq). }
  intros u rw1 Hq _. pose proof (quiet_stored _ _ F Hq Hst) as Hst1.
  set (J := fun m => Inv (cfg_hasher cfg) (blocks_root cfg) m (kv (w_shared (rw_world rw1))) (wfiles (rw_world rw1)) F /\
    forall p v, m !! p = Some v -> nskv rw !! p = Some v).
  eapply (wp_ns_meta _ _ (fun _ k => J k)).
  - apply drop_bucket_spec; unfold J.
    + intros m p [Hi Hm]. split; [by apply inv_ns_delete|]. intros q v [_ Hq']%lookup_delete_Some. by apply Hm.
    + intros m t [Hi Hm]. split; [by apply inv_ns_drop|]. intros q v [Hq' _]%map_lookup_filter_Some. by apply Hm.
    + fold (nskv rw1). split; [apply Hst1|]. by rewrite (quiet_nskv _ _ Hq).
  - intros r rw2 Hf [Hi Hm]. destruct (sub_step rcfg _ _ (st_rows _ _ Hst) (st_content _ _ Hst) Hm) as [Hr Hc].
    split; [split; [by apply (ns_only_winv rw1)|done|done]|]. split; [|done].
    destruct Hf as (_ & _ & ->). by apply quiet_cache.
Qed.

Lemma sub_no_new m m' : (forall p v, m' !! p = Some v -> m !! p = Some v) -> no_new_cas m m'.
Proof.
  intros Hm name (me & Hme & Hk). exists me. split; [|done]. unfold meta_of in *.
  destruct (m' !! (DEFAULT_BUCKET_TREE, name)) as [raw|] eqn:E; [|done]. by rewrite (Hm _ _ E).
Qed.

(** A world with another cache. *)
Lemma stored_cache w c c' F : Stored (mkRespWorld w c) F -> Stored (mkRespWorld w c') F.
Proof. by intros []. Qed.

Lemma wp_set_cache f rw Q : Q (Ok tt) (mkRespWorld (rw_world rw) (f (rw_cache rw))) -> wp (set_cache f) rw Q.
Proof. done. Qed.

(** A FLUSH that is answered leaves the namespace empty of what was there,
    under the record it had, and its handlers reading its own tree; one that
    fails has kept the store in order. *)
Lemma flush_spec name rw F :
  RInv rcfg rw F ->
  wp (flush_namespace name) rw (fun r rw' =>
    Stored rw' F /\ match r with Ok _ => RInv rcfg rw' F | Err _ => True end).
Proof.
  intros Hinv. apply RInv_stored in Hinv as Hx. destruct Hx as [Hst Hca].
  unfold flush_namespace. apply wp_bind, wp_from_cache. destruct (rw_cache rw !! name) as [n|] eqn:Hn; [|apply wp_ret; split; [exact Hst|exact Hinv]].
  apply wp_bind. eapply reads_use; [apply reads_namespace_meta| |intros; split; [by eapply quiet_stored|done]].
  intros meta rw1 Hq1 Hmeta. destruct (meta_of_row _ _ _ (st_rows _ _ Hst) Hmeta) as [Hres Hname].
  apply wp_bind. eapply reads_use; [apply reads_namespace| |intros; split; [apply (quiet_stored rw); [by etrans|done]|done]].
  intros t rw2 Hq2 ->. assert (quiet rw rw2) as Hq by (by etrans). clear rw1 Hq1 Hq2.
  pose proof (quiet_stored _ _ F Hq Hst) as Hst2.
  apply wp_bind, wp_set_cache. destruct rw2 as [w2 c2]. cbn [rw_world rw_cache].
  set (rw3 := mkRespWorld w2 _). assert (Stored rw3 F) as Hst3 by (by eapply stored_cache).
  assert (nskv rw3 = nskv rw) as Hk3 by (by rewrite <- (quiet_nskv _ _ Hq)).
  assert (rw_cache rw3 = alter (with_tree (str "default")) name (rw_cache rw)) as Hc3 by (by rewrite <- (quiet_cache _ _ Hq)).
  clearbody rw3.
  apply wp_bind. eapply wp_mono; [by apply (delete_ns_spec name rw3 F)|]. rewrite Hk3, Hc3.
  intros [u|e] rw4 (Hst4 & Hc4 & Hsub); cbn beta iota; [|done]. pose proof (sub_no_new _ _ Hsub) as Hn4.
  apply wp_bind. eapply wp_mono; [by apply (create_spec name rw4 F)|].
  intros [t|e] rw5 (Hst5 & (_ & _ & Hc5) & Hn5 & Hsame5 & Hr5); cbn beta iota; [|done]. subst t.
  rewrite Hc4 in Hc5. apply wp_bind, wp_set_cache. destruct rw5 as [w5 c5]. cbn [rw_world rw_cache] in *.
  set (rw6 := mkRespWorld w5 _). assert (Stored rw6 F) as Hst6 by (by eapply stored_cache).
  assert (nskv rw6 = nskv (mkRespWorld w5 c5)) as Hk6 by done. rewrite <- Hk6 in *.
  assert (rw_cache rw6 = alter (with_tree name) name (alter (with_tree (str "default")) name (rw_cache rw))) as Hc6.
  { subst c5. done. }
  clearbody rw6. clear Hk6 Hc5 Hst5 w5 c5.
  eapply wp_mono; [apply (update_meta_spec name meta rw6 F Hst6 Hres Hname)|].
  - intros Hk key o (raw & Hr & Ho). apply (st_content _ _ Hst name); [by exists meta|]. exists raw. split; [|done].
    apply Hsub. by rewrite <- Hsame5.
  - intros [u6|e] rw7 (Hst7 & (_ & _ & Hc7) & Ho7 & Hr7); (split; [done|]); [|done].
    apply RInv_stored. split; [done|]. rewrite Hc7, Hc6. intros other n' Hn'.
    destruct (decide (other = name)) as [->|Hne].
    + rewrite !lookup_alter_eq, Hn in Hn'. injection Hn' as <-. destruct (Hca name n Hn) as (Hnm & _ & Hmode).
      simpl. split; [done|]. split; [done|]. intros (me & Hme & Hk). apply Hmode.
      pose proof (meta_of_fun _ _ _ _ Hr7 Hme) as <-. by exists meta.
    + rewrite !lookup_alter_ne in Hn' by done. destruct (Hca other n' Hn') as (Hnm & Htr & Hmode).
      split; [done|]. split; [done|]. intros Hx. by apply Hmode, Hn4, Hn5, Ho7.
Qed.
End Admin.
