(* ===== verification/HandlerSpecs.v ===== *)
(** What the handlers of commands (Handlers.v) read and leave: each reading
    command is a read of the store, the value a GET streams is the one its
    record was made of unless two blocks share an address, and each writing
    command preserves the invariant of NsInvariant.v. *)

From S2P Require Import Prelude Bytes Resp Externals BlockIds Codec Records StoreHeader MetaStore Commands Disk BlockStream Placement MetaOps Accounting Engine BatchSpecs WriteSpecs Chunking Namespaces Handlers ObjectSpecs NsSpecs NsInvariant NsAdmin.
From Stdlib Require Import Strings.Byte.
Local Open Scope Z_scope.
#[local] Set Warnings "-clear-no-such-hyp,-register-all".

(* ------------------------------------------------------------------ *)
(** * Streamed values *)

(** Two blocks with one address. *)
Definition collision `{Blake3} (h : Hasher) : Prop := exists a b, a <> b /\ hash_block h a = hash_block h b.

Section Streamed.
Context `{Blake3} (h : Hasher) (files : gmap path bytes).

(** The file at a located path, whole and under its address. *)
Definition healthy (i : BlockId) (p : path * Z) : Prop :=
  exists data, files !! p.1 = Some data /\ hash_block h data = i /\ Z.of_nat (length data) = p.2.

Lemma same_or_collision (l k : list bytes) :
  Forall2 (fun a b => hash_block h a = hash_block h b) l k -> l = k \/ collision h.
Proof.
  induction 1 as [|a b l k Hab _ IH]; [by left|]. destruct IH as [->|]; [|by right].
  destruct (decide (a = b)) as [->|]; [by left|]. right. by exists a, b.
Qed.

Lemma plain_stream_value chunks paths answers out :
  Forall2 healthy (map (hash_block h) chunks) paths -> Z.of_nat (length (concat chunks)) <= i64_max ->
  consume files answers (new_stream paths (Z.of_nat (length (concat chunks))) All) = (out, Finished) ->
  concat out = concat chunks \/ collision h.
Proof.
  intros Hp Hsz Hc.
  assert (exists datas, Forall2 (stored files) paths datas /\ Forall2 (fun a b => hash_block h a = hash_block h b) datas chunks) as (datas & Hst & Hh).
  { clear Hc Hsz. revert paths Hp. induction chunks as [|c chunks IH]; intros paths Hp; inversion Hp as [|i p is' ps Hi Hps]; subst.
    - exists []. by split.
    - destruct (IH ps Hps) as (datas & Hst & Hh). destruct Hi as (data & Hf & Hd & Hl).
      exists (data :: datas). split; by constructor. }
  destruct (same_or_collision _ _ Hh) as [->|]; [|by right]. left.
  assert (paths <> [] \/ (bounds (new_stream paths (Z.of_nat (length (concat chunks))) All)).1 = 0) as Hne by (by right).
  pose proof (consume_ok files paths chunks All Hst Hsz I Hne answers _ [] (new_inv files paths chunks All Hst I Hne)) as Hr.
  rewrite Hc in Hr. by destruct Hr as [_ Hr].
Qed.

Lemma prefix_whole {A} (l k : list (list A)) :
  l `prefix_of` k -> (length (concat k) <= length (concat l))%nat -> concat l = concat k.
Proof.
  intros [r ->] Hl. rewrite concat_app, length_app in *. destruct (concat r); [by rewrite app_nil_r|simpl in Hl; lia].
Qed.

Lemma verified_stream_value chunks paths answers out :
  length paths = length chunks ->
  consume files answers (verified (new_stream paths (Z.of_nat (length (concat chunks))) All) h (map (hash_block h) chunks)) =
    (out, Finished) ->
  concat out = concat chunks \/ collision h.
Proof.
  intros Hl Hc. set (ids := map (hash_block h) chunks) in *. set (s := verified _ _ _) in Hc.
  assert (length ids = length paths) as Hids by (by unfold ids; rewrite length_map).
  assert (verify_inv files paths (Z.of_nat (length (concat chunks))) h ids s 0 /\ bs_processed s = 0) as [Hs H0].
  { unfold s, verified. cbn [new_stream bs_range bs_paths is_all andb]. rewrite Hids, Nat.eqb_refl. by repeat split. }
  pose proof (verify_consume_ok files paths _ h ids Hids answers s 0 Hs) as Hr. rewrite Hc, H0 in Hr.
  destruct Hr as [Hin Hend].
  assert (Forall2 (fun a b => hash_block h a = hash_block h b) out (take (length out) chunks)) as Hh.
  { apply Forall2_same_length_lookup. split.
    - rewrite length_take. destruct (decide (length out <= length chunks)%nat); [lia|].
      destruct (lookup_lt_is_Some_2 out (length chunks)) as [c Hc']; [lia|].
      destruct (Hin _ _ Hc') as (p & z & Hp & _). apply lookup_lt_Some in Hp. lia.
    - intros j a b Ha Hb. destruct (Hin _ _ Ha) as (p & z & _ & _ & Hi). change (0 + j)%nat with j in Hi. apply lookup_take_Some in Hb as [Hb _].
      unfold ids in Hi. rewrite list_lookup_fmap, Hb in Hi. simpl in Hi. by injection Hi. }
  destruct (same_or_collision _ _ Hh) as [E|]; [left|by right].
  destruct Hend as [Hend|Hend].
  - rewrite E. f_equal. apply take_ge. simpl in Hend. lia.
  - apply prefix_whole; [rewrite E; by apply prefix_take|lia].
Qed.
End Streamed.

Section Handlers.
Context {S T D : Type} `{StoreLaws S T, DiskLaws D, Blake3Laws, Md5Laws, FasterHexLaws, MsgpackLaws, Unicode}.
Context (rcfg : RespCfg) (env : Env) (show : NsErr -> string).
Abbreviation cfg := (rc_engine rcfg).
Abbreviation RW := (RespWorld S D).
Abbreviation NM := (M RW NsErr).
Implicit Types (rw : RW) (m : kvmap) (n : Namespace) (F : BlockId -> nat).

(* ------------------------------------------------------------------ *)
(** * Reads *)

(** What a read has answered. *)
Lemma reads_run {A} (m : NM A) rw P r rw' :
  reads m rw P -> m rw = (r, rw') -> quiet rw rw' /\ match r with Ok a => P a | Err _ => True end.
Proof. unfold reads, wp. intros Hm E. by rewrite E in Hm. Qed.

(** The reader a record's blocks are streamed through. *)
Definition opened (paths : list (path * Z)) (o : Object) : BlockStream :=
  let s := new_stream paths (o_size o) All in
  if rc_verify_on_read rcfg then verified s (cfg_hasher cfg) (o_blocks o) else s.

(** [v] came out of the blocks of the record under [key]. *)
Definition streamed rw (bucket key : bytes) (o : Object) (v : bytes) : Prop :=
  exists o' paths out,
    found (nskv rw) bucket key (Some o') /\
    (if is_inlined o' then paths = [] else Forall2 (located cfg (rw_world rw)) (o_blocks o') paths) /\
    consume (wfiles (rw_world rw)) (en_answers env) (opened paths o) = (out, Finished) /\ v = concat out.

Lemma quiet_streamed rw rw' bucket key o v : quiet rw rw' -> streamed rw' bucket key o v -> streamed rw bucket key o v.
Proof.
  intros (Hn & Hs & Hd & _) (o' & paths & out & Hf & Hl & Hc & ->). exists o', paths, out.
  rewrite <- Hn. unfold located, wfiles in *. by rewrite <- Hs, <- Hd.
Qed.

Lemma reads_read_blocks ns key obj rw n :
  rw_cache rw !! ns = Some n ->
  reads (read_blocks rcfg env ns key obj) rw (streamed rw (pr_namespace_name (ns_props n)) key obj).
Proof.
  intros Hn. eapply reads_bind; [by eapply reads_name|]. intros b rw1 Hq1 ->.
  eapply reads_mono; [|intros v Hv; by apply (quiet_streamed _ rw1)].
  eapply (reads_bind _ _ _ (fun r => match r with
    | None => True
    | Some (o, ps) => found (nskv rw1) (pr_namespace_name (ns_props n)) key (Some o) /\
        (if is_inlined o then ps = [] else Forall2 (located cfg (rw_world rw1)) (o_blocks o) ps) end)).
  - unfold reads. apply wp_on_engine. eapply wp_mono; [apply get_object_paths_spec|]. intros r w' ([Hns Hsh] & Hd & Hr).
    split; [by split|]. by destruct r as [[[o ps]|]|e].
  - intros [[o ps]|] rw2 Hq2 Hr; [|apply reads_err]. unfold reads, wp, M_run.
    destruct (consume _ _ _) as [out f] eqn:Ec. destruct f; (split; [done|]); try done.
    destruct Hr as [Hf Hl]. exists o, ps, out. split; [done|]. split; [done|]. split; [|done].
    destruct Hq2 as (_ & _ & Hd & _). unfold wfiles in *. by rewrite <- Hd.
Qed.

Definition got rw n (key : bytes) (r : option bytes) : Prop :=
  match r with
  | None => found (nskv rw) (ns_tree n) key None
  | Some v => exists o, found (nskv rw) (ns_tree n) key (Some o) /\
      match o_data o with
      | Inline data => v = data
      | _ => streamed rw (pr_namespace_name (ns_props n)) key o v
      end
  end.

Lemma reads_ns_get ns key rw n :
  rw_cache rw !! ns = Some n -> reads (ns_get rcfg env ns key) rw (got rw n key).
Proof.
  intros Hn. eapply reads_bind; [by apply reads_object|]. intros [o|] rw1 Hq1 Ho; [|by apply reads_ret].
  assert (rw_cache rw1 !! ns = Some n) as Hn1 by (by rewrite (quiet_cache _ _ Hq1)).
  assert (reads (value ← read_blocks rcfg env ns key o; mret (Some value)) rw1 (fun r => match r with
    | Some v => streamed rw (pr_namespace_name (ns_props n)) key o v | None => False end)) as Hb.
  { eapply reads_bind; [by apply reads_read_blocks|]. intros v rw2 _ Hv. apply reads_ret. by eapply quiet_streamed. }
  destruct (o_data o) eqn:Ed; [by apply reads_ret; exists o; rewrite Ed| |];
    (eapply reads_mono; [exact Hb|]; intros [v|] Hv; [|done]; exists o; by rewrite Ed).
Qed.

Lemma reads_check ns key rw n :
  rw_cache rw !! ns = Some n -> reads (ns_check rcfg env ns key) rw (fun _ => True).
Proof.
  intros Hn. eapply reads_bind; [by apply reads_object|]. intros [o|] rw1 Hq1 Ho; [|by apply reads_ret].
  assert (rw_cache rw1 !! ns = Some n) as Hn1 by (by rewrite (quiet_cache _ _ Hq1)).
  eapply reads_bind; [by eapply reads_props|]. intros p rw2 Hq2 ->.
  assert (rw_cache rw2 !! ns = Some n) as Hn2 by (by rewrite (quiet_cache _ _ Hq2)).
  case_decide; [|destruct (o_data o); by (apply reads_ret || apply reads_err)].
  eapply (reads_bind _ _ _ (fun _ => True)); [|intros; by apply reads_ret].
  destruct (o_data o); [by apply reads_ret|..]; (eapply reads_mono; [by apply reads_read_blocks|done]).
Qed.

Lemma reads_keytime ns key rw n :
  rw_cache rw !! ns = Some n -> reads (keytime ns key) rw (fun _ => True).
Proof.
  intros Hn. eapply reads_bind; [by apply reads_object|]. intros [o|] rw1 Hq1 Ho; [|by apply reads_ret].
  destruct (_ <? _); [apply reads_err|by apply reads_ret].
Qed.

Lemma reads_num_keys ns rw n :
  rw_cache rw !! ns = Some n -> reads (ns_num_keys ns) rw (fun z => z = Z.of_nat (tree_size (nskv rw) (ns_tree n))).
Proof.
  intros Hn. eapply reads_bind; [by eapply reads_tree|]. intros t rw1 Hq1 ->. apply reads_meta.
  rewrite <- (quiet_nskv _ _ Hq1). apply tree_len_spec.
Qed.

(** A page of keys in the order [next] gives. *)
Inductive page_of (next : option bytes -> option bytes -> Prop) : nat -> option bytes -> list bytes -> Prop :=
| page_full c : page_of next 0 c []
| page_end k c : next c None -> page_of next (Datatypes.S k) c []
| page_step k c key rest :
    next c (Some key) -> page_of next k (Some key) rest -> page_of next (Datatypes.S k) c (key :: rest).

Definition next_is m t (c key : option bytes) : Prop :=
  match key with Some k => next_key m t c k | None => forall k, ~ next_key m t c k end.
Definition prev_is m t (c key : option bytes) : Prop :=
  match key with Some k => prev_key m t c k | None => forall k, ~ prev_key m t c k end.

Lemma collect_keys_spec (next : option bytes -> M S MetaError (option (bytes * bytes))) R m :
  (forall c s, kv s = m -> wp (next c) s (fun r s' => kv s' = m /\
     match r with Ok o => R c (option_map fst o) | Err _ => True end)) ->
  forall k c s, kv s = m -> wp (collect_keys next k c) s (fun r s' => kv s' = m /\
     match r with Ok l => page_of R k c l | Err _ => True end).
Proof.
  intros Hnext. induction k as [|k IH]; intros c s Hs; [by apply wp_ret; split; [|constructor]|]. cbn [collect_keys].
  apply wp_bind. eapply wp_mono; [by apply Hnext|]. intros [[[key v]|]|e] s1 [Hs1 Hr]; cbn beta iota.
  - apply wp_bind. eapply wp_mono; [by apply (IH (Some key))|]. intros [l|e] s2 [Hs2 Hl]; cbn beta iota; [|done].
    apply wp_ret. split; [done|]. by apply page_step.
  - apply wp_ret. split; [done|]. by apply page_end.
  - done.
Qed.

Lemma reads_scan ns c num rw n :
  rw_cache rw !! ns = Some n -> reads (ns_scan ns c num) rw (page_of (next_is (nskv rw) (ns_tree n)) num c).
Proof.
  intros Hn. eapply reads_bind; [by eapply reads_tree|]. intros t rw1 Hq1 ->. apply reads_meta.
  rewrite <- (quiet_nskv _ _ Hq1). apply collect_keys_spec; [|done].
  intros c' s Hs. eapply wp_mono; [apply tree_next_spec|]. rewrite Hs. intros [[[k v]|]|e] s' [Hk Hr]; (split; [done|]);
    by try destruct Hr.
Qed.

Lemma reads_scan_backward ns c num rw n :
  rw_cache rw !! ns = Some n -> reads (ns_scan_backward ns c num) rw (page_of (prev_is (nskv rw) (ns_tree n)) num c).
Proof.
  intros Hn. eapply reads_bind; [by eapply reads_tree|]. intros t rw1 Hq1 ->. apply reads_meta.
  rewrite <- (quiet_nskv _ _ Hq1). apply collect_keys_spec; [|done].
  intros c' s Hs. eapply wp_mono; [apply tree_prev_spec|]. rewrite Hs. intros [[[k v]|]|e] s' [Hk Hr]; (split; [done|]);
    by try destruct Hr.
Qed.

Lemma reads_list rw :
  reads (for_namespaces env (fun item result =>
    mret (match item with Ok meta => result ++ [BulkString (nm_name meta)] | Err _ => result end)) []) rw (fun _ => True).
Proof.
  eapply reads_mono; [apply (for_namespaces_reads env _ (fun _ _ => True))|]; [done| |done].
  intros. by apply reads_ret.
Qed.

(* ------------------------------------------------------------------ *)
(** * Calls that keep the invariant *)

Definition safe {A} (m : NM A) rw F : Prop :=
  wp m rw (fun _ rw' => RInv rcfg rw' F /\ rw_cache rw' = rw_cache rw).

Lemma safe_reads {A} (m : NM A) rw F P : reads m rw P -> RInv rcfg rw F -> safe m rw F.
Proof.
  unfold reads, safe. intros Hm Hinv. eapply wp_mono; [exact Hm|]. intros r rw' [Hq _].
  split; [by eapply quiet_RInv|by apply quiet_cache].
Qed.

Lemma safe_keeps {A} (m : NM A) rw F : RInv rcfg rw F -> (Stored rcfg rw F -> keeps rcfg m rw F) -> safe m rw F.
Proof.
  unfold keeps, safe. intros Hinv Hm. apply RInv_stored in Hinv as [Hst Hca].
  eapply wp_mono; [exact (Hm Hst)|]. intros r rw' (Hst' & Hc & Hn). split; [|done]. apply RInv_stored.
  split; [done|]. rewrite Hc. by eapply no_new_cas_cache.
Qed.

Lemma safe_bind {A B} (m : NM A) (k : A -> NM B) rw F :
  safe m rw F -> (forall a rw', rw_cache rw' = rw_cache rw -> RInv rcfg rw' F -> safe (k a) rw' F) -> safe (m ≫= k) rw F.
Proof.
  unfold safe. intros Hm Hk. apply wp_bind. eapply wp_mono; [exact Hm|]. intros [a|e] rw' [Hi Hc]; cbn beta iota; [|done].
  eapply wp_mono; [by apply Hk|]. intros r rw2 [Hi2 Hc2]. split; [done|congruence].
Qed.

Lemma safe_ret {A} (a : A) rw F : RInv rcfg rw F -> safe (mret a) rw F.
Proof. by intros. Qed.

(** A write to one namespace's records, as NsSpecs.v describes them. *)
Lemma safe_change rw rw' F m' :
  RInv rcfg rw F -> winv cfg (rw_world rw') F -> rw_cache rw' = rw_cache rw -> nskv rw' = m' ->
  (same_list (nskv rw) m' /\ content_ok rcfg m') \/ m' = nskv rw -> RInv rcfg rw' F.
Proof.
  intros [Hw Hr Hc Hca] Hw' Hcache Hm [[Hl Hc']|Hsame].
  - split; rewrite ?Hcache, ?Hm; [done|by eapply same_list_rows|done|by eapply same_list_cache].
  - split; rewrite ?Hcache, ?Hm, ?Hsame; done.
Qed.

Lemma safe_writes {A} (m : NM A) rw F E :
  writes rcfg m rw F E -> RInv rcfg rw F ->
  (forall m', E (nskv rw) m' -> same_list (nskv rw) m' /\ content_ok rcfg m') -> safe m rw F.
Proof.
  unfold writes, safe. intros Hm Hinv HE. eapply wp_mono; [exact Hm|]. intros r rw' (Hw & Hc & Hr).
  split; [|done]. apply (safe_change rw rw' F (nskv rw')); try done.
  destruct r; [left; by apply HE|]. destruct Hr as [Hr|Hr]; [by right|left; by apply HE].
Qed.

Section Namespace.
Context (ns : bytes) (n : Namespace) (Hres : reserved ns = false).

Lemma cached_name rw F : RInv rcfg rw F -> rw_cache rw !! ns = Some n ->
  pr_namespace_name (ns_props n) = ns /\ ns_tree n = ns /\ (cas_ns (nskv rw) ns -> pr_key_mode (ns_props n) = Cas).
Proof. intros Hinv Hn. by apply (ri_cache _ _ _ Hinv). Qed.

Lemma safe_set key value rw F :
  rw_cache rw !! ns = Some n -> pr_key_mode (ns_props n) <> Cas -> is_i64 (en_now env) ->
  Z.of_nat (length value) < 2 ^ 56 -> RInv rcfg rw F -> safe (ns_set rcfg env ns key value) rw F.
Proof.
  intros Hn Hmode Hnow Hlen Hinv. destruct (cached_name _ _ Hinv Hn) as (Hname & Htree & Hcas).
  apply (safe_writes _ rw F (set_effect env n key value)); [|done|].
  - apply ns_set_spec; [done|by rewrite Hname|by apply inline_wf|apply Hinv].
  - intros m' (_ & _ & _ & Hw). rewrite Hname in Hw.
    eapply (wrote_step rcfg ns key); [done|apply Hinv|apply Hinv|done|]. intros Hc. by apply Hcas in Hc.
Qed.

Lemma safe_del key rw F :
  rw_cache rw !! ns = Some n -> RInv rcfg rw F -> safe (ns_del rcfg ns key) rw F.
Proof.
  intros Hn Hinv. destruct (cached_name _ _ Hinv Hn) as (Hname & Htree & Hcas).
  apply (safe_writes _ rw F (del_effect n key)); [|done|].
  - apply ns_del_spec; [done|by rewrite Hname|apply Hinv].
  - intros m' (_ & _ & d & Ht). rewrite Hname in Ht.
    eapply (taken_step rcfg ns key); [done|apply Hinv|apply Hinv|done].
Qed.

Lemma safe_del_keys self keys : forall removed rw F,
  ch_namespace self = ns -> rw_cache rw !! ns = Some n -> RInv rcfg rw F -> safe (del_keys rcfg self keys removed) rw F.
Proof.
  induction keys as [|key keys IH]; intros removed rw F Hns Hn Hinv; [by apply safe_ret|]. cbn [del_keys].
  apply safe_bind; [rewrite Hns; by apply safe_del|]. intros a rw' Hc Hi. apply IH; [done|by rewrite Hc|done].
Qed.

(** A copy of an addressed record is addressed. *)
Lemma copy_addressed key o : addressed rcfg key o -> addressed rcfg key (copy_of env o).
Proof. done. Qed.

Lemma ingest_step mode value rw F m' :
  rw_cache rw !! ns = Some n -> RInv rcfg rw F -> ingest_effect rcfg env n mode value (nskv rw) m' ->
  same_list (nskv rw) m' /\ content_ok rcfg m'.
Proof.
  intros Hn Hinv [_ Heff]. destruct (cached_name _ _ Hinv Hn) as (Hname & Htree & Hcas).
  destruct Heff as [(source & o & Hsrc & _ & Ho & _ & Hw)|(Hkey & _ & _ & o & Ho & Hw)]; rewrite Hname in Hw.
  - eapply (wrote_step rcfg ns); [done|apply Hinv|apply Hinv|done|]. intros _. apply copy_addressed.
    by apply (ri_content _ _ _ Hinv source).
  - eapply (wrote_step rcfg ns); [done|apply Hinv|apply Hinv|done|]. intros _. by exists value.
Qed.

Context (Hcfg : aw_tmp (cfg_writer cfg) = blocks_root cfg ++ [TMP_DIR_NAME]).

Lemma safe_ingest mode value rw F :
  rw_cache rw !! ns = Some n -> roomy env rw (ingest_key mode value) value -> RInv rcfg rw F ->
  safe (ingest rcfg env ns mode value) rw F.
Proof.
  intros Hn Hroom Hinv. destruct (cached_name _ _ Hinv Hn) as (Hname & Htree & Hcas).
  unfold safe. eapply wp_mono.
  { apply (ingest_spec rcfg env Hcfg ns mode value rw n F Hn); [by rewrite Hname|apply Hinv|done|apply Hinv]. }
  intros r rw' (Hw & Hc & Hr). split; [|done]. apply (safe_change rw rw' F (nskv rw')); try done.
  destruct r as [key|e].
  - destruct Hr as (_ & _ & [[Hr _]|Hr]); [by right|left; by eapply ingest_step].
  - destruct Hr as [Hr|Hr]; [by right|left; by eapply ingest_step].
Qed.
End Namespace.
End Handlers.
