(* ===== verification/GroupCommit.v ===== *)
(** The commit station (cas/group_commit.rs): sealed batches of several
    requests are gathered in submission order and closed together, with one
    landing, one transaction and one persist; when the shared transaction
    fails every member is replayed in a transaction of its own. *)

From S2P Require Import Prelude Bytes Externals BlockIds Codec Records StoreHeader MetaStore Disk Placement MetaOps Accounting Engine.
From Stdlib Require Import Strings.Byte.
Local Open Scope Z_scope.
#[local] Set Warnings "-clear-no-such-hyp".

Record StationStats : Type := mkStationStats {
  gs_groups : Z;
  gs_members : Z;
  gs_largest : Z;
  gs_degraded : Z
}.

(** [fetch_add] wraps. *)
Definition record_group (s : StationStats) (members : Z) : StationStats :=
  mkStationStats (wrap_u64 (gs_groups s + 1)) (wrap_u64 (gs_members s + members))
    (Z.max (gs_largest s) members) (gs_degraded s).
Definition record_degraded (s : StationStats) : StationStats :=
  mkStationStats (gs_groups s) (gs_members s) (gs_largest s) (wrap_u64 (gs_degraded s + 1)).

(* ------------------------------------------------------------------ *)
(** * Gathering *)

Section Gather.
Context {A : Type} (size : A -> nat).

(** One gathering loop: members join while the group is below the cap; the
    one that would overflow it is carried to lead the next group.  Returns the
    members taken, the blocks so far, the carried one and the queue left. *)
Fixpoint drain (cap blocks : nat) (queue : list A) : list A * nat * option A * list A :=
  match queue with
  | [] => ([], blocks, None, [])
  | next :: rest =>
      if (blocks <? cap)%nat then
        if (cap <? blocks + size next)%nat then ([], blocks, Some next, rest)
        else let '(taken, blocks', carried, rest') := drain cap (blocks + size next) rest in
             (next :: taken, blocks', carried, rest')
      else ([], blocks, None, next :: rest)
  end.

(** The committer between two groups. *)
Record Station : Type := mkStation { st_carried : option A; st_queue : list A }.

(** One turn of the committer.  [arrived] is what the window receives before
    its deadline (nothing without a window), [queued] what [try_recv] then
    finds; both come from the queue, in order. *)
Definition gather (cap : nat) (first : A) (arrived queued : list A) : list A * option A * list A :=
  let '(g1, blocks, carried, back) := drain cap (size first) arrived in
  match carried with
  | Some c => (first :: g1, Some c, back ++ queued)
  | None =>
      let '(g2, _, carried, rest) := drain cap blocks (back ++ queued) in
      (first :: g1 ++ g2, carried, rest)
  end.

Definition turn (cap : nat) (s : Station) (window : nat) : option (list A * Station) :=
  match st_carried s, st_queue s with
  | Some first, q => let '(g, c, rest) := gather cap first (take window q) (drop window q) in
                     Some (g, mkStation c rest)
  | None, first :: q => let '(g, c, rest) := gather cap first (take window q) (drop window q) in
                        Some (g, mkStation c rest)
  | None, [] => None
  end.

Definition submit (s : Station) (batch : A) : Station := mkStation (st_carried s) (st_queue s ++ [batch]).

(** What happens at a station: a request hands its batch over, or the
    committer takes a turn (a turn of an idle station waits). *)
Inductive StationEvent : Type := Submitted (batch : A) | Turn (window : nat).

(** [Committer::run], with the submissions interleaved: the groups formed. *)
Fixpoint run_events (cap : nat) (s : Station) (events : list StationEvent) : list (list A) * Station :=
  match events with
  | [] => ([], s)
  | Submitted batch :: events' => run_events cap (submit s batch) events'
  | Turn window :: events' =>
      match turn cap s window with
      | None => run_events cap s events'
      | Some (g, s') => let '(gs, s'') := run_events cap s' events' in (g :: gs, s'')
      end
  end.

Definition submitted (events : list StationEvent) : list A :=
  omap (fun e => match e with Submitted b => Some b | Turn _ => None end) events.
End Gather.
Arguments Submitted {A}.
Arguments Turn {A}.
Arguments mkStation {A}.
Arguments st_carried {A}.
Arguments st_queue {A}.

(* ------------------------------------------------------------------ *)
(** * Closing a group *)

Section CloseGroup.
Context {S T D : Type} `{Store S T, BlockDiskOps D, StdFs D, Blake3, Md5, FasterHex}.
Context (cfg : StoreCfg).
Abbreviation EM := (M (World S D) EngErr).

(** One read per distinct id; a failed read is "no live record". *)
Fixpoint read_live (es : list BatchEntry) (live : gmap BlockId bool) : EM (gmap BlockId bool) :=
  match es with
  | [] => mret live
  | e :: es' =>
      match live !! be_id e with
      | Some _ => read_live es' live
      | None =>
          answer ← M_try (has_live_record (be_id e));
          read_live es' (<[be_id e := match answer with Ok b => b | Err _ => false end]> live)
      end
  end.

(** [live[&entry.id]]; every id of the group has been read. *)
Definition is_live (live : gmap BlockId bool) (i : BlockId) : bool := default false (live !! i).

Definition set_depth (e : BatchEntry) (d : Z) : BatchEntry :=
  mkBatchEntry (be_id e) (be_len e) (be_occurrences e) (be_payload e) (Some d).

(** The overtake of one entry; a failed rewrite leaves it unplaced. *)
Definition overtake_in_group (live : gmap BlockId bool) (placed : gmap BlockId Z) (e : BatchEntry) :
    EM (BatchEntry * gmap BlockId Z) :=
  if is_live live (be_id e) then mret (e, placed) else
  match be_payload e with
  | Staged _ => mret (e, placed)
  | Deduped bs =>
      match placed !! be_id e with
      | Some depth => mret (set_depth e depth, placed)
      | None =>
          depth ← place cfg (be_id e);
          written ← M_try (on_files (write_block (cfg_writer cfg) (be_id e) depth bs));
          mret (match written with
                | Err _ => (e, placed)
                | Ok _ => (set_depth e depth, <[be_id e := depth]> placed)
                end)
      end
  end.

Fixpoint overtake_member (live : gmap BlockId bool) (placed : gmap BlockId Z) (es : list BatchEntry) :
    EM (list BatchEntry * gmap BlockId Z) :=
  match es with
  | [] => mret ([], placed)
  | e :: es' =>
      r ← overtake_in_group live placed e;
      rest ← overtake_member live r.2 es';
      mret (r.1 :: rest.1, rest.2)
  end.

Fixpoint overtake_group (live : gmap BlockId bool) (placed : gmap BlockId Z)
    (members : list (list BatchEntry)) : EM (list (list BatchEntry) * gmap BlockId Z) :=
  match members with
  | [] => mret ([], placed)
  | es :: rest =>
      r ← overtake_member live placed es;
      more ← overtake_group live r.2 rest;
      mret (r.1 :: more.1, more.2)
  end.

(** One staged file lands per distinct new block, the rest are discarded. *)
Fixpoint choose_landing (live : gmap BlockId bool) (placed : gmap BlockId Z) (es : list BatchEntry) :
    EM (list StagedBlock * gmap BlockId Z) :=
  match es with
  | [] => mret ([], placed)
  | e :: es' =>
      match be_payload e with
      | Deduped _ => choose_landing live placed es'
      | Staged b =>
          if is_live live (be_id e) || bool_decide (is_Some (placed !! be_id e)) then
            _ ← on_files (discard_staged b); choose_landing live placed es'
          else
            rest ← choose_landing live (<[be_id e := sb_depth b]> placed) es';
            mret (b :: rest.1, rest.2)
      end
  end.

(** The member with every depth filled in, and whether a block of it has no
    file. *)
Definition settle_entry (live : gmap BlockId bool) (placed : gmap BlockId Z) (e : BatchEntry) : BatchEntry :=
  if is_live live (be_id e) then e
  else match placed !! be_id e with Some depth => set_depth e depth | None => e end.

Definition unplaced (live : gmap BlockId bool) (placed : gmap BlockId Z) (e : BatchEntry) : bool :=
  negb (is_live live (be_id e)) && negb (bool_decide (is_Some (placed !! be_id e))).

Definition settle (live : gmap BlockId bool) (placed : gmap BlockId Z) (es : list BatchEntry) :
    list BatchEntry * option EngErr :=
  (map (settle_entry live placed) es,
   if existsb (unplaced live placed) es
   then Some (io_other "no block file could be placed by this group") else None).

(** The shared transaction: a refused member records nothing. *)
Definition record_member (m : list BatchEntry * option EngErr) : M T EngErr FlushOutcome :=
  match m.2 with
  | Some _ => mret (mkFlushOutcome 0 0)
  | None => inserted ← M_map record_entry m.1; mret (outcome_of inserted)
  end.

Definition group_outcome (m : (list BatchEntry * option EngErr) * FlushOutcome) : result EngErr FlushOutcome :=
  match m.1.2 with Some e => Err e | None => Ok m.2 end.

Definition replay_alone (es : list BatchEntry) : EM FlushOutcome :=
  inserted ← on_shared id (transact EMeta (M_map record_entry es));
  mret (outcome_of inserted).

(** One member of the degraded close.  A panic ends the task. *)
Definition replay_one (m : list BatchEntry * option EngErr) : EM (result EngErr FlushOutcome) :=
  match m.2 with
  | Some e => mret (Err e)
  | None => M_run (fun w => match replay_alone m.1 w with
                            | (Err (EPanic msg), w') => (Err (EPanic msg), w')
                            | (r, w') => (Ok r, w')
                            end)
  end.

Definition replay_each (members : list (list BatchEntry * option EngErr)) : EM (list (result EngErr FlushOutcome)) :=
  M_map replay_one members.

Definition landing_failed (e : EngErr) : EngErr :=
  match e with
  | EIo e => EIo (mkIoError (io_kind e) "landing the group's block files")
  | e => e
  end.

Definition close_group (members : list (list BatchEntry)) (stats : StationStats) :
    EM (list (result EngErr FlushOutcome) * StationStats) :=
  live ← read_live (concat members) ∅;
  overtaken ← overtake_group live ∅ members;
  let '(members, placed) := overtaken in
  chosen ← choose_landing live placed (concat members);
  let '(to_land, placed) := chosen in
  landed ← M_try (on_files (land_batch (cfg_writer cfg) to_land));
  match landed with
  | Err e => mret (map (fun _ => Err (landing_failed e)) members, stats)
  | Ok _ =>
      let settled := map (settle live placed) members in
      M_run (fun w =>
        match on_shared id (transact EMeta (M_map record_member settled)) w with
        | (Ok outcomes, w') => (Ok (map group_outcome (zip settled outcomes), stats), w')
        | (Err (EPanic msg), w') => (Err (EPanic msg), w')
        | (Err _, w') =>
            (outcomes ← replay_each settled; mret (outcomes, record_degraded stats)) w'
        end)
  end.

(** [commit_group]: a panic of the task fails every member. *)
Definition commit_group (members : list (list BatchEntry)) (stats : StationStats) :
    World S D -> (list (result EngErr FlushOutcome) * StationStats) * World S D := fun w =>
  let stats := record_group stats (Z.of_nat (length members)) in
  match close_group members stats w with
  | (Ok r, w') => (r, w')
  | (Err _, w') => ((map (fun _ => Err (io_other "the group commit task did not complete")) members, stats), w')
  end.
End CloseGroup.
