(* ===== verification/GroupSpecs.v ===== *)
(** Guarantees of the commit station (cas/group_commit.rs).

    A group names a block any number of times, and a block whose record could
    not be read is treated as new: its file may be rewritten in place.  That
    is harmless as long as no two different contents share an address, which
    is the hypothesis [len_of] below: the length of a block's bytes is a
    function of its address, among the group's entries and the records of
    their blocks. *)

From S2P Require Import Prelude Bytes Externals BlockIds Codec Records StoreHeader MetaStore Disk Placement MetaOps Accounting Engine BatchSpecs WriteSpecs ObjectSpecs GroupCommit.
From Stdlib Require Import Strings.Byte.
Local Open Scope Z_scope.
#[local] Set Warnings "-clear-no-such-hyp".

(* ------------------------------------------------------------------ *)
(** * Gathering: first come, first served *)

Section Gathering.
Context {A : Type} (size : A -> nat).

Definition total (l : list A) : nat := sum_with size l.

Lemma drain_spec cap queue : forall blocks,
  let '(taken, blocks', carried, rest) := drain size cap blocks queue in
  taken ++ option_list carried ++ rest = queue /\ blocks' = (blocks + total taken)%nat /\
  (blocks' <= Nat.max cap blocks)%nat /\
  (carried = None -> rest <> [] -> (cap <= blocks')%nat) /\
  (forall c, carried = Some c -> (cap < blocks' + size c)%nat).
Proof.
  induction queue as [|next rest IH]; intros blocks; simpl.
  { split_and!; [done|unfold total; simpl; lia|lia|done|done]. }
  destruct (Nat.ltb_spec blocks cap) as [Hlt|Hge].
  - destruct (Nat.ltb_spec cap (blocks + size next)) as [Hov|Hfit].
    + split_and!; [done|unfold total; simpl; lia|lia|done|]. by intros c [= <-].
    + specialize (IH (blocks + size next)%nat).
      destruct (drain size cap (blocks + size next) rest) as [[[taken b'] c] r].
      destruct IH as (Hq & Hb & Hm & Hc & Ho). split_and!; [simpl; by rewrite Hq| |lia|done|done].
      unfold total in *. simpl. unfold sum_with in *. simpl. lia.
  - split_and!; [done|unfold total; simpl; lia|lia|intros; lia|done].
Qed.

Lemma gather_spec cap first arrived queued :
  let '(g, carried, rest) := gather size cap first arrived queued in
  g ++ option_list carried ++ rest = first :: arrived ++ queued /\ g <> [] /\
  (total g <= Nat.max cap (size first))%nat /\
  (carried = None -> rest <> [] -> (cap <= total g)%nat) /\
  (forall c, carried = Some c -> (cap < total g + size c)%nat).
Proof.
  unfold gather. pose proof (drain_spec cap arrived (size first)) as H1.
  destruct (drain size cap (size first) arrived) as [[[g1 b1] c1] back].
  destruct H1 as (Hq1 & Hb1 & Hm1 & Hc1 & Ho1). destruct c1 as [c|].
  - simpl in Hq1. split_and!; [simpl; rewrite <- Hq1, <- app_assoc; done|done| |done|];
      unfold total, sum_with in *; simpl; [lia|]. intros c' [= <-]. specialize (Ho1 c eq_refl). lia.
  - pose proof (drain_spec cap (back ++ queued) b1) as H2.
    destruct (drain size cap b1 (back ++ queued)) as [[[g2 b2] c2] rest].
    destruct H2 as (Hq2 & Hb2 & Hm2 & Hc2 & Ho2). simpl in Hq1.
    assert (total (first :: g1 ++ g2) = b2) as Ht.
    { unfold total, sum_with in *. simpl. rewrite sum_list_with_app. lia. }
    split_and!.
    + simpl. rewrite <- app_assoc, Hq2, app_assoc, Hq1. done.
    + done.
    + rewrite Ht. lia.
    + by rewrite Ht.
    + by rewrite Ht.
Qed.

(** What is waiting, in submission order. *)
Definition waiting (s : Station) : list A := option_list (st_carried s) ++ st_queue s.

Lemma turn_spec cap s window g s' :
  turn size cap s window = Some (g, s') ->
  g ++ waiting s' = waiting s /\ g <> [] /\
  (forall b, head (waiting s) = Some b -> (total g <= Nat.max cap (size b))%nat).
Proof.
  unfold turn, waiting. intros Ht.
  assert (exists first q, waiting s = first :: q /\
    Some (g, s') = (let '(g, c, rest) := gather size cap first (take window q) (drop window q) in
                    Some (g, mkStation c rest))) as (first & q & Hw & Hg).
  { unfold waiting. destruct (st_carried s) as [f|]; [by exists f, (st_queue s)|].
    destruct (st_queue s) as [|f q]; [done|]. by exists f, q. }
  unfold waiting in Hw. rewrite Hw. pose proof (gather_spec cap first (take window q) (drop window q)) as Hs.
  destruct (gather size cap first (take window q) (drop window q)) as [[g0 c] rest]. simplify_eq.
  destruct Hs as (Hq & Hne & Hm & _). rewrite take_drop in Hq. simpl. split_and!; [done|done|].
  by intros b [= <-].
Qed.

Lemma turn_idle cap (s : Station) window : turn size cap s window = None -> waiting s = [].
Proof.
  unfold turn, waiting. destruct (st_carried s) as [f|]; [by repeat case_match|].
  destruct (st_queue s); [done|]. by repeat case_match.
Qed.

Definition within_cap (cap : nat) (g : list A) : Prop :=
  exists first rest, g = first :: rest /\ (total g <= Nat.max cap (size first))%nat.

Lemma run_events_spec cap events : forall s : Station,
  let '(gs, s') := run_events size cap s events in
  concat gs ++ waiting s' = waiting s ++ submitted events /\ Forall (within_cap cap) gs.
Proof.
  induction events as [|[b|v] events IH]; intros s; cbn [run_events submitted omap list_omap].
  - split; [|constructor]. simpl. by rewrite app_nil_r.
  - specialize (IH (submit s b)). destruct (run_events size cap (submit s b) events) as [gs s']. destruct IH as [-> IH].
    split; [|done]. unfold waiting, submit. simpl. by rewrite <- !app_assoc.
  - destruct (turn size cap s v) as [[g s1]|] eqn:Et; [|apply IH].
    destruct (turn_spec _ _ _ _ _ Et) as (Hw & Hne & Hcap). specialize (IH s1).
    destruct (run_events size cap s1 events) as [gs s']. destruct IH as [IH Hall]. split.
    + simpl. rewrite <- app_assoc, IH, app_assoc, Hw. done.
    + constructor; [|done]. destruct g as [|first rest]; [done|]. exists first, rest. split; [done|].
      apply Hcap. by rewrite <- Hw.
Qed.

(** [n] turns in a row serve at least [n] of the batches that wait. *)
Lemma run_turns_drain cap vs : forall s : Station,
  (length (waiting s) <= length vs)%nat -> waiting (run_events size cap s (map Turn vs)).2 = [].
Proof.
  induction vs as [|v vs IH]; intros s Hl; cbn [map run_events].
  { simpl in *. by apply nil_length_inv; lia. }
  destruct (turn size cap s v) as [[g s1]|] eqn:Et.
  - destruct (turn_spec _ _ _ _ _ Et) as (Hw & Hne & _). specialize (IH s1).
    destruct (run_events size cap s1 (map Turn vs)) as [gs s']. simpl. apply IH.
    rewrite <- Hw, length_app in Hl. simpl in Hl. destruct g; [done|]. simpl in Hl. lia.
  - apply IH. rewrite (turn_idle _ _ _ Et). simpl. lia.
Qed.
End Gathering.

(* ------------------------------------------------------------------ *)
(** * What a landing can leave at a final path *)

Section Landing.
Context {D : Type} `{DiskLaws D}.

Lemma wp_conj {S E A} (m : M S E A) (s : S) (P Q : result E A -> S -> Prop) :
  wp m s P -> wp m s Q -> wp m s (fun r s' => P r s' /\ Q r s').
Proof. unfold wp. auto. Qed.

Definition landed_or_not (staged : list StagedBlock) (fl fl' : gmap path bytes) : Prop :=
  forall b, b ∈ staged -> fl' !! final_path b = fl !! final_path b \/
    (is_Some (fl !! temp_path b) /\ fl' !! final_path b = fl !! temp_path b).

Lemma renames_content staged (ds : DiskState D) :
  landable staged ->
  wp (M_iter (fun b => on_disk (rename (temp_path b) (final_path b))) staged) ds (fun _ ds' =>
    landed_or_not staged (dfiles ds) (dfiles ds')).
Proof.
  revert ds. induction staged as [|b staged IH]; intros ds Hl.
  { apply wp_ret. by intros b ?%elem_of_nil. }
  apply wp_bind, wp_on_disk. eapply wp_mono; [apply rename_spec|].
  intros [u|e] d' Hr; cbn beta iota.
  2: { intros b' _. left. unfold dfiles. cbn. by rewrite Hr. }
  destruct Hr as (c & Hc & Hr). set (ds1 := mkDiskState d' _ _).
  pose proof Hl as (Ht & Hf & Hd). simpl in Ht, Hf. apply NoDup_cons in Ht as [Ht _], Hf as [Hf _].
  assert (forall p, p <> temp_path b -> p <> final_path b -> dfiles ds1 !! p = dfiles ds !! p) as Hsame.
  { intros p H1' H2'. unfold dfiles. cbn. by rewrite Hr, lookup_insert_ne, lookup_delete_ne. }
  eapply wp_mono; [apply wp_conj; [apply IH; by eapply landable_cons|apply renames_spec; by eapply landable_cons]|].
  intros r ds2 (Hin & _ & Ha2 & _) b' [->|Hb']%elem_of_cons.
  - right. split; [by exists c|]. rewrite Ha2.
    + unfold dfiles. cbn. rewrite Hr, lookup_insert_eq. done.
    + intros (b2 & Hb2 & [E|E]).
      * apply (Hd b2 b); [by apply elem_of_cons; right|by apply elem_of_cons; left|done].
      * apply Hf. rewrite E. by apply list_elem_of_fmap_2.
  - assert (temp_path b' <> temp_path b /\ temp_path b' <> final_path b /\
            final_path b' <> temp_path b /\ final_path b' <> final_path b) as (N1 & N2 & N3 & N4).
    { split_and!; intros E.
      - apply Ht. rewrite <- E. by apply list_elem_of_fmap_2.
      - apply (Hd b' b); [by apply elem_of_cons; right|by apply elem_of_cons; left|done].
      - apply (Hd b b'); [by apply elem_of_cons; left|by apply elem_of_cons; right|done].
      - apply Hf. rewrite <- E. by apply list_elem_of_fmap_2. }
    specialize (Hin b' Hb'). rewrite !Hsame in Hin by done. done.
Qed.

Lemma land_batch_content w staged (ds : DiskState D) :
  landable staged ->
  wp (land_batch w staged) ds (fun _ ds' => landed_or_not staged (dfiles ds) (dfiles ds')).
Proof.
  intros Hl. apply wp_bind. eapply wp_mono; [by apply renames_content|].
  intros [u|e] ds1 Hok; [|done]. destruct (negb (syncs w)); [by apply wp_ret|].
  eapply wp_mono; [apply quiet_sync_landing|]. intros r ds2 [Hf2 _]. by rewrite Hf2.
Qed.
End Landing.

(* ------------------------------------------------------------------ *)
(** * The file work of a group *)

Section Group.
Context {S T D : Type} `{StoreLaws S T, DiskLaws D, Blake3Laws, Md5, FasterHexLaws}.
Context (cfg : StoreCfg) (Hcfg : aw_tmp (cfg_writer cfg) = blocks_root cfg ++ [TMP_DIR_NAME]).
(** The length of a block's bytes, by address. *)
Context (len_of : BlockId -> Z).
Abbreviation root := (blocks_root cfg).
Abbreviation tmp := (aw_tmp (cfg_writer cfg)).
Implicit Types (w : World S D) (fl : gmap path bytes) (placed : gmap BlockId Z).

Definition good_data (i : BlockId) (data : bytes) : Prop :=
  hash_block (cfg_hasher cfg) data = i /\ Z.of_nat (length data) = len_of i.

(** Block files of [ids] are as they were or hold good bytes; others are as
    they were. *)
Definition file_step (ids : list BlockId) fl fl' : Prop :=
  forall i d, BlockId_wf i ->
    fl' !! block_disk_path i d root = fl !! block_disk_path i d root \/
    i ∈ ids /\ exists data, fl' !! block_disk_path i d root = Some data /\ good_data i data.

Lemma file_step_refl ids fl : file_step ids fl fl.
Proof. intros i d Hi. by left. Qed.

Lemma file_step_trans ids fl1 fl2 fl3 : file_step ids fl1 fl2 -> file_step ids fl2 fl3 -> file_step ids fl1 fl3.
Proof.
  intros H1' H2' i d Hi. destruct (H2' i d Hi) as [E2|?]; [|by right]. rewrite E2. by apply H1'.
Qed.

Lemma file_step_mono ids ids' fl fl' : ids ⊆ ids' -> file_step ids fl fl' -> file_step ids' fl fl'.
Proof. intros Hs Hf i d Hi. destruct (Hf i d Hi) as [?|[? ?]]; [by left|right]. split; [by apply Hs|done]. Qed.

(** The records of the group's blocks state the right length. *)
Definition sizes_ok (m : kvmap) (ids : list BlockId) : Prop :=
  forall i b, i ∈ ids -> block_at m i = Some b -> is_degraded b = false -> b_size b = len_of i.

Lemma inv_file_step ns m ids fl fl' F :
  sizes_ok m ids -> file_step ids fl fl' ->
  Inv (cfg_hasher cfg) root ns m fl F -> Inv (cfg_hasher cfg) root ns m fl' F.
Proof.
  intros Hsz Hf [Hr Hfiles]. split; [done|]. intros i b Hi Hb Hd.
  destruct (Hf i (b_depth b) Hi) as [E|(Hin & data & E & Hh & Hl)].
  - rewrite E. by apply Hfiles.
  - exists data. split_and!; [done|done|]. by rewrite Hl, (Hsz i b Hin Hb Hd).
Qed.

Definition placed_ok placed fl : Prop :=
  forall i d, placed !! i = Some d -> BlockId_wf i /\ is_u8 d /\
    exists data, fl !! block_disk_path i d root = Some data /\ good_data i data.

Lemma placed_ok_step ids placed fl fl' : file_step ids fl fl' -> placed_ok placed fl -> placed_ok placed fl'.
Proof.
  intros Hf Hp i d Hd. destruct (Hp i d Hd) as (Hi & Hu & data & E & Hg). split_and!; [done|done|].
  destruct (Hf i d Hi) as [E'|(_ & ?)]; [|done]. exists data. by rewrite E'.
Qed.

(** One stretch of the file work: only files have changed, the temp files of
    nonces below [n0] outside [X] not at all, and [c] nonces were drawn. *)
Definition group_step (ids : list BlockId) (n0 : Z) (X : path -> Prop) (c : nat) w w' : Prop :=
  same_dbs w w' /\ wnonce w <= wnonce w' <= wnonce w + Z.of_nat c /\
  file_step ids (wfiles w) (wfiles w') /\
  forall i k, 0 <= k < n0 -> ~ X (temp_name tmp (to_hex i) k) ->
    wfiles w' !! temp_name tmp (to_hex i) k = wfiles w !! temp_name tmp (to_hex i) k.

Lemma group_step_refl ids n0 X w w' c : same_dbs w w' -> w_disk w' = w_disk w -> group_step ids n0 X c w w'.
Proof.
  intros Hs Hd. unfold group_step, wnonce, wfiles. rewrite Hd. split_and!; [done|lia|lia|apply file_step_refl|done].
Qed.

Lemma group_step_trans ids n0 X c1 c2 w1 w2 w3 :
  group_step ids n0 X c1 w1 w2 -> group_step ids n0 X c2 w2 w3 -> group_step ids n0 X (c1 + c2) w1 w3.
Proof.
  intros (Hs1 & Hn1 & Hf1 & Ht1) (Hs2 & Hn2 & Hf2 & Ht2). split_and!.
  - by eapply same_dbs_trans.
  - lia.
  - lia.
  - by eapply file_step_trans.
  - intros i k Hk HX. by rewrite Ht2, Ht1.
Qed.

Lemma group_step_mono ids ids' n0 (X X' : path -> Prop) c c' w w' :
  ids ⊆ ids' -> (forall p, X p -> X' p) -> (c <= c')%nat ->
  group_step ids n0 X c w w' -> group_step ids' n0 X' c' w w'.
Proof.
  intros Hi HX Hc (Hs & Hn & Hf & Ht). split_and!; [done|lia|lia|by eapply file_step_mono|].
  intros i k Hk Hx. apply Ht; [done|]. intros Hp. by apply Hx, HX.
Qed.

(** An entry whose bytes are good. *)
Definition group_entry fl (n : Z) (e : BatchEntry) : Prop :=
  entry_ok cfg fl n e /\ be_len e = len_of (be_id e).

(** What the passes keep of an entry. *)
Definition same_entry (e e' : BatchEntry) : Prop :=
  be_id e' = be_id e /\ be_len e' = be_len e /\ be_occurrences e' = be_occurrences e /\
  be_payload e' = be_payload e /\ forall b, be_payload e = Staged b -> e' = e.

Definition deduped_good (e : BatchEntry) : Prop :=
  BlockId_wf (be_id e) /\ forall bs, be_payload e = Deduped bs -> good_data (be_id e) bs.

Lemma group_entry_deduped fl n e : group_entry fl n e -> deduped_good e.
Proof.
  intros [Hok Hl]. split; [by eapply entry_ok_wf|]. intros bs Hp.
  destruct Hok as (_ & _ & _ & data & Hd & Hh & Hdl). unfold entry_data in Hd. rewrite Hp in Hd. injection Hd as <-.
  split; [done|]. by rewrite Hdl.
Qed.

Lemma overtake_in_group_spec live placed e w n0 :
  deduped_good e -> placed_ok placed (wfiles w) -> 0 <= n0 <= wnonce w -> wnonce w + 1 <= u64_max ->
  wp (overtake_in_group cfg live placed e) w (fun r w' => group_step [be_id e] n0 (fun _ => False) 1 w w' /\
    exists e' placed', r = Ok (e', placed') /\ same_entry e e' /\ placed_ok placed' (wfiles w')).
Proof.
  intros [Hi Hg] Hpl Hn0 Hn. unfold overtake_in_group.
  assert (forall e', same_entry e e' ->
    wp (mret (e', placed) : M (World S D) EngErr (BatchEntry * gmap BlockId Z)) w
      (fun r w' => group_step [be_id e] n0 (fun _ => False) 1 w w' /\
       exists e' placed', r = Ok (e', placed') /\ same_entry e e' /\ placed_ok placed' (wfiles w'))) as Hskip.
  { intros e' He'. apply wp_ret. split; [by apply group_step_refl|]. by exists e', placed. }
  assert (same_entry e e) as Hee by done.
  destruct (is_live live (be_id e)); [by apply Hskip|].
  destruct (be_payload e) as [sb|bs] eqn:Ep; [by apply Hskip|].
  assert (forall d, same_entry e (set_depth e d)) as Hset.
  { intros d. split_and!; [done..|]. intros b Hb. congruence. }
  destruct (placed !! be_id e) as [dp|] eqn:El; [by apply Hskip|].
  apply wp_bind. eapply wp_mono; [by apply place_spec|].
  intros r w1 (Hs1 & Hd1 & d & -> & Hd). cbn beta iota.
  apply wp_bind, wp_try, wp_on_files. rewrite Hd1.
  eapply wp_mono; [apply write_block_spec; by apply (tmp_not_block cfg Hcfg)|].
  intros r ds' [Hst Hr]. cbn beta iota. apply wp_ret.
  set (w2 := mkWorld (w_ns w1) (w_shared w1) ds' (w_counters w1)).
  set (final := block_disk_path (be_id e) d root) in *.
  assert (agree_off (fun p => p = next_temp (cfg_writer cfg) (be_id e) (w_disk w) \/ p = final) (wfiles w) (wfiles w2) /\
    (wfiles w2 !! final = wfiles w !! final \/ wfiles w2 !! final = Some bs)) as [Ha Hfin].
  { destruct r as [p|err].
    - destruct Hr as [_ Hf]. unfold wfiles. simpl. rewrite Hf. split; [apply agree_off_insert; by right|].
      right. apply lookup_insert_eq.
    - exact Hr. }
  assert (group_step [be_id e] n0 (fun _ => False) 1 w w2) as Hstep.
  { split_and!; [exact Hs1|..].
    - unfold wnonce in *. simpl. destruct Hst as [->| ->]; [lia|]. rewrite wrap_u64_small by lia. lia.
    - unfold wnonce in *. simpl. destruct Hst as [->| ->]; [lia|]. rewrite wrap_u64_small by lia. lia.
    - intros j d' Hj. destruct (decide (block_disk_path j d' root = final)) as [E|Hne].
      + rewrite E. apply block_disk_path_name_inj in E as ->; [|done|done].
        destruct Hfin as [->|Hb]; [by left|right]. split; [by left|]. exists bs. split; [done|by apply Hg].
      + left. apply Ha. intros [E|E]; [|done]. symmetry in E. revert E. by apply (tmp_not_block cfg Hcfg).
    - intros j k Hk _. apply Ha. intros [E|E].
      + unfold next_temp, to_hex in E. apply temp_name_inj in E as [_ E]; [|lia|unfold wnonce in Hn0; lia].
        unfold wnonce in Hn0. lia.
      + revert E. by apply (tmp_not_block cfg Hcfg). }
  split; [done|]. destruct r as [p|err].
  - eexists _, _. split; [done|]. split; [done|]. intros j d' Hj.
    destruct (decide (j = be_id e)) as [->|Hne].
    + rewrite lookup_insert_eq in Hj. injection Hj as <-. split_and!; [done|done|]. exists bs.
      destruct Hr as [_ Hf]. split; [|by apply Hg]. unfold wfiles. simpl. rewrite Hf. apply lookup_insert_eq.
    + rewrite lookup_insert_ne in Hj by done. destruct Hstep as (_ & _ & Hf & _). by eapply placed_ok_step.
  - eexists _, _. split; [done|]. split; [done|]. destruct Hstep as (_ & _ & Hf & _). by eapply placed_ok_step.
Qed.

Lemma group_step_ids e es n0 X c w w' :
  group_step [be_id e] n0 X c w w' -> group_step (map be_id (e :: es)) n0 X c w w'.
Proof. apply group_step_mono; [|done|lia]. simpl. set_solver. Qed.

Lemma overtake_member_spec live es : forall placed w n0,
  Forall deduped_good es -> placed_ok placed (wfiles w) -> 0 <= n0 <= wnonce w ->
  wnonce w + Z.of_nat (length es) <= u64_max ->
  wp (overtake_member cfg live placed es) w (fun r w' =>
    group_step (map be_id es) n0 (fun _ => False) (length es) w w' /\
    exists es' placed', r = Ok (es', placed') /\ Forall2 same_entry es es' /\ placed_ok placed' (wfiles w')).
Proof.
  induction es as [|e es IH]; intros placed w n0 Hg Hpl Hn0 Hn; cbn [overtake_member].
  { apply wp_ret. split; [by apply group_step_refl|]. by exists [], placed. }
  apply Forall_cons in Hg as [He Hg]. cbn [length] in Hn.
  apply wp_bind. eapply wp_mono; [apply (overtake_in_group_spec live placed e w n0); [done|done|done|lia]|].
  intros r w1 (Hst1 & e' & pl1 & -> & Hsame & Hpl1). cbn beta iota.
  pose proof Hst1 as (_ & Hn1 & _ & _). apply wp_bind.
  eapply wp_mono; [apply (IH pl1 w1 n0); [done|done|lia|simpl in Hn1; lia]|].
  intros r w2 (Hst2 & es' & pl2 & -> & HF & Hpl2). cbn beta iota. apply wp_ret. cbn [fst snd].
  split.
  - apply (group_step_trans _ _ _ 1 (length es) w w1 w2); [by apply group_step_ids|].
    eapply group_step_mono; [..|exact Hst2]; [simpl; set_solver|done|reflexivity].
  - exists (e' :: es'), pl2. split_and!; [done|by constructor|done].
Qed.

Lemma overtake_group_spec live ms : forall placed w n0,
  Forall deduped_good (concat ms) -> placed_ok placed (wfiles w) -> 0 <= n0 <= wnonce w ->
  wnonce w + Z.of_nat (length (concat ms)) <= u64_max ->
  wp (overtake_group cfg live placed ms) w (fun r w' =>
    group_step (map be_id (concat ms)) n0 (fun _ => False) (length (concat ms)) w w' /\
    exists ms' placed', r = Ok (ms', placed') /\ Forall2 (Forall2 same_entry) ms ms' /\ placed_ok placed' (wfiles w')).
Proof.
  induction ms as [|es ms IH]; intros placed w n0 Hg Hpl Hn0 Hn; cbn [overtake_group].
  { apply wp_ret. split; [by apply group_step_refl|]. by exists [], placed. }
  simpl in Hg, Hn. apply Forall_app in Hg as [He Hg]. rewrite length_app in Hn.
  apply wp_bind. eapply wp_mono; [apply (overtake_member_spec live es placed w n0); [done|done|done|lia]|].
  intros r w1 (Hst1 & es' & pl1 & -> & HF1 & Hpl1). cbn beta iota.
  pose proof Hst1 as (_ & Hn1 & _ & _). apply wp_bind.
  eapply wp_mono; [apply (IH pl1 w1 n0); [done|done|lia|lia]|].
  intros r w2 (Hst2 & ms' & pl2 & -> & HF & Hpl2). cbn beta iota. apply wp_ret. cbn [fst snd].
  split.
  - simpl. rewrite length_app, map_app. eapply (group_step_trans _ _ _ _ _ w w1 w2);
      (eapply group_step_mono; [..|eassumption]); (done || reflexivity || set_solver).
  - exists (es' :: ms'), pl2. split_and!; [done|by constructor|done].
Qed.

(** The map of reads never calls a block live that is not. *)
Definition live_sound (m : kvmap) (live : gmap BlockId bool) : Prop :=
  forall i, is_live live i = true -> live_at m i = true.

Lemma read_live_spec es : forall live w,
  live_sound (kv (w_shared w)) live ->
  wp (read_live es live) w (fun r w' => same_dbs w w' /\ w_disk w' = w_disk w /\
    exists live', r = Ok live' /\ live_sound (kv (w_shared w)) live').
Proof.
  induction es as [|e es IH]; intros live w Hl; cbn [read_live].
  { apply wp_ret. split_and!; [done|done|by exists live]. }
  destruct (live !! be_id e); [by apply IH|].
  apply wp_bind, wp_try. eapply wp_mono; [apply has_live_spec|].
  intros a w1 (Hs1 & Hd1 & Ha). cbn beta iota. pose proof Hs1 as [_ Hk1].
  eapply wp_mono; [apply IH|].
  - rewrite Hk1. intros i. unfold is_live. destruct (decide (i = be_id e)) as [->|Hne].
    + rewrite lookup_insert_eq. simpl. destruct a as [b|err]; [|done]. by subst b.
    + rewrite lookup_insert_ne by done. apply Hl.
  - rewrite Hk1. intros r w2 (Hs2 & Hd2 & Hr). split_and!; [by eapply same_dbs_trans|congruence|done].
Qed.

(* ------------------------------------------------------------------ *)
(** * Landing *)

(** The staged entries chosen for landing, one per new block. *)
Record landing placed (es : list BatchEntry) (ls : list BatchEntry) (to_land : list StagedBlock)
    (placed' : gmap BlockId Z) : Prop := mkLanding {
  ld_staged : Forall2 (fun e b => be_payload e = Staged b) ls to_land;
  ld_from : forall e, e ∈ ls -> e ∈ es;
  ld_ids : NoDup (map be_id ls);
  ld_new : forall e, e ∈ ls -> placed !! be_id e = None;
  ld_placed : forall i d, placed' !! i = Some d ->
    placed !! i = Some d \/ exists e b, e ∈ ls /\ be_payload e = Staged b /\ be_id e = i /\ sb_depth b = d
}.

Lemma temp_paths_cons_staged e b es : be_payload e = Staged b -> temp_paths (e :: es) = temp_path b :: temp_paths es.
Proof. intros Hp. unfold temp_paths. simpl. by rewrite Hp. Qed.

Lemma temp_paths_cons_deduped e bs es : be_payload e = Deduped bs -> temp_paths (e :: es) = temp_paths es.
Proof. intros Hp. unfold temp_paths. simpl. by rewrite Hp. Qed.

Lemma elem_of_temp_paths e b es : e ∈ es -> be_payload e = Staged b -> temp_path b ∈ temp_paths es.
Proof. intros He Hp. unfold temp_paths. apply list_elem_of_omap. exists e. by rewrite Hp. Qed.

Lemma choose_landing_spec live es : forall placed w,
  NoDup (temp_paths es) ->
  wp (choose_landing live placed es) w (fun r w' =>
    same_dbs w w' /\ wnonce w' = wnonce w /\
    agree_off (fun p => p ∈ temp_paths es) (wfiles w) (wfiles w') /\
    exists ls to_land placed', r = Ok (to_land, placed') /\ landing placed es ls to_land placed' /\
      forall b, b ∈ to_land -> wfiles w' !! temp_path b = wfiles w !! temp_path b).
Proof.
  induction es as [|e es IH]; intros placed w Hnd; cbn [choose_landing].
  { apply wp_ret. split_and!; [done|done|done|]. exists [], [], placed. split_and!; [done| |set_solver].
    split; [constructor|set_solver|constructor|set_solver|by left]. }
  destruct (be_payload e) as [b|bs] eqn:Ep; cycle 1.
  { rewrite (temp_paths_cons_deduped e bs) in * by done. eapply wp_mono; [by apply (IH placed w)|].
    intros r w' (Hs & Hn & Ha & ls & tl & pl & -> & Hl & Hk). split_and!; [done|done|done|].
    exists ls, tl, pl. split_and!; [done| |done]. destruct Hl. split; [done|set_solver|done|done|done]. }
  rewrite (temp_paths_cons_staged e b) in * by done. apply NoDup_cons in Hnd as [Hni Hnd].
  destruct (is_live live (be_id e) || bool_decide (is_Some (placed !! be_id e))) eqn:Esk.
  - apply wp_bind, wp_on_files. eapply wp_mono; [apply discard_staged_spec|].
    intros r ds' (-> & Hn1 & Ha1). cbn [map_err].
    set (w1 := mkWorld (w_ns w) (w_shared w) ds' (w_counters w)).
    eapply wp_mono; [by apply (IH placed w1)|].
    intros r w' (Hs & Hn & Ha & ls & tl & pl & -> & Hl & Hk). split_and!; [done|by rewrite Hn| |].
    { eapply agree_off_trans; [eapply agree_off_mono; [exact Ha1|]|eapply agree_off_mono; [exact Ha|]]; set_solver. }
    exists ls, tl, pl. split_and!; [done| |].
    { destruct Hl. split; [done|set_solver|done|done|done]. }
    intros b' Hb'. rewrite Hk by done. apply Ha1. intros E. apply Hni. rewrite <- E.
    destruct Hl. apply list_elem_of_lookup in Hb' as [j Hj].
    destruct (Forall2_lookup_r _ _ _ _ _ ld_staged0 Hj) as (e' & He' & Hp'). apply list_elem_of_lookup_2 in He'.
    eapply elem_of_temp_paths; eauto.
  - apply orb_false_iff in Esk as [_ Esk]. apply bool_decide_eq_false in Esk.
    assert (placed !! be_id e = None) as Hnew by (by apply eq_None_not_Some).
    apply wp_bind. eapply wp_mono; [by apply (IH (<[be_id e := sb_depth b]> placed) w)|].
    intros r w' (Hs & Hn & Ha & ls & tl & pl & -> & Hl & Hk). cbn beta iota. apply wp_ret. cbn [fst snd].
    split_and!; [done|done|eapply agree_off_mono; [exact Ha|]; set_solver|].
    destruct Hl as [Hst Hfrom Hids Hnw Hpl]. exists (e :: ls), (b :: tl), pl. split_and!; [done| |].
    + split; [by constructor|set_solver|..].
      * simpl. apply NoDup_cons. split; [|done]. intros (e' & E & He')%list_elem_of_fmap.
        specialize (Hnw e' He'). rewrite <- E, lookup_insert_eq in Hnw. done.
      * intros e' [->|He']%elem_of_cons; [done|]. specialize (Hnw e' He'). destruct (decide (be_id e' = be_id e)) as [E|Hne].
        { by rewrite E, lookup_insert_eq in Hnw. } by rewrite lookup_insert_ne in Hnw.
      * intros i d Hd. destruct (Hpl i d Hd) as [Hi|(e' & b' & He' & Hp' & Hid & Hdp)].
        -- destruct (decide (i = be_id e)) as [->|Hne].
           ++ rewrite lookup_insert_eq in Hi. injection Hi as <-. right. exists e, b. set_solver.
           ++ rewrite lookup_insert_ne in Hi by done. by left.
        -- right. exists e', b'. set_solver.
    + intros b' [->|Hb']%elem_of_cons; [|by apply Hk]. by apply Ha.
Qed.

Lemma landing_lands placed es ls tl placed' :
  landing placed es ls tl placed' -> lands (map (fun e => (e, live_at ∅ (be_id e))) ls) = tl.
Proof.
  intros [Hst _ _ _ _]. induction Hst as [|e b ls tl Hp _ IH]; [done|].
  unfold lands in *. cbn [map omap list_omap fst snd]. rewrite Hp.
  assert (live_at ∅ (be_id e) = false) as -> by done. by rewrite IH.
Qed.

Lemma landing_source placed es ls tl placed' b :
  landing placed es ls tl placed' -> b ∈ tl -> exists e, e ∈ ls /\ be_payload e = Staged b.
Proof.
  intros [Hst _ _ _ _] [j Hj]%list_elem_of_lookup. destruct (Forall2_lookup_r _ _ _ _ _ Hst Hj) as (e & He & Hp).
  exists e. split; [by eapply list_elem_of_lookup_2|done].
Qed.

Lemma land_group_spec fl0 n0 es placed ls tl placed' w :
  landing placed es ls tl placed' ->
  (forall e, e ∈ ls -> group_entry fl0 n0 e) ->
  (forall b, b ∈ tl -> wfiles w !! temp_path b = fl0 !! temp_path b) ->
  placed_ok placed (wfiles w) ->
  wp (on_files (land_batch (cfg_writer cfg) tl)) w (fun r w' =>
    same_dbs w w' /\ wnonce w' = wnonce w /\ file_step (map be_id es) (wfiles w) (wfiles w') /\
    match r with Ok _ => placed_ok placed' (wfiles w') | Err e => no_panic e end).
Proof.
  intros Hl Hok Htemp Hpl. apply wp_on_files.
  assert (landable tl) as Hlandable.
  { rewrite <- (landing_lands _ _ _ _ _ Hl). apply (lands_landable cfg Hcfg ∅ n0); [apply Hl|].
    apply Forall_forall. intros e He. destruct (Hok e He) as [Ho _].
    split; [by eapply entry_ok_wf|apply Ho]. }
  assert (forall b, b ∈ tl -> exists e data, e ∈ ls /\ be_payload e = Staged b /\ BlockId_wf (be_id e) /\
    is_u8 (sb_depth b) /\ final_path b = block_disk_path (be_id e) (sb_depth b) root /\
    (exists k, temp_path b = temp_name tmp (to_hex (be_id e)) k) /\
    wfiles w !! temp_path b = Some data /\ good_data (be_id e) data) as Hb.
  { intros b Hin. destruct (landing_source _ _ _ _ _ b Hl Hin) as (e & He & Hp).
    destruct (Hok e He) as [Ho Hlen]. pose proof (entry_ok_wf _ _ _ _ Ho) as Hwf.
    destruct Ho as (_ & _ & Hst & data & Hd & Hh & Hdl). unfold staged_for in Hst. rewrite Hp in Hst.
    destruct Hst as (_ & Hu & Hf & k & _ & Hk). unfold entry_data in Hd. rewrite Hp in Hd.
    exists e, data. rewrite Htemp by done. do 5 (split; [done|]). split; [by exists k|]. split; [done|].
    split; [done|]. by rewrite Hdl. }
  eapply wp_mono; [apply wp_conj; [by apply land_batch_spec|by apply land_batch_content]|].
  intros r ds' ((Hn & Ha & Hr) & Hc). cbn beta.
  set (w' := mkWorld (w_ns w) (w_shared w) ds' (w_counters w)).
  assert (file_step (map be_id es) (wfiles w) (wfiles w')) as Hstep.
  { intros i d Hi. destruct (decide (Exists (fun b => final_path b = block_disk_path i d root) tl)) as [Hex|Hno].
    - apply Exists_exists in Hex as (b & Hin & E).
      destruct (Hb b Hin) as (e & data & He & Hp & Hwf & _ & Hf & _ & Hd & Hg).
      rewrite Hf in E. assert (i = be_id e) as -> by (symmetry; by eapply block_disk_path_name_inj).
      rewrite <- E, <- Hf. destruct (Hc b Hin) as [Eq|[_ Eq]]; [by left|right].
      split; [apply list_elem_of_fmap; exists e; split; [done|by apply (ld_from _ _ _ _ _ Hl)]|].
      exists data. split; [|done]. unfold wfiles in *. simpl. by rewrite Eq.
    - left. apply Ha. intros (b & Hin & [E|E]).
      + destruct (Hb b Hin) as (e & data & _ & _ & _ & _ & _ & (k & Hk) & _). rewrite Hk in E.
        symmetry in E. revert E. by apply (tmp_not_block cfg Hcfg).
      + apply Hno, Exists_exists. exists b. by split. }
  split_and!; [done|done|done|]. destruct r as [u|e]; simpl; [|done].
  intros i d Hd. destruct (ld_placed _ _ _ _ _ Hl i d Hd) as [Hi|(e & b & He & Hp & <- & <-)].
  - by apply (placed_ok_step _ _ _ _ Hstep Hpl).
  - assert (b ∈ tl) as Hin.
    { destruct Hl as [Hst _ _ _ _]. apply list_elem_of_lookup in He as [j Hj].
      destruct (Forall2_lookup_l _ _ _ _ _ Hst Hj) as (b' & Hj' & Hp'). rewrite Hp in Hp'. injection Hp' as <-.
      by eapply list_elem_of_lookup_2. }
    destruct (Hb b Hin) as (e1 & data & He1 & Hp1 & Hwf & Hu & Hf & _ & Hdat & Hg).
    assert (be_id e1 = be_id e) as Eid.
    { destruct (Hok e He) as [Ho _]. pose proof (entry_ok_wf _ _ _ _ Ho).
      destruct Ho as (_ & _ & Hst & _). unfold staged_for in Hst. rewrite Hp in Hst.
      destruct Hst as (_ & _ & Hf' & _). rewrite Hf in Hf'. by eapply block_disk_path_name_inj. }
    rewrite <- Eid. split_and!; [done|done|]. exists data. split; [|done]. rewrite <- Hf.
    destruct (Hr b Hin) as [_ Eq]. unfold wfiles in *. simpl. by rewrite Eq.
Qed.

(* ------------------------------------------------------------------ *)
(** * What is recorded *)

(** The references the members with a success answer hold. *)
Definition committed_refs (refs : list (list BlockId)) (outs : list (result EngErr FlushOutcome)) : list BlockId :=
  concat (zip_with (fun l (r : result EngErr FlushOutcome) => match r with Ok _ => l | Err _ => [] end) refs outs).

Definition member_refs (m : list BatchEntry * option EngErr) : list BlockId :=
  match m.2 with Some _ => [] | None => batch_refs m.1 end.

(** A settled member: refused, or recordable in full. *)
Definition settled_ok fl (m : kvmap) (s : list BatchEntry * option EngErr) : Prop :=
  match s.2 with
  | Some e => no_panic e
  | None => Forall (recordable (cfg_hasher cfg) root fl m) s.1
  end.

Lemma settled_ok_counted fl l m m' s : counted l m m' -> settled_ok fl m s -> settled_ok fl m' s.
Proof.
  intros Hc. unfold settled_ok. destruct s.2; [done|]. intros Hs. eapply Forall_impl; [exact Hs|].
  intros e. by eapply recordable_counted.
Qed.

Lemma settle_ok live placed fl m es :
  live_sound m live -> placed_ok placed fl ->
  Forall (fun e => BlockId_wf (be_id e) /\ (1 <= be_occurrences e)%nat /\ is_usize (be_len e) /\
            be_len e = len_of (be_id e)) es ->
  settled_ok fl m (settle live placed es) /\ batch_refs (settle live placed es).1 = batch_refs es.
Proof.
  intros Hlive Hpl Hes.
  assert (forall e, be_id (settle_entry live placed e) = be_id e /\
    be_occurrences (settle_entry live placed e) = be_occurrences e /\
    be_len (settle_entry live placed e) = be_len e) as Hsame.
  { intros e. unfold settle_entry. destruct (is_live _ _); [done|]. by destruct (placed !! _). }
  split.
  - unfold settle, settled_ok. simpl. destruct (existsb (unplaced live placed) es) eqn:Eu; [done|].
    apply Forall_map, Forall_forall. intros e He. rewrite Forall_forall in Hes.
    destruct (Hes e He) as (Hi & Ho & Hl & Hlen). destruct (Hsame e) as (E1 & E2 & E3).
    unfold recordable. rewrite E1, E2, E3. do 3 (split; [done|]). intros Hdead.
    assert (is_live live (be_id e) = false) as Hil.
    { destruct (is_live live (be_id e)) eqn:E; [|done]. apply Hlive in E. congruence. }
    assert (unplaced live placed e = false) as Hup.
    { destruct (unplaced live placed e) eqn:E; [|done]. rewrite <- Eu. symmetry. apply existsb_exists.
      exists e. split; [by apply list_elem_of_In|done]. }
    unfold unplaced in Hup. rewrite Hil in Hup. simpl in Hup. apply negb_false_iff, bool_decide_eq_true in Hup.
    destruct Hup as [d Hd]. destruct (Hpl _ _ Hd) as (_ & Hu & data & Hf & Hh & Hdl).
    exists d. unfold settle_entry. rewrite Hil, Hd. split; [done|]. split; [done|]. exists data.
    split_and!; [done|done|congruence].
  - unfold settle, batch_refs. simpl. rewrite map_map. f_equal. apply map_ext.
    intros e. destruct (Hsame e) as (-> & -> & _). done.
Qed.

Lemma record_member_counts ns fl s (t : T) F :
  settled_ok fl (txkv t) s ->
  (forall i, BlockId_wf i -> rc_of (txkv t) i + Z.of_nat (occ i (member_refs s)) <= usize_max) ->
  Inv (cfg_hasher cfg) root ns (txkv t) fl F ->
  wp (record_member s) t (fun r t' =>
    txbase t' = txbase t /\
    match r with
    | Ok _ => counted (member_refs s) (txkv t) (txkv t') /\
        Inv (cfg_hasher cfg) root ns (txkv t') fl (add_refs F (member_refs s))
    | Err err => no_panic err
    end).
Proof.
  unfold settled_ok, member_refs, record_member. destruct s.2 as [e|]; intros Hs Hroom Hinv.
  - apply wp_ret. split_and!; [done|apply counted_nil|]. eapply inv_mono; [|exact Hinv].
    intros j. unfold add_refs. simpl. lia.
  - apply wp_bind. eapply wp_mono; [apply (record_all_counts _ _ _ _ s.1 t F Hs Hroom Hinv)|].
    intros [ins|err] t' [Hb Hr]; cbn beta iota; [by apply wp_ret|done].
Qed.

Lemma record_members_counts ns fl ss : forall (t : T) F,
  Forall (settled_ok fl (txkv t)) ss ->
  (forall i, BlockId_wf i -> rc_of (txkv t) i + Z.of_nat (occ i (concat (map member_refs ss))) <= usize_max) ->
  Inv (cfg_hasher cfg) root ns (txkv t) fl F ->
  wp (M_map record_member ss) t (fun r t' =>
    txbase t' = txbase t /\
    match r with
    | Ok outs => length outs = length ss /\ counted (concat (map member_refs ss)) (txkv t) (txkv t') /\
        Inv (cfg_hasher cfg) root ns (txkv t') fl (add_refs F (concat (map member_refs ss)))
    | Err err => no_panic err
    end).
Proof.
  induction ss as [|s ss IH]; intros t F Hok Hroom Hinv.
  { apply wp_ret. split_and!; [done|done|apply counted_nil|]. eapply inv_mono; [|exact Hinv].
    intros j. unfold add_refs. simpl. lia. }
  apply Forall_cons in Hok as [He Hok]. simpl in Hroom. setoid_rewrite occ_app in Hroom.
  apply (wp_bind (record_member s)).
  eapply wp_mono; [apply (record_member_counts ns fl s t F He); [|done]|].
  { intros i Hi. specialize (Hroom i Hi). lia. }
  intros [o|err] t1 [Hb1 Hr1]; cbn beta iota; [|done]. destruct Hr1 as (Hc1 & Hinv1).
  apply (wp_bind (M_map record_member ss)). eapply wp_mono; [eapply (IH t1); [..|exact Hinv1]|].
  - eapply Forall_impl; [exact Hok|]. intros s'. by eapply settled_ok_counted.
  - intros i Hwf. destruct Hc1 as (Hrc & _). rewrite Hrc by done. specialize (Hroom i Hwf). lia.
  - intros [os|err] t2 [Hb2 Hr2]; cbn beta iota; [|by rewrite Hb2]. apply wp_ret.
    destruct Hr2 as (Hlen & Hc2 & Hinv2). rewrite Hb2. split_and!; [done|simpl; lia|by eapply counted_app|].
    simpl. eapply inv_mono; [|exact Hinv2]. intros i. by rewrite add_refs_app.
Qed.

(** The shared transaction: every accepted member or none. *)
Lemma group_tx_counts ns fl ss (s : S) F :
  Forall (settled_ok fl (kv s)) ss ->
  (forall i, BlockId_wf i -> rc_of (kv s) i + Z.of_nat (occ i (concat (map member_refs ss))) <= usize_max) ->
  Inv (cfg_hasher cfg) root ns (kv s) fl F ->
  wp (transact EMeta (M_map record_member ss)) s (fun r s' =>
    let done := counted (concat (map member_refs ss)) (kv s) (kv s') /\
      Inv (cfg_hasher cfg) root ns (kv s') fl (add_refs F (concat (map member_refs ss))) in
    match r with
    | Ok outs => length outs = length ss /\ done
    | Err err => no_panic err /\ (kv s' = kv s \/ done)
    end).
Proof.
  intros Hok Hroom Hinv. destruct (begin_spec s) as [Hb1 Hb2].
  apply wp_transact with (P := fun (outs : list FlushOutcome) m => length outs = length ss /\
    counted (concat (map member_refs ss)) (kv s) m /\
    Inv (cfg_hasher cfg) root ns m fl (add_refs F (concat (map member_refs ss)))).
  - eapply wp_mono; [apply (record_members_counts ns fl ss (begin_transaction s) F); by rewrite ?Hb1|].
    rewrite Hb1, Hb2. intros [bs|err] t [Hb Hr]; (split; [done|]); [done|auto].
  - auto.
  - done.
  - intros bs e s' _ (_ & HP). simpl. auto.
  - intros e s' Hs. simpl. auto.
Qed.

(** The outcomes of a group that has come from [w] to [w']: the members told
    so hold their references, beyond which at most [extra] were counted. *)
Definition group_done (refs : list (list BlockId)) outs extra F w w' : Prop :=
  kv (w_ns w') = kv (w_ns w) /\ length outs = length refs /\
  Forall (fun r : result EngErr FlushOutcome => match r with Ok _ => True | Err e => no_panic e end) outs /\
  winv cfg w' (add_refs F (committed_refs refs outs)) /\
  exists l, counted l (kv (w_shared w)) (kv (w_shared w')) /\
    forall i, occ i l = (occ i (committed_refs refs outs) + occ i extra)%nat.

Abbreviation room := (fun w (l : list BlockId) => forall i, BlockId_wf i ->
  rc_of (kv (w_shared w)) i + Z.of_nat (occ i l) <= usize_max).

Lemma replay_alone_spec es w F :
  Forall (recordable (cfg_hasher cfg) root (wfiles w) (kv (w_shared w))) es ->
  room w (batch_refs es) -> winv cfg w F ->
  wp (replay_alone es) w (fun r w' => w_disk w' = w_disk w /\ kv (w_ns w') = kv (w_ns w) /\
    match r with
    | Ok _ => counted (batch_refs es) (kv (w_shared w)) (kv (w_shared w')) /\
              winv cfg w' (add_refs F (batch_refs es))
    | Err e => no_panic e /\ winv cfg w' F /\ exists l, counted l (kv (w_shared w)) (kv (w_shared w')) /\
              forall i, (occ i l <= occ i (batch_refs es))%nat
    end).
Proof.
  intros Hs Hroom Hinv. apply wp_bind, wp_on_shared. eapply wp_mono;
    [apply (record_tx_counts (cfg_hasher cfg) root (kv (w_ns w)) (wfiles w) es (w_shared w) F Hs Hroom Hinv)|].
  intros [ins|e] s' Hr; cbn [map_err]; [apply wp_ret; done|].
  cbn beta iota. destruct Hr as [Hnp [Hk|[Hc Hi]]]; (split_and!; [done|done|done|..]).
  - unfold winv. simpl. by rewrite Hk.
  - exists []. simpl. rewrite Hk. split; [apply counted_nil|intros; simpl; lia].
  - by eapply inv_drop.
  - by exists (batch_refs es).
Qed.

Abbreviation kept o l := (match (o : result EngErr FlushOutcome) with Ok _ => l | Err _ => [] end).

Lemma add_nil F i : (add_refs F [] i <= F i)%nat.
Proof. unfold add_refs. simpl. lia. Qed.

Lemma replay_one_spec s w F :
  settled_ok (wfiles w) (kv (w_shared w)) s -> room w (member_refs s) -> winv cfg w F ->
  wp (replay_one s) w (fun r w' => w_disk w' = w_disk w /\ kv (w_ns w') = kv (w_ns w) /\
    exists o l x, r = Ok o /\ match o with Ok _ => True | Err e => no_panic e end /\
    winv cfg w' (add_refs F (kept o (batch_refs s.1))) /\
    counted l (kv (w_shared w)) (kv (w_shared w')) /\
    forall i, occ i l = (occ i (kept o (batch_refs s.1)) + occ i x)%nat /\ (occ i l <= occ i (member_refs s))%nat).
Proof.
  unfold settled_ok, member_refs, replay_one. destruct s.2 as [e|]; intros Hs Hroom Hinv.
  - apply wp_ret. split_and!; [done..|]. exists (Err e), [], []. split_and!; [done|done| |apply counted_nil|].
    + eapply inv_mono; [apply add_nil|exact Hinv].
    + intros i. simpl. lia.
  - pose proof (replay_alone_spec s.1 w F Hs Hroom Hinv) as Halone. revert Halone.
    unfold wp, M_run. destruct (replay_alone s.1 w) as [[o|e] w']; cbn [fst snd].
    + intros (Hd & Hn & Hc & Hi). split_and!; [done|done|]. exists (Ok o), (batch_refs s.1), [].
      split_and!; [done..|]. intros i. simpl. lia.
    + intros (Hd & Hn & Hnp & Hi & l & Hc & Hl). destruct e as [e|e|m]; [..|done];
        (split_and!; [done|done|]); (eexists (Err _), l, l; split_and!; [done|done| |done|]);
        first [ eapply inv_mono; [apply add_nil|exact Hi] | intros i; specialize (Hl i); simpl; lia ].
Qed.

Lemma replay_each_spec ss : forall w F,
  Forall (settled_ok (wfiles w) (kv (w_shared w))) ss ->
  room w (concat (map member_refs ss)) -> winv cfg w F ->
  wp (replay_each ss) w (fun r w' => w_disk w' = w_disk w /\ exists outs extra, r = Ok outs /\
    group_done (map (fun s => batch_refs s.1) ss) outs extra F w w' /\
    forall i, (occ i (committed_refs (map (fun s => batch_refs s.1) ss) outs) + occ i extra
               <= occ i (concat (map member_refs ss)))%nat).
Proof.
  unfold replay_each. induction ss as [|s ss IH]; intros w F Hok Hroom Hinv.
  { apply wp_ret. split; [done|]. exists [], []. split_and!; [done| |done]. split_and!; [done..| |].
    - eapply inv_mono; [apply add_nil|exact Hinv].
    - exists []. split; [apply counted_nil|done]. }
  apply Forall_cons in Hok as [Hs Hok]. simpl in Hroom. setoid_rewrite occ_app in Hroom.
  apply (wp_bind (replay_one s)). eapply wp_mono; [apply (replay_one_spec s w F); [done| |done]|].
  { intros i Hi. specialize (Hroom i Hi). lia. }
  intros r w1 (Hd1 & Hn1 & o & l1 & x1 & -> & Ho & Hi1 & Hc1 & Hx1). cbn beta iota.
  apply (wp_bind (M_map replay_one ss)). eapply wp_mono; [eapply (IH w1); [| |exact Hi1]|].
  - unfold wfiles. rewrite Hd1. eapply Forall_impl; [exact Hok|]. intros s'. by eapply settled_ok_counted.
  - intros i Hi. destruct Hc1 as (Hrc & _). rewrite Hrc by done. specialize (Hroom i Hi).
    destruct (Hx1 i) as [_ ?]. lia.
  - intros r w2 (Hd2 & outs & extra & -> & (Hn2 & Hlen & Hall & Hi2 & l2 & Hc2 & Hl2) & Hle). cbn beta iota.
    apply wp_ret. split; [congruence|]. exists (o :: outs), (x1 ++ extra).
    split_and!; [done| |].
    + split_and!; [congruence|simpl; by rewrite Hlen|by constructor| |].
      * eapply inv_mono; [|exact Hi2]. intros i. unfold committed_refs. simpl. by rewrite add_refs_app.
      * exists (l1 ++ l2). split; [by eapply counted_app|]. intros i. unfold committed_refs in *. simpl.
        rewrite !occ_app, Hl2. destruct (Hx1 i) as [-> _]. lia.
    + intros i. unfold committed_refs in *. simpl. rewrite !occ_app. specialize (Hle i).
      destruct (Hx1 i) as [E ?]. lia.
Qed.

(* ------------------------------------------------------------------ *)
(** * Closing a group *)

Lemma same_entries_concat ms ms' : Forall2 (Forall2 same_entry) ms ms' -> Forall2 same_entry (concat ms) (concat ms').
Proof. induction 1; simpl; [constructor|by apply Forall2_app]. Qed.

Lemma same_entries_temps es es' : Forall2 same_entry es es' -> temp_paths es' = temp_paths es.
Proof.
  induction 1 as [|e e' es es' (_ & _ & _ & Hp & _) _ IH]; [done|]. unfold temp_paths in *. cbn [omap list_omap].
  rewrite Hp. by destruct (be_payload e); [f_equal|].
Qed.

Lemma same_entries_ids es es' : Forall2 same_entry es es' -> map be_id es' = map be_id es.
Proof. induction 1 as [|e e' es es' (Hi & _) _ IH]; [done|]. simpl. by rewrite Hi, IH. Qed.

Lemma same_entries_refs es es' : Forall2 same_entry es es' -> batch_refs es' = batch_refs es.
Proof.
  induction 1 as [|e e' es es' (Hi & _ & Ho & _) _ IH]; [done|]. rewrite !batch_refs_cons. by rewrite Hi, Ho, IH.
Qed.

Lemma same_entries_back es es' e' b :
  Forall2 same_entry es es' -> e' ∈ es' -> be_payload e' = Staged b -> e' ∈ es.
Proof.
  intros HF [k Hk]%list_elem_of_lookup Hp. destruct (Forall2_lookup_r _ _ _ _ _ HF Hk) as (e & He & Hs).
  destruct Hs as (_ & _ & _ & Hpe & Hst). rewrite Hp in Hpe. rewrite (Hst b) by done.
  by eapply list_elem_of_lookup_2.
Qed.

Lemma group_temps_old fl n es p :
  Forall (group_entry fl n) es -> p ∈ temp_paths es -> exists i k, 0 <= k < n /\ p = temp_name tmp (to_hex i) k.
Proof.
  intros Hes Hp. unfold temp_paths in Hp. apply list_elem_of_omap in Hp as (e & He & Hp).
  rewrite Forall_forall in Hes. destruct (Hes e He) as [(_ & _ & Hst & _) _].
  unfold staged_for in Hst. destruct (be_payload e) as [b|]; [|done]. injection Hp as <-.
  destruct Hst as (_ & _ & _ & k & Hk & E). by exists (be_id e), k.
Qed.

(** The file work of a group leaves the accounts and ends with every file it
    reports placed in place. *)
Definition files_done ms fl0 n0 w w' : Prop :=
  same_dbs w w' /\ wnonce w <= wnonce w' <= wnonce w + Z.of_nat (length (concat ms)) /\
  file_step (map be_id (concat ms)) fl0 (wfiles w') /\ n0 <= wnonce w'.

Lemma close_files_spec {A} ms (fail : list (list BatchEntry) -> EngErr -> A) w live (k : list (list BatchEntry) -> gmap BlockId Z -> M (World S D) EngErr A) Q :
  Forall (group_entry (wfiles w) (wnonce w)) (concat ms) -> NoDup (temp_paths (concat ms)) ->
  0 <= wnonce w -> wnonce w + Z.of_nat (length (concat ms)) <= u64_max ->
  (forall ms' e w', Forall2 (Forall2 same_entry) ms ms' -> no_panic e -> files_done ms (wfiles w) (wnonce w) w w' ->
     wp (mret (fail ms' e)) w' Q) ->
  (forall ms' placed w', Forall2 (Forall2 same_entry) ms ms' -> files_done ms (wfiles w) (wnonce w) w w' ->
     placed_ok placed (wfiles w') -> wp (k ms' placed) w' Q) ->
  wp (overtaken ← overtake_group cfg live ∅ ms;
      let '(members, placed) := overtaken in
      chosen ← choose_landing live placed (concat members);
      let '(to_land, placed) := chosen in
      landed ← M_try (on_files (land_batch (cfg_writer cfg) to_land));
      match landed with Err e => mret (fail members e) | Ok _ => k members placed end) w Q.
Proof.
  intros Hes Hnd Hn0 Hn Herr Hok. apply wp_bind.
  eapply wp_mono; [apply (overtake_group_spec live ms ∅ w (wnonce w)); [|by intros i d; rewrite lookup_empty|lia|done]|].
  { eapply Forall_impl; [exact Hes|]. intros e. apply group_entry_deduped. }
  intros r w1 (Hst1 & ms' & pl1 & -> & HF & Hpl1). cbn beta iota.
  destruct Hst1 as (Hs1 & Hn1 & Hf1 & Ht1). pose proof (same_entries_concat _ _ HF) as HFc.
  pose proof (same_entries_temps _ _ HFc) as Htemps. pose proof (same_entries_ids _ _ HFc) as Hids.
  apply wp_bind. eapply wp_mono; [apply (choose_landing_spec live (concat ms') pl1 w1); by rewrite Htemps|].
  intros r w2 (Hs2 & Hn2 & Ha2 & ls & tl & pl2 & -> & Hl & Hkeep). cbn beta iota.
  assert (file_step (map be_id (concat ms)) (wfiles w1) (wfiles w2)) as Hf2.
  { intros i d Hi. left. apply Ha2. rewrite Htemps. intros Hp.
    destruct (group_temps_old _ _ _ _ Hes Hp) as (j & k' & _ & E). symmetry in E. revert E.
    by apply (tmp_not_block cfg Hcfg). }
  assert (forall e, e ∈ ls -> group_entry (wfiles w) (wnonce w) e) as Hls.
  { intros e He. rewrite Forall_forall in Hes. apply Hes. pose proof (ld_staged _ _ _ _ _ Hl) as HS.
    pose proof He as [j Hj]%list_elem_of_lookup. destruct (Forall2_lookup_l _ _ _ _ _ HS Hj) as (b & _ & Hp).
    eapply same_entries_back; [exact HFc|by apply (ld_from _ _ _ _ _ Hl)|exact Hp]. }
  apply wp_bind, wp_try. eapply wp_mono; [eapply (land_group_spec (wfiles w) (wnonce w)); [exact Hl|exact Hls|..]|].
  - intros b Hb. rewrite Hkeep by done. destruct (landing_source _ _ _ _ _ b Hl Hb) as (e & He & Hp).
    destruct (Hls e He) as [(_ & _ & Hst & _) _]. unfold staged_for in Hst. rewrite Hp in Hst.
    destruct Hst as (_ & _ & _ & k' & Hk & ->). apply Ht1; [lia|tauto].
  - by eapply placed_ok_step.
  - intros r w3 (Hs3 & Hn3 & Hf3 & Hr3). rewrite Hids in Hf3.
    assert (files_done ms (wfiles w) (wnonce w) w w3) as Hdone.
    { split_and!; [|lia|lia| |lia].
      - eapply same_dbs_trans; [exact Hs1|]. by eapply same_dbs_trans.
      - eapply file_step_trans; [exact Hf1|]. by eapply file_step_trans. }
    destruct r as [u|e]; cbn beta iota; [by apply Hok|by apply Herr].
Qed.

Lemma member_refs_le ss i :
  (occ i (concat (map member_refs ss)) <= occ i (concat (map (fun s => batch_refs s.1) ss)))%nat.
Proof.
  induction ss as [|s ss IH]; simpl; [lia|]. rewrite !occ_app. unfold member_refs at 1. destruct s.2; simpl; lia.
Qed.

Lemma committed_group_outcome ss outs :
  length outs = length ss ->
  committed_refs (map (fun s => batch_refs s.1) ss) (map group_outcome (zip ss outs)) = concat (map member_refs ss).
Proof.
  revert outs. induction ss as [|s ss IH]; intros [|o outs] Hl; [done..|]. unfold committed_refs in *. simpl.
  rewrite IH by (simpl in Hl; lia). f_equal. unfold group_outcome, member_refs. simpl. by destruct s.2.
Qed.

Lemma committed_elem refs outs k l o i :
  refs !! k = Some l -> outs !! k = Some (Ok o) -> i ∈ l -> i ∈ committed_refs refs outs.
Proof.
  revert outs k. induction refs as [|l0 refs IH]; intros [|o0 outs] [|k] Hl Ho Hi; simplify_eq/=;
    unfold committed_refs; simpl; apply elem_of_app; [by left|right]. by eapply IH.
Qed.

Lemma refs_of_failed refs (e : EngErr) : committed_refs refs (map (fun _ => Err e) refs) = [].
Proof. induction refs as [|l refs IH]; [done|]. exact IH. Qed.

Definition group_result (ms : list (list BatchEntry)) stats F w
    (r : result EngErr (list (result EngErr FlushOutcome) * StationStats)) w' : Prop :=
  exists outs stats' extra, r = Ok (outs, stats') /\ group_done (map batch_refs ms) outs extra F w w' /\
    ((stats' = stats /\ extra = []) \/
     (stats' = record_degraded stats /\
      forall i, (occ i (committed_refs (map batch_refs ms) outs) + occ i extra
                 <= 2 * occ i (concat (map batch_refs ms)))%nat)).

(** The transaction of a group whose files are in place. *)
Lemma close_records_spec ss ms stats w F :
  map (fun s => batch_refs s.1) ss = map batch_refs ms ->
  Forall (settled_ok (wfiles w) (kv (w_shared w))) ss ->
  room w (concat (map batch_refs ms) ++ concat (map batch_refs ms)) -> winv cfg w F ->
  wp (M_run (fun w =>
        match on_shared id (transact EMeta (M_map record_member ss)) w with
        | (Ok outcomes, w') => (Ok (map group_outcome (zip ss outcomes), stats), w')
        | (Err (EPanic msg), w') => (Err (EPanic msg), w')
        | (Err _, w') => (outcomes ← replay_each ss; mret (outcomes, record_degraded stats)) w'
        end)) w (group_result ms stats F w).
Proof.
  intros Hrefs Hss Hroom0 Hinv.
  assert (forall i, BlockId_wf i -> rc_of (kv (w_shared w)) i +
    2 * Z.of_nat (occ i (concat (map (fun s => batch_refs s.1) ss))) <= usize_max) as Hroom.
  { intros i Hi. specialize (Hroom0 i Hi). rewrite Hrefs. rewrite occ_app in Hroom0. lia. }
  assert (wp (on_shared id (transact EMeta (M_map record_member ss))) w (fun r w' =>
    w_disk w' = w_disk w /\ kv (w_ns w') = kv (w_ns w) /\
    let done := counted (concat (map member_refs ss)) (kv (w_shared w)) (kv (w_shared w')) /\
                winv cfg w' (add_refs F (concat (map member_refs ss))) in
    match r with
    | Ok outs => length outs = length ss /\ done
    | Err err => no_panic err /\ (kv (w_shared w') = kv (w_shared w) \/ done)
    end)) as Htx.
  { apply wp_on_shared. eapply wp_mono; [apply (group_tx_counts (kv (w_ns w)) (wfiles w) ss (w_shared w) F Hss); [|done]|].
    - intros i Hi. specialize (Hroom i Hi). pose proof (member_refs_le ss i). lia.
    - intros [outs|e] s' Hr; cbn [map_err]; done. }
  assert (forall w1, w_disk w1 = w_disk w -> kv (w_ns w1) = kv (w_ns w) ->
    (kv (w_shared w1) = kv (w_shared w) \/
     counted (concat (map member_refs ss)) (kv (w_shared w)) (kv (w_shared w1)) /\
     winv cfg w1 (add_refs F (concat (map member_refs ss)))) ->
    wp (outcomes ← replay_each ss; mret (outcomes, record_degraded stats)) w1 (group_result ms stats F w)) as Hreplay.
  { intros w1 Hd Hn Hw1.
    assert (exists l1, counted l1 (kv (w_shared w)) (kv (w_shared w1)) /\
      (forall i, (occ i l1 <= occ i (concat (map member_refs ss)))%nat) /\ winv cfg w1 F) as (l1 & Hc1 & Hle1 & Hi1).
    { destruct Hw1 as [Hk|[Hc Hi]].
      - exists []. rewrite Hk. split_and!; [apply counted_nil|intros; simpl; lia|].
        unfold winv, wfiles. by rewrite Hd, Hn, Hk.
      - exists (concat (map member_refs ss)). split_and!; [done|lia|by eapply inv_drop]. }
    apply wp_bind. eapply wp_mono; [apply (replay_each_spec ss w1 F); [| |done]|].
    - unfold wfiles. rewrite Hd. eapply Forall_impl; [exact Hss|]. intros s. by eapply settled_ok_counted.
    - intros i Hi. destruct Hc1 as (Hrc & _). rewrite Hrc by done. specialize (Hroom i Hi). specialize (Hle1 i).
      pose proof (member_refs_le ss i). lia.
    - intros r w2 (_ & outs & extra & -> & (Hn2 & Hlen & Hall & Hi2 & l2 & Hc2 & Hl2) & Hle). cbn beta iota.
      apply wp_ret. exists outs, (record_degraded stats), (l1 ++ extra). split; [done|]. rewrite <- Hrefs.
      split; [split_and!; [congruence|done|done|done|]|right; split; [done|]].
      + exists (l1 ++ l2). split; [by eapply counted_app|]. intros i. rewrite !occ_app, Hl2. lia.
      + intros i. rewrite occ_app. specialize (Hle i). specialize (Hle1 i). pose proof (member_refs_le ss i). lia. }
  revert Htx. unfold wp at 1 2, M_run. destruct (on_shared id _ w) as [[outs|e] w']; cbn [fst snd].
  - intros (Hd & Hn & Hlen & Hc & Hi). exists (map group_outcome (zip ss outs)), stats, [].
    split_and!; [done| |by left]. rewrite <- Hrefs. unfold group_done. rewrite committed_group_outcome by done.
    split_and!; [done|rewrite !length_map, length_zip; lia| |done|].
    + apply Forall_map, Forall_forall. intros [s o] Hin%elem_of_zip_l. rewrite Forall_forall in Hss.
      specialize (Hss _ Hin). unfold settled_ok in Hss. unfold group_outcome. simpl. by destruct s.2.
    + exists (concat (map member_refs ss)). split; [done|]. intros i. simpl. lia.
  - intros (Hd & Hn & Hnp & Hw). destruct e as [e|e|m]; [..|done]; by apply Hreplay.
Qed.

Lemma settles live placed fl m fl0 n0 ms ms' :
  live_sound m live -> placed_ok placed fl ->
  Forall (group_entry fl0 n0) (concat ms) -> Forall2 (Forall2 same_entry) ms ms' ->
  Forall (settled_ok fl m) (map (settle live placed) ms') /\
  map (fun s => batch_refs s.1) (map (settle live placed) ms') = map batch_refs ms.
Proof.
  intros Hlive Hpl Hes HF. induction HF as [|es es' ms ms' Hee HF IH]; [done|].
  simpl in Hes. apply Forall_app in Hes as [He Hes]. destruct (IH Hes) as [IH1 IH2].
  destruct (settle_ok live placed fl m es') as [Hs Hr]; [done|done| |].
  - apply Forall_forall. intros e' [k Hk]%list_elem_of_lookup.
    destruct (Forall2_lookup_r _ _ _ _ _ Hee Hk) as (e & Hke & Hi & Hl & Ho & _).
    rewrite Forall_forall in He. destruct (He e) as [Hok Hlen]; [by eapply list_elem_of_lookup_2|].
    pose proof (entry_ok_wf _ _ _ _ Hok). destruct Hok as (Hocc & Hus & _). by rewrite Hi, Hl, Ho.
  - split; cbn [map]; [by constructor|]. rewrite IH2, Hr. f_equal. by apply same_entries_refs.
Qed.

Lemma close_group_spec ms stats w F :
  Forall (group_entry (wfiles w) (wnonce w)) (concat ms) -> NoDup (temp_paths (concat ms)) ->
  sizes_ok (kv (w_shared w)) (map be_id (concat ms)) ->
  0 <= wnonce w -> wnonce w + Z.of_nat (length (concat ms)) <= u64_max ->
  room w (concat (map batch_refs ms) ++ concat (map batch_refs ms)) -> winv cfg w F ->
  wp (close_group cfg ms stats) w (group_result ms stats F w).
Proof.
  intros Hes Hnd Hsz Hn0 Hn Hroom Hinv. unfold close_group. apply wp_bind.
  eapply wp_mono; [apply (read_live_spec (concat ms) ∅ w); by intros i|].
  intros r w1 (Hs1 & Hd1 & live & -> & Hlive). cbn beta iota.
  assert (wfiles w1 = wfiles w /\ wnonce w1 = wnonce w) as [Ef En] by (unfold wfiles, wnonce; by rewrite Hd1).
  assert (forall w2, files_done ms (wfiles w1) (wnonce w1) w1 w2 -> same_dbs w w2 /\ winv cfg w2 F) as Hw2.
  { intros w2 (Hs2 & _ & Hf2 & _). pose proof (same_dbs_trans _ _ _ Hs1 Hs2) as Hs. split; [done|].
    destruct Hs as [Hns Hsh]. unfold winv. rewrite Hns, Hsh. eapply inv_file_step; [exact Hsz| |exact Hinv].
    by rewrite <- Ef. }
  apply (close_files_spec ms (fun members e => (map (fun _ => Err (landing_failed e)) members, stats))
    w1 live (fun members placed => M_run (fun w =>
        match on_shared id (transact EMeta (M_map record_member (map (settle live placed) members))) w with
        | (Ok outcomes, w') => (Ok (map group_outcome (zip (map (settle live placed) members) outcomes), stats), w')
        | (Err (EPanic msg), w') => (Err (EPanic msg), w')
        | (Err _, w') => (outcomes ← replay_each (map (settle live placed) members);
                          mret (outcomes, record_degraded stats)) w'
        end))); rewrite ?Ef, ?En; [done|done|lia|lia|..].
  - intros ms' e w2 HF Hnp Hfd. destruct (Hw2 w2) as [Hs Hi2]; [by rewrite Ef, En|].
    apply wp_ret. exists (map (fun _ => Err (landing_failed e)) (map batch_refs ms)), stats, [].
    split; [do 2 f_equal; rewrite map_map; apply Forall2_length in HF|split; [|by left]].
    + clear -HF. revert ms' HF. induction ms as [|m ms IH]; intros [|m' ms'] HF; simpl in *; [done..|]. f_equal. apply IH. lia.
    + unfold group_done. rewrite refs_of_failed. destruct Hs as [Hns Hsh]. split_and!; [done|by rewrite !length_map| | |].
      * apply Forall_map, Forall_forall. intros l _. by destruct e.
      * eapply inv_mono; [apply add_nil|exact Hi2].
      * exists []. rewrite Hsh. split; [apply counted_nil|done].
  - intros ms' placed w2 HF Hfd Hpl. destruct (Hw2 w2) as [[Hns Hsh] Hi2]; [by rewrite Ef, En|].
    destruct (settles live placed (wfiles w2) (kv (w_shared w)) (wfiles w) (wnonce w) ms ms') as [Hset Hrefs];
      [done..|].
    eapply wp_mono; [apply (close_records_spec _ ms stats w2 F); [exact Hrefs|by rewrite Hsh| |done]|].
    + by rewrite Hsh.
    + intros r w3 (outs & stats' & extra & -> & (G1 & G2 & G3 & G4 & G5) & Hor).
      exists outs, stats', extra. split_and!; [done| |done]. rewrite Hsh in G5. split_and!; [congruence|done..].
Qed.
End Group.
