(* ===== verification/Uploads.v ===== *)
(** The multipart upload lifecycle (cas/uploads.rs, cas/multipart.rs, the part
    methods of cas/fs.rs) and the S3 handlers that drive it
    (s3cas/src/api/multipart.rs).

    An upload is a record in [_UPLOADS] and its parts are records in
    [_MULTIPART_PARTS], both trees of the shared database.  Taking a record
    out in a transaction is the claim that decides who owns the references the
    record held. *)

From S2P Require Import Prelude Bytes Externals BlockIds Codec Records StoreHeader MetaStore Disk Placement MetaOps Accounting Engine.
From Stdlib Require Import Strings.Byte.
Local Open Scope Z_scope.
#[local] Set Warnings "-clear-no-such-hyp".

(* ------------------------------------------------------------------ *)
(** * Claims *)

Inductive UploadClaim : Type :=
| Claimed (record : UploadRecord) (parts : list MultiPart)
| NoUpload
| MissingPart (part_number : Z).

Definition keeps_claim (c : UploadClaim) : bool :=
  match c with Claimed _ _ => true | _ => false end.

(** A loop over an iterator that yields a failed read and reads there again:
    it ends, or after the steps the fuel allows it is still reading, and so
    many of its reads have failed. *)
Inductive Run (A : Type) : Type :=
| RunEnded (a : A)
| RunGoing (failed_reads : nat).
Arguments RunEnded {A} a.
Arguments RunGoing {A} failed_reads.

Definition run_map {A B} (f : A -> B) (r : Run A) : Run B :=
  match r with RunEnded a => RunEnded (f a) | RunGoing n => RunGoing n end.

Section Uploads.
Context {S T D : Type} `{Store S T, BlockDiskOps D, StdFs D, Blake3, Md5, FasterHex}.
Context (cfg : StoreCfg).
Abbreviation EM := (M (World S D) EngErr).

Definition create_upload (now : Z) (bucket key upload_id : bytes) : EM unit :=
  let record := UploadRecord_new now bucket key upload_id in
  on_shared EMeta (tree_insert UPLOADS_TREE (upload_key bucket key upload_id) (UploadRecord_to_vec record)).

Definition get_upload (bucket key upload_id : bytes) : EM (option UploadRecord) :=
  on_shared EMeta (
    raw ← tree_get UPLOADS_TREE (upload_key bucket key upload_id);
    match raw with
    | None => mret None
    | Some raw => record ← decoded (UploadRecord_try_from raw); mret (Some record)
    end).

Definition claim_upload (bucket key upload_id : bytes) : EM (option UploadRecord) :=
  on_shared EMeta (transact id (take_upload (upload_key bucket key upload_id))).

(** The parts of a claim, in the order they were asked for; the first missing
    one ends the loop. *)
Fixpoint take_parts (bucket key upload_id : bytes) (part_numbers : list Z) (parts : list MultiPart) :
    M T MetaError (Z + list MultiPart) :=
  match part_numbers with
  | [] => mret (inr parts)
  | part_number :: rest =>
      raw ← take_part (part_key bucket key upload_id part_number);
      match raw with
      | None => mret (inl part_number)
      | Some raw =>
          part ← decoded (MultiPart_try_from raw);
          take_parts bucket key upload_id rest (parts ++ [part])
      end
  end.

Definition claim_with_parts (bucket key upload_id : bytes) (part_numbers : list Z) :
    M T MetaError UploadClaim :=
  record ← take_upload (upload_key bucket key upload_id);
  match record with
  | None => mret NoUpload
  | Some record =>
      parts ← take_parts bucket key upload_id part_numbers [];
      mret (match parts with
            | inl part_number => MissingPart part_number
            | inr parts => Claimed record parts
            end)
  end.

(** Everything but [Claimed] rolls back. *)
Definition claim_upload_with_parts (bucket key upload_id : bytes) (part_numbers : list Z) :
    EM UploadClaim :=
  on_shared EMeta (transact_when id keeps_claim (claim_with_parts bucket key upload_id part_numbers)).

(* ------------------------------------------------------------------ *)
(** * Listings *)

Definition list_uploads (fuel : nat) : EM (list UploadRecord) :=
  on_shared EMeta (iter_map fuel (fun item => map_err Corruption (UploadRecord_try_from item.2))
                     UPLOADS_TREE None).

(** [parts_of]: the items the iterator yields after [cursor], until the first
    key without the prefix.  A failed read is an item too, and leaves the
    cursor where it was, so the next step reads there again. *)
Fixpoint parts_from (fuel : nat) (prefix cursor : bytes) (failed : nat) :
    M S MetaError (Run (list (result MetaError MultiPart))) :=
  match fuel with
  | O => mret (RunGoing failed)
  | Datatypes.S fuel' =>
      item ← M_try (tree_next MULTIPART_PARTS_TREE (Some cursor));
      match item with
      | Err e =>
          rest ← parts_from fuel' prefix cursor (Datatypes.S failed);
          mret (run_map (cons (Err e)) rest)
      | Ok None => mret (RunEnded [])
      | Ok (Some (key, raw)) =>
          if starts_with prefix key then
            rest ← parts_from fuel' prefix key failed;
            mret (run_map (cons (map_err Corruption (MultiPart_try_from raw))) rest)
          else mret (RunEnded [])
      end
  end.

Definition parts_of (fuel : nat) (prefix : bytes) : M S MetaError (Run (list (result MetaError MultiPart))) :=
  parts_from fuel prefix prefix 0.

(** [tree.parts_of(..).collect()]: the first failed read or record ends the
    scan. *)
Fixpoint collect_parts (fuel : nat) (prefix cursor : bytes) : M S MetaError (list MultiPart) :=
  match fuel with
  | O => mret []
  | Datatypes.S fuel' =>
      item ← tree_next MULTIPART_PARTS_TREE (Some cursor);
      match item with
      | None => mret []
      | Some (key, raw) =>
          if starts_with prefix key then
            part ← decoded (MultiPart_try_from raw);
            rest ← collect_parts fuel' prefix key;
            mret (part :: rest)
          else mret []
      end
  end.

Definition upload_parts (fuel : nat) (bucket key upload_id : bytes) : EM (list MultiPart) :=
  let prefix := part_prefix bucket key upload_id in
  on_shared EMeta (collect_parts fuel prefix prefix).

(* ------------------------------------------------------------------ *)
(** * Reaping *)

(** The transaction of [reap_part]: take the record and decode it. *)
Definition take_decoded_part (storage_key : bytes) : M T MetaError (option MultiPart) :=
  raw ← take_part storage_key;
  match raw with
  | None => mret None
  | Some raw => part ← decoded (MultiPart_try_from raw); mret (Some part)
  end.

Definition reap_part (storage_key : bytes) : EM (option MultiPart) :=
  part ← on_shared EMeta (transact_when id (fun p => bool_decide (is_Some p)) (take_decoded_part storage_key));
  match part with
  | None => mret None
  | Some part => _ ← release_blocks cfg (mp_blocks part); mret (Some part)
  end.

Definition readable {E A} (l : list (result E A)) : list A :=
  omap (fun r => match r with Ok a => Some a | Err _ => None end) l.

(** The reaping loop of [abort_upload]: the number of parts this caller took. *)
Fixpoint reap_all (bucket key upload_id : bytes) (parts : list MultiPart) (reaped : nat) : EM nat :=
  match parts with
  | [] => mret reaped
  | part :: rest =>
      outcome ← M_try (reap_part (part_key bucket key upload_id (mp_part_number part)));
      reap_all bucket key upload_id rest
        (match outcome with Ok (Some _) => Datatypes.S reaped | _ => reaped end)
  end.

Definition abort_upload (fuel : nat) (bucket key upload_id : bytes) : EM (Run (option nat)) :=
  claimed ← claim_upload bucket key upload_id;
  match claimed with
  | None => mret (RunEnded None)
  | Some _ =>
      items ← on_shared EMeta (parts_of fuel (part_prefix bucket key upload_id));
      match items with
      | RunGoing failed => mret (RunGoing failed)
      | RunEnded items =>
          reaped ← reap_all bucket key upload_id (readable items) 0;
          mret (RunEnded (Some reaped))
      end
  end.

(* ------------------------------------------------------------------ *)
(** * Parts *)

Definition insert_multipart_part (bucket key : bytes) (size part_number : Z) (upload_id : bytes)
    (hash : ContentHash) (blocks : list BlockId) : EM unit :=
  let storage_key := part_key bucket key upload_id part_number in
  let mp := mkMultiPart size part_number bucket key upload_id hash blocks in
  on_shared EMeta (tree_insert MULTIPART_PARTS_TREE storage_key (MultiPart_to_vec mp)).

Definition get_multipart_part (bucket key upload_id : bytes) (part_number : Z) : EM (option MultiPart) :=
  on_shared EMeta (
    value ← tree_get MULTIPART_PARTS_TREE (part_key bucket key upload_id part_number);
    match value with
    | None => mret None
    | Some v => mp ← decoded (MultiPart_try_from v); mret (Some mp)
    end).

Definition remove_multipart_part (bucket key upload_id : bytes) (part_number : Z) : EM unit :=
  on_shared EMeta (
    _ ← tree_remove MULTIPART_PARTS_TREE (part_key bucket key upload_id part_number); mret tt).

(* ------------------------------------------------------------------ *)
(** * The S3 handlers *)

(** What a handler answers the client besides its output; [InternalError] is
    [try_!] on an engine error. *)
Inductive S3Error : Type :=
| InvalidPart | InvalidRequest | NoSuchUpload | InvalidArgument | NoSuchBucket
| IncompleteBody | MissingContentLength | InvalidDigest | BadDigest | NoSuchKey | ServiceUnavailable
| InvalidStorageClass | InvalidRange | BucketAlreadyExists | NotImplemented | InvalidToken | InternalError (e : EngErr).

Abbreviation HM := (M (World S D) S3Error).

Definition try_ {A} (m : EM A) : HM A := fun w => let '(r, w') := m w in (map_err InternalError r, w').

(** The size wraps in a release build. *)
Definition calculate_multipart_hash (parts : list MultiPart) : ContentHash * Z :=
  (mkContentHash (md5_digest (concat (map (fun p => ch_bytes (mp_hash p)) parts))),
   foldl (fun size p => wrap_u64 (size + mp_size p)) 0 parts).

Definition wrap_i32 (z : Z) : Z := (z + 2 ^ 31) mod 2 ^ 32 - 2 ^ 31.

(** The validation loop: part numbers count up from one, and every named part
    is there. *)
Fixpoint validate_parts (bucket key upload_id : bytes) (cnt : Z) (parts : list (option Z)) : HM (list Z) :=
  match parts with
  | [] => mret []
  | None :: _ => M_err (InternalError (EIo (mkIoError IoNotFound "Missing part_number")))
  | Some part_number :: rest =>
      let cnt := wrap_i32 (cnt + 1) in
      if negb (part_number =? cnt) then M_err (InternalError (io_other "InvalidPartOrder")) else
      result ← M_try (try_ (get_multipart_part bucket key upload_id part_number));
      match result with
      | Ok (Some _) =>
          numbers ← validate_parts bucket key upload_id cnt rest;
          mret (part_number :: numbers)
      | _ => M_err InvalidArgument
      end
  end.

(** The request's part list; the handler sees [None] when the body has no
    [CompleteMultipartUpload] element. *)
Definition complete_multipart_upload_op (now : Z) (bucket key upload_id : bytes)
    (multipart_upload : option (list (option Z))) : HM bytes :=
  match multipart_upload with
  | None => M_err InvalidPart
  | Some [] => M_err InvalidRequest
  | Some parts =>
      upload ← try_ (get_upload bucket key upload_id);
      match upload with
      | None => M_err NoSuchUpload
      | Some _ =>
          part_numbers ← validate_parts bucket key upload_id 0 parts;
          claim ← try_ (claim_upload_with_parts bucket key upload_id part_numbers);
          match claim with
          | NoUpload => M_err NoSuchUpload
          | MissingPart _ => M_err InvalidArgument
          | Claimed _ parts =>
              let '(content_hash, size) := calculate_multipart_hash parts in
              let blocks := concat (map mp_blocks parts) in
              object_meta ← try_ (create_object_meta cfg now bucket key size content_hash
                                    (MultiPartData blocks (Z.of_nat (length parts))));
              mret (format_e_tag object_meta)
          end
      end
  end.

Definition abort_multipart_upload_op (fuel : nat) (bucket key upload_id : bytes) : HM (Run unit) :=
  parts ← try_ (abort_upload fuel bucket key upload_id);
  match parts with
  | RunEnded None => M_err NoSuchUpload
  | RunEnded (Some _) => mret (RunEnded tt)
  | RunGoing failed => mret (RunGoing failed)
  end.

(** [upload_id] is the minted UUID. *)
Definition create_multipart_upload_op (now : Z) (upload_id bucket key : bytes) : HM bytes :=
  present ← try_ (on_ns EMeta (bucket_exists bucket));
  if (present : bool) then
    _ ← try_ (create_upload now bucket key upload_id);
    mret upload_id
  else M_err NoSuchBucket.

(** [expected_md5] is what parsing the [Content-MD5] header gave, [body] the
    buffered stream of the request and [content_length] the declared length. *)
Definition upload_part_op (bucket key upload_id : bytes) (part_number : Z)
    (expected_md5 : result S3Error (option bytes))
    (body : option (list (result IoError (list bytes)))) (content_length : option Z) : HM bytes :=
  upload ← try_ (get_upload bucket key upload_id);
  match upload with None => M_err NoSuchUpload | Some _ =>
  expected_md5 ← M_lift expected_md5;
  match body, content_length with
  | None, _ => M_err IncompleteBody
  | Some _, None => M_err MissingContentLength
  | Some items, Some content_length =>
      stored ← try_ (store_object cfg items);
      let '(blocks, hash, size) := stored in
      if negb (content_length =? size) then M_err InvalidRequest else
      if negb (match expected_md5 with None => true | Some m => bool_decide (ch_bytes hash = m) end)
      then M_err BadDigest else
      _ ← try_ (insert_multipart_part bucket key size part_number upload_id hash blocks);
      mret (ch_to_hex hash)
  end
  end.
End Uploads.
