(* ===== verification/UploadSpecs.v ===== *)
(** Guarantees of the multipart lifecycle (cas/uploads.rs): what a claim, a
    reap, an abort and a complete do to the part records and to the references
    they hold. *)

From S2P Require Import Prelude Bytes Externals BlockIds Codec Records StoreHeader MetaStore Disk Placement MetaOps Accounting Engine BatchSpecs WriteSpecs ObjectSpecs Uploads.
From Stdlib Require Import Strings.Byte.
Local Open Scope Z_scope.
#[local] Set Warnings "-clear-no-such-hyp".

(* ------------------------------------------------------------------ *)
(** * Part and upload records of a database *)

Definition part_at (m : kvmap) (k : bytes) (p : MultiPart) : Prop :=
  exists raw, m !! (MULTIPART_PARTS_TREE, k) = Some raw /\ MultiPart_try_from raw = Ok p.

Definition upload_at (m : kvmap) (k : bytes) (u : UploadRecord) : Prop :=
  exists raw, m !! (UPLOADS_TREE, k) = Some raw /\ UploadRecord_try_from raw = Ok u.

Definition no_upload (m : kvmap) (b k u : bytes) : Prop := m !! (UPLOADS_TREE, upload_key b k u) = None.

Lemma part_at_blocks (m : kvmap) (k : bytes) p (raw : bytes) :
  m !! (MULTIPART_PARTS_TREE, k) = Some raw -> MultiPart_try_from raw = Ok p -> blocks_of_part_raw raw = mp_blocks p.
Proof. intros _ E. unfold blocks_of_part_raw. by rewrite E. Qed.

(** The keys with a prefix are contiguous. *)
Lemma starts_with_between p c a b :
  starts_with p c = true -> starts_with p b = true ->
  bytes_ltb c a = true -> bytes_ltb b a = false -> starts_with p a = true.
Proof.
  rewrite !starts_with_spec. intros [c' ->] [b' ->]. revert a.
  induction p as [|x p IH]; intros a Hca Hba; [by exists a|].
  destruct a as [|y a]; [done|]. simpl in Hca, Hba.
  assert (byte_to_Z x = byte_to_Z y) as E.
  { destruct (Z.ltb_spec (byte_to_Z x) (byte_to_Z y)); [done|].
    destruct (Z.eqb_spec (byte_to_Z x) (byte_to_Z y)); [done|]. lia. }
  rewrite E, Z.ltb_irrefl, Z.eqb_refl in Hca, Hba. apply byte_to_Z_inj in E as ->.
  destruct (IH a Hca Hba) as [t ->]. by exists t.
Qed.

(** The database without the named parts. *)
Definition drop_parts (b k u : bytes) (numbers : list Z) (m : kvmap) : kvmap :=
  foldl (fun m n => delete (MULTIPART_PARTS_TREE, part_key b k u n) m) m numbers.

(** What a won claim has taken, and what it leaves. *)
Definition claimed (b k u : bytes) (numbers : list Z) (r : UploadRecord) (ps : list MultiPart) (m m' : kvmap) : Prop :=
  upload_at m (upload_key b k u) r /\
  Forall2 (fun n p => part_at m (part_key b k u n) p) numbers ps /\
  m' = drop_parts b k u numbers (delete (UPLOADS_TREE, upload_key b k u) m).

Abbreviation parts_blocks := (fun ps => concat (map mp_blocks ps)).

Lemma drop_parts_lookup (b k u : bytes) (numbers : list Z) (m : kvmap) (p : tree * bytes) :
  (forall n, n ∈ numbers -> p <> (MULTIPART_PARTS_TREE, part_key b k u n)) ->
  drop_parts b k u numbers m !! p = m !! p.
Proof.
  unfold drop_parts. revert m. induction numbers as [|n ns IH]; intros m Hp; simpl; [done|].
  rewrite IH by set_solver. apply lookup_delete_ne. intros E. apply (Hp n); [set_solver|done].
Qed.

Lemma drop_parts_none (b k u : bytes) (numbers : list Z) (m : kvmap) (n : Z) :
  n ∈ numbers -> drop_parts b k u numbers m !! (MULTIPART_PARTS_TREE, part_key b k u n) = None.
Proof.
  unfold drop_parts. revert m. induction numbers as [|x ns IH]; intros m; [by intros ?%elem_of_nil|].
  simpl. intros [->|Hn]%elem_of_cons; [|by apply IH].
  assert (forall ks (m0 : kvmap), m0 !! (MULTIPART_PARTS_TREE, part_key b k u x) = None ->
    drop_parts b k u ks m0 !! (MULTIPART_PARTS_TREE, part_key b k u x) = None) as Hk.
  { induction ks as [|y ks IHk]; intros m0 Hm0; simpl; [done|]. apply IHk.
    by apply lookup_delete_None; right. }
  apply Hk, lookup_delete_eq.
Qed.

Lemma omap_map_Some {A} (l : list A) : omap id (map Some l) = l.
Proof. induction l as [|a l IH]; simpl; [done|]. by f_equal. Qed.

(* ------------------------------------------------------------------ *)
(** * The claiming transactions *)

Section ClaimTx.
Context {S T : Type} `{StoreLaws S T, Blake3, FasterHexLaws}.
Context (h : Hasher) (root : path) (ns : kvmap) (fl : gmap path bytes).
Abbreviation TInv := (fun m F => Inv h root ns m fl F).

Lemma take_upload_spec key (t : T) :
  wp (take_upload key) t (fun r t' =>
    txbase t' = txbase t /\
    match r with
    | Ok None => txkv t' = txkv t /\ txkv t !! (UPLOADS_TREE, key) = None
    | Ok (Some u) => upload_at (txkv t) key u /\ txkv t' = delete (UPLOADS_TREE, key) (txkv t)
    | Err _ => True
    end).
Proof.
  unfold take_upload. wp_call tx_get_spec; intros (Hk & Hb & Hr); [|done].
  destruct a as [raw|]; [|apply wp_ret; by rewrite Hb, Hk].
  apply wp_bind, wp_decoded; [|done]. intros u Hu. cbn beta iota.
  wp_call tx_remove_spec; intros (Hb1 & Hk1); [|by rewrite Hb1]. apply wp_ret.
  rewrite Hb1, Hk1, Hk. split_and!; [done| |done]. by exists raw.
Qed.

Lemma take_part_spec key (t : T) :
  wp (take_part key) t (fun r t' =>
    txbase t' = txbase t /\
    match r with
    | Ok None => txkv t' = txkv t /\ txkv t !! (MULTIPART_PARTS_TREE, key) = None
    | Ok (Some raw) => txkv t !! (MULTIPART_PARTS_TREE, key) = Some raw /\
        txkv t' = delete (MULTIPART_PARTS_TREE, key) (txkv t)
    | Err _ => True
    end).
Proof.
  unfold take_part. wp_call tx_get_spec; intros (Hk & Hb & Hr); [|done].
  destruct a as [raw|]; [|apply wp_ret; by rewrite Hb, Hk].
  wp_call tx_remove_spec; intros (Hb1 & Hk1); [|by rewrite Hb1]. apply wp_ret.
  by rewrite Hb1, Hk1, Hk.
Qed.

Lemma take_decoded_part_spec key (t : T) F :
  TInv (txkv t) F ->
  wp (take_decoded_part key) t (fun r t' =>
    txbase t' = txbase t /\
    match r with
    | Ok None => txkv t' = txkv t /\ txkv t !! (MULTIPART_PARTS_TREE, key) = None
    | Ok (Some p) => part_at (txkv t) key p /\ txkv t' = delete (MULTIPART_PARTS_TREE, key) (txkv t) /\
        TInv (txkv t') (add_refs F (mp_blocks p))
    | Err _ => True
    end).
Proof.
  intros Hinv. unfold take_decoded_part. wp_call take_part_spec; intros (Hb & Hr); [|done].
  destruct a as [raw|]; [|by apply wp_ret].
  apply wp_bind, wp_decoded; [|done]. intros p Hp. cbn beta iota. apply wp_ret.
  destruct Hr as [Hraw Hk]. split_and!; [done|by exists raw|done|].
  rewrite Hk, <- (part_at_blocks _ _ _ _ Hraw Hp). by apply inv_part_delete.
Qed.

Lemma take_parts_spec b k u numbers : forall acc (t : T) F,
  TInv (txkv t) (add_refs F (parts_blocks acc)) ->
  wp (take_parts b k u numbers acc) t (fun r t' =>
    txbase t' = txbase t /\
    match r with
    | Ok (inl n) => n ∈ numbers
    | Ok (inr ps) => exists new, ps = acc ++ new /\
        Forall2 (fun n p => part_at (txkv t) (part_key b k u n) p) numbers new /\
        txkv t' = drop_parts b k u numbers (txkv t) /\ TInv (txkv t') (add_refs F (parts_blocks ps))
    | Err _ => True
    end).
Proof.
  induction numbers as [|n numbers IH]; intros acc t F Hinv; cbn [take_parts].
  { apply wp_ret. split; [done|]. exists []. rewrite app_nil_r. by split_and!. }
  wp_call take_part_spec; intros (Hb & Hr); [|done].
  destruct a as [raw|]; [|apply wp_ret; set_solver]. destruct Hr as [Hraw Hk].
  apply wp_bind, wp_decoded; [|done]. intros p Hp. cbn beta iota.
  eapply wp_mono; [apply (IH (acc ++ [p]) s F)|].
  { rewrite Hk. eapply inv_mono; [|by apply inv_part_delete].
    intros i. rewrite (part_at_blocks _ _ _ _ Hraw Hp), map_app, concat_app. unfold add_refs. rewrite occ_app.
    simpl. rewrite app_nil_r. lia. }
  intros [[n'|ps]|e] t' [Hb' Hr]; (split; [congruence|]); [set_solver| |done].
  destruct Hr as (new & -> & HF & Hk' & Hinv'). exists (p :: new).
  split; [by rewrite <- app_assoc|]. split_and!; [|by rewrite Hk', Hk|done].
  constructor; [by exists raw|]. eapply Forall2_impl; [exact HF|].
  intros n' p' (raw' & Hraw' & Hp'). rewrite Hk in Hraw'. apply lookup_delete_Some in Hraw' as [_ Hraw'].
  by exists raw'.
Qed.

Lemma claim_with_parts_spec b k u numbers (t : T) F :
  TInv (txkv t) F ->
  wp (claim_with_parts b k u numbers) t (fun r t' =>
    txbase t' = txbase t /\
    match r with
    | Ok NoUpload => no_upload (txkv t) b k u
    | Ok (MissingPart n) => n ∈ numbers /\ ~ no_upload (txkv t) b k u
    | Ok (Claimed rec ps) => claimed b k u numbers rec ps (txkv t) (txkv t') /\
        TInv (txkv t') (add_refs F (parts_blocks ps))
    | Err _ => True
    end).
Proof.
  intros Hinv. unfold claim_with_parts. wp_call take_upload_spec; intros (Hb & Hr); [|done].
  destruct a as [rec|]; [|by destruct Hr; apply wp_ret]. destruct Hr as [Hu Hk].
  apply wp_bind. eapply wp_mono; [apply (take_parts_spec b k u numbers [] s F)|].
  { rewrite Hk. eapply inv_mono; [|apply inv_sh_other_delete; [done|exact Hinv]]. intros i. unfold add_refs. simpl. lia. }
  intros [[n|ps]|e] t' [Hb' Hr]; cbn beta iota; [| |by rewrite Hb'].
  - apply wp_ret. split_and!; [congruence|done|]. destruct Hu as (raw & Hraw & _). unfold no_upload. congruence.
  - apply wp_ret. split; [congruence|]. destruct Hr as (new & -> & HF & Hk' & Hinv'). simpl in *.
    split; [|done]. split_and!; [done| |by rewrite Hk', Hk].
    eapply Forall2_impl; [exact HF|]. intros n p (raw & Hraw & Hp). rewrite Hk in Hraw.
    apply lookup_delete_Some in Hraw as [_ Hraw]. by exists raw.
Qed.
End ClaimTx.

(* ------------------------------------------------------------------ *)
(** * What reaping leaves alone *)

(** Apart from block records, only parts under keys in [P] have gone. *)
Definition reaped_only (P : bytes -> Prop) (m m' : kvmap) : Prop :=
  (forall t k, t <> DEFAULT_BLOCK_TREE -> (t = MULTIPART_PARTS_TREE -> ~ P k) -> m' !! (t, k) = m !! (t, k)) /\
  (forall k, is_Some (m' !! (MULTIPART_PARTS_TREE, k)) ->
     m' !! (MULTIPART_PARTS_TREE, k) = m !! (MULTIPART_PARTS_TREE, k)).

Lemma reaped_only_refl P m : reaped_only P m m.
Proof. done. Qed.

Lemma reaped_only_trans P m1 m2 m3 : reaped_only P m1 m2 -> reaped_only P m2 m3 -> reaped_only P m1 m3.
Proof.
  intros [Hf1 Hs1] [Hf2 Hs2]. split.
  - intros t k Ht Hk. rewrite Hf2, Hf1 by done. done.
  - intros k Hk. pose proof (Hs2 k Hk) as E. rewrite E in Hk |- *. by apply Hs1.
Qed.

Lemma reaped_only_mono (P Q : bytes -> Prop) m m' :
  (forall k, P k -> Q k) -> reaped_only P m m' -> reaped_only Q m m'.
Proof. intros HPQ [Hf Hs]. split; [|done]. intros t k Ht Hk. apply Hf; [done|]. intros Et HP. by apply Hk, HPQ. Qed.

Lemma reaped_only_delete k m : reaped_only (eq k) m (delete (MULTIPART_PARTS_TREE, k) m).
Proof.
  split.
  - intros t k' Ht Hk. apply lookup_delete_ne. intros [= <- <-]. by apply Hk.
  - intros k' [v Hv]. apply lookup_delete_Some in Hv as [Hne Hv]. rewrite lookup_delete_ne by done. done.
Qed.

Lemma released_reaped P l m m' : released l m m' -> reaped_only P m m'.
Proof.
  intros (_ & _ & Hf). split; [intros t k Ht _|intros k _]; apply Hf; by intros i _ [= E].
Qed.

(** The part records whose key carries a prefix. *)
Definition parts_with (prefix : bytes) (m : kvmap) : gset bytes :=
  filter (fun k => starts_with prefix k = true) (keys_above m MULTIPART_PARTS_TREE None).

Lemma elem_of_parts_with prefix m k :
  k ∈ parts_with prefix m <-> starts_with prefix k = true /\ is_Some (m !! (MULTIPART_PARTS_TREE, k)).
Proof. unfold parts_with. rewrite elem_of_filter, elem_of_keys_above. naive_solver. Qed.

Lemma parts_with_reaped prefix P m m' :
  reaped_only P m m' -> parts_with prefix m' ⊆ parts_with prefix m.
Proof.
  intros [_ Hs] k. rewrite !elem_of_parts_with. intros [? Hk]. split; [done|]. by rewrite <- Hs.
Qed.

Lemma parts_with_taken prefix P m m' k :
  reaped_only P m m' -> starts_with prefix k = true -> is_Some (m !! (MULTIPART_PARTS_TREE, k)) ->
  m' !! (MULTIPART_PARTS_TREE, k) = None ->
  (size (parts_with prefix m') + 1 <= size (parts_with prefix m))%nat.
Proof.
  intros Hr Hp Hk Hk'. assert (k ∈ parts_with prefix m) as Hin by (by apply elem_of_parts_with).
  assert (k ∉ parts_with prefix m') as Hni. { rewrite elem_of_parts_with, Hk'. by intros [_ []%is_Some_None]. }
  rewrite <- (size_singleton (C := gset bytes) k), Nat.add_comm, <- size_union by set_solver.
  apply subseteq_size. pose proof (parts_with_reaped prefix P m m' Hr). set_solver.
Qed.

(* ------------------------------------------------------------------ *)
(** * Scanning the parts of an upload *)

Section Scan.
Context {S T : Type} `{StoreLaws S T}.

(** A scan that ended has met every part above its cursor, and only readable
    parts of the upload, undecodable records and failed reads; one that has not
    ended has spent its steps on failed reads, but for one step per record. *)
Lemma parts_from_spec fuel prefix : forall cursor failed (s : S),
  starts_with prefix cursor = true ->
  wp (parts_from fuel prefix cursor failed) s (fun r s' => kv s' = kv s /\ exists run, r = Ok run /\
    match run with
    | RunEnded items =>
        (forall p, Ok p ∈ items -> exists k, starts_with prefix k = true /\ part_at (kv s) k p) /\
        (forall k p, part_at (kv s) k p -> starts_with prefix k = true -> bytes_ltb cursor k = true -> Ok p ∈ items)
    | RunGoing n => (fuel + failed <= size (keys_above (kv s) MULTIPART_PARTS_TREE (Some cursor)) + n)%nat
    end).
Proof.
  induction fuel as [|fuel IH]; intros cursor failed s Hc; cbn [parts_from].
  { apply wp_ret. split; [done|]. eexists. split; [reflexivity|]. cbn. lia. }
  apply wp_bind, wp_try. eapply wp_mono; [apply tree_next_spec|].
  intros item s1 [Hk Hn]. cbn beta iota. destruct item as [[[k raw]|]|e].
  - destruct Hn as [Hnext Hraw]. destruct (starts_with prefix k) eqn:Ek.
    + apply wp_bind. eapply wp_mono; [by apply (IH k failed s1)|]. rewrite Hk.
      intros r s2 (Hk2 & run & -> & Hrun). cbn beta iota. apply wp_ret. split; [congruence|].
      eexists. split; [reflexivity|]. destruct run as [items|n]; cbn [run_map].
      2: { pose proof (keys_above_next _ _ _ _ Hnext). lia. }
      destruct Hrun as [Hsound Hall]. split.
      * intros p [Hp|Hp]%elem_of_cons; [|by apply Hsound].
        destruct (MultiPart_try_from raw) as [p'|] eqn:Ep; simpl in Hp; [|done]. injection Hp as ->.
        exists k. split; [done|]. by exists raw.
      * intros k' p' (raw' & Hraw' & Hp') Hk' Hgt. apply elem_of_cons.
        destruct (decide (k' = k)) as [->|Hne].
        { left. rewrite Hraw in Hraw'. injection Hraw' as <-. by rewrite Hp'. }
        right. apply (Hall k'); [by exists raw'|done|].
        destruct Hnext as (_ & _ & Hmin). destruct (bytes_ltb k k') eqn:E; [done|]. exfalso. apply Hne.
        apply bytes_ltb_total; [|done]. by apply Hmin; [eexists|].
    + apply wp_ret. split; [done|]. eexists. split; [reflexivity|]. split; [set_solver|].
      intros k' p' (raw' & Hraw' & _) Hk' Hgt. exfalso.
      destruct Hnext as (_ & Hck & Hmin). specialize (Hmin k' ltac:(by eexists) Hgt).
      rewrite (starts_with_between prefix cursor k k') in Ek; done.
  - apply wp_ret. split; [done|]. eexists. split; [reflexivity|]. split; [set_solver|].
    intros k' p' (raw' & Hraw' & _) Hk' Hgt. exfalso.
    destruct (walk_end _ _ _ Hn) as [_ Hw].
    assert ((k', raw') ∈ @nil (bytes * bytes)) as Hin by (by apply Hw).
    by apply elem_of_nil in Hin.
  - apply wp_bind. eapply wp_mono; [by apply (IH cursor (Datatypes.S failed) s1)|]. rewrite Hk.
    intros r s2 (Hk2 & run & -> & Hrun). cbn beta iota. apply wp_ret. split; [congruence|].
    eexists. split; [reflexivity|]. destruct run as [items|n]; cbn [run_map]; [|lia].
    destruct Hrun as [Hsound Hall]. split.
    + intros p [Hp|Hp]%elem_of_cons; [done|by apply Hsound].
    + intros k' p' Hp' Hk' Hgt. apply elem_of_cons. right. by apply (Hall k').
Qed.
End Scan.

(* ------------------------------------------------------------------ *)
(** * Claims, reaps and aborts in the world *)

Section UploadOps.
Context {S T D : Type} `{StoreLaws S T, DiskLaws D, Blake3Laws, Md5, FasterHexLaws}.
Context (cfg : StoreCfg).
Abbreviation root := (blocks_root cfg).
Abbreviation shkv := (fun w : World S D => kv (w_shared w)).
Implicit Types w : World S D.

(** The namespace and the disk are as they were. *)
Definition same_but_shared w w' : Prop :=
  w_ns w' = w_ns w /\ w_disk w' = w_disk w.

Lemma winv_shared w w' F :
  same_but_shared w w' -> Inv (cfg_hasher cfg) root (kv (w_ns w)) (shkv w') (wfiles w) F -> winv cfg w' F.
Proof. intros [Hn Hd]. unfold winv, wfiles. by rewrite Hn, Hd. Qed.

Lemma claim_upload_spec b k u w F :
  winv cfg w F ->
  let gone := delete (UPLOADS_TREE, upload_key b k u) (shkv w) in
  wp (claim_upload b k u) w (fun r w' =>
    same_but_shared w w' /\ winv cfg w' F /\
    match r with
    | Ok None => no_upload (shkv w) b k u /\ shkv w' = shkv w
    | Ok (Some rec) => upload_at (shkv w) (upload_key b k u) rec /\ shkv w' = gone
    | Err e => no_panic e /\ (shkv w' = shkv w \/ shkv w' = gone)
    end).
Proof.
  intros Hinv gone. apply wp_on_shared. destruct (begin_spec (w_shared w)) as [Hb1 Hb2].
  assert (Inv (cfg_hasher cfg) root (kv (w_ns w)) gone (wfiles w) F) as Hgone by (by apply inv_sh_other_delete).
  apply wp_transact with (P := fun (r : option UploadRecord) m =>
    match r with
    | None => no_upload (shkv w) b k u /\ m = shkv w
    | Some rec => upload_at (shkv w) (upload_key b k u) rec /\ m = gone
    end); simpl.
  - eapply wp_mono; [apply take_upload_spec|]. rewrite Hb1, Hb2.
    intros [[rec|]|e] t' [Hb Hr]; (split; [done|]); [done|by destruct Hr|].
    intros s' Hs. split_and!; [done| |done|by left]. eapply winv_shared; [done|]. simpl. by rewrite Hs.
  - intros [rec|] s' _ [Hu Hs]; (split_and!; [done| |done|done]); (eapply winv_shared; [done|]);
      simpl; by rewrite Hs.
  - done.
  - intros [rec|] e s' _ [Hu Hs]; (split_and!; [done| |done|by auto]); (eapply winv_shared; [done|]);
      simpl; by rewrite Hs.
  - intros e s' Hs. split_and!; [done| |done|by left]. eapply winv_shared; [done|]. simpl. by rewrite Hs.
Qed.

Lemma claim_upload_with_parts_spec b k u numbers w F :
  winv cfg w F ->
  wp (claim_upload_with_parts b k u numbers) w (fun r w' =>
    same_but_shared w w' /\
    match r with
    | Ok (Claimed rec ps) => claimed b k u numbers rec ps (shkv w) (shkv w') /\
        winv cfg w' (add_refs F (parts_blocks ps))
    | Ok NoUpload => no_upload (shkv w) b k u /\ shkv w' = shkv w
    | Ok (MissingPart n) => (n ∈ numbers /\ ~ no_upload (shkv w) b k u) /\ shkv w' = shkv w
    | Err e => no_panic e /\ winv cfg w' F /\
        (shkv w' = shkv w \/ exists rec ps, claimed b k u numbers rec ps (shkv w) (shkv w'))
    end).
Proof.
  intros Hinv. apply wp_on_shared. destruct (begin_spec (w_shared w)) as [Hb1 Hb2].
  apply wp_transact with (P := fun c m =>
    match c with
    | Claimed rec ps => claimed b k u numbers rec ps (shkv w) m /\
        Inv (cfg_hasher cfg) root (kv (w_ns w)) m (wfiles w) (add_refs F (parts_blocks ps))
    | NoUpload => no_upload (shkv w) b k u
    | MissingPart n => n ∈ numbers /\ ~ no_upload (shkv w) b k u
    end); simpl.
  - eapply wp_mono.
    { apply (claim_with_parts_spec (cfg_hasher cfg) root (kv (w_ns w)) (wfiles w) b k u numbers _ F).
      rewrite Hb1. exact Hinv. }
    rewrite Hb1, Hb2. intros [[rec ps| |n]|e] t' [Hb Hr]; (split; [done|]); try done.
    intros s' Hs. split_and!; [done|done| |by left]. eapply winv_shared; [done|]. simpl. by rewrite Hs.
  - intros [rec ps| |n] s' Hk HP; [|done|done]. split; [done|]. exact HP.
  - intros [rec ps| |n] m s' Hk HP Hs; [done|..]; split_and!; done || apply HP.
  - intros [rec ps| |n] e s' Hk HP; [|done|done]. destruct HP as [Hc HP].
    split_and!; [done|done| |by eauto]. eapply inv_drop. exact HP.
  - intros e s' Hs. split_and!; [done|done| |by left]. eapply winv_shared; [done|]. simpl. by rewrite Hs.
Qed.

(** What an operation that only reaps leaves behind. *)
Definition reaps (P : bytes -> Prop) (F : BlockId -> nat) w w' : Prop :=
  kv (w_ns w') = kv (w_ns w) /\ wnonce w' = wnonce w /\ winv cfg w' F /\ reaped_only P (shkv w) (shkv w').

Lemma reaps_refl P F w : winv cfg w F -> reaps P F w w.
Proof. intros. unfold reaps. by split_and!. Qed.

Lemma reaps_trans P F w1 w2 w3 : reaps P F w1 w2 -> reaps P F w2 w3 -> reaps P F w1 w3.
Proof.
  intros (Hn1 & Hc1 & _ & Hr1) (Hn2 & Hc2 & Hi & Hr2).
  unfold reaps. split_and!; [congruence|congruence|done|by eapply reaped_only_trans].
Qed.

Lemma reaps_mono (P Q : bytes -> Prop) F w w' : (forall k, P k -> Q k) -> reaps P F w w' -> reaps Q F w w'.
Proof. intros HPQ (? & ? & ? & ?). unfold reaps. split_and!; [done|done|done|by eapply reaped_only_mono]. Qed.

Lemma reap_part_spec key w F :
  winv cfg w F ->
  wp (reap_part cfg key) w (fun r w' =>
    reaps (eq key) F w w' /\
    match r with
    | Ok None => shkv w !! (MULTIPART_PARTS_TREE, key) = None
    | Ok (Some p) => part_at (shkv w) key p /\ shkv w' !! (MULTIPART_PARTS_TREE, key) = None
    | Err e => no_panic e
    end).
Proof.
  intros Hinv. unfold reap_part. apply wp_bind, wp_on_shared. destruct (begin_spec (w_shared w)) as [Hb1 Hb2].
  set (gone := delete (MULTIPART_PARTS_TREE, key) (shkv w)).
  assert (forall s', kv s' = shkv w ->
    reaps (eq key) F w (mkWorld (D := D) (w_ns w) s' (w_disk w) (w_counters w))) as Hsame.
  { intros s' Hs. unfold reaps. split_and!; [done|done| |simpl; rewrite Hs; apply reaped_only_refl].
    unfold winv in *. simpl. by rewrite Hs. }
  apply wp_transact with (P := fun (r : option MultiPart) m =>
    match r with
    | None => shkv w !! (MULTIPART_PARTS_TREE, key) = None
    | Some p => part_at (shkv w) key p /\ m = gone /\
        Inv (cfg_hasher cfg) root (kv (w_ns w)) m (wfiles w) (add_refs F (mp_blocks p))
    end).
  - eapply wp_mono.
    { apply (take_decoded_part_spec (cfg_hasher cfg) root (kv (w_ns w)) (wfiles w) key _ F).
      rewrite Hb1. exact Hinv. }
    rewrite Hb1, Hb2. intros [[p|]|e] t' [Hb Hr]; (split; [done|]); [done|by destruct Hr|].
    intros s' Hs. simpl. split; [by apply Hsame|done].
  - intros [p|] s' Hk HP; [|done]. destruct HP as (Hp & Hs & Hinv1). cbn beta iota.
    set (w1 := mkWorld (D := D) (w_ns w) s' (w_disk w) (w_counters w)).
    apply wp_bind. eapply wp_mono; [apply (release_blocks_spec cfg (mp_blocks p) w1 F)|].
    { destruct Hp as (raw & _ & Hp). by eapply MultiPart_decode_blocks. }
    { exact Hinv1. }
    intros r w2 (-> & (Hn2 & Hc2 & Hrel & _) & Hinv2). cbn beta iota. apply wp_ret.
    simpl in Hrel. rewrite Hs in Hrel. split.
    + unfold reaps. split_and!; [by rewrite Hn2|by rewrite Hc2|done|].
      eapply reaped_only_trans; [apply reaped_only_delete|by eapply released_reaped].
    + split; [done|]. destruct Hrel as (_ & _ & Hf). rewrite Hf; [apply lookup_delete_eq|]. by intros i _ [= E].
  - intros [p|] m s' Hk HP Hs; [done|]. cbn beta iota. apply wp_ret. split; [by apply Hsame|done].
  - intros [p|] e s' Hk HP; [|done]. destruct HP as (Hp & Hs & Hinv1). simpl. split; [|done].
    unfold reaps. split_and!; [done|done|by eapply inv_drop|]. simpl. rewrite Hs. apply reaped_only_delete.
  - intros e s' Hs. simpl. split; [by apply Hsame|done].
Qed.

(** The count a reaping loop returns is of records it took: each is gone. *)
Lemma reap_all_spec b k u ps : forall n w F,
  winv cfg w F ->
  let prefix := part_prefix b k u in
  wp (reap_all cfg b k u ps n) w (fun r w' =>
    reaps (fun key => starts_with prefix key = true) F w w' /\
    exists n', r = Ok n' /\ (n <= n' <= n + length ps)%nat /\
      (size (parts_with prefix (shkv w')) + n' <= size (parts_with prefix (shkv w)) + n)%nat).
Proof.
  induction ps as [|p ps IH]; intros n w F Hinv prefix; cbn [reap_all].
  { apply wp_ret. split; [by apply reaps_refl|]. exists n. split_and!; [done|simpl; lia..]. }
  set (key := part_key b k u (mp_part_number p)).
  assert (starts_with prefix key = true) as Hkey by apply starts_with_app.
  apply wp_bind, wp_try. eapply wp_mono; [by apply (reap_part_spec key w F)|].
  intros o w1 [Hr1 Ho]. cbn beta iota. pose proof Hr1 as (_ & _ & Hinv1 & Hro).
  eapply wp_mono; [by apply (IH _ w1 F)|]. intros r w2 [Hr2 (n' & -> & Hn & Hs)]. split.
  { eapply reaps_trans; [|exact Hr2]. eapply reaps_mono; [|exact Hr1]. by intros ? <-. }
  exists n'. split; [done|]. fold prefix in Hs. simpl.
  pose proof (subseteq_size _ _ (parts_with_reaped prefix _ _ _ Hro)) as Hle.
  destruct o as [[p'|]|e]; [|split; lia|split; lia]. destruct Ho as [(raw & Hraw & _) Hgone].
  assert (is_Some (shkv w !! (MULTIPART_PARTS_TREE, key))) as Hsome by (by eexists).
  pose proof (parts_with_taken prefix _ _ _ key Hro Hkey Hsome Hgone).
  split; lia.
Qed.

(** An abort: the loser of the claim changes nothing; the winner's upload
    record is gone, and of the part records only those of this upload. *)
Definition aborted b k u (F : BlockId -> nat) w w' : Prop :=
  kv (w_ns w') = kv (w_ns w) /\ wnonce w' = wnonce w /\ winv cfg w' F /\
  reaped_only (fun key => starts_with (part_prefix b k u) key = true)
    (delete (UPLOADS_TREE, upload_key b k u) (shkv w)) (shkv w').

Lemma parts_with_delete_upload prefix m key :
  parts_with prefix (delete (UPLOADS_TREE, key) m) = parts_with prefix m.
Proof.
  apply set_eq. intros k. rewrite !elem_of_parts_with. by rewrite lookup_delete_ne.
Qed.

Lemma parts_above_le m m' c :
  (forall k, is_Some (m' !! (MULTIPART_PARTS_TREE, k)) -> is_Some (m !! (MULTIPART_PARTS_TREE, k))) ->
  (size (keys_above m' MULTIPART_PARTS_TREE c) <= size (keys_above m MULTIPART_PARTS_TREE None))%nat.
Proof.
  intros Hs. apply subseteq_size. intros k. rewrite !elem_of_keys_above. intros [Hk _]. split; [by apply Hs|done].
Qed.

Lemma abort_upload_spec fuel b k u w F :
  winv cfg w F ->
  let prefix := part_prefix b k u in
  wp (abort_upload cfg fuel b k u) w (fun r w' =>
    match r with
    | Ok (RunEnded None) => no_upload (shkv w) b k u /\ same_but_shared w w' /\ shkv w' = shkv w /\ winv cfg w' F
    | Ok (RunEnded (Some n)) => (exists rec, upload_at (shkv w) (upload_key b k u) rec) /\ aborted b k u F w w' /\
        (size (parts_with prefix (shkv w')) + n <= size (parts_with prefix (shkv w)))%nat
    | Ok (RunGoing n) => (exists rec, upload_at (shkv w) (upload_key b k u) rec) /\ aborted b k u F w w' /\
        (fuel <= size (keys_above (shkv w) MULTIPART_PARTS_TREE None) + n)%nat
    | Err e => no_panic e /\ (aborted b k u F w w' \/ same_but_shared w w' /\ shkv w' = shkv w /\ winv cfg w' F)
    end).
Proof.
  intros Hinv prefix. unfold abort_upload. apply wp_bind.
  eapply wp_mono; [by apply (claim_upload_spec b k u w F)|]. intros [[rec|]|e] w1 (Hsame & Hinv1 & Hr); cbn beta iota.
  - destruct Hr as [Hu Hsh]. apply wp_bind, wp_on_shared.
    eapply wp_mono; [apply (parts_from_spec fuel prefix prefix 0 (w_shared w1))|].
    { rewrite <- (app_nil_r prefix) at 2. apply starts_with_app. }
    intros r s2 (Hk2 & run & -> & Hrun). cbn [map_err].
    set (w2 := mkWorld (w_ns w1) s2 (w_disk w1) (w_counters w1)).
    assert (winv cfg w2 F) as Hinv2 by (unfold winv in *; simpl; by rewrite Hk2).
    destruct Hsame as [Hsn Hsd]. cbn beta iota. destruct run as [items|n]; cbn beta iota; cycle 1.
    { apply wp_ret. split; [by eauto|]. split.
      - unfold aborted, wnonce in *. simpl. rewrite Hk2, Hsh, Hsn, Hsd. split_and!; [done..|apply reaped_only_refl].
      - rewrite Hsh in Hrun. rewrite Nat.add_0_r in Hrun. etransitivity; [exact Hrun|]. apply Nat.add_le_mono_r, parts_above_le.
        intros k0. by rewrite lookup_delete_ne. }
    apply wp_bind. eapply wp_mono; [by apply (reap_all_spec b k u (readable items) 0 w2 F)|].
    intros r w3 [(Hn3 & Hc3 & Hinv3 & Hro) (n & -> & Hn & Hs)]. cbn beta iota. apply wp_ret.
    simpl in Hro, Hs. rewrite Hk2, Hsh in Hro, Hs. fold prefix in Hs. rewrite parts_with_delete_upload in Hs.
    split; [by eauto|]. split; [|lia].
    unfold aborted, wnonce in *. rewrite Hn3, Hc3. simpl. rewrite Hsn, Hsd. by split_and!.
  - apply wp_ret. destruct Hr. by split_and!.
  - destruct Hr as [Hnp Hsh]. split; [done|]. destruct Hsame as [Hsn Hsd].
    destruct Hsh as [Hsh|Hsh]; [right; by split_and!|left].
    unfold aborted, wnonce in *. rewrite Hsn, Hsd, Hsh. split_and!; [done..|apply reaped_only_refl].
Qed.

(** Filing a part takes the references the caller holds. *)
Lemma insert_multipart_part_spec b k size n u hash blocks w F :
  let mp := mkMultiPart size n b k u hash blocks in
  MultiPart_wf mp -> winv cfg w (add_refs F blocks) ->
  let filed := <[(MULTIPART_PARTS_TREE, part_key b k u n) := MultiPart_to_vec mp]> (shkv w) in
  wp (insert_multipart_part b k size n u hash blocks) w (fun r w' =>
    same_but_shared w w' /\ winv cfg w' F /\
    match r with
    | Ok _ => shkv w' = filed
    | Err e => no_panic e /\ (shkv w' = filed \/ shkv w' = shkv w)
    end).
Proof.
  intros mp Hwf Hinv filed.
  assert (Inv (cfg_hasher cfg) root (kv (w_ns w)) filed (wfiles w) F) as Hfiled.
  { apply inv_part_insert. unfold blocks_of_part_raw. by rewrite MultiPart_roundtrip. }
  apply wp_on_shared. eapply wp_mono; [apply tree_insert_spec|]. fold filed.
  intros [x|e] s' Hs; simpl.
  - split_and!; [done| |done]. eapply winv_shared; [done|]. simpl. by rewrite Hs.
  - split_and!; [done| |done|done]. eapply winv_shared; [done|]. simpl.
    destruct Hs as [-> | ->]; [done|by eapply inv_drop].
Qed.

(* ------------------------------------------------------------------ *)
(** * The handlers *)

Lemma wp_handler {A} (m : M (World S D) EngErr A) w Q :
  wp m w (fun r w' => Q (map_err InternalError r) w') -> wp (try_ m) w Q.
Proof. unfold wp, try_. by destruct (m w). Qed.

(** Both databases and the disk are as they were. *)
Definition untouched w w' : Prop := same_but_shared w w' /\ shkv w' = shkv w.

Lemma untouched_refl w : untouched w w.
Proof. done. Qed.

Lemma untouched_trans w1 w2 w3 : untouched w1 w2 -> untouched w2 w3 -> untouched w1 w3.
Proof. intros [[Hn1 Hd1] Hs1] [[Hn2 Hd2] Hs2]. split; [split|]; congruence. Qed.

Lemma untouched_winv w w' F : untouched w w' -> winv cfg w F -> winv cfg w' F.
Proof. intros [Hsame Hs] Hinv. eapply winv_shared; [done|]. by rewrite Hs. Qed.

Lemma shared_read_untouched {A} (m : M S MetaError A) w (P : A -> Prop) :
  wp m (w_shared w) (fun r s' => kv s' = kv (w_shared w) /\ match r with Ok a => P a | Err _ => True end) ->
  wp (on_shared EMeta m) w (fun r w' => untouched w w' /\ match r with Ok a => P a | Err e => no_panic e end).
Proof. intros Hm. apply wp_on_shared. eapply wp_mono; [exact Hm|]. by intros [a|e] s' [Hk Ha]. Qed.

Lemma get_upload_spec b k u w :
  wp (get_upload b k u) w (fun r w' => untouched w w' /\
    match r with
    | Ok None => no_upload (shkv w) b k u
    | Ok (Some rec) => upload_at (shkv w) (upload_key b k u) rec
    | Err e => no_panic e
    end).
Proof.
  eapply wp_mono; [apply (shared_read_untouched _ w (fun o : option UploadRecord => match o with
    | None => no_upload (shkv w) b k u | Some rec => upload_at (shkv w) (upload_key b k u) rec end))|].
  - wp_call tree_get_spec; intros [Hk Hr]; [|done]. destruct a as [raw|]; [|by apply wp_ret].
    apply wp_bind, wp_decoded; [|done]. intros rec Hrec. cbn beta iota. apply wp_ret. split; [done|]. by exists raw.
  - by intros [[rec|]|e] w' [Hu Hr].
Qed.

Lemma get_multipart_part_spec b k u n w :
  wp (get_multipart_part b k u n) w (fun r w' => untouched w w' /\
    match r with
    | Ok None => shkv w !! (MULTIPART_PARTS_TREE, part_key b k u n) = None
    | Ok (Some p) => part_at (shkv w) (part_key b k u n) p
    | Err e => no_panic e
    end).
Proof.
  eapply wp_mono; [apply (shared_read_untouched _ w (fun o : option MultiPart => match o with
    | None => shkv w !! (MULTIPART_PARTS_TREE, part_key b k u n) = None
    | Some p => part_at (shkv w) (part_key b k u n) p end))|].
  - wp_call tree_get_spec; intros [Hk Hr]; [|done]. destruct a as [raw|]; [|by apply wp_ret].
    apply wp_bind, wp_decoded; [|done]. intros p Hp. cbn beta iota. apply wp_ret. split; [done|]. by exists raw.
  - by intros [[p|]|e] w' [Hu Hr].
Qed.

Lemma wrap_i32_succ c : wrap_i32 (wrap_i32 c + 1) = wrap_i32 (c + 1).
Proof.
  unfold wrap_i32. f_equal.
  replace ((c + 2 ^ 31) mod 2 ^ 32 - 2 ^ 31 + 1 + 2 ^ 31) with ((c + 2 ^ 31) mod 2 ^ 32 + 1) by lia.
  rewrite Zplus_mod_idemp_l. f_equal. lia.
Qed.

(** Parts accepted by the validation are numbered from one, in order. *)
Lemma validate_parts_spec b k u parts : forall (c : nat) w,
  wp (validate_parts b k u (wrap_i32 (Z.of_nat c)) parts) w (fun r w' => untouched w w' /\
    match r with
    | Ok numbers => parts = map Some numbers /\
        numbers = map (fun i => wrap_i32 (Z.of_nat i)) (seq (c + 1) (length parts))
    | Err (InternalError e) => no_panic e
    | Err _ => True
    end).
Proof.
  induction parts as [|[n|] parts IH]; intros c w; cbn [validate_parts]; [by apply wp_ret| |by apply wp_err].
  rewrite wrap_i32_succ. replace (Z.of_nat c + 1) with (Z.of_nat (Datatypes.S c)) by lia.
  destruct (Z.eqb_spec n (wrap_i32 (Z.of_nat (Datatypes.S c)))) as [->|]; simpl negb; [|by apply wp_err].
  apply wp_bind, wp_try, wp_handler. eapply wp_mono; [apply get_multipart_part_spec|].
  intros [[p|]|e] w1 [Hu1 _]; cbn beta iota; cbn [map_err]; [|by apply wp_err..].
  apply wp_bind. eapply wp_mono; [apply IH|]. intros [numbers|e] w2 [Hu2 Hr]; cbn beta iota;
    [apply wp_ret|]; (split; [by eapply untouched_trans|]); [|done].
  destruct Hr as [-> Hn]. split; [done|]. cbn [length seq map]. rewrite Hn at 1.
  replace (c + 1)%nat with (Datatypes.S c) by lia. replace (Datatypes.S c + 1)%nat with (Datatypes.S (Datatypes.S c)) by lia. done.
Qed.

(** The object a set of parts completes to. *)
Definition completed_object (now : Z) (ps : list MultiPart) : Object :=
  let '(hash, size) := calculate_multipart_hash ps in
  Object_new now size hash (MultiPartData (parts_blocks ps) (Z.of_nat (length ps))).

Lemma completed_object_blocks now ps : o_blocks (completed_object now ps) = parts_blocks ps.
Proof. done. Qed.

(** A completed upload: the claim took the record and the named parts, the
    object inherited their blocks, and what it displaced was released. *)
Definition completes now b k u (numbers : list Z) w w' (o : Object) : Prop :=
  exists rec ps m1 d, claimed b k u numbers rec ps (shkv w) m1 /\ o = completed_object now ps /\
    replaced b k (Object_to_vec o) (o_size o) d (kv (w_ns w)) (kv (w_ns w')) /\
    released (old_blocks d) m1 (shkv w').

Lemma complete_multipart_upload_spec now b k u request w F :
  reserved b = false -> winv cfg w F ->
  (forall ps, Forall2 (fun n p => part_at (shkv w) (part_key b k u n) p) (omap id (default [] request)) ps ->
     Object_wf (completed_object now ps)) ->
  wp (complete_multipart_upload_op cfg now b k u request) w (fun r w' =>
    winv cfg w' F /\
    match r with
    | Ok etag => exists numbers o, request = Some (map Some numbers) /\
        numbers = map (fun i => wrap_i32 (Z.of_nat i)) (seq 1 (length numbers)) /\
        completes now b k u numbers w w' o /\ etag = format_e_tag o
    | Err (InternalError e) => no_panic e /\
        (untouched w w' \/ exists numbers rec ps, claimed b k u numbers rec ps (shkv w) (shkv w'))
    | Err _ => untouched w w'
    end).
Proof.
  intros Hres Hinv Hwf. unfold complete_multipart_upload_op.
  destruct request as [[|n0 parts0]|]; [by apply wp_err| |by apply wp_err].
  set (parts := n0 :: parts0) in *. clearbody parts. clear n0 parts0.
  apply wp_bind, wp_handler. eapply wp_mono; [apply get_upload_spec|].
  intros [[rec|]|e] w1 [Hu1 Hr1]; cbn beta iota; cbn [map_err].
  2: { apply wp_err. split; [by eapply untouched_winv|done]. }
  2: { split; [by eapply untouched_winv|]. by auto. }
  pose proof (untouched_winv _ _ _ Hu1 Hinv) as Hinv1.
  apply wp_bind. eapply wp_mono; [apply (validate_parts_spec b k u parts 0 w1)|].
  intros [numbers|e] w2 [Hu2 Hv]; cbn beta iota; cycle 1.
  { split; [by eapply untouched_winv|]. pose proof (untouched_trans _ _ _ Hu1 Hu2). destruct e; try done. by auto. }
  pose proof (untouched_winv _ _ _ Hu2 Hinv1) as Hinv2. destruct Hv as [-> Hnum].
  pose proof (untouched_trans _ _ _ Hu1 Hu2) as Hu. destruct Hu as [[Hun Hud] Hus].
  apply wp_bind, wp_handler. eapply wp_mono; [by apply (claim_upload_with_parts_spec b k u numbers w2 F)|].
  intros [[rec' ps| |n]|e] w3 [Hsame3 Hc]; cbn beta iota; cbn [map_err].
  - destruct Hc as [Hcl Hinv3].
    assert (Object_wf (completed_object now ps)) as Hobj.
    { apply Hwf. simpl. rewrite omap_map_Some. destruct Hcl as (_ & HF & _). by rewrite Hus in HF. }
    destruct (calculate_multipart_hash ps) as [hash size] eqn:Eh.
    assert (completed_object now ps = Object_new now size hash (MultiPartData (parts_blocks ps) (Z.of_nat (length ps)))) as Eo.
    { unfold completed_object. by rewrite Eh. }
    rewrite Eo in Hobj. apply wp_bind, wp_handler.
    eapply wp_mono; [by apply (create_object_meta_spec cfg now b k size hash _ w3 F)|].
    intros [o|e] w4 [Hinv4 Hr]; cbn beta iota; cbn [map_err]; cycle 1.
    { destruct Hr as [Hnp (Hs4 & _)]. split; [done|]. split; [done|]. right. exists numbers, rec', ps. by rewrite Hs4, <- Hus. }
    apply wp_ret. split; [done|]. destruct Hr as (-> & d & Hm & _ & Hrel & _).
    exists numbers, (completed_object now ps). rewrite <- Eo in *. split_and!; [done| | |done].
    { rewrite Hnum at 1. by rewrite length_map. }
    exists rec', ps, (shkv w3), d. rewrite <- Hus, <- Hun. destruct Hsame3 as [Hn3 _].
    split_and!; [done|done| |done]. rewrite <- Hn3. replace (o_size (completed_object now ps)) with size; [done|].
    by rewrite Eo.
  - destruct Hc as [_ Hs]. apply wp_err. assert (untouched w2 w3) as Hu3 by done.
    split; [by eapply untouched_winv|]. eapply untouched_trans; [|exact Hu3]. by eapply untouched_trans.
  - destruct Hc as [_ Hs]. apply wp_err. assert (untouched w2 w3) as Hu3 by done.
    split; [by eapply untouched_winv|]. eapply untouched_trans; [|exact Hu3]. by eapply untouched_trans.
  - destruct Hc as (Hnp & Hinv3 & Hs). split; [done|]. split; [done|]. destruct Hs as [Hs|(rec' & ps & Hcl)].
    + left. eapply untouched_trans; [|by split]. by split.
    + right. exists numbers, rec', ps. by rewrite <- Hus.
Qed.

(** The part an upload of these chunks files. *)
Definition uploaded_part (b k u : bytes) (n : Z) (chunks : list bytes) : MultiPart :=
  mkMultiPart (Z.of_nat (length (concat chunks))) n b k u (mkContentHash (md5_digest (concat chunks)))
    (map (hash_block (cfg_hasher cfg)) chunks).

Lemma untouched_budget w w' l : untouched w w' -> budget cfg w l -> budget cfg w' l.
Proof. intros [[_ Hd] Hs] [Hn Hz Hr]. unfold wnonce in *. split; [unfold wnonce; by rewrite Hd|done|]. by rewrite Hs. Qed.

Lemma upload_part_spec b k u n md5 body len w F :
  aw_tmp (cfg_writer cfg) = root ++ [TMP_DIR_NAME] ->
  let chunks := (stream_chunks (default [] body)).1 in
  budget cfg w chunks -> MultiPart_wf (uploaded_part b k u n chunks) -> winv cfg w F ->
  wp (upload_part_op cfg b k u n md5 body len) w (fun r w' =>
    winv cfg w' F /\ kv (w_ns w') = kv (w_ns w) /\
    match r with
    | Ok etag => (exists rec, upload_at (shkv w) (upload_key b k u) rec) /\
        part_at (shkv w') (part_key b k u n) (uploaded_part b k u n chunks) /\
        len = Some (Z.of_nat (length (concat chunks))) /\
        etag = ch_to_hex (mkContentHash (md5_digest (concat chunks)))
    | Err _ => True
    end).
Proof.
  intros Hcfg chunks Hbg Hmp Hinv. unfold upload_part_op.
  apply wp_bind, wp_handler. eapply wp_mono; [apply get_upload_spec|].
  intros o w1 [Hu1 Ho]. pose proof (untouched_winv _ _ _ Hu1 Hinv) as Hinv1.
  assert (kv (w_ns w1) = kv (w_ns w)) as Hns1 by (destruct Hu1 as [[Hn _] _]; by rewrite Hn).
  destruct o as [[rec|]|e]; cbn beta iota; cbn [map_err]; [|by apply wp_err|done].
  apply wp_bind, wp_lift. destruct md5 as [md5|e]; [|done]. cbn beta iota.
  destruct body as [items|]; [|by apply wp_err]. destruct len as [len|]; [|by apply wp_err].
  simpl default in chunks. apply wp_bind, wp_handler.
  eapply wp_mono; [apply (store_object_spec cfg Hcfg items w1 F); [by eapply untouched_budget|done]|].
  intros [[[blocks hash] size]|e] w2 Hr; cbn beta iota; cbn [map_err]; cycle 1.
  { destruct Hr as (_ & Hinv2 & Hns2 & _). split_and!; [done|congruence|done]. }
  destruct Hr as (_ & -> & -> & -> & Hns2 & _ & Hinv2). fold chunks in Hinv2 |- *.
  assert (forall e, wp (M_err e : M (World S D) S3Error bytes) w2 (fun r w' =>
    winv cfg w' F /\ kv (w_ns w') = kv (w_ns w) /\ match r with Ok _ => False | Err _ => True end)) as Hfail.
  { intros e. apply wp_err. split_and!; [by eapply inv_drop|congruence|done]. }
  destruct (Z.eqb_spec len (Z.of_nat (length (concat chunks)))) as [->|]; simpl negb;
    [|eapply wp_mono; [apply Hfail|]; by intros [?|?] w' (? & ? & ?)].
  destruct (match md5 with None => true | Some m => _ end); simpl negb;
    [|eapply wp_mono; [apply Hfail|]; by intros [?|?] w' (? & ? & ?)].
  apply wp_bind, wp_handler.
  eapply wp_mono; [by apply (insert_multipart_part_spec b k _ n u _ _ w2 F)|].
  intros [x|e] w3 (Hsame3 & Hinv3 & Hr); cbn beta iota; cbn [map_err];
    (assert (kv (w_ns w3) = kv (w_ns w)) as Hns3 by (destruct Hsame3 as [Hn _]; rewrite Hn; congruence)); [|done].
  apply wp_ret. split_and!; [done|done|by eauto| |done|done].
  exists (MultiPart_to_vec (uploaded_part b k u n chunks)). rewrite Hr. split; [apply lookup_insert_eq|].
  by apply MultiPart_roundtrip.
Qed.

Lemma create_upload_spec now b k u w F :
  winv cfg w F ->
  wp (create_upload now b k u) w (fun r w' => same_but_shared w w' /\ winv cfg w' F /\
    match r with
    | Ok _ => shkv w' = <[(UPLOADS_TREE, upload_key b k u) :=
                UploadRecord_to_vec (UploadRecord_new now b k u)]> (shkv w)
    | Err e => no_panic e
    end).
Proof.
  intros Hinv. apply wp_on_shared. eapply wp_mono; [apply tree_insert_spec|].
  assert (forall v, Inv (cfg_hasher cfg) root (kv (w_ns w)) (<[(UPLOADS_TREE, upload_key b k u) := v]> (shkv w))
    (wfiles w) F) as Hins by (intros v; by apply inv_sh_other_insert).
  intros [x|e] s' Hs; simpl; (split_and!; [done| |done]); (eapply winv_shared; [done|]); simpl;
    [by rewrite Hs|]. destruct Hs as [-> | ->]; done.
Qed.
End UploadOps.
