(* ===== verification/UploadRace.v ===== *)
(** Completes and aborts of one upload against each other: whole requests of
    the two handlers (cas/multipart.rs, cas/uploads.rs), and the claiming
    transactions of requests whose earlier steps ran before, one after another
    in any order. *)

From S2P Require Import Prelude Bytes Externals BlockIds Codec Records StoreHeader MetaStore Disk Placement MetaOps Accounting Engine BatchSpecs WriteSpecs ObjectSpecs Uploads UploadSpecs.
From Stdlib Require Import Strings.Byte.
Local Open Scope Z_scope.

(** Who contends for the upload.  A complete reads the upload and its parts
    before its claiming transaction, and an abort (the client's, or the
    collector's, which makes the same call) reaps after its own: what happens
    between those steps and the transaction is that other contenders come
    first. *)
Inductive Contender : Type :=
| Completes (now : Z) (request : option (list (option Z)))
| Aborts
| ClaimsParts (part_numbers : list Z)
| ClaimsUpload.

Section Race.
Context {S T D : Type} `{Store S T, BlockDiskOps D, StdFs D, Blake3, Md5, FasterHex}.
Context (cfg : StoreCfg).
Abbreviation HM := (M (World S D) S3Error).

(** One contender, answered as the handlers answer. *)
Definition contend (fuel : nat) (b k u : bytes) (c : Contender) : HM (Run unit) :=
  match c with
  | Completes now request =>
      _ ← complete_multipart_upload_op cfg now b k u request; mret (RunEnded tt)
  | Aborts => abort_multipart_upload_op cfg fuel b k u
  | ClaimsParts part_numbers =>
      claim ← try_ (claim_upload_with_parts b k u part_numbers);
      match claim with
      | NoUpload => M_err NoSuchUpload
      | MissingPart _ => M_err InvalidArgument
      | Claimed _ _ => mret (RunEnded tt)
      end
  | ClaimsUpload =>
      claim ← try_ (claim_upload b k u);
      match claim with None => M_err NoSuchUpload | Some _ => mret (RunEnded tt) end
  end.

(** The answers of contenders that come one after another. *)
Fixpoint contend_all (fuel : nat) (b k u : bytes) (cs : list Contender) (w : World S D) :
    list (result S3Error (Run unit)) * World S D :=
  match cs with
  | [] => ([], w)
  | c :: cs =>
      let '(r, w) := contend fuel b k u c w in
      let '(rs, w) := contend_all fuel b k u cs w in
      (r :: rs, w)
  end.
End Race.

(** The answer of a contender that finds the upload taken: there is no such
    upload, unless the request is malformed or the read that would tell fails. *)
Definition told_gone {A} (c : Contender) (r : result S3Error A) : Prop :=
  match r with
  | Err NoSuchUpload => True
  | Err (InternalError e) => no_panic e
  | Err InvalidPart => exists now, c = Completes now None
  | Err InvalidRequest => exists now, c = Completes now (Some [])
  | _ => False
  end.

Section RaceSpecs.
Context {S T D : Type} `{StoreLaws S T, DiskLaws D, Blake3Laws, Md5, FasterHexLaws}.
Context (cfg : StoreCfg).
Abbreviation shkv := (fun w : World S D => kv (w_shared w)).
Implicit Types (w : World S D) (b k u : bytes).

Lemma claimed_gone b k u numbers r ps m m' : claimed b k u numbers r ps m m' -> no_upload m' b k u.
Proof.
  intros (_ & _ & ->). unfold no_upload. rewrite drop_parts_lookup by done. apply lookup_delete_eq.
Qed.

Lemma upload_at_present (m : kvmap) b k u r : upload_at m (upload_key b k u) r -> ~ no_upload m b k u.
Proof. intros (raw & Hraw & _). unfold no_upload. congruence. Qed.

Lemma aborted_gone b k u F w w' : aborted cfg b k u F w w' -> no_upload (shkv w') b k u.
Proof. intros (_ & _ & _ & Hf & _). unfold no_upload. rewrite Hf by done. apply lookup_delete_eq. Qed.

(* ------------------------------------------------------------------ *)
(** * After the upload is taken *)

Definition gone_for w (c : Contender) : result S3Error (Run unit) -> World S D -> Prop :=
  fun r w' => told_gone c r /\ untouched w w'.

Lemma claims_upload_gone b k u w F :
  winv cfg w F -> no_upload (shkv w) b k u ->
  wp (claim_upload b k u) w (fun r w' => untouched w w' /\ match r with Ok c => c = None | Err e => no_panic e end).
Proof.
  intros Hinv Hno. eapply wp_mono; [by apply (claim_upload_spec cfg b k u w F)|].
  intros [[rec|]|e] w' (Hsame & _ & Hr).
  - destruct Hr as [Hat _]. by apply upload_at_present in Hat.
  - destruct Hr as [_ Hs]. split; [|done]. by split.
  - destruct Hr as [Hnp Hs]. split; [|done]. split; [done|]. destruct Hs as [Hs|Hs]; [done|].
    rewrite Hs. by apply delete_id.
Qed.

Lemma claims_parts_gone b k u numbers w F :
  winv cfg w F -> no_upload (shkv w) b k u ->
  wp (claim_upload_with_parts b k u numbers) w (fun r w' => untouched w w' /\
    match r with Ok c => c = NoUpload | Err e => no_panic e end).
Proof.
  intros Hinv Hno. eapply wp_mono; [by apply (claim_upload_with_parts_spec cfg b k u numbers w F)|].
  intros [[rec ps| |n]|e] w' (Hsame & Hr).
  - destruct Hr as [(Hat & _) _]. by apply upload_at_present in Hat.
  - destruct Hr as [_ Hs]. split; [|done]. by split.
  - by destruct Hr as [[_ Hr] _].
  - destruct Hr as (Hnp & _ & [Hs|(rec & ps & Hat & _)]); [|by apply upload_at_present in Hat].
    split; [|done]. by split.
Qed.

Lemma contend_gone fuel b k u c w F :
  winv cfg w F -> no_upload (shkv w) b k u -> wp (contend cfg fuel b k u c) w (gone_for w c).
Proof.
  intros Hinv Hno. destruct c as [now request| |numbers|]; cbn [contend].
  - apply wp_bind. unfold complete_multipart_upload_op. destruct request as [[|n parts]|].
    + apply wp_err. split; [by exists now|apply untouched_refl].
    + apply wp_bind, wp_handler. eapply wp_mono; [apply get_upload_spec|].
      intros [[rec|]|e] w' [Hu Hr]; cbn beta iota; cbn [map_err]; [|by apply wp_err|done].
      by apply upload_at_present in Hr.
    + apply wp_err. split; [by exists now|apply untouched_refl].
  - unfold abort_multipart_upload_op, abort_upload. apply wp_bind, wp_handler, wp_bind.
    eapply wp_mono; [by eapply claims_upload_gone|]. intros [c|e] w' [Hu Hr]; cbn beta iota; [subst c|by split].
    apply wp_ret. cbn beta iota. cbn [map_err]. by apply wp_err.
  - apply wp_bind, wp_handler. eapply wp_mono; [by eapply claims_parts_gone|].
    intros [c|e] w' [Hu Hr]; cbn beta iota; cbn [map_err]; [subst c; by apply wp_err|by split].
  - apply wp_bind, wp_handler. eapply wp_mono; [by eapply claims_upload_gone|].
    intros [c|e] w' [Hu Hr]; cbn beta iota; cbn [map_err]; [subst c; by apply wp_err|by split].
Qed.

Lemma contend_all_gone fuel b k u cs : forall w F,
  winv cfg w F -> no_upload (shkv w) b k u ->
  Forall2 told_gone cs (contend_all cfg fuel b k u cs w).1 /\ untouched w (contend_all cfg fuel b k u cs w).2.
Proof.
  induction cs as [|c cs IH]; intros w F Hinv Hno; cbn [contend_all]; [split; [constructor|apply untouched_refl]|].
  pose proof (contend_gone fuel b k u c w F Hinv Hno) as [Ht Hu].
  destruct (contend cfg fuel b k u c w) as [r w1]. cbn [fst snd] in Ht, Hu.
  destruct (IH w1 F) as [Hts Hu2]; [by eapply untouched_winv|by destruct Hu as [_ ->]|].
  destruct (contend_all cfg fuel b k u cs w1) as [rs w2]. cbn [fst snd] in *.
  split; [by constructor|by eapply untouched_trans].
Qed.

(* ------------------------------------------------------------------ *)
(** * While the upload is there *)

(** The object a complete would file can be written. *)
Definition completable b k u (c : Contender) m : Prop :=
  match c with
  | Completes now request => forall ps,
      Forall2 (fun n p => part_at m (part_key b k u n) p) (omap id (default [] request)) ps ->
      Object_wf (completed_object now ps)
  | _ => True
  end.

(** Nothing counted is lost: the references held outside the records have only
    grown by those of parts a contender has claimed and not yet filed. *)
Definition keeps_held w (F : BlockId -> nat) : Prop := exists F', (forall i, (F i <= F' i)%nat) /\ winv cfg w F'.

Lemma keeps_held_refl w F : winv cfg w F -> keeps_held w F.
Proof. intros Hinv. by exists F. Qed.

(** Either the contender left things as they were, or the upload is taken;
    only then can it have been told so. *)
Lemma contend_spec fuel b k u c w F :
  reserved b = false -> winv cfg w F -> completable b k u c (shkv w) ->
  wp (contend cfg fuel b k u c) w (fun r w' => keeps_held w' F /\
    match r with
    | Ok _ => no_upload (shkv w') b k u
    | Err _ => untouched w w' \/ no_upload (shkv w') b k u
    end).
Proof.
  intros Hres Hinv Hwf. destruct c as [now request| |numbers|]; cbn [contend].
  - apply wp_bind. eapply wp_mono; [by apply (complete_multipart_upload_spec cfg now b k u request w F)|].
    intros [etag|e] w' [Hinv' Hr]; cbn beta iota.
    + destruct Hr as (numbers & o & _ & _ & (rec & ps & m1 & d & Hcl & _ & _ & (_ & _ & Hf)) & _).
      apply wp_ret. split; [by apply keeps_held_refl|]. apply claimed_gone in Hcl.
      unfold no_upload in *. rewrite Hf; [done|]. by intros i _ [= E].
    + split; [by apply keeps_held_refl|]. destruct e; try (by left).
      destruct Hr as [_ [Hu|(numbers & rec & ps & Hcl)]]; [by left|]. right. by eapply claimed_gone.
  - unfold abort_multipart_upload_op. apply wp_bind, wp_handler.
    eapply wp_mono; [by apply (abort_upload_spec cfg fuel b k u w F)|].
    intros [[[n|]|n]|e] w' Hr; cbn beta iota; cbn [map_err].
    + destruct Hr as (_ & Ha & _). apply wp_ret. split; [apply keeps_held_refl; by destruct Ha as (_ & _ & ? & _)|by eapply aborted_gone].
    + destruct Hr as (_ & Hsame & Hs & Hinv'). apply wp_err. split; [by apply keeps_held_refl|]. left. by split.
    + destruct Hr as (_ & Ha & _). apply wp_ret. split; [apply keeps_held_refl; by destruct Ha as (_ & _ & ? & _)|by eapply aborted_gone].
    + destruct Hr as [_ [Ha|(Hsame & Hs & Hinv')]].
      * split; [apply keeps_held_refl; by destruct Ha as (_ & _ & ? & _)|]. right. by eapply aborted_gone.
      * split; [by apply keeps_held_refl|]. left. by split.
  - apply wp_bind, wp_handler. eapply wp_mono; [by apply (claim_upload_with_parts_spec cfg b k u numbers w F)|].
    intros [[rec ps| |n]|e] w' (Hsame & Hr); cbn beta iota; cbn [map_err].
    + destruct Hr as [Hcl Hinv']. apply wp_ret. split; [|by eapply claimed_gone]. eexists. split; [|exact Hinv'].
      intros i. unfold add_refs. lia.
    + destruct Hr as [_ Hs]. apply wp_err. assert (untouched w w') as Hu by done.
      split; [apply keeps_held_refl; by eapply untouched_winv|by left].
    + destruct Hr as [_ Hs]. apply wp_err. assert (untouched w w') as Hu by done.
      split; [apply keeps_held_refl; by eapply untouched_winv|by left].
    + destruct Hr as (_ & Hinv' & Hs). split; [by apply keeps_held_refl|].
      destruct Hs as [Hs|(rec & ps & Hcl)]; [by left|right; by eapply claimed_gone].
  - apply wp_bind, wp_handler. eapply wp_mono; [by apply (claim_upload_spec cfg b k u w F)|].
    assert (forall w', shkv w' = delete (UPLOADS_TREE, upload_key b k u) (shkv w) -> no_upload (shkv w') b k u) as Hgone.
    { intros w' Hs. unfold no_upload. rewrite Hs. apply lookup_delete_eq. }
    intros [[rec|]|e] w' (Hsame & Hinv' & Hr); cbn beta iota; cbn [map_err].
    + destruct Hr as [_ Hs]. apply wp_ret. split; [by apply keeps_held_refl|by apply Hgone].
    + destruct Hr as [_ Hs]. apply wp_err. split; [by apply keeps_held_refl|]. left. by split.
    + destruct Hr as [_ [Hs|Hs]]; (split; [by apply keeps_held_refl|]); [left; by split|right; by apply Hgone].
Qed.

Lemma untouched_completable b k u c w w' :
  untouched w w' -> completable b k u c (shkv w) -> completable b k u c (shkv w').
Proof. intros [_ Hs] Hc. by rewrite Hs. Qed.

(** Of contenders in a row: the first that is answered as the winner has taken
    the upload. *)
Lemma contend_all_spec fuel b k u cs : forall w F,
  reserved b = false -> winv cfg w F -> Forall (fun c => completable b k u c (shkv w)) cs ->
  let '(rs, w') := contend_all cfg fuel b k u cs w in
  keeps_held w' F /\ (untouched w w' \/ no_upload (shkv w') b k u) /\
  (Exists (fun r => is_ok r = true) rs -> no_upload (shkv w') b k u) /\
  (length (List.filter is_ok rs) <= 1)%nat.
Proof.
  induction cs as [|c cs IH]; intros w F Hres Hinv Hall; cbn [contend_all].
  { split; [by apply keeps_held_refl|]. split; [left; apply untouched_refl|].
    split; [by intros ?%Exists_nil|simpl; lia]. }
  apply Forall_cons in Hall as [Hc Hall].
  pose proof (contend_spec fuel b k u c w F Hres Hinv Hc) as Hr. unfold wp in Hr.
  destruct (contend cfg fuel b k u c w) as [r w1]. cbn [fst snd] in Hr. destruct Hr as [(F1 & HF1 & Hinv1) Hr].
  assert (untouched w w1 /\ is_ok r = false \/ no_upload (shkv w1) b k u) as Hcase.
  { destruct r; [by right|]. destruct Hr; [by left|by right]. }
  destruct Hcase as [[Hu Hko]|Hno].
  - specialize (IH w1 F1 Hres Hinv1).
    destruct (contend_all cfg fuel b k u cs w1) as [rs w2].
    destruct IH as ((F2 & HF2 & Hinv2) & Hcase & Hex & Hlen).
    { eapply Forall_impl; [exact Hall|]. intros c' Hc'. by eapply untouched_completable. }
    split; [exists F2; split; [intros i; etransitivity; [apply HF1|apply HF2]|done]|].
    split; [destruct Hcase as [Hu2|]; [left; by eapply untouched_trans|by right]|].
    split; [|simpl; by rewrite Hko]. intros [Hx|Hx]%Exists_cons; [by rewrite Hko in Hx|by apply Hex].
  - destruct (contend_all_gone fuel b k u cs w1 F1 Hinv1 Hno) as [Ht Hu].
    destruct (contend_all cfg fuel b k u cs w1) as [rs w2]. cbn [fst snd] in Ht, Hu.
    assert (no_upload (shkv w2) b k u) as Hno2 by (by destruct Hu as [_ ->]).
    split; [exists F1; split; [done|by eapply untouched_winv]|]. split; [by right|]. split; [done|].
    assert (List.filter is_ok rs = []) as Hnone.
    { clear -Ht. induction Ht as [|c r cs rs Hc Ht IH]; [done|]. cbn [List.filter]. destruct r as [?|?]; [done|exact IH]. }
    simpl. destruct (is_ok r); simpl; rewrite Hnone; simpl; lia.
Qed.

Lemma contend_all_app fuel b k u cs cs' w :
  contend_all cfg fuel b k u (cs ++ cs') w =
  let '(rs, w1) := contend_all cfg fuel b k u cs w in
  let '(rs', w2) := contend_all cfg fuel b k u cs' w1 in (rs ++ rs', w2).
Proof.
  revert w. induction cs as [|c cs IH]; intros w; cbn [contend_all app].
  - by destruct (contend_all cfg fuel b k u cs' w).
  - destruct (contend cfg fuel b k u c w) as [r w0]. rewrite IH.
    destruct (contend_all cfg fuel b k u cs w0) as [rs w1].
    by destruct (contend_all cfg fuel b k u cs' w1).
Qed.
End RaceSpecs.
