(* ===== verification/Gc.v ===== *)
(** The stale-upload collector (cas/gc.rs): abort every upload older than the
    cutoff, then reap every part record whose upload is gone.  Failures are
    counted and stepped over; a walk that keeps failing to read is a [Run] that
    is still going. *)

From S2P Require Import Prelude Bytes Externals BlockIds Codec Records StoreHeader MetaStore Disk Placement MetaOps Accounting Engine BatchSpecs WriteSpecs ObjectSpecs Uploads UploadSpecs.
From Stdlib Require Import Strings.Byte.
Local Open Scope Z_scope.
#[local] Set Warnings "-clear-no-such-hyp".

Record SweepStats : Type := mkSweepStats {
  uploads_reaped : Z;
  orphan_parts_reaped : Z;
  errors : Z
}.

Definition no_stats : SweepStats := mkSweepStats 0 0 0.

(** [+= 1] wraps in a release build. *)
Definition count_upload (s : SweepStats) : SweepStats :=
  mkSweepStats (wrap_u64 (uploads_reaped s + 1)) (orphan_parts_reaped s) (errors s).
Definition count_orphan (s : SweepStats) : SweepStats :=
  mkSweepStats (uploads_reaped s) (wrap_u64 (orphan_parts_reaped s + 1)) (errors s).
Definition count_error (s : SweepStats) : SweepStats :=
  mkSweepStats (uploads_reaped s) (orphan_parts_reaped s) (wrap_u64 (errors s + 1)).

Section Sweep.
Context {S T D : Type} `{Store S T, BlockDiskOps D, StdFs D, Blake3, Md5, FasterHex}.
Context (cfg : StoreCfg).
Abbreviation EM := (M (World S D) EngErr).

(** The age phase's loop over the listed records. *)
Fixpoint abort_aged (fuel : nat) (cutoff : Z) (records : list UploadRecord) (stats : SweepStats) : EM (Run SweepStats) :=
  match records with
  | [] => mret (RunEnded stats)
  | record :: rest =>
      if cutoff <=? ur_created_at record then abort_aged fuel cutoff rest stats
      else
        outcome ← M_try (abort_upload cfg fuel (ur_bucket record) (ur_key record) (ur_upload_id record));
        match outcome with
        | Ok (RunGoing failed) => mret (RunGoing failed)
        | Ok (RunEnded (Some _)) => abort_aged fuel cutoff rest (count_upload stats)
        | Ok (RunEnded None) => abort_aged fuel cutoff rest stats
        | Err _ => abort_aged fuel cutoff rest (count_error stats)
        end
  end.

Definition sweep_aged_uploads (fuel : nat) (cutoff : Z) (stats : SweepStats) : EM (Run SweepStats) :=
  records ← M_try (list_uploads fuel);
  match records with
  | Err _ => mret (RunEnded (count_error stats))
  | Ok records => abort_aged fuel cutoff records stats
  end.

(** The orphan phase's walk.  A failed read leaves the cursor where it is, so
    the loop ends only when the read succeeds. *)
Fixpoint find_orphans (fuel : nat) (t : tree) (cursor : option bytes) (stats : SweepStats) (failed : nat) :
    EM (Run (list (bytes * MultiPart) * SweepStats)) :=
  match fuel with
  | O => mret (RunGoing failed)
  | Datatypes.S fuel' =>
      item ← M_try (on_shared EMeta (tree_next t cursor));
      match item with
      | Ok None => mret (RunEnded ([], stats))
      | Err _ => find_orphans fuel' t cursor (count_error stats) (Datatypes.S failed)
      | Ok (Some (storage_key, raw)) =>
          match MultiPart_try_from raw with
          | Err _ => find_orphans fuel' t (Some storage_key) (count_error stats) failed
          | Ok part =>
              upload ← M_try (get_upload (mp_bucket part) (mp_key part) (mp_upload_id part));
              match upload with
              | Ok (Some _) => find_orphans fuel' t (Some storage_key) stats failed
              | Ok None =>
                  found ← find_orphans fuel' t (Some storage_key) stats failed;
                  mret (run_map (fun found => ((storage_key, part) :: found.1, found.2)) found)
              | Err _ => find_orphans fuel' t (Some storage_key) (count_error stats) failed
              end
          end
      end
  end.

Fixpoint reap_orphans (orphans : list (bytes * MultiPart)) (stats : SweepStats) : EM SweepStats :=
  match orphans with
  | [] => mret stats
  | (storage_key, _) :: rest =>
      outcome ← M_try (reap_part cfg storage_key);
      reap_orphans rest
        (match outcome with
         | Ok (Some _) => count_orphan stats
         | Ok None => stats
         | Err _ => count_error stats
         end)
  end.

Definition sweep_orphan_parts (fuel : nat) (stats : SweepStats) : EM (Run SweepStats) :=
  t ← M_try (on_shared EMeta (tree_open MULTIPART_PARTS_TREE));
  match t with
  | Err _ => mret (RunEnded (count_error stats))
  | Ok t =>
      found ← find_orphans fuel t None stats 0;
      match found with
      | RunGoing failed => mret (RunGoing failed)
      | RunEnded found => stats ← reap_orphans found.1 found.2; mret (RunEnded stats)
      end
  end.

(** [i64::try_from(ttl.as_secs()).unwrap_or(i64::MAX)]. *)
Definition ttl_secs (ttl : Z) : Z := if ttl <=? i64_max then ttl else i64_max.

(** [now] is [Utc::now().timestamp()] and [ttl] the duration in seconds. *)
Definition sweep_stale_uploads (fuel : nat) (now ttl : Z) : EM (Run SweepStats) :=
  let cutoff := saturating_sub_i64 now (ttl_secs ttl) in
  aged ← sweep_aged_uploads fuel cutoff no_stats;
  match aged with
  | RunGoing failed => mret (RunGoing failed)
  | RunEnded stats => sweep_orphan_parts fuel stats
  end.
End Sweep.

(* ------------------------------------------------------------------ *)
(** * What a sweep guarantees *)

Section SweepSpecs.
Context {S T D : Type} `{StoreLaws S T, DiskLaws D, Blake3Laws, Md5, FasterHexLaws}.
Context (cfg : StoreCfg).
Abbreviation shkv := (fun w : World S D => kv (w_shared w)).
Implicit Types (w : World S D) (b k u : bytes) (m : kvmap).

(** A triple names a key only if its fields have lengths a key can encode. *)
Definition keyable (b k u : bytes) : Prop :=
  fits b /\ fits k /\ fits u.

Definition record_key (r : UploadRecord) : bytes := upload_key (ur_bucket r) (ur_key r) (ur_upload_id r).
Definition own_key (p : MultiPart) : bytes :=
  part_key (mp_bucket p) (mp_key p) (mp_upload_id p) (mp_part_number p).
Definition orphan (m : kvmap) (p : MultiPart) : Prop := no_upload m (mp_bucket p) (mp_key p) (mp_upload_id p).

(** Upload records lie under the key of the triple they carry. *)
Definition uploads_filed (m : kvmap) : Prop :=
  forall key r, upload_at m key r -> key = record_key r /\ keyable (ur_bucket r) (ur_key r) (ur_upload_id r).

(** Upload [b k u]: its record, and its parts filed under their own keys. *)
Definition upload_kept b k u (m m' : kvmap) : Prop :=
  m' !! (UPLOADS_TREE, upload_key b k u) = m !! (UPLOADS_TREE, upload_key b k u) /\
  forall n, m' !! (MULTIPART_PARTS_TREE, part_key b k u n) = m !! (MULTIPART_PARTS_TREE, part_key b k u n).

Lemma upload_kept_refl b k u m : upload_kept b k u m m.
Proof. done. Qed.

Lemma upload_kept_trans b k u m1 m2 m3 :
  upload_kept b k u m1 m2 -> upload_kept b k u m2 m3 -> upload_kept b k u m1 m3.
Proof. intros [Hu1 Hp1] [Hu2 Hp2]. split; [congruence|]. intros n. by rewrite Hp2. Qed.

(** The world after part of a sweep. *)
Definition swept (F : BlockId -> nat) w w' : Prop :=
  kv (w_ns w') = kv (w_ns w) /\ winv cfg w' F.

Lemma swept_trans F w1 w2 w3 : swept F w1 w2 -> swept F w2 w3 -> swept F w1 w3.
Proof. intros [Hn1 _] [Hn2 ?]. split; [congruence|done]. Qed.

(** No part row has appeared. *)
Definition parts_within (m m' : kvmap) : Prop :=
  forall key, is_Some (m' !! (MULTIPART_PARTS_TREE, key)) -> is_Some (m !! (MULTIPART_PARTS_TREE, key)).

Lemma parts_within_refl m : parts_within m m.
Proof. by intros key. Qed.

Lemma parts_within_trans m1 m2 m3 : parts_within m1 m2 -> parts_within m2 m3 -> parts_within m1 m3.
Proof. unfold parts_within. auto. Qed.

Lemma aborted_within b k u F w w' : aborted cfg b k u F w w' -> parts_within (shkv w) (shkv w').
Proof.
  intros (_ & _ & _ & _ & Hs) key Hk. pose proof (Hs key Hk) as E. rewrite E in Hk.
  by rewrite lookup_delete_ne in Hk.
Qed.

(** A loop whose fuel has run out has spent it on failed reads, but for one
    step per part row there was. *)
Definition still_reading (fuel : nat) m (failed : nat) : Prop :=
  (fuel <= size (keys_above m MULTIPART_PARTS_TREE None) + failed)%nat.

Lemma still_reading_within fuel m m' n : parts_within m m' -> still_reading fuel m' n -> still_reading fuel m n.
Proof. intros Hw Hr. unfold still_reading in *. pose proof (parts_above_le m m' None Hw). lia. Qed.

Lemma untouched_swept F w w' : untouched w w' -> winv cfg w F -> swept F w w'.
Proof. intros Hu Hinv. split; [destruct Hu as [[-> _] _]; done|by eapply untouched_winv]. Qed.

Lemma reaps_swept P F w w' : reaps cfg P F w w' -> swept F w w'.
Proof. by intros (? & _ & ? & _). Qed.

(** Aborting one upload leaves every other one alone. *)
Lemma aborted_keeps b k u b' k' u' F w w' :
  keyable b k u -> keyable b' k' u' -> (b, k, u) <> (b', k', u') ->
  aborted cfg b k u F w w' -> upload_kept b' k' u' (shkv w) (shkv w').
Proof.
  intros (Hb & Hk & Hu) (Hb' & Hk' & Hu') Hne (_ & _ & _ & Hf & _). split.
  - rewrite Hf by done. apply lookup_delete_ne. intros E. apply (f_equal snd) in E. cbn [snd] in E.
    apply upload_key_inj in E as (-> & -> & ->); done.
  - intros n. rewrite Hf; [by apply lookup_delete_ne|done|].
    intros _ Hs. apply starts_with_part_prefix in Hs as (-> & -> & ->); done.
Qed.

(** The error counter has room for [n] more. *)
Definition err_room (n : nat) (stats : SweepStats) : Prop :=
  0 <= errors stats /\ errors stats + Z.of_nat n <= u64_max.

Lemma count_error_errors n stats :
  err_room (Datatypes.S n) stats ->
  errors (count_error stats) = errors stats + 1 /\ err_room n (count_error stats).
Proof.
  intros [H0' Hn]. unfold err_room. cbn [errors count_error]. rewrite wrap_u64_small by lia. lia.
Qed.

Lemma err_room_le (n n' : nat) stats : err_room n stats -> (n' <= n)%nat -> err_room n' stats.
Proof. intros [H0' Hn] Hm. split; lia. Qed.

(** Where a sweep, or a phase of it, has got to. *)
Definition sweep_outcome (fuel n : nat) (stats : SweepStats) m (r : result EngErr (Run SweepStats)) : Prop :=
  match r with
  | Ok (RunEnded st) => errors stats <= errors st <= errors stats + Z.of_nat n
  | Ok (RunGoing failed) => still_reading fuel m failed
  | Err _ => False
  end.

Lemma sweep_outcome_step fuel (n n' : nat) stats stats' m m' r :
  errors stats <= errors stats' -> errors stats' + Z.of_nat n' <= errors stats + Z.of_nat n -> parts_within m m' ->
  sweep_outcome fuel n' stats' m' r -> sweep_outcome fuel n stats m r.
Proof.
  intros He1 He2 Hw. destruct r as [[st|k]|e]; cbn; [lia| |done]. by apply still_reading_within.
Qed.

Lemma abort_aged_spec fuel cutoff b k u records : forall stats w F,
  winv cfg w F -> keyable b k u -> err_room (length records) stats ->
  Forall (fun r => keyable (ur_bucket r) (ur_key r) (ur_upload_id r) /\
    (ur_created_at r < cutoff -> (ur_bucket r, ur_key r, ur_upload_id r) <> (b, k, u))) records ->
  wp (abort_aged cfg fuel cutoff records stats) w (fun r w' =>
    sweep_outcome fuel (length records) stats (shkv w) r /\
    swept F w w' /\ parts_within (shkv w) (shkv w') /\ upload_kept b k u (shkv w) (shkv w')).
Proof.
  induction records as [|rec records IH]; intros stats w F Hinv Hkb Hroom Hall; cbn [abort_aged].
  { apply wp_ret. split; [cbn; lia|]. split; [done|]. split; [apply parts_within_refl|apply upload_kept_refl]. }
  destruct (count_error_errors _ _ Hroom) as [Ee Hroom'].
  apply (err_room_le _ (length records)) in Hroom; [|simpl; lia].
  apply Forall_cons in Hall as [[Hkr Hne] Hall]. destruct (Z.leb_spec cutoff (ur_created_at rec)) as [|Hlt].
  { eapply wp_mono; [by apply (IH stats w F)|]. intros r w' (Ho & Hrest). split; [|exact Hrest].
    eapply sweep_outcome_step, Ho; [lia|simpl; lia|apply parts_within_refl]. }
  specialize (Hne Hlt).
  apply wp_bind, wp_try. eapply wp_mono; [by apply (abort_upload_spec cfg fuel _ _ _ w F)|].
  intros o w1 Ho. cbn beta iota.
  assert (swept F w w1 /\ parts_within (shkv w) (shkv w1) /\ upload_kept b k u (shkv w) (shkv w1)) as (Hs1 & Hw1 & Hk1).
  { assert (forall w1, aborted cfg (ur_bucket rec) (ur_key rec) (ur_upload_id rec) F w w1 ->
      swept F w w1 /\ parts_within (shkv w) (shkv w1) /\ upload_kept b k u (shkv w) (shkv w1)) as Hab.
    { intros w' Ha. split; [by destruct Ha as (? & _ & ? & _)|]. split; [by eapply aborted_within|by eapply aborted_keeps]. }
    assert (forall w1, same_but_shared w w1 /\ shkv w1 = shkv w /\ winv cfg w1 F ->
      swept F w w1 /\ parts_within (shkv w) (shkv w1) /\ upload_kept b k u (shkv w) (shkv w1)) as Hsame.
    { intros w' ([Hn _] & Hs & Hi). split; [split; [by rewrite Hn|done]|]. rewrite Hs. split; [apply parts_within_refl|apply upload_kept_refl]. }
    destruct o as [[[n|]|n]|e].
    - destruct Ho as (_ & Ha & _). by apply Hab.
    - destruct Ho as (_ & Ho). by apply Hsame.
    - destruct Ho as (_ & Ha & _). by apply Hab.
    - destruct Ho as [_ [Ha|Ho]]; [by apply Hab|by apply Hsame]. }
  assert (forall st1, errors stats <= errors st1 <= errors stats + 1 -> err_room (length records) st1 ->
    wp (abort_aged cfg fuel cutoff records st1) w1 (fun r w' =>
      sweep_outcome fuel (length (rec :: records)) stats (shkv w) r /\
      swept F w w' /\ parts_within (shkv w) (shkv w') /\ upload_kept b k u (shkv w) (shkv w'))) as Hgo.
  { intros st1 He1 Hr1. eapply wp_mono; [apply (IH st1 w1 F); [by destruct Hs1|done..]|].
    intros r w2 (Ho2 & Hs2 & Hw2 & Hk2).
    split; [|split; [by eapply swept_trans|split; [by eapply parts_within_trans|by eapply upload_kept_trans]]].
    eapply sweep_outcome_step, Ho2; [lia|simpl; lia|done]. }
  destruct o as [[[n|]|n]|e].
  - apply Hgo; [simpl; lia|done].
  - apply Hgo; [lia|done].
  - apply wp_ret. by destruct Ho as (_ & _ & Ho).
  - apply Hgo; [lia|done].
Qed.

Lemma walk_length m t c l : walk_of m t c l -> (length l <= size (keys_above m t c))%nat.
Proof.
  intros [Hsort Hmem]. rewrite <- (length_fmap fst l).
  assert (NoDup l.*1) as Hnd.
  { clear Hmem. induction Hsort as [|x l Hs IH Hall]; simpl; [constructor|]. constructor; [|done].
    intros ([k v] & Hk & Hin)%list_elem_of_fmap. rewrite Forall_forall in Hall. specialize (Hall _ Hin).
    simpl in *. rewrite Hk, bytes_ltb_irrefl in Hall. done. }
  rewrite <- (size_list_to_set (C := gset bytes) l.*1 Hnd). apply subseteq_size. intros k Hk.
  apply elem_of_list_to_set, list_elem_of_fmap in Hk as ([k' v] & -> & Hin). apply Hmem in Hin as [Hv Hc].
  apply elem_of_keys_above. split; [by eexists|done].
Qed.

Lemma sweep_aged_spec fuel cutoff b k u stats w F :
  err_room fuel stats -> winv cfg w F -> uploads_filed (shkv w) -> keyable b k u ->
  (size (keys_above (shkv w) UPLOADS_TREE None) < fuel)%nat ->
  (forall r, upload_at (shkv w) (upload_key b k u) r -> cutoff <= ur_created_at r) ->
  wp (sweep_aged_uploads cfg fuel cutoff stats) w (fun r w' =>
    sweep_outcome fuel fuel stats (shkv w) r /\
    swept F w w' /\ parts_within (shkv w) (shkv w') /\ upload_kept b k u (shkv w) (shkv w')).
Proof.
  intros Hroom Hinv Hfiled Hkb Hfuel Hfresh.
  assert (1 <= fuel)%nat as Hpos by (eapply Nat.le_lt_trans; [apply Nat.le_0_l|exact Hfuel]).
  unfold sweep_aged_uploads, list_uploads.
  apply wp_bind, wp_try, wp_on_shared. eapply wp_mono; [by apply iter_map_spec|].
  intros [recs|e] s1 [Hk Hr]; cbn beta iota; cbn [map_err];
    set (w1 := mkWorld (w_ns w) s1 (w_disk w) (w_counters w));
    (assert (untouched w w1) as Hu1 by done); pose proof (untouched_swept F _ _ Hu1 Hinv) as Hs1; cycle 1.
  { destruct (count_error_errors 0 stats) as [E _]; [eapply err_room_le; [done|lia]|].
    apply wp_ret. split; [cbn [sweep_outcome]; lia|]. split; [done|]. simpl. rewrite Hk.
    split; [apply parts_within_refl|apply upload_kept_refl]. }
  destruct Hr as (l & Hwalk & HF). pose proof (walk_length _ _ _ _ Hwalk) as Hlen. destruct Hwalk as [_ Hw].
  pose proof (Forall2_length _ _ _ HF) as Hlen2. eapply wp_mono; [apply (abort_aged_spec fuel cutoff b k u recs stats w1 F)|].
  - apply Hs1.
  - done.
  - eapply err_room_le; [done|lia].
  - apply Forall_forall. intros r Hin. apply list_elem_of_lookup in Hin as [i Hi].
    destruct (Forall2_lookup_r _ _ _ _ _ HF Hi) as ([key raw] & Hl & Hd). apply list_elem_of_lookup_2 in Hl.
    apply Hw in Hl as [Hraw _]. simpl in Hd. destruct (UploadRecord_try_from raw) as [r'|] eqn:Er; [|done].
    injection Hd as ->. assert (upload_at (shkv w) key r) as Hat by (by exists raw).
    destruct (Hfiled _ _ Hat) as [-> Hkr]. split; [done|]. intros Hlt [= <- <- <-].
    specialize (Hfresh r Hat). lia.
  - simpl. rewrite Hk. intros r w2 (Ho & Hs2 & Hw2 & Hk2).
    split; [eapply sweep_outcome_step, Ho; [lia|lia|apply parts_within_refl]|].
    split; [exact (swept_trans _ _ _ _ Hs1 Hs2)|]. by split.
Qed.

(* ------------------------------------------------------------------ *)
(** * Orphans *)

(** The result of the walk above a cursor. *)
Definition orphans_found m (c : option bytes) (fuel failed : nat) (stats : SweepStats)
    (run : Run (list (bytes * MultiPart) * SweepStats)) : Prop :=
  match run with
  | RunEnded (l, stats') =>
      (forall key p, (key, p) ∈ l -> part_at m key p /\ orphan m p) /\ (length l <= fuel)%nat /\
      errors stats <= errors stats' <= errors stats + Z.of_nat fuel /\
      (errors stats' = errors stats ->
       forall key p, part_at m key p -> orphan m p -> above c key = true -> (key, p) ∈ l)
  | RunGoing n => (fuel + failed <= size (keys_above m MULTIPART_PARTS_TREE c) + n)%nat
  end.

(** A failed read: the cursor stays. *)
Lemma orphans_found_unread m c fuel failed stats run :
  err_room (Datatypes.S fuel) stats ->
  orphans_found m c fuel (Datatypes.S failed) (count_error stats) run ->
  orphans_found m c (Datatypes.S fuel) failed stats run.
Proof.
  intros Hroom. destruct (count_error_errors _ _ Hroom) as [Ee _]. destruct run as [[l st]|n]; cbn [orphans_found]; [|lia].
  intros (Hs & Hl & He & _). split_and!; [done|lia|lia|lia|]. intros E. lia.
Qed.

(** A row stepped over with an error. *)
Lemma orphans_found_error m c key fuel failed stats run :
  err_room (Datatypes.S fuel) stats -> next_key m MULTIPART_PARTS_TREE c key ->
  orphans_found m (Some key) fuel failed (count_error stats) run ->
  orphans_found m c (Datatypes.S fuel) failed stats run.
Proof.
  intros Hroom Hnext%keys_above_next. destruct (count_error_errors _ _ Hroom) as [Ee _].
  destruct run as [[l st]|n]; cbn [orphans_found]; [|lia].
  intros (Hs & Hl & He & _). split_and!; [done|lia|lia|lia|]. intros E. lia.
Qed.

(** One decodable record stepped over. *)
Lemma orphans_found_step m c fuel failed key raw p stats run (kept : bool) :
  next_key m MULTIPART_PARTS_TREE c key -> m !! (MULTIPART_PARTS_TREE, key) = Some raw ->
  MultiPart_try_from raw = Ok p ->
  (if kept then orphan m p else ~ orphan m p) ->
  orphans_found m (Some key) fuel failed stats run ->
  orphans_found m c (Datatypes.S fuel) failed stats
    (if kept then run_map (fun found => ((key, p) :: found.1, found.2)) run else run).
Proof.
  intros Hnext Hraw Hp Hk. pose proof (keys_above_next _ _ _ _ Hnext) as Hsz.
  destruct run as [[l stats']|n]; cbn [orphans_found run_map fst snd]; [|destruct kept; cbn [orphans_found run_map]; lia].
  intros (Hs & Hl & He & Hall).
  enough (orphans_found m c (Datatypes.S fuel) failed stats (RunEnded (if kept then (key, p) :: l else l, stats')))
    by (by destruct kept).
  split_and!; [|by destruct kept; simpl; lia|lia|lia|].
  - assert (part_at m key p) as Hat by (by exists raw). destruct kept; [|done].
    intros key' p' [[= -> ->]|Hin]%elem_of_cons; [done|by apply Hs].
  - intros E key' p' Hat Ho Hab.
    assert (key' = key -> p' = p) as Hsame.
    { intros ->. destruct Hat as (raw' & Hraw' & Hp'). congruence. }
    destruct (decide (key' = key)) as [->|Hne].
    { rewrite (Hsame eq_refl) in *. destruct kept; [by left|done]. }
    assert ((key', p') ∈ l) as Hin.
    { apply Hall; [lia|done|done|]. simpl. destruct (bytes_ltb key key') eqn:El; [done|]. exfalso. apply Hne.
      destruct Hnext as (_ & _ & Hmin). apply bytes_ltb_total; [|done]. apply Hmin; [|done].
      destruct Hat as (raw' & Hraw' & _). by eexists. }
    destruct kept; [by right|done].
Qed.

Lemma find_orphans_spec fuel : forall c stats failed w,
  err_room fuel stats ->
  wp (find_orphans fuel MULTIPART_PARTS_TREE c stats failed) w (fun r w' => untouched w w' /\
    exists run, r = Ok run /\ orphans_found (shkv w) c fuel failed stats run).
Proof.
  induction fuel as [|fuel IH]; intros c stats failed w Hroom; cbn [find_orphans].
  { apply wp_ret. split; [done|]. eexists. split; [reflexivity|]. cbn. lia. }
  pose proof Hroom as Hroom0. destruct (count_error_errors _ _ Hroom) as [_ Hroom'].
  apply (err_room_le _ fuel) in Hroom0; [|lia].
  apply wp_bind, wp_try, wp_on_shared. eapply wp_mono; [apply tree_next_spec|].
  intros item s1 [Hk Hn]. cbn beta iota. set (w1 := mkWorld (w_ns w) s1 (w_disk w) (w_counters w)).
  assert (untouched w w1) as Hu1 by done.
  assert (forall c' st fd w2, untouched w w2 -> err_room fuel st ->
    wp (find_orphans fuel MULTIPART_PARTS_TREE c' st fd) w2 (fun r w' => untouched w w' /\
      exists run, r = Ok run /\ orphans_found (shkv w) c' fuel fd st run)) as Hgo.
  { intros c' st fd w2 Hu2 Hr2. eapply wp_mono; [by apply (IH c' st fd w2)|].
    intros r w3 (Hu3 & run & -> & Hf). split; [by eapply untouched_trans|]. exists run.
    destruct Hu2 as [_ Hs2]. rewrite Hs2 in Hf. done. }
  destruct item as [[[key raw]|]|e]; cbn [map_err].
  - destruct Hn as [Hnext Hraw]. destruct (MultiPart_try_from raw) as [p|e] eqn:Ep.
    + apply wp_bind, wp_try. eapply wp_mono; [apply get_upload_spec|].
      intros o w2 [Hu2 Ho]. pose proof (untouched_trans _ _ _ Hu1 Hu2) as Hu. simpl in Ho. rewrite Hk in Ho.
      cbn beta iota. destruct o as [[rec|]|e].
      * eapply wp_mono; [by apply (Hgo (Some key) stats failed w2)|].
        intros r w3 (Hu3 & run & -> & Hf). split; [done|]. exists run. split; [done|].
        apply (orphans_found_step _ _ _ _ key raw p _ run false); [done..| |done].
        intros Hn. destruct Ho as (raw' & Hraw' & _). unfold orphan, no_upload in Hn. congruence.
      * apply wp_bind. eapply wp_mono; [by apply (Hgo (Some key) stats failed w2)|].
        intros r w3 (Hu3 & run & -> & Hf). cbn beta iota. apply wp_ret. split; [done|].
        eexists. split; [reflexivity|]. by apply (orphans_found_step _ _ _ _ key raw p _ run true).
      * eapply wp_mono; [by apply (Hgo (Some key) (count_error stats) failed w2)|].
        intros r w3 (Hu3 & run & -> & Hf). split; [done|]. exists run. split; [done|].
        by eapply orphans_found_error.
    + eapply wp_mono; [by apply (Hgo (Some key) (count_error stats) failed w1)|].
      intros r w3 (Hu3 & run & -> & Hf). split; [done|]. exists run. split; [done|].
      by eapply orphans_found_error.
  - apply wp_ret. split; [done|]. eexists. split; [reflexivity|].
    split_and!; [set_solver|simpl; lia|lia|lia|]. intros _ key p (raw & Hraw & _) _ Hab. exfalso.
    destruct (walk_end _ _ _ Hn) as [_ Hw].
    assert ((key, raw) ∈ @nil (bytes * bytes)) as Hin by (by apply Hw). by apply elem_of_nil in Hin.
  - eapply wp_mono; [by apply (Hgo c (count_error stats) (Datatypes.S failed) w1)|].
    intros r w3 (Hu3 & run & -> & Hf). split; [done|]. exists run. split; [done|].
    by eapply orphans_found_unread.
Qed.

Lemma reap_orphans_spec l : forall stats w F,
  winv cfg w F -> err_room (length l) stats ->
  wp (reap_orphans cfg l stats) w (fun r w' =>
    reaps cfg (fun key => key ∈ map fst l) F w w' /\ exists stats', r = Ok stats' /\
    errors stats <= errors stats' /\
    (errors stats' = errors stats -> forall key, key ∈ map fst l -> shkv w' !! (MULTIPART_PARTS_TREE, key) = None)).
Proof.
  induction l as [|[key p] l IH]; intros stats w F Hinv Hroom; cbn [reap_orphans].
  { apply wp_ret. split; [by apply reaps_refl|]. exists stats. split_and!; [done|lia|]. set_solver. }
  destruct (count_error_errors _ _ Hroom) as [Ee Hroom'].
  apply wp_bind, wp_try. eapply wp_mono; [by apply (reap_part_spec cfg key w F)|].
  intros o w1 [Hr1 Ho]. cbn beta iota. pose proof Hr1 as (_ & _ & Hinv1 & Hro1).
  set (st1 := match o with Ok (Some _) => count_orphan stats | Ok None => stats | Err _ => count_error stats end).
  assert (err_room (length l) st1 /\ errors stats <= errors st1 /\
    (errors st1 = errors stats -> shkv w1 !! (MULTIPART_PARTS_TREE, key) = None)) as (Hroom1 & He1 & Hgone).
  { apply (err_room_le _ (length l)) in Hroom; [|simpl; lia]. subst st1. destruct o as [[p'|]|e]; simpl.
    - destruct Ho as [_ Ho]. split_and!; [done|lia|done].
    - split_and!; [done|lia|]. intros _. destruct (shkv w1 !! (MULTIPART_PARTS_TREE, key)) as [v|] eqn:Ev; [|done].
      destruct Hro1 as [_ Hs]. specialize (Hs key ltac:(by rewrite Ev)). congruence.
    - simpl in Ee. split_and!; [done|lia|lia]. }
  eapply wp_mono; [by apply (IH st1 w1 F)|]. intros r w2 (Hr2 & st' & -> & He2 & Hall). split.
  { eapply reaps_trans; (eapply reaps_mono; [|eassumption]); simpl; [intros ? <-; by left|intros; by right]. }
  exists st'. split_and!; [done|lia|]. intros E key' [->|Hin]%elem_of_cons; [|apply Hall; [lia|done]].
  simpl. destruct Hr2 as (_ & _ & _ & _ & Hs).
  destruct (shkv w2 !! (MULTIPART_PARTS_TREE, key)) as [v|] eqn:Ev; [|done].
  specialize (Hs key ltac:(by rewrite Ev)). specialize (Hgone ltac:(lia)). congruence.
Qed.

(** The parts under an upload's keys name that upload. *)
Definition parts_filed b k u m : Prop :=
  forall n p, part_at m (part_key b k u n) p -> mp_bucket p = b /\ mp_key p = k /\ mp_upload_id p = u.

Lemma sweep_orphans_spec fuel stats w F :
  winv cfg w F -> err_room (2 * fuel) stats -> (1 <= fuel)%nat ->
  wp (sweep_orphan_parts cfg fuel stats) w (fun r w' =>
    swept F w w' /\
    (forall t key, t <> DEFAULT_BLOCK_TREE ->
       (t = MULTIPART_PARTS_TREE -> forall p, part_at (shkv w) key p -> ~ orphan (shkv w) p) ->
       shkv w' !! (t, key) = shkv w !! (t, key)) /\
    match r with
    | Ok (RunEnded stats') =>
        errors stats' = errors stats -> forall key p, part_at (shkv w') key p -> ~ orphan (shkv w') p
    | Ok (RunGoing n) => untouched w w' /\ still_reading fuel (shkv w) n
    | Err _ => False
    end).
Proof.
  intros Hinv Hroom Hpos. unfold sweep_orphan_parts. apply wp_bind, wp_try, wp_on_shared.
  eapply wp_mono; [apply tree_open_spec|]. intros t s1 [Hk Ht]. cbn beta iota.
  set (w1 := mkWorld (w_ns w) s1 (w_disk w) (w_counters w)). assert (untouched w w1) as Hu1 by done.
  destruct t as [t|e]; cbn [map_err]; [subst t|].
  2: { apply wp_ret. split; [by apply untouched_swept|]. split; [intros; simpl; by rewrite Hk|]. intros E. exfalso.
       destruct (count_error_errors 0 stats) as [E' _]; [eapply err_room_le; [done|lia]|]. lia. }
  apply wp_bind. eapply wp_mono; [apply (find_orphans_spec fuel None stats 0 w1); apply (err_room_le (2 * fuel)); [done|lia]|].
  intros r w2 (Hu2 & run & -> & Hrun). cbn beta iota.
  pose proof (untouched_trans _ _ _ Hu1 Hu2) as Hu. pose proof (untouched_winv cfg _ _ _ Hu Hinv) as Hinv2.
  simpl in Hrun. rewrite Hk in Hrun. pose proof Hu as [_ Hu_s].
  destruct run as [[l st]|n]; cbn [orphans_found fst snd] in *.
  2: { apply wp_ret. split; [by apply untouched_swept|]. split; [intros t key _ _; by rewrite Hu_s|].
       split; [done|]. unfold still_reading. lia. }
  destruct Hrun as (Hs & Hl & He & Hall).
  apply wp_bind. eapply wp_mono; [apply (reap_orphans_spec l st w2 F); [done|]|].
  { destruct Hroom as [? ?]. split; lia. }
  intros r w3 (Hr & st' & -> & He' & Hgone). cbn beta iota. apply wp_ret.
  destruct Hr as (Hn3 & Hc3 & Hinv3 & Hf & Hsub).
  rewrite Hu_s in Hf, Hsub. split.
  { split; [|done]. rewrite Hn3. destruct Hu as [[-> _] _]. done. }
  split.
  - intros t key Ht Hno. apply Hf; [done|]. intros Et Hin.
    apply list_elem_of_fmap in Hin as ([key' p] & -> & Hin). destruct (Hs _ _ Hin) as [Hat Ho].
    by apply (Hno Et p).
  - intros E key p (raw & Hraw & Hp) Ho.
    assert (part_at (shkv w) key p) as Hat by (exists raw; rewrite <- Hsub by (by rewrite Hraw); done).
    assert (orphan (shkv w) p) as Ho0.
    { unfold orphan, no_upload in *. rewrite <- Hf; done. }
    assert ((key, p) ∈ l) as Hin by (apply Hall; [lia|done..]).
    assert (key ∈ map fst l) as Hkl by (apply list_elem_of_fmap; by exists (key, p)).
    rewrite Hgone in Hraw; [done|lia|done].
Qed.

Lemma upload_kept_filed b k u m m' : upload_kept b k u m m' -> parts_filed b k u m -> parts_filed b k u m'.
Proof. intros [_ Hp] Hf n p (raw & Hraw & Hd). rewrite Hp in Hraw. apply (Hf n). by exists raw. Qed.

(** What the sweep as a whole keeps of an upload that is not stale. *)
Lemma sweep_keeps fuel now ttl b k u w F :
  let cutoff := saturating_sub_i64 now (ttl_secs ttl) in
  winv cfg w F -> uploads_filed (shkv w) -> keyable b k u -> parts_filed b k u (shkv w) ->
  (size (keys_above (shkv w) UPLOADS_TREE None) < fuel)%nat -> Z.of_nat (3 * fuel) <= u64_max ->
  (exists r, upload_at (shkv w) (upload_key b k u) r /\ cutoff <= ur_created_at r) ->
  wp (sweep_stale_uploads cfg fuel now ttl) w (fun r w' =>
    match r with
    | Ok (RunEnded _) => True
    | Ok (RunGoing n) => still_reading fuel (shkv w) n
    | Err _ => False
    end /\ swept F w w' /\ upload_kept b k u (shkv w) (shkv w')).
Proof.
  intros cutoff Hinv Huf Hkb Hpf Hfuel Hbig (rec & Hrec & Hfresh). unfold sweep_stale_uploads. fold cutoff.
  assert (forall r, upload_at (shkv w) (upload_key b k u) r -> cutoff <= ur_created_at r) as Hall.
  { intros r (raw & Hraw & Hr). destruct Hrec as (raw' & Hraw' & Hr'). congruence. }
  apply wp_bind. eapply wp_mono; [apply (sweep_aged_spec fuel cutoff b k u no_stats w F); try done|].
  { split; simpl; lia. }
  intros r w1 (Ho & Hs1 & Hw1 & Hk1). cbn beta iota. destruct r as [[st|n]|e]; cbn [sweep_outcome] in Ho; [| |done].
  2: { apply wp_ret. split; [exact Ho|]. by split. }
  simpl in Ho. eapply wp_mono; [apply (sweep_orphans_spec fuel st w1 F); [apply Hs1|split; simpl; lia|]|].
  { eapply Nat.le_lt_trans; [apply Nat.le_0_l|exact Hfuel]. }
  intros r w2 (Hs2 & Hf & Hr). split; [|split; [by eapply swept_trans|]].
  { destruct r as [[st'|n]|e]; [done| |done]. destruct Hr as [_ Hr]. by eapply still_reading_within. }
  eapply upload_kept_trans; [exact Hk1|]. split; [by apply Hf|]. intros n. apply Hf; [done|].
  intros _ p Hp. unfold orphan, no_upload.
  destruct (upload_kept_filed _ _ _ _ _ Hk1 Hpf n p Hp) as (-> & -> & ->). destruct Hk1 as [-> _]. destruct Hrec as (raw & -> & _). done.
Qed.
End SweepSpecs.
