(* ===== verification/Sample.v ===== *)
(** A small store to evaluate the development on: the in-memory database, the
    file system model without faults, a batch cap of two blocks. *)

From S2P Require Import Prelude Bytes Externals BlockIds Codec Records StoreHeader MetaStore Disk Placement RealDisk Fjall MetaOps Accounting Engine BatchSpecs WriteSpecs ObjectSpecs.
Import Concrete MemFjall.
Local Open Scope Z_scope.

Definition s_root : path := [str "r"].
Definition s_cfg : StoreCfg :=
  mkStoreCfg Blake3W16 (mkWriter s_root (s_root ++ [TMP_DIR_NAME]) Fsync Absent) (new_placement s_root) 2.
Definition s_disk : DiskState Fs :=
  mkDiskState (mkFs ∅ {[ s_root; s_root ++ [TMP_DIR_NAME] ]} ∅ []) ∅ 0.
Abbreviation SampleWorld := (World (FjallStore MemDB) Fs).

(** A fresh store. *)
Definition s_world : SampleWorld := mkWorld empty_store empty_store s_disk ∅.
Definition s_bucket : bytes := str "bkt".
Definition s_key : bytes := str "key".
Definition s_id (c : bytes) : BlockId := hash_block Blake3W16 c.

Lemma s_empty : winv s_cfg s_world (fun _ => 0%nat).
Proof. by apply inv_empty. Qed.

Lemma s_rc i : rc_of (kv (w_shared s_world)) i = 0.
Proof. done. Qed.

(** The three chunks of a request, the first one repeated. *)
Definition s_items : list (result IoError (list bytes)) :=
  [Ok [str "hello"; str "world"]; Ok [str "hello"]].
Definition s_chunks : list bytes := [str "hello"; str "world"; str "hello"].

Lemma s_budget : budget s_cfg s_world s_chunks.
Proof.
  split; [vm_compute; split; discriminate|vm_compute; discriminate|].
  intros i Hi. rewrite s_rc. pose proof (occ_length i (map (hash_block (cfg_hasher s_cfg)) s_chunks)) as Ho.
  change (length (map (hash_block (cfg_hasher s_cfg)) s_chunks)) with 3%nat in Ho. unfold usize_max. lia.
Qed.

Lemma s_object_wf : Object_wf (put_object s_cfg 7 s_chunks).
Proof.
  repeat split; try concrete_side.
  exists 16%nat. repeat (apply Forall_cons; split; [split; [apply hash_block_wf|reflexivity]|]). constructor.
Qed.

(** The world with one object stored in it. *)
Definition s_full : SampleWorld :=
  (store_single_object_and_meta s_cfg 7 s_bucket s_key s_items 15 s_world).2.

Lemma s_full_inv : winv s_cfg s_full (fun _ => 0%nat).
Proof.
  pose proof (store_single_spec s_cfg eq_refl 7 s_bucket s_key s_items 15 s_world (fun _ => 0%nat)
    eq_refl ltac:(lia) s_budget s_empty s_object_wf) as [Hinv _]. exact Hinv.
Qed.

Definition s_small_rc (k : tree * bytes) (raw : bytes) : Prop :=
  match Block_try_from raw with Ok b => b_rc b <= 3 | Err _ => True end.
#[export] Instance s_small_rc_dec k raw : Decision (s_small_rc k raw).
Proof. unfold s_small_rc. destruct (Block_try_from raw); apply _. Defined.

Lemma small_rc_bound m i : map_Forall s_small_rc m -> rc_of m i <= 3.
Proof.
  intros Hall. unfold rc_of, block_at. destruct (m !! block_key i) as [raw|] eqn:E; simpl; [|lia].
  specialize (Hall _ _ E). unfold s_small_rc in Hall. destruct (Block_try_from raw); [done|lia].
Qed.

Lemma s_full_rc i : rc_of (kv (w_shared s_full)) i <= 3.
Proof. apply small_rc_bound. eapply bool_decide_unpack. vm_compute. exact I. Qed.

(** The outcome of a run that evaluation shows to be [Ok]. *)
Ltac run_ok H a w E :=
  cbv zeta in H;
  match type of H with
  | wp ?m ?s ?Q =>
      let K := fresh in assert (is_ok (m s).1 = true) as K by (vm_compute; reflexivity);
      let H' := fresh in pose proof (wp_ok m s Q H K) as H'; clear H K;
      destruct H' as (a & w & E & H)
  end.

Lemma run_val {A B} (f : A -> B) x y v : x = y -> f x = v -> f y = v.
Proof. by intros ->. Qed.
