(* ===== verification/RespSample.v ===== *)
(** A small respcas store to evaluate the development on: the store of
    Sample.v with a header, and three namespaces in it, two of them
    content-addressed. *)

From S2P Require Import Prelude Bytes Resp Externals BlockIds Codec Records StoreHeader MetaStore Commands Disk BlockStream Placement RealDisk Fjall MetaOps Accounting Engine BatchSpecs WriteSpecs Chunking Namespaces Handlers ObjectSpecs NsSpecs NsInvariant NsAdmin HandlerSpecs Sample.
From Stdlib Require Import Strings.Byte.
Import Concrete MemFjall AsciiText.
Local Open Scope Z_scope.
#[local] Set Warnings "-clear-no-such-hyp,-register-all".

(* ------------------------------------------------------------------ *)
(** * A serialization of namespace records *)

#[export] Instance KeyMode_countable : Countable KeyMode.
Proof.
  refine (inj_countable' (fun k => match k with UserKey => Some true | Cas => Some false | Sequential => None end)
    (fun o => match o with Some true => UserKey | Some false => Cas | None => Sequential end) _).
  by intros [].
Defined.
#[export] Instance NamespaceMeta_eq_dec : EqDecision NamespaceMeta.
Proof. solve_decision. Defined.
#[export] Instance NamespaceMeta_countable : Countable NamespaceMeta.
Proof.
  refine (inj_countable'
    (fun m => (nm_name m, nm_password m, nm_max_size m, nm_public m, nm_worm m, nm_locked m, nm_key_mode m))
    (fun '(name, password, max_size, public, worm, locked, mode) =>
       mkNamespaceMeta name password max_size public worm locked mode) _).
  by intros [].
Defined.

Fixpoint bits_of (p : positive) : bytes :=
  match p with xH => [] | xO p => x00 :: bits_of p | xI p => x01 :: bits_of p end.
Fixpoint of_bits (l : bytes) : positive :=
  match l with [] => xH | b :: l => if decide (b = x00) then xO (of_bits l) else xI (of_bits l) end.
Lemma of_bits_of p : of_bits (bits_of p) = p.
Proof. induction p as [p IH|p IH|]; simpl; [by rewrite IH|by rewrite IH|done]. Qed.

#[export] Instance sample_msgpack : Msgpack := {|
  to_msgpack m := Ok (bits_of (encode m));
  from_msgpack raw := match decode (of_bits raw) with Some m => Ok m | None => Err "not a namespace record"%string end
|}.
#[export] Instance sample_msgpack_laws : MsgpackLaws.
Proof. intros m raw [= <-]. simpl. by rewrite of_bits_of, decode_encode. Qed.

(* ------------------------------------------------------------------ *)
(** * The worlds *)

Abbreviation SampleResp := (RespWorld (FjallStore MemDB) Fs).

Definition r_cfg : RespCfg := mkRespCfg s_cfg [str "db"] [str "data"] 4096 false.
Definition r_env : Env := mkEnv 7 0 [] 16.
Definition r_show (e : NsErr) : string := "error".
Definition r_cas : bytes := str "cas".
Definition r_cas2 : bytes := str "cas2".
Definition r_plain : bytes := str "plain".

Definition r_header : StoreHeader := mkStoreHeader 3 Blake3W16 5 (str "0123456789abcdef").

(** The store as it is opened: a header, no namespaces. *)
Definition r_db : FjallStore MemDB :=
  mkFjallStore (mkMemDB {[ (STORE_HEADER_TREE, STORE_HEADER_KEY) := to_bytes r_header ]} {[ STORE_HEADER_TREE ]} [])
    ModeBuffer 1 ∅.
Definition r_open : SampleResp := mkRespWorld (mkWorld r_db empty_store s_disk ∅) ∅.

Definition r_made1 : SampleResp := (create_namespace r_cas r_open).2.
Definition r_made2 : SampleResp := (set_key_mode r_cfg r_cas Cas r_made1).2.
Definition r_made3 : SampleResp := (create_namespace r_cas2 r_made2).2.
Definition r_made4 : SampleResp := (set_key_mode r_cfg r_cas2 Cas r_made3).2.
Definition r_made5 : SampleResp := (create_namespace r_plain r_made4).2.

(** Two of them opened by handlers. *)
Definition r_world : SampleResp := (M_bind (fun _ => get_or_create r_plain) (get_or_create r_cas) r_made5).2.

Definition no_refs (i : BlockId) : nat := 0.

Lemma r_open_kv : nskv r_open = {[ (STORE_HEADER_TREE, STORE_HEADER_KEY) := to_bytes r_header ]}.
Proof. reflexivity. Qed.

Lemma r_open_stored : Stored r_cfg r_open no_refs.
Proof.
  split.
  - apply (inv_ns_reserved _ _ ∅); [done|]. by apply inv_empty.
  - intros name raw Hr. rewrite r_open_kv in Hr. by apply lookup_singleton_Some in Hr as [[=] _].
  - intros name key o (me & Hme & _). unfold meta_of in Hme. rewrite r_open_kv in Hme.
    by rewrite lookup_singleton_ne in Hme.
Qed.

Lemma r_made5_stored : Stored r_cfg r_made5 no_refs.
Proof.
  pose proof (create_spec r_cfg r_cas r_open no_refs r_open_stored) as [H1 _].
  pose proof (set_key_mode_spec r_cfg r_cas Cas _ no_refs H1) as [H2 _].
  pose proof (create_spec r_cfg r_cas2 _ no_refs H2) as [H3 _].
  pose proof (set_key_mode_spec r_cfg r_cas2 Cas _ no_refs H3) as [H4 _].
  by pose proof (create_spec r_cfg r_plain _ no_refs H4) as [H5 _].
Qed.

Definition r_props (name : bytes) (mode : KeyMode) : NamespaceProperties := mkProps name false false true mode None.
Definition r_node (name : bytes) (mode : KeyMode) : Namespace := mkNamespace name (r_props name mode).

Lemma r_cache : rw_cache r_world = <[ r_plain := r_node r_plain UserKey ]> {[ r_cas := r_node r_cas Cas ]}.
Proof. vm_compute. reflexivity. Qed.
Lemma r_same : nskv r_world = nskv r_made5 /\ kv (w_shared (rw_world r_world)) = kv (w_shared (rw_world r_made5)) /\
  w_disk (rw_world r_world) = w_disk (rw_world r_made5).
Proof.
  split; [|split].
  - apply (bool_decide_unpack _). vm_compute. exact I.
  - apply (bool_decide_unpack _). vm_compute. exact I.
  - vm_compute. reflexivity.
Qed.

Lemma r_plain_mode : meta_of (nskv r_world) r_plain = Some (NamespaceMeta_new r_plain).
Proof. vm_compute. reflexivity. Qed.

Lemma r_inv : RInv r_cfg r_world no_refs.
Proof.
  apply RInv_stored. split; [exact (same_stored r_cfg r_made5 r_world no_refs r_same r_made5_stored)|].
  rewrite r_cache. intros name n Hl. apply lookup_insert_Some in Hl as [[<- <-]|[_ Hl]].
  - split; [reflexivity|]. split; [reflexivity|]. intros (me & Hme & Hk). exfalso.
    rewrite r_plain_mode in Hme. injection Hme as <-. discriminate Hk.
  - apply lookup_singleton_Some in Hl as [<- <-]. split; [reflexivity|]. split; [reflexivity|]. intros _. reflexivity.
Qed.

(** Nothing is stored yet. *)
Lemma r_empty : map_Forall (fun k _ => reserved k.1 = true) (nskv r_world).
Proof. apply (bool_decide_unpack _). vm_compute. exact I. Qed.

Lemma r_nothing b key o : reserved b = false -> ~ found (nskv r_world) b key (Some o).
Proof. intros Hb (raw & Hr & _). pose proof (r_empty _ _ Hr) as He. simpl in He. congruence. Qed.

Lemma r_roomy key value : (length value <= 100)%nat -> roomy r_env r_world key value.
Proof.
  intros Hl. destruct (value_chunks_spec value) as (_ & _ & Hn).
  assert (wnonce (rw_world r_world) = 0) as Hz by (vm_compute; reflexivity).
  split.
  - vm_compute. split; discriminate.
  - lia.
  - rewrite Hz. unfold u64_max. lia.
  - intros i _. unfold rc_of, block_at. assert (kv (w_shared (rw_world r_world)) = ∅) as -> by (vm_compute; reflexivity).
    rewrite lookup_empty. simpl. lia.
  - vm_compute. discriminate.
  - intros b o Hcas Ho. destruct (r_nothing b key o); [|done]. eapply cas_unreserved; [apply r_inv|exact Hcas].
Qed.

(** A handler of the content-addressed namespace. *)
Definition r_handler : CommandHandler := mkHandler r_cas false true.
Definition r_node_cas : Namespace := r_node r_cas Cas.
Lemma r_bound : rw_cache r_world !! r_cas = Some r_node_cas.
Proof. rewrite r_cache. vm_compute. reflexivity. Qed.
