(* ===== verification/RespProps.v ===== *)
(** The guarantees of a respcas server over the store: content addressing,
    access control, write protection, quotas and paging, each stated for the
    handlers and sessions of Handlers.v. *)

From S2P Require Import Prelude Bytes Resp Externals BlockIds Codec Records StoreHeader MetaStore Commands Disk BlockStream Placement MetaOps Accounting Engine BatchSpecs WriteSpecs Chunking Namespaces Handlers ObjectSpecs NsSpecs NsInvariant NsAdmin HandlerSpecs RealDisk Fjall Sample RespSample.
From Stdlib Require Import Strings.Byte.
Local Open Scope Z_scope.
#[local] Set Warnings "-clear-no-such-hyp,-register-all".

Definition is_error (f : Frame) : bool := match f with FError _ => true | _ => false end.

(** Commands that change which tree or key mode a cached namespace has. *)
Definition rebinds (cmd : Command) : bool :=
  match cmd with
  | CmdFlush => true
  | CmdNSSet _ property _ => eq_ignore_ascii_case property (str "key_mode")
  | _ => false
  end.

Section Props.
Context {S T D : Type} `{StoreLaws S T, DiskLaws D, Blake3Laws, Md5Laws, FasterHexLaws, MsgpackLaws, Unicode}.
Context (rcfg : RespCfg) (env : Env) (show : NsErr -> string).
Abbreviation cfg := (rc_engine rcfg).
Abbreviation RW := (RespWorld S D).
Abbreviation NM := (M RW NsErr).
Implicit Types (rw : RW) (m : kvmap) (n : Namespace) (F : BlockId -> nat).

(** A handler's answer. *)
Definition handled (h : RW -> Frame * RW) rw (Q : Frame -> RW -> Prop) : Prop := Q (h rw).1 (h rw).2.

Lemma handled_answer {A} (m : NM A) ok err rw Q :
  wp m rw (fun r rw' => Q (match r with Ok a => ok a | Err e => err e end) rw') -> handled (answer m ok err) rw Q.
Proof. unfold handled, answer, wp. destruct (m rw) as [[a|e] rw']; done. Qed.

Lemma handled_safe {A} (m : NM A) ok err rw F :
  safe rcfg m rw F -> handled (answer m ok err) rw (fun _ rw' => RInv rcfg rw' F).
Proof. unfold safe. intros Hm. apply handled_answer. eapply wp_mono; [exact Hm|]. by intros r rw' [Hi _]. Qed.

Lemma handled_reads {A} (m : NM A) ok err rw F P :
  reads m rw P -> RInv rcfg rw F -> handled (answer m ok err) rw (fun _ rw' => RInv rcfg rw' F).
Proof. intros Hm Hi. apply handled_safe. by eapply safe_reads. Qed.

Section Handler.
Context (self : CommandHandler) (n : Namespace).
Abbreviation ns := (ch_namespace self).

Definition set_ingest (key : bytes) : Ingest := match key with [] => ServerHashed | _ => ClientHashed key end.

(** What a write needs of the store to be carried out. *)
Definition room_for rw (cmd : Command) : Prop :=
  match cmd with
  | CmdSet key value => roomy env rw (ingest_key (set_ingest key) value) value
  | CmdCSet value => roomy env rw (value_key value) value
  | _ => True
  end.

Lemma mget_quiet keys : forall rw,
  rw_cache rw !! ns = Some n -> quiet rw (mget_values rcfg env self keys rw).2.
Proof.
  induction keys as [|key keys IH]; intros rw Hn; [done|]. cbn [mget_values].
  unfold answer. destruct (ns_get rcfg env ns key rw) as [r rw1] eqn:E.
  destruct (reads_run _ _ _ _ _ (reads_ns_get rcfg env ns key rw n Hn) E) as [Hq _].
  assert (rw_cache rw1 !! ns = Some n) as Hn1 by (by rewrite (quiet_cache _ _ Hq)). specialize (IH rw1 Hn1).
  destruct r; destruct (mget_values _ _ _ _ rw1) as [values rw2]; simpl in *; by etrans.
Qed.

Lemma set_property_keeps property value meta meta' :
  set_property property value meta = Ok meta' ->
  nm_name meta' = nm_name meta /\ nm_key_mode meta' = nm_key_mode meta.
Proof.
  destruct meta as [name password max_size public worm locked mode]. unfold set_property.
  repeat case_decide; try done;
    try (destruct (parse_bool_property value); [|done]); try (destruct (parse_max_size value); [|done]);
    intros E; injection E as <-; done.
Qed.

Lemma sync_property_keeps property meta p :
  pr_namespace_name (sync_property property meta p) = pr_namespace_name p /\
  pr_key_mode (sync_property property meta p) = pr_key_mode p.
Proof. destruct p. unfold sync_property. by repeat case_decide. Qed.

(** Properties are changed in place: the invariant asks for the key mode only. *)
Lemma update_cache m (c : gmap bytes Namespace) name (f : NamespaceProperties -> NamespaceProperties) :
  (forall other k, other <> name -> c !! other = Some k -> pr_namespace_name (ns_props k) = other /\ ns_tree k = other /\
     (cas_ns m other -> pr_key_mode (ns_props k) = Cas)) ->
  (forall k, c !! name = Some k -> pr_namespace_name (f (ns_props k)) = name /\ ns_tree k = name /\
     (cas_ns m name -> pr_key_mode (f (ns_props k)) = Cas)) ->
  cache_ok m (alter (fun k => mkNamespace (ns_tree k) (f (ns_props k))) name c).
Proof.
  intros Hother Hname other k Hk. destruct (decide (other = name)) as [->|Hne].
  - rewrite lookup_alter_eq in Hk. destruct (c !! name) as [k0|] eqn:E; [|done]. injection Hk as <-. by apply Hname.
  - rewrite lookup_alter_ne in Hk by done. by apply Hother.
Qed.

Lemma nsset_mode_ok name value rw F :
  RInv rcfg rw F ->
  handled (handle_nsset_key_mode rcfg show name value) rw (fun f rw' =>
    Stored rcfg rw' F /\ (is_error f = false -> RInv rcfg rw' F)).
Proof.
  intros Hinv. apply RInv_stored in Hinv as Hx. destruct Hx as [Hst Hca]. unfold handle_nsset_key_mode.
  destruct (parse_key_mode value) as [mode|e]; [|by split]. apply handled_answer. apply wp_bind.
  eapply wp_mono; [by apply (set_key_mode_spec rcfg name mode rw F)|].
  intros [u|e] rw1 (Hst1 & Hc1 & Ho1 & Hr1); cbn beta iota; [|by split].
  apply wp_set_cache. split; [destruct rw1; by eapply stored_cache|]. intros _. apply RInv_stored.
  split; [destruct rw1; by eapply stored_cache|]. cbn [rw_cache rw_world nskv]. rewrite Hc1.
  apply (update_cache _ _ _ (fun p =>
    mkProps (pr_namespace_name p) (pr_worm p) (pr_locked p) (pr_public p) mode (pr_max_size p))).
  - intros other k Hne Hk. destruct (Hca other k Hk) as (? & ? & Hm). split; [done|]. split; [done|]. intros Hx. by apply Hm, Ho1.
  - intros k Hk. destruct (Hca name k Hk) as (? & ? & Hm). split; [done|]. by split.
Qed.

Lemma nsset_ok name property value rw F :
  RInv rcfg rw F ->
  handled (handle_nsset rcfg show self name property value) rw (fun f rw' =>
    Stored rcfg rw' F /\ (rebinds (CmdNSSet name property value) = false \/ is_error f = false -> RInv rcfg rw' F)).
Proof.
  intros Hinv. apply RInv_stored in Hinv as Hx. destruct Hx as [Hst Hca]. unfold handle_nsset, handled, rebinds.
  destruct (ch_is_admin self); [|by split]. cbn [negb].
  destruct (eq_ignore_ascii_case property (str "key_mode")).
  { pose proof (nsset_mode_ok name value rw F Hinv) as [Hs Hi]. split; [done|]. intros [|He]; [done|by apply Hi]. }
  destruct (get_namespace_meta name rw) as [[meta|e] rw1] eqn:E;
    destruct (reads_run _ _ _ _ _ (reads_namespace_meta name rw) E) as [Hq Hm].
  2: { split; [by eapply quiet_stored|]. intros _. by eapply quiet_RInv. }
  destruct (set_property property value meta) as [meta'|e] eqn:Es.
  2: { split; [by eapply quiet_stored|]. intros _. by eapply quiet_RInv. }
  destruct (set_property_keeps _ _ _ _ Es) as [Hnm Hmode].
  destruct (meta_of_row _ _ _ (st_rows _ _ _ Hst) Hm) as [Hres Hname].
  apply (handled_answer _ _ _ rw1 (fun f rw' => Stored rcfg rw' F /\ (false = false \/ is_error f = false -> RInv rcfg rw' F))).
  pose proof (quiet_stored rcfg _ _ F Hq Hst) as Hst1.
  apply wp_bind. eapply wp_mono.
  { apply (update_meta_spec rcfg name meta' rw1 F Hst1 Hres); [by rewrite Hnm|].
    intros Hcas key o Ho. apply (st_content _ _ _ Hst1 name); [|done].
    exists meta. rewrite (quiet_nskv _ _ Hq). split; [done|congruence]. }
  assert (forall rw2, (forall other, other <> name -> cas_ns (nskv rw2) other -> cas_ns (nskv rw1) other) ->
    (nskv rw2 = nskv rw1 \/ meta_of (nskv rw2) name = Some meta') -> no_new_cas (nskv rw) (nskv rw2)) as Hnn.
  { intros rw2 Ho Hr other Hc. destruct (decide (other = name)) as [->|Hne].
    - destruct Hr as [Hr|Hr]; [by rewrite Hr, (quiet_nskv _ _ Hq) in Hc|]. destruct Hc as (me & Hme & Hk).
      pose proof (meta_of_fun _ _ _ _ Hr Hme) as <-. exists meta. split; [done|congruence].
    - rewrite <- (quiet_nskv _ _ Hq). by apply Ho. }
  intros [u|e] rw2 (Hst2 & (_ & _ & Hc2) & Ho2 & Hr2); cbn beta iota.
  - apply wp_set_cache. assert (RInv rcfg (mkRespWorld (rw_world rw2) (alter (fun k => mkNamespace (ns_tree k)
      (sync_property property meta' (ns_props k))) name (rw_cache rw2))) F) as Hi.
    { apply RInv_stored. split; [destruct rw2; by eapply stored_cache|]. cbn [rw_cache rw_world nskv]. rewrite Hc2, (quiet_cache _ _ Hq).
      pose proof (no_new_cas_cache _ _ _ (Hnn rw2 Ho2 (or_intror Hr2)) Hca) as Hca2.
      apply (update_cache _ _ _ (sync_property property meta')); [intros other k _ Hk; by apply Hca2|]. intros k Hk. destruct (Hca2 name k Hk) as (? & ? & Hmd).
      destruct (sync_property_keeps property meta' (ns_props k)) as [-> ->]. by split. }
    split; [by apply RInv_stored in Hi as [? _]|done].
  - split; [done|]. intros _. apply RInv_stored. split; [done|]. rewrite Hc2, (quiet_cache _ _ Hq).
    eapply no_new_cas_cache; [|done]. by apply Hnn.
Qed.

Lemma flush_ok rw F :
  rw_cache rw !! ns = Some n -> RInv rcfg rw F ->
  handled (handle_flush show self) rw (fun f rw' => Stored rcfg rw' F /\ (is_error f = false -> RInv rcfg rw' F)).
Proof.
  intros Hn Hinv. assert (Stored rcfg rw F) as Hst by (by apply RInv_stored in Hinv as [? _]).
  unfold handled, handle_flush, cached_props. rewrite Hn. destruct (pr_public (ns_props n)); [by split|].
  destruct (get_namespace_meta _ rw) as [meta rw1] eqn:E.
  destruct (reads_run _ _ _ _ _ (reads_namespace_meta (pr_namespace_name (ns_props n)) rw) E) as [Hq _].
  assert (RInv rcfg rw1 F) as Hinv1 by (by eapply quiet_RInv).
  destruct (negb _); [by split; [apply RInv_stored in Hinv1 as [? _]|]|].
  destruct (negb _); [by split; [apply RInv_stored in Hinv1 as [? _]|]|].
  apply (handled_answer _ _ _ rw1 (fun f rw' => Stored rcfg rw' F /\ (is_error f = false -> RInv rcfg rw' F))).
  unfold ns_flush. apply wp_bind.
  eapply reads_use; [eapply reads_name; by rewrite (quiet_cache _ _ Hq)|..].
  2: { intros e rw2 Hq2. split; [|done]. apply (RInv_stored rcfg). by eapply quiet_RInv. }
  intros b rw2 Hq2 ->. assert (RInv rcfg rw2 F) as Hinv2 by (by eapply quiet_RInv).
  case_decide; [apply wp_err; split; [by apply RInv_stored in Hinv2 as [? _]|done]|].
  eapply wp_mono; [by apply (flush_spec rcfg _ rw2 F)|]. intros [u|e] rw3 [Hs3 Hi3]; by split.
Qed.

(** Whatever a command that is not FLUSH or a key-mode NSSET answers, the
    invariant is kept. *)
Lemma execute_ok cmd rw F :
  aw_tmp (cfg_writer cfg) = blocks_root cfg ++ [TMP_DIR_NAME] ->
  RInv rcfg rw F -> rw_cache rw !! ns = Some n -> reserved ns = false -> room_for rw cmd ->
  handled (execute rcfg env show self cmd) rw (fun f rw' =>
    Stored rcfg rw' F /\ (rebinds cmd = false \/ is_error f = false -> RInv rcfg rw' F)).
Proof.
  intros Hcfg Hinv Hn Hres Hroom.
  assert (forall (h : RW -> Frame * RW), handled h rw (fun _ rw' => RInv rcfg rw' F) ->
    handled h rw (fun f rw' => Stored rcfg rw' F /\ (rebinds cmd = false \/ is_error f = false -> RInv rcfg rw' F))) as Hall.
  { unfold handled. intros h Hi. split; [by apply RInv_stored in Hi as [? _]|done]. }
  assert (forall f, handled (reply f) rw (fun _ rw' => RInv rcfg rw' F)) as Hreply by done.
  assert (forall (b : bool) f h, handled h rw (fun _ rw' => RInv rcfg rw' F) ->
    handled (fun rw => if b then (f, rw) else h rw) rw (fun _ rw' => RInv rcfg rw' F)) as Hguard.
  { intros [|] f h Hh; [exact Hinv|exact Hh]. }
  assert (may_read self rw = pr_public (ns_props n) || ch_namespace_authenticated self) as Hread.
  { unfold may_read, cached_props. by rewrite Hn. }
  assert (forall mode value, roomy env rw (ingest_key mode value) value ->
    handled (handle_ingest rcfg env show self mode value) rw (fun _ rw' => RInv rcfg rw' F)) as Hing.
  { intros mode value Hr. apply handled_safe. by apply (safe_ingest rcfg env ns n Hres Hcfg). }
  destruct cmd; cbn [execute].
  all: try (by apply Hall, Hreply).
  - apply Hall. apply (Hguard (negb (may_read self rw)) read_denied).
    eapply handled_reads; [by eapply reads_ns_get|done].
  - apply Hall. unfold handled, handle_mget. destruct (negb _); [exact Hinv|].
    pose proof (mget_quiet keys rw Hn) as Hq. destruct (mget_values _ _ _ _ rw) as [values rw']. by eapply quiet_RInv.
  - apply Hall. unfold handled, handle_set, cached_props. rewrite Hn. destruct (negb _); [exact Hinv|].
    case_decide as Hm; [by apply Hing|]. apply handled_safe. destruct Hroom. by apply (safe_set rcfg env ns n Hres).
  - apply Hall. unfold handled, handle_cset, cached_props. rewrite Hn. destruct (negb _); [exact Hinv|].
    case_decide as Hm; [by apply (Hing ServerHashed)|exact Hinv].
  - apply Hall. unfold handled, handle_del. destruct (negb _); [exact Hinv|]. apply handled_safe.
    by apply (safe_del_keys rcfg ns n Hres).
  - apply Hall. apply (Hguard (negb (may_read self rw)) read_denied). eapply handled_reads; [by eapply reads_exists|done].
  - apply Hall. eapply handled_reads; [by eapply reads_check|done].
  - apply Hall. eapply handled_reads; [by eapply reads_length|done].
  - apply Hall. eapply handled_reads; [by eapply reads_keytime|done].
  - apply Hall. unfold handled, handle_nsnew. destruct (negb _); [exact Hinv|]. apply handled_safe, safe_keeps; [done|].
    intros Hst. unfold keeps. eapply wp_mono; [by apply (create_spec rcfg _ rw F)|].
    intros r rw' (? & (_ & _ & ?) & ? & _). by split.
  - apply Hall. apply handled_safe. apply safe_bind.
    { eapply safe_reads; [apply reads_namespace_meta|done]. }
    intros meta rw1 _ Hi. apply safe_bind; [|intros; by apply safe_ret].
    apply safe_keeps; [done|]. by apply keeps_usage.
  - apply Hall. eapply handled_reads; [by apply reads_list|done].
  - apply Hall. eapply handled_reads; [by eapply reads_num_keys|done].
  - apply Hall. eapply handled_reads; [by eapply reads_scan|done].
  - apply Hall. eapply handled_reads; [by eapply reads_scan_backward|done].
  - by apply nsset_ok.
  - destruct (flush_ok rw F Hn Hinv) as [Hs Hi]. split; [exact Hs|]. intros [|He]; [done|by apply Hi].
Qed.

(** No block is marked degraded, or reads check what they serve. *)
Definition trustworthy rw : Prop :=
  rc_verify_on_read rcfg = true \/
  forall i b, block_at (kv (w_shared (rw_world rw))) i = Some b -> is_degraded b = false.

Lemma streamed_value rw F bucket key o value v :
  winv cfg (rw_world rw) F -> reserved bucket = false -> trustworthy rw -> found (nskv rw) bucket key (Some o) ->
  holds rcfg o value -> is_inlined o = false -> o_size o <= i64_max -> streamed rcfg env rw bucket key o v ->
  v = value \/ collision (cfg_hasher cfg).
Proof.
  intros Hw Hres Htrust Ho [Hsize Hdata] Hin Hmax (o' & paths & out & Ho' & Hloc & Hc & ->).
  pose proof (found_fun _ _ _ _ _ Ho Ho') as E. injection E as <-. rewrite Hin in Hloc.
  unfold is_inlined in Hin. destruct (o_data o) as [d|blocks|blocks parts] eqn:Ed; [done| |done].
  destruct Hdata as (chunks & -> & <-). assert (o_blocks o = map (hash_block (cfg_hasher cfg)) chunks) as Hb.
  { unfold o_blocks. by rewrite Ed. }
  assert (length paths = length chunks) as Hlen.
  { apply Forall2_length in Hloc. by rewrite Hb, length_map in Hloc. }
  unfold opened in Hc. rewrite Hsize in Hc, Hmax. rewrite Hb in Hc.
  destruct (rc_verify_on_read rcfg) eqn:Ev; [by eapply verified_stream_value|].
  destruct Htrust as [Ht|Hhealthy]; [congruence|].
  eapply plain_stream_value; [|done|exact Hc]. rewrite <- Hb. apply Forall2_same_length_lookup.
  rewrite Hb in Hloc |- *. rewrite length_map. split; [done|].
  intros k i p Hi Hp. rewrite Forall2_lookup in Hloc. pose proof (Hloc k) as Hk. rewrite Hi, Hp in Hk.
  inversion Hk as [? ? Hlp|]; subst.
  destruct (object_readable cfg bucket key o (rw_world rw) F i p Hres Hw Ho) as (b & Hba & _ & Hpath & Hfile).
  { rewrite Hb. by eapply list_elem_of_lookup_2. }
  rewrite (Hpath Hlp). by apply Hfile, (Hhealthy i).
Qed.

(** C13: Content addressing survives every command.  Start from a store in
    order (block accounting, a well formed namespace list, every record of a
    content-addressed namespace filed under the hash of its value, every open
    namespace aware of its key mode).  Whatever command a handler executes,
    whatever calls fail below it, and whatever it answers, the store is in
    order afterwards; and so are the open namespaces, unless the command was a
    FLUSH or a key-mode NSSET that answered an error. *)
Theorem commands_keep_content_addressing cmd rw F :
  aw_tmp (cfg_writer cfg) = blocks_root cfg ++ [TMP_DIR_NAME] ->
  RInv rcfg rw F -> rw_cache rw !! ns = Some n -> reserved ns = false -> room_for rw cmd ->
  let '(f, rw') := execute rcfg env show self cmd rw in
  Stored rcfg rw' F /\ (rebinds cmd = false \/ is_error f = false -> RInv rcfg rw' F).
Proof.
  intros Hcfg Hinv Hn Hres Hroom. pose proof (execute_ok cmd rw F Hcfg Hinv Hn Hres Hroom) as Hx.
  unfold handled in Hx. by destruct (execute _ _ _ _ _ _).
Qed.

(** What GET answers in a content-addressed namespace hashes to the key.
    For a record stored whole in its database entry that is so outright; for a
    value read back from block files, however the reads are cut, it is so
    unless two different blocks have the same address.  The files read are
    those of blocks not marked degraded, or the stream verifies them. *)
Theorem get_serves_addressed_values key rw F v rw' :
  RInv rcfg rw F -> rw_cache rw !! ns = Some n -> cas_ns (nskv rw) ns -> trustworthy rw ->
  (forall o, found (nskv rw) ns key (Some o) -> o_size o <= i64_max) ->
  execute rcfg env show self (CmdGet key) rw = (BulkString v, rw') ->
  blake3_hash v = key \/ collision (cfg_hasher cfg).
Proof.
  intros Hinv Hn Hcas Htrust Hmax E. destruct (cached_name rcfg ns n rw F Hinv Hn) as (Hname & Htree & _).
  simpl in E. unfold handle_get in E. destruct (negb _); [done|]. unfold answer in E.
  destruct (ns_get rcfg env ns key rw) as [r rw1] eqn:Eg.
  destruct (reads_run _ _ _ _ _ (reads_ns_get rcfg env ns key rw n Hn) Eg) as [_ Hr].
  destruct r as [[v'|]|e]; [|done|done]. injection E as -> <-. destruct Hr as (o & Ho & Hv).
  rewrite Hname, Htree in *. destruct (ri_content _ _ _ Hinv ns key o Hcas Ho) as (value & Hholds & <-).
  pose proof (streamed_value rw F ns (blake3_hash value) o value v (ri_winv _ _ _ Hinv)
    (cas_unreserved _ _ (ri_rows _ _ _ Hinv) Hcas) Htrust Ho Hholds) as Hs.
  destruct (o_data o) as [d|blocks|blocks parts] eqn:Ed.
  - left. subst v. destruct Hholds as [_ Hd]. rewrite Ed in Hd. by subst d.
  - destruct Hs as [->|Hc]; [by unfold is_inlined; rewrite Ed|by apply Hmax|done|by left|by right].
  - destruct Hholds as [_ Hd]. by rewrite Ed in Hd.
Qed.
End Handler.
End Props.

Import Concrete MemFjall AsciiText.

Definition r_set : Command := CmdSet [] (str "hello").

Lemma commands_keep_content_addressing_witness :
  let '(f, rw') := execute r_cfg r_env r_show r_handler r_set r_world in
  RInv r_cfg rw' no_refs /\ f = BulkString (blake3_hash (str "hello")) /\
  is_Some (nskv rw' !! (r_cas, blake3_hash (str "hello"))).
Proof.
  pose proof (commands_keep_content_addressing r_cfg r_env r_show r_handler r_node_cas r_set r_world no_refs
    eq_refl r_inv r_bound eq_refl (r_roomy _ (str "hello") ltac:(apply Nat.leb_le; reflexivity))) as Hx.
  destruct (execute r_cfg r_env r_show r_handler r_set r_world) as [f rw'] eqn:E.
  destruct Hx as [_ Hx]. split; [apply Hx; by left|]. split.
  - apply (run_val fst _ _ _ E). vm_compute. reflexivity.
  - apply (bool_decide_eq_true_1 _).
    refine (run_val (fun p => bool_decide (is_Some (nskv p.2 !! (r_cas, blake3_hash (str "hello"))))) _ _ true E _).
    vm_compute. reflexivity.
Defined.

(** The store with that value in it. *)
Definition r_stored : SampleResp := (execute r_cfg r_env r_show r_handler r_set r_world).2.
Definition r_key : bytes := blake3_hash (str "hello").

Lemma r_stored_inv : RInv r_cfg r_stored no_refs.
Proof.
  pose proof (execute_ok r_cfg r_env r_show r_handler r_node_cas r_set r_world no_refs eq_refl r_inv r_bound eq_refl
    (r_roomy _ (str "hello") ltac:(apply Nat.leb_le; reflexivity))) as [_ Hx]. apply Hx. by left.
Qed.
Lemma r_stored_record : nskv r_stored !! (r_cas, r_key) = Some (Object_to_vec (inline_object 7 (str "hello"))).
Proof. vm_compute. reflexivity. Qed.
Lemma r_stored_bound : rw_cache r_stored !! r_cas = Some r_node_cas.
Proof. vm_compute. reflexivity. Qed.
Lemma r_stored_meta : meta_of (nskv r_stored) r_cas = Some (set_mode Cas (NamespaceMeta_new r_cas)).
Proof. vm_compute. reflexivity. Qed.
Lemma r_stored_shared : kv (w_shared (rw_world r_stored)) = ∅.
Proof. vm_compute. reflexivity. Qed.

Lemma get_serves_addressed_values_witness :
  (execute r_cfg r_env r_show r_handler (CmdGet r_key) r_stored).1 = BulkString (str "hello") /\
  (blake3_hash (str "hello") = r_key \/ collision (cfg_hasher (rc_engine r_cfg))).
Proof.
  destruct (execute r_cfg r_env r_show r_handler (CmdGet r_key) r_stored) as [f rw'] eqn:E.
  assert (f = BulkString (str "hello")) as -> by (apply (run_val fst _ _ _ E); vm_compute; reflexivity).
  split; [reflexivity|].
  apply (get_serves_addressed_values r_cfg r_env r_show r_handler r_node_cas r_key r_stored no_refs (str "hello") rw'
    r_stored_inv r_stored_bound).
  - exists (set_mode Cas (NamespaceMeta_new r_cas)). split; [exact r_stored_meta|reflexivity].
  - right. rewrite r_stored_shared. intros i b Hb. unfold block_at in Hb. by rewrite lookup_empty in Hb.
  - intros o (raw & Hr & Ho). change (ch_namespace r_handler) with r_cas in Hr. rewrite r_stored_record in Hr.
    injection Hr as <-. rewrite Object_roundtrip in Ho by (apply inline_wf; [vm_compute; split; discriminate|vm_compute; reflexivity]).
    injection Ho as <-. vm_compute. discriminate.
  - exact E.
Defined.
