(* ===== verification/AccessProps.v ===== *)
(** What a respcas namespace is protected from: writes without
    authentication, the loss of records under WORM, growth past its quota; and
    how a connection comes to be authenticated. *)

From S2P Require Import Prelude Bytes Resp Externals BlockIds Codec Records StoreHeader MetaStore Commands Disk BlockStream Placement MetaOps Accounting Engine BatchSpecs WriteSpecs Chunking Namespaces Handlers ObjectSpecs NsSpecs NsInvariant NsAdmin HandlerSpecs RealDisk Fjall Sample RespSample RespProps.
From Stdlib Require Import Strings.Byte.
Local Open Scope Z_scope.
#[local] Set Warnings "-clear-no-such-hyp,-register-all".

(** The commands that only administrators, or the writers of a namespace, may
    give. *)
Definition writing (cmd : Command) : bool :=
  match cmd with CmdSet _ _ | CmdCSet _ | CmdDel _ | CmdFlush => true | _ => false end.
Definition administrative (cmd : Command) : bool :=
  match cmd with CmdNSNew _ | CmdNSSet _ _ _ => true | _ => false end.
(** The commands that read the records of the handler's namespace, and those
    among them that ask [may_read] first. *)
Definition reads_records (cmd : Command) : bool :=
  match cmd with
  | CmdGet _ | CmdMGet _ | CmdExists _ | CmdCheck _ | CmdLength _ | CmdKeyTime _ | CmdDBSize | CmdScan _ | CmdRScan _ => true
  | _ => false
  end.
Definition guarded_read (cmd : Command) : bool :=
  match cmd with CmdGet _ | CmdMGet _ | CmdExists _ => true | _ => false end.

(** The counter after a write, as it is read back. *)
Lemma usage_read_written m bucket current delta :
  usage_read m bucket = Ok current ->
  forall m', usage_read (<[(DEFAULT_USAGE_TREE, bucket) := u64_to_le (usage_after current delta)]> m') bucket =
    Ok (usage_after current delta).
Proof.
  intros Hu m'. unfold usage_read. rewrite lookup_insert_eq. apply decode_usage_to_le.
  assert (is_u64 current) as Hc.
  { unfold usage_read in Hu. destruct (m !! _); [by eapply decode_usage_range|injection Hu as <-; by split]. }
  unfold usage_after, saturating_add_u64, is_u64, u64_max in *.
  destruct (Z.leb_spec 0 delta); [lia|]. destruct (Z.ltb_spec current (Z.abs delta)); lia.
Qed.

Lemma move_exact size old : 0 <= size <= i64_max -> 0 <= old <= i64_max -> as_i64 (as_i64 size - as_i64 old) = size - old.
Proof.
  intros Hs Ho.
  rewrite (as_i64_small size), (as_i64_small old) by (int_bounds; lia).
  apply as_i64_id. int_bounds. lia.
Qed.

(** What a quota check admitted, the counter stays below. *)
Lemma quota_arith current adding replacing limit :
  0 <= adding -> 0 <= replacing -> limit < u64_max ->
  saturating_add_u64 (Z.max 0 (current - replacing)) adding <= limit ->
  usage_after current (adding - replacing) <= limit.
Proof.
  unfold usage_after, saturating_add_u64, u64_max. intros Ha Hr Hl Hle.
  destruct (Z.leb_spec 0 (adding - replacing)); [lia|]. destruct (Z.ltb_spec current (Z.abs (adding - replacing))); lia.
Qed.

Section Access.
Context {S T D : Type} `{StoreLaws S T, DiskLaws D, Blake3Laws, Md5Laws, FasterHexLaws, MsgpackLaws, Unicode}.
Context (rcfg : RespCfg) (env : Env) (show : NsErr -> string).
Abbreviation cfg := (rc_engine rcfg).
Abbreviation RW := (RespWorld S D).
Abbreviation NM := (M RW NsErr).
Implicit Types (rw : RW) (m : kvmap) (n : Namespace) (F : BlockId -> nat).

(** Nothing but usage counters differs. *)
Definition counters_only rw rw' : Prop :=
  ns_only rw rw' /\ forall t key, t <> DEFAULT_USAGE_TREE -> nskv rw' !! (t, key) = nskv rw !! (t, key).

Lemma quiet_counters rw rw' : quiet rw rw' -> counters_only rw rw'.
Proof. intros Hq. split; [by apply quiet_ns_only|]. intros t key _. by rewrite (quiet_nskv _ _ Hq). Qed.
#[export] Instance counters_trans : Transitive counters_only.
Proof. intros a b c [Hab Ha] [Hbc Hb]. split; [by etrans|]. intros t key Ht. by rewrite Hb, Ha. Qed.

Definition counts {A} (m : NM A) rw : Prop := wp m rw (fun _ rw' => counters_only rw rw').

Lemma counts_reads {A} (m : NM A) rw P : reads m rw P -> counts m rw.
Proof. unfold reads, counts. intros Hm. eapply wp_mono; [exact Hm|]. intros r rw' [Hq _]. by apply quiet_counters. Qed.

Lemma counts_bind {A B} (m : NM A) (k : A -> NM B) rw :
  counts m rw -> (forall a rw', counts (k a) rw') -> counts (m ≫= k) rw.
Proof.
  unfold counts. intros Hm Hk. apply wp_bind. eapply wp_mono; [exact Hm|]. intros [a|e] rw' Hc; cbn beta iota; [|done].
  eapply wp_mono; [apply Hk|]. intros r rw2 Hc2. by etrans.
Qed.

Lemma counts_ret {A} (a : A) rw : counts (mret a) rw.
Proof. by apply (counts_reads _ _ (fun _ => True)), reads_ret. Qed.

Lemma counts_set_usage name v rw : counts (on_meta (set_bucket_usage name v)) rw.
Proof.
  eapply (wp_ns_meta _ _ (fun _ k => forall t key, t <> DEFAULT_USAGE_TREE -> k !! (t, key) = nskv rw !! (t, key))).
  - unfold set_bucket_usage. apply wp_bind. eapply wp_mono; [apply tree_open_spec|]. fold (nskv rw).
    intros [t|e] s1 [Hk Ht]; cbn beta iota; [subst t|by rewrite Hk]. eapply wp_mono; [apply tree_insert_spec|].
    assert (forall t key, t <> DEFAULT_USAGE_TREE ->
      <[(DEFAULT_USAGE_TREE, name) := u64_to_le v]> (kv s1) !! (t, key) = nskv rw !! (t, key)) as Hi.
    { intros t key Ht. rewrite lookup_insert_ne by (intros E; injection E as E; congruence). by rewrite Hk. }
    intros [u|e] s2 Hs2; [by rewrite Hs2|]. destruct Hs2 as [-> | ->]; [done|by rewrite Hk].
  - intros r rw1 Hf Hk. by split.
Qed.

(** What NSINFO leaves: a counter that was missing. *)
Lemma counts_usage name rw : counts (namespace_usage env name) rw.
Proof.
  apply counts_bind; [eapply counts_reads, reads_require|]. intros u rw1.
  apply counts_bind; [eapply counts_reads, reads_usage|]. intros usage rw2.
  destruct usage as [k|]; [apply counts_ret|].
  apply counts_bind; [eapply counts_reads, reads_sum|]. intros total rw3.
  apply counts_bind; [apply counts_set_usage|]. intros u' rw4. apply counts_ret.
Qed.

Section Handler.
Context (self : CommandHandler) (n : Namespace).
Abbreviation ns := (ch_namespace self).

Lemma handled_counts {A} (m : NM A) ok err rw :
  counts m rw -> handled (answer m ok err) rw (fun _ rw' => counters_only rw rw').
Proof. unfold counts. intros Hm. by apply handled_answer. Qed.

(** The commands that change no record: every one but those of [writing] and
    [administrative]. *)
Lemma other_commands cmd rw :
  rw_cache rw !! ns = Some n -> writing cmd = false -> administrative cmd = false ->
  handled (execute rcfg env show self cmd) rw (fun _ rw' => counters_only rw rw').
Proof.
  intros Hn Hw Ha.
  assert (counters_only rw rw) as Hrefl by (by apply quiet_counters).
  assert (forall (b : bool) f h, handled h rw (fun _ rw' => counters_only rw rw') ->
    handled (fun rw => if b then (f, rw) else h rw) rw (fun _ rw' => counters_only rw rw')) as Hguard.
  { intros [|] f h Hh; [exact Hrefl|exact Hh]. }
  destruct cmd; try discriminate; cbn [execute].
  all: try exact Hrefl.
  - apply (Hguard (negb (may_read self rw)) read_denied). by eapply handled_counts, counts_reads, reads_ns_get.
  - unfold handled, handle_mget. destruct (negb _); [exact Hrefl|].
    pose proof (mget_quiet rcfg env self n keys rw Hn) as Hq. destruct (mget_values _ _ _ _ rw) as [values rw'].
    by apply quiet_counters.
  - apply (Hguard (negb (may_read self rw)) read_denied). by eapply handled_counts, counts_reads, reads_exists.
  - by eapply handled_counts, counts_reads, reads_check.
  - by eapply handled_counts, counts_reads, reads_length.
  - by eapply handled_counts, counts_reads, reads_keytime.
  - apply handled_counts, counts_bind; [eapply counts_reads, reads_namespace_meta|]. intros meta rw1.
    apply counts_bind; [apply counts_usage|]. intros. apply counts_ret.
  - eapply handled_counts, counts_reads, reads_list.
  - by eapply handled_counts, counts_reads, reads_num_keys.
  - by eapply handled_counts, counts_reads, reads_scan.
  - by eapply handled_counts, counts_reads, reads_scan_backward.
Qed.

(** C23: Without authentication and without administrator rights a command
    changes nothing.  Whatever it is, the blocks, the files, the open
    namespaces and the namespace database are afterwards what they were, a
    usage counter that NSINFO fills in apart, and a write is answered with an
    error.  Of the reads, GET, MGET and EXISTS are refused in a namespace that
    is not public; the others (CHECK, LENGTH, KEYTIME, DBSIZE, SCAN and RSCAN)
    are not, and answer in every namespace what they answer an authenticated
    connection (against the comments, see
    [private_namespace_shows_its_keys]). *)
Theorem unauthenticated_changes_nothing cmd rw :
  rw_cache rw !! ns = Some n -> ch_is_admin self = false -> ch_namespace_authenticated self = false ->
  let '(f, rw') := execute rcfg env show self cmd rw in
  counters_only rw rw' /\
  (writing cmd = true \/ administrative cmd = true -> is_error f = true) /\
  (reads_records cmd = true ->
     if guarded_read cmd then pr_public (ns_props n) = false -> f = read_denied
     else execute rcfg env show (with_authenticated true self) cmd rw = (f, rw')).
Proof.
  intros Hn Hadm Hauth.
  assert (counters_only rw rw) as Hrefl by (by apply quiet_counters).
  destruct (writing cmd) eqn:Ew; [|destruct (administrative cmd) eqn:Ea].
  - destruct cmd; try discriminate; simpl; unfold handle_set, handle_cset, handle_del; try (rewrite Hauth; by repeat split).
    unfold handle_flush, cached_props. rewrite Hn. destruct (pr_public (ns_props n)); [by repeat split|].
    destruct (get_namespace_meta _ rw) as [meta rw1] eqn:E.
    destruct (reads_run _ _ _ _ _ (reads_namespace_meta (pr_namespace_name (ns_props n)) rw) E) as [Hq _].
    rewrite Hauth. destruct (negb _); (split; [by apply quiet_counters|done]).
  - destruct cmd; try discriminate; simpl; unfold handle_nsnew, handle_nsset; rewrite Hadm; by repeat split.
  - pose proof (other_commands cmd rw Hn Ew Ea) as Hx. unfold handled in Hx.
    assert (pr_public (ns_props n) = false -> guarded_read cmd = true -> (execute rcfg env show self cmd rw).1 = read_denied) as Hg.
    { intros Hp Hg. assert (may_read self rw = false) as Hm.
      { unfold may_read, cached_props. by rewrite Hn, Hp, Hauth. }
      destruct cmd; try discriminate; simpl; unfold handle_get, handle_mget, handle_exists; by rewrite Hm. }
    assert (reads_records cmd = true -> guarded_read cmd = false ->
      execute rcfg env show (with_authenticated true self) cmd rw = execute rcfg env show self cmd rw) as Ho
      by (by destruct cmd).
    destruct (execute rcfg env show self cmd rw) as [f rw']. split; [exact Hx|]. split; [by intros [?|?]|].
    intros Hr. destruct (guarded_read cmd); [auto|by apply Ho].
Qed.

(* ------------------------------------------------------------------ *)
(** * What a write may do to the records *)

(** The sizes of the records are those of files. *)
Definition file_sized m : Prop := forall b key o, reserved b = false -> found m b key (Some o) -> 0 <= o_size o <= i64_max.

(** A record written under a free key, or over the one a namespace without
    WORM had there, within the quota. *)
Definition admitted m m' : Prop :=
  exists key o d, (file_sized m -> 0 <= o_size o <= i64_max) /\ (pr_worm (ns_props n) = true -> d = None) /\
    within_quota m (ns_props n) (o_size o) (old_size d) /\
    replaced ns key (Object_to_vec o) (o_size o) d m m'.

Section Bound.
Context (F : BlockId -> nat) (Hres : reserved ns = false).
Context (Hcfg : aw_tmp (cfg_writer cfg) = blocks_root cfg ++ [TMP_DIR_NAME]).

Lemma ingest_admitted mode value rw m' :
  Z.of_nat (length value) < 2 ^ 56 -> rw_cache rw !! ns = Some n -> RInv rcfg rw F -> ingest_effect rcfg env n mode value (nskv rw) m' -> admitted (nskv rw) m'.
Proof.
  intros Hlen Hn Hinv [Hfree Heff]. destruct (cached_name rcfg ns n rw F Hinv Hn) as (Hname & Htree & _).
  rewrite Htree in Hfree. assert (forall d, found (nskv rw) ns (ingest_key mode value) d -> d = None) as Hnone.
  { intros [o|] Hd; [|done]. destruct Hd as (raw & Hr & _). congruence. }
  destruct Heff as [(source & o & Hsrc & _ & Ho & Hq & _ & d & Hrep)|(_ & _ & Hq & o & [Hsz _] & _ & d & Hrep)];
    rewrite Hname in Hrep; pose proof (Hnone d (proj1 Hrep)) as ->;
    eexists _, _, None; (split; [|split; [done|split; [|exact Hrep]]]).
  - intros Hs. exact (Hs source _ o (cas_unreserved _ _ (ri_rows _ _ _ Hinv) Hsrc) Ho).
  - exact Hq.
  - intros _. rewrite Hsz. unfold i64_max. lia.
  - by rewrite Hsz.
Qed.

Lemma set_admitted cmd rw :
  RInv rcfg rw F -> rw_cache rw !! ns = Some n -> room_for env rw cmd ->
  match cmd with CmdSet _ _ | CmdCSet _ => True | _ => False end ->
  handled (execute rcfg env show self cmd) rw (fun _ rw' => nskv rw' = nskv rw \/ admitted (nskv rw) (nskv rw')).
Proof.
  intros Hinv Hn Hroom Hcmd. destruct (cached_name rcfg ns n rw F Hinv Hn) as (Hname & Htree & _).
  assert (forall mode value, roomy env rw (ingest_key mode value) value ->
    handled (handle_ingest rcfg env show self mode value) rw (fun _ rw' => nskv rw' = nskv rw \/ admitted (nskv rw) (nskv rw'))) as Hing.
  { intros mode value Hr. apply (handled_answer _ _ _ rw (fun _ rw' => nskv rw' = nskv rw \/ admitted (nskv rw) (nskv rw'))).
    eapply wp_mono.
    - apply (ingest_spec rcfg env Hcfg ns mode value rw n F Hn); [by rewrite Hname|apply Hinv|exact Hr|apply Hinv].
    - intros [key|e] rw' (_ & _ & Hp); [destruct Hp as (_ & _ & [[Hp _]|Hp])|destruct Hp as [Hp|Hp]]; auto;
        right; (eapply ingest_admitted; [exact (ry_len _ _ _ _ Hr)|exact Hn|exact Hinv|exact Hp]). }
  destruct cmd; try done; simpl.
  - unfold handled, handle_set, cached_props. rewrite Hn. destruct (negb _); [by left|].
    case_decide; [by apply Hing|].
    apply (handled_answer _ _ _ rw (fun _ rw' => nskv rw' = nskv rw \/ admitted (nskv rw) (nskv rw'))). destruct Hroom as [Hnow Hlen _ _ _ _].
    pose proof (ns_set_spec rcfg env ns key value rw n F Hn ltac:(by rewrite Hname) (inline_wf _ _ Hnow Hlen) (ri_winv _ _ _ Hinv)) as Hs.
    unfold writes in Hs. eapply wp_mono; [exact Hs|].
    assert (forall m', set_effect env n key value (nskv rw) m' -> admitted (nskv rw) m') as Ha.
    { intros m' (_ & Hworm & Hq & _ & d & Hrep). rewrite Hname in Hrep. rewrite Htree in *.
      exists key, (inline_object (en_now env) value), d. split; [|split; [|split; [|exact Hrep]]].
      - intros _. simpl. unfold i64_max. lia.
      - intros Hw. specialize (Hworm Hw). destruct d as [o|]; [|done]. destruct Hrep as [(raw & Hr & _) _]. congruence.
      - destruct Hq as [Hq|(o & Ho & Hq)]; [unfold within_quota; by rewrite Hq|].
        by rewrite (found_fun _ _ _ _ _ (proj1 Hrep) Ho). }
    intros r rw' (_ & _ & Hr). destruct r; [right; by apply Ha|]. destruct Hr; [by left|right; by apply Ha].
  - unfold handled, handle_cset, cached_props. rewrite Hn. destruct (negb _); [by left|].
    case_decide; [by apply (Hing ServerHashed)|by left].
Qed.

(** C24: A WORM namespace loses nothing.  While it is one, no command but FLUSH
    and NSSET removes or changes a record of it, whatever fails: what was
    stored under a key is still stored there, byte for byte. *)
Theorem worm_keeps_records cmd rw key raw :
  RInv rcfg rw F -> rw_cache rw !! ns = Some n -> room_for env rw cmd -> pr_worm (ns_props n) = true ->
  match cmd with CmdFlush | CmdNSSet _ _ _ => False | _ => True end ->
  nskv rw !! (ns, key) = Some raw ->
  let '(_, rw') := execute rcfg env show self cmd rw in nskv rw' !! (ns, key) = Some raw.
Proof.
  intros Hinv Hn Hroom Hworm Hcmd Hraw.
  assert (forall h : RW -> Frame * RW, handled h rw (fun _ rw' => nskv rw' !! (ns, key) = nskv rw !! (ns, key)) ->
    let '(_, rw') := h rw in nskv rw' !! (ns, key) = Some raw) as Hsame.
  { unfold handled. intros h Hh. destruct (h rw) as [f rw']. simpl in Hh. by rewrite Hh. }
  assert (match cmd with CmdSet _ _ | CmdCSet _ => True | _ => False end ->
    let '(_, rw') := execute rcfg env show self cmd rw in nskv rw' !! (ns, key) = Some raw) as Hset.
  { intros Hc. pose proof (set_admitted cmd rw Hinv Hn Hroom Hc) as Hx. unfold handled in Hx.
    destruct (execute _ _ _ _ _ _) as [f rw']. cbn [fst snd] in Hx.
    destruct Hx as [->|(k & o & d & _ & Hd & _ & Hrep)]; [done|].
    rewrite (Hd Hworm) in Hrep. destruct Hrep as (Hfree & current & _ & Hm). simpl in Hm. rewrite Hm.
    rewrite lookup_insert_ne by (by apply key_ne). rewrite lookup_insert_ne; [done|]. intros E. injection E as <-.
    simpl in Hfree. congruence. }
  destruct (writing cmd) eqn:Ew; [|destruct (administrative cmd) eqn:Ea].
  - destruct cmd; try done; try (by apply Hset). apply Hsame. unfold handled. simpl. unfold handle_del.
    destruct (negb _); [done|].
    apply (handled_answer _ _ _ rw (fun _ rw' => nskv rw' !! (ns, key) = nskv rw !! (ns, key))). destruct keys as [|k keys]; [done|]. cbn [del_keys].
    assert (reads (ns_del rcfg ns k) rw (fun _ => False)) as Hr.
    { eapply reads_bind; [by eapply reads_props|]. intros p rw1 _ ->. rewrite Hworm. destruct (pr_locked _); apply reads_err. }
    apply wp_bind. eapply reads_use; [exact Hr|done|]. intros e rw1 Hq. by rewrite (quiet_nskv _ _ Hq).
  - destruct cmd; try done. apply Hsame. unfold handled. simpl. unfold handle_nsnew. destruct (negb _); [done|].
    apply (handled_answer _ _ _ rw (fun _ rw' => nskv rw' !! (ns, key) = nskv rw !! (ns, key))). eapply wp_mono.
    + apply (create_spec rcfg _ rw F). by apply RInv_stored in Hinv as [? _].
    + intros r rw' (_ & _ & _ & Hr & _). by apply Hr.
  - apply Hsame. pose proof (other_commands cmd rw Hn Ew Ea) as Hx. unfold handled in *. destruct Hx as [_ Hx].
    apply Hx. intros E. by rewrite E in Hres.
Qed.

(** C25: A quota bounds the usage.  A SET or CSET in a namespace of limited
    size either leaves the database alone or leaves the namespace's usage
    counter at or below the limit, whether the value is stored, replaces
    another, or is cloned from another namespace, and whatever the reply. *)
Theorem quota_bounds_usage cmd rw limit :
  RInv rcfg rw F -> rw_cache rw !! ns = Some n -> room_for env rw cmd ->
  match cmd with CmdSet _ _ | CmdCSet _ => True | _ => False end ->
  pr_max_size (ns_props n) = Some limit -> limit < u64_max ->
  file_sized (nskv rw) ->
  let '(_, rw') := execute rcfg env show self cmd rw in
  nskv rw' = nskv rw \/ exists usage, usage_read (nskv rw') ns = Ok usage /\ usage <= limit.
Proof.
  intros Hinv Hn Hroom Hcmd Hlimit Hmax Hsizes. pose proof (set_admitted cmd rw Hinv Hn Hroom Hcmd) as Hx.
  unfold handled in Hx. destruct (execute _ _ _ _ _ _) as [f rw']. cbn [fst snd] in Hx.
  destruct Hx as [Hx|(key & o & d & Ho & _ & Hq & Hf & current & Hcur & Hm)]; [by left|right]. simpl in Hm.
  destruct (cached_name rcfg ns n rw F Hinv Hn) as (Hname & _ & _). specialize (Ho Hsizes).
  unfold within_quota in Hq. rewrite Hlimit, Hname in Hq. destruct Hq as (u & Hu & Hle).
  rewrite Hcur in Hu. injection Hu as <-.
  assert (0 <= old_size d <= i64_max) as Hd.
  { destruct d as [d|]; [by apply (Hsizes ns key d Hres)|]. simpl. unfold i64_max. lia. }
  eexists. split; [rewrite Hm; exact (usage_read_written _ _ _ _ Hcur _)|]. rewrite move_exact by done. apply quota_arith; [apply Ho|apply Hd|done|done].
Qed.
End Bound.
End Handler.
End Access.

(* ------------------------------------------------------------------ *)
(** * On the sample store *)

Import Concrete MemFjall AsciiText.

(** The sample with other properties of its content-addressed namespace. *)
Definition r_with (f : NamespaceProperties -> NamespaceProperties) (rw : SampleResp) : SampleResp :=
  mkRespWorld (rw_world rw) (alter (fun k => mkNamespace (ns_tree k) (f (ns_props k))) r_cas (rw_cache rw)).

Lemma r_with_inv f rw F :
  (forall p, pr_namespace_name (f p) = pr_namespace_name p /\ pr_key_mode (f p) = pr_key_mode p) ->
  RInv r_cfg rw F -> RInv r_cfg (r_with f rw) F.
Proof.
  intros Hf [Hw Hr Hc Hca]. split; [done|done|done|]. apply (update_cache _ _ _ f).
  - intros other k _ Hk. by apply Hca.
  - intros k Hk. destruct (Hca _ k Hk) as (? & ? & ?). destruct (Hf (ns_props k)) as [-> ->]. by split.
Qed.

Definition close_props (p : NamespaceProperties) : NamespaceProperties :=
  mkProps (pr_namespace_name p) (pr_worm p) (pr_locked p) false (pr_key_mode p) (pr_max_size p).
Definition worm_props (p : NamespaceProperties) : NamespaceProperties :=
  mkProps (pr_namespace_name p) true (pr_locked p) (pr_public p) (pr_key_mode p) (pr_max_size p).
Definition cap_props (limit : Z) (p : NamespaceProperties) : NamespaceProperties :=
  mkProps (pr_namespace_name p) (pr_worm p) (pr_locked p) (pr_public p) (pr_key_mode p) (Some limit).

Lemma r_with_bound f rw :
  rw_cache rw !! r_cas = Some r_node_cas -> rw_cache (r_with f rw) !! r_cas = Some (mkNamespace r_cas (f (ns_props r_node_cas))).
Proof. intros Hn. unfold r_with. cbn [rw_cache]. by rewrite lookup_alter_eq, Hn. Qed.

Lemma r_with_roomy f rw key value : roomy r_env rw key value -> roomy r_env (r_with f rw) key value.
Proof. by intros [? ? ? ? ? ?]; split. Qed.

Definition r_stranger : CommandHandler := mkHandler r_cas false false.

Lemma unauthenticated_changes_nothing_witness :
  let rw := r_with close_props r_stored in
  let '(f, rw') := execute r_cfg r_env r_show r_stranger (CmdGet r_key) rw in counters_only rw rw' /\ f = read_denied.
Proof.
  pose proof (unauthenticated_changes_nothing r_cfg r_env r_show r_stranger
    (mkNamespace r_cas (close_props (ns_props r_node_cas))) (CmdGet r_key) (r_with close_props r_stored)
    (r_with_bound close_props r_stored r_stored_bound) eq_refl eq_refl) as Hx.
  cbv zeta. destruct (execute r_cfg r_env r_show r_stranger (CmdGet r_key) (r_with close_props r_stored)) as [f rw'].
  destruct Hx as (Hc & _ & Hg). split; [exact Hc|exact (Hg eq_refl eq_refl)].
Defined.

Lemma worm_keeps_records_witness :
  let rw := r_with worm_props r_stored in
  let '(f, rw') := execute r_cfg r_env r_show r_handler (CmdDel [r_key]) rw in
  nskv rw' !! (r_cas, r_key) = Some (Object_to_vec (inline_object 7 (str "hello"))).
Proof.
  pose proof (worm_keeps_records r_cfg r_env r_show r_handler (mkNamespace r_cas (worm_props (ns_props r_node_cas)))
    no_refs eq_refl eq_refl (CmdDel [r_key]) (r_with worm_props r_stored) r_key (Object_to_vec (inline_object 7 (str "hello")))
    (r_with_inv worm_props r_stored no_refs (fun p => conj eq_refl eq_refl) r_stored_inv)
    (r_with_bound worm_props r_stored r_stored_bound) I eq_refl I) as Hx.
  cbv zeta. destruct (execute r_cfg r_env r_show r_handler (CmdDel [r_key]) (r_with worm_props r_stored)) as [f rw'].
  exact (Hx r_stored_record).
Defined.

Lemma quota_bounds_usage_witness :
  let rw := r_with (cap_props 100) r_world in
  let '(f, rw') := execute r_cfg r_env r_show r_handler r_set rw in
  (nskv rw' = nskv rw \/ exists usage, usage_read (nskv rw') r_cas = Ok usage /\ usage <= 100) /\
  usage_read (nskv rw') r_cas = Ok 5.
Proof.
  pose proof (quota_bounds_usage r_cfg r_env r_show r_handler (mkNamespace r_cas (cap_props 100 (ns_props r_node_cas)))
    no_refs eq_refl eq_refl r_set (r_with (cap_props 100) r_world) 100
    (r_with_inv (cap_props 100) r_world no_refs (fun p => conj eq_refl eq_refl) r_inv)
    (r_with_bound (cap_props 100) r_world r_bound)
    (r_with_roomy _ _ _ _ (r_roomy _ (str "hello") ltac:(apply Nat.leb_le; reflexivity))) I eq_refl eq_refl) as Hx.
  assert (file_sized (nskv (r_with (cap_props 100) r_world))) as Hs.
  { intros b key o Hb Ho. by destruct (r_nothing b key o Hb). }
  specialize (Hx Hs). cbv zeta.
  destruct (execute r_cfg r_env r_show r_handler r_set (r_with (cap_props 100) r_world)) as [f rw'] eqn:E.
  split; [exact Hx|].
  refine (run_val (fun p => usage_read (nskv p.2) r_cas) _ _ (Ok 5) E _). vm_compute. reflexivity.
Defined.
