(* ===== verification/SessionProps.v ===== *)
(** Paging through a namespace with SCAN, and the authentication of a
    connection by SELECT and AUTH (respcas/src/cmd/ns.rs, server.rs). *)

From S2P Require Import Prelude Bytes Resp Externals BlockIds Codec Records StoreHeader MetaStore Commands Disk BlockStream Placement MetaOps Accounting Engine BatchSpecs WriteSpecs Chunking Namespaces Handlers ObjectSpecs NsSpecs NsInvariant NsAdmin HandlerSpecs RealDisk Fjall Sample RespSample RespProps AccessProps.
From Stdlib Require Import Strings.Byte.
Local Open Scope Z_scope.
#[local] Set Warnings "-clear-no-such-hyp,-register-all".

Section Sessions.
Context {S T D : Type} `{StoreLaws S T, DiskLaws D, Blake3Laws, Md5Laws, FasterHexLaws, MsgpackLaws, Unicode}.
Context (rcfg : RespCfg) (env : Env) (show : NsErr -> string).
Abbreviation RW := (RespWorld S D).
Abbreviation NM := (M RW NsErr).
Implicit Types (rw : RW) (m : kvmap) (n : Namespace) (s : Session).

(* ------------------------------------------------------------------ *)
(** * SCAN *)

(** The keys of a tree above the cursor, in order, each once. *)
Definition keys_past m (t : tree) (c : option bytes) (l : list bytes) : Prop :=
  exists l', l = map fst l' /\ walk_of m t c l'.

Lemma keys_past_step m t c k l : next_key m t c k -> keys_past m t (Some k) l -> keys_past m t c (k :: l).
Proof.
  intros Hk (l' & -> & Hw). pose proof Hk as ([v Hv] & _). exists ((k, v) :: l'). split; [done|]. by apply walk_step.
Qed.

(** A page is a run of the walk: all of it if it is short, else up to its last
    key. *)
Lemma page_keys m t k c l :
  page_of (next_is m t) k c l ->
  ((length l < k)%nat -> keys_past m t c l) /\
  forall z rest, last l = Some z -> length l = k -> keys_past m t (Some z) rest -> keys_past m t c (l ++ rest).
Proof.
  induction 1 as [c|k c Hend|k c key l Hnext _ [IH1 IH2]].
  - split; [simpl; lia|done].
  - split; [|done]. intros _. exists []. split; [done|]. by apply walk_end.
  - split.
    + intros Hl. apply keys_past_step; [done|]. apply IH1. simpl in Hl. lia.
    + intros z rest Hz Hl Hr. simpl. apply keys_past_step; [done|]. destruct l as [|key' l].
      * simpl in Hz. injection Hz as <-. exact Hr.
      * apply (IH2 z); [done| |done]. simpl in *. lia.
Qed.

Section Handler.
Context (self : CommandHandler) (n : Namespace).
Abbreviation ns := (ch_namespace self).

(** A client that pages through the namespace: it stops at the cursor 0. *)
Inductive scan_run : RW -> option bytes -> list bytes -> Prop :=
| run_last rw c keys rw' :
    execute rcfg env show self (CmdScan c) rw = (Array [BulkString (str "0"); Array (map BulkString keys)], rw') ->
    scan_run rw c keys
| run_more rw c cursor keys rw' rest :
    execute rcfg env show self (CmdScan c) rw = (Array [BulkString cursor; Array (map BulkString keys)], rw') ->
    cursor <> str "0" -> scan_run rw' (Some cursor) rest -> scan_run rw c (keys ++ rest).

Lemma map_bulk_inj l l' : map BulkString l = map BulkString l' -> l = l'.
Proof.
  revert l'. induction l as [|a l IH]; intros [|b l'] E; try done. simpl in E. injection E as <- E. f_equal. by apply IH.
Qed.

Lemma scan_page c rw cursor keys rw' :
  rw_cache rw !! ns = Some n ->
  execute rcfg env show self (CmdScan c) rw = (Array [BulkString cursor; Array (map BulkString keys)], rw') ->
  quiet rw rw' /\ page_of (next_is (nskv rw) (ns_tree n)) SCAN_PAGE c keys /\
  cursor = (if (length keys <? SCAN_PAGE)%nat then str "0" else match last keys with Some k => k | None => [] end).
Proof.
  intros Hn E. simpl in E. unfold handle_scan, answer in E. destruct (ns_scan ns c SCAN_PAGE rw) as [r rw1] eqn:Es.
  destruct (reads_run _ _ _ _ _ (reads_scan ns c SCAN_PAGE rw n Hn) Es) as [Hq Hp].
  destruct r as [l|e]; [|done]. unfold scan_reply in E. injection E as Hc Hm <-. apply map_bulk_inj in Hm. by subst l cursor.
Qed.

(** C28: SCAN meets every key.  A client that starts without a cursor and
    follows the cursors it is given until the cursor 0 has been shown every
    key of the namespace exactly once, in key order, provided no key is the
    text 0 itself. *)
Theorem scan_enumerates rw l :
  rw_cache rw !! ns = Some n -> nskv rw !! (ns_tree n, str "0") = None -> scan_run rw None l ->
  StronglySorted key_lt l /\ forall k, k ∈ l <-> is_Some (nskv rw !! (ns_tree n, k)).
Proof.
  intros Hn Hzero Hrun.
  assert (forall c, scan_run rw c l -> keys_past (nskv rw) (ns_tree n) c l) as Hall.
  { clear Hrun. intros c Hrun. revert Hn Hzero. induction Hrun as [rw c keys rw' E|rw c cursor keys rw' rest E Hne _ IH]; intros Hn Hzero.
    - destruct (scan_page _ _ _ _ _ Hn E) as (_ & Hp & Hc). destruct (page_keys _ _ _ _ _ Hp) as [Hshort Hfull].
      destruct (Nat.ltb_spec (length keys) SCAN_PAGE) as [Hl|Hl]; [by apply Hshort|]. exfalso.
      destruct (last keys) as [z|] eqn:Ez; [|done]. subst z.
      assert (str "0" ∈ keys) as Hin by (apply last_Some in Ez as [k ->]; apply elem_of_app; right; by left).
      assert (forall k, page_of (next_is (nskv rw) (ns_tree n)) k c keys -> forall x, x ∈ keys -> is_Some (nskv rw !! (ns_tree n, x))) as Hkeys.
      { clear. intros k. induction 1 as [c|k c _|k c key rest Hk _ IH]; intros x Hx; try by apply elem_of_nil in Hx.
        apply elem_of_cons in Hx as [->|Hx]; [by destruct Hk|by apply IH]. }
      destruct (Hkeys _ Hp _ Hin) as [v Hv]. by rewrite Hzero in Hv.
    - destruct (scan_page _ _ _ _ _ Hn E) as (Hq & Hp & Hc). destruct (page_keys _ _ _ _ _ Hp) as [_ Hfull].
      assert (length keys <= SCAN_PAGE)%nat as Hle.
      { clear -Hp. revert Hp. generalize SCAN_PAGE. intros k. induction 1; simpl; lia. }
      destruct (Nat.ltb_spec (length keys) SCAN_PAGE) as [Hl|Hl]; [done|].
      assert (exists z, last keys = Some z) as [z Hz].
      { destruct keys as [|a keys]; [simpl in Hl; unfold SCAN_PAGE in Hl; lia|]. rewrite last_cons. destruct (last keys); by eexists. }
      rewrite Hz in Hc. subst z. apply (Hfull cursor); [done|lia|]. rewrite <- (quiet_nskv _ _ Hq).
      apply IH; [by rewrite (quiet_cache _ _ Hq)|by rewrite (quiet_nskv _ _ Hq)]. }
  destruct (Hall None Hrun) as (l' & -> & Hsort & Hmem). split.
  - clear -Hsort. induction Hsort as [|[a v] l Hs IH Hf]; simpl; constructor; [done|].
    apply Forall_map. eapply Forall_impl; [exact Hf|]. by intros [b w].
  - intros k. split.
    + intros ([k' v] & -> & Hin)%list_elem_of_fmap. apply Hmem in Hin as [Hv _]. by eexists.
    + intros [v Hv]. apply list_elem_of_fmap. exists (k, v). split; [done|]. by apply Hmem.
Qed.
End Handler.

(* ------------------------------------------------------------------ *)
(** * SELECT and AUTH *)

(** Opening a namespace reads the list and fills the cache. *)
Definition opens rw rw' : Prop :=
  nskv rw' = nskv rw /\ kv (w_shared (rw_world rw')) = kv (w_shared (rw_world rw)) /\
  w_disk (rw_world rw') = w_disk (rw_world rw).

#[local] Instance opens_trans : Transitive opens.
Proof. intros a b c (?&?&?) (?&?&?). split_and!; congruence. Qed.
Lemma quiet_opens rw rw' : quiet rw rw' -> opens rw rw'.
Proof. by intros (?&?&?&_). Qed.

Lemma insert_new_opens name t rw : opens rw (insert_new name t rw).2.
Proof.
  unfold insert_new. destruct (get_namespace_meta name rw) as [r rw1] eqn:E.
  destruct (reads_run _ _ _ _ _ (reads_namespace_meta name rw) E) as [Hq _].
  apply quiet_opens in Hq. destruct r; (etrans; [exact Hq|done]).
Qed.

Lemma get_or_create_opens name rw : opens rw (get_or_create name rw).2.
Proof.
  enough (wp (get_or_create name) rw (fun _ rw' => opens rw rw')) as Hx by exact Hx.
  unfold get_or_create. apply wp_bind, wp_from_cache. destruct (rw_cache rw !! name); [by apply wp_ret|].
  apply wp_bind. eapply reads_use; [apply reads_namespace| |intros; by apply quiet_opens].
  intros t rw1 Hq _. unfold wp. etrans; [by apply quiet_opens|apply insert_new_opens].
Qed.

Lemma new_handler_spec ns is_admin rw h rw' :
  new_handler ns is_admin rw = (h, rw') -> quiet rw rw' /\ ch_namespace h = ns /\ ch_is_admin h = is_admin.
Proof.
  unfold new_handler. destruct (get_namespace_meta _ rw) as [r rw1] eqn:E.
  destruct (reads_run _ _ _ _ _ (reads_namespace_meta _ rw) E) as [Hq _]. by intros [= <- <-].
Qed.

Lemma password_accepted ns provided rw rw' :
  namespace_password_accepted ns provided rw = (true, rw') ->
  exists meta, meta_of (nskv rw) ns = Some meta /\ (nm_password meta = None \/ provided = nm_password meta).
Proof.
  unfold namespace_password_accepted. destruct (get_namespace_meta ns rw) as [[meta|e] rw1] eqn:E; [|done].
  destruct (reads_run _ _ _ _ _ (reads_namespace_meta ns rw) E) as [_ Hm]. intros Hx. exists meta. split; [done|].
  destruct (nm_password meta) as [p|]; [|by left]. right. injection Hx as Hx _. by apply bool_decide_eq_true in Hx.
Qed.

(** A session's handler is no more of an administrator than its connection. *)
Definition session_ok s : Prop := ch_is_admin (ss_handler s) = true -> ss_conn_admin s = true.

(** The handler works in the namespace its connection has selected. *)
Definition bound s : Prop := ch_namespace (ss_handler s) = ss_conn_namespace s.

(** The namespace's record asks for no password, or for this one. *)
Definition admits rw (namespace : bytes) (password : option bytes) : Prop :=
  exists meta, meta_of (nskv rw) namespace = Some meta /\ (nm_password meta = None \/ password = nm_password meta).

Lemma session_step s cmd rw :
  session_ok s ->
  let '(f, s', rw') := serve_command rcfg env show s cmd rw in
  session_ok s' /\ ss_admin_password s' = ss_admin_password s /\
  match cmd with
  | CmdSelect namespace password =>
      opens rw rw' /\ ss_conn_admin s' = ss_conn_admin s /\ ss_conn_namespace s' = namespace /\
      if is_error f then ss_handler s' = ss_handler s
      else bound s' /\ (ch_namespace_authenticated (ss_handler s') = true -> admits rw namespace password)
  | CmdAuth password =>
      opens rw rw' /\ ss_conn_namespace s' = ss_conn_namespace s /\
      (ss_conn_admin s' = true -> ss_conn_admin s = true \/ ss_admin_password s = Some password) /\
      ch_namespace_authenticated (ss_handler s') = ch_namespace_authenticated (ss_handler s) /\
      (ch_namespace (ss_handler s') = ch_namespace (ss_handler s) \/ bound s')
  | _ => s' = s
  end.
Proof.
  intros Hok. assert (opens rw rw) as Hrefl by done.
  destruct cmd as [ | | | | | | | | | | |namespace password| | | |password| | | | | | ]; unfold serve_command;
    try (by destruct (execute _ _ _ _ _ _)).
  - unfold select_namespace. destruct (get_or_create namespace rw) as [[u|e] rw1] eqn:E;
      pose proof (get_or_create_opens namespace rw) as Ho; rewrite E in Ho; cbn [snd] in Ho; [|by split_and!].
    destruct (namespace_password_accepted namespace password rw1) as [ok rw2] eqn:Ep.
    assert (opens rw1 rw2) as Ho2.
    { unfold namespace_password_accepted in Ep. destruct (get_namespace_meta namespace rw1) as [r rw2'] eqn:Eg.
      destruct (reads_run _ _ _ _ _ (reads_namespace_meta namespace rw1) Eg) as [Hq _]. apply quiet_opens in Hq.
      destruct r; by injection Ep as _ <-. }
    cbn [ss_conn_admin ss_admin_password]. destruct (new_handler namespace (ss_conn_admin s) rw2) as [h rw3] eqn:Eh.
    destruct (new_handler_spec _ _ _ _ _ Eh) as (Hq3 & Hns & Hadm). unfold session_ok. simpl.
    split; [by rewrite Hadm|]. split; [done|].
    split; [etrans; [exact Ho|]; etrans; [exact Ho2|by apply quiet_opens]|]. split; [done|]. split; [done|].
    assert (ok = true -> admits rw namespace password) as Hmeta.
    { intros ->. destruct (password_accepted _ _ _ _ Ep) as (meta & Hm & Hp). exists meta.
      destruct Ho as (Hn & _). by rewrite <- Hn. }
    done.
  - unfold authenticate. destruct (ss_admin_password s) as [admin|] eqn:Ea; [|split_and!; auto].
    case_bool_decide as Ep; cbn [negb]; [subst admin|split_and!; auto].
    destruct (get_or_create (ss_conn_namespace s) rw) as [[u|e] rw1] eqn:E;
      pose proof (get_or_create_opens (ss_conn_namespace s) rw) as Ho; cbn [ss_conn_namespace ss_conn_admin ss_handler ss_admin_password];
      rewrite E in Ho |- *; cbn [snd] in Ho.
    + destruct (new_handler _ true rw1) as [h rw2] eqn:Eh. destruct (new_handler_spec _ _ _ _ _ Eh) as (Hq & Hns & _).
      split; [done|]. split; [done|]. split; [etrans; [exact Ho|by apply quiet_opens]|]. split; [done|].
      split; [by right|]. split; [done|]. by right.
    + split; [done|]. split; [done|]. split; [done|]. split; [done|]. split; [by right|]. split; [done|by left].
Qed.

(** Commands served one after another. *)
Fixpoint serve_all s (cmds : list Command) rw : list Frame * Session * RW :=
  match cmds with
  | [] => ([], s, rw)
  | cmd :: cmds =>
      let '(f, s, rw) := serve_command rcfg env show s cmd rw in
      let '(fs, s, rw) := serve_all s cmds rw in (f :: fs, s, rw)
  end.

(** Every SELECT of the run was served. *)
Definition selects_served (cmds : list Command) (fs : list Frame) : Prop :=
  Forall2 (fun cmd f => match cmd with CmdSelect _ _ => is_error f = false | _ => True end) cmds fs.

(** Somewhere in the run a SELECT of the namespace gave what it asked for. *)
Definition was_admitted s (cmds : list Command) rw (namespace : bytes) : Prop :=
  exists before password after, cmds = before ++ CmdSelect namespace password :: after /\
    admits (serve_all s before rw).2 namespace password.

Lemma session_run cmds : forall s rw,
  session_ok s -> bound s ->
  let '(fs, s', rw') := serve_all s cmds rw in
  selects_served cmds fs ->
  bound s' /\
  (ch_namespace_authenticated (ss_handler s') = true ->
     was_admitted s cmds rw (ch_namespace (ss_handler s')) \/
     ch_namespace (ss_handler s') = ch_namespace (ss_handler s) /\ ch_namespace_authenticated (ss_handler s) = true).
Proof.
  induction cmds as [|cmd cmds IH]; intros s rw Hok Hb; cbn [serve_all]; [intros _; auto|].
  pose proof (session_step s cmd rw Hok) as Hstep.
  destruct (serve_command rcfg env show s cmd rw) as [[f s1] rw1] eqn:E1. destruct Hstep as (Hok1 & _ & Hstep).
  specialize (IH s1 rw1 Hok1). destruct (serve_all s1 cmds rw1) as [[fs s2] rw2].
  intros [Hf Hfs]%Forall2_cons.
  assert (bound s1 /\ (ch_namespace_authenticated (ss_handler s1) = true ->
    was_admitted s [cmd] rw (ch_namespace (ss_handler s1)) \/
    ch_namespace (ss_handler s1) = ch_namespace (ss_handler s) /\ ch_namespace_authenticated (ss_handler s) = true)) as [Hb1 Hr1].
  { destruct cmd; try (subst s1; split; [done|by right]).
    - rewrite Hf in Hstep. destruct Hstep as (_ & _ & Hc & Hbs & Ha). split; [done|]. intros Ht. left.
      rewrite Hbs, Hc. exists [], password, []. split; [done|by apply Ha].
    - destruct Hstep as (_ & Hc & _ & Hfl & Hns).
      assert (ch_namespace (ss_handler s1) = ch_namespace (ss_handler s) /\ bound s1) as [Hn Hb1].
      { unfold bound in *. destruct Hns as [Hns|Hns]; (split; [congruence|congruence]). }
      split; [done|]. intros Ht. right. split; [done|]. by rewrite <- Hfl. }
  destruct (IH Hb1 Hfs) as [Hb2 Hr2]. split; [done|]. intros Ht.
  destruct (Hr2 Ht) as [(before & password & after & -> & Ha)|[Hn Ht1]].
  - left. exists (cmd :: before), password, after. split; [done|]. cbn [serve_all]. rewrite E1.
    by destruct (serve_all s1 before rw1) as [[? ?] ?].
  - rewrite Hn. destruct (Hr1 Ht1) as [(before & password & after & Hc & Ha)|?]; [|by right].
    left. exists before, password, (after ++ cmds). split; [|done].
    change (cmd :: cmds) with ([cmd] ++ cmds). by rewrite Hc, <- app_assoc.
Qed.

(** C26: How a connection comes by its rights.  A command other than SELECT and
    AUTH leaves the session as it is.  SELECT, when it does not fail, binds
    the handler to the namespace it names, authenticated only if the
    namespace's record has no password or the one given; when it fails the
    handler stays as it was, and the connection has moved all the same.  AUTH
    makes an administrator only of a connection that gives the server's
    password; it keeps the authentication flag, and a handler that works in
    its connection's namespace keeps that too, so that AUTH grants no access to
    a namespace.  Neither touches anything that is stored.  Over a whole run
    of commands in which every SELECT is served, the handler works in the
    selected namespace and is authenticated only if it was so from the start
    or a SELECT of the run was admitted.  (After a SELECT that failed, the AUTH
    clause does not hold: see [auth_after_failed_select_grants_access].) *)
Theorem session_rights s cmds cmd rw :
  session_ok s ->
  (let '(f, s', rw') := serve_command rcfg env show s cmd rw in
   session_ok s' /\ ss_admin_password s' = ss_admin_password s /\
   match cmd with
   | CmdSelect namespace password =>
       opens rw rw' /\ ss_conn_admin s' = ss_conn_admin s /\ ss_conn_namespace s' = namespace /\
       if is_error f then ss_handler s' = ss_handler s
       else ch_namespace (ss_handler s') = namespace /\
         (ch_namespace_authenticated (ss_handler s') = true -> admits rw namespace password)
   | CmdAuth password =>
       opens rw rw' /\ ss_conn_namespace s' = ss_conn_namespace s /\
       (ss_conn_admin s' = true -> ss_conn_admin s = true \/ ss_admin_password s = Some password) /\
       ch_namespace_authenticated (ss_handler s') = ch_namespace_authenticated (ss_handler s) /\
       (bound s -> ch_namespace (ss_handler s') = ch_namespace (ss_handler s) /\ bound s')
   | _ => s' = s
   end) /\
  (bound s ->
   let '(fs, s', rw') := serve_all s cmds rw in
   selects_served cmds fs ->
   bound s' /\
   (ch_namespace_authenticated (ss_handler s') = true ->
      was_admitted s cmds rw (ch_namespace (ss_handler s')) \/
      ch_namespace (ss_handler s') = ch_namespace (ss_handler s) /\ ch_namespace_authenticated (ss_handler s) = true)).
Proof.
  intros Hok. split; [|by apply session_run].
  pose proof (session_step s cmd rw Hok) as Hstep.
  destruct (serve_command rcfg env show s cmd rw) as [[f s'] rw']. destruct Hstep as (Hok' & Ha & Hstep).
  split; [done|]. split; [done|]. destruct cmd; try done.
  - destruct Hstep as (Ho & Hadm & Hc & Hr). split; [done|]. split; [done|]. split; [done|].
    destruct (is_error f); [done|]. destruct Hr as [Hb Hr]. split; [by rewrite Hb|done].
  - destruct Hstep as (Ho & Hc & Hadm & Hfl & Hns). split_and!; [done..|]. unfold bound in *.
    intros Hb. destruct Hns as [Hns|Hns]; split; congruence.
Qed.
End Sessions.

(* ------------------------------------------------------------------ *)
(** * On the sample store *)

Import Concrete MemFjall AsciiText.

Lemma r_stored_no_zero : nskv r_stored !! (r_cas, str "0") = None.
Proof. vm_compute. reflexivity. Qed.

Lemma scan_enumerates_witness :
  scan_run r_cfg r_env r_show r_handler r_stored None [r_key] /\
  (StronglySorted key_lt [r_key] /\ forall k, k ∈ [r_key] <-> is_Some (nskv r_stored !! (r_cas, k))).
Proof.
  destruct (execute r_cfg r_env r_show r_handler (CmdScan None) r_stored) as [f rw'] eqn:E.
  assert (f = Array [BulkString (str "0"); Array (map BulkString [r_key])]) as ->
    by (apply (run_val fst _ _ _ E); vm_compute; reflexivity).
  assert (scan_run r_cfg r_env r_show r_handler r_stored None [r_key]) as Hrun by (by apply (run_last _ _ _ _ _ _ _ rw')).
  split; [exact Hrun|].
  exact (scan_enumerates r_cfg r_env r_show r_handler r_node_cas r_stored [r_key] r_stored_bound r_stored_no_zero Hrun).
Defined.

(** A session on the sample, as [Session::new] leaves one. *)
Definition r_session : Session := mkSession r_cas false r_handler (Some (str "admin")).

Lemma session_rights_witness :
  (let '(f, s', rw') := serve_command r_cfg r_env r_show r_session (CmdSelect r_plain None) r_world in
   is_error f = false /\ ch_namespace (ss_handler s') = r_plain /\ opens r_world rw' /\ admits r_world r_plain None) /\
  let '(fs, s', rw') := serve_all r_cfg r_env r_show r_session [CmdSelect r_plain None; CmdAuth (str "admin")] r_world in
  fs = [SimpleString (str "OK"); ok_frame] /\ bound s' /\ ch_is_admin (ss_handler s') = true /\
  ch_namespace (ss_handler s') = r_plain.
Proof.
  destruct (session_rights r_cfg r_env r_show r_session [CmdSelect r_plain None; CmdAuth (str "admin")] (CmdSelect r_plain None)
    r_world (fun _ => ltac:(discriminate))) as [Hx Hy].
  split.
  - destruct (serve_command r_cfg r_env r_show r_session (CmdSelect r_plain None) r_world) as [[f s'] rw'] eqn:E.
    destruct Hx as (_ & _ & Ho & _ & _ & Hf).
    assert (f = SimpleString (str "OK")) as -> by (apply (run_val (fun p => p.1.1) _ _ _ E); vm_compute; reflexivity).
    assert (ch_namespace_authenticated (ss_handler s') = true) as Ha
      by (apply (run_val (fun p => ch_namespace_authenticated (ss_handler p.1.2)) _ _ _ E); vm_compute; reflexivity).
    destruct Hf as [Hns Hm]. split; [reflexivity|]. split; [exact Hns|]. split; [exact Ho|exact (Hm Ha)].
  - specialize (Hy eq_refl).
    destruct (serve_all r_cfg r_env r_show r_session [CmdSelect r_plain None; CmdAuth (str "admin")] r_world) as [[fs s'] rw'] eqn:E.
    assert (fs = [SimpleString (str "OK"); ok_frame]) as -> by (apply (run_val (fun p => p.1.1) _ _ _ E); vm_compute; reflexivity).
    split; [reflexivity|]. split; [|split].
    + apply Hy. repeat constructor.
    + apply (run_val (fun p => ch_is_admin (ss_handler p.1.2)) _ _ _ E). vm_compute. reflexivity.
    + apply (run_val (fun p => ch_namespace (ss_handler p.1.2)) _ _ _ E). vm_compute. reflexivity.
Defined.
