(* ===== verification/RespFindings.v ===== *)
(** Behaviour of the respcas commands that its documentation does not lead one
    to expect, each shown on the sample store by evaluation. *)

From S2P Require Import Prelude Bytes Resp Externals BlockIds Codec Records StoreHeader MetaStore Commands Disk BlockStream Placement MetaOps Accounting Engine BatchSpecs WriteSpecs Chunking Namespaces Handlers ObjectSpecs NsSpecs NsInvariant NsAdmin HandlerSpecs RealDisk Fjall Sample RespSample RespProps AccessProps SessionProps.
From Stdlib Require Import Strings.Byte.
Import Concrete MemFjall AsciiText.
Local Open Scope Z_scope.
#[local] Set Warnings "-clear-no-such-hyp,-register-all".

(** The same store, whose next calls to the namespace database fail where the
    list says so. *)
Definition with_faults (l : list bool) (rw : SampleResp) : SampleResp :=
  let w := rw_world rw in
  let s := w_ns w in
  let db := fst_db s in
  mkRespWorld
    (mkWorld (mkFjallStore (mkMemDB (mdb_kv db) (mdb_names db) l) (fst_durability s) (fst_inlined_metadata_size s)
       (fst_partition_cache s)) (w_shared w) (w_disk w) (w_counters w)) (rw_cache rw).

(** The same store in a new process, which has opened no tree yet. *)
Definition reopened (rw : SampleResp) : SampleResp :=
  let w := rw_world rw in
  let s := w_ns w in
  mkRespWorld (mkWorld (mkFjallStore (fst_db s) (fst_durability s) (fst_inlined_metadata_size s) ∅)
    (w_shared w) (w_disk w) (w_counters w)) (rw_cache rw).

Definition with_node (name : bytes) (k : Namespace) (rw : SampleResp) : SampleResp :=
  mkRespWorld (rw_world rw) (<[name := k]> (rw_cache rw)).

Definition has_record (rw : SampleResp) (name key : bytes) : bool := bool_decide (is_Some (nskv rw !! (name, key))).

(* ------------------------------------------------------------------ *)
(** * A locked namespace takes clones *)

Definition locked_cas2 : Namespace := mkNamespace r_cas2 (mkProps r_cas2 false true true Cas None).

(** A value another content-addressed namespace holds is stored in a locked
    one: [clone_from_another_namespace] asks for room but not whether the
    namespace is writable.  The same SET of a value no namespace holds is
    refused. *)
Theorem locked_namespace_takes_clones :
  let handler := mkHandler r_cas2 false true in
  let rw := with_node r_cas2 locked_cas2 r_stored in
  let set value := execute r_cfg r_env r_show handler (CmdSet [] (str value)) rw in
  has_record rw r_cas2 r_key = false /\
  (set "hello").1 = BulkString r_key /\ has_record (set "hello").2 r_cas2 r_key = true /\
  is_error (set "other").1 = true.
Proof. vm_compute. repeat split. Qed.

(* ------------------------------------------------------------------ *)
(** * A key mode set by a command that failed *)

(** The record of an empty namespace is rewritten, then the write is not
    persisted: NSSET answers an error and the cached namespace keeps its mode,
    while the stored record says [cas].  A later SET then files a value under
    a key that is not its hash in a namespace the others clone from. *)
Theorem failed_key_mode_leaves_unverified_writes :
  let handler := mkHandler r_plain true true in
  let nsset := execute r_cfg r_env r_show handler (CmdNSSet r_plain (str "key_mode") (str "cas"))
                 (with_faults [false; false; false; false; true] r_world) in
  let set := execute r_cfg r_env r_show handler (CmdSet (str "k") (str "v")) nsset.2 in
  is_error nsset.1 = true /\
  option_map nm_key_mode (meta_of (nskv nsset.2) r_plain) = Some Cas /\
  set.1 = ok_frame /\ has_record set.2 r_plain (str "k") = true /\ bool_decide (value_key (str "v") = str "k") = false.
Proof. vm_compute. repeat split. Qed.

(* ------------------------------------------------------------------ *)
(** * Properties that could not be read *)

(** A namespace is opened although its metadata cannot be read, with the
    properties of a new one: a content-addressed namespace is then served as a
    user-keyed one, for as long as it stays in the cache. *)
Theorem unread_metadata_opens_with_defaults :
  let rw := (get_or_create r_cas2 (with_faults [true] r_stored)).2 in
  let set := execute r_cfg r_env r_show (mkHandler r_cas2 false true) (CmdSet (str "k") (str "v")) rw in
  option_map nm_key_mode (meta_of (nskv rw) r_cas2) = Some Cas /\
  option_map ns_props (rw_cache rw !! r_cas2) = Some (default_props r_cas2) /\
  set.1 = ok_frame /\ has_record set.2 r_cas2 (str "k") = true.
Proof. vm_compute. repeat split. Qed.

(* ------------------------------------------------------------------ *)
(** * AUTH after a SELECT that failed *)

Definition protected_meta : NamespaceMeta := mkNamespaceMeta r_cas2 (Some (str "secret")) None false false false Cas.

(** The sample with a password on one namespace. *)
Definition r_protected : SampleResp :=
  (update_namespace_meta r_cas2 protected_meta r_stored).2.

(** SELECT records the namespace on the connection before it opens it.  When
    opening it fails, the handler stays on the old namespace; an AUTH then
    rebinds to the new one with the flag of the old: the connection is
    authenticated for a namespace whose password it never gave. *)
Theorem auth_after_failed_select_grants_access :
  let selected := select_namespace r_show r_session r_cas2 (Some (str "wrong")) (with_faults [true] (reopened r_protected)) in
  let authed := authenticate r_show selected.1.2 (str "admin") selected.2 in
  is_error selected.1.1 = true /\ authed.1.1 = ok_frame /\
  ch_namespace (ss_handler authed.1.2) = r_cas2 /\ ch_namespace_authenticated (ss_handler authed.1.2) = true /\
  option_map nm_password (meta_of (nskv authed.2) r_cas2) = Some (Some (str "secret")).
Proof. vm_compute. repeat split. Qed.

(* ------------------------------------------------------------------ *)
(** * Reads of a private namespace *)

(** A connection without the password of a private namespace is refused the
    values, but not the keys: SCAN lists them, CHECK vouches for the stored
    bytes, and LENGTH, KEYTIME and DBSIZE tell sizes, times and the number of
    records. *)
Theorem private_namespace_shows_its_keys :
  let answer cmd := (execute r_cfg r_env r_show r_stranger cmd (r_with close_props r_stored)).1 in
  map answer [CmdGet r_key; CmdMGet [r_key]; CmdExists r_key] = [read_denied; read_denied; read_denied] /\
  map answer [CmdScan None; CmdRScan None] = [scan_reply [r_key]; scan_reply [r_key]] /\
  map answer [CmdCheck r_key; CmdLength r_key; CmdKeyTime r_key; CmdDBSize] = [Integer 1; Integer 5; Integer 7; Integer 1].
Proof. vm_compute. repeat split. Qed.

(* ------------------------------------------------------------------ *)
(** * A key that reads as the end of a scan *)

Definition put_keys (keys : list bytes) (rw : SampleResp) : SampleResp :=
  foldl (fun rw key => (execute r_cfg r_env r_show (mkHandler r_plain false true) (CmdSet key (str "v")) rw).2) rw keys.

(** A full page that ends in the key 0 has the cursor 0, which ends the scan:
    the keys after it are never shown. *)
Theorem scan_stops_at_key_zero :
  let rw := put_keys (map str ["!"; "#"; "$"; "%"; "&"; "("; ")"; "*"; "+"; "0"; "1"]%string) r_world in
  let page := (execute r_cfg r_env r_show (mkHandler r_plain false true) (CmdScan None) rw).1 in
  page = scan_reply (map str ["!"; "#"; "$"; "%"; "&"; "("; ")"; "*"; "+"; "0"]%string) /\
  page = Array [BulkString (str "0");
    Array (map BulkString (map str ["!"; "#"; "$"; "%"; "&"; "("; ")"; "*"; "+"; "0"]%string))] /\
  has_record rw r_plain (str "1") = true.
Proof. vm_compute. repeat split. Qed.
