(* ===== verification/EngineProps.v ===== *)
(** What the engine guarantees: the claims about batches, uploads, overwrites,
    deletes, clones and reads, each with an evaluation on the sample store.
    The specifications they rest on are in BatchSpecs.v, WriteSpecs.v and
    ObjectSpecs.v. *)

From S2P Require Import Prelude Bytes Externals BlockIds Codec Records StoreHeader MetaStore Disk Placement RealDisk Fjall MetaOps Accounting Engine BatchSpecs WriteSpecs ObjectSpecs Sample.
From Stdlib Require Import Strings.Byte.
Local Open Scope Z_scope.

(** The writer's temp directory is the one [open] derives from its root. *)
Definition well_placed (cfg : StoreCfg) : Prop :=
  aw_tmp (cfg_writer cfg) = blocks_root cfg ++ [TMP_DIR_NAME].

Section Claims.
Context {S T D : Type} `{StoreLaws S T, DiskLaws D, Blake3Laws, Md5, FasterHexLaws}.
Implicit Types w : World S D.

(** C1: Closing a batch is all or nothing, and exact.  From a state in which
    every reference is counted (and other requests hold the references [F]),
    a batch of distinct blocks, each with its bytes at hand, either commits,
    and then every block's count has grown by exactly its occurrences, every
    block of the batch has a usable record and its file holds bytes of its
    address; or fails, and then the counts are untouched, or (when the commit
    itself reported the failure) they are the committed ones.  Either way no
    reference of anybody is lost, no healthy block's file is touched, the
    namespace is untouched, and the closure does not panic, whatever disk and
    database calls fail. *)
Theorem batch_commit_exact cfg es w F :
  well_placed cfg ->
  NoDup (map be_id es) -> Forall (entry_ok cfg (wfiles w) (wnonce w)) es ->
  0 <= wnonce w -> wnonce w + Z.of_nat (length es) <= u64_max ->
  (forall i, BlockId_wf i ->
     rc_of (kv (w_shared w)) i + Z.of_nat (occ i (batch_refs es)) <= usize_max) ->
  winv cfg w F ->
  wp (commit_batch cfg es) w (fun r w' =>
    kv (w_ns w') = kv (w_ns w) /\
    agree_off (commit_paths cfg (kv (w_shared w)) es (wnonce w)) (wfiles w) (wfiles w') /\
    match r with
    | Ok _ =>
        (forall i, BlockId_wf i ->
           rc_of (kv (w_shared w')) i = rc_of (kv (w_shared w)) i + Z.of_nat (occ i (batch_refs es))) /\
        (forall e, e ∈ es -> live_at (kv (w_shared w')) (be_id e) = true) /\
        winv cfg w' (add_refs F (batch_refs es))
    | Err err => no_panic err /\ winv cfg w' F /\
        (kv (w_shared w') = kv (w_shared w) \/
         counted (batch_refs es) (kv (w_shared w)) (kv (w_shared w')))
    end).
Proof.
  intros Hcfg Hnd Hok Hn0 Hn Hroom Hinv.
  eapply wp_mono; [by apply (commit_batch_spec cfg Hcfg es w F)|].
  intros r w' ((Hns & _ & Ha) & Hr). split_and!; [done|done|].
  destruct r as [o|err]; [|done]. destruct Hr as [(Hrc & Hl & _) Hinv']. split_and!; [done| |done].
  intros e He. rewrite Forall_forall in Hok. pose proof (Hok e He) as Hoe.
  apply Hl; [by eapply entry_ok_wf|]. right. apply elem_of_batch_refs; [done|apply Hoe].
Qed.

(** C15: An upload stores its bytes under their addresses, or leaks at most
    its own references.  When the request succeeds, the block list it returns
    is the list of the addresses of its chunks in order (a repeated chunk
    repeated), the ETag is the MD5 of the whole stream, the size its length,
    and every reference of the list is counted exactly once, across however
    many batches the cap cut it into.  When it fails, other holders have lost
    nothing, the namespace is unchanged, and what stays counted is a part of
    the request's own occurrences. *)
Theorem upload_exact cfg items w F :
  let chunks := (stream_chunks items).1 in
  well_placed cfg -> budget cfg w chunks -> winv cfg w F ->
  wp (store_object cfg items) w (fun r w' =>
    kv (w_ns w') = kv (w_ns w) /\ match r with
    | Ok (blocks, hash, size) =>
        (stream_chunks items).2 = true /\
        blocks = map (hash_block (cfg_hasher cfg)) chunks /\
        hash = mkContentHash (md5_digest (concat chunks)) /\
        size = Z.of_nat (length (concat chunks)) /\
        (forall i, BlockId_wf i ->
           rc_of (kv (w_shared w')) i = rc_of (kv (w_shared w)) i + Z.of_nat (occ i blocks)) /\
        winv cfg w' (add_refs F blocks)
    | Err e => no_panic e /\ winv cfg w' F /\
        exists leaked, (forall i, (occ i leaked <= occ i (map (hash_block (cfg_hasher cfg)) chunks))%nat) /\
          counted leaked (kv (w_shared w)) (kv (w_shared w'))
    end).
Proof.
  intros chunks Hcfg Hbg Hinv. eapply wp_mono; [by apply (store_object_spec cfg Hcfg items w F)|].
  intros [[[blocks hash] size]|e] w' Hr.
  - destruct Hr as (? & ? & ? & ? & ? & (Hrc & _) & ?). by split_and!.
  - destruct Hr as (? & ? & ? & C & ? & ?). split_and!; try done. by exists C.
Qed.

(** C2: What a PUT wrote, a GET finds.  A PUT of a non-empty stream followed
    by the resolution of the object's paths yields the object that was put
    and, for each chunk in order, a path whose file holds bytes with the
    chunk's address, of the length the record states; and if no file of the
    store collides with a chunk, reading the paths back gives the stream's
    bytes.  Whatever fails in between, no reference is lost. *)
Theorem put_then_get cfg now bucket key items len w F :
  let chunks := (stream_chunks items).1 in
  well_placed cfg -> reserved bucket = false -> 0 < len -> budget cfg w chunks -> winv cfg w F ->
  Object_wf (put_object cfg now chunks) ->
  wp (_ ← store_single_object_and_meta cfg now bucket key items len;
      get_object_paths cfg bucket key) w (fun r w' =>
    winv cfg w' F /\ match r with
    | Ok None => False
    | Ok (Some (o, ps)) =>
        o = put_object cfg now chunks /\ Forall2 (serves cfg (wfiles w')) chunks ps /\
        ((forall c p data, c ∈ chunks -> wfiles w' !! p = Some data ->
            hash_block (cfg_hasher cfg) data = hash_block (cfg_hasher cfg) c -> data = c) ->
         read_back (wfiles w') ps = Some (concat chunks))
    | Err _ => True
    end).
Proof.
  intros chunks Hcfg Hres Hlen Hbg Hinv Hwf.
  eapply wp_mono; [by apply (put_get_spec cfg Hcfg now bucket key items len w F)|].
  intros [[[o ps]|]|e] w' [Hinv' Hr]; (split; [done|]); [|done|done].
  destruct Hr as [-> Hps]. split_and!; [done|done|]. intros Hnc. by eapply read_back_chunks.
Qed.



(** C17: The usage ledger is exact.  If a bucket's counter equals the sum of
    the sizes of the objects stored in it, it still does after an overwrite
    and after a delete, successful or failed, and the sum has moved by the
    size written minus the size displaced; the two's-complement difference
    and the saturating counter lose nothing below 2^63 bytes. *)
Theorem usage_ledger_exact bucket key o (s : S) :
  reserved bucket = false -> Object_wf o ->
  Z.of_nat (stored_bytes (kv s) bucket) + o_size o <= i64_max -> usage_exact (kv s) bucket ->
  wp (replace_object_record bucket key (Object_to_vec o) (o_size o)) s (fun r s' =>
    usage_exact (kv s') bucket /\
    match r with
    | Ok d => Z.of_nat (stored_bytes (kv s') bucket)
              = Z.of_nat (stored_bytes (kv s) bucket) + o_size o - old_size d
    | Err _ => True
    end) /\
  wp (take_object_record bucket key) s (fun r s' =>
    usage_exact (kv s') bucket /\
    match r with
    | Ok d => Z.of_nat (stored_bytes (kv s') bucket)
              = Z.of_nat (stored_bytes (kv s) bucket) - old_size d
    | Err _ => True
    end).
Proof.
  intros Hres Hwf Hmax Hex. pose proof (Object_roundtrip o Hwf) as Ho.
  pose proof (Object_decode_size _ _ Ho) as Hsz. split.
  - eapply wp_mono; [by apply replace_object_record_spec|]. intros [d|e] s' Hr; [|split; [|done]].
    + by apply (replaced_ledger bucket key (Object_to_vec o) o d (kv s)).
    + destruct Hr as [->|[d Hr]]; [done|]. by apply (replaced_ledger bucket key (Object_to_vec o) o d (kv s)) in Hr as [? _].
  - assert (Z.of_nat (stored_bytes (kv s) bucket) <= i64_max) as Hmax' by (int_bounds; lia).
    eapply wp_mono; [by apply take_object_record_spec|]. intros [d|e] s' Hr; [|split; [|done]].
    + by apply (taken_ledger bucket key d (kv s)).
    + destruct Hr as [->|[d Hr]]; [done|]. by apply (taken_ledger bucket key d (kv s)) in Hr as [? _].
Qed.


(** C19: A read never dangles.  Resolving an object's paths answers the record
    under the key and, for each block of a block-backed object in order, the
    path and length of a block record that is there and counts at least one
    reference; unless that record is marked degraded, the file at the path
    holds bytes that hash to the block's address, of that length.  Nothing is
    written. *)
Theorem read_never_dangles cfg bucket key w F :
  reserved bucket = false -> winv cfg w F ->
  wp (get_object_paths cfg bucket key) w (fun r w' =>
    same_dbs w w' /\ w_disk w' = w_disk w /\ match r with
    | Ok None => kv (w_ns w) !! (bucket, key) = None
    | Ok (Some (o, ps)) =>
        (exists raw, kv (w_ns w) !! (bucket, key) = Some raw /\ Object_try_from raw = Ok o) /\
        if is_inlined o then ps = []
        else Forall2 (fun i p => exists b, block_at (kv (w_shared w)) i = Some b /\ 0 < b_rc b /\
               p = (block_disk_path i (b_depth b) (blocks_root cfg), b_size b) /\
               (is_degraded b = false -> exists data, wfiles w !! p.1 = Some data /\
                  hash_block (cfg_hasher cfg) data = i /\ Z.of_nat (length data) = p.2)) (o_blocks o) ps
    | Err e => no_panic e
    end).
Proof.
  intros Hres Hinv. eapply wp_mono; [apply get_object_paths_spec|].
  intros r w' (Hs & Hd & Hr). split_and!; [done|done|].
  destruct r as [[[o ps]|]|e]; [|done|done]. destruct Hr as [Hf Hps]. split; [exact Hf|].
  destruct (is_inlined o); [done|]. apply Forall2_same_length_lookup in Hps as [Hl Hps].
  apply Forall2_same_length_lookup. split; [done|]. intros k i p Hi Hp.
  specialize (Hps k i p Hi Hp).
  destruct (object_readable cfg bucket key o w F i p Hres Hinv Hf (list_elem_of_lookup_2 _ _ _ Hi))
    as (b & Hb & Hpos & Hloc & Hfile).
  exists b. rewrite (Hloc Hps). by split_and!.
Qed.
End Claims.

(* ------------------------------------------------------------------ *)
(** * On the sample store *)

Import Concrete MemFjall.

(** A batch of one block, deduplicated against a record that has since gone. *)
Definition s_entry : BatchEntry := mkBatchEntry (s_id (str "hello")) 5 2 (Deduped (str "hello")) None.

Lemma s_entry_ok : entry_ok s_cfg (wfiles s_world) (wnonce s_world) s_entry.
Proof.
  split_and!; [simpl; lia|split; vm_compute; discriminate|done|]. by exists (str "hello").
Qed.

Lemma batch_commit_exact_witness :
  exists o w', commit_batch s_cfg [s_entry] s_world = (Ok o, w') /\
    rc_of (kv (w_shared w')) (s_id (str "hello")) = 2 /\
    winv s_cfg w' (add_refs (fun _ => 0%nat) [s_id (str "hello"); s_id (str "hello")]).
Proof.
  pose proof (batch_commit_exact s_cfg [s_entry] s_world (fun _ => 0%nat) eq_refl) as Hx.
  assert (NoDup (map be_id [s_entry])) as Hnd by (apply NoDup_singleton).
  assert (forall i, BlockId_wf i -> rc_of (kv (w_shared s_world)) i
            + Z.of_nat (occ i (batch_refs [s_entry])) <= usize_max) as Hroom.
  { intros i _. rewrite s_rc. pose proof (occ_length i (batch_refs [s_entry])) as Ho.
    change (length (batch_refs [s_entry])) with 2%nat in Ho. unfold usize_max. lia. }
  specialize (Hx Hnd ltac:(constructor; [apply s_entry_ok|constructor])
    ltac:(vm_compute; discriminate) ltac:(vm_compute; discriminate) Hroom s_empty).
  run_ok Hx o w' E.
  exists o, w'. destruct Hx as (_ & _ & Hrc & _ & Hinv). split; [exact E|]. split; [|exact Hinv].
  rewrite Hrc by (apply hash_block_wf). reflexivity.
Defined.

Lemma upload_exact_witness :
  exists r w', store_object s_cfg s_items s_world = (Ok r, w') /\
    r.1.1 = map s_id s_chunks /\ r.2 = 15 /\
    rc_of (kv (w_shared w')) (s_id (str "hello")) = 2.
Proof.
  pose proof (upload_exact s_cfg s_items s_world (fun _ => 0%nat) eq_refl s_budget s_empty) as Hx.
  run_ok Hx r w' E. destruct r as [[blocks hash] size].
  destruct Hx as (_ & _ & -> & -> & -> & Hrc & _). eexists _, w'. split; [exact E|]. split; [reflexivity|]. split; [reflexivity|].
  rewrite Hrc by (apply hash_block_wf). reflexivity.
Defined.

Lemma put_then_get_witness :
  exists r w', (_ ← store_single_object_and_meta s_cfg 7 s_bucket s_key s_items 15;
                get_object_paths s_cfg s_bucket s_key) s_world = (Ok r, w') /\
    winv s_cfg w' (fun _ => 0%nat) /\
    match r with Some (o, ps) => Forall2 (serves s_cfg (wfiles w')) s_chunks ps | None => False end.
Proof.
  pose proof (put_then_get s_cfg 7 s_bucket s_key s_items 15 s_world (fun _ => 0%nat) eq_refl eq_refl
    ltac:(lia) s_budget s_empty s_object_wf) as Hx.
  run_ok Hx r w' E.
  exists r, w'. destruct Hx as [Hinv Hr]. split; [exact E|]. split; [exact Hinv|].
  destruct r as [[o ps]|]; [|exact Hr]. destruct Hr as (_ & Hr & _). exact Hr.
Defined.



Definition s_small : Object :=
  Object_new 7 2 (mkContentHash (replicate 16 Byte.x01)) (Inline (str "hi")).

Lemma usage_ledger_exact_witness :
  exists d s', replace_object_record s_bucket s_key (Object_to_vec s_small) 2 empty_store = (Ok d, s') /\
    usage_exact (kv s') s_bucket /\ usage_read (kv s') s_bucket = Ok 2.
Proof.
  destruct (usage_ledger_exact s_bucket s_key s_small empty_store eq_refl) as [Hx _];
    [repeat split; concrete_side|vm_compute; discriminate|reflexivity|].
  change (o_size s_small) with 2 in Hx. run_ok Hx d s' E.
  exists d, s'. destruct Hx as [Hx _]. split; [exact E|]. split; [exact Hx|].
  apply (run_val (fun p => usage_read (kv p.2) s_bucket) _ _ _ E). vm_compute. reflexivity.
Defined.



Lemma read_never_dangles_witness :
  exists r w', get_object_paths s_cfg s_bucket s_key s_full = (Ok r, w') /\ same_dbs s_full w' /\
    option_map (fun o => length o.2) r = Some 3%nat.
Proof.
  pose proof (read_never_dangles s_cfg s_bucket s_key s_full (fun _ => 0%nat) eq_refl s_full_inv) as Hx.
  run_ok Hx r w' E. exists r, w'. destruct Hx as (Hs & _). split; [exact E|]. split; [exact Hs|].
  apply (run_val (fun p => match p.1 with Ok r => option_map (fun o => length o.2) r | _ => None end) _ _ _ E). vm_compute. reflexivity.
Defined.
