(* ===== verification/UploadProps.v ===== *)
(** The claims about the multipart lifecycle and the stale-upload collector,
    each with an evaluation on the sample store. *)

From S2P Require Import Prelude Bytes Externals BlockIds Codec Records StoreHeader MetaStore Disk Placement RealDisk Fjall MetaOps Accounting Engine BatchSpecs WriteSpecs ObjectSpecs Uploads UploadSpecs UploadRace Gc Sample.
From Stdlib Require Import Strings.Byte.
Local Open Scope Z_scope.

Section Claims.
Context {S T D : Type} `{StoreLaws S T, DiskLaws D, Blake3Laws, Md5, FasterHexLaws}.
Abbreviation shkv := (fun w : World S D => kv (w_shared w)).
Implicit Types (w : World S D) (b k u : bytes).

(** C16: Completing an upload moves the parts' references to the object, none
    created and none dropped.  A successful complete was asked for parts
    numbered from one without gaps; one transaction took the upload record and
    exactly those part records; the object under the key names their blocks in
    part order, with the combined digest and size; and what it displaced has
    been released afterwards.  Every refusal addressed to the client leaves
    both databases and the disk untouched, and under any failure every
    reference still held is still counted. *)
Theorem complete_transfers_references cfg now b k u request w F :
  reserved b = false -> winv cfg w F ->
  (forall ps, Forall2 (fun n p => part_at (shkv w) (part_key b k u n) p) (omap id (default [] request)) ps ->
     Object_wf (completed_object now ps)) ->
  wp (complete_multipart_upload_op cfg now b k u request) w (fun r w' =>
    winv cfg w' F /\
    match r with
    | Ok etag => exists numbers o, request = Some (map Some numbers) /\
        numbers = map (fun i => wrap_i32 (Z.of_nat i)) (seq 1 (length numbers)) /\
        completes now b k u numbers w w' o /\ etag = format_e_tag o
    | Err (InternalError e) => no_panic e
    | Err _ => untouched w w'
    end).
Proof.
  intros Hres Hinv Hwf. eapply wp_mono; [by apply (complete_multipart_upload_spec cfg now b k u request w F)|].
  intros [etag|e] w' [Hinv' Hr]; (split; [done|]); [done|]. destruct e; try done. by destruct Hr.
Qed.

(** C34: One claim wins.  Let requests to complete and to abort one upload
    come in any number and order, whole or caught between their reads and
    their claiming transaction, and let any call fail.  At most one of them is
    answered as the winner.  Once one is, or once the upload's record is gone
    for any other reason, every later contender is told there is no such upload
    (or, where it cannot be told, that its request is malformed or a read
    failed) and leaves both databases and the disk as they were.  Throughout,
    every counted reference stays counted, those of claimed parts included, so
    that none is released by one contender and inherited by another. *)
Theorem one_claim_wins cfg fuel b k u cs w F :
  reserved b = false -> winv cfg w F -> Forall (fun c => completable b k u c (shkv w)) cs ->
  (length (List.filter is_ok (contend_all cfg fuel b k u cs w).1) <= 1)%nat /\
  forall before after, cs = before ++ after ->
    let '(answers, w1) := contend_all cfg fuel b k u before w in
    let '(answers', w2) := contend_all cfg fuel b k u after w1 in
    keeps_held cfg w1 F /\
    (Exists (fun r => is_ok r = true) answers -> no_upload (shkv w1) b k u) /\
    (untouched w w1 \/ no_upload (shkv w1) b k u) /\
    (no_upload (shkv w1) b k u -> Forall2 told_gone after answers' /\ untouched w1 w2).
Proof.
  intros Hres Hinv Hall. split.
  - pose proof (contend_all_spec cfg fuel b k u cs w F Hres Hinv Hall) as Hs.
    destruct (contend_all cfg fuel b k u cs w) as [rs w']. by destruct Hs as (_ & _ & _ & Hs).
  - intros before after ->. apply Forall_app in Hall as [Hall _].
    pose proof (contend_all_spec cfg fuel b k u before w F Hres Hinv Hall) as Hs.
    destruct (contend_all cfg fuel b k u before w) as [rs w1].
    pose proof (contend_all_gone cfg fuel b k u after w1) as Hg.
    destruct (contend_all cfg fuel b k u after w1) as [rs' w2]. destruct Hs as (Hk & Hc & Hex & _).
    split; [done|]. split; [done|]. split; [done|]. destruct Hk as (F' & _ & Hinv1). by apply (Hg F').
Qed.

(** An abort settles an upload.  The caller that finds no record changes
    nothing.  The caller that wins the claim removes the upload record and
    reaps parts of this upload alone: every other upload keeps its record and
    all its parts.  The count it returns is of part records this call took
    out, so that when it equals the number the upload had, none is left; and
    each part's references are dropped only after its record was taken, so
    that no reference still held is ever lost, also when calls fail.  A scan of
    the parts that is still going has spent its steps on failed reads. *)
Theorem abort_settles cfg fuel b k u b' k' u' w F :
  keyable b k u -> keyable b' k' u' -> (b, k, u) <> (b', k', u') -> winv cfg w F ->
  let prefix := part_prefix b k u in
  wp (abort_upload cfg fuel b k u) w (fun r w' =>
    winv cfg w' F /\ kv (w_ns w') = kv (w_ns w) /\ upload_kept b' k' u' (shkv w) (shkv w') /\
    match r with
    | Ok (RunEnded None) => no_upload (shkv w) b k u /\ untouched w w'
    | Ok (RunEnded (Some n)) => ~ no_upload (shkv w) b k u /\ no_upload (shkv w') b k u /\
        (size (parts_with prefix (shkv w')) + n <= size (parts_with prefix (shkv w)))%nat
    | Ok (RunGoing n) => no_upload (shkv w') b k u /\ still_reading fuel (shkv w) n
    | Err e => no_panic e
    end).
Proof.
  intros Hk1 Hk2 Hne Hinv prefix. eapply wp_mono; [by apply (abort_upload_spec cfg fuel b k u w F)|].
  assert (forall w', aborted cfg b k u F w w' ->
    winv cfg w' F /\ kv (w_ns w') = kv (w_ns w) /\ upload_kept b' k' u' (shkv w) (shkv w')) as Hab.
  { intros w' Ha. pose proof Ha as (? & _ & ? & _). split_and!; [done|done|exact (aborted_keeps cfg b k u b' k' u' F w w' Hk1 Hk2 Hne Ha)]. }
  assert (forall w', same_but_shared w w' /\ shkv w' = shkv w /\ winv cfg w' F ->
    winv cfg w' F /\ kv (w_ns w') = kv (w_ns w) /\ upload_kept b' k' u' (shkv w) (shkv w')) as Hsame.
  { intros w' ([Hn _] & Hs & Hi). split_and!; [done|by rewrite Hn|]. by rewrite Hs. }
  intros [[[n|]|n]|e] w' Hr.
  - destruct Hr as ((rec & Hrec) & Ha & Hs). destruct (Hab w' Ha) as (? & ? & ?). split_and!; [done..| | |done].
    + by eapply upload_at_present.
    + by eapply aborted_gone.
  - destruct Hr as (Hno & Hr). destruct (Hsame w' Hr) as (? & ? & ?). destruct Hr as (? & ? & ?).
    by split_and!.
  - destruct Hr as (_ & Ha & Hs). destruct (Hab w' Ha) as (? & ? & ?). split_and!; [done..| |done]. by eapply aborted_gone.
  - destruct Hr as [Hnp [Ha|Hr]]; [destruct (Hab w' Ha) as (? & ? & ?)|destruct (Hsame w' Hr) as (? & ? & ?)];
      by split_and!.
Qed.

(** An uploaded part holds what was sent.  The handler answers with an
    ETag only when the upload's record was there and the declared length is
    the length received; then the part record under its number names the
    addresses of the body's chunks in order, its size and its MD5, which is
    the ETag.  A refusal after the blocks were written leaks at most the
    part's own references; nobody else's are touched. *)
Theorem uploaded_part_exact cfg b k u n md5 body len w F :
  aw_tmp (cfg_writer cfg) = blocks_root cfg ++ [TMP_DIR_NAME] ->
  let chunks := (stream_chunks (default [] body)).1 in
  budget cfg w chunks -> MultiPart_wf (uploaded_part cfg b k u n chunks) -> winv cfg w F ->
  wp (upload_part_op cfg b k u n md5 body len) w (fun r w' =>
    winv cfg w' F /\ kv (w_ns w') = kv (w_ns w) /\
    match r with
    | Ok etag => (exists rec, upload_at (shkv w) (upload_key b k u) rec) /\
        part_at (shkv w') (part_key b k u n) (uploaded_part cfg b k u n chunks) /\
        len = Some (Z.of_nat (length (concat chunks))) /\
        etag = ch_to_hex (mkContentHash (md5_digest (concat chunks)))
    | Err _ => True
    end).
Proof. apply upload_part_spec. Qed.

(** C35: A sweep never touches an upload that is not stale.  An upload is stale
    when its record is strictly older than the cutoff (one created exactly at
    the cutoff is kept, as the documentation of the sweep says and that of its
    first phase denies).  Whatever fails, no counted reference is lost, the
    namespace is untouched, and an upload that is not stale keeps its record
    and every one of its parts, whatever else the sweep reaps.  The sweep ends,
    unless reads keep failing: one that has not ended after [fuel] steps of an
    iterator has had that many failed reads, less one step per part row. *)
Theorem sweep_spares_live_uploads cfg fuel now ttl b k u w F :
  let cutoff := saturating_sub_i64 now (ttl_secs ttl) in
  winv cfg w F -> uploads_filed (shkv w) -> keyable b k u -> parts_filed b k u (shkv w) ->
  (size (keys_above (shkv w) UPLOADS_TREE None) < fuel)%nat -> Z.of_nat (3 * fuel) <= u64_max ->
  (exists r, upload_at (shkv w) (upload_key b k u) r /\ cutoff <= ur_created_at r) ->
  wp (sweep_stale_uploads cfg fuel now ttl) w (fun r w' =>
    match r with
    | Ok (RunEnded _) => True
    | Ok (RunGoing failed_reads) =>
        (fuel <= size (keys_above (shkv w) MULTIPART_PARTS_TREE None) + failed_reads)%nat
    | Err _ => False
    end /\ (kv (w_ns w') = kv (w_ns w) /\ winv cfg w' F) /\
    upload_kept b k u (shkv w) (shkv w')).
Proof. apply sweep_keeps. Qed.

(** The orphan phase reaps the orphans and nothing else.  A record it
    changes, besides those of blocks, is a part record whose upload has no
    record; and a phase that ended and counted no error has left no decodable
    part without its upload. *)
Theorem sweep_reclaims_orphans cfg fuel stats w F :
  winv cfg w F -> err_room (2 * fuel) stats -> (1 <= fuel)%nat ->
  wp (sweep_orphan_parts cfg fuel stats) w (fun r w' =>
    (kv (w_ns w') = kv (w_ns w) /\ winv cfg w' F) /\
    (forall t key, t <> DEFAULT_BLOCK_TREE ->
       (t = MULTIPART_PARTS_TREE -> forall p, part_at (shkv w) key p -> ~ orphan (shkv w) p) ->
       shkv w' !! (t, key) = shkv w !! (t, key)) /\
    match r with
    | Ok (RunEnded stats') =>
        errors stats' = errors stats -> forall key p, part_at (shkv w') key p -> ~ orphan (shkv w') p
    | Ok (RunGoing n) => untouched w w' /\ still_reading fuel (shkv w) n
    | Err _ => False
    end).
Proof. apply sweep_orphans_spec. Qed.
End Claims.

(* ------------------------------------------------------------------ *)
(** * Evaluations *)

Import Concrete MemFjall.

Definition s_upload : bytes := str "u1".
Definition s_part : MultiPart := uploaded_part s_cfg s_bucket s_key s_upload 1 s_chunks.

(** An upload opened at time 100, and with its first part. *)
Definition s_opened : SampleWorld := (create_upload 100 s_bucket s_key s_upload s_world).2.
Definition s_parted : SampleWorld :=
  (upload_part_op s_cfg s_bucket s_key s_upload 1 (Ok None) (Some s_items) (Some 15) s_opened).2.
(** The same with the upload record taken: its part is an orphan. *)
Definition s_orphaned : SampleWorld := (claim_upload s_bucket s_key s_upload s_parted).2.

Lemma s_part_wf : MultiPart_wf s_part.
Proof.
  repeat split; try concrete_side.
  exists 16%nat. repeat (apply Forall_cons; split; [split; [apply hash_block_wf|reflexivity]|]). constructor.
Qed.

Lemma s_opened_inv : winv s_cfg s_opened (fun _ => 0%nat).
Proof. exact (proj1 (proj2 (create_upload_spec s_cfg 100 s_bucket s_key s_upload s_world _ s_empty))). Qed.

Lemma s_opened_budget : budget s_cfg s_opened s_chunks.
Proof.
  split; [vm_compute; split; discriminate|vm_compute; discriminate|].
  intros i Hi. pose proof (occ_length i (map (hash_block (cfg_hasher s_cfg)) s_chunks)) as Ho.
  change (length (map (hash_block (cfg_hasher s_cfg)) s_chunks)) with 3%nat in Ho.
  assert (rc_of (kv (w_shared s_opened)) i <= 3); [|unfold usize_max; lia].
  apply small_rc_bound. eapply bool_decide_unpack. vm_compute. exact I.
Qed.

Lemma s_parted_inv : winv s_cfg s_parted (fun _ => 0%nat).
Proof.
  exact (proj1 (upload_part_spec s_cfg s_bucket s_key s_upload 1 (Ok None) (Some s_items) (Some 15) s_opened _
    eq_refl s_opened_budget s_part_wf s_opened_inv)).
Qed.

Lemma s_orphaned_inv : winv s_cfg s_orphaned (fun _ => 0%nat).
Proof. exact (proj1 (proj2 (claim_upload_spec s_cfg s_bucket s_key s_upload s_parted _ s_parted_inv))). Qed.

Lemma s_keyable b k u : (length b + length k + length u < 1000)%nat -> keyable b k u.
Proof. intros Hl. repeat split; unfold fits; int_bounds; lia. Qed.

Lemma uploaded_part_exact_witness :
  exists etag w', upload_part_op s_cfg s_bucket s_key s_upload 1 (Ok None) (Some s_items) (Some 15) s_opened
      = (Ok etag, w') /\
    part_at (kv (w_shared w')) (part_key s_bucket s_key s_upload 1) s_part.
Proof.
  pose proof (uploaded_part_exact s_cfg s_bucket s_key s_upload 1 (Ok None) (Some s_items) (Some 15) s_opened _
    eq_refl s_opened_budget s_part_wf s_opened_inv) as Hx.
  run_ok Hx etag w' E. exists etag, w'. destruct Hx as (_ & _ & _ & Hx & _). split; [exact E|]. exact Hx.
Defined.

Lemma s_completed : Object_wf (completed_object 200 [s_part]).
Proof.
  split; [vm_compute; reflexivity|]. split; [concrete_side|]. split; [concrete_side|].
  split; [vm_compute; reflexivity|]. split; [|concrete_side].
  change (o_data (completed_object 200 [s_part])) with (MultiPartData (mp_blocks s_part ++ []) 1).
  rewrite app_nil_r. split; [|concrete_side].
  exists 16%nat. repeat (apply Forall_cons; split; [split; [apply hash_block_wf|reflexivity]|]). constructor.
Qed.

Lemma s_completes ps :
  Forall2 (fun n p => part_at (kv (w_shared s_parted)) (part_key s_bucket s_key s_upload n) p) [1] ps ->
  Object_wf (completed_object 200 ps).
Proof.
  intros HF. apply Forall2_cons_inv_l in HF as (p & l & (raw & Hraw & Hp) & Hl & ->).
  apply Forall2_nil_inv_l in Hl as ->.
  assert (kv (w_shared s_parted) !! (MULTIPART_PARTS_TREE, part_key s_bucket s_key s_upload 1)
    = Some (MultiPart_to_vec s_part)) as E by (vm_compute; reflexivity).
  rewrite E in Hraw. injection Hraw as <-. rewrite MultiPart_roundtrip in Hp by apply s_part_wf. injection Hp as <-.
  exact s_completed.
Qed.

Lemma complete_transfers_references_witness :
  exists etag w', complete_multipart_upload_op s_cfg 200 s_bucket s_key s_upload (Some [Some 1]) s_parted = (Ok etag, w') /\
    winv s_cfg w' (fun _ => 0%nat) /\
    rc_of (kv (w_shared w')) (s_id (str "hello")) = 2 /\
    kv (w_shared w') !! (MULTIPART_PARTS_TREE, part_key s_bucket s_key s_upload 1) = None.
Proof.
  pose proof (complete_transfers_references s_cfg 200 s_bucket s_key s_upload (Some [Some 1]) s_parted _
    eq_refl s_parted_inv s_completes) as Hx.
  run_ok Hx etag w' E. exists etag, w'. destruct Hx as [Hinv _]. split; [exact E|]. split; [exact Hinv|]. split.
  - apply (run_val (fun p => rc_of (kv (w_shared p.2)) (s_id (str "hello"))) _ _ _ E). vm_compute. reflexivity.
  - apply (run_val (fun p => kv (w_shared p.2) !! (MULTIPART_PARTS_TREE, part_key s_bucket s_key s_upload 1)) _ _ _ E).
    vm_compute. reflexivity.
Defined.

(** The contenders of the evaluation: a complete, then everybody again. *)
Definition s_contenders : list Contender :=
  [Completes 200 (Some [Some 1]); Aborts; ClaimsParts [1]; Completes 300 (Some [Some 1]); ClaimsUpload; Completes 300 None].

Lemma s_completable c : c ∈ s_contenders -> completable s_bucket s_key s_upload c (kv (w_shared s_parted)).
Proof.
  assert (forall now ps, is_i64 now ->
    Forall2 (fun n p => part_at (kv (w_shared s_parted)) (part_key s_bucket s_key s_upload n) p) [1] ps ->
    Object_wf (completed_object now ps)) as Hone.
  { intros now ps Hnow Hps. pose proof (s_completes ps Hps) as (H1 & H2 & H3 & H4 & H5 & H6).
    unfold completed_object in *. destruct (calculate_multipart_hash ps) as [hash size].
    split; [done|]. split; [done|]. split; [done|]. split; [done|]. split; [done|].
    unfold fits in *. rewrite Object_layout in *. autorewrite with len in *. exact H6. }
  intros Hc. unfold s_contenders in Hc. rewrite !elem_of_cons, elem_of_nil in Hc.
  destruct Hc as [->|[->|[->|[->|[->|[->|[]]]]]]]; cbn [completable]; [| done..| | done |].
  - intros ps. apply Hone. int_bounds. lia.
  - intros ps. apply Hone. int_bounds. lia.
  - intros ps Hps. cbn in Hps. apply Forall2_nil_inv_l in Hps as ->.
    repeat split; try concrete_side. by exists 16%nat.
Qed.

Lemma one_claim_wins_witness :
  map is_ok (contend_all s_cfg 5 s_bucket s_key s_upload s_contenders s_parted).1 = [true; false; false; false; false; false] /\
  (length (List.filter is_ok (contend_all s_cfg 5 s_bucket s_key s_upload s_contenders s_parted).1) <= 1)%nat.
Proof.
  split; [vm_compute; reflexivity|].
  apply (one_claim_wins s_cfg 5 s_bucket s_key s_upload s_contenders s_parted _ eq_refl s_parted_inv).
  apply Forall_forall. exact s_completable.
Defined.

Lemma abort_settles_witness :
  exists n w', abort_upload s_cfg 5 s_bucket s_key s_upload s_parted = (Ok n, w') /\
    winv s_cfg w' (fun _ => 0%nat) /\ n = RunEnded (Some 1%nat) /\ rc_of (kv (w_shared w')) (s_id (str "hello")) = 0.
Proof.
  pose proof (abort_settles s_cfg 5 s_bucket s_key s_upload s_bucket s_key (str "u2") s_parted _
    ltac:(apply s_keyable; simpl; lia) ltac:(apply s_keyable; simpl; lia) ltac:(intros [=]) s_parted_inv) as Hx.
  run_ok Hx n w' E. exists n, w'. destruct Hx as [Hinv _]. split; [exact E|]. split; [exact Hinv|]. split.
  - apply (run_val (fun p => match p.1 with Ok n => n | Err _ => RunGoing 0 end) _ _ _ E). vm_compute. reflexivity.
  - apply (run_val (fun p => rc_of (kv (w_shared p.2)) (s_id (str "hello"))) _ _ _ E). vm_compute. reflexivity.
Defined.

Lemma s_record : kv (w_shared s_parted) !! (UPLOADS_TREE, upload_key s_bucket s_key s_upload)
  = Some (UploadRecord_to_vec (UploadRecord_new 100 s_bucket s_key s_upload)).
Proof. vm_compute. reflexivity. Qed.

(** Every row of the sample upload is filed where it belongs. *)
Definition s_row_filed (k : tree * bytes) (raw : bytes) : bool :=
  match UploadRecord_try_from raw with
  | Ok r => bool_decide (k.2 = record_key r) &&
      (length (ur_bucket r) + length (ur_key r) + length (ur_upload_id r) <? 1000)%nat
  | Err _ => true
  end &&
  match MultiPart_try_from raw with
  | Ok p => bool_decide (mp_bucket p = s_bucket /\ mp_key p = s_key /\ mp_upload_id p = s_upload)
  | Err _ => true
  end.

Lemma s_parted_rows k raw : kv (w_shared s_parted) !! k = Some raw -> s_row_filed k raw = true.
Proof.
  assert (map_Forall (fun k raw => s_row_filed k raw = true) (kv (w_shared s_parted))) as Hall.
  { eapply (bool_decide_unpack (map_Forall (fun k raw => s_row_filed k raw = true) (kv (w_shared s_parted)))).
    vm_compute. exact I. }
  intros Hk. exact (Hall _ _ Hk).
Qed.

Lemma s_parted_uploads : uploads_filed (kv (w_shared s_parted)).
Proof.
  intros key r (raw & Hraw & Hr). apply s_parted_rows in Hraw. unfold s_row_filed in Hraw. rewrite Hr in Hraw.
  apply andb_prop in Hraw as [Hraw _]. apply andb_prop in Hraw as [Hk Hl]. apply bool_decide_eq_true in Hk. apply Nat.ltb_lt in Hl.
  split; [exact Hk|]. by apply s_keyable.
Qed.

Lemma s_parted_parts : parts_filed s_bucket s_key s_upload (kv (w_shared s_parted)).
Proof.
  intros n p (raw & Hraw & Hp). pose proof Hraw as Hf. apply s_parted_rows in Hf.
  unfold s_row_filed in Hf. rewrite Hp in Hf. apply andb_prop in Hf as [_ Hf].
  by apply bool_decide_eq_true in Hf.
Qed.

Lemma sweep_spares_live_uploads_witness :
  exists stats w', sweep_stale_uploads s_cfg 5 1000 900 s_parted = (Ok stats, w') /\
    upload_kept s_bucket s_key s_upload (kv (w_shared s_parted)) (kv (w_shared w')) /\ stats = RunEnded no_stats.
Proof.
  pose proof (sweep_spares_live_uploads s_cfg 5 1000 900 s_bucket s_key s_upload s_parted _ s_parted_inv
    s_parted_uploads ltac:(apply s_keyable; simpl; lia) s_parted_parts) as Hx.
  specialize (Hx ltac:(vm_compute; lia) ltac:(vm_compute; discriminate)).
  specialize (Hx ltac:(exists (UploadRecord_new 100 s_bucket s_key s_upload); split;
    [eexists; split; [exact s_record|vm_compute; reflexivity]|vm_compute; discriminate])).
  run_ok Hx stats w' E. exists stats, w'. destruct Hx as (_ & _ & Hx). split; [exact E|]. split; [exact Hx|].
  apply (run_val (fun p => match p.1 with Ok st => st | Err _ => RunGoing 0 end) _ _ _ E).
  vm_compute. reflexivity.
Defined.

Lemma sweep_reclaims_orphans_witness :
  exists stats w', sweep_orphan_parts s_cfg 5 no_stats s_orphaned = (Ok (RunEnded stats), w') /\
    (forall key p, part_at (kv (w_shared w')) key p -> ~ orphan (kv (w_shared w')) p) /\
    orphan_parts_reaped stats = 1.
Proof.
  pose proof (sweep_reclaims_orphans s_cfg 5 no_stats s_orphaned _ s_orphaned_inv) as Hx.
  specialize (Hx ltac:(split; vm_compute; discriminate) ltac:(lia)).
  run_ok Hx run w' E.
  assert (run = RunEnded (mkSweepStats 0 1 0)) as ->.
  { apply (run_val (fun p => match p.1 with Ok st => st | Err _ => RunGoing 0 end) _ _ _ E).
    vm_compute. reflexivity. }
  exists (mkSweepStats 0 1 0), w'. destruct Hx as (_ & _ & Hx). split; [exact E|]. split; [|reflexivity].
  apply Hx. reflexivity.
Defined.

(** The age phase is strict: with the cutoff at the second of the upload's
    creation the sweep keeps it, and one second later it aborts it. *)
Lemma upload_at_the_cutoff_stays :
  upload_at (kv (w_shared s_parted)) (upload_key s_bucket s_key s_upload) (UploadRecord_new 100 s_bucket s_key s_upload) /\
  (sweep_stale_uploads s_cfg 5 1000 900 s_parted).1 = Ok (RunEnded no_stats) /\
  (sweep_stale_uploads s_cfg 5 1001 900 s_parted).1 = Ok (RunEnded (mkSweepStats 1 0 0)).
Proof.
  split; [eexists; split; [exact s_record|vm_compute; reflexivity]|]. split; vm_compute; reflexivity.
Qed.
