(* ===== verification/GroupProps.v ===== *)
(** What the commit station guarantees (cas/group_commit.rs): the claims about
    closing a group and about the order in which batches are served, each with
    an evaluation.  The specifications are in GroupSpecs.v. *)

From S2P Require Import Prelude Bytes Externals BlockIds Codec Records StoreHeader MetaStore Disk Placement RealDisk Fjall MetaOps Accounting Engine BatchSpecs WriteSpecs ObjectSpecs GroupCommit GroupSpecs Sample EngineProps.
From Stdlib Require Import Strings.Byte.
Local Open Scope Z_scope.

Section Claims.
Context {S T D : Type} `{StoreLaws S T, DiskLaws D, Blake3Laws, Md5, FasterHexLaws}.
Implicit Types w : World S D.

(** C14: A group commit answers every member, and every member told "stored"
    holds its references.  Whatever disk and database calls fail, and whichever
    members name the same blocks, the group returns one outcome per member and
    does not panic; the references of the members told "stored" are counted on
    top of everybody else's, and each of their blocks has a usable record.  As
    long as the shared transaction did not fail the counts are exact; when it
    did, the members were replayed one by one and what is counted beyond the
    stored members' references is at most twice what the group named.  The
    namespace is not touched. *)
Theorem group_commit_exact cfg len_of members stats w F :
  let refs := map batch_refs members in
  well_placed cfg ->
  Forall (group_entry cfg len_of (wfiles w) (wnonce w)) (concat members) ->
  NoDup (temp_paths (concat members)) ->
  sizes_ok len_of (kv (w_shared w)) (map be_id (concat members)) ->
  0 <= wnonce w -> wnonce w + Z.of_nat (length (concat members)) <= u64_max ->
  (forall i, BlockId_wf i -> rc_of (kv (w_shared w)) i + 2 * Z.of_nat (occ i (concat refs)) <= usize_max) ->
  winv cfg w F ->
  let '((outcomes, stats'), w') := commit_group cfg members stats w in
  let stored := committed_refs refs outcomes in
  let counted_stats := record_group stats (Z.of_nat (length members)) in
  length outcomes = length members /\ kv (w_ns w') = kv (w_ns w) /\
  Forall (fun r : result EngErr FlushOutcome => match r with Ok _ => True | Err e => no_panic e end) outcomes /\
  winv cfg w' (add_refs F stored) /\
  (forall k es o e, members !! k = Some es -> outcomes !! k = Some (Ok o) -> e ∈ es ->
     live_at (kv (w_shared w')) (be_id e) = true) /\
  exists extra, (forall i, BlockId_wf i -> rc_of (kv (w_shared w')) i
      = rc_of (kv (w_shared w)) i + Z.of_nat (occ i stored + occ i extra)) /\
    ((stats' = counted_stats /\ extra = []) \/
     (stats' = record_degraded counted_stats /\
      forall i, (occ i stored + occ i extra <= 2 * occ i (concat refs))%nat)).
Proof.
  intros refs Hcfg Hes Hnd Hsz Hn0 Hn Hroom Hinv. unfold refs in *. clear refs. unfold commit_group.
  set (st := record_group stats (Z.of_nat (length members))).
  assert (wp (close_group cfg members st) w (group_result cfg members st F w)) as Hc.
  { eapply (close_group_spec cfg Hcfg len_of); try done. intros i Hi. rewrite occ_app. specialize (Hroom i Hi). lia. }
  unfold wp in Hc. destruct (close_group cfg members st w) as [r w']. cbn [fst snd] in Hc.
  destruct Hc as (outs & stats' & extra & -> & (Hns & Hlen & Hall & Hi & l & (Hrc & Hlive & _) & Hl) & Hor).
  rewrite length_map in Hlen. split_and!; [done|done|done|done| |].
  - intros k es o e Hk Ho He. rewrite Forall_forall in Hes.
    destruct (Hes e) as [Hok _]. { apply list_elem_of_In, in_concat. exists es.
      split; apply list_elem_of_In; [by eapply list_elem_of_lookup_2|done]. }
    apply Hlive; [by eapply entry_ok_wf|]. right. apply occ_elem. rewrite Hl.
    assert (be_id e ∈ committed_refs (map batch_refs members) outs) as Hin%occ_pos; [|lia].
    eapply committed_elem; [by rewrite list_lookup_fmap, Hk|done|]. apply elem_of_batch_refs; [done|apply Hok].
  - exists extra. split; [|done]. intros i Hwf. rewrite Hrc, Hl by done. done.
Qed.
End Claims.

(** The station serves batches first come, first served, and loses none:
    whatever the interleaving of submissions and turns and whatever each
    window lets in, the groups formed so far followed by what still waits is
    the list of the batches in the order they were handed over; every group is
    led by its oldest batch and exceeds the cap only when that batch alone
    does. *)
Theorem station_serves_in_order {A} (size : A -> nat) cap events (s : Station) :
  let '(groups, s') := run_events size cap s events in
  concat groups ++ waiting s' = waiting s ++ submitted events /\ Forall (within_cap size cap) groups.
Proof. apply run_events_spec. Qed.

(** No batch waits forever: after as many turns as batches wait, whatever
    the windows, all of them have been committed, in order. *)
Theorem station_drains {A} (size : A -> nat) cap (s : Station) windows :
  (length (waiting s) <= length windows)%nat ->
  let '(groups, s') := run_events size cap s (map Turn windows) in
  waiting s' = [] /\ concat groups = waiting s.
Proof.
  intros Hl. pose proof (run_turns_drain size cap windows s Hl) as Hd.
  pose proof (run_events_spec size cap (map Turn windows) s) as Hr. destruct (run_events size cap s (map Turn windows)) as [gs s'].
  simpl in Hd. destruct Hr as [Hr _]. rewrite Hd, app_nil_r in Hr. split; [done|]. rewrite Hr.
  assert (submitted (map (@Turn A) windows) = []) as ->; [|by rewrite app_nil_r].
  clear. induction windows; [done|]. exact IHwindows.
Qed.

Lemma station_drains_witness :
  let s := mkStation (Some 3%nat) [2; 2; 5; 1; 1]%nat in
  (length (waiting s) <= 6)%nat /\
  let '(groups, s') := run_events (fun n => n) 4 s (map Turn [0; 0; 1; 0; 0; 0]%nat) in
  waiting s' = [] /\ concat groups = [3; 2; 2; 5; 1; 1]%nat.
Proof.
  intros s. split; [simpl; lia|].
  exact (station_drains (fun n => n) 4 s [0; 0; 1; 0; 0; 0]%nat ltac:(simpl; lia)).
Defined.

(** Two requests staged the same new block, and a third one kept the bytes of
    a block it had found recorded. *)
Import Concrete MemFjall.

Definition g_stage (w : SampleWorld) : StagedBlock * SampleWorld :=
  match resolve_chunk s_cfg (s_id (str "hello")) (str "hello") w with
  | (Ok (Staged b), w') => (b, w')
  | (_, w') => (mkStagedBlock 0 [] [] [], w')
  end.
Definition g_world : SampleWorld := (g_stage (g_stage s_world).2).2.
Definition g_entry (p : Payload) : BatchEntry := new_entry (s_id (str "hello")) 5 p.
Definition g_members : list (list BatchEntry) :=
  [[g_entry (Staged (g_stage s_world).1)]; [g_entry (Staged (g_stage (g_stage s_world).2).1)];
   [g_entry (Deduped (str "hello"))]].

Lemma g_entry_staged b k :
  is_u8 (sb_depth b) -> final_path b = block_disk_path (s_id (str "hello")) (sb_depth b) (blocks_root s_cfg) ->
  0 <= k < wnonce g_world -> temp_path b = temp_name (aw_tmp (cfg_writer s_cfg)) (to_hex (s_id (str "hello"))) k ->
  wfiles g_world !! temp_path b = Some (str "hello") ->
  group_entry s_cfg (fun _ => 5) (wfiles g_world) (wnonce g_world) (g_entry (Staged b)).
Proof.
  intros Hu Hf Hk Ht Hd. split; [|done]. split; [simpl; lia|]. split; [split; vm_compute; discriminate|].
  split; [|by exists (str "hello")]. split; [done|]. split; [done|]. split; [done|]. by exists k.
Qed.

Lemma g_entries : Forall (group_entry s_cfg (fun _ => 5) (wfiles g_world) (wnonce g_world)) (concat g_members).
Proof.
  apply Forall_cons; split; [apply (g_entry_staged _ 0)|apply Forall_cons; split; [apply (g_entry_staged _ 1)|]];
    [(by vm_compute) || (split; vm_compute; discriminate) || (vm_compute; split; [discriminate|reflexivity])..|].
  apply Forall_singleton. split; [|done].
  split; [simpl; lia|]. split; [split; vm_compute; discriminate|]. split; [done|]. by exists (str "hello").
Qed.

Lemma g_inv : winv s_cfg g_world (fun _ => 0%nat).
Proof.
  assert (kv (w_ns g_world) = ∅ /\ kv (w_shared g_world) = ∅) as [Hn Hs] by (split; vm_compute; reflexivity).
  unfold winv. rewrite Hn, Hs. eapply (inv_disk _ _ _ _ ∅); [done|]. by apply inv_empty.
Qed.

Lemma group_commit_exact_witness :
  exists outs stats w', commit_group s_cfg g_members (mkStationStats 0 0 0 0) g_world = ((outs, stats), w') /\
    length outs = 3%nat /\ rc_of (kv (w_shared w')) (s_id (str "hello")) = 3 /\ gs_largest stats = 3.
Proof.
  assert (kv (w_shared g_world) = ∅) as Hs by (vm_compute; reflexivity).
  pose proof (group_commit_exact s_cfg (fun _ => 5) g_members (mkStationStats 0 0 0 0) g_world (fun _ => 0%nat)
    eq_refl g_entries ltac:(apply (bool_decide_unpack _); vm_compute; exact I)
    ltac:(rewrite Hs; intros i b _ Hb; discriminate)
    ltac:(vm_compute; discriminate) ltac:(vm_compute; discriminate)) as Hx.
  destruct (commit_group s_cfg g_members (mkStationStats 0 0 0 0) g_world) as [[outs stats] w'] eqn:E.
  assert (outs = (commit_group s_cfg g_members (mkStationStats 0 0 0 0) g_world).1.1) as Eo by (by rewrite E).
  assert (stats = mkStationStats 1 3 3 0) as Est.
  { transitivity (commit_group s_cfg g_members (mkStationStats 0 0 0 0) g_world).1.2; [by rewrite E|vm_compute; reflexivity]. }
  destruct Hx as (Hlen & _ & _ & _ & _ & extra & Hrc & Hor).
  { intros i _. rewrite Hs. pose proof (occ_length i (concat (map batch_refs g_members))) as Ho.
    change (length (concat (map batch_refs g_members))) with 3%nat in Ho.
    change (rc_of ∅ i) with 0. unfold usize_max. lia. }
  { apply g_inv. }
  exists outs, stats, w'. split; [done|]. split; [exact Hlen|]. split; [|by rewrite Est].
  rewrite Hrc by apply hash_block_wf. destruct Hor as [[_ ->]|[Hd _]]; [|by rewrite Est in Hd].
  rewrite Eo, Hs. vm_compute. reflexivity.
Defined.
