(* ===== verification/Report.v ===== *)
(** What a scrub reports (scrub/findings.rs, scrub/report.rs): finding
    classes with their severities, findings, and the report that orders them,
    counts them and derives the exit code; and the [Display] renderings of the
    errors a finding quotes (metastore/errors.rs, metastore/store_header.rs).

    Text is rendered byte for byte.  [from_utf8_lossy] and hexadecimal are the
    parameters of Commands.v and Externals.v. *)

From S2P Require Import Prelude Bytes Orders Externals BlockIds Codec Records StoreHeader MetaStore Disk Commands.
From stdpp Require Import pretty.
From Stdlib Require Import Strings.Byte.
Local Open Scope Z_scope.

(* ------------------------------------------------------------------ *)
(** * Text *)

(** [{n}] of an integer. *)
Definition dec (n : Z) : bytes := str (pretty n).

(** [parts.join(sep)] *)
Fixpoint join (sep : bytes) (parts : list bytes) : bytes :=
  match parts with
  | [] => []
  | [p] => p
  | p :: parts' => p ++ sep ++ join sep parts'
  end.

(** [path.display()] and [path.to_string_lossy()]. *)
Definition path_text `{Unicode} (p : path) : bytes := from_utf8_lossy (join (str "/") p).

(** [{:02x}] of a byte. *)
Definition lower_digit (n : Z) : byte := byte_of_Z (if n <? 10 then 0x30 + n else 0x61 + (n - 10)).
Definition hex_byte (b : byte) : bytes := [lower_digit (byte_to_Z b / 16); lower_digit (byte_to_Z b mod 16)].

(** [faster_hex] spells each byte with two lowercase digits, high one first. *)
Class FasterHexSpelling `{FasterHex} : Prop :=
  hex_string_spelled d : hex_string d = concat (map hex_byte d).

Section Errors.
Context `{FasterHex, Unicode}.

Definition FsError_fmt (e : FsError) : bytes :=
  match e with
  | Truncated record needed got =>
      str "Cas FS error: truncated " ++ str record ++ str " record: need at least " ++ dec needed ++
      str " bytes, got " ++ dec got
  | TrailingBytes record extra =>
      str "Cas FS error: " ++ str record ++ str " record has " ++ dec extra ++ str " trailing bytes"
  | InvalidUtf8 record field =>
      str "Cas FS error: " ++ str record ++ str " record field " ++ str field ++ str " is not valid UTF-8"
  | UnknownObjectType t => str "Cas FS error: unknown object type " ++ dec t
  | InvalidIdWidth w => str "Cas FS error: invalid block id width " ++ dec w
  | LengthOverflow record field =>
      str "Cas FS error: " ++ str record ++ str " record field " ++ str field ++ str " does not fit in usize"
  end.

Definition HasherError_fmt (e : HasherError) : bytes :=
  match e with
  | UnknownAlgo algo => str "unknown block hash algorithm id " ++ dec algo
  | UnsupportedWidth width => str "unsupported block hash width " ++ dec width
  end.

Definition hex4 (bs : bytes) : bytes := str "0x" ++ concat (map hex_byte bs).

Definition printable4 (bs : bytes) : bytes :=
  map (fun b => if in_range 0x20 0x7E b then b else Byte.x2e) bs.

Definition quote : bytes := [Byte.x22].

Definition StoreHeaderError_fmt (e : StoreHeaderError) : bytes :=
  match e with
  | HeaderMissing =>
      str "store predates the QSST format; no migration exists (expected a " ++ STORE_HEADER_TREE ++ str " record)"
  | BadMagic found =>
      str "not a QSST store: header magic is " ++ hex4 found ++ str " (" ++ quote ++ printable4 found ++ quote ++
      str "), expected " ++ quote ++ str "QSST" ++ quote
  | UnsupportedVersion version =>
      str "unsupported QSST store format version " ++ dec version ++ str "; this build supports " ++
      join (str ", ") (map dec SUPPORTED_STORE_HEADER_VERSIONS)
  | Malformed e => str "malformed QSST store header: " ++ FsError_fmt e
  | HashError e => str "store header names a hash this build cannot use: " ++ HasherError_fmt e
  end.

Definition StorePairingMismatch_fmt (m : StorePairingMismatch) : bytes :=
  str "store pairing mismatch: the blocks database at " ++ path_text (spm_db_path m) ++
  str " belongs to store " ++ StoreId_to_hex (spm_header_id m) ++ str ", but the blocks root at " ++
  path_text (spm_blocks_root m) ++ str " is marked as store " ++ StoreId_to_hex (spm_marker_id m) ++
  str " -- refusing to open a mispaired store. Check --meta-root and --fs-root; if this pairing really is the right one, make it official with qss-storage-fsck --re-pair --meta-root <meta> --fs-root <fs>".

Definition MetaError_fmt (e : MetaError) : bytes :=
  match e with
  | KeyNotFound => str "Key not found"
  | KeyAlreadyExists => str "Key already exists"
  | CollectionNotFound => str "Collection not found"
  | BucketNotFound => str "Bucket not found"
  | InsertError s => str "Insert error: " ++ str s
  | RemoveError s => str "Remove error: " ++ str s
  | NotMetaTree s => str "Not a meta tree: " ++ str s
  | TransactionError s => str "Transaction error: " ++ str s
  | PersistError s => str "Persist error: " ++ str s
  | BlockNotFound => str "Block not found"
  | OtherDBError s => str "Other DB error: " ++ str s
  | Corruption e => str "Corrupt record: " ++ FsError_fmt e
  | Header p source => str "cannot open metadata store at " ++ path_text p ++ str ": " ++ StoreHeaderError_fmt source
  | StorePairing m => StorePairingMismatch_fmt m
  | ReservedBucketName name =>
      str "bucket name " ++ quote ++ name ++ quote ++
      str " is reserved: names starting with '_' belong to the store's internal trees"
  | StoreLocked p =>
      str "store at " ++ path_text p ++ str " is locked by another process (is the daemon running?)"
  end.

(** [io::Error]'s rendering is the operating system's message. *)
Definition IoError_fmt (e : IoError) : bytes := str (io_msg e).
End Errors.

(* ------------------------------------------------------------------ *)
(** * Findings *)

Inductive Severity : Type := Info | Warn | Critical.

#[global] Instance Severity_eq_dec : EqDecision Severity.
Proof. solve_decision. Defined.

(** The derived order: declaration order. *)
Definition severity_rank (s : Severity) : Z := match s with Info => 0 | Warn => 1 | Critical => 2 end.

Inductive FindingClass : Type :=
| RefcountOverCount
| RefcountUnderCount
| MissingBlockRecord
| UndecodableBlockRecord
| OrphanFile
| OffDepthFile
| ForeignFile
| SizeMismatch
| DanglingRecord
| AdoptableDanglingRecord
| DegradedRecord
| CorruptBlock
| HalfDeletedBucket
| MultipartUpload
| OrphanPart
| HolderEnumerationFailed
| PostRepairRecountDirty.

#[global] Instance FindingClass_eq_dec : EqDecision FindingClass.
Proof. solve_decision. Defined.

Definition class_str (c : FindingClass) : bytes :=
  match c with
  | RefcountOverCount => str "refcount_over_count"
  | RefcountUnderCount => str "refcount_under_count"
  | MissingBlockRecord => str "missing_block_record"
  | UndecodableBlockRecord => str "undecodable_block_record"
  | OrphanFile => str "orphan_file"
  | OffDepthFile => str "off_depth_file"
  | ForeignFile => str "foreign_file"
  | SizeMismatch => str "size_mismatch"
  | DanglingRecord => str "dangling_record"
  | AdoptableDanglingRecord => str "adoptable_dangling_record"
  | DegradedRecord => str "degraded_record"
  | CorruptBlock => str "corrupt_block"
  | HalfDeletedBucket => str "half_deleted_bucket"
  | MultipartUpload => str "multipart_upload"
  | OrphanPart => str "orphan_part"
  | HolderEnumerationFailed => str "holder_enumeration_failed"
  | PostRepairRecountDirty => str "post_repair_recount_dirty"
  end.

(** [FindingClass::ALL], in declaration order. *)
Definition ALL_CLASSES : list FindingClass :=
  [RefcountOverCount; RefcountUnderCount; MissingBlockRecord; UndecodableBlockRecord; OrphanFile;
   OffDepthFile; ForeignFile; SizeMismatch; DanglingRecord; AdoptableDanglingRecord; DegradedRecord;
   CorruptBlock; HalfDeletedBucket; MultipartUpload; OrphanPart; HolderEnumerationFailed;
   PostRepairRecountDirty].

(** The derived [Ord]: the position in the declaration. *)
Definition class_index (c : FindingClass) : Z :=
  match list_find (fun d => d = c) ALL_CLASSES with Some (n, _) => Z.of_nat n | None => 0 end.

Definition default_severity (c : FindingClass) : Severity :=
  match c with
  | RefcountOverCount | OrphanFile | OffDepthFile | AdoptableDanglingRecord | DegradedRecord
  | MultipartUpload | OrphanPart => Info
  | ForeignFile | HalfDeletedBucket => Warn
  | RefcountUnderCount | MissingBlockRecord | UndecodableBlockRecord | SizeMismatch | DanglingRecord
  | CorruptBlock | HolderEnumerationFailed | PostRepairRecountDirty => Critical
  end.

Inductive HolderRef : Type :=
| ObjectRef (bucket key : bytes)
| PartRef (bucket key upload_id : bytes) (part_number : Z).

Definition HolderRef_fmt (h : HolderRef) : bytes :=
  match h with
  | ObjectRef bucket key => str "object " ++ bucket ++ str "/" ++ key
  | PartRef bucket key upload_id part_number =>
      str "part " ++ dec part_number ++ str " of upload " ++ upload_id ++
      str " (" ++ bucket ++ str "/" ++ key ++ str ")"
  end.

Record Finding : Type := mkFinding {
  fi_severity : Severity;
  fi_class : FindingClass;
  fi_block : option bytes;
  fi_path : option bytes;
  fi_evidence : bytes;
  fi_holders : list HolderRef
}.

(** [char::is_control] of text in UTF-8: C0, DEL and C1. *)
Fixpoint has_control (s : bytes) : bool :=
  match s with
  | [] => false
  | b :: s' =>
      in_range 0x00 0x1F b || in_range 0x7F 0x7F b ||
      (in_range 0xC2 0xC2 b && match s' with c :: _ => in_range 0x80 0x9F c | [] => false end) ||
      has_control s'
  end.

Section Findings.
Context `{FasterHex, Unicode}.

Definition Finding_new (class : FindingClass) (evidence : bytes) : Finding :=
  mkFinding (default_severity class) class None None evidence [].

Definition with_block (id : BlockId) (f : Finding) : Finding :=
  mkFinding (fi_severity f) (fi_class f) (Some (to_hex id)) (fi_path f) (fi_evidence f) (fi_holders f).

Definition with_path (p : path) (f : Finding) : Finding :=
  mkFinding (fi_severity f) (fi_class f) (fi_block f) (Some (path_text p)) (fi_evidence f) (fi_holders f).

Definition render_storage_key (key : bytes) : bytes :=
  if utf8_valid key && negb (has_control key) then key else hex_string key.

Definition with_storage_key (key : bytes) (f : Finding) : Finding :=
  mkFinding (fi_severity f) (fi_class f) (fi_block f) (Some (render_storage_key key)) (fi_evidence f) (fi_holders f).

Definition with_holders (holders : list HolderRef) (f : Finding) : Finding :=
  mkFinding (fi_severity f) (fi_class f) (fi_block f) (fi_path f) (fi_evidence f) holders.

(** [finding.evidence.push_str(..)] *)
Definition with_evidence (more : bytes) (f : Finding) : Finding :=
  mkFinding (fi_severity f) (fi_class f) (fi_block f) (fi_path f) (fi_evidence f ++ more) (fi_holders f).
End Findings.

(* ------------------------------------------------------------------ *)
(** * Reports *)

Definition REPORT_VERSION : Z := 1.

Definition EXIT_CLEAN : Z := 0.
Definition EXIT_WARN : Z := 1.
Definition EXIT_CRITICAL : Z := 2.
Definition EXIT_COULD_NOT_RUN : Z := 3.

Inductive Pass : Type :=
| Recount | DiskSweep | DanglingSweep | CorruptionScrub | MultipartReport | BucketIntegrity.

#[global] Instance Pass_eq_dec : EqDecision Pass.
Proof. solve_decision. Defined.

Definition pass_str (p : Pass) : bytes :=
  match p with
  | Recount => str "recount"
  | DiskSweep => str "disk_sweep"
  | DanglingSweep => str "dangling_sweep"
  | CorruptionScrub => str "corruption_scrub"
  | MultipartReport => str "multipart_report"
  | BucketIntegrity => str "bucket_integrity"
  end.

Record StoreRef : Type := mkStoreRef { sr_blocks_root : bytes; sr_meta_root : option bytes }.

Record Summary : Type := mkSummary { su_info : nat; su_warn : nat; su_critical : nat; su_total : nat }.

Record Report : Type := mkReport {
  rp_version : Z;
  rp_store : StoreRef;
  rp_passes_run : list Pass;
  rp_findings : list Finding;
  rp_summary : Summary;
  rp_exit_code : Z
}.

(** The closure of [findings.sort_by]. *)
Definition Finding_cmp (a b : Finding) : comparison :=
  then_with (Z.compare (severity_rank (fi_severity b)) (severity_rank (fi_severity a)))
  (then_with (Z.compare (class_index (fi_class a)) (class_index (fi_class b)))
  (then_with (option_cmp bytes_cmp (fi_block a) (fi_block b))
  (then_with (option_cmp bytes_cmp (fi_path a) (fi_path b))
             (bytes_cmp (fi_evidence a) (fi_evidence b))))).

Definition count_finding (su : Summary) (f : Finding) : Summary :=
  match fi_severity f with
  | Info => mkSummary (S (su_info su)) (su_warn su) (su_critical su) (S (su_total su))
  | Warn => mkSummary (su_info su) (S (su_warn su)) (su_critical su) (S (su_total su))
  | Critical => mkSummary (su_info su) (su_warn su) (S (su_critical su)) (S (su_total su))
  end.

Definition exit_code_of (su : Summary) : Z :=
  if (0 <? su_critical su)%nat then EXIT_CRITICAL
  else if (0 <? su_warn su)%nat then EXIT_WARN else EXIT_CLEAN.

Definition Report_new (store : StoreRef) (passes_run : list Pass) (findings : list Finding) : Report :=
  let findings := sort_by Finding_cmp findings in
  let summary := fold_left count_finding findings (mkSummary 0 0 0 0) in
  mkReport REPORT_VERSION store passes_run findings summary (exit_code_of summary).

Definition ran (r : Report) (p : Pass) : bool := bool_decide (p ∈ rp_passes_run r).

Definition severity_text (s : Severity) : bytes :=
  match s with Info => str "INFO" | Warn => str "WARN" | Critical => str "CRITICAL" end.

Definition newline : bytes := [Byte.x0a].

Definition render_finding (f : Finding) : bytes :=
  severity_text (fi_severity f) ++ str " " ++ class_str (fi_class f) ++
  match fi_block f with Some block => str " block=" ++ block | None => [] end ++ newline ++
  match fi_path f with Some p => str "    path: " ++ p ++ newline | None => [] end ++
  str "    " ++ fi_evidence f ++ newline ++
  concat (map (fun h => str "    holder: " ++ HolderRef_fmt h ++ newline) (fi_holders f)) ++ newline.

Definition render_text (r : Report) : bytes :=
  str "qss-storage fsck report (v" ++ dec (rp_version r) ++ str ")" ++ newline ++
  str "store: " ++ sr_blocks_root (rp_store r) ++ newline ++
  match sr_meta_root (rp_store r) with Some m => str "meta:  " ++ m ++ newline | None => [] end ++
  str "passes: " ++ join (str ", ") (map pass_str (rp_passes_run r)) ++ newline ++ newline ++
  (if bool_decide (rp_findings r = []) then str "no findings" ++ newline ++ newline else []) ++
  concat (map render_finding (rp_findings r)) ++
  dec (Z.of_nat (su_critical (rp_summary r))) ++ str " critical, " ++
  dec (Z.of_nat (su_warn (rp_summary r))) ++ str " warn, " ++
  dec (Z.of_nat (su_info (rp_summary r))) ++ str " info (" ++
  dec (Z.of_nat (su_total (rp_summary r))) ++ str " finding(s)); exit " ++ dec (rp_exit_code r) ++ newline.

(* ------------------------------------------------------------------ *)
(** * Lemmas *)

Lemma all_classes_complete c : c ∈ ALL_CLASSES.
Proof. destruct c; apply (bool_decide_unpack _); vm_compute; exact I. Qed.

(** A rendering that tells the listed classes apart is injective. *)
Lemma class_rendering_inj {B} `{EqDecision B} (f : FindingClass -> B) :
  NoDup (map f ALL_CLASSES) -> forall c d, f c = f d -> c = d.
Proof.
  intros Hnd c d E.
  destruct (list_elem_of_lookup_1 _ _ (all_classes_complete c)) as [n Hn].
  destruct (list_elem_of_lookup_1 _ _ (all_classes_complete d)) as [m Hm].
  assert (n = m) as ->; [|congruence].
  eapply NoDup_lookup; [exact Hnd|..]; rewrite list_lookup_fmap; [by rewrite Hn|by rewrite Hm, E].
Qed.

Lemma class_index_inj c d : class_index c = class_index d -> c = d.
Proof. apply class_rendering_inj. apply (bool_decide_unpack _). vm_compute. exact I. Qed.

Lemma class_str_inj c d : class_str c = class_str d -> c = d.
Proof. apply class_rendering_inj. apply (bool_decide_unpack _). vm_compute. exact I. Qed.

Lemma severity_rank_inj s t : severity_rank s = severity_rank t -> s = t.
Proof. destruct s; destruct t; vm_compute; congruence. Qed.

(** The sort key: everything of a finding but its holders. *)
Definition finding_key (f : Finding) : Z * (Z * (option bytes * (option bytes * bytes))) :=
  (severity_rank (fi_severity f), (class_index (fi_class f), (fi_block f, (fi_path f, fi_evidence f)))).

Definition key_cmp := pair_cmp (rev_cmp Z.compare) (pair_cmp Z.compare
  (pair_cmp (option_cmp bytes_cmp) (pair_cmp (option_cmp bytes_cmp) bytes_cmp))).

#[global] Instance key_ordered : Ordered key_cmp.
Proof. apply pair_ordered; [apply rev_ordered|]; apply _. Qed.

Lemma Finding_cmp_key a b : Finding_cmp a b = key_cmp (finding_key a) (finding_key b).
Proof. done. Qed.

Lemma elem_of_report store passes findings f :
  f ∈ rp_findings (Report_new store passes findings) <-> f ∈ findings.
Proof. apply elem_of_sort_by. Qed.

(** How many findings of a list have a severity. *)
Definition severity_count (s : Severity) (l : list Finding) : nat :=
  length (filter (fun f => fi_severity f = s) l).

Lemma fold_count_finding l su :
  fold_left count_finding l su =
  mkSummary (su_info su + severity_count Info l) (su_warn su + severity_count Warn l)
    (su_critical su + severity_count Critical l) (su_total su + length l).
Proof.
  revert su. unfold severity_count. induction l as [|f l IH]; intros su; simpl.
  - rewrite !Nat.add_0_r. by destruct su.
  - rewrite IH. unfold count_finding. rewrite !filter_cons. 
    destruct (fi_severity f); simpl; rewrite ?Nat.add_succ_r; reflexivity.
Qed.

Lemma severity_count_perm s l l' : l ≡ₚ l' -> severity_count s l = severity_count s l'.
Proof. unfold severity_count. by intros ->. Qed.

Lemma severity_count_pos s l : (0 < severity_count s l)%nat <-> exists f, f ∈ l /\ fi_severity f = s.
Proof.
  unfold severity_count. split.
  - destruct (filter _ l) as [|f k] eqn:E; simpl; [lia|]. intros _.
    assert (f ∈ filter (fun f => fi_severity f = s) l) as Hf by (rewrite E; by left).
    apply list_elem_of_filter in Hf as [? ?]. eauto.
  - intros (f & Hf & Hs). assert (f ∈ filter (fun f => fi_severity f = s) l) as Hin by (by apply list_elem_of_filter).
    destruct (filter _ l); [by apply elem_of_nil in Hin|simpl; lia].
Qed.

Lemma report_summary store passes findings :
  rp_summary (Report_new store passes findings) =
  mkSummary (severity_count Info findings) (severity_count Warn findings)
    (severity_count Critical findings) (length findings).
Proof.
  unfold Report_new. cbn [rp_summary]. rewrite fold_count_finding. cbn [su_info su_warn su_critical su_total].
  rewrite !Nat.add_0_l. pose proof (sort_by_perm Finding_cmp findings) as Hp.
  by rewrite !(severity_count_perm _ _ _ Hp), Hp.
Qed.

Lemma report_exit store passes findings :
  rp_exit_code (Report_new store passes findings) =
  exit_code_of (mkSummary (severity_count Info findings) (severity_count Warn findings)
    (severity_count Critical findings) (length findings)).
Proof. rewrite <- (report_summary store passes). done. Qed.

(** The exit code is below CRITICAL exactly when no finding is. *)
Lemma report_not_critical store passes findings :
  rp_exit_code (Report_new store passes findings) <> EXIT_CRITICAL <->
  forall f, f ∈ findings -> fi_severity f <> Critical.
Proof.
  rewrite report_exit. unfold exit_code_of. cbn [su_critical su_warn].
  destruct (Nat.ltb_spec 0 (severity_count Critical findings)) as [Hc|Hc].
  - split; [done|]. intros Hf. apply severity_count_pos in Hc as (f & Hin & Hs). by destruct (Hf f Hin).
  - split; [|by intros _; destruct (0 <? _)%nat].
    intros _ f Hin Hs. assert (0 < severity_count Critical findings)%nat; [|lia].
    apply severity_count_pos. eauto.
Qed.

Lemma report_exit_codes l n :
  exit_code_of (mkSummary n (severity_count Warn l) (severity_count Critical l) (length l)) = EXIT_CRITICAL <->
  exists f, f ∈ l /\ fi_severity f = Critical.
Proof.
  rewrite <- severity_count_pos. unfold exit_code_of. cbn [su_critical su_warn].
  destruct (Nat.ltb_spec 0 (severity_count Critical l)); [done|].
  destruct (0 <? severity_count Warn l)%nat; (split; [done|lia]).
Qed.

Lemma report_exit_clean l n :
  exit_code_of (mkSummary n (severity_count Warn l) (severity_count Critical l) (length l)) = EXIT_CLEAN <->
  forall f, f ∈ l -> fi_severity f = Info.
Proof.
  unfold exit_code_of. cbn [su_critical su_warn].
  assert (forall s, ~ (0 < severity_count s l)%nat <-> forall f, f ∈ l -> fi_severity f <> s) as Hno.
  { intros s. rewrite severity_count_pos. split; [intros Hn f Hf Hs; apply Hn; eauto|intros Hn (f & Hf & Hs); by apply (Hn f)]. }
  destruct (Nat.ltb_spec 0 (severity_count Critical l)) as [Hc|Hc].
  { split; [done|]. intros Hi. apply severity_count_pos in Hc as (f & Hf & Hs). by rewrite Hi in Hs. }
  destruct (Nat.ltb_spec 0 (severity_count Warn l)) as [Hw|Hw].
  { split; [done|]. intros Hi. apply severity_count_pos in Hw as (f & Hf & Hs). by rewrite Hi in Hs. }
  split; [intros _ f Hf|done]. destruct (fi_severity f) eqn:Es; [done|..]; exfalso.
  - by apply (proj1 (Hno Warn) ltac:(lia) f Hf).
  - by apply (proj1 (Hno Critical) ltac:(lia) f Hf).
Qed.

(** The sort key puts the worst severities first. *)
Lemma key_severity f g : at_most (key_cmp (finding_key f) (finding_key g)) = true ->
  severity_rank (fi_severity g) <= severity_rank (fi_severity f).
Proof.
  unfold key_cmp, pair_cmp at 1, rev_cmp. cbn [fst finding_key].
  destruct (Z.compare_spec (severity_rank (fi_severity g)) (severity_rank (fi_severity f))); try lia. done.
Qed.

#[global] Instance concrete_hex_spelling : @FasterHexSpelling Concrete.hex.
Proof. intros d. induction d as [|b d IH]; simpl in *; [done|]. by rewrite IH. Qed.
