(* ===== verification/Scrub.v ===== *)
(** The offline scrub of a store (scrub.rs, scrub/records.rs,
    scrub/holders.rs, scrub/disk.rs, scrub/passes.rs,
    scrub/passes/multipart.rs, scrub/engine.rs): three walks (block records,
    holders, block files), the passes that compare them, and the report.

    The scrub only reads.  The calls it makes to [std::fs] beyond the block
    writer's are the class [ScrubFs]; the hash maps of the source are [gmap]s,
    and the order in which their entries are visited is the map's own. *)

From S2P Require Import Prelude Bytes Orders Externals BlockIds Codec Records StoreHeader MetaStore Disk Placement MetaOps Engine Commands Report.
From Stdlib Require Import Strings.Byte.
Local Open Scope Z_scope.
#[local] Set Warnings "-clear-no-such-hyp".

(* ------------------------------------------------------------------ *)
(** * The file system, as the scrub asks it *)

Inductive FileType : Type := IsFile | IsDir | IsOther.

(** [read_dir] with every entry's name, [DirEntry::file_type] (which does not
    follow links), [DirEntry::metadata().len()], [Path::exists] and
    [fs::canonicalize]. *)
Class ScrubFs (D : Type) := {
  read_dir : path -> M D IoError (list bytes);
  file_type : path -> M D IoError FileType;
  file_len : path -> M D IoError Z;
  path_exists : path -> D -> bool;
  canonicalize : path -> D -> option path
}.

(** Something of the tree lies strictly below [p]. *)
Definition below_path {A} (m : gmap path A) (p : path) : Prop :=
  exists n rest, is_Some (m !! (p ++ n :: rest)).

(** A listing names every entry that leads to a file, each once; a file type
    and a size are the truth; [is_file] of an existing file answers. *)
Class ScrubFsLaws (D : Type) `{DiskLaws D, !ScrubFs D} : Prop := {
  read_dir_spec p d : wp (read_dir p) d (fun r d' =>
    files d' = files d /\
    match r with
    | Ok names => NoDup names /\ forall n rest, is_Some (files d !! (p ++ n :: rest)) -> n ∈ names
    | Err _ => True
    end);
  file_type_spec p d : wp (file_type p) d (fun r d' =>
    files d' = files d /\
    match r with
    | Ok IsFile => is_Some (files d !! p)
    | Ok IsDir => files d !! p = None
    | Ok IsOther => files d !! p = None /\ ~ below_path (files d) p
    | Err _ => True
    end);
  file_len_spec p d : wp (file_len p) d (fun r d' =>
    files d' = files d /\
    match r with
    | Ok n => forall c, files d !! p = Some c -> n = Z.of_nat (length c)
    | Err _ => True
    end);
  path_exists_spec p d : path_exists p d = false -> files d !! p = None /\ ~ below_path (files d) p;
  is_file_complete p d : is_Some (files d !! p) -> is_file p d = true
}.

(** [map_err(f)?] on a call. *)
Definition m_map_err {S E E' A} (f : E -> E') (m : M S E A) : M S E' A := fun s =>
  let '(r, s') := m s in (map_err f r, s').

(** [match m { Ok(..) => .., Err(..) => .. }]: the result is inspected. *)
Definition attempt {S E E' A} (m : M S E A) : M S E' (result E A) := fun s =>
  let '(r, s') := m s in (Ok r, s').

(** [tree.iter_all()] folded: the next item is read, then visited; [fuel]
    bounds the number of items. *)
Fixpoint fold_tree {S T A E} `{Store S T} (fuel : nat) (store_err : MetaError -> E)
    (visit : bytes -> bytes -> A -> result E A) (t : tree) (cursor : option bytes) (acc : A) : M S E A :=
  match fuel with
  | O => mret acc
  | Datatypes.S fuel' =>
      item ← m_map_err store_err (tree_next t cursor);
      match item with
      | None => mret acc
      | Some (key, raw) =>
          acc ← M_lift (visit key raw acc);
          fold_tree fuel' store_err visit t (Some key) acc
      end
  end.

(* ------------------------------------------------------------------ *)
(** * Block records *)

Section Records.
Context {S T : Type} `{Store S T, FasterHex, Unicode}.

Record RecordWalk : Type := mkRecordWalk {
  rw_records : gmap BlockId Block;
  rw_findings : list Finding
}.

Definition visit_record (key raw : bytes) (walk : RecordWalk) : result MetaError RecordWalk :=
  match from_slice key with
  | Err e => Ok (mkRecordWalk (rw_records walk) (rw_findings walk ++
      [Finding_new UndecodableBlockRecord
        (str "block key " ++ hex_string key ++ str " is not an address of this store: " ++ FsError_fmt e)]))
  | Ok id =>
      match Block_try_from raw with
      | Ok block => Ok (mkRecordWalk (<[id := block]> (rw_records walk)) (rw_findings walk))
      | Err e => Ok (mkRecordWalk (rw_records walk) (rw_findings walk ++
          [with_block id (Finding_new UndecodableBlockRecord
            (str "block record does not decode: " ++ FsError_fmt e))]))
      end
  end.

Definition walk_records (fuel : nat) : M S MetaError RecordWalk :=
  fold_tree fuel id visit_record DEFAULT_BLOCK_TREE None (mkRecordWalk ∅ []).
End Records.

(* ------------------------------------------------------------------ *)
(** * Holders *)

Abbreviation ExpectedCounts := (gmap BlockId Z).

Inductive HolderEnumerationError : Type :=
| HolderStore (tree : option bytes) (source : MetaError)
| HolderUndecodable (tree key : bytes) (source : MetaError).

Inductive HolderRecord : Type :=
| HolderObject (tree key : bytes) (object : Object)
| HolderPart (part : MultiPart).

Definition holder_blocks (h : HolderRecord) : list BlockId :=
  match h with HolderObject _ _ object => o_blocks object | HolderPart part => mp_blocks part end.

Definition is_reserved (tree : bytes) : bool := starts_with (str "_") tree.

Section Holders.
Context {S T D : Type} `{Store S T, FasterHex, Unicode}.
Abbreviation SW := (World S D).

Definition HolderEnumerationError_fmt (e : HolderEnumerationError) : bytes :=
  match e with
  | HolderStore (Some t) source =>
      str "holder enumeration incomplete: tree " ++ t ++ str " could not be walked: " ++ MetaError_fmt source
  | HolderStore None source =>
      str "holder enumeration incomplete: the store would not list its trees: " ++ MetaError_fmt source
  | HolderUndecodable tree key source =>
      str "holder enumeration incomplete: record " ++ key ++ str " in tree " ++ tree ++
      str " does not decode: " ++ MetaError_fmt source
  end.

Definition holder_ref (h : HolderRecord) : HolderRef :=
  match h with
  | HolderObject tree key _ => ObjectRef tree (from_utf8_lossy key)
  | HolderPart part => PartRef (mp_bucket part) (mp_key part) (mp_upload_id part) (mp_part_number part)
  end.

Definition at_ns {E E' A} (f : E -> E') (m : M S E A) : M SW E' A := fun w =>
  let '(r, s') := m (w_ns w) in (map_err f r, mkWorld s' (w_shared w) (w_disk w) (w_counters w)).

Definition at_shared {E E' A} (f : E -> E') (m : M S E A) : M SW E' A := fun w =>
  let '(r, s') := m (w_shared w) in (map_err f r, mkWorld (w_ns w) s' (w_disk w) (w_counters w)).

Section Visit.
Context {A : Type} (visit : HolderRecord -> A -> A).

Definition visit_object (tree key raw : bytes) (acc : A) : result HolderEnumerationError A :=
  match Object_try_from raw with
  | Ok object => Ok (visit (HolderObject tree key object) acc)
  | Err e => Err (HolderUndecodable tree (from_utf8_lossy key) (Corruption e))
  end.

Definition visit_part (key raw : bytes) (acc : A) : result HolderEnumerationError A :=
  match MultiPart_try_from raw with
  | Ok part => Ok (visit (HolderPart part) acc)
  | Err e => Err (HolderUndecodable MULTIPART_PARTS_TREE (from_utf8_lossy key) (Corruption e))
  end.

(** One bucket tree. *)
Definition walk_tree (fuel : nat) (tree_name : bytes) (acc : A) : M S HolderEnumerationError A :=
  t ← m_map_err (HolderStore (Some tree_name)) (tree_open tree_name);
  fold_tree fuel (HolderStore (Some tree_name)) (visit_object tree_name) t None acc.

Fixpoint walk_trees (fuel : nat) (trees : list bytes) (acc : A) : M S HolderEnumerationError A :=
  match trees with
  | [] => mret acc
  | tree_name :: trees' => acc ← walk_tree fuel tree_name acc; walk_trees fuel trees' acc
  end.

Definition walk_holders (fuel : nat) (acc : A) : M SW HolderEnumerationError A :=
  trees ← at_ns (HolderStore None) list_trees;
  acc ← at_ns id (walk_trees fuel (filter (fun name => is_reserved name = false) trees) acc);
  parts ← at_shared (HolderStore (Some MULTIPART_PARTS_TREE)) (tree_open MULTIPART_PARTS_TREE);
  at_shared id (fold_tree fuel (HolderStore (Some MULTIPART_PARTS_TREE)) visit_part parts None acc).
End Visit.

(** [counts.entry(block).or_insert(0) += 1] *)
Definition count_block (counts : ExpectedCounts) (block : BlockId) : ExpectedCounts :=
  <[block := wrap_u64 (default 0 (counts !! block) + 1)]> counts.

Definition expected_counts (fuel : nat) : M SW HolderEnumerationError ExpectedCounts :=
  walk_holders (fun holder counts => fold_left count_block (holder_blocks holder) counts) fuel ∅.

(** The blocks of [blocks] a holder references, each once, in its order. *)
Definition hits (blocks : gset BlockId) (holder : HolderRecord) : list BlockId :=
  fold_left (fun hit block =>
    if decide (block ∈ blocks /\ block ∉ hit) then hit ++ [block] else hit) (holder_blocks holder) [].

Definition add_holder (h : HolderRef) (found : gmap BlockId (list HolderRef)) (block : BlockId) :=
  <[block := default [] (found !! block) ++ [h]]> found.

Definition holders_of (fuel : nat) (blocks : gset BlockId) :
    M SW HolderEnumerationError (gmap BlockId (list HolderRef)) :=
  if decide (blocks = ∅) then mret ∅
  else walk_holders (fun holder found =>
         fold_left (add_holder (holder_ref holder)) (hits blocks holder) found) fuel ∅.
End Holders.

(* ------------------------------------------------------------------ *)
(** * Block files *)

Record BlockFile : Type := mkBlockFile {
  bf_id : BlockId;
  bf_depth : Z;
  bf_size : Z;
  bf_path : path
}.

Record ForeignPath : Type := mkForeignPath { fp_path : path; fp_reason : bytes }.

Record DiskWalk : Type := mkDiskWalk {
  dw_files : list BlockFile;
  dw_foreign : list ForeignPath
}.

Definition lower_hex_digit (b : byte) : option Z :=
  let z := byte_to_Z b in
  if in_range 0x30 0x39 b then Some (z - 0x30)
  else if in_range 0x61 0x66 b then Some (z - 0x61 + 10)
  else None.

(** The loop over [chunks_exact(2)]. *)
Fixpoint hex_pairs (name : bytes) : option bytes :=
  match name with
  | hi :: lo :: name' =>
      hi ← lower_hex_digit hi;
      lo ← lower_hex_digit lo;
      rest ← hex_pairs name';
      Some (byte_of_Z (Z.lor (Z.shiftl hi 4) lo) :: rest)
  | _ => Some []
  end.

Definition parse_lower_hex (name : bytes) (len : nat) : option bytes :=
  if negb (length name =? len * 2)%nat then None else hex_pairs name.

Definition parse_hex_byte (name : bytes) : option byte :=
  match parse_lower_hex name 1 with Some (b :: _) => Some b | _ => None end.

Definition is_the_stores_own (name : bytes) : bool :=
  bool_decide (name ∈ [TMP_DIR_NAME; QUARANTINE_DIR_NAME; BLOCKS_DB_DIR_NAME; STORE_ID_MARKER_NAME]).

Section DiskWalk.
Context {D : Type} `{ScrubFs D, FasterHex, Unicode}.

Definition classify_file (name chain : bytes) (id_width : nat) : result bytes BlockId :=
  match parse_lower_hex name id_width with
  | None => Err (str "file name " ++ name ++ str " is not a " ++ dec (Z.of_nat id_width) ++
                 str " byte address in lowercase hex")
  | Some bs =>
      if decide (chain = []) then
        Err (str "file " ++ name ++ str " sits directly under the blocks root, where no record can name it (the shallowest derived path is one fanout level deep)")
      else if negb (starts_with chain bs) then
        Err (str "file " ++ name ++ str " sits under " ++ hex_string chain ++
             str ", which is not its own address prefix, so no derived path resolves to it")
      else map_err (fun e => str "file name " ++ name ++ str " is not an address: " ++ FsError_fmt e)
             (from_slice bs)
  end.

Definition push_foreign (p : path) (reason : bytes) (walk : DiskWalk) : DiskWalk :=
  mkDiskWalk (dw_files walk) (dw_foreign walk ++ [mkForeignPath p reason]).
Definition push_file (f : BlockFile) (walk : DiskWalk) : DiskWalk :=
  mkDiskWalk (dw_files walk ++ [f]) (dw_foreign walk).

(** One entry of a directory; [deeper] walks a fanout directory below it. *)
Definition visit_entry (deeper : path -> bytes -> DiskWalk -> M D IoError DiskWalk) (dir : path) (chain : bytes)
    (id_width : nat) (store_own : gset path) (at_root : bool) (walk : DiskWalk) (name : bytes) :
    M D IoError DiskWalk :=
  let p := dir ++ [name] in
  if decide (p ∈ store_own) then mret walk else
  t ← file_type p;
  if negb (utf8_valid name) then
    mret (push_foreign p (str "name is not valid UTF-8, so it cannot be a block address") walk)
  else if at_root && is_the_stores_own name then mret walk
  else match t with
  | IsDir =>
      match parse_hex_byte name with
      | Some b => deeper p (chain ++ [b]) walk
      | None => mret (push_foreign p (str "directory " ++ name ++
                  str " is not a fanout level (expected two lowercase hex digits)") walk)
      end
  | IsOther => mret (push_foreign p (str "not a regular file or directory") walk)
  | IsFile =>
      match classify_file name chain id_width with
      | Ok id =>
          size ← file_len p;
          mret (push_file (mkBlockFile id (Z.of_nat (length chain) mod 2 ^ 8) size p) walk)
      | Err reason => mret (push_foreign p reason walk)
      end
  end.

Fixpoint visit_entries (visit : DiskWalk -> bytes -> M D IoError DiskWalk) (names : list bytes) (walk : DiskWalk) :
    M D IoError DiskWalk :=
  match names with
  | [] => mret walk
  | name :: names' => walk ← visit walk name; visit_entries visit names' walk
  end.

(** One directory level; [fuel] bounds the depth of the recursion. *)
Fixpoint walk_dir (fuel : nat) (dir : path) (chain : bytes) (id_width : nat) (store_own : gset path)
    (walk : DiskWalk) (at_root : bool) : M D IoError DiskWalk :=
  match fuel with
  | O => mret walk
  | Datatypes.S fuel' =>
      entries ← read_dir dir;
      visit_entries
        (visit_entry (fun p deeper walk => walk_dir fuel' p deeper id_width store_own walk false)
           dir chain id_width store_own at_root)
        (sort_by bytes_cmp entries) walk
  end.

Definition walk_disk (fuel : nat) (root : path) (id_width : nat) (store_own : gset path) : M D IoError DiskWalk :=
  fun d =>
    if negb (path_exists root d) then (Ok (mkDiskWalk [] []), d)
    else walk_dir fuel root [] id_width store_own (mkDiskWalk [] []) true d.

(** [ScrubContext::store_own_paths], from the metadata root if it is known. *)
Definition store_own_paths (meta_root : option path) (d : D) : gset path :=
  match meta_root with
  | None => ∅
  | Some meta_root => list_to_set (omap (fun p => canonicalize p d)
      [meta_root ++ [str "db"];
       meta_root ++ [STORE_HEADER_SIDECAR];
       meta_root ++ [str "blocks"; BLOCKS_DB_DIR_NAME];
       meta_root ++ [str "blocks"; STORE_HEADER_SIDECAR]])
  end.
End DiskWalk.
