(* ===== verification/Passes.v ===== *)
(** The passes of the scrub (scrub/passes.rs, scrub/passes/multipart.rs) and
    the engine that runs them over one walk of the store (scrub/engine.rs). *)

From S2P Require Import Prelude Bytes Orders Externals BlockIds Codec Records StoreHeader MetaStore Disk Placement MetaOps Engine Commands Report Scrub.
From Stdlib Require Import Strings.Byte.
Local Open Scope Z_scope.
#[local] Set Warnings "-clear-no-such-hyp".

(* ------------------------------------------------------------------ *)
(** * The pure passes *)

Section PurePasses.
Context `{FasterHex, Unicode}.

(** What the first loop of [recount] says of one held block. *)
Definition recount_held (records : gmap BlockId Block) (entry : BlockId * Z) : list Finding :=
  let '(id, holders) := entry in
  match records !! id with
  | None => [with_block id (Finding_new MissingBlockRecord
               (dec holders ++ str " holder reference(s), but no block record"))]
  | Some block =>
      let rc := b_rc block in
      if holders <? rc then
        [with_block id (Finding_new RefcountOverCount
           (str "record rc " ++ dec rc ++ str ", holders " ++ dec holders ++ str ": " ++
            dec (rc - holders) ++ str " reference(s) leaked"))]
      else if rc <? holders then
        [with_block id (Finding_new RefcountUnderCount
           (str "record rc " ++ dec rc ++ str ", holders " ++ dec holders ++ str ": " ++ dec (holders - rc) ++
            str " reference(s) unaccounted, so the block can be freed while they still point at it"))]
      else []
  end.

(** ... and the second loop, of one record. *)
Definition recount_unheld (expected : ExpectedCounts) (entry : BlockId * Block) : list Finding :=
  let '(id, block) := entry in
  if decide (is_Some (expected !! id)) then []
  else [with_block id (Finding_new RefcountOverCount
          (str "record rc " ++ dec (b_rc block) ++ str ", holders 0: nothing references this block"))].

Definition recount (expected : ExpectedCounts) (records : RecordWalk) : list Finding :=
  concat (map (recount_held (rw_records records)) (map_to_list expected)) ++
  concat (map (recount_unheld expected) (map_to_list (rw_records records))).

Definition to_finding (f : ForeignPath) : Finding :=
  with_path (fp_path f) (Finding_new ForeignFile (fp_reason f)).

(** The (id, depth) pairs the walk saw. *)
Definition present_files (disk : DiskWalk) : gset (BlockId * Z) :=
  list_to_set (map (fun f => (bf_id f, bf_depth f)) (dw_files disk)).

Definition sweep_file (records : gmap BlockId Block) (present : gset (BlockId * Z)) (file : BlockFile) :
    list Finding :=
  match records !! bf_id file with
  | None => [with_path (bf_path file) (with_block (bf_id file) (Finding_new OrphanFile
               (dec (bf_size file) ++ str " bytes at depth " ++ dec (bf_depth file) ++ str ", no record")))]
  | Some block =>
      if negb (b_depth block =? bf_depth file) then
        if decide ((bf_id file, b_depth block) ∈ present) then
          [with_path (bf_path file) (with_block (bf_id file) (Finding_new OffDepthFile
             (str "file at depth " ++ dec (bf_depth file) ++ str ", but the record names depth " ++
              dec (b_depth block) ++ str " and its file is there: unreferenced duplicate")))]
        else []
      else
        let recorded := b_size block in
        if negb (recorded =? bf_size file) then
          [with_path (bf_path file) (with_block (bf_id file) (Finding_new SizeMismatch
             (str "file is " ++ dec (bf_size file) ++ str " bytes, record says " ++ dec recorded ++
              str ": the block is not what the record describes")))]
        else []
  end.

Definition disk_sweep (disk : DiskWalk) (records : RecordWalk) : list Finding :=
  concat (map (sweep_file (rw_records records) (present_files disk)) (dw_files disk)) ++
  map to_finding (dw_foreign disk).

(** The depths an id was seen at, in the walk's order, but for its record's. *)
Definition elsewhere (disk : DiskWalk) (id : BlockId) (block : Block) : list Z :=
  filter (fun d => d <> b_depth block) (omap (fun f => if decide (bf_id f = id) then Some (bf_depth f) else None)
                                          (dw_files disk)).

(** What [dangling_sweep] says of one record; [true] marks the block as
    unrecoverable. *)
Definition sweep_record {D} `{StdFs D} (root : path) (disk : DiskWalk) (d : D) (entry : BlockId * Block) :
    list Finding * bool :=
  let '(id, block) := entry in
  let p := block_disk_path id (b_depth block) root in
  let present := is_file p d in
  if is_degraded block then
    let state := if present : bool
      then str "a file is present at that path, so the next PUT of this content will heal it"
      else str "no file, as expected of a degraded record" in
    ([with_path p (with_block id (Finding_new DegradedRecord
       (str "record flagged degraded, rc " ++ dec (b_rc block) ++
        str " (holders still accounted for); " ++ state)))], false)
  else if present then ([], false)
  else
    let elsewhere := elsewhere disk id block in
    if decide (elsewhere = []) then
      ([with_path p (with_block id (Finding_new DanglingRecord
         (str "no file at depth " ++ dec (b_depth block) ++
          str ", and the id is nowhere else on disk: the bytes are gone. Every holder below is damaged, and until this record is repaired it poisons dedup -- a later PUT of the same content bumps this record instead of writing the file, committing another damaged object")))],
       true)
    else
      ([with_path p (with_block id (Finding_new AdoptableDanglingRecord
         (str "no file at depth " ++ dec (b_depth block) ++ str ", but the id is on disk at depth " ++
          join (str ", ") (map dec elsewhere) ++ str ": adoptable once the file is re-hashed")))], false).
End PurePasses.

(** [humanize_age] *)
Definition humanize_age (seconds : Z) : bytes :=
  let MINUTE := 60 in
  let HOUR := 60 * MINUTE in
  let DAY := 24 * HOUR in
  let sign := if seconds <? 0 then str "-" else [] in
  let magnitude := if seconds <? 0 then saturating_sub_i64 0 seconds else seconds in
  if DAY <=? magnitude then sign ++ dec (magnitude / DAY) ++ str " day(s)"
  else if HOUR <=? magnitude then sign ++ dec (magnitude / HOUR) ++ str " hour(s)"
  else if MINUTE <=? magnitude then sign ++ dec (magnitude / MINUTE) ++ str " minute(s)"
  else sign ++ dec magnitude ++ str " second(s)".

(** [(bucket, key, upload_id)], ordered as the tuple is. *)
Abbreviation Triple := ((bytes * bytes) * bytes)%type.
Definition triple_cmp : Triple -> Triple -> comparison := pair_cmp (pair_cmp bytes_cmp bytes_cmp) bytes_cmp.

Record HeldUpload : Type := mkHeldUpload { hu_parts : Z; hu_bytes : Z }.

Section Passes.
Context {S T D : Type} `{Store S T, BlockDiskOps D, !StdFs D, !ScrubFs D, Blake3, FasterHex, Unicode}.
Abbreviation SW := (World S D).
Abbreviation HErr := HolderEnumerationError.

(** [ScrubContext]: the store's configuration and the metadata root. *)
Record ScrubContext : Type := mkScrubContext { sc_cfg : StoreCfg; sc_meta_root : option path }.

Definition sc_blocks_root (ctx : ScrubContext) : path := blocks_root (sc_cfg ctx).
Definition sc_id_width (ctx : ScrubContext) : nat := Z.to_nat (hasher_width (cfg_hasher (sc_cfg ctx))).

Definition at_disk {E A} (f : IoError -> E) (m : M D IoError A) : M SW E A := fun w =>
  let '(r, d') := m (ds_disk (w_disk w)) in
  (map_err f r, mkWorld (w_ns w) (w_shared w)
                  (mkDiskState d' (ds_known_durable (w_disk w)) (ds_nonce (w_disk w))) (w_counters w)).

(** A read of the file system that cannot fail. *)
Definition look {E A} (f : D -> A) : M SW E A := fun w => (Ok (f (ds_disk (w_disk w))), w).

(* ------------------------------------------------------------------ *)
(** * Dangling records *)

Definition set_radius (radius : gmap BlockId (list HolderRef)) (f : Finding) : Finding :=
  if negb (bool_decide (fi_class f = DanglingRecord)) then f
  else match fi_block f with
       | None => f
       | Some hex =>
           match list_find (fun e => to_hex e.1 = hex) (map_to_list radius) with
           | Some (_, (_, holders)) => with_holders holders f
           | None => f
           end
       end.

Definition radius_unavailable (e : HErr) (f : Finding) : Finding :=
  if bool_decide (fi_class f = DanglingRecord)
  then with_evidence (str " (blast radius unavailable: " ++ HolderEnumerationError_fmt e ++ str ")") f
  else f.

Definition attach_blast_radius {E} (fuel : nat) (unrecoverable : gset BlockId) (findings : list Finding) :
    M SW E (list Finding) := fun w =>
  if decide (unrecoverable = ∅) then (Ok findings, w)
  else match holders_of fuel unrecoverable w with
       | (Ok radius, w') => (Ok (map (set_radius radius) findings), w')
       | (Err e, w') => (Ok (map (radius_unavailable e) findings), w')
       end.

Definition dangling_sweep {E} (fuel : nat) (ctx : ScrubContext) (records : RecordWalk) (disk : DiskWalk) :
    M SW E (list Finding) :=
  swept ← look (fun d => map (fun entry => (entry.1, sweep_record (sc_blocks_root ctx) disk d entry))
                           (map_to_list (rw_records records)));
  let unrecoverable := list_to_set (omap (fun s : BlockId * (list Finding * bool) =>
                         if s.2.2 then Some s.1 else None) swept) in
  attach_blast_radius fuel unrecoverable (concat (map (fun s => s.2.1) swept)).

(* ------------------------------------------------------------------ *)
(** * Corruption *)

Definition scrub_file (ctx : ScrubContext) (file : BlockFile) (r : result IoError bytes) : list Finding :=
  match r with
  | Ok bs =>
      let actual := hash_block (cfg_hasher (sc_cfg ctx)) bs in
      if decide (actual = bf_id file) then []
      else [with_path (bf_path file) (with_block (bf_id file) (Finding_new CorruptBlock
              (dec (Z.of_nat (length bs)) ++ str " bytes hash to " ++ to_hex actual ++
               str ", but the file is filed under " ++ to_hex (bf_id file))))]
  | Err e =>
      [with_path (bf_path file) (with_block (bf_id file) (Finding_new CorruptBlock
         (str "could not be read, so it cannot be verified: " ++ IoError_fmt e)))]
  end.

Fixpoint scrub_files {E} (ctx : ScrubContext) (files : list BlockFile) (findings : list Finding) :
    M SW E (list Finding) :=
  match files with
  | [] => mret findings
  | file :: files' => fun w =>
      let '(r, w') := at_disk id (fs_read (bf_path file)) w in
      scrub_files ctx files' (findings ++ scrub_file ctx file r) w'
  end.

Definition corruption_scrub {E} (ctx : ScrubContext) (disk : DiskWalk) : M SW E (list Finding) :=
  scrub_files ctx (dw_files disk) [].

(* ------------------------------------------------------------------ *)
(** * Uploads *)

Definition visit_upload (key raw : bytes) (records : gmap Triple Z) : result HErr (gmap Triple Z) :=
  match UploadRecord_try_from raw with
  | Ok record => Ok (<[(ur_bucket record, ur_key record, ur_upload_id record) := ur_created_at record]> records)
  | Err e => Err (HolderUndecodable UPLOADS_TREE (from_utf8_lossy key) (Corruption e))
  end.

(** The uploads' parts and bytes, and the orphans' findings. *)
Definition visit_upload_part (records : gmap Triple Z) (storage_key raw : bytes)
    (acc : gmap Triple HeldUpload * list Finding) : result HErr (gmap Triple HeldUpload * list Finding) :=
  let '(uploads, orphans) := acc in
  match MultiPart_try_from raw with
  | Err e => Err (HolderUndecodable MULTIPART_PARTS_TREE (from_utf8_lossy storage_key) (Corruption e))
  | Ok part =>
      let triple := (mp_bucket part, mp_key part, mp_upload_id part) in
      match records !! triple with
      | None => Ok (uploads, orphans ++ [with_storage_key storage_key (Finding_new OrphanPart
          (str "part " ++ dec (mp_part_number part) ++ str " of upload " ++ mp_upload_id part ++ str " (" ++
           mp_bucket part ++ str "/" ++ mp_key part ++ str "): " ++ dec (mp_size part) ++
           str " byte(s) held by a part record whose upload record does not exist, so nothing can complete or abort it. The daemon's GC reaps these on its next sweep; --repair reaps this one"))])
      | Some _ =>
          let entry := default (mkHeldUpload 0 0) (uploads !! triple) in
          Ok (<[triple := mkHeldUpload (wrap_u64 (hu_parts entry + 1)) (wrap_u64 (hu_bytes entry + mp_size part))]>
                uploads, orphans)
      end
  end.

(** [now] is [Utc::now().timestamp()]. *)
Definition upload_finding (now : Z) (uploads : gmap Triple HeldUpload) (entry : Triple * Z) : Finding :=
  let '((bucket, key, upload_id), created_at) := entry in
  let held := default (mkHeldUpload 0 0) (uploads !! (bucket, key, upload_id)) in
  Finding_new MultipartUpload
    (str "upload " ++ upload_id ++ str " of " ++ bucket ++ str "/" ++ key ++ str ": started " ++
     humanize_age (as_i64 (now - created_at)) ++ str " ago, " ++ dec (hu_parts held) ++ str " part(s), " ++
     dec (hu_bytes held) ++ str " byte(s) held").

Definition multipart_report (fuel : nat) (now : Z) : M SW HErr (list Finding) :=
  records ← at_shared id (fold_tree fuel (HolderStore (Some UPLOADS_TREE)) visit_upload UPLOADS_TREE None ∅);
  t ← at_shared (HolderStore (Some MULTIPART_PARTS_TREE)) (tree_open MULTIPART_PARTS_TREE);
  acc ← at_shared id (fold_tree fuel (HolderStore (Some MULTIPART_PARTS_TREE)) (visit_upload_part records) t None (∅, []));
  let '(uploads, orphans) := acc in
  let grouped := sort_by (fun a b => triple_cmp a.1 b.1) (map_to_list records) in
  mret (map (upload_finding now uploads) grouped ++ orphans).

(* ------------------------------------------------------------------ *)
(** * Buckets *)

(** Object trees with no bucket row, sorted. *)
Definition orphaned_trees (named : list bytes) (trees : list bytes) : list bytes :=
  sort_by bytes_cmp (filter (fun t => is_reserved t = false /\ t ∉ named) trees).

Fixpoint bucket_findings {E} (trees : list bytes) : M S E (list Finding) :=
  match trees with
  | [] => mret []
  | t :: trees' => fun s =>
      let '(n, s') := (handle ← tree_open t; tree_len handle) s in
      let objects := match n with
                     | Ok n => dec n
                     | Err e => str "an unknown number of (" ++ MetaError_fmt e ++ str ")"
                     end in
      (rest ← bucket_findings trees';
       mret (Finding_new HalfDeletedBucket
         (str "object tree " ++ t ++ str " has no _BUCKETS row: a bucket teardown that did not finish. It still holds " ++
          objects ++ str " object record(s), and their block references are still counted") :: rest)) s'
  end.

Definition bucket_integrity (fuel : nat) : M S MetaError (list Finding) :=
  named ← list_bucket_names fuel;
  trees ← list_trees;
  bucket_findings (orphaned_trees named trees).

(* ------------------------------------------------------------------ *)
(** * The engine *)

(** [ScrubOptions] *)
Record ScrubOptions : Type := mkScrubOptions { so_scrub : bool }.
Definition metadata_only : ScrubOptions := mkScrubOptions false.
Definition full : ScrubOptions := mkScrubOptions true.

Inductive ScrubError : Type :=
| ScrubRecords (e : MetaError)
| ScrubDisk (e : IoError)
| ScrubBuckets (e : MetaError).

Definition refusal_finding (e : HErr) : Finding :=
  Finding_new HolderEnumerationFailed (HolderEnumerationError_fmt e ++
    str ". No recount was run: a count over a partial holder set would authorise freeing blocks that are still referenced").

(** The disk walk of the context's store. *)
Definition walk_context (fuel : nat) (ctx : ScrubContext) : M D IoError DiskWalk := fun d =>
  walk_disk fuel (sc_blocks_root ctx) (sc_id_width ctx) (store_own_paths (sc_meta_root ctx) d) d.

(** [fuel] bounds the items of every tree and the depth of the data root;
    [now] is the clock of [multipart_report]. *)
Definition run (fuel : nat) (now : Z) (ctx : ScrubContext) (options : ScrubOptions) : M SW ScrubError Report :=
  records ← at_shared ScrubRecords (walk_records fuel);
  disk ← at_disk ScrubDisk (walk_context fuel ctx);
  expected ← attempt (expected_counts fuel);
  let '(ran_recount, counted) := match expected with
    | Ok expected => ([Recount], recount expected records)
    | Err e => ([], [refusal_finding e])
    end in
  dangling ← dangling_sweep fuel ctx records disk;
  corrupt ← (if so_scrub options then corruption_scrub ctx disk else mret []);
  uploads ← attempt (multipart_report fuel now);
  let '(ran_uploads, uploads) := match uploads with
    | Ok uploads => ([MultipartReport], uploads)
    | Err e => ([], [refusal_finding e])
    end in
  buckets ← at_ns ScrubBuckets (bucket_integrity fuel);
  mret (Report_new
    (mkStoreRef (path_text (sc_blocks_root ctx)) (path_text <$> sc_meta_root ctx))
    (ran_recount ++ [DiskSweep; DanglingSweep] ++ (if so_scrub options then [CorruptionScrub] else []) ++
     ran_uploads ++ [BucketIntegrity])
    (rw_findings records ++ counted ++ disk_sweep disk records ++ dangling ++ corrupt ++ uploads ++ buckets)).
End Passes.
