(* ===== verification/ScrubSpecs.v ===== *)
(** What the walks of the scrub find: every block record, every reference of
    every holder or a refusal, and every file under the data root. *)

From S2P Require Import Prelude Bytes Orders Externals BlockIds Codec Records StoreHeader MetaStore Disk Placement MetaOps Accounting Engine BatchSpecs Commands Report Scrub Passes.
From Stdlib Require Import Strings.Byte.
Local Open Scope Z_scope.
#[local] Set Warnings "-clear-no-such-hyp".

Lemma wp_m_map_err {S E E' A} (f : E -> E') (m : M S E A) s Q :
  wp m s (fun r s' => Q (map_err f r) s') -> wp (m_map_err f m) s Q.
Proof. unfold wp, m_map_err. by destruct (m s). Qed.

Lemma wp_attempt {S E E' A} (m : M S E A) s (Q : result E' (result E A) -> S -> Prop) :
  wp m s (fun r s' => Q (Ok r) s') -> wp (attempt m) s Q.
Proof. unfold wp, attempt. by destruct (m s). Qed.

(* ------------------------------------------------------------------ *)
(** * Folds over trees *)

Section Folds.
Context {S T : Type} `{StoreLaws S T}.

(** The fold over the items of a walk. *)
Fixpoint visit_all {A E} (visit : bytes -> bytes -> A -> result E A) (l : list (bytes * bytes)) (acc : A) :
    result E A :=
  match l with
  | [] => Ok acc
  | (k, v) :: l' => acc ← visit k v acc; visit_all visit l' acc
  end.

(** A fold that returns has visited the whole tree, in key order. *)
Lemma fold_tree_spec {A E} fuel (se : MetaError -> E) (visit : bytes -> bytes -> A -> result E A) t :
  forall c acc (s : S), (size (keys_above (kv s) t c) < fuel)%nat ->
  wp (fold_tree fuel se visit t c acc) s (fun r s' =>
    kv s' = kv s /\
    match r with
    | Ok acc' => exists l, walk_of (kv s) t c l /\ visit_all visit l acc = Ok acc'
    | Err _ => True
    end).
Proof.
  induction fuel as [|fuel IH]; intros c acc s Hf; [lia|]. cbn [fold_tree].
  apply wp_bind, wp_m_map_err. eapply wp_mono; [apply tree_next_spec|].
  intros [[[k v]|]|e] s1 [Hk Hr]; cbn [map_err]; [| |done].
  - destruct Hr as [Hnext Hv]. apply wp_bind, wp_lift. destruct (visit k v acc) as [acc1|e] eqn:Ev; [|done].
    eapply wp_mono; [apply IH; rewrite Hk; pose proof (keys_above_next _ _ _ _ Hnext); lia|].
    rewrite Hk. intros [acc2|e] s2 [Hk2 Hl]; split; try done.
    destruct Hl as (l & Hl & Ha). exists ((k, v) :: l). split; [by eapply walk_step|].
    cbn. by rewrite Ev.
  - apply wp_ret. split; [done|]. exists []. split; [by apply walk_end|done].
Qed.

Lemma size_list_to_set_le (l : list bytes) : (size (list_to_set l : gset bytes) <= length l)%nat.
Proof.
  induction l as [|x l IH]; cbn [list_to_set length foldr]; [by rewrite (size_empty (C := gset bytes))|]. rewrite size_union_alt, size_singleton.
  assert (size (list_to_set l ∖ {[x]} : gset bytes) <= size (list_to_set l : gset bytes))%nat; [|lia].
  apply subseteq_size. set_solver.
Qed.

(** Enough fuel for every tree of a database. *)
Definition fuel_for (fuel : nat) (m : kvmap) : Prop := (size m < fuel)%nat.

Lemma fuel_for_tree fuel m t c : fuel_for fuel m -> (size (keys_above m t c) < fuel)%nat.
Proof.
  unfold fuel_for. intros Hf. eapply Nat.le_lt_trans; [|exact Hf].
  rewrite <- size_dom. set (f := fun p : bytes * bytes => p.2).
  assert (keys_above m t c ⊆ set_map f (dom m)) as Hsub.
  { intros k [[v Hv] _]%elem_of_keys_above. apply elem_of_map. exists (t, k). split; [done|].
    apply elem_of_dom. by eexists. }
  etrans; [by apply subseteq_size|]. unfold set_map.
  etrans; [apply size_list_to_set_le|]. by rewrite length_fmap.
Qed.
End Folds.

(* ------------------------------------------------------------------ *)
(** * Block records *)

Section RecordSpecs.
Context {S T : Type} `{StoreLaws S T, FasterHex, Unicode}.

Lemma from_slice_iff key i : from_slice key = Ok i <-> BlockId_wf i /\ key = as_slice i.
Proof.
  split.
  - intros E. by apply from_slice_ok in E as [? ?].
  - intros [Hi ->]. by apply from_slice_as_slice.
Qed.

(** What the walk has put together after the items [l]. *)
Definition records_seen (l : list (bytes * bytes)) (walk : RecordWalk) : Prop :=
  (forall i b, rw_records walk !! i = Some b <->
     BlockId_wf i /\ exists raw, (as_slice i, raw) ∈ l /\ Block_try_from raw = Ok b) /\
  (forall f, f ∈ rw_findings walk -> fi_class f = UndecodableBlockRecord /\ fi_severity f = Critical) /\
  (rw_findings walk = [] -> forall key raw, (key, raw) ∈ l ->
     exists i b, BlockId_wf i /\ key = as_slice i /\ Block_try_from raw = Ok b).

(** Keys occur once in a walk. *)
Definition keys_once (l : list (bytes * bytes)) : Prop := NoDup l.*1.

Lemma walk_keys_once m t c l : walk_of m t c l -> keys_once l.
Proof.
  intros [Hs _]. unfold keys_once. induction Hs as [|x l Hs IH Hall]; simpl; [constructor|].
  constructor; [|done]. intros (y & E & Hy)%list_elem_of_fmap. rewrite Forall_forall in Hall.
  specialize (Hall y Hy). simpl in Hall. rewrite E, bytes_ltb_irrefl in Hall. done.
Qed.

Lemma keys_once_snoc l k v : keys_once (l ++ [(k, v)]) -> forall v', (k, v') ∉ l.
Proof.
  unfold keys_once. rewrite fmap_app, NoDup_app. intros (_ & Hd & _) v' Hin.
  apply (Hd k); [|by left]. apply list_elem_of_fmap. by exists (k, v').
Qed.

Lemma visit_record_seen l k v walk walk' :
  keys_once (l ++ [(k, v)]) -> records_seen l walk -> visit_record k v walk = Ok walk' ->
  records_seen (l ++ [(k, v)]) walk'.
Proof.
  intros Hk (Hr & Hf & Hd) Hv. pose proof (keys_once_snoc _ _ _ Hk) as Hnew. unfold visit_record in Hv.
  assert (forall i, k <> as_slice i -> forall b, (exists raw, (as_slice i, raw) ∈ l ++ [(k, v)] /\ Block_try_from raw = Ok b)
    <-> (exists raw, (as_slice i, raw) ∈ l /\ Block_try_from raw = Ok b)) as Hother.
  { intros i Hne b. split; intros (raw & Hin & Hb); exists raw; (split; [|done]).
    - apply elem_of_app in Hin as [|Hin]; [done|]. apply list_elem_of_singleton in Hin. congruence.
    - apply elem_of_app. by left. }
  assert (forall e : Finding, fi_class e = UndecodableBlockRecord -> fi_severity e = Critical ->
    (forall i b, BlockId_wf i -> k = as_slice i -> Block_try_from v = Ok b -> False) ->
    records_seen (l ++ [(k, v)]) (mkRecordWalk (rw_records walk) (rw_findings walk ++ [e]))) as Hbad.
  { intros e Hc Hs Hno. split_and!; cbn [rw_records rw_findings].
    - intros i b. rewrite Hr. destruct (decide (k = as_slice i)) as [E|Hne]; [|by rewrite Hother].
      split; intros [Hi (raw & Hin & Hb)]; (split; [done|]).
      + exists raw. split; [apply elem_of_app; by left|done].
      + exists raw. split; [|done]. apply elem_of_app in Hin as [|Hin]; [done|].
        apply list_elem_of_singleton in Hin as [= _ ->]. exfalso. by eapply Hno.
    - intros f [Hin|Hin]%elem_of_app; [by apply Hf|]. by apply list_elem_of_singleton in Hin as ->.
    - intros E. by apply app_eq_nil in E as [_ ?]. }
  destruct (from_slice k) as [i|e] eqn:Ek; [destruct (Block_try_from v) as [b|e] eqn:Eb|]; injection Hv as <-.
  - apply from_slice_iff in Ek as [Hi ->]. split_and!; cbn [rw_records rw_findings].
    + intros j b'. destruct (decide (j = i)) as [->|Hne].
      * rewrite lookup_insert_eq. split.
        { intros [= <-]. split; [done|]. exists v. split; [apply elem_of_app; right; by left|done]. }
        intros [_ (raw & Hin & Hb)]. apply elem_of_app in Hin as [Hin|Hin].
        { by destruct (Hnew raw). }
        apply list_elem_of_singleton in Hin as [= ->]. congruence.
      * rewrite lookup_insert_ne by done. rewrite Hr. split; intros [Hj Hx]; (split; [done|]); revert Hx;
          rewrite Hother; try done; intros E; apply Hne; symmetry; by apply as_slice_inj.
    + done.
    + intros E key raw [Hin|Hin]%elem_of_app; [by apply Hd|].
      apply list_elem_of_singleton in Hin as [= -> ->]. eauto 10.
  - apply Hbad; [done|done|]. congruence.
  - apply Hbad; [done|done|]. intros i b Hi -> _. by rewrite from_slice_as_slice in Ek.
Qed.

Lemma visit_all_seen l : forall pre walk walk',
  keys_once (pre ++ l) -> records_seen pre walk -> visit_all visit_record l walk = Ok walk' ->
  records_seen (pre ++ l) walk'.
Proof.
  induction l as [|[k v] l IH]; intros pre walk walk' Hk Hs Hv.
  - injection Hv as <-. by rewrite app_nil_r.
  - cbn [visit_all] in Hv. destruct (visit_record k v walk) as [w1|e] eqn:E; [|done].
    rewrite cons_middle, app_assoc in *. eapply IH; [exact Hk| |exact Hv].
    eapply visit_record_seen; [|done|done]. unfold keys_once in *. rewrite fmap_app, NoDup_app in Hk. apply Hk.
Qed.

(** The record walk: exactly the decodable records, by address; without a
    finding, every key of the tree is an address and every record decodes. *)
Lemma walk_records_spec fuel (s : S) :
  fuel_for fuel (kv s) ->
  wp (walk_records fuel) s (fun r s' =>
    kv s' = kv s /\
    match r with
    | Ok walk =>
        (forall i b, rw_records walk !! i = Some b <-> BlockId_wf i /\ block_at (kv s) i = Some b) /\
        (forall f, f ∈ rw_findings walk -> fi_class f = UndecodableBlockRecord /\ fi_severity f = Critical) /\
        (rw_findings walk = [] -> forall key raw, kv s !! (DEFAULT_BLOCK_TREE, key) = Some raw ->
           exists i b, BlockId_wf i /\ key = as_slice i /\ block_at (kv s) i = Some b)
    | Err _ => True
    end).
Proof.
  intros Hf. unfold walk_records. eapply wp_mono; [apply fold_tree_spec; by apply fuel_for_tree|].
  intros [walk|e] s' [Hk Hr]; split; try done. destruct Hr as (l & Hw & Hv).
  pose proof (visit_all_seen l [] (mkRecordWalk ∅ []) walk (walk_keys_once _ _ _ _ Hw)) as Hs.
  destruct Hs as (Hrec & Hfin & Hdec); [|done|].
  { split_and!; [|by intros f ?%elem_of_nil|by intros _ key raw ?%elem_of_nil].
    intros i b. cbn [rw_records]. rewrite lookup_empty. split; [done|]. by intros [_ (raw & ?%elem_of_nil & _)]. }
  destruct Hw as [_ Hmem].
  assert (forall i b, BlockId_wf i -> (exists raw, (as_slice i, raw) ∈ l /\ Block_try_from raw = Ok b) <->
    block_at (kv s) i = Some b) as Hat.
  { intros i b Hi. unfold block_at, block_key. split.
    - intros (raw & Hin & Hb). apply Hmem in Hin as [-> _]. cbn. by rewrite Hb.
    - destruct (kv s !! (DEFAULT_BLOCK_TREE, as_slice i)) as [raw|] eqn:E; [|done]. cbn.
      destruct (Block_try_from raw) eqn:Eb; [|done]. intros [= ->]. exists raw. split; [|done]. by apply Hmem. }
  cbn [app] in *. split_and!; [|done|].
  - intros i b. rewrite Hrec. split; intros [Hi Hb]; (split; [done|]); by apply Hat.
  - intros E key raw Hraw. destruct (Hdec E key raw) as (i & b & Hi & -> & Hb); [by apply Hmem|].
    exists i, b. split_and!; [done|done|]. apply Hat; [done|]. exists raw. split; [by apply Hmem|done].
Qed.
End RecordSpecs.

(* ------------------------------------------------------------------ *)
(** * Holders *)

(** The sum of a function over the trees of a database, tree by tree. *)
Definition in_tree (t : tree) (l : list (bytes * bytes)) : list ((tree * bytes) * bytes) :=
  map (fun kv => ((t, kv.1), kv.2)) l.

Lemma msum_in_tree f m t l :
  walk_of m t None l -> (forall p v, m !! p = Some v -> p.1 <> t -> f p v = 0%nat) ->
  msum f m = sum_with (fun p => f p.1 p.2) (in_tree t l).
Proof.
  revert l. induction m as [|p v m Hp IH] using map_ind; intros l Hw H0.
  - destruct l as [|[k v] l]; [done|]. destruct Hw as [_ Hm].
    destruct (proj1 (Hm k v)) as [E _]; [by left|]. by rewrite lookup_empty in E.
  - rewrite msum_insert_new by done. destruct p as [t' k].
    destruct (decide (t' = t)) as [->|Hne].
    + pose proof (walk_keys_once _ _ _ _ Hw) as Hnd. destruct Hw as [Hs Hm].
      assert ((k, v) ∈ l) as Hin by (apply Hm; rewrite lookup_insert_eq; done).
      apply list_elem_of_split in Hin as (l1 & l2 & ->).
      assert (walk_of m t None (l1 ++ l2)) as Hw'.
      { split.
        - clear -Hs. induction l1 as [|x l1 IH]; simpl in *; apply StronglySorted_inv in Hs as [Hs Hx]; [done|].
          constructor; [by apply IH|]. apply Forall_app in Hx as [Hx1 Hx2]. apply Forall_app. split; [done|].
          by apply Forall_cons in Hx2 as [_ ?].
        - intros k' v'. assert ((k', v') ∈ l1 ++ l2 <-> (k', v') ∈ l1 ++ (k, v) :: l2 /\ k' <> k) as ->.
          { rewrite !elem_of_app, elem_of_cons. unfold keys_once in Hnd. rewrite fmap_app, fmap_cons in Hnd.
            apply NoDup_app in Hnd as (_ & Hd & [Hk _]%NoDup_cons). split.
            - intros [Hi|Hi]; (split; [tauto|]); intros ->.
              + apply (Hd k); [|by left]. apply list_elem_of_fmap. by exists (k, v').
              + apply Hk, list_elem_of_fmap. by exists (k, v').
            - intros [[?|[[= ? ?]|?]] ?]; tauto. }
          rewrite Hm. split.
          + intros [[E _] Hk]. rewrite lookup_insert_ne in E by congruence. done.
          + intros [E _]. assert (k' <> k) as Hne by (intros ->; congruence). split; [|done]. rewrite lookup_insert_ne; [done|]. by intros [= ->]. }
      rewrite (IH (l1 ++ l2) Hw').
      * unfold in_tree. rewrite !map_app, !sum_with_app. unfold sum_with. simpl. lia.
      * intros p v' Hv' Hne. apply (H0 p v'); [|done]. rewrite lookup_insert_ne; [done|]. intros <-; congruence.
    + rewrite (H0 (t', k) v) by (rewrite ?lookup_insert_eq; done). rewrite Nat.add_0_r. apply IH.
      * destruct Hw as [Hs Hm]. split; [done|]. intros k' v'. rewrite Hm. rewrite lookup_insert_ne by congruence. done.
      * intros p v' Hv' Hp'. apply (H0 p v'); [|done]. rewrite lookup_insert_ne; [done|]. intros <-; congruence.
Qed.

Lemma msum_drop_tree f m t l :
  walk_of m t None l -> msum f m = (sum_with (fun p => f p.1 p.2) (in_tree t l) + msum f (drop_tree m t))%nat.
Proof.
  intros Hw. assert (msum f m = msum f (filter (fun p => p.1.1 = t) m) + msum f (drop_tree m t))%nat as ->.
  { clear Hw l. unfold drop_tree. induction m as [|p v m Hp IH] using map_ind.
    - by rewrite !map_filter_empty.
    - rewrite msum_insert_new by done. destruct (decide (p.1 = t)) as [E|E].
      + rewrite map_filter_insert_True by done. rewrite map_filter_insert_False by (simpl; tauto).
        rewrite delete_id by done. rewrite msum_insert_new by (apply map_lookup_filter_None; by left). lia.
      + rewrite map_filter_insert_False by done. rewrite map_filter_insert_True by done.
        rewrite delete_id by done. rewrite (msum_insert_new _ _ _ (filter _ m)) by (apply map_lookup_filter_None; by left). lia. }
  f_equal. apply msum_in_tree.
  - destruct Hw as [Hs Hm]. split; [done|]. intros k v. rewrite Hm. rewrite map_lookup_filter_Some. naive_solver.
  - intros p v [_ E]%map_lookup_filter_Some Hne. done.
Qed.

Lemma walk_drop_tree m t t' l : t <> t' -> walk_of m t None l -> walk_of (drop_tree m t') t None l.
Proof.
  intros Hne [Hs Hm]. split; [done|]. intros k v. rewrite Hm. unfold drop_tree.
  rewrite map_lookup_filter_Some. naive_solver.
Qed.

(** A database is the sum of its trees. *)
Lemma msum_trees f trees : forall m ls,
  NoDup trees -> Forall2 (fun t l => walk_of m t None l) trees ls ->
  (forall p v, m !! p = Some v -> p.1 ∉ trees -> f p v = 0%nat) ->
  msum f m = sum_with (fun p => f p.1 p.2) (concat (zip_with in_tree trees ls)).
Proof.
  induction trees as [|t trees IH]; intros m ls Hnd HF H0.
  - apply Forall2_nil_inv_l in HF as ->. cbn. clear -H0. induction m as [|p v m Hp IH] using map_ind; [done|].
    rewrite msum_insert_new by done. rewrite IH.
    + rewrite (H0 p v); [done|by rewrite lookup_insert_eq|apply not_elem_of_nil].
    + intros q u Hq Hn. apply (H0 q u); [|done]. rewrite lookup_insert_ne; [done|]. intros <-; congruence.
  - apply Forall2_cons_inv_l in HF as (l & ls' & Hl & HF & ->). apply NoDup_cons in Hnd as [Hni Hnd].
    cbn [zip_with concat]. rewrite sum_with_app, (msum_drop_tree f m t l Hl). f_equal. apply IH; [done|..].
    + apply Forall2_same_length_lookup_2; [by eapply Forall2_length|]. intros i t' l' Ht' Hl'.
      apply walk_drop_tree; [|exact (Forall2_lookup_lr _ _ _ _ _ _ HF Ht' Hl')]. intros ->. apply Hni. by eapply list_elem_of_lookup_2.
    + intros p v [Hm Hne]%map_lookup_filter_Some Hnin. apply (H0 p v); [done|]. simpl in Hne. set_solver.
Qed.

(** The items of the trees a walk of the holders visits. *)
Definition tree_items (trees : list bytes) (ls : list (list (bytes * bytes))) : list ((tree * bytes) * bytes) :=
  concat (zip_with in_tree trees ls).

(** Holders that account for every item of a list, by [blocks_of]. *)
Definition accounts (blocks_of : bytes -> list BlockId) (items : list ((tree * bytes) * bytes)) (hs : list HolderRecord) : Prop :=
  forall i, occ i (concat (map holder_blocks hs)) = sum_with (fun p => occ i (blocks_of p.2)) items.

Lemma occ_concat_app {A} `{EqDecision A} (i : A) ls ks :
  occ i (concat (ls ++ ks)) = (occ i (concat ls) + occ i (concat ks))%nat.
Proof. by rewrite concat_app, occ_app. Qed.

(** A positive sum has a positive row. *)
Lemma msum_pos f m : (0 < msum f m)%nat -> exists p v, m !! p = Some v /\ (0 < f p v)%nat.
Proof.
  induction m as [|p v m Hp IH] using map_ind; [rewrite msum_empty; lia|]. rewrite msum_insert_new by done. intros Hs.
  destruct (decide (f p v = 0%nat)) as [E|E].
  - destruct IH as (q & u & Hq & Hu); [lia|]. exists q, u. split; [|done]. rewrite lookup_insert_ne; [done|]. intros <-; congruence.
  - exists p, v. rewrite lookup_insert_eq. split; [done|lia].
Qed.

Section HolderSpecs.
Context {S T D : Type} `{StoreLaws S T, FasterHex, Unicode}.
Context {A : Type} (visit : HolderRecord -> A -> A).
Implicit Types (acc : A) (hs : list HolderRecord).

Definition visit_holders hs acc : A := fold_left (fun acc h => visit h acc) hs acc.

Lemma wp_at_ns {E E' B} (f : E -> E') (m : M S E B) (w : World S D) Q :
  wp m (w_ns w) (fun r s' => Q (map_err f r) (mkWorld s' (w_shared w) (w_disk w) (w_counters w))) ->
  wp (at_ns f m) w Q.
Proof. unfold wp, at_ns. by destruct (m (w_ns w)). Qed.

Lemma wp_at_shared {E E' B} (f : E -> E') (m : M S E B) (w : World S D) Q :
  wp m (w_shared w) (fun r s' => Q (map_err f r) (mkWorld (w_ns w) s' (w_disk w) (w_counters w))) ->
  wp (at_shared f m) w Q.
Proof. unfold wp, at_shared. by destruct (m (w_shared w)). Qed.

(** What decoding the items of one tree amounts to. *)
Lemma visit_objects_spec t l : forall acc acc',
  visit_all (visit_object visit t) l acc = Ok acc' ->
  exists hs, acc' = visit_holders hs acc /\ accounts blocks_of_object_raw (in_tree t l) hs /\
    (forall k raw, (k, raw) ∈ l -> is_ok (Object_try_from raw) = true).
Proof.
  induction l as [|[k raw] l IH]; intros acc acc' Hv; cbn [visit_all] in Hv.
  - injection Hv as <-. exists []. split; [done|]. split; [by intros i|]. by intros k raw ?%elem_of_nil.
  - destruct (visit_object visit t k raw acc) as [acc1|e] eqn:Ev; [|done]. unfold visit_object in Ev.
    destruct (Object_try_from raw) as [o|e] eqn:Eo; [|done]. injection Ev as <-.
    apply IH in Hv as (hs & -> & Ha & Hok). exists (HolderObject t k o :: hs). split; [done|]. split.
    + intros i. cbn [map concat holder_blocks in_tree]. rewrite occ_app, (Ha i).
      unfold sum_with. simpl. unfold blocks_of_object_raw at 2. by rewrite Eo.
    + intros k' raw' [[= -> ->]|Hin]%elem_of_cons; [by rewrite Eo|by eapply Hok].
Qed.

Lemma visit_parts_spec l : forall acc acc',
  visit_all (visit_part visit) l acc = Ok acc' ->
  exists hs, acc' = visit_holders hs acc /\ accounts blocks_of_part_raw (in_tree MULTIPART_PARTS_TREE l) hs /\
    (forall k raw, (k, raw) ∈ l -> is_ok (MultiPart_try_from raw) = true).
Proof.
  induction l as [|[k raw] l IH]; intros acc acc' Hv; cbn [visit_all] in Hv.
  - injection Hv as <-. exists []. split; [done|]. split; [by intros i|]. by intros k raw ?%elem_of_nil.
  - destruct (visit_part visit k raw acc) as [acc1|e] eqn:Ev; [|done]. unfold visit_part in Ev.
    destruct (MultiPart_try_from raw) as [p|e] eqn:Ep; [|done]. injection Ev as <-.
    apply IH in Hv as (hs & -> & Ha & Hok). exists (HolderPart p :: hs). split; [done|]. split.
    + intros i. cbn [map concat holder_blocks in_tree]. rewrite occ_app, (Ha i).
      unfold sum_with. simpl. unfold blocks_of_part_raw at 2. by rewrite Ep.
    + intros k' raw' [[= -> ->]|Hin]%elem_of_cons; [by rewrite Ep|by eapply Hok].
Qed.

Lemma visit_holders_app hs ks acc : visit_holders (hs ++ ks) acc = visit_holders ks (visit_holders hs acc).
Proof. apply fold_left_app. Qed.

Lemma walk_trees_spec fuel trees : forall acc (s : S),
  fuel_for fuel (kv s) ->
  wp (walk_trees visit fuel trees acc) s (fun r s' =>
    kv s' = kv s /\
    match r with
    | Ok acc' => exists ls hs, Forall2 (fun t l => walk_of (kv s) t None l) trees ls /\
        acc' = visit_holders hs acc /\ accounts blocks_of_object_raw (tree_items trees ls) hs /\
        (forall t k raw, t ∈ trees -> kv s !! (t, k) = Some raw -> is_ok (Object_try_from raw) = true)
    | Err _ => True
    end).
Proof.
  induction trees as [|t trees IH]; intros acc s Hf; cbn [walk_trees].
  - apply wp_ret. split; [done|]. exists [], []. split; [constructor|]. split; [done|]. split; [by intros i|].
    by intros t k raw ?%elem_of_nil.
  - unfold walk_tree. apply wp_bind, wp_bind, wp_m_map_err. eapply wp_mono; [apply tree_open_spec|].
    intros [t'|e] s1 [Hk Ht]; cbn [map_err]; [subst t'|done].
    eapply wp_mono; [apply fold_tree_spec; rewrite Hk; by apply fuel_for_tree|].
    rewrite Hk. intros [acc1|e] s2 [Hk2 Hr]; [|done]. destruct Hr as (l & Hl & Hv).
    apply visit_objects_spec in Hv as (hs & -> & Ha & Hok).
    eapply wp_mono; [apply IH; by rewrite Hk2|]. rewrite Hk2. intros [acc2|e] s3 [Hk3 Hr]; split; try done.
    destruct Hr as (ls & ks & HF & -> & Hka & Hall). exists (l :: ls), (hs ++ ks). split; [|split; [|split]].
    + by constructor.
    + by rewrite visit_holders_app.
    + intros i. rewrite map_app, occ_concat_app, (Ha i), (Hka i). unfold tree_items. cbn [zip_with concat].
      by rewrite sum_with_app.
    + intros t' k raw [->|Hin]%elem_of_cons Hraw; [|by eapply Hall].
      apply (Hok k). destruct Hl as [_ Hm]. by apply Hm.
Qed.

(** A database all of whose holders decode. *)
Definition holders_decode (ns sh : kvmap) : Prop :=
  (forall t k raw, reserved t = false -> ns !! (t, k) = Some raw -> is_ok (Object_try_from raw) = true) /\
  (forall k raw, sh !! (MULTIPART_PARTS_TREE, k) = Some raw -> is_ok (MultiPart_try_from raw) = true).

Lemma sum_in_tree (g : tree * bytes -> bytes -> nat) (h : bytes -> nat) l :
  (forall p, p ∈ l -> g p.1 p.2 = h p.2) -> sum_with (fun p => g p.1 p.2) l = sum_with (fun p => h p.2) l.
Proof.
  unfold sum_with. induction l as [|p l IH]; intros Hg; simpl; [done|].
  rewrite (Hg p) by (by left). rewrite IH; [done|]. intros q Hq. apply Hg. by right.
Qed.

Lemma in_tree_tree t l p : p ∈ in_tree t l -> p.1.1 = t.
Proof. unfold in_tree. intros (kv & -> & _)%list_elem_of_fmap. done. Qed.

Lemma tree_items_tree trees ls p : p ∈ tree_items trees ls -> p.1.1 ∈ trees.
Proof.
  unfold tree_items. revert ls. induction trees as [|t trees IH]; intros [|l ls]; cbn; try by intros ?%elem_of_nil.
  rewrite elem_of_app. intros [Hp|Hp]; [apply in_tree_tree in Hp as ->; by left|right; by eapply IH].
Qed.

(** The holder walk: a completed one has visited holders whose references are
    all the references there are, and every holder record decodes. *)
Lemma walk_holders_spec fuel acc (w : World S D) :
  fuel_for fuel (kv (w_ns w)) -> fuel_for fuel (kv (w_shared w)) ->
  wp (walk_holders visit fuel acc) w (fun r w' =>
    kv (w_ns w') = kv (w_ns w) /\ kv (w_shared w') = kv (w_shared w) /\
    w_disk w' = w_disk w /\ w_counters w' = w_counters w /\
    match r with
    | Ok acc' => exists hs, acc' = visit_holders hs acc /\
        (forall i, occ i (concat (map holder_blocks hs)) =
           (obj_refs (kv (w_ns w)) i + part_refs (kv (w_shared w)) i)%nat) /\
        holders_decode (kv (w_ns w)) (kv (w_shared w))
    | Err _ => True
    end).
Proof.
  intros Hf1 Hf2. unfold walk_holders.
  apply wp_bind, wp_at_ns. eapply wp_mono; [apply list_trees_spec|]. intros [names|e] s1 [Hk1 Hn]; cbn [map_err]; [|done].
  destruct Hn as [Hnd Hall]. apply wp_bind, wp_at_ns. cbn [w_ns].
  eapply wp_mono; [apply walk_trees_spec; by rewrite Hk1|]. rewrite Hk1.
  intros [acc1|e] s2 [Hk2 Hr]; cbn [map_err]; [|done]. destruct Hr as (ls & hs & HF & -> & Ha & Hdec).
  apply wp_bind, wp_at_shared. cbn [w_shared]. eapply wp_mono; [apply tree_open_spec|].
  intros [t|e] s3 [Hk3 Ht]; cbn [map_err]; [subst t|done]. apply wp_at_shared. cbn [w_shared].
  eapply wp_mono; [apply fold_tree_spec; rewrite Hk3; by apply fuel_for_tree|]. rewrite Hk3.
  intros [acc2|e] s4 [Hk4 Hr]; cbn [map_err w_ns w_shared w_disk w_counters]; split_and!; try done.
  destruct Hr as (l & Hl & Hv). apply visit_parts_spec in Hv as (ps & -> & Hpa & Hpdec).
  exists (hs ++ ps). split; [by rewrite visit_holders_app|]. split.
  - intros i. rewrite map_app, occ_concat_app, (Ha i), (Hpa i). f_equal.
    + unfold obj_refs. rewrite (msum_trees (object_weight i) _ _ ls (NoDup_filter _ _ Hnd) HF).
      * symmetry. apply (sum_in_tree (object_weight i) (fun raw => occ i (blocks_of_object_raw raw))).
        intros p Hp%tree_items_tree. apply list_elem_of_filter in Hp as [Hres _].
        unfold object_weight. change (reserved p.1.1) with (is_reserved p.1.1). by rewrite Hres.
      * intros [t k] v Hv Hnin. unfold object_weight. change (reserved (t, k).1) with (is_reserved t).
        destruct (is_reserved t) eqn:Er; [done|]. exfalso. apply Hnin, list_elem_of_filter. split; [done|].
        apply (Hall t k). by eexists.
    + unfold part_refs. rewrite (msum_in_tree (part_weight i) _ MULTIPART_PARTS_TREE l Hl).
      * symmetry. apply (sum_in_tree (part_weight i) (fun raw => occ i (blocks_of_part_raw raw))).
        intros p Hp%in_tree_tree. unfold part_weight. by rewrite decide_True.
      * intros p v _ Hne. unfold part_weight. by rewrite decide_False.
  - split.
    + intros t k raw Hres Hraw. apply (Hdec t k raw); [|done]. apply list_elem_of_filter. split; [done|].
      apply (Hall t k). by eexists.
    + intros k raw Hraw. apply (Hpdec k). destruct Hl as [_ Hm]. by apply Hm.
Qed.
End HolderSpecs.

(* ------------------------------------------------------------------ *)
(** * Expected counts *)

Section Counts.
Context {S T D : Type} `{StoreLaws S T, FasterHex, Unicode}.

Lemma count_blocks l : forall (counts : ExpectedCounts) i,
  (forall j, default 0 (counts !! j) = wrap_u64 (default 0 (counts !! j))) ->
  fold_left count_block l counts !! i =
  if decide (i ∈ l) then Some (wrap_u64 (default 0 (counts !! i) + Z.of_nat (occ i l))) else counts !! i.
Proof.
  induction l as [|b l IH]; intros counts i Hw; cbn [fold_left].
  - rewrite decide_False; [done|]. by intros ?%elem_of_nil.
  - rewrite IH; unfold count_block.
    + destruct (decide (i = b)) as [->|Hne].
      * rewrite lookup_insert_eq. cbn [from_option]. unfold id. rewrite (decide_True (P := b ∈ b :: l)) by by left.
        rewrite occ_cons_eq. destruct (decide (b ∈ l)) as [Hin|Hin].
        -- f_equal. unfold wrap_u64. rewrite Zplus_mod_idemp_l. f_equal. lia.
        -- by rewrite (occ_zero b l).
      * rewrite lookup_insert_ne by done. rewrite occ_cons_ne by done.
        destruct (decide (i ∈ l)) as [Hin|Hin].
        -- by rewrite decide_True by by right.
        -- rewrite decide_False; [done|]. by intros [?|?]%elem_of_cons.
    + intros j. destruct (decide (j = b)) as [->|Hne].
      * rewrite lookup_insert_eq. cbn [from_option]. unfold id, wrap_u64. by rewrite Zmod_mod.
      * rewrite lookup_insert_ne by done. apply Hw.
Qed.

Lemma visit_counts hs : forall counts,
  visit_holders (fun holder counts => fold_left count_block (holder_blocks holder) counts) hs counts =
  fold_left count_block (concat (map holder_blocks hs)) counts.
Proof.
  induction hs as [|h hs IH]; intros counts; [done|]. cbn [map concat]. rewrite fold_left_app. apply IH.
Qed.

(** The references of the store, and what the scrub leaves as it was. *)
Definition refs (w : World S D) (i : BlockId) : nat :=
  (obj_refs (kv (w_ns w)) i + part_refs (kv (w_shared w)) i)%nat.

Lemma refs_wf (w : World S D) i : (0 < refs w i)%nat -> BlockId_wf i.
Proof.
  intros Hp. unfold refs in Hp.
  assert (0 < obj_refs (kv (w_ns w)) i \/ 0 < part_refs (kv (w_shared w)) i)%nat as [Ho|Ho] by lia;
    apply msum_pos in Ho as (k & raw & _ & Ho).
  - unfold object_weight in Ho. destruct (reserved k.1); [lia|]. apply occ_elem in Ho. unfold blocks_of_object_raw in Ho.
    destruct (Object_try_from raw) as [o|] eqn:E; [|by apply elem_of_nil in Ho].
    apply Object_decode_blocks in E. rewrite Forall_forall in E. by apply E.
  - unfold part_weight in Ho. case_decide; [|lia]. apply occ_elem in Ho. unfold blocks_of_part_raw in Ho.
    destruct (MultiPart_try_from raw) as [p|] eqn:E; [|by apply elem_of_nil in Ho].
    apply MultiPart_decode_blocks in E. rewrite Forall_forall in E. by apply E.
Qed.

Definition unchanged `{DiskView D} (w w' : World S D) : Prop :=
  kv (w_ns w') = kv (w_ns w) /\ kv (w_shared w') = kv (w_shared w) /\
  wfiles w' = wfiles w /\ wnonce w' = wnonce w.

(** An enumeration that returns has counted every reference exactly; there is
    no partial result. *)
Lemma expected_counts_spec fuel (w : World S D) :
  fuel_for fuel (kv (w_ns w)) -> fuel_for fuel (kv (w_shared w)) ->
  (forall i, Z.of_nat (refs w i) <= u64_max) ->
  wp (expected_counts fuel) w (fun r w' =>
    kv (w_ns w') = kv (w_ns w) /\ kv (w_shared w') = kv (w_shared w) /\ w_disk w' = w_disk w /\
    match r with
    | Ok counts =>
        (forall i, counts !! i = if decide (refs w i = 0%nat) then None else Some (Z.of_nat (refs w i))) /\
        holders_decode (kv (w_ns w)) (kv (w_shared w))
    | Err _ => True
    end).
Proof.
  intros Hf1 Hf2 Hmax. eapply wp_mono; [by apply walk_holders_spec|].
  intros [counts|e] w' (Hn & Hs & Hd & _ & Hr); (split; [done|]; split; [done|]; split; [done|]); [|done].
  destruct Hr as (hs & -> & Hocc & Hdec). split; [|done]. intros i. rewrite visit_counts.
  rewrite count_blocks by (intros j; by rewrite lookup_empty). rewrite lookup_empty. cbn [from_option]. rewrite Hocc. change (obj_refs _ i + _)%nat with (refs w i).
  destruct (decide (i ∈ _)) as [Hin|Hin].
  - apply occ_pos in Hin. rewrite Hocc in Hin. change (obj_refs _ i + _)%nat with (refs w i) in Hin.
    rewrite decide_False by lia. f_equal. rewrite Z.add_0_l. apply wrap_u64_small. split; [lia|apply Hmax].
  - apply occ_zero in Hin. rewrite Hocc in Hin. by rewrite decide_True.
Qed.
End Counts.
