(* ===== verification/WalkSpecs.v ===== *)
(** What the disk walk of the scrub finds: a file is accepted exactly when it
    lies where a record could name it, everything else under the data root is
    foreign or the store's own. *)

From S2P Require Import Prelude Bytes Orders Externals BlockIds Codec Records StoreHeader MetaStore Disk Placement MetaOps Accounting Engine BatchSpecs Commands Report Scrub.
From Stdlib Require Import Strings.Byte.
Local Open Scope Z_scope.
#[local] Set Warnings "-clear-no-such-hyp".

(* ------------------------------------------------------------------ *)
(** * Hexadecimal names *)

Section HexNames.
Context `{FasterHexLaws, !FasterHexSpelling}.

Lemma lower_digit_value n : 0 <= n < 16 -> lower_hex_digit (lower_digit n) = Some n.
Proof.
  intros Hn. assert (n ∈ seqZ 0 16) as Hin by (apply elem_of_seqZ; lia).
  clear Hn. revert n Hin. apply Forall_forall. repeat constructor.
Qed.

Lemma lower_hex_digit_inv b n : lower_hex_digit b = Some n -> b = lower_digit n /\ 0 <= n < 16.
Proof.
  unfold lower_hex_digit, in_range. pose proof (byte_to_Z_range b).
  destruct ((_ <=? _) && _) eqn:E1; [|destruct ((0x61 <=? _) && _) eqn:E2; [|done]].
  - intros [= <-]. apply andb_true_iff in E1 as [?%Z.leb_le ?%Z.leb_le]. split; [|lia].
    unfold lower_digit. destruct (Z.ltb_spec (byte_to_Z b - 48) 10); [|lia].
    by rewrite Z.add_sub_assoc, Z.add_simpl_l, byte_of_to_Z by lia.
  - intros [= <-]. apply andb_true_iff in E2 as [?%Z.leb_le ?%Z.leb_le]. split; [|lia].
    unfold lower_digit. destruct (Z.ltb_spec (byte_to_Z b - 97 + 10) 10); [lia|].
    replace (97 + (byte_to_Z b - 97 + 10 - 10)) with (byte_to_Z b) by lia. by rewrite byte_of_to_Z.
Qed.

Lemma nibbles_lor hi lo : 0 <= hi < 16 -> 0 <= lo < 16 -> Z.lor (Z.shiftl hi 4) lo = 16 * hi + lo.
Proof.
  intros Hh Hl. assert (Forall (fun hi => Forall (fun lo => Z.lor (Z.shiftl hi 4) lo = 16 * hi + lo) (seqZ 0 16)) (seqZ 0 16)) as Hall.
  { apply (bool_decide_unpack _). vm_compute. exact I. }
  rewrite Forall_forall in Hall. specialize (Hall hi ltac:(apply elem_of_seqZ; lia)).
  rewrite Forall_forall in Hall. apply Hall, elem_of_seqZ. lia.
Qed.

Lemma hex_pairs_spelled bs : hex_pairs (concat (map hex_byte bs)) = Some bs.
Proof.
  induction bs as [|b bs IH]; [done|]. destruct (Concrete.nibbles_range b) as [Hh Hl].
  cbn [map concat hex_byte app hex_pairs]. rewrite !lower_digit_value by done. cbn [mbind option_bind]. rewrite IH.
  cbn. do 2 f_equal. rewrite nibbles_lor by done. by rewrite <- Z.div_mod, byte_of_to_Z by lia.
Qed.

Lemma hex_pairs_inv n : forall name bs,
  length name = (n * 2)%nat -> hex_pairs name = Some bs -> name = concat (map hex_byte bs) /\ length bs = n.
Proof.
  induction n as [|n IH]; intros name bs Hl Hp.
  - destruct name; [|done]. by injection Hp as <-.
  - destruct name as [|hi [|lo name]]; [done..|]. cbn [hex_pairs] in Hp.
    destruct (lower_hex_digit hi) as [h|] eqn:Eh; [|done]. destruct (lower_hex_digit lo) as [l|] eqn:El; [|done].
    cbn in Hp. destruct (hex_pairs name) as [rest|] eqn:Er; [|done]. injection Hp as <-.
    apply lower_hex_digit_inv in Eh as [-> Hh]. apply lower_hex_digit_inv in El as [-> Hlo].
    destruct (IH name rest) as [-> <-]; [simpl in Hl; lia|done|]. split; [|done].
    cbn [map concat app]. unfold hex_byte. rewrite byte_to_of_Z, nibbles_lor by done.
    rewrite Z.mod_small by lia. rewrite (Z.mul_comm 16), Z.div_add_l by lia. rewrite Z.div_small by lia.
    rewrite Z.add_0_r, Z.add_comm, Z.mod_add, Z.mod_small by lia. done.
Qed.

Lemma parse_lower_hex_iff name w bs :
  parse_lower_hex name w = Some bs <-> name = hex_string bs /\ length bs = w.
Proof.
  unfold parse_lower_hex. rewrite hex_string_spelled. destruct (Nat.eqb_spec (length name) (w * 2)); cbn [negb].
  - split; [by apply hex_pairs_inv|]. intros [-> _]. apply hex_pairs_spelled.
  - split; [done|]. intros [-> <-]. exfalso. rewrite <- hex_string_spelled, length_hex_string in n. lia.
Qed.

Lemma parse_hex_byte_iff name b : parse_hex_byte name = Some b <-> name = hex_string [b].
Proof.
  unfold parse_hex_byte. split.
  - destruct (parse_lower_hex name 1) as [[|c [|]]|] eqn:E; try done; apply parse_lower_hex_iff in E as [-> E]; try done.
    by intros [= ->].
  - intros ->. by rewrite (proj2 (parse_lower_hex_iff (hex_string [b]) 1 [b])).
Qed.

Lemma hex_string_utf8 d : utf8_valid (hex_string d) = true.
Proof.
  apply ascii_utf8_valid. eapply Forall_impl; [apply hex_string_lower|]. intros b. unfold is_lower_hex, is_ascii, in_range.
  intros [[_ E%Z.leb_le]%andb_true_iff|[_ E%Z.leb_le]%andb_true_iff]%orb_true_iff; lia.
Qed.

Lemma hex_not_own d : is_the_stores_own (hex_string d) = false.
Proof.
  unfold is_the_stores_own. apply bool_decide_eq_false. intros Hin.
  assert (Byte.x2e ∈ hex_string d) as Hdot; [|by eapply (hex_string_not_in d Byte.x2e)].
  repeat (apply elem_of_cons in Hin as [->|Hin]; [by left|]). by apply elem_of_nil in Hin.
Qed.
End HexNames.

(* ------------------------------------------------------------------ *)
(** * Paths *)

Section Paths.
Context `{FasterHexLaws, !FasterHexSpelling}.

(** The directory a chain of fanout bytes names. *)
Definition hexdir (root : path) (chain : bytes) : path := root ++ map (fun b => hex_string [b]) chain.

Lemma hexdir_snoc root chain b : hexdir root (chain ++ [b]) = hexdir root chain ++ [hex_string [b]].
Proof. unfold hexdir. by rewrite map_app, app_assoc. Qed.

Lemma hexdir_inj root a b : hexdir root a = hexdir root b -> a = b.
Proof.
  unfold hexdir. intros E%app_inv_head. revert b E. induction a as [|x a IH]; intros [|y b] E; try done.
  cbn in E. injection E as Ex E. apply hex_string_inj in Ex as [= ->]. f_equal. by apply IH.
Qed.

Lemma block_path_hexdir i n root :
  BlockId_wf i -> (1 <= n <= id_width i)%nat ->
  block_disk_path i (Z.of_nat n) root = hexdir root (take n (as_slice i)) ++ [to_hex i].
Proof.
  intros Hi Hn. unfold block_disk_path, hexdir.
  replace (Z.to_nat (Z.max 1 (Z.min (Z.of_nat n) (Z.of_nat (id_width i))))) with n by lia. by rewrite app_assoc.
Qed.

(** Every block path has that shape, whatever the depth. *)
Lemma block_path_clamped i d root :
  BlockId_wf i -> exists n, (1 <= n <= id_width i)%nat /\ Z.of_nat n = clamp_depth i d /\
    block_disk_path i d root = hexdir root (take n (as_slice i)) ++ [to_hex i].
Proof.
  intros Hi. exists (Z.to_nat (clamp_depth i d)). unfold clamp_depth.
  destruct (id_width_cases i Hi) as [E|E]; rewrite E; (split; [lia|]; split; [lia|]);
    unfold block_disk_path, hexdir; rewrite E; by rewrite app_assoc.
Qed.

(** An entry on the way to a block file is its fanout directory or the file. *)
Lemma prefix_of_hexdir chain s name last k :
  map (fun b => hex_string [b]) s ++ [last] = map (fun b => hex_string [b]) chain ++ name :: k ->
  (chain = s /\ name = last /\ k = []) \/ exists b, name = hex_string [b].
Proof.
  revert s. induction chain as [|c chain IH]; intros [|b s]; cbn.
  - intros [= <- <-]. auto.
  - intros [= <- _]. eauto.
  - intros [= _ E]. by destruct chain.
  - intros [= Eb E]. apply hex_string_inj in Eb as [= ->]. apply IH in E as [(-> & ? & ?)|?]; auto.
Qed.

Lemma prefix_of_block_path root chain name i n :
  BlockId_wf i -> (1 <= n <= id_width i)%nat ->
  (hexdir root chain ++ [name]) `prefix_of` block_disk_path i (Z.of_nat n) root ->
  (chain = take n (as_slice i) /\ name = to_hex i) \/ exists b, name = hex_string [b].
Proof.
  intros Hi Hn [k Hk]. rewrite block_path_hexdir in Hk by done. unfold hexdir in Hk.
  rewrite <- !app_assoc in Hk. apply app_inv_head in Hk. rewrite <- ?app_assoc in Hk.
  apply prefix_of_hexdir in Hk as [(-> & -> & _)|?]; auto.
Qed.
End Paths.

(* ------------------------------------------------------------------ *)
(** * The walk *)

Section Walk.
Context {D : Type} `{ScrubFsLaws D, FasterHexLaws, !FasterHexSpelling, Unicode}.
Context (F : gmap path bytes) (root : path) (width : nat) (own : gset path).

(** No file lies below a file. *)
Definition tree_like (m : gmap path bytes) : Prop := forall p, is_Some (m !! p) -> ~ below_path m p.

(** A file where a record can name it. *)
Definition accepted (f : BlockFile) : Prop :=
  BlockId_wf (bf_id f) /\ id_width (bf_id f) = width /\ 1 <= bf_depth f <= Z.of_nat width /\
  bf_path f = block_disk_path (bf_id f) (bf_depth f) root /\
  exists c, F !! bf_path f = Some c /\ bf_size f = Z.of_nat (length c).

(** A path on the way to no block file. *)
Definition stray (p : path) : Prop :=
  forall i n, BlockId_wf i -> id_width i = width -> (1 <= n <= width)%nat ->
    is_Some (F !! block_disk_path i (Z.of_nat n) root) ->
    ~ p `prefix_of` block_disk_path i (Z.of_nat n) root.

(** What became of the file at [dir ++ q]. *)
Definition covered (at_root : bool) (fs : list BlockFile) (fr : list ForeignPath) (dir q : path) : Prop :=
  (exists f, f ∈ fs /\ bf_path f = dir ++ q) \/
  (exists x, x ∈ fr /\ fp_path x `prefix_of` dir ++ q) \/
  (exists p, p ∈ own /\ p `prefix_of` dir ++ q) \/
  (at_root = true /\ exists n rest, q = n :: rest /\ is_the_stores_own n = true).

(** Distinct files, all at or below [base]. *)
Definition located (base : path) (fs : list BlockFile) : Prop :=
  Forall (fun f => base `prefix_of` bf_path f) fs /\ NoDup (map bf_path fs).

Lemma located_nil base : located base [].
Proof. split; constructor. Qed.

Lemma located_below base k fs : located (base ++ k) fs -> located base fs.
Proof.
  intros [Hf Hn]. split; [|done]. eapply Forall_impl; [exact Hf|]. intros f [q ->]. exists (k ++ q). by rewrite app_assoc.
Qed.

Lemma located_app dir n fs gs :
  located (dir ++ [n]) fs -> Forall (fun f => exists k, k <> n /\ (dir ++ [k]) `prefix_of` bf_path f) gs ->
  NoDup (map bf_path gs) -> NoDup (map bf_path (fs ++ gs)).
Proof.
  intros [Hf Hn] Hg Hng. rewrite map_app. apply NoDup_app. split; [done|]. split; [|done].
  intros p (f & -> & Hin)%list_elem_of_fmap (g & E & Hin')%list_elem_of_fmap. rewrite Forall_forall in Hf. rewrite Forall_forall in Hg.
  destruct (Hf f Hin) as [q1 Eq1]. destruct (Hg g Hin') as (k & Hk & q2 & Eq2). rewrite Eq1, Eq2, <- !app_assoc in E.
  apply app_inv_head in E. by injection E as ->.
Qed.

(** ... in the entries [names] of [dir]. *)
Definition located_in (dir : path) (names : list bytes) (fs : list BlockFile) : Prop :=
  Forall (fun f => exists k, k ∈ names /\ (dir ++ [k]) `prefix_of` bf_path f) fs /\ NoDup (map bf_path fs).

Lemma located_cons dir n names fs gs :
  n ∉ names -> located (dir ++ [n]) fs -> located_in dir names gs -> located_in dir (n :: names) (fs ++ gs).
Proof.
  intros Hn Hfs [Hgs Hnd]. split.
  - apply Forall_app. split; (eapply Forall_impl; [first [exact (proj1 Hfs)|exact Hgs]|]).
    + intros f Hf. exists n. split; [by left|done].
    + intros f (k & Hk & Hf). exists k. split; [by right|done].
  - eapply located_app; [exact Hfs| |done]. eapply Forall_impl; [exact Hgs|]. intros f (k & Hk & Hf). exists k.
    split; [by intros ->|done].
Qed.

Lemma located_in_dir dir names fs : located_in dir names fs -> located dir fs.
Proof.
  intros [Hf Hn]. split; [|done]. eapply Forall_impl; [exact Hf|]. intros f (k & _ & q & ->). exists ([k] ++ q). by rewrite app_assoc.
Qed.

Definition walk_post (at_root : bool) (L : list BlockFile -> Prop) (dir : path) (reach : path -> Prop) (walk : DiskWalk) (r : result IoError DiskWalk) (d' : D) : Prop :=
  files d' = F /\
  match r with
  | Ok walk' => exists fs fr,
      walk' = mkDiskWalk (dw_files walk ++ fs) (dw_foreign walk ++ fr) /\
      Forall accepted fs /\ L fs /\ Forall (fun x => stray (fp_path x)) fr /\
      forall q, reach q -> is_Some (F !! (dir ++ q)) -> covered at_root fs fr dir q
  | Err _ => True
  end.

Lemma stray_below p : F !! p = None -> ~ below_path F p -> stray p.
Proof.
  intros Hp Hb i n Hi Hw Hn Hs [[|x k] E].
  - rewrite app_nil_r in E. rewrite E, Hp in Hs. by apply is_Some_None in Hs.
  - apply Hb. exists x, k. by rewrite <- E.
Qed.

Lemma covered_none p dir q at_root reason :
  p `prefix_of` dir ++ q -> covered at_root [] [mkForeignPath p reason] dir q.
Proof. intros Hp. right; left. eexists. split; [by left|done]. Qed.

Lemma classify_ok name chain i :
  classify_file name chain width = Ok i ->
  BlockId_wf i /\ id_width i = width /\ name = to_hex i /\ chain <> [] /\ chain = take (length chain) (as_slice i).
Proof.
  unfold classify_file. destruct (parse_lower_hex name width) as [bs|] eqn:Ep; [|done].
  destruct (decide (chain = [])) as [|Hne]; [done|]. destruct (starts_with chain bs) eqn:Es; cbn [negb]; [|done].
  destruct (from_slice bs) as [j|e] eqn:Ef; [|done]. intros [= <-]. apply from_slice_ok in Ef as [Hi <-].
  apply parse_lower_hex_iff in Ep as [-> El]. rewrite length_as_slice in El by done.
  apply starts_with_spec in Es as [t Et]. split_and!; try done. rewrite Et. by rewrite take_app_length.
Qed.

Lemma classify_block i n :
  BlockId_wf i -> id_width i = width -> (1 <= n <= width)%nat ->
  classify_file (to_hex i) (take n (as_slice i)) width = Ok i.
Proof.
  intros Hi Hw Hn. unfold classify_file.
  rewrite (proj2 (parse_lower_hex_iff (to_hex i) width (as_slice i))) by (split; [done|by rewrite length_as_slice]).
  rewrite decide_False; [|intros E; apply (f_equal length) in E; rewrite length_take, length_as_slice in E by done; simpl in E; lia].
  rewrite (proj2 (starts_with_spec _ _)); [|exists (drop n (as_slice i)); by rewrite take_drop]. cbn [negb].
  by rewrite from_slice_as_slice.
Qed.

Lemma stray_name chain name :
  (forall b, name <> hex_string [b]) -> (forall i n, chain = take n (as_slice i) -> name = to_hex i ->
     BlockId_wf i -> id_width i = width -> (1 <= n <= width)%nat ->
     is_Some (F !! (hexdir root chain ++ [name])) -> False) ->
  stray (hexdir root chain ++ [name]).
Proof.
  intros Hb Hno i n Hi Hw Hn Hs Hp. pose proof Hp as Hp0. apply (prefix_of_block_path root chain name i n Hi ltac:(lia)) in Hp as [[Ec En]|[b Eb]].
  - apply (Hno i n); try done. rewrite block_path_hexdir in Hs by (done || lia). by rewrite Ec, En.
  - by apply (Hb b).
Qed.

(** One entry, given what walking a directory below it does. *)
Lemma visit_entry_spec (deeper : path -> bytes -> DiskWalk -> M D IoError DiskWalk) fuel chain name walk d :
  tree_like F -> files d = F ->
  (forall b walk d, files d = F -> parse_hex_byte name = Some b ->
     wp (deeper (hexdir root (chain ++ [b])) (chain ++ [b]) walk) d
       (walk_post false (located (hexdir root (chain ++ [b]))) (hexdir root (chain ++ [b])) (fun q => q <> [] /\ (length q <= fuel)%nat) walk)) ->
  wp (visit_entry deeper (hexdir root chain) chain width own (bool_decide (chain = [])) walk name) d
    (walk_post (bool_decide (chain = [])) (located (hexdir root chain ++ [name])) (hexdir root chain)
       (fun q => exists rest, q = name :: rest /\ (length rest <= fuel)%nat) walk).
Proof.
  intros Htree Hd Hdeep. unfold visit_entry. set (p := hexdir root chain ++ [name]).
  set (rt := bool_decide (chain = [])).
  assert (forall rest, p `prefix_of` hexdir root chain ++ name :: rest) as Hpre.
  { intros rest. exists rest. unfold p. by rewrite <- app_assoc. }
  assert (forall d', files d' = F -> (forall rest, is_Some (F !! (hexdir root chain ++ name :: rest)) ->
      covered rt [] [] (hexdir root chain) (name :: rest)) ->
    walk_post rt (located p) (hexdir root chain) (fun q => exists rest, q = name :: rest /\ (length rest <= fuel)%nat) walk (Ok walk) d')
    as Hskip.
  { intros d' Hd' Hc. split; [done|]. exists [], []. rewrite !app_nil_r. split; [by destruct walk|].
    split; [constructor|]. split; [apply located_nil|]. split; [constructor|]. intros q (rest & -> & _). apply Hc. }
  assert (forall d' reason, files d' = F -> stray p ->
    walk_post rt (located p) (hexdir root chain) (fun q => exists rest, q = name :: rest /\ (length rest <= fuel)%nat) walk
      (Ok (push_foreign p reason walk)) d') as Hforeign.
  { intros d' reason Hd' Hs. split; [done|]. exists [], [mkForeignPath p reason]. rewrite app_nil_r. split; [done|].
    split; [constructor|]. split; [apply located_nil|]. split; [by constructor|]. intros q (rest & -> & _) _. by apply covered_none. }
  destruct (decide (p ∈ own)) as [Hown|_].
  { apply wp_ret. apply Hskip; [done|]. intros rest _. right; right; left. by exists p. }
  apply wp_bind. eapply wp_mono; [apply file_type_spec|]. rewrite Hd. intros [t|e] d1 [Hd1 Ht]; [|done].
  destruct (utf8_valid name) eqn:Eu; cbn [negb].
  2: { apply wp_ret, Hforeign; [done|]. apply stray_name.
       - intros b ->. by rewrite hex_string_utf8 in Eu.
       - intros i n _ -> *. unfold to_hex in Eu. by rewrite hex_string_utf8 in Eu. }
  destruct (rt && is_the_stores_own name) eqn:Eo.
  { apply andb_true_iff in Eo as [Er Eo]. apply wp_ret, Hskip; [done|]. intros rest _.
    right; right; right. split; [done|]. eauto. }
  destruct t.
  - assert (stray p \/ exists i, classify_file name chain width = Ok i) as Hcase.
    { destruct (classify_file name chain width) as [i|reason] eqn:Ec; [eauto|]. left. intros i n Hi Hw Hn Hs [k Hk].
      destruct k as [|x k].
      - rewrite app_nil_r in Hk. rewrite block_path_hexdir in Hk by (done || lia). unfold p in Hk.
        apply app_inj_2 in Hk as [Hc%hexdir_inj [= Hn']]; [|done].
        rewrite <- Hn', <- Hc, classify_block in Ec by done. done.
      - apply (Htree p Ht). exists x, k. by rewrite <- Hk. }
    destruct (classify_file name chain width) as [i|reason] eqn:Ec.
    2: { destruct Hcase as [Hs|[i ?]]; [|done]. by apply wp_ret, Hforeign. }
    apply classify_ok in Ec as (Hi & Hw & Hname & Hne & Hchain).
    assert (1 <= length chain <= width)%nat as Hn.
    { pose proof (f_equal length Hchain) as El. rewrite length_take, length_as_slice, Hw in El by done.
      assert (length chain <> 0%nat) by (by destruct chain). lia. }
    assert (p = block_disk_path i (Z.of_nat (length chain)) root) as Hp.
    { rewrite block_path_hexdir by (done || lia). by rewrite <- Hchain, <- Hname. }
    apply wp_bind. eapply wp_mono; [apply file_len_spec|]. rewrite Hd1.
    intros [sz|e] d2 [Hd2 Hsz]; [|done]. apply wp_ret. split; [congruence|].
    exists [mkBlockFile i (Z.of_nat (length chain) mod 2 ^ 8) sz p], []. rewrite app_nil_r. split; [done|].
    rewrite Z.mod_small by (destruct (id_width_cases i Hi); lia). split; [|split; [|split; [constructor|]]].
    + constructor; [|constructor]. unfold accepted. cbn [bf_id bf_depth bf_path bf_size].
      split; [done|]. split; [done|]. split; [lia|]. split; [done|]. destruct Ht as [c Hc]. exists c. split; [done|]. apply Hsz. congruence.
    + split; [by constructor|]. cbn [map]. apply NoDup_singleton.
    + intros q (rest & -> & _) Hq. left. eexists. split; [by left|]. cbn [bf_path]. destruct rest as [|x rest]; [done|].
      exfalso. apply (Htree p Ht). exists x, rest. unfold p. by rewrite <- app_assoc.
  - destruct (parse_hex_byte name) as [b|] eqn:Eb.
    + apply parse_hex_byte_iff in Eb as Ename. assert (p = hexdir root (chain ++ [b])) as Hp.
      { unfold p. by rewrite hexdir_snoc, Ename. }
      rewrite Hp. eapply wp_mono; [by apply Hdeep|]. intros r d2 [Hd2 Hr]. split; [done|].
      destruct r as [walk'|e]; [|done]. destruct Hr as (fs & fr & -> & Hfs & Hloc & Hfr & Hcov). exists fs, fr.
      split; [done|]. split; [done|]. split; [done|]. split; [done|]. intros q (rest & -> & Hl) Hq.
      assert (hexdir root chain ++ name :: rest = hexdir root (chain ++ [b]) ++ rest) as Eq.
      { rewrite <- Hp. unfold p. by rewrite <- app_assoc. }
      assert (rest <> []) as Hne. { intros ->. fold p in Hq. rewrite Ht in Hq. by apply is_Some_None in Hq. }
      rewrite Eq in Hq. unfold covered. rewrite Eq. destruct (Hcov rest (conj Hne Hl) Hq) as [?|[?|[?|[? _]]]]; auto.
      done.
    + apply wp_ret, Hforeign; [done|]. apply stray_name.
      * intros b ->. by rewrite (proj2 (parse_hex_byte_iff (hex_string [b]) b)) in Eb.
      * intros i n _ _ _ _ _ Hs. fold p in Hs. rewrite Ht in Hs. by apply is_Some_None in Hs.
  - destruct Ht as [Ht1 Ht2]. apply wp_ret, Hforeign; [done|]. by apply stray_below.
Qed.

Lemma covered_mono rt fs fr fs' fr' dir q :
  fs ⊆ fs' -> fr ⊆ fr' -> covered rt fs fr dir q -> covered rt fs' fr' dir q.
Proof. unfold covered. intros H1' H2'. set_solver. Qed.

Lemma visit_entries_spec visit rt dir (reach : bytes -> path -> Prop) names : forall walk d,
  files d = F -> NoDup names ->
  (forall name walk d, name ∈ names -> files d = F -> wp (visit walk name) d (walk_post rt (located (dir ++ [name])) dir (reach name) walk)) ->
  wp (visit_entries visit names walk) d (walk_post rt (located_in dir names) dir (fun q => exists name, name ∈ names /\ reach name q) walk).
Proof.
  induction names as [|name names IH]; intros walk d Hd Hnd Hv; cbn [visit_entries].
  - apply wp_ret. split; [done|]. exists [], []. rewrite !app_nil_r. split; [by destruct walk|].
    split; [constructor|]. split; [by split; constructor|]. split; [constructor|]. by intros q (n & ?%elem_of_nil & _).
  - apply NoDup_cons in Hnd as [Hni Hnd]. apply wp_bind. eapply wp_mono; [by apply Hv; [left|]|]. intros [w1|e] d1 [Hd1 Hr]; [|done].
    destruct Hr as (fs & fr & -> & Hfs & Hloc & Hfr & Hc).
    eapply wp_mono; [apply IH; [done|done|]; intros; apply Hv; [by right|done]|].
    intros [w2|e] d2 [Hd2 Hr]; (split; [done|]); [|done]. destruct Hr as (fs2 & fr2 & -> & Hfs2 & Hloc2 & Hfr2 & Hc2).
    cbn [dw_files dw_foreign]. exists (fs ++ fs2), (fr ++ fr2). rewrite !app_assoc. split; [done|].
    split; [by apply Forall_app|]. split; [by apply located_cons|]. split; [by apply Forall_app|]. intros q (n & Hn & Hq) Hs.
    apply elem_of_cons in Hn as [->|Hn].
    + eapply covered_mono; [| |by apply Hc]; set_solver.
    + eapply covered_mono; [| |apply Hc2; eauto]; set_solver.
Qed.

(** One directory and everything below it. *)
Lemma walk_dir_spec fuel : forall chain walk d,
  tree_like F -> files d = F ->
  wp (walk_dir fuel (hexdir root chain) chain width own walk (bool_decide (chain = []))) d
    (walk_post (bool_decide (chain = [])) (located (hexdir root chain)) (hexdir root chain) (fun q => q <> [] /\ (length q <= fuel)%nat) walk).
Proof.
  induction fuel as [|fuel IH]; intros chain walk d Htree Hd; cbn [walk_dir].
  - apply wp_ret. split; [done|]. exists [], []. rewrite !app_nil_r. split; [by destruct walk|].
    split; [constructor|]. split; [apply located_nil|]. split; [constructor|]. intros [|x q] [Hq Hl]; [done|simpl in Hl; lia].
  - apply wp_bind. eapply wp_mono; [apply read_dir_spec|]. rewrite Hd. intros [names|e] d1 [Hd1 Hn]; [|done].
    destruct Hn as [Hnd Hall].
    eapply wp_mono; [apply (visit_entries_spec _ (bool_decide (chain = [])) (hexdir root chain)
      (fun name q => exists rest, q = name :: rest /\ (length rest <= fuel)%nat)); [done|by rewrite sort_by_perm|]|].
    + intros name walk' d' _ Hd'. apply visit_entry_spec; [done|done|].
      intros b walk2 d2 Hd2 _. specialize (IH (chain ++ [b]) walk2 d2 Htree Hd2).
      rewrite bool_decide_false in IH by (by destruct chain). exact IH.
    + intros r d2 [Hd2 Hr]. split; [done|]. destruct r as [w2|e]; [|done].
      destruct Hr as (fs & fr & -> & Hfs & Hloc & Hfr & Hc). exists fs, fr. split; [done|]. split; [done|].
      split; [by eapply located_in_dir|]. split; [done|].
      intros [|name rest] [Hne Hl] Hq; [done|]. apply Hc; [|done]. exists name. split.
      * apply elem_of_sort_by. exact (Hall name rest Hq).
      * exists rest. split; [done|]. simpl in Hl. lia.
Qed.

(** No file of the store's own lies on the way to a block file. *)
Definition own_apart : Prop :=
  forall p i n, p ∈ own -> BlockId_wf i -> (1 <= n <= id_width i)%nat ->
    ~ p `prefix_of` block_disk_path i (Z.of_nat n) root.

(** Where every file under the data root ended up. *)
Definition classified (walk : DiskWalk) (q : path) : Prop :=
  (exists f, f ∈ dw_files walk /\ bf_path f = root ++ q) \/
  (exists x, x ∈ dw_foreign walk /\ fp_path x `prefix_of` root ++ q) \/
  (exists p, p ∈ own /\ p `prefix_of` root ++ q) \/
  (exists n rest, q = n :: rest /\ is_the_stores_own n = true).

(** A walk that returns: what it accepts lies where a record can name it,
    every such file is accepted, what it calls foreign is on the way to no
    block file, and every file under the root is accounted for. *)
Lemma walk_disk_spec fuel d :
  tree_like F -> files d = F -> (forall q, is_Some (F !! (root ++ q)) -> (length q <= fuel)%nat) ->
  own_apart -> F !! root = None ->
  wp (walk_disk fuel root width own) d (fun r d' =>
    files d' = F /\
    match r with
    | Ok walk =>
        Forall accepted (dw_files walk) /\ NoDup (map bf_path (dw_files walk)) /\ Forall (fun x => stray (fp_path x)) (dw_foreign walk) /\
        (forall q, is_Some (F !! (root ++ q)) -> classified walk q) /\
        (forall i n, BlockId_wf i -> id_width i = width -> (1 <= n <= width)%nat ->
           is_Some (F !! block_disk_path i (Z.of_nat n) root) ->
           exists f, f ∈ dw_files walk /\ bf_id f = i /\ bf_depth f = Z.of_nat n)
    | Err _ => True
    end).
Proof.
  intros Htree Hd Hfuel Happ Hroot. unfold walk_disk, wp. destruct (path_exists root d) eqn:Ee; cbn [negb].
  2: { cbn. apply path_exists_spec in Ee as [_ Hb]. rewrite Hd in Hb. split; [done|]. split; [constructor|]. split; [constructor|]. split; [constructor|].
       assert (forall q, is_Some (F !! (root ++ q)) -> False) as Hno.
       { intros [|x q] Hq; [rewrite app_nil_r, Hroot in Hq; by apply is_Some_None in Hq|]. apply Hb. by exists x, q. }
       split; [by intros q ?%Hno|]. intros i n Hi _ _ Hs. exfalso. unfold block_disk_path in Hs. by eapply Hno. }
  pose proof (walk_dir_spec fuel [] (mkDiskWalk [] []) d Htree Hd) as Hw. unfold wp, hexdir in Hw.
  cbn [map] in Hw. rewrite app_nil_r in Hw. change (bool_decide ([] = [])) with true in Hw.
  destruct (walk_dir fuel root [] width own (mkDiskWalk [] []) true d) as [[walk|e] d'] eqn:E;
    cbn [fst snd] in *; destruct Hw as [Hd' Hr]; (split; [done|]); [|done].
  destruct Hr as (fs & fr & -> & Hfs & [_ Hnodup] & Hfr & Hc). cbn [dw_files dw_foreign app] in *.
  assert (forall q, is_Some (F !! (root ++ q)) -> classified (mkDiskWalk fs fr) q) as Hcl.
  { intros q Hq. destruct (Hc q) as [?|[?|[?|[_ ?]]]]; [|done|by left|right; by left|right; right; by left|by right; right; right].
    split; [|by apply Hfuel]. intros ->. rewrite app_nil_r, Hroot in Hq. by apply is_Some_None in Hq. }
  split; [done|]. split; [done|]. split; [done|]. split; [done|].
  intros i n Hi Hw Hn Hs. pose proof Hs as Hs0. rewrite block_path_hexdir in Hs0 by (done || lia).
  unfold hexdir in Hs0. rewrite <- app_assoc in Hs0. apply Hcl in Hs0.
  assert (root ++ map (fun b => hex_string [b]) (take n (as_slice i)) ++ [to_hex i] = block_disk_path i (Z.of_nat n) root) as Eq.
  { rewrite block_path_hexdir by (done || lia). unfold hexdir. by rewrite app_assoc. }
  unfold classified in Hs0. rewrite Eq in Hs0. destruct Hs0 as [(f & Hf & Ep)|[(x & Hx & Hp)|[(p & Hp & Hpre)|(m & rest & Em & Ho)]]].
  - exists f. split; [done|]. rewrite Forall_forall in Hfs. destruct (Hfs f Hf) as (Hfi & Hfw & Hfd & Hfp & _).
    rewrite Hfp in Ep. assert (bf_id f = i) as Hid by (by eapply block_disk_path_name_inj). split; [done|].
    apply (f_equal (fun l => Z.of_nat (length l))) in Ep. rewrite !length_block_disk_path in Ep by done.
    rewrite !clamp_depth_id in Ep by (done || lia). lia.
  - rewrite Forall_forall in Hfr. exfalso. by apply (Hfr x Hx i n).
  - exfalso. apply (Happ p i n); [done|done|lia|done].
  - exfalso. destruct (take n (as_slice i)) as [|b s] eqn:Et.
    + apply (f_equal length) in Et. rewrite length_take, length_as_slice in Et by done. simpl in Et. lia.
    + cbn in Em. injection Em as <- _. by rewrite hex_not_own in Ho.
Qed.
End Walk.
