(* ===== verification/PassSpecs.v ===== *)
(** What each pass of the scrub reports, and that the scrub changes nothing. *)

From S2P Require Import Prelude Bytes Orders Externals BlockIds Codec Records StoreHeader MetaStore Disk Placement MetaOps Accounting Engine BatchSpecs Commands Report Scrub Passes ScrubSpecs WalkSpecs.
From Stdlib Require Import Strings.Byte.
Local Open Scope Z_scope.
#[local] Set Warnings "-clear-no-such-hyp".

(* ------------------------------------------------------------------ *)
(** * Findings *)

(** The findings of a pass: of its classes, at their default severity. *)
Definition made (cs : list FindingClass) (l : list Finding) : Prop :=
  Forall (fun f => fi_class f ∈ cs /\ fi_severity f = default_severity (fi_class f)) l.

Lemma made_nil cs : made cs [].
Proof. constructor. Qed.

Lemma made_one cs f : fi_class f ∈ cs -> fi_severity f = default_severity (fi_class f) -> made cs [f].
Proof. intros Hc Hs. by repeat constructor. Qed.

Lemma made_app cs l k : made cs l -> made cs k -> made cs (l ++ k).
Proof. intros Hl Hk. by apply Forall_app. Qed.

Lemma made_weaken cs ds l : cs ⊆ ds -> made cs l -> made ds l.
Proof. intros Hs Hl. eapply Forall_impl; [exact Hl|]. intros f [Hc ?]. split; [by apply Hs|done]. Qed.

Lemma made_concat {A} cs (g : A -> list Finding) l : (forall x, made cs (g x)) -> made cs (concat (map g l)).
Proof. intros Hg. induction l as [|x l IH]; [constructor|]. cbn [map concat]. by apply made_app. Qed.

Create HintDb made.
#[export] Hint Resolve made_nil made_app made_concat : made.

(** One of the classes of a list. *)
Ltac made_now := apply made_one; [apply (bool_decide_unpack _); vm_compute; exact I|reflexivity].

(** A finding of class [c] about the block [i]. *)
Definition reported `{FasterHex} (c : FindingClass) (i : BlockId) (l : list Finding) : Prop :=
  exists f, f ∈ l /\ fi_class f = c /\ fi_block f = Some (to_hex i).

Lemma reported_app `{FasterHex} c i l k : reported c i (l ++ k) <-> reported c i l \/ reported c i k.
Proof. unfold reported. setoid_rewrite elem_of_app. naive_solver. Qed.

Lemma reported_made `{FasterHex} c i cs l : made cs l -> reported c i l -> c ∈ cs.
Proof. intros Hm (f & Hf & <- & _). unfold made in Hm. rewrite Forall_forall in Hm. by apply Hm. Qed.

(** A class no pass of a part makes is not reported by it. *)
Lemma reported_skip `{FasterHex} c i cs l k :
  made cs l -> c ∉ cs -> reported c i (l ++ k) <-> reported c i k.
Proof. intros Hm Hc. rewrite reported_app. split; [|by right]. intros [Hr|?]; [|done]. by apply (reported_made _ _ _ _ Hm) in Hr. Qed.

Lemma reported_only `{FasterHex} c i cs l k :
  made cs k -> c ∉ cs -> reported c i (l ++ k) <-> reported c i l.
Proof. intros Hm Hc. rewrite reported_app. split; [|by left]. intros [?|Hr]; [done|]. by apply (reported_made _ _ _ _ Hm) in Hr. Qed.

Lemma elem_of_concat_map {A} (g : A -> list Finding) l f :
  f ∈ concat (map g l) <-> exists x, x ∈ l /\ f ∈ g x.
Proof.
  induction l as [|x l IH]; cbn [map concat].
  - split; [by intros ?%elem_of_nil|]. by intros (x & ?%elem_of_nil & _).
  - rewrite elem_of_app, IH. setoid_rewrite elem_of_cons. naive_solver.
Qed.

(* ------------------------------------------------------------------ *)
(** * The recount *)

Section Recount.
Context `{FasterHexLaws, Unicode}.
Context (records : RecordWalk) (expected : ExpectedCounts) (m : kvmap) (n : BlockId -> nat).
Context (Hrec : forall i b, rw_records records !! i = Some b <-> BlockId_wf i /\ block_at m i = Some b).
Context (Hexp : forall i, expected !! i = if decide (n i = 0%nat) then None else Some (Z.of_nat (n i))).
Context (Hwf : forall i, (0 < n i)%nat -> BlockId_wf i).

Lemma record_of i : BlockId_wf i -> rw_records records !! i = block_at m i.
Proof.
  intros Hi. destruct (block_at m i) as [b|] eqn:E; [by apply Hrec|].
  destruct (rw_records records !! i) as [b|] eqn:E'; [|done]. apply Hrec in E' as [_ E']. congruence.
Qed.

(** What the recount says of one block. *)
Definition recount_of (i : BlockId) : list Finding :=
  if decide (n i = 0%nat)
  then match block_at m i with Some b => recount_unheld expected (i, b) | None => [] end
  else recount_held (rw_records records) (i, Z.of_nat (n i)).

Lemma elem_of_recount f :
  f ∈ recount expected records <-> exists i, BlockId_wf i /\ f ∈ recount_of i.
Proof.
  unfold recount. rewrite elem_of_app, !elem_of_concat_map. unfold recount_of. split.
  - intros [([i k] & Hi & Hf)|([i b] & Hi & Hf)]; apply elem_of_map_to_list in Hi.
    + rewrite Hexp in Hi. destruct (decide (n i = 0%nat)) as [|Hn]; [done|]. injection Hi as <-.
      exists i. rewrite decide_False by done. split; [apply Hwf; lia|done].
    + apply Hrec in Hi as [Hw Hb]. exists i. split; [done|]. destruct (decide (n i = 0%nat)) as [Hn|Hn]; [by rewrite Hb|].
      exfalso. unfold recount_unheld in Hf. rewrite Hexp, (decide_False (P := n i = 0%nat)) in Hf by done.
      rewrite decide_True in Hf by by eexists. by apply elem_of_nil in Hf.
  - intros (i & Hw & Hf). destruct (decide (n i = 0%nat)) as [Hn|Hn].
    + right. destruct (block_at m i) as [b|] eqn:Eb; [|by apply elem_of_nil in Hf]. exists (i, b). split; [|done].
      apply elem_of_map_to_list. by apply Hrec.
    + left. exists (i, Z.of_nat (n i)). split; [|done]. apply elem_of_map_to_list. rewrite Hexp. by rewrite decide_False.
Qed.

(** The verdict the recount ought to give. *)
Definition recount_verdict (c : FindingClass) (i : BlockId) : Prop :=
  match c with
  | MissingBlockRecord => block_at m i = None /\ (0 < n i)%nat
  | RefcountUnderCount => exists b, block_at m i = Some b /\ (0 < n i)%nat /\ b_rc b < Z.of_nat (n i)
  | RefcountOverCount => exists b, block_at m i = Some b /\ (n i = 0%nat \/ Z.of_nat (n i) < b_rc b)
  | _ => False
  end.

Lemma recount_of_spec i f :
  BlockId_wf i -> f ∈ recount_of i -> fi_block f = Some (to_hex i) /\ recount_verdict (fi_class f) i.
Proof.
  intros Hi. unfold recount_of. destruct (decide (n i = 0%nat)) as [Hn|Hn].
  - destruct (block_at m i) as [b|] eqn:Eb; [|by intros ?%elem_of_nil]. unfold recount_unheld. case_decide; [by intros ?%elem_of_nil|].
    intros ->%list_elem_of_singleton. split; [done|]. exists b. auto.
  - unfold recount_held. rewrite record_of by done. destruct (block_at m i) as [b|] eqn:Eb.
    + destruct (Z.ltb_spec (Z.of_nat (n i)) (b_rc b)).
      { intros ->%list_elem_of_singleton. split; [done|]. exists b. auto. }
      destruct (Z.ltb_spec (b_rc b) (Z.of_nat (n i))); [|by intros ?%elem_of_nil].
      intros ->%list_elem_of_singleton. split; [done|]. exists b. split; [done|]. split; [lia|done].
    + intros ->%list_elem_of_singleton. split; [done|]. split; [done|lia].
Qed.

Lemma recount_of_complete i c :
  BlockId_wf i -> recount_verdict c i -> exists f, f ∈ recount_of i /\ fi_class f = c.
Proof.
  intros Hi. unfold recount_of.
  destruct c; cbn [recount_verdict]; try done.
  - intros (b & Eb & Hc). destruct (decide (n i = 0%nat)) as [Hn|Hn].
    + rewrite Eb. unfold recount_unheld. rewrite Hexp, (decide_True (P := n i = 0%nat)) by done.
      rewrite decide_False by apply is_Some_None.
      eexists. split; [by left|done].
    + unfold recount_held. rewrite record_of, Eb by done. destruct Hc as [|Hc]; [done|].
      apply Z.ltb_lt in Hc. rewrite Hc. eexists. split; [by left|done].
  - intros (b & Eb & Hp & Hc). rewrite decide_False by lia. unfold recount_held. rewrite record_of, Eb by done.
    destruct (Z.ltb_spec (Z.of_nat (n i)) (b_rc b)); [lia|]. apply Z.ltb_lt in Hc. rewrite Hc.
    eexists. split; [by left|done].
  - intros [Eb Hp]. rewrite decide_False by lia. unfold recount_held. rewrite record_of, Eb by done.
    eexists. split; [by left|done].
Qed.

Lemma reported_recount c i :
  BlockId_wf i -> reported c i (recount expected records) <-> recount_verdict c i.
Proof.
  intros Hi. split.
  - intros (f & Hf & <- & Hb). apply elem_of_recount in Hf as (j & Hj & Hf).
    apply recount_of_spec in Hf as [Hb' Hv]; [|done]. assert (i = j) as -> by (apply to_hex_inj; congruence). done.
  - intros Hv. destruct (recount_of_complete i c Hi Hv) as (f & Hf & Hc). exists f.
    split; [apply elem_of_recount; eauto|]. split; [done|]. by apply recount_of_spec in Hf as [? _].
Qed.

Lemma recount_made : made [RefcountOverCount; RefcountUnderCount; MissingBlockRecord] (recount expected records).
Proof.
  unfold recount. apply made_app; apply made_concat; intros [i x].
  - unfold recount_held. destruct (_ !! i) as [b|]; [|made_now]. repeat case_match; auto with made; made_now.
  - unfold recount_unheld. case_decide; auto with made. made_now.
Qed.
End Recount.

(* ------------------------------------------------------------------ *)
(** * The disk sweep *)

Section DiskSweep.
Context `{FasterHexLaws, Unicode}.
Context (disk : DiskWalk) (records : RecordWalk).

Lemma disk_sweep_made : made [OrphanFile; OffDepthFile; SizeMismatch; ForeignFile] (disk_sweep disk records).
Proof.
  unfold disk_sweep. apply made_app.
  - apply made_concat. intros f. unfold sweep_file. destruct (_ !! _) as [b|]; [|made_now].
    repeat case_match; auto with made; made_now.
  - induction (dw_foreign disk) as [|f l IH]; [constructor|]. cbn [map]. constructor; [|done].
    split; [apply (bool_decide_unpack _); vm_compute; exact I|done].
Qed.

Lemma disk_sweep_file f x :
  f ∈ dw_files disk -> x ∈ sweep_file (rw_records records) (present_files disk) f -> x ∈ disk_sweep disk records.
Proof. intros Hf Hx. apply elem_of_app. left. apply elem_of_concat_map. eauto. Qed.

Lemma reported_size_mismatch f b :
  f ∈ dw_files disk -> rw_records records !! bf_id f = Some b -> b_depth b = bf_depth f -> b_size b <> bf_size f ->
  reported SizeMismatch (bf_id f) (disk_sweep disk records).
Proof.
  intros Hf Hb Hd Hs. eexists. split.
  - eapply disk_sweep_file; [exact Hf|]. unfold sweep_file. rewrite Hb. apply Z.eqb_eq in Hd as ->. cbn [negb].
    apply Z.eqb_neq in Hs as ->. cbn [negb]. by left.
  - done.
Qed.

Lemma reported_orphan f :
  f ∈ dw_files disk -> rw_records records !! bf_id f = None -> reported OrphanFile (bf_id f) (disk_sweep disk records).
Proof.
  intros Hf Hb. eexists. split.
  - eapply disk_sweep_file; [exact Hf|]. unfold sweep_file. rewrite Hb. by left.
  - done.
Qed.

Lemma reported_off_depth f g b :
  f ∈ dw_files disk -> rw_records records !! bf_id f = Some b -> b_depth b <> bf_depth f ->
  g ∈ dw_files disk -> bf_id g = bf_id f -> bf_depth g = b_depth b ->
  reported OffDepthFile (bf_id f) (disk_sweep disk records).
Proof.
  intros Hf Hb Hd Hg Hi Hgd. eexists. split.
  - eapply disk_sweep_file; [exact Hf|]. unfold sweep_file. rewrite Hb. apply Z.eqb_neq in Hd as ->. cbn [negb].
    rewrite decide_True; [by left|]. unfold present_files. apply elem_of_list_to_set, list_elem_of_fmap. exists g.
    by rewrite Hi, Hgd.
  - done.
Qed.

Lemma disk_sweep_foreign x : x ∈ dw_foreign disk -> to_finding x ∈ disk_sweep disk records.
Proof. intros Hx. apply elem_of_app. right. by apply list_elem_of_fmap_2. Qed.
End DiskSweep.

(* ------------------------------------------------------------------ *)
(** * Dangling records *)

Section Dangling.
Context {S T D : Type} `{ScrubFsLaws D, StoreLaws S T, FasterHexLaws, Unicode}.
Context (disk : DiskWalk).

Lemma elem_of_elsewhere i b d :
  d ∈ elsewhere disk i b <-> d <> b_depth b /\ exists f, f ∈ dw_files disk /\ bf_id f = i /\ bf_depth f = d.
Proof.
  unfold elsewhere. rewrite list_elem_of_filter, list_elem_of_omap. apply and_iff_compat_l. split.
  - intros (f & Hf & Hd). exists f. case_decide; [|done]. by injection Hd as ->.
  - intros (f & Hf & Hi & Hd). exists f. split; [done|]. rewrite decide_True by done. by rewrite Hd.
Qed.

(** The class of what the sweep says of a record. *)
Definition dangling_verdict (root : path) (F : gmap path bytes) (i : BlockId) (b : Block) : option FindingClass :=
  if is_degraded b then Some DegradedRecord
  else if decide (is_Some (F !! block_disk_path i (b_depth b) root)) then None
  else if decide (elsewhere disk i b = []) then Some DanglingRecord else Some AdoptableDanglingRecord.

Lemma is_file_iff p (d : D) : is_file p d = bool_decide (is_Some (files d !! p)).
Proof.
  destruct (is_file p d) eqn:E; symmetry.
  - apply bool_decide_eq_true. by apply is_file_spec in E.
  - apply bool_decide_eq_false. intros Hs%is_file_complete. congruence.
Qed.

Lemma sweep_record_spec root (d : D) i b :
  match dangling_verdict root (files d) i b with
  | Some c => exists f, (sweep_record root disk d (i, b)).1 = [f] /\ fi_class f = c /\
      fi_severity f = default_severity c /\ fi_block f = Some (to_hex i)
  | None => (sweep_record root disk d (i, b)).1 = []
  end.
Proof.
  unfold dangling_verdict, sweep_record. rewrite is_file_iff. destruct (is_degraded b); [by eexists|].
  case_decide as Hf; [by rewrite bool_decide_true|]. rewrite bool_decide_false by done.
  destruct (decide (elsewhere disk i b = [])); by eexists.
Qed.

(** Two findings alike but for their holders and evidence. *)
Definition same_finding (f g : Finding) : Prop :=
  fi_class f = fi_class g /\ fi_severity f = fi_severity g /\ fi_block f = fi_block g.

Lemma attach_spec {E} fuel unrecoverable l (w : World S D) :
  wp (attach_blast_radius (E := E) fuel unrecoverable l) w (fun r w' =>
    exists k, r = Ok k /\ Forall2 same_finding l k) /\
  (fuel_for fuel (kv (w_ns w)) -> fuel_for fuel (kv (w_shared w)) ->
   wp (attach_blast_radius (E := E) fuel unrecoverable l) w (fun _ w' => unchanged w w')).
Proof.
  unfold wp, attach_blast_radius. destruct (decide _) as [->|Hne].
  { split; [|done]. exists l. split; [done|]. by apply Forall2_same_length_lookup_2; [|intros ? ? ? -> [= ->]]. }
  split.
  - destruct (holders_of fuel unrecoverable w) as [[radius|e] w']; cbn [fst snd].
    + eexists. split; [done|]. induction l as [|f l IH]; constructor; [|done].
      unfold set_radius. repeat case_match; done.
    + eexists. split; [done|]. induction l as [|f l IH]; constructor; [|done].
      unfold radius_unavailable. by case_match.
  - intros Hf1 Hf2. unfold holders_of. rewrite decide_False by done.
    pose proof (walk_holders_spec (fun holder found => fold_left (add_holder (holder_ref holder)) (hits unrecoverable holder) found)
      fuel ∅ w Hf1 Hf2) as Hw. unfold wp in Hw.
    destruct (walk_holders _ fuel ∅ w) as [[radius|e] w']; cbn [fst snd] in *;
      destruct Hw as (Hn & Hs & Hd & _); unfold unchanged, wfiles, wnonce; by rewrite Hn, Hs, Hd.
Qed.

Lemma same_findings_elem l k f : Forall2 same_finding l k -> f ∈ k -> exists g, g ∈ l /\ same_finding g f.
Proof.
  intros HF Hf. apply list_elem_of_lookup in Hf as [n Hn]. destruct (Forall2_lookup_r _ _ _ _ _ HF Hn) as (g & Hg & ?).
  exists g. split; [by eapply list_elem_of_lookup_2|done].
Qed.

Lemma same_findings_sym l k : Forall2 same_finding l k -> Forall2 same_finding k l.
Proof. intros HF. apply Forall2_flip. eapply Forall2_impl; [exact HF|]. by intros f g (? & ? & ?). Qed.

Lemma reported_same c i l k : Forall2 same_finding l k -> reported c i k <-> reported c i l.
Proof.
  intros HF. unfold reported. split; intros (f & Hf & Hc & Hb).
  - destruct (same_findings_elem _ _ _ HF Hf) as (g & Hg & E1 & _ & E3). exists g. split; [done|]. by rewrite E1, E3.
  - destruct (same_findings_elem _ _ _ (same_findings_sym _ _ HF) Hf) as (g & Hg & E1 & _ & E3).
    exists g. split; [done|]. by rewrite E1, E3.
Qed.

(** The findings of the first loop of the sweep. *)
Definition swept root (d : D) records : list Finding :=
  concat (map (fun entry => (sweep_record root disk d entry).1) (map_to_list (rw_records records))).

Lemma elem_of_swept root (d : D) records f :
  f ∈ swept root d records <->
  exists i b, rw_records records !! i = Some b /\ f ∈ (sweep_record root disk d (i, b)).1.
Proof.
  unfold swept. rewrite elem_of_concat_map. split.
  - intros ([i b] & Hib%elem_of_map_to_list & Hf). eauto.
  - intros (i & b & Hib & Hf). exists (i, b). by rewrite elem_of_map_to_list.
Qed.

Lemma swept_made root (d : D) records : made [DegradedRecord; DanglingRecord; AdoptableDanglingRecord] (swept root d records).
Proof.
  apply made_concat. intros [i b]. pose proof (sweep_record_spec root d i b) as Hs. unfold dangling_verdict in Hs.
  repeat case_match; simplify_eq; try (rewrite Hs; apply made_nil); destruct Hs as (? & -> & Hc & Hv & _); apply made_one; rewrite ?Hv, Hc; try done;
    apply (bool_decide_unpack _); vm_compute; exact I.
Qed.

Lemma reported_swept root (d : D) records c i :
  (forall i b, rw_records records !! i = Some b -> BlockId_wf i) -> BlockId_wf i ->
  reported c i (swept root d records) <->
  exists b, rw_records records !! i = Some b /\ dangling_verdict root (files d) i b = Some c.
Proof.
  intros Hwf Hi. unfold reported. setoid_rewrite elem_of_swept. split.
  - intros (f & (j & b & Hj & Hf) & Hc & Hb). pose proof (sweep_record_spec root d j b) as Hs.
    destruct (dangling_verdict root (files d) j b) as [c'|] eqn:Ev.
    + destruct Hs as (g & Eg & Hc' & _ & Hb'). rewrite Eg in Hf. apply list_elem_of_singleton in Hf as ->.
      rewrite Hb' in Hb. injection Hb as Hb. apply to_hex_inj in Hb as ->; [|by eapply Hwf|done].
      exists b. by rewrite Ev, <- Hc, Hc'.
    + rewrite Hs in Hf. by apply elem_of_nil in Hf.
  - intros (b & Hb & Hv). pose proof (sweep_record_spec root d i b) as Hs. rewrite Hv in Hs.
    destruct Hs as (f & Ef & Hc & _ & Hbl). exists f. split; [|done]. exists i, b. split; [done|]. rewrite Ef. by left.
Qed.

(** The dangling sweep reports every record its verdict names, and no other. *)
Lemma dangling_sweep_spec {E} fuel ctx records (w : World S D) :
  fuel_for fuel (kv (w_ns w)) -> fuel_for fuel (kv (w_shared w)) ->
  (forall i b, rw_records records !! i = Some b -> BlockId_wf i) ->
  wp (dangling_sweep (E := E) fuel ctx records disk) w (fun r w' =>
    unchanged w w' /\ exists l, r = Ok l /\ made [DegradedRecord; DanglingRecord; AdoptableDanglingRecord] l /\
      forall c i, BlockId_wf i -> reported c i l <->
        exists b, rw_records records !! i = Some b /\ dangling_verdict (sc_blocks_root ctx) (wfiles w) i b = Some c).
Proof.
  intros Hf1 Hf2 Hwf. unfold dangling_sweep. apply wp_bind. unfold wp at 1, look. cbn [fst snd].
  rewrite (map_map _ (fun s : BlockId * (list Finding * bool) => s.2.1)).
  change (concat _) with (swept (sc_blocks_root ctx) (ds_disk (w_disk w)) records).
  edestruct (attach_spec (E := E)) as [Ha Hu]. specialize (Hu Hf1 Hf2). unfold wp in *. destruct Ha as (k & Er & HF).
  split; [exact Hu|]. exists k. split; [exact Er|]. split.
  - apply Forall_forall. intros f Hf. destruct (same_findings_elem _ _ _ HF Hf) as (g & Hg & E1 & E2 & _).
    pose proof (swept_made (sc_blocks_root ctx) (ds_disk (w_disk w)) records) as Hm. unfold made in Hm.
    rewrite Forall_forall in Hm. rewrite <- E1, <- E2. by apply Hm.
  - intros c i Hi. rewrite (reported_same c i _ _ HF). by apply reported_swept.
Qed.
End Dangling.

(* ------------------------------------------------------------------ *)
(** * Corruption *)

Section Corruption.
Context {S T D : Type} `{ScrubFsLaws D, StoreLaws S T, Blake3, FasterHexLaws, Unicode}.

Lemma wp_at_disk {E A} (f : IoError -> E) (m : M D IoError A) (w : World S D) Q :
  wp m (ds_disk (w_disk w)) (fun r d' => Q (map_err f r) (mkWorld (w_ns w) (w_shared w)
    (mkDiskState d' (ds_known_durable (w_disk w)) (ds_nonce (w_disk w))) (w_counters w))) ->
  wp (at_disk f m) w Q.
Proof. unfold wp, at_disk. by destruct (m (ds_disk (w_disk w))). Qed.

Lemma unchanged_refl (w : World S D) : unchanged w w.
Proof. done. Qed.

Lemma unchanged_trans (w1 w2 w3 : World S D) : unchanged w1 w2 -> unchanged w2 w3 -> unchanged w1 w3.
Proof. unfold unchanged. intros (? & ? & ? & ?) (? & ? & ? & ?). split_and!; congruence. Qed.

(** Every accepted file is read and hashed: a file whose bytes do not hash to
    its name is reported. *)
Lemma scrub_files_spec {E} ctx : forall l found (w : World S D),
  wp (scrub_files (E := E) ctx l found) w (fun r w' =>
    unchanged w w' /\ exists k, r = Ok (found ++ k) /\ made [CorruptBlock] k /\
      forall f c, f ∈ l -> wfiles w !! bf_path f = Some c ->
        hash_block (cfg_hasher (sc_cfg ctx)) c <> bf_id f -> reported CorruptBlock (bf_id f) k).
Proof.
  intros l. induction l as [|f l IH]; intros found w; cbn [scrub_files].
  - apply wp_ret. split; [done|]. exists []. rewrite app_nil_r. split; [done|]. split; [constructor|].
    by intros f c ?%elem_of_nil.
  - pose proof (fs_read_spec (bf_path f) (ds_disk (w_disk w))) as Hr. unfold wp, at_disk in *.
    destruct (fs_read (bf_path f) (ds_disk (w_disk w))) as [r d']; cbn [fst snd] in *. destruct Hr as [Hd Hr].
    set (w1 := mkWorld _ _ _ _). assert (unchanged w w1) as Hu by (split; [done|split; [done|split; [exact Hd|done]]]).
    destruct (IH (found ++ scrub_file ctx f (map_err id r)) w1) as (Hu2 & k & Ek & Hmade & Hall).
    split; [by eapply unchanged_trans|]. exists (scrub_file ctx f (map_err id r) ++ k). rewrite app_assoc. split; [done|]. split.
    + apply made_app; [|done]. unfold scrub_file. repeat case_match; auto with made; made_now.
    + intros g c [->|Hg]%elem_of_cons Hc Hne; apply reported_app.
      * left. destruct r as [bs|e]; cbn [map_err scrub_file]; [|eexists; split; [by left|done]].
        cbn beta iota in Hr. change (wfiles w) with (files (ds_disk (w_disk w))) in Hc. rewrite Hc in Hr. injection Hr as <-. rewrite decide_False by done. eexists. split; [by left|done].
      * right. apply (Hall g c); [done| |done]. destruct Hu as (_ & _ & E1 & _). by rewrite E1.
Qed.
End Corruption.

(* ------------------------------------------------------------------ *)
(** * Uploads and buckets *)

Section Rows.
Context {S T D : Type} `{ScrubFsLaws D, StoreLaws S T, FasterHexLaws, Unicode}.

Lemma visit_parts_made records l : forall uploads orphans u o,
  visit_all (visit_upload_part records) l (uploads, orphans) = Ok (u, o) ->
  made [OrphanPart] orphans -> made [OrphanPart] o.
Proof.
  induction l as [|[k raw] l IH]; intros uploads orphans u o Hv Hm; cbn [visit_all] in Hv; [by injection Hv as _ <-|].
  destruct (visit_upload_part records k raw (uploads, orphans)) as [[u1 o1]|e] eqn:Ev; [|done].
  apply (IH u1 o1 u o Hv). unfold visit_upload_part in Ev. destruct (MultiPart_try_from raw) as [p|]; [|done].
  destruct (records !! _); injection Ev as <- <-; [done|]. apply made_app; [done|made_now].
Qed.

(** The report of the uploads in flight. *)
Lemma multipart_report_spec fuel now (w : World S D) :
  fuel_for fuel (kv (w_shared w)) ->
  wp (multipart_report fuel now) w (fun r w' =>
    unchanged w w' /\ match r with Ok l => made [MultipartUpload; OrphanPart] l | Err _ => True end).
Proof.
  intros Hf. unfold multipart_report. apply wp_bind, wp_at_shared.
  eapply wp_mono; [apply fold_tree_spec; by apply fuel_for_tree|]. intros [records|e] s1 [Hk1 _]; cbn [map_err].
  2: { split; [|done]. unfold unchanged. by cbn [w_shared w_ns]. }
  apply wp_bind, wp_at_shared. cbn [w_shared]. eapply wp_mono; [apply tree_open_spec|].
  rewrite Hk1. intros [t|e] s2 [Hk2 Ht]; cbn [map_err].
  2: { split; [|done]. unfold unchanged. by cbn [w_shared w_ns]. }
  apply wp_bind, wp_at_shared. cbn [w_shared]. eapply wp_mono; [apply fold_tree_spec; rewrite Hk2; by apply fuel_for_tree|].
  rewrite Hk2. intros [[u o]|e] s3 [Hk3 Hr]; cbn [map_err].
  2: { split; [|done]. unfold unchanged. by cbn [w_shared w_ns]. }
  apply wp_ret. split; [unfold unchanged; by cbn [w_shared w_ns]|].
  destruct Hr as (l & _ & Hv). apply visit_parts_made in Hv; [|constructor]. apply made_app.
  - apply Forall_forall. intros f (e & -> & _)%list_elem_of_fmap. destruct e as [[[b k] i] t'].
    split; [apply (bool_decide_unpack _); vm_compute; exact I|done].
  - eapply made_weaken; [|done]. set_solver.
Qed.

Lemma bucket_findings_spec {E} trees : forall (s : S),
  wp (bucket_findings (E := E) trees) s (fun r s' =>
    kv s' = kv s /\ exists l, r = Ok l /\ made [HalfDeletedBucket] l /\ (l = [] -> trees = [])).
Proof.
  induction trees as [|t trees IH]; intros s; cbn [bucket_findings].
  - apply wp_ret. split; [done|]. exists []. split; [done|]. by split; [constructor|].
  - assert (kv ((handle ← tree_open t; tree_len handle) s).2 = kv s) as Hk.
    { change (wp (handle ← tree_open t; tree_len handle) s (fun _ s' => kv s' = kv s)).
      apply wp_bind. eapply wp_mono; [apply tree_open_spec|]. intros [t'|e] s' [Hk _]; [|done].
      eapply wp_mono; [apply tree_len_spec|]. intros r s2 [Hk2 _]. congruence. }
    unfold wp. destruct ((handle ← tree_open t; tree_len handle) s) as [n s1]; cbn [snd] in Hk.
    eapply (wp_bind (bucket_findings trees) (fun rest => mret (_ :: rest)) s1
      (fun r s' => kv s' = kv s /\ exists l, r = Ok l /\ made [HalfDeletedBucket] l /\ (l = [] -> t :: trees = []))).
    eapply wp_mono; [apply IH|]. intros r s2 (Hk2 & l & -> & Hm & _). apply wp_ret.
    rewrite Hk2. split; [done|]. eexists. split; [done|]. split; [|done].
    constructor; [|done]. split; [apply (bool_decide_unpack _); vm_compute; exact I|done].
Qed.

(** The bucket pass: silent, every object tree with a row has a bucket row. *)
Lemma bucket_integrity_spec fuel (s : S) :
  fuel_for fuel (kv s) ->
  wp (bucket_integrity fuel) s (fun r s' =>
    kv s' = kv s /\
    match r with
    | Ok l => made [HalfDeletedBucket] l /\
        (l = [] -> forall t k, is_Some (kv s !! (t, k)) -> reserved t = false ->
           is_Some (kv s !! (DEFAULT_BUCKET_TREE, t)))
    | Err _ => True
    end).
Proof.
  intros Hf. unfold bucket_integrity, list_bucket_names. apply wp_bind, wp_bind.
  eapply wp_mono; [apply tree_open_spec|]. intros [t|e] s1 [Hk1 Ht]; [subst t|done].
  eapply wp_mono; [apply iter_map_spec; rewrite Hk1; by apply fuel_for_tree|]. rewrite Hk1.
  intros [named|e] s2 [Hk2 Hr]; [|done]. apply wp_bind. eapply wp_mono; [apply list_trees_spec|]. rewrite Hk2.
  intros [trees|e] s3 [Hk3 Ht]; [|done]. destruct Ht as [_ Hall].
  eapply wp_mono; [apply bucket_findings_spec|]. rewrite Hk3. intros r s4 (Hk4 & l & -> & Hm & Hl).
  split; [done|]. split; [done|]. intros El t k Hs Hres. specialize (Hl El).
  destruct (decide (t ∈ named)) as [Hn|Hn].
  - destruct Hr as (rows & [_ Hrows] & HF). apply list_elem_of_lookup in Hn as [j Hj].
    destruct (Forall2_lookup_r _ _ _ _ _ HF Hj) as ([k' v] & Hkv & Ef). cbn in Ef. destruct (utf8_valid k'); [|done].
    injection Ef as ->. apply list_elem_of_lookup_2, Hrows in Hkv as [Hkv _]. by rewrite Hkv.
  - exfalso. apply (not_elem_of_nil t). rewrite <- Hl. unfold orphaned_trees. apply elem_of_sort_by, list_elem_of_filter.
    split; [done|]. by apply (Hall t k).
Qed.
End Rows.

(* ------------------------------------------------------------------ *)
(** * The whole scrub *)

Section Run.
Context {S T D : Type} `{ScrubFsLaws D, StoreLaws S T, Blake3, FasterHexLaws, !FasterHexSpelling, Unicode}.

Definition store_own (ctx : ScrubContext) (w : World S D) : gset path :=
  store_own_paths (sc_meta_root ctx) (ds_disk (w_disk w)).

(** What the scrub needs of a store: fuel for its trees and its directories,
    reference counts within 64 bits, a tree of files, and the store's own
    files away from the block files. *)
Record scrubbable (fuel : nat) (ctx : ScrubContext) (w : World S D) : Prop := mkScrubbable {
  sb_ns : fuel_for fuel (kv (w_ns w));
  sb_shared : fuel_for fuel (kv (w_shared w));
  sb_refs : forall i, Z.of_nat (refs w i) <= u64_max;
  sb_tree : tree_like (wfiles w);
  sb_depth : forall q, is_Some (wfiles w !! (sc_blocks_root ctx ++ q)) -> (length q <= fuel)%nat;
  sb_own : own_apart (sc_blocks_root ctx) (store_own ctx w);
  sb_root : wfiles w !! sc_blocks_root ctx = None
}.

(** Every record is of the store's hasher and names a depth its address has. *)
Definition records_named (ctx : ScrubContext) (w : World S D) : Prop :=
  forall i b, BlockId_wf i -> block_at (kv (w_shared w)) i = Some b ->
    id_width i = sc_id_width ctx /\ 1 <= b_depth b <= Z.of_nat (id_width i).

(** The parts of a report, and what each of them says of the store. *)
Record Audit : Type := mkAudit {
  au_records : RecordWalk;
  au_disk : DiskWalk;
  au_counted : list Finding;
  au_dangling : list Finding;
  au_corrupt : list Finding;
  au_uploads : list Finding;
  au_buckets : list Finding;
  au_recounted : bool
}.

Definition audit_findings (a : Audit) : list Finding :=
  rw_findings (au_records a) ++ au_counted a ++ disk_sweep (au_disk a) (au_records a) ++ au_dangling a ++
  au_corrupt a ++ au_uploads a ++ au_buckets a.

Definition records_exact (sh : kvmap) (walk : RecordWalk) : Prop :=
  (forall i b, rw_records walk !! i = Some b <-> BlockId_wf i /\ block_at sh i = Some b) /\
  made [UndecodableBlockRecord] (rw_findings walk) /\
  (rw_findings walk = [] -> forall key raw, sh !! (DEFAULT_BLOCK_TREE, key) = Some raw ->
     exists i b, BlockId_wf i /\ key = as_slice i /\ block_at sh i = Some b).

Definition disk_exact (F : gmap path bytes) (root : path) (width : nat) (own : gset path) (walk : DiskWalk) : Prop :=
  Forall (accepted F root width) (dw_files walk) /\ NoDup (map bf_path (dw_files walk)) /\
  Forall (fun x => stray F root width (fp_path x)) (dw_foreign walk) /\
  (forall q, is_Some (F !! (root ++ q)) -> classified root own walk q) /\
  (forall i n, BlockId_wf i -> id_width i = width -> (1 <= n <= width)%nat ->
     is_Some (F !! block_disk_path i (Z.of_nat n) root) ->
     exists f, f ∈ dw_files walk /\ bf_id f = i /\ bf_depth f = Z.of_nat n).

Record audited (ctx : ScrubContext) (options : ScrubOptions) (w : World S D) (a : Audit) : Prop := mkAudited {
  ad_records : records_exact (kv (w_shared w)) (au_records a);
  ad_disk : disk_exact (wfiles w) (sc_blocks_root ctx) (sc_id_width ctx) (store_own ctx w) (au_disk a);
  ad_counted : if au_recounted a
    then holders_decode (kv (w_ns w)) (kv (w_shared w)) /\
      exists expected, au_counted a = recount expected (au_records a) /\
        forall i, expected !! i = if decide (refs w i = 0%nat) then None else Some (Z.of_nat (refs w i))
    else exists e, au_counted a = [refusal_finding e];
  ad_dangling : made [DegradedRecord; DanglingRecord; AdoptableDanglingRecord] (au_dangling a) /\
    forall c i, BlockId_wf i -> reported c i (au_dangling a) <->
      exists b, rw_records (au_records a) !! i = Some b /\
        dangling_verdict (au_disk a) (sc_blocks_root ctx) (wfiles w) i b = Some c;
  ad_corrupt : made [CorruptBlock] (au_corrupt a) /\
    (so_scrub options = true -> forall f c, f ∈ dw_files (au_disk a) -> wfiles w !! bf_path f = Some c ->
       hash_block (cfg_hasher (sc_cfg ctx)) c <> bf_id f -> reported CorruptBlock (bf_id f) (au_corrupt a));
  ad_uploads : made [MultipartUpload; OrphanPart; HolderEnumerationFailed] (au_uploads a);
  ad_buckets : made [HalfDeletedBucket] (au_buckets a) /\
    (au_buckets a = [] -> forall t k, is_Some (kv (w_ns w) !! (t, k)) -> reserved t = false ->
       is_Some (kv (w_ns w) !! (DEFAULT_BUCKET_TREE, t)))
}.

(** The passes an audit ran. *)
Definition audit_of (options : ScrubOptions) (a : Audit) (rep : Report) : Prop :=
  exists store passes, rep = Report_new store passes (audit_findings a) /\
    bool_decide (Recount ∈ passes) = au_recounted a /\
    (CorruptionScrub ∈ passes <-> so_scrub options = true).

Lemma walk_records_exact fuel (s : S) :
  fuel_for fuel (kv s) ->
  wp (walk_records fuel) s (fun r s' => kv s' = kv s /\
    match r with Ok walk => records_exact (kv s) walk | Err _ => True end).
Proof.
  intros Hf. eapply wp_mono; [by apply walk_records_spec|]. intros [walk|e] s' [Hk Hr]; (split; [done|]); [|done].
  destruct Hr as (Hrec & Hfin & Hdec). split; [done|]. split; [|done]. apply Forall_forall. intros f Hf'.
  destruct (Hfin f Hf') as [-> ->]. split; [by left|done].
Qed.

Lemma walk_context_spec fuel ctx (w : World S D) :
  scrubbable fuel ctx w ->
  wp (walk_context fuel ctx) (ds_disk (w_disk w)) (fun r d' => files d' = wfiles w /\
    match r with
    | Ok walk => disk_exact (wfiles w) (sc_blocks_root ctx) (sc_id_width ctx) (store_own ctx w) walk
    | Err _ => True
    end).
Proof. intros [? ? ? ? ? ? ?]. unfold walk_context. by apply walk_disk_spec. Qed.

Lemma refs_unchanged (w w' : World S D) : unchanged w w' -> forall i, refs w' i = refs w i.
Proof. intros (E1 & E2 & _) i. unfold refs. by rewrite E1, E2. Qed.

(** The enumeration of the holders, and the recount or the refusal. *)
Lemma counted_spec fuel (w : World S D) (records : RecordWalk) :
  fuel_for fuel (kv (w_ns w)) -> fuel_for fuel (kv (w_shared w)) -> (forall i, Z.of_nat (refs w i) <= u64_max) ->
  wp (attempt (E' := ScrubError) (expected_counts fuel)) w (fun r w' => unchanged w w' /\
    exists e, r = Ok e /\
      match e with
      | Ok expected => holders_decode (kv (w_ns w)) (kv (w_shared w)) /\
          forall i, expected !! i = if decide (refs w i = 0%nat) then None else Some (Z.of_nat (refs w i))
      | Err _ => True
      end).
Proof.
  intros Hf1 Hf2 Hm. apply wp_attempt. eapply wp_mono; [by apply expected_counts_spec|].
  intros r w' (Hn & Hs & Hd & Hr). split.
  - split; [done|]. split; [done|]. unfold wfiles, wnonce. by rewrite Hd.
  - exists r. split; [done|]. destruct r as [expected|e]; [|done]. tauto.
Qed.

(** Which passes a concrete list holds. *)
Ltac passes_computed :=
  split; intros ?; try done;
  first [apply (bool_decide_unpack _); vm_compute; exact I
        | exfalso; match goal with K : _ ∈ _ |- _ => revert K end; apply (bool_decide_unpack _); vm_compute; exact I].

(** The scrub of a store: it changes nothing, and its report is an audit. *)
Lemma run_spec fuel now ctx options (w : World S D) :
  scrubbable fuel ctx w ->
  wp (run fuel now ctx options) w (fun r w' => unchanged w w' /\
    match r with Ok rep => exists a, audited ctx options w a /\ audit_of options a rep | Err _ => True end).
Proof.
  intros Hsb. pose proof Hsb as [Hf1 Hf2 Hm _ _ _ _]. unfold run.
  apply wp_bind, wp_at_shared. eapply wp_mono; [by apply walk_records_exact|].
  intros [records|e] s1 [Hk1 Hrec]; cbn [map_err]; [|split; [by split|done]].
  apply wp_bind, wp_at_disk. cbn [w_disk]. eapply wp_mono; [by apply walk_context_spec|].
  intros [disk|e] d1 [Hd1 Hdisk]; cbn [map_err]; [|split; [by split; [|split; [|split]]|done]].
  set (w1 := mkWorld _ _ _ _). assert (unchanged w w1) as Hu1 by (by split; [|split; [|split]]).
  pose proof (refs_unchanged _ _ Hu1) as Hr1. destruct Hu1 as (En1 & Es1 & Ef1 & Ex1).
  apply wp_bind. eapply wp_mono; [apply counted_spec; rewrite ?En1, ?Es1; try done; intros i; by rewrite Hr1|].
  intros r w2 [Hu2 (expected & -> & Hexp)].
  rewrite En1, Es1 in Hexp. pose proof (unchanged_trans _ _ _ (conj En1 (conj Es1 (conj Ef1 Ex1))) Hu2) as Hu.
  clear Hu2. destruct (match expected with Ok _ => _ | Err _ => _ end) as [ran counted] eqn:Ec.
  pose proof Hu as (En & Es & Ef & _). destruct Hrec as [Hrec Hrest].
  apply wp_bind. eapply wp_mono; [apply (dangling_sweep_spec disk); rewrite ?En, ?Es; try done; by intros i b [? _]%Hrec|].
  intros r w3 [Hu3 (dangling & -> & Hdmade & Hdang)]. apply (unchanged_trans _ _ _ Hu) in Hu3. rewrite Ef in Hdang.
  clear Hu En Es Ef. pose proof Hu3 as (En & Es & Ef & _).
  apply wp_bind. eapply wp_mono with (Q := fun r w' => unchanged w w' /\ exists corrupt, r = Ok corrupt /\ made [CorruptBlock] corrupt /\
    (so_scrub options = true -> forall f c, f ∈ dw_files disk -> wfiles w !! bf_path f = Some c ->
       hash_block (cfg_hasher (sc_cfg ctx)) c <> bf_id f -> reported CorruptBlock (bf_id f) corrupt)).
  { destruct (so_scrub options).
    - eapply wp_mono; [apply scrub_files_spec|]. intros r w4 [Hu4 (k & -> & Hm4 & Hk)].
      split; [by eapply unchanged_trans|]. exists k. split; [done|]. split; [done|]. intros _. rewrite <- Ef. exact Hk.
    - apply wp_ret. split; [done|]. exists []. split; [done|]. split; [constructor|done]. }
  intros r w4 [Hu4 (corrupt & -> & Hcmade & Hcor)]. clear Hu3 En Es Ef. pose proof Hu4 as (En & Es & _).
  apply wp_bind, wp_attempt. eapply wp_mono; [apply multipart_report_spec; by rewrite Es|].
  intros uploads w5 [Hu5 Hup]. apply (unchanged_trans _ _ _ Hu4) in Hu5. clear Hu4 En Es.
  destruct (match uploads with Ok _ => _ | Err _ => _ end) as [ran_up ups] eqn:Eu. pose proof Hu5 as (En & Es & Ef & Ex).
  apply wp_bind, wp_at_ns. eapply wp_mono; [apply bucket_integrity_spec; by rewrite En|]. rewrite En.
  intros [buckets|e] s6 [Hk6 Hb]; cbn [map_err]; [|split; [by split; [|split; [|split]]|done]].
  apply wp_ret. split; [by split; [|split; [|split]]|].
  exists (mkAudit records disk counted dangling corrupt ups buckets (is_ok expected)). split.
  - constructor; cbn [au_records au_disk au_counted au_dangling au_corrupt au_uploads au_buckets au_recounted]; try done.
    + destruct expected as [expected|e]; injection Ec as <- <-; cbn [is_ok]; [|by eexists].
      destruct Hexp as [Hdec Hexp]. split; [done|]. exists expected. split; [done|]. intros i. by rewrite Hexp, Hr1.
    + destruct uploads as [l|e]; injection Eu as <- <-; [|by made_now]. eapply made_weaken; [|done]. set_solver.
  - eexists _, _. split; [reflexivity|]. 
    destruct expected as [expected|e]; injection Ec as <- <-; destruct uploads as [l|e']; injection Eu as <- <-;
      destruct (so_scrub options); split; try reflexivity; passes_computed.
Qed.
End Run.
