(* ===== verification/FsTree.v ===== *)
(** The file system of RealDisk.v, as the scrub reads it: directory listings,
    file types and sizes.  It has no links and no special files. *)

From S2P Require Import Prelude Bytes Orders Externals BlockIds Codec Records StoreHeader MetaStore Disk Placement RealDisk MetaOps Engine Commands Report Scrub.
From Stdlib Require Import Strings.Byte.
Local Open Scope Z_scope.

(** What follows [p] in [q]. *)
Fixpoint after (p q : path) : option path :=
  match p, q with
  | [], _ => Some q
  | n :: p', m :: q' => if decide (n = m) then after p' q' else None
  | _ :: _, [] => None
  end.

Lemma after_app p q : after p (p ++ q) = Some q.
Proof. induction p as [|n p IH]; simpl; [done|]. by rewrite decide_True. Qed.

Lemma after_inv p q r : after p q = Some r -> q = p ++ r.
Proof.
  revert q. induction p as [|n p IH]; intros [|m q]; simpl; try congruence.
  destruct (decide (n = m)) as [->|]; [|done]. intros E. by rewrite (IH q E).
Qed.

(** The names in a directory: the next component of everything below it. *)
Definition next_name (p q : path) : option bytes :=
  match after p q with Some (n :: _) => Some n | _ => None end.

Definition names_below (p : path) (d : Fs) : list bytes :=
  remove_dups (omap (next_name p) ((map_to_list (fs_files d)).*1 ++ elements (fs_dirs d))).

Definition is_directory (p : path) (d : Fs) : bool :=
  bool_decide (p ∈ fs_dirs d) || bool_decide (names_below p d <> []).

Lemma names_below_file p d n rest : is_Some (fs_files d !! (p ++ n :: rest)) -> n ∈ names_below p d.
Proof.
  intros [c Hc]. apply elem_of_remove_dups, list_elem_of_omap. exists (p ++ n :: rest). split.
  - apply elem_of_app. left. apply list_elem_of_fmap. exists (p ++ n :: rest, c). split; [done|].
    by apply elem_of_map_to_list.
  - unfold next_name. by rewrite after_app.
Qed.

#[global] Instance Fs_scrub : ScrubFs Fs := {|
  read_dir p := syscall (fun d =>
    if is_directory p d && bool_decide (fs_files d !! p = None) then (Ok (names_below p d), d)
    else (Err (mkIoError IoNotFound "no such directory"), d));
  file_type p := syscall (fun d =>
    if bool_decide (is_Some (fs_files d !! p)) then (Ok IsFile, d)
    else if is_directory p d then (Ok IsDir, d)
    else (Err (mkIoError IoNotFound "no such file"), d));
  file_len p := syscall (fun d =>
    match fs_files d !! p with
    | Some c => (Ok (Z.of_nat (length c)), d)
    | None => if is_directory p d then (Ok 0, d) else (Err (mkIoError IoNotFound "no such file"), d)
    end);
  path_exists p d := bool_decide (is_Some (fs_files d !! p)) || is_directory p d;
  canonicalize p d :=
    if bool_decide (is_Some (fs_files d !! p)) || is_directory p d then Some p else None
|}.

#[global] Instance Fs_scrub_laws : ScrubFsLaws Fs.
Proof.
  constructor.
  - intros p d. apply wp_syscall; [done|]. intros d' Hf. unfold wp, files, Fs_view in *.
    destruct (_ && _); [|done]. split; [done|]. split; [apply NoDup_remove_dups|].
    intros n rest Hs. rewrite <- Hf in Hs. by eapply names_below_file.
  - intros p d. apply wp_syscall; [done|]. intros d' Hf. unfold wp, files, Fs_view in *.
    case_bool_decide as Hp; simpl; rewrite Hf in *; [done|]. destruct (is_directory p d'); simpl; [|done].
    split; [done|]. by apply eq_None_not_Some.
  - intros p d. apply wp_syscall; [done|]. intros d' Hf. unfold wp, files, Fs_view in *.
    destruct (fs_files d' !! p) as [c|] eqn:E; rewrite Hf in E.
    + split; [done|]. intros c'. simpl. congruence.
    + destruct (is_directory p d'); (split; [done|]); [|done]. simpl. congruence.
  - intros p d Hp. simpl in Hp. apply orb_false_iff in Hp as [Hp Hd%orb_false_iff]. destruct Hd as [_ Hn].
    apply bool_decide_eq_false in Hp, Hn. split; [by apply eq_None_not_Some|].
    intros (n & rest & Hs%names_below_file). apply Hn. intros E. rewrite E in Hs. by apply elem_of_nil in Hs.
  - intros p d Hp. simpl. by apply bool_decide_eq_true.
Qed.
