(* ===== verification/ScrubSample.v ===== *)
(** Sample stores for the scrub: a checker for what it needs of a store, a
    clean store, and stores with one thing wrong. *)

From S2P Require Import Prelude Bytes Orders Externals BlockIds Codec Records StoreHeader MetaStore Disk Placement RealDisk Fjall MetaOps Accounting Engine BatchSpecs WriteSpecs ObjectSpecs Commands Report Scrub Passes ScrubSpecs WalkSpecs PassSpecs FsTree Sample.
Import Concrete MemFjall.
From Stdlib Require Import Strings.Byte.
Local Open Scope Z_scope.
#[local] Set Warnings "-clear-no-such-hyp".

(** Every reference there is, whatever it is to. *)
Definition all_refs (ns sh : kvmap) : nat :=
  (msum (fun k raw => if reserved k.1 then 0 else length (blocks_of_object_raw raw)) ns +
   msum (fun k raw => if decide (k.1 = MULTIPART_PARTS_TREE) then length (blocks_of_part_raw raw) else 0) sh)%nat.

Lemma msum_le f g m : (forall k v, (f k v <= g k v)%nat) -> (msum f m <= msum g m)%nat.
Proof.
  intros Hle. induction m as [|k v m Hk IH] using map_ind; [done|]. rewrite !msum_insert_new by done.
  specialize (Hle k v). lia.
Qed.

Lemma refs_le_all {S T D : Type} `{StoreView S T} (w : World S D) i : (refs w i <= all_refs (kv (w_ns w)) (kv (w_shared w)))%nat.
Proof.
  unfold refs, all_refs, obj_refs, part_refs. apply Nat.add_le_mono; apply msum_le; intros k v.
  - unfold object_weight. case_match; [done|apply occ_length].
  - unfold part_weight. case_decide; [apply occ_length|done].
Qed.

(** [q] lies strictly below [p]. *)
Definition below (p q : path) : bool := match after p q with Some (_ :: _) => true | _ => false end.

Definition flat (m : gmap path bytes) : Prop := map_Forall (fun p _ => map_Forall (fun q _ => below p q = false) m) m.

Lemma flat_tree_like m : flat m -> tree_like m.
Proof.
  intros Hf p [c Hp] (n & rest & c' & Hq). specialize (Hf p c Hp _ _ Hq). unfold below in Hf. by rewrite after_app in Hf.
Qed.

Definition shallow (fuel : nat) (root : path) (m : gmap path bytes) : Prop :=
  map_Forall (fun p _ => match after root p with Some q => (length q <= fuel)%nat | None => True end) m.
#[export] Instance shallow_dec fuel root m : Decision (shallow fuel root m).
Proof. unfold shallow. apply map_Forall_dec. intros p c. destruct (after root p); apply _. Defined.

(** The store's own files are neither above nor below the data root. *)
Definition own_clear (root : path) (own : gset path) : Prop := set_Forall (fun p => ~ p `prefix_of` root /\ ~ root `prefix_of` p) own.
#[export] Instance own_clear_dec root own : Decision (own_clear root own).
Proof. apply set_Forall_dec. intros p. apply _. Defined.

Lemma own_clear_apart root own : own_clear root own -> own_apart root own.
Proof.
  intros Hc p i n Hp _ _ Hpre. destruct (Hc p Hp) as [H1 H2].
  assert (root `prefix_of` block_disk_path i (Z.of_nat n) root) as Hr by (unfold block_disk_path; repeat case_match; by eexists).
  destruct (prefix_weak_total _ _ _ Hpre Hr); [by apply H1|by apply H2].
Qed.

(** A store the scrub can be run on, checked by evaluation. *)
Definition scrubbable_check (fuel : nat) (ctx : ScrubContext) (w : SampleWorld) : Prop :=
  fuel_for fuel (kv (w_ns w)) /\ fuel_for fuel (kv (w_shared w)) /\
  Z.of_nat (all_refs (kv (w_ns w)) (kv (w_shared w))) <= u64_max /\
  flat (wfiles w) /\ shallow fuel (sc_blocks_root ctx) (wfiles w) /\ own_clear (sc_blocks_root ctx) (store_own ctx w) /\
  wfiles w !! sc_blocks_root ctx = None.

#[export] Instance scrubbable_check_dec fuel ctx w : Decision (scrubbable_check fuel ctx w).
Proof. unfold scrubbable_check, fuel_for, flat. apply _. Defined.

Lemma scrubbable_checked fuel ctx w : scrubbable_check fuel ctx w -> scrubbable fuel ctx w.
Proof.
  intros (Hn & Hs & Hr & Hf & Hd & Ho & Hroot). constructor; try done.
  - intros i. pose proof (refs_le_all w i). lia.
  - by apply flat_tree_like.
  - intros q [c Hq]. specialize (Hd _ _ Hq). cbn beta in Hd. by rewrite after_app in Hd.
  - by apply own_clear_apart.
Qed.

Definition f_ctx : ScrubContext := mkScrubContext s_cfg None.
Definition f_fuel : nat := 40.

(** The sample store with its bucket: clean. *)
Definition f_clean : SampleWorld :=
  mkWorld (insert_bucket s_bucket [] (w_ns s_full)).2 (w_shared s_full) (w_disk s_full) (w_counters s_full).

Lemma f_clean_scrubbable : scrubbable f_fuel f_ctx f_clean.
Proof. apply scrubbable_checked. apply (bool_decide_unpack _). vm_compute. exact I. Qed.

Definition named_check (ctx : ScrubContext) (m : kvmap) : Prop :=
  map_Forall (fun k raw => k.1 = DEFAULT_BLOCK_TREE ->
    match from_slice k.2, Block_try_from raw with
    | Ok i, Ok b => id_width i = sc_id_width ctx /\ 1 <= b_depth b /\ b_depth b <= Z.of_nat (id_width i)
    | _, _ => True
    end) m.
#[export] Instance named_check_dec ctx m : Decision (named_check ctx m).
Proof. apply map_Forall_dec. intros k raw. destruct (from_slice k.2); destruct (Block_try_from raw); apply _. Defined.

Lemma named_checked ctx (w : SampleWorld) : named_check ctx (kv (w_shared w)) -> records_named ctx w.
Proof.
  intros Hn i b Hi Hb. unfold block_at, block_key in Hb. destruct (kv (w_shared w) !! _) as [raw|] eqn:E; [|done].
  specialize (Hn _ _ E eq_refl). cbn in Hn, Hb. rewrite from_slice_as_slice in Hn by done.
  destruct (Block_try_from raw); [|done]. injection Hb as ->. lia.
Qed.

Lemma f_clean_named : records_named f_ctx f_clean.
Proof. apply named_checked. apply (bool_decide_unpack _). vm_compute. exact I. Qed.

(** The report of a scrub of a sample store. *)
Definition report_on (w : SampleWorld) : option Report :=
  match (run f_fuel 0 f_ctx full w).1 with Ok rep => Some rep | Err _ => None end.

Lemma f_clean_report : rp_findings <$> report_on f_clean = Some [].
Proof. vm_compute. reflexivity. Qed.

(** The same store with a record that counts one reference too few, and with a
    block file gone. *)
Definition f_hello : BlockId := s_id (str "hello").
Definition s_record (i : BlockId) (w : SampleWorld) : Block := default (mkBlock 0 0 0 0) (block_at (kv (w_shared w)) i).

Definition f_under : SampleWorld :=
  mkWorld (w_ns f_clean) (tree_insert DEFAULT_BLOCK_TREE (as_slice f_hello)
    (Block_to_vec (mkBlock (b_size (s_record f_hello f_clean)) (b_depth (s_record f_hello f_clean)) 1 0)) (w_shared f_clean)).2
    (w_disk f_clean) (w_counters f_clean).

Definition f_gone : SampleWorld :=
  mkWorld (w_ns f_clean) (w_shared f_clean)
    (mkDiskState (real_remove_file (block_disk_path f_hello (b_depth (s_record f_hello f_clean)) s_root) (ds_disk (w_disk f_clean))).2
       (ds_known_durable (w_disk f_clean)) (ds_nonce (w_disk f_clean))) (w_counters f_clean).

Ltac checked := apply (bool_decide_unpack _); vm_compute; exact I.

Lemma f_under_scrubbable : scrubbable f_fuel f_ctx f_under.
Proof. apply scrubbable_checked. checked. Qed.

Lemma f_gone_scrubbable : scrubbable f_fuel f_ctx f_gone.
Proof. apply scrubbable_checked. checked. Qed.

(** A run that evaluation shows to return a value with a property. *)
Lemma run_returns {S E A} (m : M S E A) s (P : A -> bool) :
  match (m s).1 with Ok a => P a | Err _ => false end = true -> exists a s', m s = (Ok a, s') /\ P a = true.
Proof. destruct (m s) as [[a|e] s']; [|done]. intros Hp. by exists a, s'. Qed.
