(* ===== verification/ScrubProps.v ===== *)
(** What a scrub is worth: its verdicts are exact, and a report without
    findings certifies the store. *)

From S2P Require Import Prelude Bytes Orders Externals BlockIds Codec Records StoreHeader MetaStore Disk Placement RealDisk Fjall MetaOps Accounting Engine BatchSpecs Commands Report Scrub Passes ScrubSpecs WalkSpecs PassSpecs FsTree WriteSpecs ObjectSpecs Sample ScrubSample.
From Stdlib Require Import Strings.Byte.
Local Open Scope Z_scope.
#[local] Set Warnings "-clear-no-such-hyp".

Section Verdicts.
Context {S T D : Type} `{ScrubFsLaws D, StoreLaws S T, Blake3, FasterHexLaws, !FasterHexSpelling, Unicode}.
Context (ctx : ScrubContext) (options : ScrubOptions) (w : World S D) (a : Audit).
Context (Ha : audited ctx options w a).

Lemma counted_made : made [RefcountOverCount; RefcountUnderCount; MissingBlockRecord; HolderEnumerationFailed] (au_counted a).
Proof.
  pose proof (ad_counted _ _ _ _ Ha) as Hc. destruct (au_recounted a).
  - destruct Hc as (_ & expected & -> & _). eapply made_weaken; [|apply recount_made]. set_solver.
  - destruct Hc as [e ->]. made_now.
Qed.

(** The classes of the other parts. *)
Lemma parts_made :
  made [UndecodableBlockRecord] (rw_findings (au_records a)) /\
  made [OrphanFile; OffDepthFile; SizeMismatch; ForeignFile] (disk_sweep (au_disk a) (au_records a)) /\
  made [DegradedRecord; DanglingRecord; AdoptableDanglingRecord] (au_dangling a) /\
  made [CorruptBlock] (au_corrupt a) /\ made [MultipartUpload; OrphanPart; HolderEnumerationFailed] (au_uploads a) /\
  made [HalfDeletedBucket] (au_buckets a).
Proof.
  destruct Ha as [(_ & Hr & _) _ _ [Hd _] [Hc _] Hu [Hb _]]. pose proof (disk_sweep_made (au_disk a) (au_records a)).
  repeat (split; [assumption|]). assumption.
Qed.

(** A class that only one part makes is reported when that part reports it. *)
Ltac one_part :=
  destruct parts_made as (Hr & Hs & Hd & Hc & Hu & Hb); pose proof counted_made as Hcm;
  intros Hin; unfold audit_findings; rewrite !reported_app;
  repeat (apply elem_of_cons in Hin as [->|Hin]); [..|by apply elem_of_nil in Hin];
  (split; [|tauto]); intros [K|[K|[K|[K|[K|[K|K]]]]]]; try done; exfalso;
  match goal with
  | Hm : made _ ?l, K' : reported _ _ ?l |- _ =>
      apply (reported_made _ _ _ _ Hm) in K'; revert K'; apply (bool_decide_unpack _); vm_compute; exact I
  end.

Lemma reported_counted c i :
  c ∈ [RefcountOverCount; RefcountUnderCount; MissingBlockRecord] ->
  reported c i (audit_findings a) <-> reported c i (au_counted a).
Proof. one_part. Qed.

Lemma reported_dangling c i :
  c ∈ [DegradedRecord; DanglingRecord; AdoptableDanglingRecord] ->
  reported c i (audit_findings a) <-> reported c i (au_dangling a).
Proof. one_part. Qed.

(** Every finding of an audit has the severity of its class. *)
Lemma audit_severity f : f ∈ audit_findings a -> fi_severity f = default_severity (fi_class f).
Proof.
  destruct parts_made as (Hr & Hs & Hd & Hc & Hu & Hb). pose proof counted_made as Hcm.
  unfold audit_findings, made in *. rewrite Forall_forall in *.
  rewrite !elem_of_app. intros [K|[K|[K|[K|[K|[K|K]]]]]].
  all: match goal with Hm : forall x, x ∈ ?l -> _, K' : _ ∈ ?l |- _ => apply (Hm _ K') end.
Qed.
End Verdicts.

(* ------------------------------------------------------------------ *)
(** * Runs *)

Section Runs.
Context {S T D : Type} `{ScrubFsLaws D, StoreLaws S T, Blake3, FasterHexLaws, !FasterHexSpelling, Unicode}.

(** A scrub that returned: its report is an audit of the store. *)
Lemma run_audit fuel now ctx options (w w' : World S D) rep :
  scrubbable fuel ctx w -> run fuel now ctx options w = (Ok rep, w') ->
  unchanged w w' /\ exists a, audited ctx options w a /\ audit_of options a rep.
Proof. intros Hs Hr. pose proof (run_spec fuel now ctx options w Hs) as Hw. unfold wp in Hw. by rewrite Hr in Hw. Qed.

Lemma report_of options a rep f : audit_of options a rep -> f ∈ rp_findings rep <-> f ∈ audit_findings a.
Proof. intros (store & passes & -> & _). apply elem_of_report. Qed.

Lemma reported_of options a rep c i : audit_of options a rep -> reported c i (rp_findings rep) <-> reported c i (audit_findings a).
Proof. intros Ho. unfold reported. by setoid_rewrite (report_of options a rep _ Ho). Qed.

Lemma ran_recount options a rep : audit_of options a rep -> ran rep Recount = au_recounted a.
Proof. by intros (store & passes & -> & <- & _). Qed.

(** C12: The recount of a scrub is exact.  When it ran, a block is reported
    under-counted exactly when its record counts fewer references than the
    object and part records hold (it could be freed while in use), over-counted
    exactly when it counts more or nothing holds it, and missing exactly when
    it is held and has no record; and the scrub has changed nothing. *)
Theorem recount_exact fuel now ctx options (w w' : World S D) rep i :
  scrubbable fuel ctx w -> run fuel now ctx options w = (Ok rep, w') -> ran rep Recount = true -> BlockId_wf i ->
  unchanged w w' /\
  (reported RefcountUnderCount i (rp_findings rep) <->
     exists b, block_at (kv (w_shared w)) i = Some b /\ (0 < refs w i)%nat /\ b_rc b < Z.of_nat (refs w i)) /\
  (reported RefcountOverCount i (rp_findings rep) <->
     exists b, block_at (kv (w_shared w)) i = Some b /\ (refs w i = 0%nat \/ Z.of_nat (refs w i) < b_rc b)) /\
  (reported MissingBlockRecord i (rp_findings rep) <->
     block_at (kv (w_shared w)) i = None /\ (0 < refs w i)%nat).
Proof.
  intros Hs Hr Hran Hi. destruct (run_audit _ _ _ _ _ _ _ Hs Hr) as [Hu (a & Ha & Ho)]. split; [done|].
  rewrite (ran_recount _ _ _ Ho) in Hran. pose proof (ad_counted _ _ _ _ Ha) as Hc. rewrite Hran in Hc.
  destruct Hc as (_ & expected & Ec & Hexp). destruct (ad_records _ _ _ _ Ha) as [Hrec _].
  rewrite !(reported_of _ _ _ _ _ Ho), !(reported_counted _ _ _ _ Ha) by (apply (bool_decide_unpack _); vm_compute; exact I).
  rewrite Ec, !(reported_recount (au_records a) expected (kv (w_shared w)) (refs w) Hrec Hexp (refs_wf w) _ i Hi). done.
Qed.

(** A block's file at some depth its address has. *)
Definition on_disk (ctx : ScrubContext) (w : World S D) (i : BlockId) : Prop :=
  exists n, (1 <= n <= id_width i)%nat /\ is_Some (wfiles w !! block_disk_path i (Z.of_nat n) (sc_blocks_root ctx)).

Lemma elsewhere_spec ctx options (w : World S D) a i b :
  audited ctx options w a -> BlockId_wf i -> id_width i = sc_id_width ctx ->
  wfiles w !! block_disk_path i (b_depth b) (sc_blocks_root ctx) = None ->
  elsewhere (au_disk a) i b <> [] <-> on_disk ctx w i.
Proof.
  intros Ha Hi Hw Hf. destruct (ad_disk _ _ _ _ Ha) as (Hacc & _ & _ & _ & Hall). rewrite Forall_forall in Hacc. split.
  - destruct (elsewhere (au_disk a) i b) as [|d l] eqn:E; [done|]. intros _.
    assert (d ∈ elsewhere (au_disk a) i b) as Hd by (rewrite E; by left).
    apply elem_of_elsewhere in Hd as (_ & f & Hin & <- & <-). destruct (Hacc f Hin) as (_ & Hwf & Hd & Hp & c & Hc & _).
    exists (Z.to_nat (bf_depth f)). split; [lia|]. rewrite Z2Nat.id by lia. rewrite <- Hp. by eexists.
  - intros (n & Hn & Hs). destruct (Hall i n Hi Hw ltac:(lia) Hs) as (f & Hin & Hid & Hd).
    intros E. apply (not_elem_of_nil (Z.of_nat n)). rewrite <- E. apply elem_of_elsewhere. split; [|eauto].
    intros Hb. rewrite Hb, Hf in Hs. by apply is_Some_None in Hs.
Qed.

(** The dangling sweep is exact.  A record is reported degraded exactly when
    it is flagged; dangling exactly when it is healthy and no file of the block
    is on the disk at any depth; adoptable exactly when it is healthy, its own
    path has no file and another depth has one. *)
Theorem dangling_exact fuel now ctx options (w w' : World S D) rep i :
  scrubbable fuel ctx w -> run fuel now ctx options w = (Ok rep, w') ->
  BlockId_wf i -> id_width i = sc_id_width ctx ->
  (reported DegradedRecord i (rp_findings rep) <->
     exists b, block_at (kv (w_shared w)) i = Some b /\ is_degraded b = true) /\
  (reported DanglingRecord i (rp_findings rep) <->
     exists b, block_at (kv (w_shared w)) i = Some b /\ is_degraded b = false /\ ~ on_disk ctx w i) /\
  (reported AdoptableDanglingRecord i (rp_findings rep) <->
     exists b, block_at (kv (w_shared w)) i = Some b /\ is_degraded b = false /\ on_disk ctx w i /\
       wfiles w !! block_disk_path i (b_depth b) (sc_blocks_root ctx) = None).
Proof.
  intros Hs Hr Hi Hw. destruct (run_audit _ _ _ _ _ _ _ Hs Hr) as [_ (a & Ha & Ho)].
  destruct (ad_records _ _ _ _ Ha) as [Hrec _]. destruct (ad_dangling _ _ _ _ Ha) as [_ Hd].
  rewrite !(reported_of _ _ _ _ _ Ho), !(reported_dangling _ _ _ _ Ha) by (apply (bool_decide_unpack _); vm_compute; exact I).
  rewrite !Hd by done. setoid_rewrite Hrec. unfold dangling_verdict.
  assert (forall b, is_Some (wfiles w !! block_disk_path i (b_depth b) (sc_blocks_root ctx)) -> on_disk ctx w i) as Hown.
  { intros b Hp. destruct (block_path_clamped i (b_depth b) (sc_blocks_root ctx) Hi) as (n & Hn & Hc & E).
    exists n. split; [done|]. rewrite block_path_hexdir by done. by rewrite <- E. }
  split; [|split].
  - split.
    + intros (b & [_ Hb] & Hv). exists b. split; [done|]. repeat case_match; simplify_eq; done.
    + intros (b & Hb & Hdeg). exists b. by rewrite Hdeg.
  - split.
    + intros (b & [_ Hb] & Hv). exists b. split; [done|]. destruct (is_degraded b); [done|]. split; [done|].
      destruct (decide (is_Some _)) as [|Hp]; [done|]. apply eq_None_not_Some in Hp. intros Hon.
      apply (elsewhere_spec _ _ _ _ _ b Ha Hi Hw Hp) in Hon. by rewrite decide_False in Hv.
    + intros (b & Hb & Hdeg & Hon). exists b. split; [done|]. rewrite Hdeg. destruct (decide (is_Some _)) as [Hp|Hp]; [by destruct Hon; apply (Hown b)|].
      apply eq_None_not_Some in Hp. rewrite decide_True; [done|]. destruct (decide (elsewhere (au_disk a) i b = [])); [done|].
      by destruct Hon; apply (elsewhere_spec _ _ _ _ _ b Ha Hi Hw Hp).
  - split.
    + intros (b & [_ Hb] & Hv). exists b. split; [done|]. destruct (is_degraded b); [done|]. split; [done|].
      destruct (decide (is_Some _)) as [|Hp]; [done|]. apply eq_None_not_Some in Hp. split; [|done].
      apply (elsewhere_spec _ _ _ _ _ b Ha Hi Hw Hp). intros E. by rewrite decide_True in Hv.
    + intros (b & Hb & Hdeg & Hon & Hp). exists b. split; [done|]. rewrite Hdeg. rewrite decide_False by (rewrite Hp; apply is_Some_None).
      by rewrite decide_False by (by apply (elsewhere_spec _ _ _ _ _ b Ha Hi Hw Hp)).
Qed.

(** A file the scrub does not report is the block its name says. *)
Lemma unreported_file ctx options (w : World S D) a i n c :
  audited ctx options w a -> so_scrub options = true -> BlockId_wf i -> id_width i = sc_id_width ctx ->
  (1 <= n <= id_width i)%nat -> wfiles w !! block_disk_path i (Z.of_nat n) (sc_blocks_root ctx) = Some c ->
  ~ reported CorruptBlock i (audit_findings a) ->
  hash_block (cfg_hasher (sc_cfg ctx)) c = i /\
  (~ reported SizeMismatch i (audit_findings a) ->
   forall b, block_at (kv (w_shared w)) i = Some b -> b_depth b = Z.of_nat n -> Z.of_nat (length c) = b_size b).
Proof.
  intros Ha Hfull Hi Hw Hn Hc Hno. destruct (ad_disk _ _ _ _ Ha) as (Hacc & _ & _ & _ & Hall). rewrite Forall_forall in Hacc.
  destruct (Hall i n Hi Hw ltac:(lia) ltac:(by eexists)) as (f & Hf & Hid & Hd). rewrite <- Hid in *.
  destruct (Hacc f Hf) as (_ & _ & _ & Hp & c' & Hc' & Hsz). rewrite Hd in Hp. rewrite <- Hp in Hc.
  assert (c' = c) as -> by congruence. unfold audit_findings in Hno. split.
  - destruct (ad_corrupt _ _ _ _ Ha) as [_ Hcor].
    destruct (decide (hash_block (cfg_hasher (sc_cfg ctx)) c = bf_id f)) as [E|E]; [done|].
    destruct Hno. rewrite !reported_app. pose proof (Hcor Hfull f c Hf Hc E). tauto.
  - intros Hsm b Hb Hbd. destruct (decide (b_size b = bf_size f)) as [E|E]; [congruence|].
    destruct Hsm. unfold audit_findings. rewrite !reported_app. do 2 right. left.
    eapply reported_size_mismatch; [done| |by rewrite Hbd, Hd|done]. apply (ad_records _ _ _ _ Ha). done.
Qed.

(** A full scrub that reports no critical finding: no class of one. *)
Lemma not_critical ctx options (w : World S D) a rep :
  audited ctx options w a -> audit_of options a rep -> rp_exit_code rep <> EXIT_CRITICAL ->
  forall f, f ∈ audit_findings a -> default_severity (fi_class f) <> Critical.
Proof.
  intros Ha (store & passes & -> & _) He f Hf. rewrite <- (audit_severity _ _ _ _ Ha f Hf).
  by apply (proj1 (report_not_critical store passes (audit_findings a)) He).
Qed.

Lemma unreported c i l : (forall f, f ∈ l -> default_severity (fi_class f) <> Critical) -> default_severity c = Critical -> ~ reported c i l.
Proof. intros Hl Hc (f & Hf & <- & _). by apply (Hl f Hf). Qed.

(** Without a critical finding the recount ran, and no block has more
    references than its record counts. *)
Lemma counts_suffice ctx options (w : World S D) a :
  audited ctx options w a -> (forall f, f ∈ audit_findings a -> default_severity (fi_class f) <> Critical) ->
  au_recounted a = true /\ forall i, BlockId_wf i -> Z.of_nat (refs w i) <= rc_of (kv (w_shared w)) i.
Proof.
  intros Ha Hl. pose proof (ad_counted _ _ _ _ Ha) as Hc. destruct (au_recounted a).
  2: { destruct Hc as [e Hc]. exfalso. apply (Hl (refusal_finding e)); [|done].
       unfold audit_findings. rewrite Hc, !elem_of_app. right; left. by left. }
  split; [done|]. intros i Hi. destruct Hc as (_ & expected & Ec & Hexp). destruct (ad_records _ _ _ _ Ha) as [Hrec _].
  pose proof (fun c => reported_recount (au_records a) expected (kv (w_shared w)) (refs w) Hrec Hexp (refs_wf w) c i Hi) as Hv.
  rewrite <- Ec in Hv. destruct (Nat.eq_0_gt_0_cases (refs w i)) as [E|Hp].
  { unfold rc_of. destruct (block_at _ i) as [b|] eqn:Eb; [|lia]. apply block_at_wf in Eb as (_ & _ & [Hrc _] & _). rewrite E. lia. }
  assert (forall c, default_severity c = Critical -> ~ recount_verdict (kv (w_shared w)) (refs w) c i) as Hno.
  { intros c Hsev Hc%Hv. apply (unreported c i _ Hl Hsev). unfold audit_findings. rewrite !reported_app. tauto. }
  unfold rc_of. destruct (block_at _ i) as [b|] eqn:Eb.
  - destruct (Z_lt_le_dec (b_rc b) (Z.of_nat (refs w i))); [|done]. exfalso. apply (Hno RefcountUnderCount); [done|].
    exists b. auto.
  - exfalso. apply (Hno MissingBlockRecord); [done|]. by split.
Qed.

(** A full scrub whose exit code is not CRITICAL certifies that nothing is
    lost.  Then the recount ran; no block has more references than its record
    counts; and every record not flagged degraded either has, at its own path,
    a file of its recorded size whose bytes hash to the block's address, or has
    no file there but intact copies at other depths. *)
Theorem scrub_exit_certifies fuel now ctx (w w' : World S D) rep :
  scrubbable fuel ctx w -> records_named ctx w -> run fuel now ctx full w = (Ok rep, w') ->
  rp_exit_code rep <> EXIT_CRITICAL ->
  ran rep Recount = true /\
  (forall i, BlockId_wf i -> Z.of_nat (refs w i) <= rc_of (kv (w_shared w)) i) /\
  (forall i b, BlockId_wf i -> block_at (kv (w_shared w)) i = Some b -> is_degraded b = false ->
     has_file (cfg_hasher (sc_cfg ctx)) (sc_blocks_root ctx) (wfiles w) i b \/
     (wfiles w !! block_disk_path i (b_depth b) (sc_blocks_root ctx) = None /\ on_disk ctx w i /\
      forall n c, (1 <= n <= id_width i)%nat -> wfiles w !! block_disk_path i (Z.of_nat n) (sc_blocks_root ctx) = Some c ->
        hash_block (cfg_hasher (sc_cfg ctx)) c = i)).
Proof.
  intros Hs Hnamed Hr He. destruct (run_audit _ _ _ _ _ _ _ Hs Hr) as [_ (a & Ha & Ho)].
  pose proof (not_critical _ _ _ _ _ Ha Ho He) as Hl. destruct (counts_suffice _ _ _ _ Ha Hl) as [Hran Hrefs].
  split; [by rewrite (ran_recount _ _ _ Ho)|]. split; [done|]. intros i b Hi Hb Hdeg.
  destruct (Hnamed i b Hi Hb) as [Hw Hd].
  pose proof (fun n c Hn Hc => unreported_file ctx full w a i n c Ha eq_refl Hi Hw Hn Hc (unreported CorruptBlock i _ Hl eq_refl)) as Hfile.
  destruct (wfiles w !! block_disk_path i (b_depth b) (sc_blocks_root ctx)) as [c|] eqn:Ef.
  - left. destruct (Hfile (Z.to_nat (b_depth b)) c) as [Hh Hsz]; [lia|by rewrite Z2Nat.id by lia|].
    exists c. split; [done|]. split; [done|]. apply (Hsz (unreported SizeMismatch i _ Hl eq_refl) b Hb). lia.
  - right. split; [done|]. split; [|by intros n c Hn Hc; apply (Hfile n c)].
    destruct (ad_dangling _ _ _ _ Ha) as [_ Hdang]. pose proof (Hdang DanglingRecord i Hi) as Hv.
    apply (elsewhere_spec _ _ _ _ _ b Ha Hi Hw Ef). intros Ee. apply (unreported DanglingRecord i _ Hl eq_refl).
    apply (reported_dangling _ _ _ _ Ha); [apply (bool_decide_unpack _); vm_compute; exact I|]. apply Hv. exists b.
    split; [by apply (ad_records _ _ _ _ Ha)|]. unfold dangling_verdict. rewrite Hdeg, Ef.
    rewrite decide_False by apply is_Some_None. by rewrite decide_True.
Qed.

(** What accounts for a file of a clean store: a record that names it, or the
    store itself. *)
Definition accounted (ctx : ScrubContext) (w : World S D) (q : path) : Prop :=
  (exists i b, BlockId_wf i /\ block_at (kv (w_shared w)) i = Some b /\
     sc_blocks_root ctx ++ q = block_disk_path i (b_depth b) (sc_blocks_root ctx)) \/
  (exists p, p ∈ store_own ctx w /\ p `prefix_of` sc_blocks_root ctx ++ q) \/
  (exists n rest, q = n :: rest /\ is_the_stores_own n = true).

(** An audit that finds nothing but flagged records and uploads in flight. *)
Definition quiet (a : Audit) : Prop := forall f, f ∈ audit_findings a -> fi_class f ∈ [DegradedRecord; MultipartUpload].

Lemma quiet_not c i a : quiet a -> c ∉ [DegradedRecord; MultipartUpload] -> ~ reported c i (audit_findings a).
Proof. intros Hq Hc (f & Hf & <- & _). by apply Hc, Hq. Qed.

Lemma quiet_part a cs l : quiet a -> made cs l -> (forall f, f ∈ l -> f ∈ audit_findings a) ->
  (forall c, c ∈ cs -> c ∉ [DegradedRecord; MultipartUpload]) -> l = [].
Proof.
  intros Hq Hm Hin Hcs. destruct l as [|f l]; [done|]. exfalso. unfold made in Hm. apply Forall_cons in Hm as [[Hc _] _].
  apply (Hcs _ Hc), Hq, Hin. by left.
Qed.

Lemma quiet_uncritical a : quiet a -> forall f, f ∈ audit_findings a -> default_severity (fi_class f) <> Critical.
Proof. intros Hq f Hf%Hq. repeat (apply elem_of_cons in Hf as [->|Hf]; [done|]). by apply elem_of_nil in Hf. Qed.

Ltac not_quiet := apply (bool_decide_unpack _); vm_compute; exact I.

Lemma quiet_recount ctx options (w : World S D) a i :
  audited ctx options w a -> quiet a -> BlockId_wf i -> rc_of (kv (w_shared w)) i = Z.of_nat (refs w i).
Proof.
  intros Ha Hq Hi. destruct (counts_suffice _ _ _ _ Ha (quiet_uncritical a Hq)) as [Hran Hle]. specialize (Hle i Hi).
  pose proof (ad_counted _ _ _ _ Ha) as Hc. rewrite Hran in Hc. destruct Hc as (_ & expected & Ec & Hexp).
  destruct (ad_records _ _ _ _ Ha) as [Hrec _].
  pose proof (reported_recount (au_records a) expected (kv (w_shared w)) (refs w) Hrec Hexp (refs_wf w) RefcountOverCount i Hi) as Hv.
  unfold rc_of in *. destruct (block_at _ i) as [b|] eqn:Eb; [|lia].
  destruct (Z_lt_le_dec (Z.of_nat (refs w i)) (b_rc b)); [|lia]. exfalso.
  apply (quiet_not RefcountOverCount i a Hq); [not_quiet|]. rewrite <- Ec in Hv.
  apply (reported_counted _ _ _ _ Ha); [not_quiet|]. apply Hv. exists b. auto.
Qed.

Lemma quiet_record ctx options (w : World S D) a i b :
  audited ctx options w a -> quiet a -> BlockId_wf i -> block_at (kv (w_shared w)) i = Some b -> is_degraded b = false ->
  is_Some (wfiles w !! block_disk_path i (b_depth b) (sc_blocks_root ctx)).
Proof.
  intros Ha Hq Hi Hb Hdeg. destruct (ad_dangling _ _ _ _ Ha) as [_ Hd].
  assert (forall c, c ∈ [DanglingRecord; AdoptableDanglingRecord] ->
    dangling_verdict (au_disk a) (sc_blocks_root ctx) (wfiles w) i b <> Some c) as Hv.
  { intros c Hc E. apply (quiet_not c i a Hq).
    - intros Hn. repeat (apply elem_of_cons in Hc as [->|Hc]; [revert Hn; not_quiet|]). by apply elem_of_nil in Hc.
    - apply (reported_dangling _ _ _ _ Ha); [by right|]. apply Hd; [done|]. exists b. split; [|done]. by apply (ad_records _ _ _ _ Ha). }
  unfold dangling_verdict in Hv. rewrite Hdeg in Hv. destruct (decide (is_Some _)) as [|]; [done|]. exfalso.
  destruct (decide (elsewhere (au_disk a) i b = [])); [apply (Hv DanglingRecord)|apply (Hv AdoptableDanglingRecord)]; try done; not_quiet.
Qed.

(** The sound files of a quiet store. *)
Lemma quiet_sound ctx (w : World S D) a :
  audited ctx full w a -> quiet a -> records_named ctx w ->
  Inv (cfg_hasher (sc_cfg ctx)) (sc_blocks_root ctx) (kv (w_ns w)) (kv (w_shared w)) (wfiles w) (fun _ => 0%nat).
Proof.
  intros Ha Hq Hnamed. destruct (counts_suffice _ _ _ _ Ha (quiet_uncritical a Hq)) as [_ Hle]. constructor.
  - intros i Hi. rewrite Nat.add_0_r. by apply Hle.
  - intros i b Hi Hb Hdeg. destruct (quiet_record _ _ _ _ _ _ Ha Hq Hi Hb Hdeg) as [c Hf]. destruct (Hnamed i b Hi Hb) as [Hw Hd].
    destruct (unreported_file ctx full w a i (Z.to_nat (b_depth b)) c Ha eq_refl Hi Hw) as [Hh Hsz];
      [lia|by rewrite Z2Nat.id by lia|apply quiet_not; [done|not_quiet]|].
    exists c. split; [done|]. split; [done|]. apply (Hsz (quiet_not SizeMismatch i a Hq ltac:(not_quiet)) b Hb). lia.
Qed.

(** What accounts for a file of a quiet store: a record that names it, a
    degraded record of its block, or the store itself. *)
Definition explained (ctx : ScrubContext) (w : World S D) (q : path) : Prop :=
  (exists i b, BlockId_wf i /\ block_at (kv (w_shared w)) i = Some b /\
     (sc_blocks_root ctx ++ q = block_disk_path i (b_depth b) (sc_blocks_root ctx) \/
      (is_degraded b = true /\ exists n, (1 <= n <= id_width i)%nat /\
         sc_blocks_root ctx ++ q = block_disk_path i (Z.of_nat n) (sc_blocks_root ctx)))) \/
  (exists p, p ∈ store_own ctx w /\ p `prefix_of` sc_blocks_root ctx ++ q) \/
  (exists n rest, q = n :: rest /\ is_the_stores_own n = true).

Lemma quiet_file ctx options (w : World S D) a q :
  audited ctx options w a -> quiet a -> records_named ctx w ->
  is_Some (wfiles w !! (sc_blocks_root ctx ++ q)) -> explained ctx w q.
Proof.
  intros Ha Hq Hnamed Hf. destruct (ad_disk _ _ _ _ Ha) as (Hacc & _ & _ & Hcl & Hall). rewrite Forall_forall in Hacc.
  assert (disk_sweep (au_disk a) (au_records a) = []) as Hno.
  { eapply (quiet_part a); [done|apply disk_sweep_made| |].
    - intros f Hin. unfold audit_findings. rewrite !elem_of_app. tauto.
    - intros c Hc. repeat (apply elem_of_cons in Hc as [->|Hc]; [not_quiet|]). by apply elem_of_nil in Hc. }
  assert (forall f, f ∉ disk_sweep (au_disk a) (au_records a)) as Hnof by (intros f; rewrite Hno; apply not_elem_of_nil).
  destruct (Hcl q Hf) as [(f & Hfile & Hp)|[(x & Hx & _)|?]]; [|by destruct (Hnof _ (disk_sweep_foreign _ (au_records a) x Hx))|by right].
  left. destruct (Hacc f Hfile) as (Hi & Hw & Hd & Hfp & _). destruct (ad_records _ _ _ _ Ha) as [Hrec _].
  destruct (rw_records (au_records a) !! bf_id f) as [b|] eqn:Eb.
  2: { exfalso. destruct (reported_orphan (au_disk a) (au_records a) f Hfile Eb) as (g & Hg & _). by apply (Hnof g). }
  pose proof Eb as [_ Hb]%Hrec. exists (bf_id f), b. split; [done|]. split; [done|]. rewrite <- Hp, Hfp.
  destruct (decide (b_depth b = bf_depth f)) as [->|Hne]; [by left|]. right.
  destruct (is_degraded b) eqn:Hdeg.
  { split; [done|]. exists (Z.to_nat (bf_depth f)). split; [lia|]. by rewrite Z2Nat.id by lia. }
  exfalso. pose proof (quiet_record _ _ _ _ _ _ Ha Hq Hi Hb Hdeg) as Hown. destruct (Hnamed _ _ Hi Hb) as [_ Hbd].
  destruct (Hall (bf_id f) (Z.to_nat (b_depth b)) Hi Hw) as (g & Hg & Hgi & Hgd); [lia|by rewrite Z2Nat.id by lia|].
  destruct (reported_off_depth (au_disk a) (au_records a) f g b Hfile Eb Hne Hg Hgi) as (x & Hx & _); [lia|]. by apply (Hnof x).
Qed.

(** All that a quiet audit of a full scrub says of the store. *)
Definition certified (ctx : ScrubContext) (w : World S D) : Prop :=
  (forall i, BlockId_wf i -> rc_of (kv (w_shared w)) i = Z.of_nat (refs w i)) /\
  Inv (cfg_hasher (sc_cfg ctx)) (sc_blocks_root ctx) (kv (w_ns w)) (kv (w_shared w)) (wfiles w) (fun _ => 0%nat) /\
  (forall key raw, kv (w_shared w) !! (DEFAULT_BLOCK_TREE, key) = Some raw ->
     exists i b, BlockId_wf i /\ key = as_slice i /\ block_at (kv (w_shared w)) i = Some b) /\
  holders_decode (kv (w_ns w)) (kv (w_shared w)) /\
  (forall t k, is_Some (kv (w_ns w) !! (t, k)) -> reserved t = false -> is_Some (kv (w_ns w) !! (DEFAULT_BUCKET_TREE, t))) /\
  (forall q, is_Some (wfiles w !! (sc_blocks_root ctx ++ q)) -> explained ctx w q).

Lemma quiet_certified ctx (w : World S D) a : audited ctx full w a -> quiet a -> records_named ctx w -> certified ctx w.
Proof.
  intros Ha Hq Hnamed. destruct (counts_suffice _ _ _ _ Ha (quiet_uncritical a Hq)) as [Hran _].
  pose proof (ad_counted _ _ _ _ Ha) as Hc. rewrite Hran in Hc.
  split; [intros i Hi; by eapply quiet_recount|]. split; [by eapply quiet_sound|]. split; [|split; [apply Hc|split; [|intros q; by eapply quiet_file]]].
  - apply (ad_records _ _ _ _ Ha). eapply (quiet_part a); [done|apply (ad_records _ _ _ _ Ha)| |].
    + intros f Hf. unfold audit_findings. rewrite !elem_of_app. tauto.
    + intros c ->%list_elem_of_singleton. not_quiet.
  - apply (ad_buckets _ _ _ _ Ha). eapply (quiet_part a); [done|apply (ad_buckets _ _ _ _ Ha)| |].
    + intros f Hf. unfold audit_findings. rewrite !elem_of_app. tauto.
    + intros c ->%list_elem_of_singleton. not_quiet.
Qed.

(** C11: A full scrub without findings certifies the store.  Then every count is
    exact and no block is degraded; the invariant of the engine holds with no
    request in flight; every record and every holder decodes; every object tree
    belongs to a bucket; and every file under the data root is the file of a
    record or the store's own. *)
Theorem clean_scrub_certifies fuel now ctx (w w' : World S D) rep :
  scrubbable fuel ctx w -> records_named ctx w -> run fuel now ctx full w = (Ok rep, w') ->
  rp_findings rep = [] ->
  certified ctx w /\
  forall i b, BlockId_wf i -> block_at (kv (w_shared w)) i = Some b -> is_degraded b = false.
Proof.
  intros Hs Hnamed Hr He. destruct (run_audit _ _ _ _ _ _ _ Hs Hr) as [_ (a & Ha & Ho)].
  assert (audit_findings a = []) as Hnil.
  { apply elem_of_nil_inv. intros f Hf. apply (not_elem_of_nil f). rewrite <- He. by apply (report_of _ _ _ _ Ho). }
  assert (quiet a) as Hq by (intros f Hf; rewrite Hnil in Hf; by apply elem_of_nil in Hf).
  split; [by eapply quiet_certified|]. intros i b Hi Hb. destruct (is_degraded b) eqn:Hdeg; [|done]. exfalso.
  destruct (ad_dangling _ _ _ _ Ha) as [_ Hd].
  assert (reported DegradedRecord i (audit_findings a)) as (f & Hf & _); [|rewrite Hnil in Hf; by apply elem_of_nil in Hf].
  apply (reported_dangling _ _ _ _ Ha); [not_quiet|]. apply Hd; [done|]. exists b. split; [by apply (ad_records _ _ _ _ Ha)|].
  unfold dangling_verdict. by rewrite Hdeg.
Qed.
End Runs.

(* ------------------------------------------------------------------ *)
(** * Reports and walks *)

(** A report is canonical.  It holds the findings it was given, worst
    first; two scrubs that found the same in another order render the same
    lines in the same order, with the same totals; the exit code is CRITICAL
    exactly when a finding is, and CLEAN exactly when all are informational. *)
Theorem report_canonical store passes l :
  rp_findings (Report_new store passes l) ≡ₚ l /\
  StronglySorted (fun f g => severity_rank (fi_severity g) <= severity_rank (fi_severity f)) (rp_findings (Report_new store passes l)) /\
  (rp_exit_code (Report_new store passes l) = EXIT_CRITICAL <-> exists f, f ∈ l /\ fi_severity f = Critical) /\
  (rp_exit_code (Report_new store passes l) = EXIT_CLEAN <-> forall f, f ∈ l -> fi_severity f = Info) /\
  forall k, k ≡ₚ l ->
    map finding_key (rp_findings (Report_new store passes k)) = map finding_key (rp_findings (Report_new store passes l)) /\
    rp_summary (Report_new store passes k) = rp_summary (Report_new store passes l) /\
    rp_exit_code (Report_new store passes k) = rp_exit_code (Report_new store passes l).
Proof.
  split; [apply sort_by_perm|]. split.
  { pose proof (sort_by_sorted finding_key key_cmp Finding_cmp Finding_cmp_key l) as Hs.
    change (rp_findings (Report_new store passes l)) with (sort_by Finding_cmp l).
    induction (sort_by Finding_cmp l) as [|f k IH]; [constructor|]. cbn [map] in Hs. apply StronglySorted_inv in Hs as [Hs Hf].
    constructor; [by apply IH|]. rewrite Forall_map in Hf. eapply Forall_impl; [exact Hf|]. intros g. apply key_severity. }
  rewrite !report_exit, report_exit_codes, report_exit_clean. split; [done|]. split; [done|].
  intros k Hk. rewrite report_exit, !report_summary, !(severity_count_perm _ _ _ Hk), (Permutation_length Hk).
  split; [|done]. by apply (sort_by_canonical finding_key key_cmp Finding_cmp Finding_cmp_key).
Qed.

(** The disk walk is exact.  When it returns, every file it accepts is a
    block file (an address of the store's width, under its own fanout path, with
    its size), every file where a record could name it is accepted, and no path
    it calls foreign is on the way to one; the disk is as it was. *)
Lemma walk_disk_exact {D} `{ScrubFsLaws D, FasterHexLaws, !FasterHexSpelling, Unicode} fuel root width own (d d' : D) walk :
  tree_like (files d) -> (forall q, is_Some (files d !! (root ++ q)) -> (length q <= fuel)%nat) ->
  own_apart root own -> files d !! root = None -> walk_disk fuel root width own d = (Ok walk, d') ->
  files d' = files d /\
  (forall i n, BlockId_wf i -> id_width i = width -> (1 <= n <= width)%nat ->
     (exists f, f ∈ dw_files walk /\ bf_id f = i /\ bf_depth f = Z.of_nat n) <->
     is_Some (files d !! block_disk_path i (Z.of_nat n) root)) /\
  (forall f, f ∈ dw_files walk -> accepted (files d) root width f) /\
  (forall x i n, x ∈ dw_foreign walk -> BlockId_wf i -> id_width i = width -> (1 <= n <= width)%nat ->
     is_Some (files d !! block_disk_path i (Z.of_nat n) root) -> ~ fp_path x `prefix_of` block_disk_path i (Z.of_nat n) root).
Proof.
  intros Ht Hf Ho Hr E. pose proof (walk_disk_spec (files d) root width own fuel d Ht eq_refl Hf Ho Hr) as Hw.
  unfold wp in Hw. rewrite E in Hw. destruct Hw as [Hd (Hacc & _ & Hstray & _ & Hall)].
  rewrite Forall_forall in Hacc. rewrite Forall_forall in Hstray.
  split; [done|]. split; [|split; [exact Hacc|intros x i n Hx; by apply (Hstray x Hx)]].
  intros i n Hi Hw Hn. split; [|by apply Hall]. intros (f & Hin & <- & <-).
  destruct (Hacc f Hin) as (_ & _ & _ & <- & c & Hc & _). by eexists.
Qed.

(* ------------------------------------------------------------------ *)
(** * Witnesses *)

Import Concrete MemFjall.

Lemma recount_exact_witness : exists rep w',
  run f_fuel 0 f_ctx metadata_only f_under = (Ok rep, w') /\ reported RefcountUnderCount f_hello (rp_findings rep).
Proof.
  destruct (run_returns (run f_fuel 0 f_ctx metadata_only) f_under (fun rep => ran rep Recount)) as (rep & w' & E & Hran);
    [vm_compute; reflexivity|].
  exists rep, w'. split; [exact E|].
  apply (recount_exact f_fuel 0 f_ctx metadata_only f_under w' rep f_hello f_under_scrubbable E Hran (hash_block_wf _ _)).
  eexists. split; [vm_compute; reflexivity|]. split; checked.
Defined.

Lemma dangling_exact_witness : exists rep w',
  run f_fuel 0 f_ctx metadata_only f_gone = (Ok rep, w') /\ reported DanglingRecord f_hello (rp_findings rep).
Proof.
  destruct (run_returns (run f_fuel 0 f_ctx metadata_only) f_gone (fun _ => true)) as (rep & w' & E & _);
    [vm_compute; reflexivity|].
  exists rep, w'. split; [exact E|].
  apply (dangling_exact f_fuel 0 f_ctx metadata_only f_gone w' rep f_hello f_gone_scrubbable E (hash_block_wf _ _) eq_refl).
  eexists. split; [vm_compute; reflexivity|]. split; [reflexivity|]. intros (n & Hn & Hs). change (id_width f_hello) with 16%nat in Hn.
  assert (Forall (fun n => wfiles f_gone !! block_disk_path f_hello (Z.of_nat n) (sc_blocks_root f_ctx) = None) (seq 1 16)) as Hall by checked.
  rewrite Forall_forall in Hall. rewrite Hall in Hs by (apply elem_of_seq; lia). by apply is_Some_None in Hs.
Defined.

Lemma scrub_exit_certifies_witness : exists rep w',
  run f_fuel 0 f_ctx full f_clean = (Ok rep, w') /\ rp_exit_code rep = EXIT_CLEAN /\ ran rep Recount = true.
Proof.
  destruct (run_returns (run f_fuel 0 f_ctx full) f_clean (fun rep => rp_exit_code rep =? EXIT_CLEAN)) as (rep & w' & E & Hx);
    [vm_compute; reflexivity|].
  apply Z.eqb_eq in Hx. exists rep, w'. split; [exact E|]. split; [exact Hx|].
  apply (scrub_exit_certifies f_fuel 0 f_ctx f_clean w' rep f_clean_scrubbable f_clean_named E). rewrite Hx. discriminate.
Defined.

Lemma clean_scrub_certifies_witness : exists rep w',
  run f_fuel 0 f_ctx full f_clean = (Ok rep, w') /\ winv s_cfg f_clean (fun _ => 0%nat) /\
  rc_of (kv (w_shared f_clean)) f_hello = Z.of_nat (refs f_clean f_hello) /\ refs f_clean f_hello = 2%nat.
Proof.
  destruct (run_returns (run f_fuel 0 f_ctx full) f_clean (fun rep => bool_decide (rp_findings rep = []))) as (rep & w' & E & Hx).
  { vm_compute. reflexivity. }
  apply bool_decide_eq_true in Hx. exists rep, w'. split; [exact E|].
  destruct (clean_scrub_certifies f_fuel 0 f_ctx f_clean w' rep f_clean_scrubbable f_clean_named E Hx) as [(Hrc & Hinv & _) _].
  split; [exact Hinv|]. split; [exact (Hrc f_hello (hash_block_wf _ _))|vm_compute; reflexivity].
Defined.

Lemma walk_disk_exact_witness : exists walk d',
  walk_disk f_fuel (sc_blocks_root f_ctx) (sc_id_width f_ctx) ∅ (ds_disk (w_disk f_clean)) = (Ok walk, d') /\
  is_Some (files (ds_disk (w_disk f_clean)) !! block_disk_path f_hello (Z.of_nat 1) (sc_blocks_root f_ctx)).
Proof.
  pose proof (sb_tree _ _ _ f_clean_scrubbable) as Ht. pose proof (sb_depth _ _ _ f_clean_scrubbable) as Hf.
  pose proof (sb_root _ _ _ f_clean_scrubbable) as Hr.
  destruct (run_returns (walk_disk f_fuel (sc_blocks_root f_ctx) (sc_id_width f_ctx) ∅) (ds_disk (w_disk f_clean))
    (fun walk => existsb (fun f => bool_decide (bf_id f = f_hello /\ bf_depth f = 1)) (dw_files walk))) as (walk & d' & E & Hx).
  { vm_compute. reflexivity. }
  exists walk, d'. split; [exact E|]. change (wfiles f_clean) with (files (ds_disk (w_disk f_clean))) in Ht, Hf, Hr.
  revert Ht Hf Hr E. generalize (ds_disk (w_disk f_clean)). intros d Ht Hf Hr E.
  destruct (walk_disk_exact f_fuel _ _ ∅ d d' walk Ht Hf ltac:(by intros p i n Hp%not_elem_of_empty) Hr E) as (_ & Hiff & _).
  apply (Hiff f_hello 1%nat); [apply hash_block_wf|reflexivity|apply (bool_decide_unpack _); vm_compute; exact I|].
  apply existsb_exists in Hx as (f & Hf' & Hb).
  apply bool_decide_eq_true in Hb. exists f. split; [by apply list_elem_of_In|exact Hb].
Defined.
