(* ===== verification/Repair.v ===== *)
(** What [--repair] does about what the scrub found (scrub/repair.rs,
    scrub/repair/actions.rs, scrub/repair/plan.rs, scrub/repair/summary.rs):
    the actions, the plan made from a report, and the run that ends with the
    passes over the repaired store.

    The calls it makes to [std::fs] beyond the writer's and the scrub's are the
    class [RepairFs].  An action that fails is an outcome and the run goes on,
    so applying actions is a function of the world, not a fallible one. *)

From S2P Require Import Prelude Bytes Orders Externals BlockIds Codec Records StoreHeader MetaStore Disk Placement MetaOps Engine Uploads Commands Report Scrub Passes.
From Stdlib Require Import Strings.Byte.
Local Open Scope Z_scope.
#[local] Set Warnings "-clear-no-such-hyp".

(* ------------------------------------------------------------------ *)
(** * The file system, as the repair changes it *)

(** [std::fs::remove_file], [rename] (of a file or of a whole directory),
    [create_dir_all], and [File::open(dir)] with [sync_all]. *)
Class RepairFs (D : Type) := {
  fs_unlink : path -> M D IoError unit;
  fs_rename : path -> path -> M D IoError unit;
  fs_create_dirs : path -> M D IoError unit;
  fs_sync_dir : path -> M D IoError unit
}.

(** A removal that fails has happened or not; a rename is atomic and moves
    everything below the path it moves; only finitely many paths exist. *)
Class RepairFsLaws (D : Type) `{ScrubFsLaws D, !RepairFs D} : Prop := {
  fs_unlink_spec p d : wp (fs_unlink p) d (fun r d' =>
    match r with
    | Ok _ => files d' = delete p (files d)
    | Err _ => files d' = files d \/ files d' = delete p (files d)
    end);
  fs_rename_spec a b d : wp (fs_rename a b) d (fun r d' =>
    match r with
    | Ok _ => (forall rest, files d' !! (b ++ rest) = files d !! (a ++ rest)) /\
        (forall q, ~ b `prefix_of` q -> a `prefix_of` q -> files d' !! q = None) /\
        (forall q, ~ b `prefix_of` q -> ~ a `prefix_of` q -> files d' !! q = files d !! q)
    | Err _ => files d' = files d
    end);
  fs_create_dirs_spec p d : wp (fs_create_dirs p) d (fun _ d' => files d' = files d);
  fs_sync_dir_spec p d : wp (fs_sync_dir p) d (fun _ d' => files d' = files d);
  path_exists_finite d : exists l : list path, forall p, path_exists p d = true -> p ∈ l
}.

(* ------------------------------------------------------------------ *)
(** * Outcomes *)

Inductive RepairStatus : Type := Applied | Skipped | Failed.

#[global] Instance RepairStatus_eq_dec : EqDecision RepairStatus.
Proof. solve_decision. Defined.

Definition status_str (s : RepairStatus) : bytes :=
  match s with Applied => str "applied" | Skipped => str "skipped" | Failed => str "failed" end.

Record RepairOutcome : Type := mkRepairOutcome {
  ro_action : bytes;
  ro_status : RepairStatus;
  ro_severity : Severity;
  ro_block : option bytes;
  ro_path : option bytes;
  ro_detail : bytes
}.

Definition RepairOutcome_new (action : bytes) (status : RepairStatus) (detail : bytes) : RepairOutcome :=
  mkRepairOutcome action status (match status with Applied | Skipped => Info | Failed => Critical end) None None detail.

Definition ro_at (severity : Severity) (o : RepairOutcome) : RepairOutcome :=
  mkRepairOutcome (ro_action o) (ro_status o) severity (ro_block o) (ro_path o) (ro_detail o).

Record RepairCounts : Type := mkRepairCounts { rn_applied : nat; rn_skipped : nat; rn_failed : nat; rn_total : nat }.

Definition count_outcome (c : RepairCounts) (o : RepairOutcome) : RepairCounts :=
  match ro_status o with
  | Applied => mkRepairCounts (S (rn_applied c)) (rn_skipped c) (rn_failed c) (S (rn_total c))
  | Skipped => mkRepairCounts (rn_applied c) (S (rn_skipped c)) (rn_failed c) (S (rn_total c))
  | Failed => mkRepairCounts (rn_applied c) (rn_skipped c) (S (rn_failed c)) (S (rn_total c))
  end.

Definition REPAIR_VERSION : Z := 1.

Record RepairSummary : Type := mkRepairSummary {
  rs_version : Z;
  rs_outcomes : list RepairOutcome;
  rs_counts : RepairCounts;
  rs_report : Report
}.

Definition RepairSummary_new (outcomes : list RepairOutcome) (report : Report) : RepairSummary :=
  mkRepairSummary REPAIR_VERSION outcomes (fold_left count_outcome outcomes (mkRepairCounts 0 0 0 0)) report.

Definition exit_code (s : RepairSummary) : Z := rp_exit_code (rs_report s).

Section Outcomes.
Context `{FasterHex, Unicode}.

Definition ro_with_block (id : BlockId) (o : RepairOutcome) : RepairOutcome :=
  mkRepairOutcome (ro_action o) (ro_status o) (ro_severity o) (Some (to_hex id)) (ro_path o) (ro_detail o).

Definition ro_with_path (p : path) (o : RepairOutcome) : RepairOutcome :=
  mkRepairOutcome (ro_action o) (ro_status o) (ro_severity o) (ro_block o) (Some (path_text p)) (ro_detail o).

Definition ro_with_storage_key (key : bytes) (o : RepairOutcome) : RepairOutcome :=
  mkRepairOutcome (ro_action o) (ro_status o) (ro_severity o) (ro_block o) (Some (render_storage_key key)) (ro_detail o).

Definition render_outcome (o : RepairOutcome) : bytes :=
  to_uppercase (status_str (ro_status o)) ++ str " " ++ ro_action o ++
  match ro_block o with Some block => str " block=" ++ block | None => [] end ++ newline ++
  match ro_path o with Some p => str "    path: " ++ p ++ newline | None => [] end ++
  str "    " ++ ro_detail o ++ newline.

Definition render_repair (s : RepairSummary) : bytes :=
  str "qss-storage fsck repair (v" ++ dec (rs_version s) ++ str ")" ++ newline ++ newline ++
  (if bool_decide (length (rs_outcomes s) = 0%nat) then str "nothing to repair" ++ newline ++ newline else []) ++
  concat (map render_outcome (rs_outcomes s)) ++ newline ++
  dec (Z.of_nat (rn_applied (rs_counts s))) ++ str " applied, " ++
  dec (Z.of_nat (rn_skipped (rs_counts s))) ++ str " skipped, " ++
  dec (Z.of_nat (rn_failed (rs_counts s))) ++ str " failed (" ++
  dec (Z.of_nat (rn_total (rs_counts s))) ++ str " action(s))" ++ newline ++ newline ++
  render_text (rs_report s).
End Outcomes.

(* ------------------------------------------------------------------ *)
(** * Actions *)

Inductive RepairAction : Type :=
| ResumeBucketTeardown (bucket : bytes)
| ReapOrphanPart (bucket key upload_id : bytes) (part_number : Z) (storage_key : bytes)
| QuarantineCorrupt (block : BlockId) (p : path)
| AdoptOrphan (block : BlockId) (record_depth : Z) (candidates : list (Z * path))
| SetRc (block : BlockId) (from to : Z)
| MarkDegraded (block : BlockId)
| DeleteOrphan (block : BlockId) (p : path)
| DeleteOffDepth (block : BlockId) (p : path)
| QuarantineForeign (p : path).

Definition kind (a : RepairAction) : bytes :=
  match a with
  | ResumeBucketTeardown _ => str "resume_bucket_teardown"
  | ReapOrphanPart _ _ _ _ _ => str "reap_orphan_part"
  | QuarantineCorrupt _ _ => str "quarantine_corrupt"
  | AdoptOrphan _ _ _ => str "adopt_orphan"
  | SetRc _ _ _ => str "set_rc"
  | MarkDegraded _ => str "mark_degraded"
  | DeleteOrphan _ _ => str "delete_orphan"
  | DeleteOffDepth _ _ => str "delete_off_depth"
  | QuarantineForeign _ => str "quarantine_foreign"
  end.

Definition action_block (a : RepairAction) : option BlockId :=
  match a with
  | QuarantineCorrupt block _ | AdoptOrphan block _ _ | SetRc block _ _ | MarkDegraded block
  | DeleteOrphan block _ | DeleteOffDepth block _ => Some block
  | ResumeBucketTeardown _ | ReapOrphanPart _ _ _ _ _ | QuarantineForeign _ => None
  end.

Definition action_path (a : RepairAction) : option path :=
  match a with
  | QuarantineCorrupt _ p | DeleteOrphan _ p | DeleteOffDepth _ p | QuarantineForeign p => Some p
  | ResumeBucketTeardown _ | ReapOrphanPart _ _ _ _ _ | AdoptOrphan _ _ _ | SetRc _ _ _ | MarkDegraded _ => None
  end.

Definition action_storage_key (a : RepairAction) : option bytes :=
  match a with ReapOrphanPart _ _ _ _ storage_key => Some storage_key | _ => None end.

(** The two ways an action can succeed. *)
Inductive Done : Type := DoneApplied (detail : bytes) | DoneSkipped (detail : bytes).

Section Actions.
Context {S T D : Type} `{Store S T, BlockDiskOps D, !StdFs D, !ScrubFs D, !RepairFs D, Blake3, Md5, FasterHex, Unicode}.
Abbreviation SW := (World S D).

(** An action's result; an error carries what went wrong. *)
Abbreviation AM := (M SW bytes).

(** What the engine's errors say. *)
Definition EngErr_fmt (e : EngErr) : bytes :=
  match e with EMeta e => MetaError_fmt e | EIo e => IoError_fmt e | EPanic msg => str msg end.

(** [.map_err(|e| format!("..{e}"))] *)
Definition says (msg : bytes) (e : MetaError) : bytes := msg ++ str ": " ++ MetaError_fmt e.
Definition io_says (msg : bytes) (e : IoError) : bytes := msg ++ str ": " ++ IoError_fmt e.

(** A transaction of one write, rolled back when the write fails. *)
Definition write_tx (write_failed commit_failed : bytes) (body : M T MetaError unit) : AM unit :=
  at_shared id (transact (says commit_failed) (m_map_err (says write_failed) body)).

Definition record_of (block : BlockId) : AM (option Block) :=
  at_shared (says (str "the record could not be read")) (get_block (as_slice block)).

(* ------------------------------------------------------------------ *)
(** * Primitives *)

Definition mark_degraded (block : BlockId) : AM bool :=
  record ← record_of block;
  match record with
  | None => mret false
  | Some record =>
      if is_degraded record then mret false
      else
        let flagged := set_degraded true
          (Block_from_parts (b_size record) (b_depth record) (b_rc record) (b_flags record)) in
        _ ← write_tx (str "the degraded flag could not be written") (str "the degraded flag would not commit")
              (put_block_record block flagged);
        mret true
  end.

Definition unlink_tolerant (p : path) : AM unit := fun w =>
  match at_disk id (fs_unlink p) w with
  | (Err e, w') =>
      match io_kind e with
      | IoNotFound => (Ok tt, w')
      | _ => (Err (io_says (str "could not unlink " ++ path_text p) e), w')
      end
  | (Ok _, w') => (Ok tt, w')
  end.

Definition fsync_dir_of (dir : path) : AM unit :=
  at_disk (io_says (str "could not fsync " ++ path_text dir)) (fs_sync_dir dir).

(** [dir.join(base)], [base.1], [base.2], ..: the name after [n] collisions. *)
Definition numbered (dir : path) (base : bytes) (n : nat) : path :=
  dir ++ [match n with O => base | _ => base ++ str "." ++ dec (Z.of_nat n) end].

(** [while dest.exists()]: the first free name, among [fuel] of them. *)
Fixpoint free_name (fuel n : nat) (dir : path) (base : bytes) (d : D) : option path :=
  match fuel with
  | O => None
  | Datatypes.S fuel' =>
      if path_exists (numbered dir base n) d then free_name fuel' (Datatypes.S n) dir base d
      else Some (numbered dir base n)
  end.

(** [path.file_name().unwrap_or_else(|| "unnamed")] *)
Definition base_name (p : path) : bytes := default (str "unnamed") (last p).

(** Moves [p] into the quarantine directory and returns where it went; [fuel]
    bounds the names tried ([first_free] says how many are enough). *)
Definition quarantine_file (fuel : nat) (cfg : StoreCfg) (p : path) : AM path :=
  let dir := blocks_root cfg ++ [QUARANTINE_DIR_NAME] in
  _ ← at_disk (io_says (str "the quarantine directory could not be created")) (fs_create_dirs dir);
  _ ← fsync_dir_of dir;
  dest ← look (free_name fuel 0 dir (base_name p));
  match dest with
  | None => M_err (str "no free name in quarantine")
  | Some dest =>
      _ ← at_disk (io_says (str "could not move " ++ path_text p ++ str " to " ++ path_text dest)) (fs_rename p dest);
      _ ← fsync_dir_of dir;
      mret dest
  end.

(* ------------------------------------------------------------------ *)
(** * The actions *)

Section Cfg.
Context (fuel : nat) (cfg : StoreCfg).

Definition set_rc (block : BlockId) (from to : Z) : AM Done :=
  record ← record_of block;
  match record with
  | None => mret (DoneSkipped (str "the record is gone, so there is no rc to set"))
  | Some record =>
      let current := b_rc record in
      if current =? to then mret (DoneSkipped (str "rc already reads " ++ dec to))
      else if to =? 0 then
        let p := block_disk_path block (b_depth record) (blocks_root cfg) in
        _ ← write_tx (str "the record could not be removed") (str "the record removal would not commit")
              (remove_block_record block);
        _ ← unlink_tolerant p;
        mret (DoneApplied (str "rc " ++ dec current ++ str " -> 0 (planned from " ++ dec from ++
          str "): nothing holds this block, so the record is removed and " ++ path_text p ++ str " unlinked"))
      else
        let updated := Block_from_parts (b_size record) (b_depth record) to (b_flags record) in
        _ ← write_tx (str "the record could not be written") (str "the rc write would not commit")
              (put_block_record block updated);
        mret (DoneApplied (str "rc " ++ dec current ++ str " -> " ++ dec to ++ str " (planned from " ++ dec from ++ str ")"))
  end.

Fixpoint unlink_all (ps : list path) : AM unit :=
  match ps with
  | [] => mret tt
  | p :: ps' => _ ← unlink_tolerant p; unlink_all ps'
  end.

(** The loop over the candidates: [quarantined] is what it has set aside. *)
Fixpoint try_candidates (block : BlockId) (record : Block) (record_depth : Z) (candidates : list (Z * path))
    (quarantined : list bytes) : AM Done :=
  match candidates with
  | [] =>
      if decide (quarantined = []) then
        mret (DoneSkipped (str "no candidate is on disk any more; the record is left to the degraded marking"))
      else
        _ ← mark_degraded block;
        mret (DoneApplied (str "no candidate hashes to this address, so none was adopted: quarantined " ++
          join (str ", ") quarantined ++ str " and marked the record degraded"))
  | (depth, p) :: rest => fun w =>
      match at_disk id (fs_read p) w with
      | (Err e, w') =>
          match io_kind e with
          | IoNotFound => try_candidates block record record_depth rest quarantined w'
          | _ => (Err (io_says (str "candidate " ++ path_text p ++ str " could not be read") e), w')
          end
      | (Ok bs, w') =>
          let actual := hash_block (cfg_hasher cfg) bs in
          (if decide (actual = block) then
             let adopted := Block_from_parts (b_size record) depth (b_rc record) (b_flags record) in
             _ ← write_tx (str "the adopted record could not be written") (str "the adoption would not commit")
                   (put_block_record block adopted);
             _ ← unlink_all (map snd rest);
             mret (DoneApplied (str "re-hashed " ++ path_text p ++ str " and it matches: the record moves from depth " ++
               dec record_depth ++ str " to " ++ dec depth ++
               (if (0 <? length rest)%nat
                then str ", " ++ dec (Z.of_nat (length rest)) ++ str " further copy/copies deleted" else []) ++
               (if decide (quarantined = []) then [] else str ", after quarantining " ++ join (str ", ") quarantined)))
           else
             dest ← quarantine_file fuel cfg p;
             try_candidates block record record_depth rest
               (quarantined ++ [path_text p ++ str " (hashes to " ++ to_hex actual ++ str ") -> " ++ path_text dest])) w'
      end
  end.

Definition adopt_orphan (block : BlockId) (record_depth : Z) (candidates : list (Z * path)) : AM Done :=
  record ← record_of block;
  match record with
  | None => mret (DoneSkipped (str "the record is gone, so there is nothing to adopt for"))
  | Some record =>
      present ← look (is_file (block_disk_path block (b_depth record) (blocks_root cfg)));
      if (present : bool)
      then mret (DoneSkipped (str "the record's own file is at depth " ++ dec (b_depth record) ++ str " after all"))
      else try_candidates block record record_depth candidates []
  end.

Definition quarantine_corrupt (block : BlockId) (p : path) : AM Done :=
  exists_ ← look (path_exists p);
  if negb exists_ then
    flagged ← mark_degraded block;
    mret (DoneSkipped (str "the file is already gone from " ++ path_text p ++
      (if flagged : bool then str "; its record is now marked degraded" else [])))
  else
    dest ← quarantine_file fuel cfg p;
    _ ← mark_degraded block;
    mret (DoneApplied (str "moved to " ++ path_text dest ++
      str " and the record marked degraded, so the next PUT of this content heals it instead of deduplicating against bytes that do not hash")).

Definition mark_degraded_action (block : BlockId) : AM Done :=
  flagged ← mark_degraded block;
  if (flagged : bool) then
    mret (DoneApplied (str "record flagged degraded: its holders stay accounted for, and the next PUT of this content writes the file and clears the flag"))
  else mret (DoneSkipped (str "the record is gone or already degraded")).

Definition delete_unreferenced (p : path) : AM Done := fun w =>
  match at_disk id (fs_unlink p) w with
  | (Ok _, w') => (Ok (DoneApplied (str "deleted " ++ path_text p)), w')
  | (Err e, w') =>
      match io_kind e with
      | IoNotFound => (Ok (DoneSkipped (str "already gone")), w')
      | _ => (Err (io_says (str "could not delete " ++ path_text p) e), w')
      end
  end.

Definition quarantine_foreign (p : path) : AM Done :=
  exists_ ← look (path_exists p);
  if negb exists_ then mret (DoneSkipped (str "already gone"))
  else
    dest ← quarantine_file fuel cfg p;
    mret (DoneApplied (str "moved out of the blocks root to " ++ path_text dest ++
      str "; fsck did not put it there and does not delete it")).

(** An engine call, from an action. *)
Definition engine {A} (f : EngErr -> bytes) (m : M SW EngErr A) : AM A := m_map_err f m.

(** The loop over the keys; [extra] collects the outcomes of skipped ones. *)
Fixpoint teardown_keys (bucket : bytes) (keys : list bytes) (deleted skipped : nat) (extra : list RepairOutcome) :
    SW -> (result bytes (nat * nat) * list RepairOutcome) * SW := fun w =>
  match keys with
  | [] => ((Ok (deleted, skipped), extra), w)
  | key :: keys' =>
      if utf8_valid key then
        match delete_object cfg bucket key w with
        | (Ok _, w') => teardown_keys bucket keys' (Datatypes.S deleted) skipped extra w'
        | (Err e, w') =>
            ((Err (str "object " ++ bucket ++ str "/" ++ key ++ str " would not delete: " ++ EngErr_fmt e), extra), w')
        end
      else
        teardown_keys bucket keys' deleted (Datatypes.S skipped)
          (extra ++ [ro_at Warn (RepairOutcome_new (str "resume_bucket_teardown") Skipped
             (str "object key " ++ from_utf8_lossy key ++ str " in " ++ bucket ++
              str " is not UTF-8, so the striped delete path cannot name it: the record goes with the tree and the recount reconciles its block references"))]) w
  end.

Definition resume_bucket_teardown (bucket : bytes) : SW -> (result bytes Done * list RepairOutcome) * SW := fun w =>
  let collected :=
    (tree ← at_ns (says (str "the object tree would not open")) (tree_open bucket);
     at_ns (says (str "the object tree would not iterate")) (iter_all fuel tree)) w in
  match collected with
  | (Err e, w') => ((Err e, []), w')
  | (Ok items, w') =>
      match teardown_keys bucket (map fst items) 0 0 [] w' with
      | ((Err e, extra), w') => ((Err e, extra), w')
      | ((Ok (deleted, skipped), extra), w') =>
          let '(r, w') := (_ ← at_ns (says (str "the object tree would not drop")) (drop_bucket bucket);
            mret (DoneApplied (str "teardown resumed: " ++ dec (Z.of_nat deleted) ++
              str " object(s) deleted through the striped path, " ++ dec (Z.of_nat skipped) ++
              str " skipped, tree dropped"))) w' in
          ((r, extra), w')
      end
  end.

Definition reap_orphan_part (bucket key upload_id : bytes) (part_number : Z) (storage_key : bytes) : AM Done :=
  let named := str "part " ++ dec part_number ++ str " of upload " ++ upload_id ++ str " (" ++ bucket ++ str "/" ++ key ++ str ")" in
  part ← engine (fun e => named ++ str " could not be reaped: " ++ EngErr_fmt e ++
           str ". Its blocks stay referenced by the record that survives, which is the over-count direction, and the next run retries")
         (reap_part cfg storage_key);
  match part with
  | Some part => mret (DoneApplied (named ++ str " removed, and the " ++ dec (Z.of_nat (length (mp_blocks part))) ++
                   str " block reference(s) it held released"))
  | None => mret (DoneSkipped (named ++ str " is already gone, so there was nothing to release"))
  end.

(** [self.apply(ctx)]: the extra outcomes, then the action's own. *)
Definition perform (a : RepairAction) : SW -> (result bytes Done * list RepairOutcome) * SW := fun w =>
  let plain (m : AM Done) := let '(r, w') := m w in ((r, []), w') in
  match a with
  | ResumeBucketTeardown bucket => resume_bucket_teardown bucket w
  | ReapOrphanPart bucket key upload_id part_number storage_key =>
      plain (reap_orphan_part bucket key upload_id part_number storage_key)
  | QuarantineCorrupt block p => plain (quarantine_corrupt block p)
  | AdoptOrphan block record_depth candidates => plain (adopt_orphan block record_depth candidates)
  | SetRc block from to => plain (set_rc block from to)
  | MarkDegraded block => plain (mark_degraded_action block)
  | DeleteOrphan _ p | DeleteOffDepth _ p => plain (delete_unreferenced p)
  | QuarantineForeign p => plain (quarantine_foreign p)
  end.

Definition dressed (a : RepairAction) (r : result bytes Done) : RepairOutcome :=
  let o := match r with
           | Ok (DoneApplied detail) => RepairOutcome_new (kind a) Applied detail
           | Ok (DoneSkipped detail) => RepairOutcome_new (kind a) Skipped detail
           | Err detail => RepairOutcome_new (kind a) Failed detail
           end in
  let o := match action_block a with Some block => ro_with_block block o | None => o end in
  let o := match action_path a with Some p => ro_with_path p o | None => o end in
  match action_storage_key a with Some key => ro_with_storage_key key o | None => o end.

Definition apply_action (a : RepairAction) (w : SW) : list RepairOutcome * SW :=
  let '((r, extra), w') := perform a w in (extra ++ [dressed a r], w').

(** [for action in actions { outcomes.extend(action.apply(ctx)) }] *)
Fixpoint apply_all (actions : list RepairAction) (outcomes : list RepairOutcome) (w : SW) : list RepairOutcome * SW :=
  match actions with
  | [] => (outcomes, w)
  | a :: actions' => let '(os, w') := apply_action a w in apply_all actions' (outcomes ++ os) w'
  end.
End Cfg.
End Actions.

(* ------------------------------------------------------------------ *)
(** * The plan *)

Inductive RepairError : Type :=
| RepairScrub (e : ScrubError)
| RepairHolders (e : HolderEnumerationError)
| RepairStore (e : MetaError)
| RepairDisk (e : IoError).

Definition ScrubError_fmt `{FasterHex, FasterHexSpelling, Unicode} (e : ScrubError) : bytes :=
  match e with
  | ScrubRecords e => str "the block records could not be read: " ++ MetaError_fmt e
  | ScrubDisk e => str "the blocks root could not be walked: " ++ IoError_fmt e
  | ScrubBuckets e => str "the bucket list could not be read: " ++ MetaError_fmt e
  end.

Definition RepairError_fmt `{FasterHex, FasterHexSpelling, Unicode} (e : RepairError) : bytes :=
  match e with
  | RepairScrub e => str "the post-repair scrub could not run: " ++ ScrubError_fmt e
  | RepairHolders e => HolderEnumerationError_fmt e ++
      str ". The report this repair was authorised by did close the holder set, so the store changed under the run: re-run fsck"
  | RepairStore e => str "the metadata store could not be read: " ++ MetaError_fmt e
  | RepairDisk e => str "the blocks root could not be walked: " ++ IoError_fmt e
  end.

(** The only errors of the calls below are the database's. *)
Definition meta_error (e : EngErr) : MetaError :=
  match e with EMeta e => e | EIo e => OtherDBError (io_msg e) | EPanic msg => OtherDBError msg end.

(** [actions.sort_by_key(|action| action.block().map(|id| id.to_hex()))] *)
Definition sort_by_block `{FasterHex} (actions : list RepairAction) : list RepairAction :=
  sort_by (fun a b => option_cmp bytes_cmp (to_hex <$> action_block a) (to_hex <$> action_block b)) actions.

Definition is_repairable (c : FindingClass) : bool :=
  match c with
  | RefcountOverCount | RefcountUnderCount | OrphanFile | OffDepthFile | ForeignFile | DanglingRecord
  | AdoptableDanglingRecord | CorruptBlock | HalfDeletedBucket | OrphanPart => true
  | MissingBlockRecord | UndecodableBlockRecord | SizeMismatch | DegradedRecord | MultipartUpload
  | HolderEnumerationFailed | PostRepairRecountDirty => false
  end.

(** The [BTreeMap] of [flag_unfinished], in the order of its keys. *)
Definition left_over (post : Report) : list (FindingClass * nat) :=
  omap (fun c =>
    let count := length (filter (fun f => fi_class f = c /\ is_repairable c = true) (rp_findings post)) in
    if (0 <? count)%nat then Some (c, count) else None) ALL_CLASSES.

Definition flag_unfinished (post : Report) : Report :=
  match left_over post with
  | [] => post
  | survivors => Report_new (rp_store post) (rp_passes_run post)
      (rp_findings post ++ map (fun '(c, count) => Finding_new PostRepairRecountDirty
         (dec (Z.of_nat count) ++ str " " ++ class_str c ++
          str " finding(s) survived --repair, which claims to repair that class: the repair did not finish, and no report of this store is clean until it does")) survivors)
  end.

Section Plan.
Context {S T D : Type} `{Store S T, BlockDiskOps D, !StdFs D, !ScrubFs D, !RepairFs D, Blake3, Md5, FasterHex, Unicode}.
Abbreviation SW := (World S D).
Abbreviation RM := (M SW RepairError).
Context (fuel : nat) (ctx : ScrubContext).
Abbreviation cfg := (sc_cfg ctx).

Definition stranded_trees : M S MetaError (list bytes) :=
  named ← list_bucket_names fuel;
  trees ← list_trees;
  mret (orphaned_trees named trees).

(** A planning round: its actions, and the outcomes it adds. *)
Definition plan_teardowns (report : Report) : RM (list RepairAction * list RepairOutcome) :=
  if negb (ran report BucketIntegrity) then mret ([], []) else
  stranded ← at_ns RepairStore stranded_trees;
  if decide (stranded = []) then mret ([], [])
  else if negb (ran report Recount) then
    mret ([], [ro_at Warn (RepairOutcome_new (str "resume_bucket_teardown") Skipped
      (dec (Z.of_nat (length stranded)) ++
       str " half-deleted bucket(s) left alone: the report's holder set was not closed, and a teardown decrements refcounts"))])
  else mret (map ResumeBucketTeardown stranded, []).

(** The loop of [orphan_parts] over the tree, from the cursor on. *)
Fixpoint orphan_parts_from (n : nat) (t : tree) (cursor : option bytes) (orphans : list (bytes * MultiPart)) :
    M SW MetaError (list (bytes * MultiPart)) :=
  match n with
  | O => mret orphans
  | Datatypes.S n' =>
      item ← at_shared id (tree_next t cursor);
      match item with
      | None => mret orphans
      | Some (storage_key, raw) =>
          part ← M_lift (map_err Corruption (MultiPart_try_from raw));
          upload ← m_map_err meta_error (get_upload (mp_bucket part) (mp_key part) (mp_upload_id part));
          orphan_parts_from n' t (Some storage_key)
            (match upload with None => orphans ++ [(storage_key, part)] | Some _ => orphans end)
      end
  end.

Definition orphan_parts : M SW MetaError (list (bytes * MultiPart)) :=
  t ← at_shared id (tree_open MULTIPART_PARTS_TREE);
  orphan_parts_from fuel t None [].

Definition reap_of (orphan : bytes * MultiPart) : RepairAction :=
  let '(storage_key, part) := orphan in
  ReapOrphanPart (mp_bucket part) (mp_key part) (mp_upload_id part) (mp_part_number part) storage_key.

Definition plan_orphan_parts (report : Report) : RM (list RepairAction * list RepairOutcome) :=
  if negb (ran report MultipartReport) then mret ([], []) else
  orphans ← m_map_err RepairStore orphan_parts;
  if decide (orphans = []) then mret ([], [])
  else if negb (ran report Recount) then
    mret ([], [ro_at Warn (RepairOutcome_new (str "reap_orphan_part") Skipped
      (dec (Z.of_nat (length orphans)) ++
       str " orphan part record(s) left alone: the report's holder set was not closed, and reaping a part releases the block references it held"))])
  else mret (map reap_of orphans, []).

(** One [CorruptBlock] finding, resolved to the walk's file. *)
Definition plan_corrupt_one (disk : DiskWalk) (f : Finding) : list RepairAction * list RepairOutcome :=
  match fi_block f, fi_path f with
  | Some hex, Some p =>
      match list_find (fun file => to_hex (bf_id file) = hex /\ path_text (bf_path file) = p) (dw_files disk) with
      | Some (_, file) => ([QuarantineCorrupt (bf_id file) (bf_path file)], [])
      | None => ([], [RepairOutcome_new (str "quarantine_corrupt") Skipped
                  (str "the report named a corrupt file at " ++ p ++ str ", which is no longer there")])
      end
  | _, _ => ([], [])
  end.

Definition plan_corrupt (report : Report) (disk : DiskWalk) : list RepairAction * list RepairOutcome :=
  let planned := map (plan_corrupt_one disk) (filter (fun f => fi_class f = CorruptBlock) (rp_findings report)) in
  (concat (map fst planned), concat (map snd planned)).

(** A record whose file is not where it says: adopt, or degrade. *)
Definition plan_record (root : path) (disk : DiskWalk) (d : D) (entry : BlockId * Block) :
    list RepairAction * list RepairAction :=
  let '(id, block) := entry in
  if is_degraded block || is_file (block_disk_path id (b_depth block) root) d then ([], [])
  else
    let depths := sort_by Z.compare (elsewhere disk id block) in
    if decide (depths = []) then ([], [MarkDegraded id])
    else ([AdoptOrphan id (b_depth block) (map (fun depth => (depth, block_disk_path id depth root)) depths)], []).

Definition plan_set_rc (expected : ExpectedCounts) (entry : BlockId * Block) : list RepairAction :=
  let '(id, block) := entry in
  let holders := default 0 (expected !! id) in
  let rc := b_rc block in
  if rc =? holders then [] else [SetRc id rc holders].

(** A file nothing can reference. *)
Definition plan_file (records : gmap BlockId Block) (present : gset (BlockId * Z)) (file : BlockFile) : list RepairAction :=
  match records !! bf_id file with
  | None => [DeleteOrphan (bf_id file) (bf_path file)]
  | Some block =>
      if negb (b_depth block =? bf_depth file) && bool_decide ((bf_id file, b_depth block) ∈ present)
      then [DeleteOffDepth (bf_id file) (bf_path file)] else []
  end.

Definition plan_repairs (report : Report) : RM (list RepairAction * list RepairOutcome) :=
  records ← at_shared RepairStore (walk_records fuel);
  disk ← at_disk RepairDisk (walk_context fuel ctx);
  let root := sc_blocks_root ctx in
  let '(corrupt, lost) := plan_corrupt report disk in
  placed ← look (fun d => map (plan_record root disk d) (map_to_list (rw_records records)));
  let adoptions := sort_by_block (concat (map fst placed)) in
  let degradings := sort_by_block (concat (map snd placed)) in
  counted ← (if ran report Recount then
      expected ← m_map_err RepairHolders (expected_counts fuel);
      mret (sort_by_block (concat (map (plan_set_rc expected) (map_to_list (rw_records records)))), [])
    else mret ([], [ro_at Warn (RepairOutcome_new (str "set_rc") Skipped
      (str "no refcount was touched: the report did not run the recount, so the holder set was not closed, and a count over a partial holder set would authorise freeing blocks that are still referenced"))]));
  let '(set_rcs, refused) := counted in
  let deletes := concat (map (plan_file (rw_records records) (present_files disk)) (dw_files disk)) in
  let foreigns := map (fun foreign => QuarantineForeign (fp_path foreign)) (dw_foreign disk) in
  mret (corrupt ++ adoptions ++ set_rcs ++ degradings ++ deletes ++ foreigns, lost ++ refused).

(* ------------------------------------------------------------------ *)
(** * The run *)

Definition applying (actions : list RepairAction) (outcomes : list RepairOutcome) : RM (list RepairOutcome) := fun w =>
  let '(os, w') := apply_all fuel cfg actions outcomes w in (Ok os, w').

(** One round: plan, then apply. *)
Definition round (plan : RM (list RepairAction * list RepairOutcome)) (outcomes : list RepairOutcome) :
    RM (list RepairOutcome) :=
  planned ← plan;
  applying planned.1 (outcomes ++ planned.2).

(** Round one of [repair]: the actions that remove holders. *)
Definition holder_rounds (report : Report) : RM (list RepairOutcome) :=
  outcomes ← round (plan_teardowns report) [];
  round (plan_orphan_parts report) outcomes.

(** Both rounds of [repair]. *)
Definition repair_rounds (report : Report) : RM (list RepairOutcome) :=
  outcomes ← holder_rounds report;
  round (plan_repairs report) outcomes.

Definition repair (now : Z) (report : Report) (options : ScrubOptions) : RM RepairSummary :=
  outcomes ← repair_rounds report;
  post ← m_map_err RepairScrub (run fuel now ctx options);
  mret (RepairSummary_new outcomes (flag_unfinished post)).
End Plan.
