(* ===== verification/FsRepair.v ===== *)
(** The file system of RealDisk.v, as the repair changes it: removals, and
    renames of files and of whole directories. *)

From S2P Require Import Prelude Bytes Orders Externals BlockIds Codec Records StoreHeader MetaStore Disk Placement RealDisk MetaOps Engine Uploads Commands Report Scrub Passes FsTree Repair.
From Stdlib Require Import Strings.Byte.
Local Open Scope Z_scope.

(** The files at and below [a], at and below [b]. *)
Definition carried (a b : path) (m : gmap path bytes) : list (path * bytes) :=
  omap (fun kv => match after a kv.1 with Some rest => Some (b ++ rest, kv.2) | None => None end) (map_to_list m).

(** The files neither there nor under the target. *)
Definition left_alone (a b : path) (m : gmap path bytes) : gmap path bytes :=
  filter (fun kv => after a kv.1 = None /\ after b kv.1 = None) m.

Definition rename_files (a b : path) (m : gmap path bytes) : gmap path bytes :=
  list_to_map (carried a b m) ∪ left_alone a b m.

Definition rename_dirs (a b : path) (s : gset path) : gset path :=
  set_map (fun q => match after a q with Some rest => b ++ rest | None => q end) s.

Lemma after_prefix p q : p `prefix_of` q <-> is_Some (after p q).
Proof.
  split.
  - intros [k ->]. rewrite after_app. by eexists.
  - intros [k Hk]. apply after_inv in Hk as ->. by exists k.
Qed.

Lemma elem_of_carried a b m q c :
  (q, c) ∈ carried a b m <-> exists rest, q = b ++ rest /\ m !! (a ++ rest) = Some c.
Proof.
  unfold carried. rewrite list_elem_of_omap. split.
  - intros ([p c'] & Hp%elem_of_map_to_list & E). cbn in E. destruct (after a p) as [rest|] eqn:Ea; [|done].
    injection E as <- <-. apply after_inv in Ea as ->. eauto.
  - intros (rest & -> & Hm). exists (a ++ rest, c). split; [by apply elem_of_map_to_list|]. cbn. by rewrite after_app.
Qed.

Lemma carried_keys a b m : NoDup (carried a b m).*1.
Proof.
  unfold carried. pose proof (NoDup_fst_map_to_list m) as Hnd.
  induction (map_to_list m) as [|[p c] l IH]; [constructor|]. cbn in Hnd. apply NoDup_cons in Hnd as [Hp Hnd].
  cbn [omap list_omap]. cbn [fst snd]. destruct (after a p) as [rest|] eqn:Ea; [|by apply IH]. cbn. constructor; [|by apply IH].
  intros Hin. apply list_elem_of_fmap in Hin as ([q c'] & E & Hin). cbn in E. subst q.
  apply list_elem_of_omap in Hin as ([p' c''] & Hp' & E). cbn in E. destruct (after a p') as [rest'|] eqn:Ea'; [|done].
  injection E as E <-. apply app_inv_head in E as ->. apply after_inv in Ea as ->. apply after_inv in Ea' as ->.
  apply Hp, list_elem_of_fmap. by exists (a ++ rest, c'').
Qed.

Lemma carried_lookup a b m rest : (list_to_map (carried a b m) : gmap path bytes) !! (b ++ rest) = m !! (a ++ rest).
Proof.
  destruct (m !! (a ++ rest)) as [c|] eqn:E.
  - apply elem_of_list_to_map_1; [apply carried_keys|]. apply elem_of_carried. eauto.
  - apply not_elem_of_list_to_map_1. intros Hin. apply list_elem_of_fmap in Hin as ([q c] & Eq & Hin). cbn in Eq. subst q.
    apply elem_of_carried in Hin as (rest' & Eq & Hm). apply app_inv_head in Eq as ->. congruence.
Qed.

Lemma carried_elsewhere a b m q : ~ b `prefix_of` q -> (list_to_map (carried a b m) : gmap path bytes) !! q = None.
Proof.
  intros Hb. apply not_elem_of_list_to_map_1. intros Hin. apply list_elem_of_fmap in Hin as ([q' c] & -> & Hin).
  apply elem_of_carried in Hin as (rest & -> & _). apply Hb. by eexists.
Qed.

Lemma left_alone_lookup a b m q :
  left_alone a b m !! q = if decide (after a q = None /\ after b q = None) then m !! q else None.
Proof.
  unfold left_alone. case_decide as Hd.
  - destruct (m !! q) as [c|] eqn:E; [by apply map_lookup_filter_Some|]. apply map_lookup_filter_None. by left.
  - apply map_lookup_filter_None. right. by intros c _.
Qed.

Lemma rename_files_spec a b m :
  (forall rest, rename_files a b m !! (b ++ rest) = m !! (a ++ rest)) /\
  (forall q, ~ b `prefix_of` q -> a `prefix_of` q -> rename_files a b m !! q = None) /\
  (forall q, ~ b `prefix_of` q -> ~ a `prefix_of` q -> rename_files a b m !! q = m !! q).
Proof.
  unfold rename_files. split; [|split].
  - intros rest. destruct (m !! (a ++ rest)) as [c|] eqn:E.
    + apply lookup_union_Some_l. by rewrite carried_lookup.
    + apply lookup_union_None. rewrite carried_lookup, left_alone_lookup, after_app. split; [done|].
      by rewrite decide_False by (by intros [_ ?]).
  - intros q Hb [k ->]. apply lookup_union_None. rewrite carried_elsewhere, left_alone_lookup, after_app by done.
    split; [done|]. by rewrite decide_False by (by intros [? _]).
  - intros q Hb Ha. rewrite lookup_union_r by (by apply carried_elsewhere). rewrite left_alone_lookup.
    rewrite decide_True; [done|]. rewrite after_prefix in Ha, Hb. by split; apply eq_None_not_Some.
Qed.

(** Every path that leads to a file or directory. *)
Definition all_paths (d : Fs) : list path :=
  concat (map (fun q => map (fun n => take n q) (seq 0 (Datatypes.S (length q))))
            ((map_to_list (fs_files d)).*1 ++ elements (fs_dirs d))).

Lemma all_paths_prefix d p q :
  q ∈ (map_to_list (fs_files d)).*1 ++ elements (fs_dirs d) -> p `prefix_of` q -> p ∈ all_paths d.
Proof.
  intros Hq [k ->]. apply list_elem_of_In, in_concat. exists (map (fun n => take n (p ++ k)) (seq 0 (Datatypes.S (length (p ++ k))))). split.
  - apply in_map_iff. exists (p ++ k). split; [done|]. by apply list_elem_of_In.
  - apply in_map_iff. exists (length p). split; [apply take_app_length|]. apply in_seq. rewrite length_app. lia.
Qed.

#[global] Instance Fs_repair : RepairFs Fs := {|
  fs_unlink := std_remove_file;
  fs_rename a b := syscall (fun d =>
    if negb (bool_decide (is_Some (fs_files d !! a)) || is_directory a d) then (Err (mkIoError IoNotFound "no such file"), d)
    else if bool_decide (is_Some (after a b) /\ a <> b) then (Err (mkIoError IoOther "invalid argument"), d)
    else if negb (device d a =? device d b) then (Err (mkIoError IoCrossesDevices "cross-device"), d)
    else if negb (in_dir b d) then (Err (mkIoError IoNotFound "no such directory"), d)
    else if bool_decide (b ∈ fs_dirs d \/ names_below b d <> []) then (Err (mkIoError IoOther "is a directory"), d)
    else if is_directory a d && bool_decide (is_Some (fs_files d !! b)) then (Err (mkIoError IoOther "not a directory"), d)
    else (Ok tt, mkFs (rename_files a b (fs_files d)) (rename_dirs a b (fs_dirs d)) (fs_mounts d) (fs_faults d)));
  fs_create_dirs := std_create_dir_all;
  fs_sync_dir := real_fsync_dir
|}.

#[global] Instance Fs_repair_laws : RepairFsLaws Fs.
Proof.
  constructor.
  - intros p d. apply wp_syscall; [by left|]. intros d' Hf. unfold wp, files, Fs_view in *. rewrite <- Hf.
    destruct (fs_files d' !! p); [done|]. destruct (bool_decide _); by left.
  - intros a b d. apply wp_syscall; [done|]. intros d' Hf. unfold wp, files, Fs_view in *.
    repeat (destruct (_ : bool); [done|]). cbn. rewrite Hf. apply rename_files_spec.
  - intros p d. exact (create_dir_all_spec (D := Fs) p d).
  - intros p d. exact (fsync_dir_spec (D := Fs) p d).
  - intros d. exists (all_paths d). intros p Hp. cbn in Hp. apply orb_true_iff in Hp as [Hp|Hp].
    + apply bool_decide_eq_true in Hp as [c Hc]. apply (all_paths_prefix d p p); [|done].
      apply elem_of_app. left. apply list_elem_of_fmap. exists (p, c). by rewrite elem_of_map_to_list.
    + unfold is_directory in Hp. apply orb_true_iff in Hp as [Hp%bool_decide_eq_true|Hp%bool_decide_eq_true].
      * apply (all_paths_prefix d p p); [|done]. apply elem_of_app. right. by apply elem_of_elements.
      * destruct (names_below p d) as [|n l] eqn:E; [done|]. assert (n ∈ names_below p d) as Hn by (rewrite E; by left).
        unfold names_below in Hn. apply elem_of_remove_dups, list_elem_of_omap in Hn as (q & Hq & Hn).
        unfold next_name in Hn. destruct (after p q) as [rest|] eqn:Ea; [|done].
        apply (all_paths_prefix d p q Hq), after_prefix. by eexists.
Qed.
