(* ===== verification/RepairSpecs.v ===== *)
(** What each repair action can do to a store: which records it moves and how,
    which files it removes, and that a sound store stays sound. *)

From S2P Require Import Prelude Bytes Orders Externals BlockIds Codec Records StoreHeader MetaStore Disk Placement MetaOps Accounting Engine BatchSpecs WriteSpecs ObjectSpecs Uploads UploadSpecs Commands Report Scrub Passes ScrubSpecs WalkSpecs PassSpecs Repair.
From stdpp Require Import pretty.
From Stdlib Require Import Strings.Byte.
Local Open Scope Z_scope.
#[local] Set Warnings "-clear-no-such-hyp".

(* ------------------------------------------------------------------ *)
(** * How records may evolve *)

(** Setting the degraded bit sets it. *)
Lemma set_degraded_true b : Block_wf b -> Block_wf (set_degraded true b) /\ is_degraded (set_degraded true b) = true.
Proof.
  intros (Hs & Hd & Hr & Hf). split.
  - split; [done|]. split; [done|]. split; [done|]. cbn. unfold is_u8, u8_max, FLAG_DEGRADED in *.
    assert (Forall (fun f => 0 <= Z.lor f 1 <= 255) (seqZ 0 256)) as Hall by (apply (bool_decide_unpack _); vm_compute; exact I).
    rewrite Forall_forall in Hall. apply Hall, elem_of_seqZ. lia.
  - unfold is_degraded, set_degraded. cbn [b_flags]. rewrite Z.land_comm, Z.land_lor_distr_r, Z.land_diag.
    unfold FLAG_DEGRADED. apply negb_true_iff, Z.eqb_neq. intros E%Z.lor_eq_0_iff. lia.
Qed.

Section Evolve.
(** Which counts and depths a record may be given. *)
Context (rcs depths : BlockId -> Z -> Prop).

Definition record_evolves (i : BlockId) (b b' : option Block) : Prop :=
  match b, b' with
  | Some b, Some b' =>
      b_size b' = b_size b /\ (is_degraded b' = false -> is_degraded b = false) /\
      (b_rc b' = b_rc b \/ rcs i (b_rc b')) /\ (b_depth b' = b_depth b \/ depths i (b_depth b'))
  | Some _, None => rcs i 0
  | None, None => True
  | None, Some _ => False
  end.

Lemma record_evolves_refl i b : record_evolves i b b.
Proof. destruct b as [b|]; cbn; auto. Qed.

Lemma record_evolves_trans i b1 b2 b3 :
  record_evolves i b1 b2 -> record_evolves i b2 b3 -> record_evolves i b1 b3.
Proof.
  destruct b1 as [b1|], b2 as [b2|], b3 as [b3|]; cbn; try done.
  intros (E1 & E2 & E3 & E4) (F1 & F2 & F3 & F4). split; [congruence|]. split; [auto|]. split.
  - destruct F3 as [->|?]; auto.
  - destruct F4 as [->|?]; auto.
Qed.
End Evolve.

Section Actions.
Context {S T D : Type} `{RepairFsLaws D, StoreLaws S T, Blake3, Md5, FasterHexLaws, !FasterHexSpelling, Unicode}.
Abbreviation SW := (World S D).
Abbreviation shkv w := (kv (w_shared w)).

(** Only block records and files have changed, and the records as allowed. *)
Definition evolves (rcs depths : BlockId -> Z -> Prop) (w w' : SW) : Prop :=
  kv (w_ns w') = kv (w_ns w) /\
  (forall p, p.1 <> DEFAULT_BLOCK_TREE -> shkv w' !! p = shkv w !! p) /\
  (forall i, BlockId_wf i -> record_evolves rcs depths i (block_at (shkv w) i) (block_at (shkv w') i)).

Lemma evolves_same rcs depths w w' :
  kv (w_ns w') = kv (w_ns w) -> shkv w' = shkv w -> evolves rcs depths w w'.
Proof.
  intros En Es. unfold evolves. rewrite Es. split; [done|]. split; [done|]. intros i _. apply record_evolves_refl.
Qed.

Lemma evolves_refl rcs depths w : evolves rcs depths w w.
Proof. by apply evolves_same. Qed.

Lemma evolves_trans rcs depths w1 w2 w3 :
  evolves rcs depths w1 w2 -> evolves rcs depths w2 w3 -> evolves rcs depths w1 w3.
Proof.
  intros (En & Eo & Er) (Fn & Fo & Fr). split; [congruence|]. split.
  - intros p Hp. by rewrite Fo, Eo.
  - intros i Hi. by eapply record_evolves_trans; [apply Er|apply Fr].
Qed.

(** What it cannot change: the references, and a count it does not set. *)
Lemma evolves_refs rcs depths w w' : evolves rcs depths w w' -> forall i, refs w' i = refs w i.
Proof.
  intros (En & Eo & _) i. unfold refs. rewrite En. f_equal. unfold part_refs.
  assert (forall m : kvmap, msum (part_weight i) m = msum (part_weight i) (filter (fun kv => kv.1.1 <> DEFAULT_BLOCK_TREE) m)) as Hf.
  { intros m. induction m as [|p v m Hp IH] using map_ind; [by rewrite map_filter_empty|].
    rewrite msum_insert_new by done. destruct (decide (p.1 = DEFAULT_BLOCK_TREE)) as [E|E].
    - rewrite map_filter_insert_False by (intros Hne; by apply Hne). rewrite delete_id by done. rewrite IH.
      unfold part_weight at 2. by rewrite E, Nat.add_0_r.
    - rewrite map_filter_insert_True by done. rewrite msum_insert_new by (apply map_lookup_filter_None; by left). by rewrite IH. }
  rewrite Hf, (Hf (kv (w_shared w))). f_equal. apply map_eq. intros p. apply option_eq. intros v.
  rewrite !map_lookup_filter_Some. cbn [fst]. split; intros [Hv Hp]; (split; [|done]).
  - by rewrite <- (Eo p Hp).
  - by rewrite (Eo p Hp).
Qed.

Lemma evolves_rc rcs depths w w' i :
  evolves rcs depths w w' -> BlockId_wf i -> rc_of (shkv w') i = rc_of (shkv w) i \/ rcs i (rc_of (shkv w') i).
Proof.
  intros (_ & _ & Er) Hi. specialize (Er i Hi). unfold rc_of, record_evolves in *.
  destruct (block_at (shkv w) i) as [b|], (block_at (shkv w') i) as [b'|]; try done; [|by right|by left].
  by destruct Er as (_ & _ & ? & _).
Qed.

Lemma evolves_weaken (rcs rcs' depths depths' : BlockId -> Z -> Prop) w w' :
  (forall i z, rcs i z -> rcs' i z) -> (forall i z, depths i z -> depths' i z) ->
  evolves rcs depths w w' -> evolves rcs' depths' w w'.
Proof.
  intros Hr Hd (En & Eo & Er). split; [done|]. split; [done|]. intros i Hi. specialize (Er i Hi).
  unfold record_evolves in *. repeat case_match; try done; [|auto]. destruct Er as (? & ? & E3 & E4).
  split; [done|]. split; [done|]. split; [destruct E3; auto|destruct E4; auto].
Qed.

(** Where no count may be set, none moves and no record goes. *)
Lemma evolves_uncounted rcs depths w w' :
  (forall i z, ~ rcs i z) -> evolves rcs depths w w' -> forall i, BlockId_wf i ->
  rc_of (shkv w') i = rc_of (shkv w) i /\ (is_Some (block_at (shkv w) i) <-> is_Some (block_at (shkv w') i)).
Proof.
  intros Hno Hev i Hi. split.
  - destruct (evolves_rc _ _ _ _ i Hev Hi) as [?|Hr]; [done|by apply Hno in Hr].
  - destruct Hev as (_ & _ & Hr). specialize (Hr i Hi). unfold record_evolves in Hr.
    destruct (block_at (shkv w) i) as [b|], (block_at (shkv w') i) as [b'|]; [by split; eexists|by apply Hno in Hr|done|done].
Qed.

(** One record written or removed. *)
Lemma evolves_put rcs depths w w' i b b' :
  BlockId_wf i -> Block_wf b' -> block_at (shkv w) i = Some b -> record_evolves rcs depths i (Some b) (Some b') ->
  kv (w_ns w') = kv (w_ns w) -> shkv w' = put_block (shkv w) i b' -> evolves rcs depths w w'.
Proof.
  intros Hi Hb' Hb Hr En Es. unfold evolves. rewrite Es. split; [done|]. split.
  - intros p Hp. unfold put_block. rewrite lookup_insert_ne; [done|]. intros <-. by apply Hp.
  - intros j Hj. destruct (decide (j = i)) as [->|Hne].
    + by rewrite Hb, block_at_put.
    + rewrite block_at_put_ne by done. apply record_evolves_refl.
Qed.

Lemma evolves_delete rcs depths w w' i b :
  BlockId_wf i -> block_at (shkv w) i = Some b -> rcs i 0 ->
  kv (w_ns w') = kv (w_ns w) -> shkv w' = delete (block_key i) (shkv w) -> evolves rcs depths w w'.
Proof.
  intros Hi Hb Hr En Es. unfold evolves. rewrite Es. split; [done|]. split.
  - intros p Hp. rewrite lookup_delete_ne; [done|]. intros <-. by apply Hp.
  - intros j Hj. destruct (decide (j = i)) as [->|Hne].
    + by rewrite Hb, block_at_delete_eq.
    + rewrite block_at_delete_ne by (intros E; by apply block_key_inj in E). apply record_evolves_refl.
Qed.

(* ------------------------------------------------------------------ *)
(** * Primitives *)

(** The databases and the counters stay; [P] holds of the files. *)
Definition files_only (P : gmap path bytes -> Prop) (w w' : SW) : Prop :=
  kv (w_ns w') = kv (w_ns w) /\ shkv w' = shkv w /\ P (wfiles w').

Lemma record_of_spec i (w : SW) :
  wp (record_of i) w (fun r w' => files_only (fun F => F = wfiles w) w w' /\
    match r with Ok ob => block_at (shkv w) i = ob | Err _ => True end).
Proof.
  unfold record_of. apply wp_at_shared. eapply wp_mono; [apply get_block_spec|].
  intros r s' [Hk Hr]. split; [by split|]. destruct r as [[b|]|e]; [done| |done]. by apply block_at_None.
Qed.

(** One write in its transaction: it has happened or not. *)
Lemma write_tx_spec (a c : bytes) (body : M T MetaError unit) (g : kvmap -> kvmap) (w : SW) :
  (forall t, wp body t (fun r t' => txbase t' = txbase t /\
     match r with Ok _ => txkv t' = g (txkv t) | Err _ => txkv t' = txkv t end)) ->
  wp (write_tx a c body) w (fun r w' =>
    kv (w_ns w') = kv (w_ns w) /\ wfiles w' = wfiles w /\
    match r with Ok _ => shkv w' = g (shkv w) | Err _ => shkv w' = g (shkv w) \/ shkv w' = shkv w end).
Proof.
  intros Hb. unfold write_tx. apply wp_at_shared. cbn [w_ns]. unfold wfiles. cbn [w_disk w_shared].
  destruct (begin_spec (w_shared w)) as [Hk0 Hb0].
  apply (wp_transact _ _ _ _ (fun _ m => m = g (kv (w_shared w)))).
  - apply wp_m_map_err. eapply wp_mono; [apply Hb|]. rewrite Hk0, Hb0. intros [u|e] t [Ht Hr]; (split; [done|]); [done|].
    intros s' Hs. cbn. rewrite Hs. auto.
  - intros u s' _ Hs. done.
  - done.
  - intros u e s' _ Hs. cbn. auto.
  - intros e s' Hs. cbn. rewrite Hs. auto.
Qed.

Lemma put_block_record_spec i b (t : T) :
  wp (put_block_record i b) t (fun r t' => txbase t' = txbase t /\
    match r with Ok _ => txkv t' = put_block (txkv t) i b | Err _ => txkv t' = txkv t end).
Proof. apply tx_insert_spec. Qed.

Lemma remove_block_record_spec i (t : T) :
  wp (remove_block_record i) t (fun r t' => txbase t' = txbase t /\
    match r with Ok _ => txkv t' = delete (block_key i) (txkv t) | Err _ => txkv t' = txkv t end).
Proof. apply tx_remove_spec. Qed.

Context (cfg : StoreCfg) (fuel : nat).
Abbreviation root := (blocks_root cfg).

(** The blocks whose files are not answered for. *)
Context (exempt : BlockId -> Prop).

(** A store that is sound but for the files of the exempt blocks: no block has
    fewer counts than references, and every other record not flagged degraded
    has its file, intact. *)
Definition sound_but (w : SW) : Prop :=
  (forall i, BlockId_wf i -> Z.of_nat (refs w i) <= rc_of (shkv w) i) /\
  (forall i b, BlockId_wf i -> ~ exempt i -> block_at (shkv w) i = Some b -> is_degraded b = false ->
     has_file (cfg_hasher cfg) root (wfiles w) i b).

Lemma sound_is_sound_but w : winv cfg w (fun _ => 0%nat) -> sound_but w.
Proof.
  intros [Hr Hf]. split; [|intros i b Hi _; by apply Hf]. intros i Hi. specialize (Hr i Hi). unfold refs. lia.
Qed.

Lemma sound_but_none w : (forall i, ~ exempt i) -> sound_but w -> winv cfg w (fun _ => 0%nat).
Proof.
  intros Hno [Hr Hf]. split; [|intros i b Hi; by apply Hf, Hno]. intros i Hi. specialize (Hr i Hi). unfold refs in Hr. lia.
Qed.

(** The effect of an action: the records evolve as allowed, and a sound store
    stays sound where [P] holds. *)
Definition acts (rcs depths : BlockId -> Z -> Prop) (P : Prop) (w w' : SW) : Prop :=
  evolves rcs depths w w' /\ (P -> sound_but w -> sound_but w').

Lemma acts_trans rcs depths (P Q : Prop) w1 w2 w3 :
  acts rcs depths P w1 w2 -> (P -> sound_but w1 -> sound_but w2 -> Q) ->
  acts rcs depths Q w2 w3 -> acts rcs depths P w1 w3.
Proof. intros [E1 I1] HQ [E2 I2]. split; [by eapply evolves_trans|]. intros HP Hi. apply I2; auto. Qed.

Lemma acts_same rcs depths P w w' :
  kv (w_ns w') = kv (w_ns w) -> shkv w' = shkv w -> wfiles w' = wfiles w -> acts rcs depths P w w'.
Proof. intros En Es Ef. split; [by apply evolves_same|]. intros _. unfold sound_but, refs. by rewrite En, Es, Ef. Qed.

(** A record rewritten with enough references, and its file if it is healthy. *)
Lemma acts_put rcs depths (P : Prop) w w' i b b' :
  BlockId_wf i -> Block_wf b' -> block_at (shkv w) i = Some b -> record_evolves rcs depths i (Some b) (Some b') ->
  (P -> b_depth b' = b_depth b /\ (Z.of_nat (refs w i) <= b_rc b' \/ b_rc b' = b_rc b)) ->
  kv (w_ns w') = kv (w_ns w) -> wfiles w' = wfiles w -> shkv w' = put_block (shkv w) i b' -> acts rcs depths P w w'.
Proof.
  intros Hi Hb' Hb Hr HP En Ef Es. assert (evolves rcs depths w w') as Hev by (by eapply evolves_put).
  split; [exact Hev|]. intros HP' [Hrefs Hfiles]. specialize (HP HP') as [Hd Hrc]. unfold sound_but. rewrite Es, Ef. split.
  - intros j Hj. rewrite (evolves_refs _ _ _ _ Hev). specialize (Hrefs j Hj). revert Hrefs. unfold rc_of.
    destruct (decide (j = i)) as [->|Hne]; [rewrite Hb, block_at_put by done; lia|by rewrite block_at_put_ne].
  - intros j bj Hj Hx. destruct (decide (j = i)) as [->|Hne]; [|rewrite block_at_put_ne by done; by apply Hfiles].
    rewrite block_at_put by done. intros [= <-] Hh. pose proof Hr as (Hsz & Hdeg & _).
    destruct (Hfiles i b Hj Hx Hb (Hdeg Hh)) as (c & Hc & Hh' & Hl). exists c. by rewrite Hd, Hsz.
Qed.

Lemma mark_degraded_spec rcs depths P i w :
  BlockId_wf i -> wp (mark_degraded i) w (fun r w' => acts rcs depths P w w' /\ wfiles w' = wfiles w /\
    match r with Ok _ => forall b, block_at (shkv w') i = Some b -> is_degraded b = true | Err _ => True end).
Proof.
  intros Hi. unfold mark_degraded. apply wp_bind. eapply wp_mono; [apply record_of_spec|].
  intros [ob|e] w1 [(En & Es & Ef) Hr]; [|split; [by apply acts_same|done]]. destruct ob as [b|].
  2: { apply wp_ret. split; [by apply acts_same|]. split; [done|]. by rewrite Es, Hr. }
  destruct (is_degraded b) eqn:Ed.
  { apply wp_ret. split; [by apply acts_same|]. split; [done|]. intros b'. rewrite Es, Hr. by intros [= <-]. }
  pose proof (block_at_wf _ _ _ Hr) as Hwf. destruct (set_degraded_true b Hwf) as [Hwf' Hd'].
  set (b' := set_degraded true (Block_from_parts (b_size b) (b_depth b) (b_rc b) (b_flags b))).
  assert (b' = set_degraded true b) as Eb by (by destruct b). rewrite <- Eb in Hwf', Hd'.
  assert (forall w', kv (w_ns w') = kv (w_ns w1) -> wfiles w' = wfiles w1 -> shkv w' = put_block (shkv w1) i b' -> acts rcs depths P w w') as Hput.
  { intros w' En' Ef' Es'. rewrite Es in Es'. eapply (acts_put _ _ _ _ _ i b b' Hi Hwf' Hr); [|..|congruence|congruence|done].
    - split; [done|]. rewrite Hd'. split; [done|]. by split; left.
    - intros _. by split; [|right]. }
  apply wp_bind. eapply wp_mono; [apply (write_tx_spec _ _ _ (fun m => put_block m i b')), put_block_record_spec|].
  intros [u|e] w2 (En2 & Ef2 & Hs2).
  - apply wp_ret. split; [by apply Hput|]. split; [congruence|]. intros b2. rewrite Hs2, block_at_put by done. by intros [= <-].
  - split; [|split; [congruence|done]]. destruct Hs2 as [Hs2|Hs2]; [by apply Hput|]. apply acts_same; congruence.
Qed.

(** A block that nothing references may be forgotten. *)
Lemma sound_but_free w w' i :
  BlockId_wf i -> refs w i = 0%nat -> (forall j, refs w' j = refs w j) -> shkv w' = delete (block_key i) (shkv w) -> wfiles w' = wfiles w ->
  sound_but w -> sound_but w'.
Proof.
  intros Hi Hz Hrefs Es Ef [Hr Hf]. assert (forall j, BlockId_wf j -> j <> i -> block_at (shkv w') j = block_at (shkv w) j) as Hne.
  { intros j Hj Hji. rewrite Es. apply block_at_delete_ne. intros E. by apply block_key_inj in E. }
  assert (block_at (shkv w') i = None) as Hnone by (by rewrite Es, block_at_delete_eq).
  split.
  - intros j Hj. rewrite Hrefs. specialize (Hr j Hj). unfold rc_of in *. destruct (decide (j = i)) as [->|Hji]; [|by rewrite Hne].
    rewrite Hnone. lia.
  - intros j b Hj Hx Hb. rewrite Ef. destruct (decide (j = i)) as [->|Hji]; [by rewrite Hnone in Hb|]. rewrite Hne in Hb by done. by apply Hf.
Qed.

(** A block path is at or below another only when it is the same block's. *)
Lemma block_path_prefix i j d d' :
  BlockId_wf i -> BlockId_wf j -> block_disk_path i d root `prefix_of` block_disk_path j d' root -> i = j.
Proof.
  intros Hi Hj Hp. destruct (block_path_clamped i d root Hi) as (n & Hn & _ & Ei). destruct (block_path_clamped j d' root Hj) as (k & Hk & _ & Ej).
  rewrite Ei, Ej, <- (block_path_hexdir j k root Hj Hk) in Hp. apply (prefix_of_block_path root _ _ j k Hj Hk) in Hp as [[_ E]|[b E]].
  - by apply to_hex_inj in E.
  - exfalso. unfold to_hex in E. apply hex_string_inj in E. apply (f_equal length) in E. rewrite length_as_slice in E by done.
    destruct (id_width_cases i Hi) as [Ew|Ew]; rewrite Ew in E; simpl in E; lia.
Qed.

(** Files that have gone from a tree, none of them at or below a path of [Q]. *)
Definition only_lost (Q : path -> Prop) (F F' : gmap path bytes) : Prop :=
  forall q, Q q -> F' !! q = F !! q.

(** The path of a healthy record that is answered for. *)
Definition owned (w : SW) (q : path) : Prop :=
  exists i b, BlockId_wf i /\ ~ exempt i /\ block_at (shkv w) i = Some b /\ is_degraded b = false /\ q = block_disk_path i (b_depth b) root.

(** Nothing such a record names is at or below [p]. *)
Definition expendable (w : SW) (p : path) : Prop := forall q, owned w q -> ~ p `prefix_of` q.

(** No path that a record can name is in quarantine. *)
Lemma quarantine_not_block i d name : BlockId_wf i ->
  ~ (root ++ [QUARANTINE_DIR_NAME; name]) `prefix_of` block_disk_path i d root.
Proof.
  intros Hi [k Hk]. destruct (block_path_clamped i d root Hi) as (n & Hn & _ & E). rewrite E in Hk.
  unfold hexdir in Hk. rewrite <- !app_assoc in Hk. apply app_inv_head in Hk.
  destruct (take n (as_slice i)) as [|b s] eqn:Et.
  - apply (f_equal length) in Et. rewrite length_take, length_as_slice in Et by done. simpl in Et. lia.
  - cbn in Hk. injection Hk as Hk _. pose proof (hex_not_own [b]) as Hno. rewrite Hk in Hno.
    revert Hno. unfold is_the_stores_own. rewrite bool_decide_true; [done|]. apply (bool_decide_unpack _). vm_compute. exact I.
Qed.

(** A change of the files that keeps what is owned. *)
Lemma acts_files rcs depths (P : Prop) w w' :
  kv (w_ns w') = kv (w_ns w) -> shkv w' = shkv w -> (P -> only_lost (owned w) (wfiles w) (wfiles w')) -> acts rcs depths P w w'.
Proof.
  intros En Es Hf. split; [by apply evolves_same|]. intros HP [Hr Hfiles]. unfold sound_but, refs. rewrite En, Es. split; [exact Hr|].
  intros i b Hi Hx Hb Hd. destruct (Hfiles i b Hi Hx Hb Hd) as (c & Hc & Hrest). exists c. split; [|done].
  rewrite (Hf HP); [done|]. by exists i, b.
Qed.

Lemma unlink_effect p w F' : (F' = wfiles w \/ F' = delete p (wfiles w)) -> expendable w p -> only_lost (owned w) (wfiles w) F'.
Proof.
  intros [->| ->] He q Hq; [done|]. rewrite lookup_delete_ne; [done|]. intros ->. by apply (He q Hq).
Qed.

Lemma unlink_tolerant_spec p w :
  wp (unlink_tolerant p) w (fun _ w' => files_only (fun F => F = wfiles w \/ F = delete p (wfiles w)) w w').
Proof.
  pose proof (fs_unlink_spec p (ds_disk (w_disk w))) as Hu. unfold wp, unlink_tolerant, at_disk in *.
  destruct (fs_unlink p (ds_disk (w_disk w))) as [[u|e] d']; cbn [fst snd map_err] in *.
  - split; [done|]. split; [done|]. by right.
  - destruct (io_kind (id e)); (split; [done|]); (split; [done|]); done.
Qed.

Lemma at_disk_spec {E A} (f : IoError -> E) (m : M D IoError A) (w : SW) (Q : result IoError A -> gmap path bytes -> Prop) :
  wp m (ds_disk (w_disk w)) (fun r d' => Q r (files d')) ->
  wp (at_disk f m) w (fun r w' => kv (w_ns w') = kv (w_ns w) /\ shkv w' = shkv w /\
    exists r0, r = map_err f r0 /\ Q r0 (wfiles w')).
Proof. intros Hm. apply wp_at_disk. eapply wp_mono; [exact Hm|]. intros r d' Hq. split; [done|]. split; [done|]. eauto. Qed.

(** The paths records can name, off [p], are as they were. *)
Definition set_aside (p : path) (w w' : SW) : Prop :=
  kv (w_ns w') = kv (w_ns w) /\ shkv w' = shkv w /\
  forall i d, BlockId_wf i -> ~ p `prefix_of` block_disk_path i d root ->
    wfiles w' !! block_disk_path i d root = wfiles w !! block_disk_path i d root.

Lemma set_aside_same p w1 w2 w3 :
  kv (w_ns w2) = kv (w_ns w1) -> shkv w2 = shkv w1 -> wfiles w2 = wfiles w1 -> set_aside p w2 w3 -> set_aside p w1 w3.
Proof. intros En Es Ef (Fn & Fs & Ff). unfold set_aside. rewrite <- En, <- Es, <- Ef. done. Qed.

Lemma set_aside_refl p w w' :
  kv (w_ns w') = kv (w_ns w) -> shkv w' = shkv w -> wfiles w' = wfiles w -> set_aside p w w'.
Proof. intros En Es Ef. unfold set_aside. by rewrite En, Es, Ef. Qed.

(** A call that leaves the files alone. *)
Lemma wp_still {E A} (f : IoError -> E) (m : M D IoError A) (w : SW) (Q : result E A -> SW -> Prop) :
  wp m (ds_disk (w_disk w)) (fun _ d' => files d' = files (ds_disk (w_disk w))) ->
  (forall r w', kv (w_ns w') = kv (w_ns w) -> shkv w' = shkv w -> wfiles w' = wfiles w -> Q r w') ->
  wp (at_disk f m) w Q.
Proof.
  intros Hm HQ. eapply wp_mono; [apply (at_disk_spec f m w (fun _ F => F = wfiles w)); exact Hm|].
  intros r w' (En & Es & r0 & -> & Ef). by apply HQ.
Qed.

Lemma free_name_numbered dir base (d : D) k : forall n dest, free_name k n dir base d = Some dest -> exists name, dest = dir ++ [name].
Proof.
  induction k as [|k IH]; intros n dest; cbn [free_name]; [done|]. destruct (path_exists _ d); [apply IH|].
  intros [= <-]. unfold numbered. eauto.
Qed.

(** The names tried are all different, so one of them is free. *)
Lemma numbered_inj dir base j k : numbered dir base j = numbered dir base k -> j = k.
Proof.
  unfold numbered. intros E. apply (inj (app dir)) in E. injection E as E.
  destruct j as [|j], k as [|k]; [done| | |].
  - symmetry in E. rewrite <- (app_nil_r base) in E at 2. by apply (inj (app base)) in E.
  - rewrite <- (app_nil_r base) in E at 2. by apply (inj (app base)) in E.
  - apply (inj (app base)), (inj (app (str "."))) in E. unfold dec in E. apply str_inj, (inj pretty) in E. lia.
Qed.

Lemma first_free dir base (d : D) : exists k,
  path_exists (numbered dir base k) d = false /\
  forall j, (j < k)%nat -> path_exists (numbered dir base j) d = true.
Proof.
  destruct (path_exists_finite d) as [l Hl].
  assert (exists k, (k <= length l)%nat /\ path_exists (numbered dir base k) d = false) as Hex.
  { destruct (decide (Forall (fun k => path_exists (numbered dir base k) d = true) (seq 0 (Datatypes.S (length l))))) as [Hall|Hno].
    - exfalso. assert (NoDup (map (numbered dir base) (seq 0 (Datatypes.S (length l))))) as Hnd.
      { apply NoDup_fmap_2; [intros j k; apply numbered_inj|apply NoDup_seq]. }
      assert (map (numbered dir base) (seq 0 (Datatypes.S (length l))) ⊆+ l) as Hsub; [|apply submseteq_length in Hsub; rewrite length_map, length_seq in Hsub; lia].
      apply NoDup_submseteq; [done|]. intros p Hp. apply Hl. apply list_elem_of_fmap in Hp as (k & -> & Hk).
      rewrite Forall_forall in Hall. by apply Hall.
    - apply not_Forall_Exists in Hno; [|solve_decision]. apply Exists_exists in Hno as (k & Hk & Hf).
      apply elem_of_seq in Hk. exists k. split; [lia|]. by apply not_true_is_false. }
  destruct Hex as (k & _ & Hk). revert Hk. induction (lt_wf k) as [k _ IH]. intros Hk.
  destruct (decide (Forall (fun j => path_exists (numbered dir base j) d = true) (seq 0 k))) as [Hall|Hno].
  - exists k. split; [done|]. intros j Hj. rewrite Forall_forall in Hall. apply Hall, elem_of_seq. lia.
  - apply not_Forall_Exists in Hno; [|solve_decision]. apply Exists_exists in Hno as (j & Hj & Hf).
    apply elem_of_seq in Hj. apply (IH j); [lia|]. by apply not_true_is_false.
Qed.

Lemma free_name_first dir base (d : D) k :
  path_exists (numbered dir base k) d = false ->
  (forall j, (j < k)%nat -> path_exists (numbered dir base j) d = true) ->
  forall n, (k < n)%nat -> free_name n 0 dir base d = Some (numbered dir base k).
Proof.
  intros Hk Hj. assert (forall n i, (i <= k)%nat -> (k < i + n)%nat -> free_name n i dir base d = Some (numbered dir base k)) as Hg.
  { induction n as [|n IH]; intros i Hi Hn; [lia|]. cbn [free_name]. destruct (decide (i = k)) as [->|Hne]; [by rewrite Hk|].
    rewrite Hj by lia. apply IH; lia. }
  intros n Hn. apply Hg; lia.
Qed.

Lemma quarantine_file_spec p w : wp (quarantine_file fuel cfg p) w (fun _ w' => set_aside p w w').
Proof.
  unfold quarantine_file. set (dir := root ++ [QUARANTINE_DIR_NAME]).
  apply wp_bind, (wp_still _ _ _); [apply fs_create_dirs_spec|]. intros [u|e] w1 En1 Es1 Ef1; [|by apply set_aside_refl].
  apply wp_bind. unfold fsync_dir_of. apply (wp_still _ _ _); [apply fs_sync_dir_spec|]. intros [u2|e] w2 En2 Es2 Ef2.
  2: { apply set_aside_refl; congruence. }
  apply wp_bind. unfold wp at 1, look. cbn [fst snd].
  destruct (free_name fuel 0 dir (base_name p) (ds_disk (w_disk w2))) as [dest|] eqn:Efree.
  2: { apply wp_err, set_aside_refl; congruence. }
  apply free_name_numbered in Efree as [name ->]. unfold dir. rewrite <- app_assoc. cbn [app].
  apply wp_bind. eapply wp_mono.
  { apply (at_disk_spec _ _ w2 (fun r F => match r with
      | Ok _ => forall q, ~ (root ++ [QUARANTINE_DIR_NAME; name]) `prefix_of` q -> ~ p `prefix_of` q -> F !! q = wfiles w2 !! q
      | Err _ => F = wfiles w2 end)).
    eapply wp_mono; [apply fs_rename_spec|]. intros [u3|e] d' Hr; [apply Hr|exact Hr]. }
  intros r w3 (En3 & Es3 & r0 & -> & Hr).
  assert (set_aside p w w3) as Haside.
  { apply (set_aside_same p w w2 _ ltac:(congruence) ltac:(congruence) ltac:(congruence)). split; [done|]. split; [done|]. intros i d Hi Hp. destruct r0 as [u3|e]; [|by rewrite Hr].
    apply Hr; [by apply quarantine_not_block|done]. }
  destruct r0 as [u3|e]; cbn [map_err]; [|done].
  apply wp_bind, (wp_still _ _ _); [apply fs_sync_dir_spec|]. intros [u4|e] w4 En4 Es4 Ef4; [apply wp_ret|].
  all: destruct Haside as (? & ? & Hf); unfold set_aside; rewrite En4, Es4, Ef4; done.
Qed.

(* ------------------------------------------------------------------ *)
(** * The actions *)

Lemma set_aside_acts rcs depths (P : Prop) p w w' : (P -> expendable w p) -> set_aside p w w' -> acts rcs depths P w w'.
Proof.
  intros He (En & Es & Ef). apply acts_files; [done|done|]. intros HP q Hq. pose proof (He HP q Hq) as Hp.
  destruct Hq as (i & b & Hi & _ & _ & _ & ->). by apply Ef.
Qed.

Lemma unlinked_acts rcs depths (P : Prop) p w w' :
  (P -> expendable w p) -> files_only (fun F => F = wfiles w \/ F = delete p (wfiles w)) w w' -> acts rcs depths P w w'.
Proof.
  intros He (En & Es & Ef). apply acts_files; [done|done|]. intros HP. apply (unlink_effect p w _ Ef (He HP)).
Qed.

Lemma delete_unreferenced_spec rcs depths p (w : SW) :
  wp (delete_unreferenced p) w (fun _ w' => acts rcs depths (expendable w p) w w').
Proof.
  pose proof (fs_unlink_spec p (ds_disk (w_disk w))) as Hu. unfold wp, delete_unreferenced, at_disk in *.
  destruct (fs_unlink p (ds_disk (w_disk w))) as [[u|e] d']; cbn [fst snd map_err] in *.
  - apply (unlinked_acts _ _ _ p); [done|]. split; [done|]. split; [done|]. by right.
  - destruct (io_kind (id e)); (apply (unlinked_acts _ _ _ p); [done|]); (split; [done|]); (split; [done|]); done.
Qed.

Lemma quarantine_foreign_spec rcs depths p w :
  wp (quarantine_foreign fuel cfg p) w (fun _ w' => acts rcs depths (expendable w p) w w').
Proof.
  unfold quarantine_foreign. apply wp_bind. unfold wp at 1, look. cbn [fst snd].
  destruct (negb (path_exists p (ds_disk (w_disk w)))); [by apply wp_ret, acts_same|].
  apply wp_bind. eapply wp_mono; [apply quarantine_file_spec|]. intros [dest|e] w1 Hs; [apply wp_ret|];
    (eapply set_aside_acts; [|exact Hs]); done.
Qed.

Lemma mark_degraded_action_spec rcs depths P i w :
  BlockId_wf i -> wp (mark_degraded_action i) w (fun _ w' => acts rcs depths P w w').
Proof.
  intros Hi. unfold mark_degraded_action. apply wp_bind. eapply wp_mono; [by apply (mark_degraded_spec rcs depths P)|].
  intros [[]|e] w1 [Ha _]; [by apply wp_ret|by apply wp_ret|done].
Qed.

Lemma quarantine_corrupt_spec rcs depths i p w :
  BlockId_wf i -> wp (quarantine_corrupt fuel cfg i p) w (fun _ w' => acts rcs depths (expendable w p) w w').
Proof.
  intros Hi. unfold quarantine_corrupt. apply wp_bind. unfold wp at 1, look. cbn [fst snd].
  destruct (negb (path_exists p (ds_disk (w_disk w)))).
  - apply wp_bind. eapply wp_mono; [by apply (mark_degraded_spec rcs depths (expendable w p))|].
    intros [f|e] w1 [Ha _]; [by apply wp_ret|done].
  - apply wp_bind. eapply wp_mono; [apply quarantine_file_spec|]. intros [dest|e] w1 Hs.
    2: { by eapply set_aside_acts. }
    apply wp_bind. eapply wp_mono; [by apply (mark_degraded_spec rcs depths True)|].
    assert (acts rcs depths (expendable w p) w w1) as Ha1.
    { apply (set_aside_acts _ _ _ p); [done|exact Hs]. }
    intros [f|e] w2 [Ha _]; [apply wp_ret|]; (eapply acts_trans; [exact Ha1| |exact Ha]); done.
Qed.

(** The recount of one record, to the number of its references. *)
Lemma set_rc_spec (rcs depths : BlockId -> Z -> Prop) i from to w :
  BlockId_wf i -> rcs i to -> is_usize to ->
  wp (set_rc cfg i from to) w (fun _ w' => acts rcs depths (to = Z.of_nat (refs w i)) w w').
Proof.
  intros Hi Hto Hu. unfold set_rc. apply wp_bind. eapply wp_mono; [apply record_of_spec|].
  intros [ob|e] w1 [(En & Es & Ef) Hr]; [|by apply acts_same]. destruct ob as [b|]; [|by apply wp_ret, acts_same].
  destruct (Z.eqb_spec (b_rc b) to) as [|Hne]; [by apply wp_ret, acts_same|].
  destruct (Z.eqb_spec to 0) as [->|Hnz].
  - apply wp_bind. eapply wp_mono; [apply (write_tx_spec _ _ _ (delete (block_key i))), remove_block_record_spec|].
    assert (forall w2, kv (w_ns w2) = kv (w_ns w1) -> wfiles w2 = wfiles w1 -> shkv w2 = delete (block_key i) (shkv w1) ->
      acts rcs depths (0 = Z.of_nat (refs w i)) w w2) as Hdel.
    { intros w2 En2 Ef2 Es2. split; [eapply evolves_delete; [done|exact Hr|done|congruence|congruence]|].
      intros Hz Hinv. apply (sound_but_free w w2 i); [done|lia| |congruence|congruence|done].
      intros j. apply (evolves_refs rcs depths). eapply evolves_delete; [done|exact Hr|done|congruence|congruence]. }
    intros [u|e] w2 (En2 & Ef2 & Es2).
    2: { destruct Es2 as [Es2|Es2]; [by apply Hdel|apply acts_same; congruence]. }
    specialize (Hdel w2 En2 Ef2 Es2). apply wp_bind. eapply wp_mono; [apply unlink_tolerant_spec|].
    assert (0 = Z.of_nat (refs w i) -> expendable w2 (block_disk_path i (b_depth b) root)) as Hexp.
    { intros _ q (j & b' & Hj & _ & Hb' & _ & ->) Hp. apply block_path_prefix in Hp as ->; [|done|done].
      rewrite Es2, block_at_delete_eq in Hb'. done. }
    intros [u2|e] w3 Hf; [apply wp_ret|]; (eapply (acts_trans _ _ _ (0 = Z.of_nat (refs w i))); [exact Hdel|done|]);
      (eapply unlinked_acts; [exact Hexp|exact Hf]).
  - set (b' := Block_from_parts (b_size b) (b_depth b) to (b_flags b)).
    pose proof (block_at_wf _ _ _ Hr) as (Hw1 & Hw2 & _ & Hw4).
    assert (forall w2, kv (w_ns w2) = kv (w_ns w1) -> wfiles w2 = wfiles w1 -> shkv w2 = put_block (shkv w1) i b' ->
      acts rcs depths (to = Z.of_nat (refs w i)) w w2) as Hput.
    { intros w2 En2 Ef2 Es2. rewrite Es in Es2. eapply (acts_put _ _ _ _ _ i b b' Hi); [by split|exact Hr| |..|congruence|congruence|done].
      - split; [done|]. split; [done|]. split; [by right|by left].
      - intros Hz. split; [done|]. left. cbn. lia. }
    apply wp_bind. eapply wp_mono; [apply (write_tx_spec _ _ _ (fun m => put_block m i b')), put_block_record_spec|].
    intros [u|e] w2 (En2 & Ef2 & Hs2); [apply wp_ret; by apply Hput|].
    destruct Hs2 as [Hs2|Hs2]; [by apply Hput|]. apply acts_same; congruence.
Qed.

(* ------------------------------------------------------------------ *)
(** * Adoption *)

(** Candidates as the plan makes them: the paths of a block at some depths. *)
Definition candidates_of (i : BlockId) (ds : list nat) : list (Z * path) :=
  map (fun n => (Z.of_nat n, block_disk_path i (Z.of_nat n) root)) ds.

(** A record that has been moved names a file that hashes to its block. *)
Definition depth_verified (i : BlockId) (b : Block) (w' : SW) : Prop :=
  forall b', block_at (shkv w') i = Some b' -> b_depth b' <> b_depth b ->
    b_rc b' = b_rc b /\ b_size b' = b_size b /\ is_degraded b' = is_degraded b /\
    exists c, wfiles w' !! block_disk_path i (b_depth b') root = Some c /\ hash_block (cfg_hasher cfg) c = i.

Lemma unverified i b (w w' : SW) : block_at (shkv w) i = Some b -> shkv w' = shkv w -> depth_verified i b w'.
Proof. intros Hb Es b'. rewrite Es, Hb. by intros [= ->]. Qed.

Lemma unlink_all_spec ps : forall w,
  wp (unlink_all ps) w (fun _ w' => kv (w_ns w') = kv (w_ns w) /\ shkv w' = shkv w /\
    forall q, q ∉ ps -> wfiles w' !! q = wfiles w !! q).
Proof.
  induction ps as [|p ps IH]; intros w; cbn [unlink_all]; [by apply wp_ret|].
  apply wp_bind. eapply wp_mono; [apply unlink_tolerant_spec|]. intros r w1 (En & Es & Ef).
  assert (forall q, q ∉ p :: ps -> wfiles w1 !! q = wfiles w !! q) as Hq.
  { intros q [Hp _]%not_elem_of_cons. destruct Ef as [->| ->]; [done|]. by rewrite lookup_delete_ne. }
  destruct r as [u|e]; [|done]. eapply wp_mono; [apply IH|]. intros r w2 (En2 & Es2 & Ef2).
  split; [congruence|]. split; [congruence|]. intros q Hn. rewrite Ef2; [by apply Hq|]. by apply not_elem_of_cons in Hn as [_ ?].
Qed.

(** Marking degraded moves no record. *)
Lemma mark_degraded_verified i b w :
  BlockId_wf i -> block_at (shkv w) i = Some b -> wp (mark_degraded i) w (fun _ w' => depth_verified i b w').
Proof.
  intros Hi Hb. eapply wp_mono; [by apply (mark_degraded_spec (fun _ _ => False) (fun _ _ => False) False)|].
  intros r w' [[(_ & _ & Hev) _] _] b' Hb' Hne. specialize (Hev i Hi). rewrite Hb, Hb' in Hev. cbn in Hev.
  destruct Hev as (_ & _ & _ & [?|[]]). congruence.
Qed.

(** What follows a candidate that hashes. *)
Lemma adopted_spec (rcs depths : BlockId -> Z -> Prop) i b n bs rest w {A} (a : A) :
  BlockId_wf i -> block_at (shkv w) i = Some b -> (1 <= n <= id_width i)%nat -> n ∉ rest ->
  Forall (fun n => (1 <= n <= id_width i)%nat) rest -> depths i (Z.of_nat n) ->
  wfiles w !! block_disk_path i (Z.of_nat n) root = Some bs -> hash_block (cfg_hasher cfg) bs = i ->
  wp (_ ← write_tx (str "the adopted record could not be written") (str "the adoption would not commit")
        (put_block_record i (Block_from_parts (b_size b) (Z.of_nat n) (b_rc b) (b_flags b)));
      _ ← unlink_all (map snd (candidates_of i rest));
      mret a) w (fun _ w' => evolves rcs depths w w' /\ depth_verified i b w').
Proof.
  intros Hi Hb Hn Hni Hrest Hd Hf Hh. set (b' := Block_from_parts (b_size b) (Z.of_nat n) (b_rc b) (b_flags b)).
  pose proof (block_at_wf _ _ _ Hb) as (Hw1 & _ & Hw3 & Hw4).
  assert (Block_wf b') as Hwf.
  { split; [done|]. split; [|by split]. unfold is_u8, u8_max, b'. cbn. destruct (id_width_cases i Hi) as [E|E]; rewrite E in Hn; lia. }
  assert (forall w', kv (w_ns w') = kv (w_ns w) -> shkv w' = put_block (shkv w) i b' -> evolves rcs depths w w') as Hput.
  { intros w' En Es. eapply evolves_put; [done|done|exact Hb| |done|done]. split; [done|]. split; [done|]. split; [by left|by right]. }
  assert (forall w', shkv w' = put_block (shkv w) i b' -> wfiles w' !! block_disk_path i (Z.of_nat n) root = Some bs -> depth_verified i b w') as Hver.
  { intros w' Es Ef b2. rewrite Es, block_at_put by done. intros [= <-] _. split; [done|]. split; [done|]. split; [done|]. by exists bs. }
  apply wp_bind. eapply wp_mono; [apply (write_tx_spec _ _ _ (fun m => put_block m i b')), put_block_record_spec|].
  intros [u|e] w2 (En2 & Ef2 & Es2).
  2: { destruct Es2 as [Es2|Es2]; [split; [by apply Hput|apply Hver; [done|by rewrite Ef2]]|]. split; [by apply evolves_same|by eapply unverified]. }
  apply wp_bind. eapply wp_mono; [apply unlink_all_spec|]. intros r w3 (En3 & Es3 & Ef3).
  assert (evolves rcs depths w w3 /\ depth_verified i b w3) as Hend.
  { split; [apply Hput; congruence|]. apply Hver; [congruence|]. rewrite Ef3, Ef2; [done|].
    intros Hin. apply list_elem_of_fmap in Hin as ([z p] & E & Hin). cbn in E. apply list_elem_of_fmap in Hin as (k & Ek & Hk).
    injection Ek as -> ->. rewrite Forall_forall in Hrest. pose proof (Hrest k Hk). apply (f_equal (fun l => Z.of_nat (length l))) in E.
    rewrite !length_block_disk_path, !clamp_depth_id in E by (done || lia). assert (n = k) as -> by lia. done. }
  destruct r; [by apply wp_ret|done].
Qed.

Lemma try_candidates_spec (rcs depths : BlockId -> Z -> Prop) i b rd ds : forall q w,
  BlockId_wf i -> block_at (shkv w) i = Some b -> NoDup ds -> Forall (fun n => (1 <= n <= id_width i)%nat) ds ->
  (forall n, n ∈ ds -> depths i (Z.of_nat n)) ->
  wp (try_candidates fuel cfg i b rd (candidates_of i ds) q) w (fun _ w' => evolves rcs depths w w' /\ depth_verified i b w').
Proof.
  induction ds as [|n ds IH]; intros q w Hi Hb Hnd Hds Hdep; cbn [candidates_of map try_candidates].
  - destruct (decide (q = [])); [apply wp_ret; split; [apply evolves_refl|by eapply unverified]|].
    apply wp_bind. pose proof (mark_degraded_spec rcs depths False i w Hi) as Hm. pose proof (mark_degraded_verified i b w Hi Hb) as Hv.
    unfold wp in *. destruct (mark_degraded i w) as [[f|e] w1]; cbn in *; split; try done; apply Hm.
  - apply NoDup_cons in Hnd as [Hn Hnd]. apply Forall_cons in Hds as [Hrange Hds].
    set (p := block_disk_path i (Z.of_nat n) root). pose proof (fs_read_spec p (ds_disk (w_disk w))) as Hread.
    unfold wp at 1, at_disk. unfold wp in Hread. destruct (fs_read p (ds_disk (w_disk w))) as [r d']; cbn [fst snd] in Hread.
    destruct Hread as [Hd Hread]. set (w1 := mkWorld _ _ _ _).
    assert (kv (w_ns w1) = kv (w_ns w)) as En1 by done. assert (shkv w1 = shkv w) as Es1 by done.
    assert (wfiles w1 = wfiles w) as Ef1 by exact Hd. clearbody w1.
    assert (forall q, wp (try_candidates fuel cfg i b rd (candidates_of i ds) q) w1 (fun _ w' => evolves rcs depths w w' /\ depth_verified i b w')) as Hrest.
    { intros q'. eapply wp_mono; [apply IH; [done|by rewrite Es1|done|done|intros k Hk; apply Hdep; by right]|].
      intros r' w' [He Hv]. split; [|done]. eapply evolves_trans; [by apply evolves_same|exact He]. }
    destruct r as [bs|e]; cbn [map_err id].
    2: { destruct (io_kind e); [apply Hrest|..]; (split; [by apply evolves_same|by eapply unverified]). }
    destruct (decide (hash_block (cfg_hasher cfg) bs = i)) as [Hh|_].
    + match goal with |- context [ (?m w1).2 ] => change (wp m w1 (fun _ w' => evolves rcs depths w w' /\ depth_verified i b w')) end.
      eapply wp_mono; [apply (adopted_spec rcs depths i b n bs ds w1 _ Hi); [by rewrite Es1|done|done|done|apply Hdep; by left|by rewrite Ef1|done]|].
      intros r' w' [He Hv]. split; [|done]. eapply evolves_trans; [by apply evolves_same|exact He].
    + match goal with |- context [ (?m w1).2 ] => change (wp m w1 (fun _ w' => evolves rcs depths w w' /\ depth_verified i b w')) end.
      apply wp_bind. eapply wp_mono; [apply quarantine_file_spec|]. intros [dest|e] w2 (En2 & Es2 & _).
      * eapply wp_mono; [apply IH; [done|by rewrite Es2, Es1|done|done|intros k Hk; apply Hdep; by right]|].
        intros r' w' [He Hv]. split; [|done]. eapply evolves_trans; [apply evolves_same|exact He]; congruence.
      * split; [apply evolves_same; congruence|]. eapply unverified; [exact Hb|congruence].
Qed.

Lemma adopt_orphan_spec (rcs depths : BlockId -> Z -> Prop) i rd ds w :
  BlockId_wf i -> NoDup ds -> Forall (fun n => (1 <= n <= id_width i)%nat) ds -> (forall n, n ∈ ds -> depths i (Z.of_nat n)) ->
  wp (adopt_orphan fuel cfg i rd (candidates_of i ds)) w (fun _ w' => evolves rcs depths w w' /\
    forall b, block_at (shkv w) i = Some b -> depth_verified i b w').
Proof.
  intros Hi Hnd Hds Hdep. unfold adopt_orphan. apply wp_bind. eapply wp_mono; [apply record_of_spec|].
  intros r w1 [(En & Es & Ef) Hr].
  assert (evolves rcs depths w w1 /\ forall b, block_at (shkv w) i = Some b -> depth_verified i b w1) as Hsame.
  { split; [by apply evolves_same|]. intros b Hb. by eapply unverified. }
  destruct r as [ob|e]; [|exact Hsame]. destruct ob as [b|]; [|by apply wp_ret].
  apply wp_bind. unfold wp at 1, look. cbn [fst snd].
  destruct (is_file _ _); [by apply wp_ret|].
  eapply wp_mono; [apply try_candidates_spec; [done|by rewrite Es|done|done|exact Hdep]|]. intros r' w' [He Hv].
  split; [eapply evolves_trans; [apply Hsame|exact He]|]. intros b0. rewrite Hr. by intros [= <-].
Qed.

(* ------------------------------------------------------------------ *)
(** * Lists of actions *)

(** What the plan promises of an action of the last round. *)
Definition action_ok (rcs depths : BlockId -> Z -> Prop) (a : RepairAction) : Prop :=
  match a with
  | ResumeBucketTeardown _ | ReapOrphanPart _ _ _ _ _ => False
  | QuarantineCorrupt i _ | MarkDegraded i => BlockId_wf i
  | AdoptOrphan i _ candidates => BlockId_wf i /\ exists ds, candidates = candidates_of i ds /\ NoDup ds /\
      Forall (fun n => (1 <= n <= id_width i)%nat) ds /\ forall n, n ∈ ds -> depths i (Z.of_nat n)
  | SetRc i _ to => BlockId_wf i /\ rcs i to /\ is_usize to
  | DeleteOrphan _ _ | DeleteOffDepth _ _ | QuarantineForeign _ => True
  end.

(** ... and what makes it harmless to a sound store. *)
Definition action_safe (w : SW) (a : RepairAction) : Prop :=
  match a with
  | ResumeBucketTeardown _ | ReapOrphanPart _ _ _ _ _ | AdoptOrphan _ _ _ => False
  | QuarantineCorrupt _ p | DeleteOrphan _ p | DeleteOffDepth _ p | QuarantineForeign p => expendable w p
  | SetRc i _ to => to = Z.of_nat (refs w i)
  | MarkDegraded _ => True
  end.

Definition no_depths : BlockId -> Z -> Prop := fun _ _ => False.

(** What is owned later was owned before. *)
Lemma evolves_owned rcs w w' q : evolves rcs no_depths w w' -> owned w' q -> owned w q.
Proof.
  intros (_ & _ & Er) (i & b' & Hi & Hx & Hb' & Hd & ->). specialize (Er i Hi). rewrite Hb' in Er.
  destruct (block_at (shkv w) i) as [b|] eqn:Hb; [|done]. cbn in Er. destruct Er as (_ & Hdeg & _ & [Ed|[]]).
  exists i, b. split; [done|]. split; [done|]. split; [done|]. split; [by apply Hdeg|]. by rewrite Ed.
Qed.

Lemma action_safe_later rcs w w' a : evolves rcs no_depths w w' -> action_safe w a -> action_safe w' a.
Proof.
  intros He. assert (forall p, expendable w p -> expendable w' p) as Hexp.
  { intros p Hp q Hq. apply Hp. by eapply evolves_owned. }
  destruct a; cbn; auto. by rewrite (evolves_refs _ _ _ _ He).
Qed.

Lemma apply_action_spec rcs depths a w :
  action_ok rcs depths a -> acts rcs depths (action_safe w a) w (apply_action fuel cfg a w).2.
Proof.
  intros Hok. unfold apply_action, perform.
  assert (forall (m : M SW bytes Done) P, wp m w (fun _ w' => acts rcs depths P w w') ->
    acts rcs depths P w (let '(r, w') := m w in ((r, []) : result bytes Done * list RepairOutcome, w')).2) as Hplain.
  { intros m P Hm. unfold wp in Hm. by destruct (m w). }
  assert (forall (x : (result bytes Done * list RepairOutcome) * SW),
    (let '(r, extra, w') := x in (extra ++ [dressed a r], w')).2 = x.2) as Hsnd by (by intros [[? ?] ?]).
  rewrite Hsnd. destruct a; cbn [action_ok action_safe] in *; try done; apply Hplain.
  - by apply quarantine_corrupt_spec.
  - destruct Hok as (Hi & ds & -> & Hnd & Hds & Hdep). eapply wp_mono; [by apply (adopt_orphan_spec rcs depths)|].
    intros r w' [He _]. by split.
  - destruct Hok as (Hi & Hr & Hu). by apply set_rc_spec.
  - by apply mark_degraded_action_spec.
  - apply delete_unreferenced_spec.
  - apply delete_unreferenced_spec.
  - apply quarantine_foreign_spec.
Qed.

Lemma apply_all_evolves rcs depths l : forall os w,
  Forall (action_ok rcs depths) l -> evolves rcs depths w (apply_all fuel cfg l os w).2.
Proof.
  induction l as [|a l IH]; intros os w Hl; cbn [apply_all]; [apply evolves_refl|].
  apply Forall_cons in Hl as [Ha Hl]. destruct (apply_action_spec rcs depths a w Ha) as [He _].
  destruct (apply_action fuel cfg a w) as [os' w1]. cbn [snd] in He. eapply evolves_trans; [exact He|by apply IH].
Qed.

Lemma apply_all_keeps rcs l : forall os w,
  Forall (action_ok rcs no_depths) l -> Forall (action_safe w) l -> sound_but w ->
  sound_but (apply_all fuel cfg l os w).2.
Proof.
  induction l as [|a l IH]; intros os w Hl Hs Hinv; cbn [apply_all]; [done|].
  apply Forall_cons in Hl as [Ha Hl]. apply Forall_cons in Hs as [Hsa Hs].
  destruct (apply_action_spec rcs no_depths a w Ha) as [He Hk]. destruct (apply_action fuel cfg a w) as [os' w1]. cbn [snd] in *.
  apply IH; [done| |by apply Hk]. eapply Forall_impl; [exact Hs|]. intros b. by apply (action_safe_later rcs).
Qed.
End Actions.
