(* ===== verification/PlanSpecs.v ===== *)
(** What a repair plans, and what its rounds do to a store. *)

From S2P Require Import Prelude Bytes Orders Externals BlockIds Codec Records StoreHeader MetaStore Disk Placement MetaOps Accounting Engine BatchSpecs WriteSpecs ObjectSpecs Uploads UploadSpecs Commands NsSpecs NsAdmin Report Scrub Passes ScrubSpecs WalkSpecs PassSpecs Repair RepairSpecs.
From Stdlib Require Import Strings.Byte.
Local Open Scope Z_scope.
#[local] Set Warnings "-clear-no-such-hyp".

Section Plan.
Context {S T D : Type} `{RepairFsLaws D, StoreLaws S T, Blake3, Md5, FasterHexLaws, !FasterHexSpelling, Unicode}.
Abbreviation SW := (World S D).
Abbreviation shkv w := (kv (w_shared w)).
Context (fuel : nat) (ctx : ScrubContext).
Abbreviation cfg := (sc_cfg ctx).
Abbreviation root := (blocks_root (sc_cfg ctx)).

(** A block of which the report calls a good file corrupt. *)
Definition accused (report : Report) (w : SW) (i : BlockId) : Prop :=
  exists f p c, f ∈ rp_findings report /\ fi_class f = CorruptBlock /\ fi_block f = Some (to_hex i) /\
    fi_path f = Some (path_text p) /\ wfiles w !! p = Some c /\ hash_block (cfg_hasher cfg) c = i.

(* ------------------------------------------------------------------ *)
(** * Plans of actions *)

Lemma elem_of_concat_lists {A B} (g : A -> list B) l b :
  b ∈ concat (map g l) <-> exists a, a ∈ l /\ b ∈ g a.
Proof.
  induction l as [|a l IH]; cbn [map concat].
  - split; [by intros ?%elem_of_nil|]. by intros (a & ?%elem_of_nil & _).
  - rewrite elem_of_app, IH. setoid_rewrite elem_of_cons. naive_solver.
Qed.

Lemma elem_of_sorted_actions l a : a ∈ sort_by_block l <-> a ∈ l.
Proof. apply elem_of_sort_by. Qed.

Lemma plan_corrupt_elem report disk a :
  a ∈ (plan_corrupt report disk).1 -> exists f file, f ∈ rp_findings report /\ fi_class f = CorruptBlock /\
    file ∈ dw_files disk /\ a = QuarantineCorrupt (bf_id file) (bf_path file) /\
    fi_block f = Some (to_hex (bf_id file)) /\ fi_path f = Some (path_text (bf_path file)).
Proof.
  unfold plan_corrupt. cbn [fst]. rewrite map_map, elem_of_concat_lists. intros (f & Hf & Ha).
  apply list_elem_of_filter in Hf as [Hc Hf]. exists f. unfold plan_corrupt_one in Ha.
  destruct (fi_block f) as [hex|]; [|by apply elem_of_nil in Ha]. destruct (fi_path f) as [p|]; [|by apply elem_of_nil in Ha].
  destruct (list_find _ _) as [[n file]|] eqn:Ef; [|by apply elem_of_nil in Ha].
  apply list_find_Some in Ef as (Hn & [<- <-] & _). apply list_elem_of_singleton in Ha as ->.
  exists file. apply list_elem_of_lookup_2 in Hn. done.
Qed.

Context (w : SW) (records : RecordWalk) (disk : DiskWalk).
Context (Hrec : records_exact (shkv w) records).
Context (Hdisk : disk_exact (wfiles w) root (sc_id_width ctx) (store_own ctx w) disk).

Lemma walked_file f : f ∈ dw_files disk ->
  BlockId_wf (bf_id f) /\ id_width (bf_id f) = sc_id_width ctx /\ 1 <= bf_depth f <= Z.of_nat (sc_id_width ctx) /\
  bf_path f = block_disk_path (bf_id f) (bf_depth f) root /\ exists c, wfiles w !! bf_path f = Some c.
Proof.
  intros Hf. destruct Hdisk as (Hacc & _). rewrite Forall_forall in Hacc.
  destruct (Hacc f Hf) as (? & ? & ? & ? & c & ? & _). eauto 10.
Qed.

Lemma record_walked i b : rw_records records !! i = Some b <-> BlockId_wf i /\ block_at (shkv w) i = Some b.
Proof. apply Hrec. Qed.

(** The walk meets a block at a depth once. *)
Lemma walk_depths_once i l : NoDup (map bf_path l) -> (forall f, f ∈ l -> f ∈ dw_files disk) ->
  NoDup (omap (fun f => if decide (bf_id f = i) then Some (bf_depth f) else None) l).
Proof.
  induction l as [|f l IH]; intros Hnd Hin; [constructor|]. cbn [map] in Hnd. apply NoDup_cons in Hnd as [Hf Hnd].
  cbn [omap list_omap]. specialize (IH Hnd (fun g Hg => Hin g (list_elem_of_further _ _ _ Hg))).
  destruct (decide (bf_id f = i)) as [<-|]; [|done]. apply NoDup_cons. split; [|done].
  intros Hd. apply list_elem_of_omap in Hd as (g & Hg & E). case_decide as Hid; [|done]. injection E as E.
  apply Hf, list_elem_of_fmap. exists g. split; [|done].
  destruct (walked_file f) as (_ & _ & _ & -> & _); [apply Hin; by left|].
  destruct (walked_file g) as (_ & _ & _ & -> & _); [apply Hin; by right|]. by rewrite Hid, E.
Qed.

(** The depths of an adoption: distinct, in range, each with its file. *)
Lemma adoption_depths i b : exists ds,
  sort_by Z.compare (elsewhere disk i b) = map Z.of_nat ds /\ NoDup ds /\ Forall (fun n => (1 <= n <= id_width i)%nat) ds /\
  forall n, n ∈ ds -> is_Some (wfiles w !! block_disk_path i (Z.of_nat n) root).
Proof.
  set (l := sort_by Z.compare (elsewhere disk i b)).
  assert (forall d, d ∈ l -> 1 <= d <= Z.of_nat (id_width i) /\ is_Some (wfiles w !! block_disk_path i d root)) as Hl.
  { intros d Hd. unfold l in Hd. rewrite elem_of_sort_by in Hd. unfold elsewhere in Hd. apply list_elem_of_filter in Hd as [_ Hd].
    apply list_elem_of_omap in Hd as (f & Hf & E). case_decide as Hid; [|done]. injection E as <-.
    destruct (walked_file f Hf) as (_ & Hw & Hr & Hp & c & Hc). rewrite <- Hid. split; [lia|]. rewrite <- Hp. by eexists. }
  assert (NoDup l) as Hnd.
  { unfold l. rewrite sort_by_perm. unfold elsewhere. apply NoDup_filter, walk_depths_once; [apply Hdisk|done]. }
  clearbody l. exists (map Z.to_nat l). split; [|split; [|split]].
  - rewrite map_map. symmetry. erewrite map_ext_in; [apply map_id|]. intros d Hd. apply list_elem_of_In, Hl in Hd. cbn. lia.
  - apply NoDup_fmap_2_strong; [|done]. intros x y Hx%Hl Hy%Hl E. lia.
  - apply Forall_forall. intros n (d & -> & Hd%Hl)%list_elem_of_fmap. lia.
  - intros n (d & -> & Hd)%list_elem_of_fmap. apply Hl in Hd as [? ?]. by rewrite Z2Nat.id by lia.
Qed.

(** The depths at which a block has a file. *)
Definition file_depths : BlockId -> Z -> Prop := fun i d => is_Some (wfiles w !! block_disk_path i d root).

Lemma plan_record_ok rcs (d : D) i b a :
  BlockId_wf i -> a ∈ (plan_record root disk d (i, b)).1 ++ (plan_record root disk d (i, b)).2 ->
  action_ok cfg rcs file_depths a.
Proof.
  intros Hi. unfold plan_record. destruct (is_degraded b || _); [by intros ?%elem_of_nil|].
  destruct (adoption_depths i b) as (ds & -> & Hnd & Hds & Hf). case_decide as E.
  - by intros ->%list_elem_of_singleton.
  - cbn [fst snd]. rewrite app_nil_r. intros ->%list_elem_of_singleton. cbn. split; [done|]. exists ds.
    split; [|done]. unfold candidates_of. by rewrite map_map.
Qed.

(** A record whose file is there is left alone. *)
Lemma plan_record_none (d : D) i b :
  files d = wfiles w -> (is_degraded b = false -> is_Some (wfiles w !! block_disk_path i (b_depth b) root)) ->
  plan_record root disk d (i, b) = ([], []).
Proof.
  intros Hd Hf. unfold plan_record. rewrite is_file_iff, Hd. destruct (is_degraded b); [done|].
  by rewrite bool_decide_true by (by apply Hf).
Qed.

(* ------------------------------------------------------------------ *)
(** * Harmless plans *)

(** A block file that no healthy record names is expendable. *)
Lemma file_expendable (exempt : BlockId -> Prop) i d : BlockId_wf i -> 1 <= d <= Z.of_nat (id_width i) ->
  (forall b, ~ exempt i -> block_at (shkv w) i = Some b -> is_degraded b = false -> 1 <= b_depth b <= Z.of_nat (id_width i) -> b_depth b <> d) ->
  records_named ctx w -> expendable cfg exempt w (block_disk_path i d root).
Proof.
  intros Hi Hd Hno Hnamed q (j & b & Hj & Hx & Hb & Hdeg & ->) Hp.
  assert (i = j) as -> by (by eapply block_path_prefix). destruct (Hnamed j b Hj Hb) as [_ Hbd].
  apply (Hno b Hx Hb Hdeg Hbd). rewrite <- (Z2Nat.id d), <- (Z2Nat.id (b_depth b)) in Hp by lia.
  rewrite (block_path_hexdir j (Z.to_nat d)) in Hp by (done || lia).
  apply prefix_of_block_path in Hp as [[E _]|[x E]]; [| |done|lia].
  - apply (f_equal length) in E. rewrite !length_take, length_as_slice in E by done. lia.
  - exfalso. unfold to_hex in E. apply hex_string_inj in E. apply (f_equal length) in E. rewrite length_as_slice in E by done.
    destruct (id_width_cases j Hj) as [Ew|Ew]; rewrite Ew in E; simpl in E; lia.
Qed.

Context (Hnamed : records_named ctx w) (Hinv : winv cfg w (fun _ => 0%nat)).

Lemma plan_corrupt_safe report a : a ∈ (plan_corrupt report disk).1 -> action_safe cfg (accused report w) w a.
Proof.
  intros Ha. destruct (plan_corrupt_elem report disk a Ha) as (f & file & Hf & Hc & Hfile & -> & Hb & Hp).
  destruct (walked_file file Hfile) as (Hi & Hw & Hd & Epath & c & Hcont). cbn. rewrite Epath in *.
  apply file_expendable; [done|lia| |done]. intros b Hx Hat Hdeg _ E.
  destruct (inv_files _ _ _ _ _ _ Hinv _ _ Hi Hat Hdeg) as (c' & Hc' & Hh & _). rewrite E, Hcont in Hc'. injection Hc' as <-.
  apply Hx. by exists f, (block_disk_path (bf_id file) (bf_depth file) root), c.
Qed.

Lemma plan_file_safe (exempt : BlockId -> Prop) f a : f ∈ dw_files disk -> a ∈ plan_file (rw_records records) (present_files disk) f -> action_safe cfg exempt w a.
Proof.
  intros Hf Ha. destruct (walked_file f Hf) as (Hi & Hw & Hd & Epath & _). unfold plan_file in Ha.
  destruct (rw_records records !! bf_id f) as [b|] eqn:Er.
  - destruct (Z.eqb_spec (b_depth b) (bf_depth f)) as [|Hne]; cbn in Ha; [by apply elem_of_nil in Ha|].
    case_bool_decide; [|by apply elem_of_nil in Ha]. apply list_elem_of_singleton in Ha as ->. cbn. rewrite Epath.
    apply file_expendable; [done|lia| |done]. intros b' _ Hb' _ _. apply record_walked in Er as [_ Er]. congruence.
  - apply list_elem_of_singleton in Ha as ->. cbn. rewrite Epath. apply file_expendable; [done|lia| |done].
    intros b' _ Hb' _ _ _. assert (rw_records records !! bf_id f = Some b') by (by apply record_walked). congruence.
Qed.

Lemma plan_foreign_safe (exempt : BlockId -> Prop) x : x ∈ dw_foreign disk -> action_safe cfg exempt w (QuarantineForeign (fp_path x)).
Proof.
  intros Hx q (i & b & Hi & _ & Hb & Hdeg & ->). destruct Hdisk as (_ & _ & Hstray & _). rewrite Forall_forall in Hstray.
  destruct (Hnamed i b Hi Hb) as [Hw Hd]. destruct (inv_files _ _ _ _ _ _ Hinv i b Hi Hb Hdeg) as (c & Hc & _).
  specialize (Hstray x Hx i (Z.to_nat (b_depth b)) Hi Hw). rewrite Z2Nat.id in Hstray by lia. apply Hstray; [lia|by eexists].
Qed.

Lemma plan_record_sound (d : D) i b : files d = wfiles w -> rw_records records !! i = Some b -> plan_record root disk d (i, b) = ([], []).
Proof.
  intros Hd Hb. apply record_walked in Hb as [Hi Hb]. apply plan_record_none; [done|]. intros Hdeg.
  destruct (inv_files _ _ _ _ _ _ Hinv i b Hi Hb Hdeg) as (c & Hc & _). by eexists.
Qed.
End Plan.

(* ------------------------------------------------------------------ *)
(** * The last round *)

Section Round.
Context {S T D : Type} `{RepairFsLaws D, StoreLaws S T, Blake3, Md5, FasterHexLaws, !FasterHexSpelling, Unicode}.
Abbreviation SW := (World S D).
Abbreviation shkv w := (kv (w_shared w)).
Context (fuel : nat) (ctx : ScrubContext).
Abbreviation cfg := (sc_cfg ctx).
Abbreviation root := (blocks_root (sc_cfg ctx)).

(** The counts a round may set: the references there are, if the recount ran. *)
Definition counts_of (report : Report) (w : SW) : BlockId -> Z -> Prop :=
  fun i z => ran report Recount = true /\ z = Z.of_nat (refs w i).

Lemma plan_set_rc_ok (exempt : BlockId -> Prop) report (w : SW) records expected i b a :
  ran report Recount = true -> records_exact (shkv w) records -> rw_records records !! i = Some b ->
  (forall i, Z.of_nat (refs w i) <= u64_max) ->
  (forall i, expected !! i = if decide (refs w i = 0%nat) then None else Some (Z.of_nat (refs w i))) ->
  a ∈ plan_set_rc expected (i, b) ->
  action_ok cfg (counts_of report w) (file_depths ctx w) a /\ action_ok cfg (counts_of report w) no_depths a /\ action_safe cfg exempt w a.
Proof.
  intros Hran [Hrec _] Hb Hmax Hexp Ha. apply Hrec in Hb as [Hi _]. unfold plan_set_rc in Ha. rewrite Hexp in Ha.
  assert (default 0 (if decide (refs w i = 0%nat) then None else Some (Z.of_nat (refs w i))) = Z.of_nat (refs w i)) as E.
  { case_decide as E; [by rewrite E|done]. }
  rewrite E in Ha. destruct (b_rc b =? Z.of_nat (refs w i)); [by apply elem_of_nil in Ha|]. apply list_elem_of_singleton in Ha as ->.
  assert (is_usize (Z.of_nat (refs w i))) as Hu by (split; [lia|apply Hmax]). cbn. unfold counts_of. auto 10.
Qed.

(** What a plan of the last round is: allowed, and harmless to a sound store. *)
Definition plan_good (report : Report) (w : SW) (actions : list RepairAction) : Prop :=
  Forall (action_ok cfg (counts_of report w) (file_depths ctx w)) actions /\
  (records_named ctx w -> winv cfg w (fun _ => 0%nat) ->
   Forall (action_ok cfg (counts_of report w) no_depths) actions /\ Forall (action_safe cfg (accused ctx report w) w) actions).

Lemma plan_good_app report w l k : plan_good report w l -> plan_good report w k -> plan_good report w (l ++ k).
Proof.
  intros [Hl Hl'] [Hk Hk']. split; [by apply Forall_app|]. intros Hn Hi.
  destruct (Hl' Hn Hi), (Hk' Hn Hi). by rewrite !Forall_app.
Qed.

Lemma plan_good_all report w l :
  (forall a, a ∈ l -> action_ok cfg (counts_of report w) (file_depths ctx w) a /\
     (records_named ctx w -> winv cfg w (fun _ => 0%nat) ->
      action_ok cfg (counts_of report w) no_depths a /\ action_safe cfg (accused ctx report w) w a)) -> plan_good report w l.
Proof.
  intros Hl. split; [apply Forall_forall; intros a Ha; by apply Hl|]. intros Hn Hi.
  split; apply Forall_forall; intros a Ha; by apply Hl.
Qed.

(** The part of the plan that needs no recount. *)
Lemma plan_placed_good report (w : SW) records disk (d : D) :
  records_exact (shkv w) records -> disk_exact (wfiles w) root (sc_id_width ctx) (store_own ctx w) disk -> files d = wfiles w ->
  let placed := map (plan_record root disk d) (map_to_list (rw_records records)) in
  plan_good report w (plan_corrupt report disk).1 /\
  plan_good report w (sort_by_block (concat (map fst placed))) /\ plan_good report w (sort_by_block (concat (map snd placed))) /\
  plan_good report w (concat (map (plan_file (rw_records records) (present_files disk)) (dw_files disk))) /\
  plan_good report w (map (fun foreign => QuarantineForeign (fp_path foreign)) (dw_foreign disk)).
Proof.
  intros Hrec Hdisk Hd placed.
  assert (forall a, a ∈ concat (map fst placed) \/ a ∈ concat (map snd placed) ->
    action_ok cfg (counts_of report w) (file_depths ctx w) a /\
    (records_named ctx w -> winv cfg w (fun _ => 0%nat) ->
      action_ok cfg (counts_of report w) no_depths a /\ action_safe cfg (accused ctx report w) w a)) as Hplaced.
  { intros a Ha. assert (exists i b, rw_records records !! i = Some b /\
      a ∈ (plan_record root disk d (i, b)).1 ++ (plan_record root disk d (i, b)).2) as (i & b & Hb & Hin).
    { unfold placed in Ha. rewrite !map_map, !elem_of_concat_lists in Ha. setoid_rewrite elem_of_app.
      destruct Ha as [([i b] & Hib%elem_of_map_to_list & Ha)|([i b] & Hib%elem_of_map_to_list & Ha)]; eauto. }
    split; [eapply plan_record_ok; [exact Hdisk|by apply Hrec in Hb as [? _]|exact Hin]|]. intros Hn Hi.
    rewrite (plan_record_sound ctx w records disk Hrec Hi d i b Hd Hb) in Hin. by apply elem_of_nil in Hin. }
  split; [|split; [|split; [|split]]]; apply plan_good_all; intros a Ha.
  - pose proof (plan_corrupt_elem report disk a Ha) as (f & file & _ & _ & Hfile & -> & _).
    destruct (walked_file ctx w disk Hdisk file Hfile) as (Hi & _). split; [done|]. intros Hn Hinv. split; [done|].
    exact (plan_corrupt_safe ctx w disk Hdisk Hn Hinv report _ Ha).
  - rewrite elem_of_sorted_actions in Ha. apply Hplaced. by left.
  - rewrite elem_of_sorted_actions in Ha. apply Hplaced. by right.
  - apply elem_of_concat_lists in Ha as (f & Hf & Ha).
    assert (forall dep, action_ok cfg (counts_of report w) dep a) as Hok.
    { intros dep. unfold plan_file in Ha. repeat case_match; try (by apply elem_of_nil in Ha);
        apply list_elem_of_singleton in Ha as ->; done. }
    split; [apply Hok|]. intros Hn _. split; [apply Hok|]. exact (plan_file_safe ctx w records disk Hrec Hdisk Hn _ f a Hf Ha).
  - apply list_elem_of_fmap in Ha as (x & -> & Hx). split; [done|]. intros Hn Hinv. split; [done|].
    exact (plan_foreign_safe ctx w disk Hdisk Hn Hinv _ x Hx).
Qed.

Lemma plan_repairs_spec report (w : SW) :
  scrubbable fuel ctx w ->
  wp (plan_repairs fuel ctx report) w (fun r w' => unchanged w w' /\
    match r with Ok planned => plan_good report w planned.1 | Err _ => True end).
Proof.
  intros Hsb. pose proof Hsb as [Hf1 Hf2 Hm _ _ _ _]. unfold plan_repairs.
  apply wp_bind, wp_at_shared. eapply wp_mono; [by apply walk_records_exact|].
  intros [records|e] s1 [Hk1 Hrec]; cbn [map_err]; [|split; [by split|done]].
  apply wp_bind, wp_at_disk. cbn [w_disk]. eapply wp_mono; [by apply walk_context_spec|].
  intros [disk|e] d1 [Hd1 Hdisk]; cbn [map_err]; [|split; [by split; [|split; [|split]]|done]].
  set (w1 := mkWorld _ _ _ _). assert (unchanged w w1) as Hu1 by (by split; [|split; [|split]]).
  destruct (plan_placed_good report w records disk d1 Hrec Hdisk Hd1) as (G1 & G2 & G3 & G4 & G5).
  destruct (plan_corrupt report disk) as [corrupt lost]. apply wp_bind. unfold wp at 1, look. cbn [fst snd].
  change (ds_disk (w_disk w1)) with d1. apply wp_bind.
  eapply wp_mono with (Q := fun r w' => unchanged w w' /\
    match r with Ok counted => plan_good report w counted.1 | Err _ => True end).
  - destruct (ran report Recount) eqn:Hran; [|apply wp_ret; split; [done|apply plan_good_all; by intros a ?%elem_of_nil]].
    apply wp_bind, wp_m_map_err. pose proof Hu1 as (En1 & Es1 & _).
    eapply wp_mono; [apply (expected_counts_spec fuel w1);
      [by rewrite En1|by rewrite Es1|intros i; by rewrite (refs_unchanged _ _ Hu1)]|].
    intros r w2 (En & Es & Ed & Hr).
    assert (unchanged w w2) as Hu2.
    { eapply unchanged_trans; [exact Hu1|]. split; [done|]. split; [done|]. unfold wfiles, wnonce. by rewrite Ed. }
    destruct r as [expected|e]; cbn [map_err]; [|done]. apply wp_ret. split; [done|]. destruct Hr as [Hexp _].
    assert (forall i, expected !! i = if decide (refs w i = 0%nat) then None else Some (Z.of_nat (refs w i))) as Hexp'.
    { intros i. by rewrite Hexp, (refs_unchanged _ _ Hu1). }
    apply plan_good_all. intros a Ha. cbn [fst] in Ha.
    rewrite elem_of_sorted_actions in Ha. apply elem_of_concat_lists in Ha as ([i b] & Hib%elem_of_map_to_list & Ha).
    destruct (plan_set_rc_ok (accused ctx report w) report w records expected i b a Hran Hrec Hib Hm Hexp' Ha) as (? & ? & ?). auto.
  - intros [[set_rcs refused]|e] w2 [Hu2 G6]; [|done]. apply wp_ret. split; [done|]. cbn [fst] in *.
    repeat (apply plan_good_app; [assumption|]). done.
Qed.

(** The last round: records move only as planned, and a sound store stays sound
    whatever fails, but for the blocks of which the report calls a good file
    corrupt. *)
Lemma last_round_spec report (w : SW) outcomes :
  scrubbable fuel ctx w ->
  wp (round fuel ctx (plan_repairs fuel ctx report) outcomes) w (fun _ w' =>
    evolves (counts_of report w) (file_depths ctx w) w w' /\
    (records_named ctx w -> winv cfg w (fun _ => 0%nat) -> sound_but cfg (accused ctx report w) w')).
Proof.
  intros Hsb. unfold round. apply wp_bind. eapply wp_mono; [by apply plan_repairs_spec|].
  intros r w1 [(En & Es & Ef & _) Hg].
  assert (winv cfg w (fun _ => 0%nat) -> sound_but cfg (accused ctx report w) w1) as Hinv1.
  { intros Hinv. apply sound_is_sound_but. revert Hinv. unfold winv. by rewrite En, Es, Ef. }
  assert (forall rcs depths, evolves rcs depths w w1) as He1 by (intros; by apply evolves_same).
  destruct r as [[actions more]|e]; [|split; [apply He1|auto]]. cbn [fst snd] in *. destruct Hg as [Hok Hsafe].
  unfold applying, wp. pose proof (apply_all_evolves cfg fuel (accused ctx report w) _ _ actions (outcomes ++ more) w1 Hok) as Hev.
  pose proof (fun rcs => apply_all_keeps cfg fuel (accused ctx report w) rcs actions (outcomes ++ more) w1) as Hkeep.
  destruct (apply_all fuel cfg actions (outcomes ++ more) w1) as [os w2]. cbn [fst snd] in *.
  split; [eapply evolves_trans; [apply He1|exact Hev]|]. intros Hn Hinv. destruct (Hsafe Hn Hinv) as [Hok' Hs].
  apply (Hkeep (counts_of report w)); [done| |by apply Hinv1]. eapply Forall_impl; [exact Hs|].
  intros a. by apply (action_safe_later cfg _ (counts_of report w)).
Qed.
End Round.

(* ------------------------------------------------------------------ *)
(** * The first rounds *)

Section Teardown.
Context {S T D : Type} `{RepairFsLaws D, StoreLaws S T, Blake3Laws, Md5, FasterHexLaws, !FasterHexSpelling, Unicode}.
Abbreviation SW := (World S D).
Context (fuel : nat) (ctx : ScrubContext).
Abbreviation cfg := (sc_cfg ctx).
Abbreviation sound w := (winv cfg w (fun _ => 0%nat)).

(** Calls that only read the databases. *)
Definition reads_only (w w' : SW) : Prop :=
  kv (w_ns w') = kv (w_ns w) /\ kv (w_shared w') = kv (w_shared w) /\ w_disk w' = w_disk w.

Lemma reads_only_trans w1 w2 w3 : reads_only w1 w2 -> reads_only w2 w3 -> reads_only w1 w3.
Proof. intros (? & ? & ?) (? & ? & ?). split; [congruence|]. split; congruence. Qed.

Lemma reads_only_scrubbable (w w' : SW) : reads_only w w' -> scrubbable fuel ctx w -> scrubbable fuel ctx w'.
Proof.
  intros (En & Es & Ed) [H1' H2' H3' H4' H5' H6' H7']. unfold store_own, wfiles in *.
  constructor; unfold store_own, wfiles; rewrite ?En, ?Es, ?Ed; try done. intros i. unfold refs. rewrite En, Es. apply H3'.
Qed.

(** What a first round plans: only with the recount, only of its kind. *)
Definition removes_holders (report : Report) (a : RepairAction) : Prop :=
  ran report Recount = true /\
  match a with ResumeBucketTeardown b => reserved b = false | ReapOrphanPart _ _ _ _ _ => True | _ => False end.

Lemma wp_reads_ns {E E' A} (f : E -> E') (m : M S E A) (w : SW) (Q : result E' A -> SW -> Prop) :
  wp m (w_ns w) (fun _ s' => kv s' = kv (w_ns w)) ->
  (forall r w', reads_only w w' -> Q r w') -> wp (at_ns f m) w Q.
Proof. intros Hm HQ. apply wp_at_ns. eapply wp_mono; [exact Hm|]. intros r s' Hk. apply HQ. by split. Qed.

Lemma stranded_trees_spec (s : S) :
  wp (stranded_trees fuel) s (fun r s' => kv s' = kv s /\
    match r with Ok l => forall t, t ∈ l -> reserved t = false | Err _ => True end).
Proof.
  unfold stranded_trees, list_bucket_names. apply wp_bind, wp_bind. eapply wp_mono; [apply tree_open_spec|].
  intros [t|e] s1 [Hk1 _]; [|done]. eapply wp_mono; [apply iter_map_reads|]. intros [named|e] s2 Hk2; [|by rewrite Hk2].
  apply wp_bind. eapply wp_mono; [apply list_trees_spec|]. intros [trees|e] s3 [Hk3 _]; [|by rewrite Hk3, Hk2].
  apply wp_ret. split; [by rewrite Hk3, Hk2|]. intros t' Ht. unfold orphaned_trees in Ht.
  rewrite elem_of_sort_by in Ht. by apply list_elem_of_filter in Ht as [[? _] _].
Qed.

Lemma plan_teardowns_spec report (w : SW) :
  wp (plan_teardowns (T := T) fuel report) w (fun r w' => reads_only w w' /\
    match r with Ok planned => Forall (removes_holders report) planned.1 | Err _ => True end).
Proof.
  unfold plan_teardowns. destruct (ran report BucketIntegrity); cbn [negb]; [|apply wp_ret; by split; [|constructor]].
  apply wp_bind, wp_at_ns. eapply wp_mono; [apply stranded_trees_spec|]. intros [l|e] s' [Hk Hl]; cbn [map_err]; [|split; [by split|done]].
  assert (reads_only w (mkWorld s' (w_shared w) (w_disk w) (w_counters w))) as Hu by (by split).
  destruct (decide (l = [])); [apply wp_ret; by split; [|constructor]|].
  destruct (ran report Recount) eqn:Hran; cbn [negb]; apply wp_ret; (split; [done|]); [|constructor].
  apply Forall_forall. intros a (b & -> & Hb)%list_elem_of_fmap. split; [done|by apply Hl].
Qed.

Lemma orphan_parts_from_reads n t : forall c l (w : SW),
  wp (orphan_parts_from n t c l) w (fun _ w' => reads_only w w').
Proof.
  induction n as [|n IH]; intros c l w; cbn [orphan_parts_from]; [by apply wp_ret|].
  apply wp_bind, wp_at_shared. eapply wp_mono; [apply tree_next_spec|]. intros r s1 [Hk1 _].
  assert (reads_only w (mkWorld (w_ns w) s1 (w_disk w) (w_counters w))) as Hu1 by (by split).
  destruct r as [[[k raw]|]|e]; cbn [map_err]; [|by apply wp_ret|done].
  apply wp_bind, wp_lift. destruct (MultiPart_try_from raw) as [p|e]; cbn [map_err]; [|done].
  apply wp_bind, wp_m_map_err. eapply wp_mono; [apply get_upload_spec|]. intros r w2 [[Hsame Hsh] _].
  assert (reads_only w w2) as Hu2.
  { eapply reads_only_trans; [exact Hu1|]. destruct Hsame as [En Ed]. split; [by rewrite En|by split]. }
  destruct r as [u|e]; cbn [map_err]; [|done]. eapply wp_mono; [apply IH|]. intros r w3 Hu3. by eapply reads_only_trans.
Qed.

Lemma plan_orphan_parts_spec report (w : SW) :
  wp (plan_orphan_parts fuel report) w (fun r w' => reads_only w w' /\
    match r with Ok planned => Forall (removes_holders report) planned.1 | Err _ => True end).
Proof.
  unfold plan_orphan_parts. destruct (ran report MultipartReport); cbn [negb]; [|apply wp_ret; by split; [|constructor]].
  unfold orphan_parts. apply wp_bind, wp_m_map_err, wp_bind, wp_at_shared. eapply wp_mono; [apply tree_open_spec|].
  intros r s1 [Hk1 _]. assert (reads_only w (mkWorld (w_ns w) s1 (w_disk w) (w_counters w))) as Hu1 by (by split).
  destruct r as [t|e]; cbn [map_err]; [|done]. eapply wp_mono; [apply orphan_parts_from_reads|]. intros r w2 Hu2.
  apply (reads_only_trans _ _ _ Hu1) in Hu2. destruct r as [l|e]; cbn [map_err]; [|done].
  destruct (decide (l = [])); [apply wp_ret; by split; [|constructor]|].
  destruct (ran report Recount) eqn:Hran; cbn [negb]; apply wp_ret; (split; [done|]); [|constructor].
  apply Forall_forall. intros a ([k p] & -> & _)%list_elem_of_fmap. by split.
Qed.

(** A teardown deletes through the engine, and then only forgets holders. *)
Lemma teardown_keys_keeps b keys : reserved b = false -> forall del sk ex (w : SW),
  sound w -> sound (teardown_keys cfg b keys del sk ex w).2.
Proof.
  intros Hb. induction keys as [|k keys IH]; intros del sk ex w Hs; cbn [teardown_keys]; [done|].
  destruct (utf8_valid k); [|by apply IH]. pose proof (delete_object_spec cfg b k w (fun _ => 0%nat) Hb Hs) as Hd. unfold wp in Hd.
  destruct (delete_object cfg b k w) as [[x|e] w1]; cbn [fst snd] in Hd; [apply IH|]; apply Hd.
Qed.

Lemma drop_keeps {E} (f : MetaError -> E) b (w : SW) : sound w -> wp (at_ns f (drop_bucket b)) w (fun _ w' => sound w').
Proof.
  intros Hs. apply wp_at_ns.
  eapply wp_mono; [apply (drop_bucket_spec b (w_ns w) (fun m => Inv (cfg_hasher cfg) (blocks_root cfg) m (kv (w_shared w)) (wfiles w) (fun _ => 0%nat)))|].
  - intros m p. apply inv_ns_delete.
  - intros m t. apply inv_ns_drop.
  - exact Hs.
  - intros r s' Hs'. exact Hs'.
Qed.

Lemma reads_only_sound (w w' : SW) : reads_only w w' -> sound w -> sound w'.
Proof. intros (En & Es & Ed). unfold winv, wfiles. by rewrite En, Es, Ed. Qed.

Lemma resume_keeps b (w : SW) : reserved b = false -> sound w -> sound (resume_bucket_teardown fuel cfg b w).2.
Proof.
  intros Hb Hs. unfold resume_bucket_teardown.
  set (m := (tree ← at_ns (says (str "the object tree would not open")) (tree_open b);
             at_ns (says (str "the object tree would not iterate")) (iter_all fuel tree))).
  assert (wp m w (fun _ w' => sound w')) as Hm.
  { unfold m. apply wp_bind, wp_reads_ns; [eapply wp_mono; [apply tree_open_spec|by intros r s' [? _]]|].
    intros r w1 Hu1. apply (reads_only_sound _ _ Hu1) in Hs. destruct r as [t|e]; [|done].
    apply wp_reads_ns; [apply iter_map_reads|]. intros r w2 Hu2. by eapply reads_only_sound. }
  unfold wp in Hm. destruct (m w) as [[items|e] w1]; cbn [fst snd] in Hm; [|done].
  pose proof (teardown_keys_keeps b (map fst items) Hb 0 0 [] w1 Hm) as Hk.
  destruct (teardown_keys cfg b (map fst items) 0 0 [] w1) as [[[[del sk]|e] ex] w2]; cbn [snd] in Hk; [|done].
  match goal with |- context [let '(_, _) := ?act w2 in _] => set (fin := act) end.
  assert (wp fin w2 (fun _ w' => sound w')) as Hf.
  { unfold fin. apply wp_bind. eapply wp_mono; [by apply drop_keeps|]. intros [u|e] w3 Hs3; [by apply wp_ret|done]. }
  unfold wp in Hf. destruct (fin w2) as [r w3]. exact Hf.
Qed.

Lemma reap_keeps b k u n key (w : SW) : sound w -> wp (reap_orphan_part cfg b k u n key) w (fun _ w' => sound w').
Proof.
  intros Hs. unfold reap_orphan_part, engine. apply wp_bind, wp_m_map_err.
  eapply wp_mono; [by apply (reap_part_spec cfg key w (fun _ => 0%nat))|]. intros r w1 [(_ & _ & Hs1 & _) _].
  destruct r as [[p|]|e]; cbn [map_err]; [by apply wp_ret|by apply wp_ret|done].
Qed.

Lemma apply_all_first report l : forall os (w : SW),
  Forall (removes_holders report) l -> sound w -> sound (apply_all fuel cfg l os w).2.
Proof.
  induction l as [|a l IH]; intros os w Hl Hs; cbn [apply_all]; [done|]. apply Forall_cons in Hl as [[_ Ha] Hl].
  assert (sound (apply_action fuel cfg a w).2) as Hs1.
  { unfold apply_action, perform. destruct a; try done.
    - pose proof (resume_keeps bucket w Ha Hs) as Hk. by destruct (resume_bucket_teardown fuel cfg bucket w) as [[r ex] w1].
    - pose proof (reap_keeps bucket key upload_id part_number storage_key w Hs) as Hk. unfold wp in Hk.
      by destruct (reap_orphan_part cfg bucket key upload_id part_number storage_key w) as [r w1]. }
  destruct (apply_action fuel cfg a w) as [os' w1]. by apply IH.
Qed.

(** A first round: a sound store stays sound, and without the recount nothing
    happens at all. *)
Definition first_round report (w w' : SW) : Prop :=
  (sound w -> sound w') /\ (ran report Recount = false -> reads_only w w').

Lemma first_round_spec report (plan : M SW RepairError (list RepairAction * list RepairOutcome)) os (w : SW) :
  wp plan w (fun r w' => reads_only w w' /\ match r with Ok planned => Forall (removes_holders report) planned.1 | Err _ => True end) ->
  wp (round fuel ctx plan os) w (fun _ w' => first_round report w w').
Proof.
  intros Hp. unfold round. apply wp_bind. eapply wp_mono; [exact Hp|]. intros r w1 [Hu Hl].
  destruct r as [[actions more]|e]; [|split; [by apply reads_only_sound|done]]. cbn [fst snd] in *.
  unfold applying, wp. pose proof (apply_all_first report actions (os ++ more) w1 Hl) as Hk.
  destruct actions as [|a actions].
  - cbn [apply_all fst snd] in *. split; [by apply reads_only_sound|done].
  - destruct (apply_all fuel cfg (a :: actions) (os ++ more) w1) as [os' w2]. cbn [fst snd] in *.
    split; [intros Hs; by apply Hk, (reads_only_sound _ _ Hu)|]. intros Hran. apply Forall_cons in Hl as [[Hr _] _]. congruence.
Qed.

Lemma holder_rounds_spec report (w : SW) : wp (holder_rounds fuel ctx report) w (fun _ w' => first_round report w w').
Proof.
  unfold holder_rounds. apply wp_bind. eapply wp_mono; [apply first_round_spec, plan_teardowns_spec|].
  intros [os|e] w1 [Hk Hu]; [|done]. eapply wp_mono; [apply first_round_spec, plan_orphan_parts_spec|].
  intros r w2 [Hk2 Hu2]. split; [auto|]. intros Hr. by eapply reads_only_trans; [apply Hu|apply Hu2].
Qed.

End Teardown.
