(* ===== verification/RepairProps.v ===== *)
(** What a repair is worth: it never loses a reference, nor the file of a sound
    block unless the report calls that file corrupt, whatever fails on the way; it moves no count it has not recounted;
    it adopts no file it has not hashed; and its exit code is a certificate. *)

From S2P Require Import Prelude Bytes Orders Externals BlockIds Codec Records StoreHeader MetaStore Disk Placement RealDisk Fjall MetaOps Accounting Engine BatchSpecs WriteSpecs ObjectSpecs Uploads UploadSpecs Commands NsSpecs NsAdmin Report Scrub Passes ScrubSpecs WalkSpecs PassSpecs FsTree Sample ScrubSample ScrubProps Repair FsRepair RepairSpecs PlanSpecs.
From Stdlib Require Import Strings.Byte.
Local Open Scope Z_scope.
#[local] Set Warnings "-clear-no-such-hyp".

Section Props.
Context {S T D : Type} `{RepairFsLaws D, StoreLaws S T, Blake3Laws, Md5, FasterHexLaws, !FasterHexSpelling, Unicode}.
Abbreviation SW := (World S D).
Abbreviation shkv w := (kv (w_shared w)).
Implicit Types (w : SW) (ctx : ScrubContext).

(** C8: A repair never loses.  Started on a sound store, with any report, the
    rounds leave the store sound, however many calls of the database or of the
    file system fail on the way: no block has fewer counts than references, and
    every record not flagged degraded has its file, intact.  The one exception is
    a block of which the report calls a good file corrupt: the repair moves that
    file aside without hashing it again, and if it then fails to flag the record,
    the record is left without its file; its counts are not short either. *)
Theorem repair_never_loses fuel ctx report w w' r :
  winv (sc_cfg ctx) w (fun _ => 0%nat) ->
  let w1 := (holder_rounds fuel ctx report w).2 in
  scrubbable fuel ctx w1 -> records_named ctx w1 ->
  repair_rounds fuel ctx report w = (r, w') ->
  sound_but (sc_cfg ctx) (accused ctx report w1) w' /\
  ((forall i, ~ accused ctx report w1 i) -> winv (sc_cfg ctx) w' (fun _ => 0%nat)).
Proof.
  intros Hs w1 Hsb Hn E. enough (sound_but (sc_cfg ctx) (accused ctx report w1) w') as Hb.
  { split; [exact Hb|]. intros Hno. by eapply sound_but_none. }
  pose proof (holder_rounds_spec fuel ctx report w) as Hh. unfold wp in Hh. fold w1 in Hh.
  unfold repair_rounds in E. cbv beta delta [mbind M_MBind M_bind] in E.
  destruct (holder_rounds fuel ctx report w) as [[os|e] w2] eqn:Eh; cbn [snd] in w1; subst w1; destruct Hh as [Hk _].
  - pose proof (last_round_spec fuel ctx report w2 os Hsb) as Hl. unfold wp in Hl. rewrite E in Hl. apply Hl; auto.
  - injection E as _ <-. apply sound_is_sound_but; auto.
Qed.

(** Without a recount in the report a repair moves no count.  However the
    store is damaged and whatever fails, every record keeps its count (none is
    removed), and no holder of a reference has changed. *)
Theorem unclosed_repair_moves_no_count fuel ctx report w w' r :
  ran report Recount = false -> scrubbable fuel ctx w -> repair_rounds fuel ctx report w = (r, w') ->
  kv (w_ns w') = kv (w_ns w) /\
  (forall p, p.1 <> DEFAULT_BLOCK_TREE -> shkv w' !! p = shkv w !! p) /\
  (forall i, refs w' i = refs w i) /\
  (forall i, BlockId_wf i -> rc_of (shkv w') i = rc_of (shkv w) i /\
     (is_Some (block_at (shkv w) i) <-> is_Some (block_at (shkv w') i))).
Proof.
  intros Hran Hsb E. pose proof (holder_rounds_spec fuel ctx report w) as Hh. unfold wp in Hh.
  unfold repair_rounds in E. cbv beta delta [mbind M_MBind M_bind] in E.
  destruct (holder_rounds fuel ctx report w) as [[os|e] w1]; cbn [fst snd] in Hh; destruct Hh as [_ Hu]; specialize (Hu Hran).
  - pose proof (reads_only_scrubbable fuel ctx _ _ Hu Hsb) as Hsb1. destruct Hu as (En & Es & _).
    pose proof (last_round_spec fuel ctx report w1 os Hsb1) as Hl. unfold wp in Hl. rewrite E in Hl. destruct Hl as [Hev _].
    assert (forall i z, ~ counts_of report w1 i z) as Hno by (intros i z [Hr _]; by rewrite Hran in Hr).
    pose proof (evolves_uncounted _ _ _ _ Hno Hev) as Huc. pose proof (evolves_refs _ _ _ _ Hev) as Hr.
    destruct Hev as (En2 & Eo2 & _). cbn [snd] in *. rewrite <- En, <- Es. split; [done|]. split; [done|].
    split; [|done]. intros i. rewrite Hr. unfold refs. by rewrite En, Es.
  - injection E as _ <-. destruct Hu as (En & Es & _). rewrite En, Es. split; [done|]. split; [done|].
    split; [intros i; unfold refs; by rewrite En, Es|done].
Qed.

(** The last round of a repair moves a count only to the truth.  On any
    store, whatever fails: each record either keeps its count or is given
    exactly the number of references to its block, a record is removed only
    when nothing references it, and the references stay as they are. *)
Lemma recount_moves_to_truth fuel ctx report w w' os r :
  scrubbable fuel ctx w -> round fuel ctx (plan_repairs fuel ctx report) os w = (r, w') ->
  (forall i, refs w' i = refs w i) /\
  (forall i, BlockId_wf i -> rc_of (shkv w') i = rc_of (shkv w) i \/ rc_of (shkv w') i = Z.of_nat (refs w i)) /\
  (forall i b, BlockId_wf i -> block_at (shkv w) i = Some b -> block_at (shkv w') i = None -> refs w i = 0%nat).
Proof.
  intros Hsb E. pose proof (last_round_spec fuel ctx report w os Hsb) as Hl. unfold wp in Hl. rewrite E in Hl.
  destruct Hl as [Hev _]. cbn [snd] in Hev. split; [intros i; by eapply evolves_refs|]. split.
  - intros i Hi. destruct (evolves_rc _ _ _ _ i Hev Hi) as [?|[_ ?]]; auto.
  - intros i b Hi Hb Hn. destruct Hev as (_ & _ & Hr). specialize (Hr i Hi). rewrite Hb, Hn in Hr. cbn in Hr. destruct Hr as [_ Hz]. lia.
Qed.

(** C22: A repair adopts only what it has hashed.  Adopting a copy for a record
    whose file is gone leaves the record as it was, or flagged, or naming a
    depth whose file is on the disk and hashes to the block, with the count,
    the size and the flags it had. *)
Theorem adoption_is_verified fuel cfg i rd ds w w' r b b' :
  BlockId_wf i -> NoDup ds -> Forall (fun n => (1 <= n <= id_width i)%nat) ds ->
  block_at (shkv w) i = Some b ->
  adopt_orphan fuel cfg i rd (candidates_of cfg i ds) w = (r, w') ->
  block_at (shkv w') i = Some b' -> b_depth b' <> b_depth b ->
  b_rc b' = b_rc b /\ b_size b' = b_size b /\ is_degraded b' = is_degraded b /\
  exists c, wfiles w' !! block_disk_path i (b_depth b') (blocks_root cfg) = Some c /\ hash_block (cfg_hasher cfg) c = i.
Proof.
  intros Hi Hnd Hds Hb E Hb' Hne.
  pose proof (adopt_orphan_spec cfg fuel (fun _ => False) (fun _ _ => False) (fun _ _ => True) i rd ds w Hi Hnd Hds (fun _ _ => I)) as Ha.
  unfold wp in Ha. rewrite E in Ha. destruct Ha as [_ Hv]. by apply (Hv b Hb b' Hb' Hne).
Qed.

(** What the closing report lets through. *)
Lemma left_over_nil (post : Report) f :
  left_over post = [] -> f ∈ rp_findings post -> is_repairable (fi_class f) = false.
Proof.
  intros Hl Hf. destruct (is_repairable (fi_class f)) eqn:Er; [|done]. exfalso. unfold left_over in Hl.
  set (g := fun c => _) in Hl. assert (fi_class f ∈ ALL_CLASSES) as Hc by (destruct (fi_class f); apply (bool_decide_unpack _); vm_compute; exact I).
  assert (exists x, g (fi_class f) = Some x) as [x Hx].
  { unfold g. assert (f ∈ filter (fun f' => fi_class f' = fi_class f /\ is_repairable (fi_class f) = true) (rp_findings post)) as Hin
      by (apply list_elem_of_filter; auto).
    destruct (filter _ _) as [|f' l] eqn:E; [by apply elem_of_nil in Hin|]. cbn. eauto. }
  apply (not_elem_of_nil x). rewrite <- Hl. apply list_elem_of_omap. eauto.
Qed.

Lemma flag_unfinished_quiet (post : Report) :
  rp_exit_code (flag_unfinished post) <> EXIT_CRITICAL -> left_over post = [].
Proof.
  unfold flag_unfinished. destruct (left_over post) as [|[c n] l]; [done|]. intros He. exfalso. apply He.
  rewrite report_exit. apply report_exit_codes. eexists. split; [apply elem_of_app; right; by left|done].
Qed.

Lemma unfinished_quiet ctx options w a post :
  audited ctx options w a -> audit_of options a post -> rp_exit_code (flag_unfinished post) <> EXIT_CRITICAL -> quiet a.
Proof.
  intros Ha Ho He f Hf. pose proof (flag_unfinished_quiet _ He) as Hl.
  unfold flag_unfinished in He. rewrite Hl in He. pose proof (not_critical _ _ _ _ _ Ha Ho He f Hf) as Hs.
  apply (report_of _ _ _ f Ho) in Hf as Hf'. pose proof (left_over_nil _ _ Hl Hf') as Hr.
  destruct (fi_class f) eqn:Ec; try done; try (apply (bool_decide_unpack _); vm_compute; exact I).
Qed.
Lemma repair_certified fuel now ctx report w w' s :
  let w1 := (repair_rounds fuel ctx report w).2 in
  scrubbable fuel ctx w1 -> records_named ctx w1 ->
  repair fuel ctx now report full w = (Ok s, w') -> exit_code s <> EXIT_CRITICAL ->
  certified ctx w1 /\ unchanged w1 w'.
Proof.
  intros w1 Hsb Hn E He. unfold repair in E. cbv beta delta [mbind M_MBind M_bind] in E. subst w1.
  destruct (repair_rounds fuel ctx report w) as [[os|e] w1]; [|done]. cbn [snd] in *. unfold m_map_err in E.
  destruct (run fuel now ctx full w1) as [[post|e] w2] eqn:Er; [|done]. cbn [map_err] in E. injection E as <- <-.
  destruct (run_audit _ _ _ _ _ _ _ Hsb Er) as [Hu (a & Ha & Ho)]. split; [|done].
  apply (quiet_certified ctx w1 a Ha); [|done]. by apply (unfinished_quiet ctx full w1 a post).
Qed.

(** C9: A repair's exit code is a certificate.  A repair asked to hash that
    returns a code other than CRITICAL has left a store in which every count is
    exact, every record is flagged degraded or has its file, intact, every
    record and holder decodes, every object tree has its bucket and every file
    is accounted for; and its last scrub has changed nothing. *)
Theorem repair_exit_certifies fuel now ctx report w w' s :
  let w1 := (repair_rounds fuel ctx report w).2 in
  scrubbable fuel ctx w1 -> records_named ctx w1 ->
  repair fuel ctx now report full w = (Ok s, w') -> exit_code s <> EXIT_CRITICAL ->
  certified ctx w1 /\ unchanged w1 w'.
Proof. intros w1. apply repair_certified. Qed.

(** The quarantine always finds a name.  The search for a free name ends:
    it settles on the first number whose name is free, and any fuel above that
    number lets the search return it. *)
Theorem quarantine_name_found dir base (d : D) : exists k,
  path_exists (numbered dir base k) d = false /\
  (forall j, (j < k)%nat -> path_exists (numbered dir base j) d = true) /\
  forall n, (k < n)%nat -> free_name n 0 dir base d = Some (numbered dir base k).
Proof. destruct (first_free dir base d) as (k & Hk & Hj). exists k. split; [done|]. split; [done|]. by apply free_name_first. Qed.
End Props.

(* ------------------------------------------------------------------ *)
(** * Witnesses *)

Import Concrete MemFjall.

Definition no_report : Report := Report_new (mkStoreRef (str "store") None) [] [].

(** The report a full scrub makes of a sample store. *)
Definition full_report (w : SampleWorld) : Report := default no_report (report_on w).

Lemma unclosed_repair_moves_no_count_witness :
  rc_of (kv (w_shared f_under)) f_hello = 1 /\ refs f_under f_hello = 2%nat /\
  rc_of (kv (w_shared (repair_rounds f_fuel f_ctx no_report f_under).2)) f_hello = 1.
Proof.
  split; [vm_compute; reflexivity|]. split; [vm_compute; reflexivity|].
  assert (rc_of (kv (w_shared f_under)) f_hello = 1) as <- by (vm_compute; reflexivity).
  refine (proj1 (proj2 (proj2 (proj2 (unclosed_repair_moves_no_count f_fuel f_ctx no_report f_under _ _ eq_refl f_under_scrubbable
    (surjective_pairing _)))) f_hello (hash_block_wf _ _))).
Defined.

Lemma recount_moves_to_truth_witness :
  let w' := (round f_fuel f_ctx (plan_repairs f_fuel f_ctx (full_report f_under)) [] f_under).2 in
  refs w' f_hello = refs f_under f_hello /\ rc_of (kv (w_shared w')) f_hello = 2.
Proof.
  split; [|vm_compute; reflexivity].
  refine (proj1 (recount_moves_to_truth f_fuel f_ctx (full_report f_under) f_under _ [] _ f_under_scrubbable (surjective_pairing _)) f_hello).
Defined.

(** A store whose block file has moved to the next depth. *)
Definition moved_file (n : Z) (w : SampleWorld) : SampleWorld :=
  let p := block_disk_path f_hello (b_depth (s_record f_hello w)) s_root in
  let F := fs_files (ds_disk (w_disk w)) in
  let c := default [] (F !! p) in
  let d := ds_disk (w_disk w) in
  mkWorld (w_ns w) (w_shared w)
    (mkDiskState (mkFs (<[block_disk_path f_hello n s_root := c]> (delete p F)) (fs_dirs d) (fs_mounts d) (fs_faults d))
      (ds_known_durable (w_disk w)) (ds_nonce (w_disk w))) (w_counters w).

Definition f_moved : SampleWorld := moved_file 3 f_clean.

Lemma adoption_is_verified_witness :
  let w' := (adopt_orphan f_fuel s_cfg f_hello (b_depth (s_record f_hello f_moved)) (candidates_of s_cfg f_hello [3%nat]) f_moved).2 in
  b_depth (s_record f_hello w') = 3 /\ exists c, wfiles w' !! block_disk_path f_hello 3 (blocks_root s_cfg) = Some c /\
    hash_block (cfg_hasher s_cfg) c = f_hello.
Proof.
  intros w'. assert (b_depth (s_record f_hello w') = 3) as Hd by (vm_compute; reflexivity). split; [exact Hd|].
  assert (block_at (kv (w_shared f_moved)) f_hello = Some (s_record f_hello f_moved)) as Hb by (vm_compute; reflexivity).
  assert (block_at (kv (w_shared w')) f_hello = Some (s_record f_hello w')) as Hb' by (vm_compute; reflexivity).
  assert (b_depth (s_record f_hello f_moved) <> 3) as Hne by (vm_compute; discriminate).
  rewrite <- Hd. rewrite <- Hd in Hne.
  refine (proj2 (proj2 (proj2 (adoption_is_verified f_fuel s_cfg f_hello _ [3%nat] f_moved w' _ _ _ (hash_block_wf _ _)
    _ _ Hb (surjective_pairing _) Hb' (not_eq_sym Hne))))).
  - apply NoDup_singleton.
  - apply Forall_singleton. change (id_width f_hello) with 16%nat. lia.
Defined.

(** The store with an object tree that no bucket names, repaired. *)
Lemma repair_never_loses_witness :
  let report := full_report s_full in
  exists f, f ∈ rp_findings report /\ fi_class f = HalfDeletedBucket /\
  winv s_cfg (repair_rounds f_fuel f_ctx report s_full).2 (fun _ => 0%nat) /\
  kv (w_shared (repair_rounds f_fuel f_ctx report s_full).2) = ∅.
Proof.
  intros report. assert (exists f, f ∈ rp_findings report /\ fi_class f = HalfDeletedBucket) as (f & Hf & Hc).
  { assert (Exists (fun f => fi_class f = HalfDeletedBucket) (rp_findings report)) as He by checked.
    by apply Exists_exists in He. }
  exists f. split; [exact Hf|]. split; [exact Hc|]. split; [|vm_compute; reflexivity].
  assert (Forall (fun f => fi_class f <> CorruptBlock) (rp_findings report)) as Hn by checked. rewrite Forall_forall in Hn.
  refine (proj2 (repair_never_loses f_fuel f_ctx report s_full _ _ s_full_inv _ _ (surjective_pairing _)) _).
  - apply scrubbable_checked. checked.
  - apply named_checked. checked.
  - intros i (g & p & c & Hg & Hcg & _). exact (Hn g Hg Hcg).
Defined.

Lemma repair_exit_certifies_witness : exists s w',
  repair f_fuel f_ctx 0 (full_report f_under) full f_under = (Ok s, w') /\ exit_code s = EXIT_CLEAN /\
  certified f_ctx (repair_rounds f_fuel f_ctx (full_report f_under) f_under).2.
Proof.
  destruct (run_returns (repair f_fuel f_ctx 0 (full_report f_under) full) f_under (fun s => exit_code s =? EXIT_CLEAN))
    as (s & w' & E & Hx); [vm_compute; reflexivity|].
  apply Z.eqb_eq in Hx. exists s, w'. split; [exact E|]. split; [exact Hx|].
  refine (proj1 (repair_exit_certifies f_fuel 0 f_ctx _ f_under w' s _ _ E _)).
  - apply scrubbable_checked. checked.
  - apply named_checked. checked.
  - rewrite Hx. discriminate.
Defined.

(* ------------------------------------------------------------------ *)
(** * What a repair does not promise *)

(** A store with a file added or overwritten. *)
Definition with_file (p : path) (c : bytes) (w : SampleWorld) : SampleWorld :=
  let d := ds_disk (w_disk w) in
  mkWorld (w_ns w) (w_shared w)
    (mkDiskState (mkFs (<[p := c]> (fs_files d)) (fs_dirs d) (fs_mounts d) (fs_faults d))
      (ds_known_durable (w_disk w)) (ds_nonce (w_disk w))) (w_counters w).

Definition hello_at (n : Z) : path := block_disk_path f_hello n s_root.
Definition good_bytes : bytes := default [] (wfiles f_clean !! hello_at 1).

(** The record's own file is corrupt and an intact copy lies at another depth;
    and the other way round. *)
Definition f_split : SampleWorld := with_file (hello_at 3) good_bytes (with_file (hello_at 1) (str "jello") f_clean).
Definition f_stale : SampleWorld := with_file (hello_at 3) (str "jello") f_clean.

(** What a repair leaves of a store: its exit code, the record's flag, and
    whether some file still holds the block. *)
Definition repaired (w : SampleWorld) : option (Z * bool * bool) :=
  match repair f_fuel f_ctx 0 (full_report w) full w with
  | (Ok s, w') => Some (exit_code s, is_degraded (s_record f_hello w'), bool_decide (map_Exists (fun _ c => c = good_bytes) (wfiles w')))
  | (Err _, _) => None
  end.

(** The corrupt file is still in the walk the planner makes, so the intact copy
    is taken for a second one and deleted: the block is lost, and the repair
    reports CLEAN. *)
Lemma repair_deletes_the_last_copy :
  hash_block (cfg_hasher s_cfg) good_bytes = f_hello /\
  wfiles f_split !! hello_at 3 = Some good_bytes /\
  repaired f_split = Some (EXIT_CLEAN, true, false).
Proof. split; [vm_compute; reflexivity|]. split; vm_compute; reflexivity. Qed.

(** A corrupt copy at a depth no record names: the healthy record is flagged. *)
Lemma repair_degrades_a_healthy_record :
  has_file (cfg_hasher s_cfg) s_root (wfiles f_stale) f_hello (s_record f_hello f_stale) /\
  is_degraded (s_record f_hello f_stale) = false /\
  repaired f_stale = Some (EXIT_CLEAN, true, true).
Proof.
  split; [|split; vm_compute; reflexivity]. exists good_bytes. split; [vm_compute; reflexivity|]. split; vm_compute; reflexivity.
Qed.

(** The next [n] calls of the file system, or of the blocks database, go well;
    the one after them fails. *)
Definition failing_disk (n : nat) (w : SampleWorld) : SampleWorld :=
  let d := ds_disk (w_disk w) in
  mkWorld (w_ns w) (w_shared w)
    (mkDiskState (mkFs (fs_files d) (fs_dirs d) (fs_mounts d) (replicate n None ++ [Some (mkFault 0)]))
      (ds_known_durable (w_disk w)) (ds_nonce (w_disk w))) (w_counters w).

Definition failing_shared (n : nat) (w : SampleWorld) : SampleWorld :=
  let s := w_shared w in
  mkWorld (w_ns w) (mkFjallStore (mkMemDB (mdb_kv (fst_db s)) (mdb_names (fst_db s)) (replicate n false ++ [true]))
    (fst_durability s) (fst_inlined_metadata_size s) (fst_partition_cache s)) (w_disk w) (w_counters w).

(** The report of a scrub that could not read one good file, and the store that
    a repair makes of it when the database then refuses one commit. *)
Definition f_misread : Report := default no_report (report_on (failing_disk 8 f_clean)).
Definition f_aside : SampleWorld := (repair_rounds f_fuel f_ctx f_misread (failing_shared 7 f_clean)).2.

(** The scrub reports the unreadable file as a corrupt block; the repair moves
    it to quarantine without hashing it, and the flag does not commit: a sound
    record whose block is referenced is left without its file. *)
Lemma repair_moves_a_good_file_aside :
  map fi_class (rp_findings f_misread) = [CorruptBlock] /\
  wfiles f_clean !! hello_at 1 = Some good_bytes /\ hash_block (cfg_hasher s_cfg) good_bytes = f_hello /\
  b_depth (s_record f_hello f_aside) = 1 /\ is_degraded (s_record f_hello f_aside) = false /\
  refs f_aside f_hello = 2%nat /\ wfiles f_aside !! hello_at 1 = None.
Proof. repeat (split; [vm_compute; reflexivity|]). vm_compute. reflexivity. Qed.
