(* ===== verification/Pairing.v ===== *)
(** Opening the shared half of a store (cas/shared_block_store.rs) and the
    pairing of its two halves (scrub/pairing.rs): the blocks database, whose
    header carries the store id, and the blocks root, whose marker file carries
    it again.

    The state is a [Home]: the blocks database, and the disk with the writer's
    state.  Opening the database itself is the backend's: it is the argument
    [build]. *)

From S2P Require Import Prelude Bytes Externals BlockIds Records StoreHeader MetaStore Disk Placement MetaOps Engine Stripes Commands Report Scrub.
From Stdlib Require Import Strings.Byte.
Local Open Scope Z_scope.

(** [GroupCommit]: the extra wait after the first member of a group, in
    nanoseconds. *)
Record GroupCommit : Type := mkGroupCommit { gc_window : Z }.

Inductive StorageEngine : Type := Fjall.

Record StoreOptions : Type := mkStoreOptions {
  opt_metadata_db : StorageEngine;
  opt_durability : Durability;
  opt_inline_metadata_size : option Z;
  opt_verify_on_read : bool;
  opt_hasher : Hasher;
  opt_stripe_count : option nat;
  opt_max_blocks_per_commit : option nat;
  opt_group_commit : option GroupCommit
}.

Definition header_spec (opts : StoreOptions) : HeaderSpec := spec_of_hasher (opt_hasher opts).

Definition DEFAULT_MAX_BLOCKS_PER_COMMIT : nat := 64.

(** What [SharedBlockStore::new] builds, but for the handles of its trees and
    the commit station, which is started on first use. *)
Record SharedBlockStore : Type := mkSharedBlockStore {
  sbs_header : StoreHeader;
  sbs_hasher : Hasher;
  sbs_placement : BlockPlacement;
  sbs_blocks_root : path;
  sbs_stripes : Stripes;
  sbs_max_blocks_per_commit : nat;
  sbs_group_commit : option GroupCommit;
  sbs_disk_writer : AtomicBlockWriter
}.

(** The part of it the engine runs on. *)
Definition cfg_of (s : SharedBlockStore) : StoreCfg :=
  mkStoreCfg (sbs_hasher s) (sbs_disk_writer s) (sbs_placement s) (sbs_max_blocks_per_commit s).

Section Opening.
Context {S T D : Type} `{Store S T, BlockDiskOps D, !StdFs D, !ScrubFs D, FasterHex, Unicode}.
Abbreviation HS := (Home S (DiskState D)).
Abbreviation HM := (M (Home S D) MetaError).
Abbreviation SM := (M HS MetaError).

(** A call of the header's operations. *)
Definition at_header {A} (m : HM A) : SM A := fun h =>
  let ds := h_disk h in
  let '(r, h') := m (mkHome (h_store h) (ds_disk ds)) in
  (r, mkHome (h_store h') (mkDiskState (h_disk h') (ds_known_durable ds) (ds_nonce ds))).

(** A call of the block writer. *)
Definition at_writer {E A} (f : IoError -> E) (m : M (DiskState D) IoError A) : M HS E A := fun h =>
  let '(r, ds') := m (h_disk h) in (map_err f r, mkHome (h_store h) ds').

(** [write_marker] of [pair_the_roots]. *)
Definition claim_root (writer : AtomicBlockWriter) (i : StoreId) : SM unit :=
  at_writer (fun _ => OtherDBError "writing the store id marker") (write_store_id_marker writer i).

(** The six states of a pair of halves; [minted] is [StoreId::generate()]. *)
Definition pair_the_roots (minted : StoreId) (db_path store_dir blocks_root : path) (header : StoreHeader)
    (writer : AtomicBlockWriter) : SM StoreHeader :=
  match store_id header, aw_store_id_marker writer with
  | Some header_id, Present marker_id =>
      if decide (header_id = marker_id) then mret header
      else M_err (StorePairing (mkStorePairingMismatch db_path header_id blocks_root marker_id))
  | Some header_id, Absent => _ ← claim_root writer header_id; mret header
  | Some header_id, Unreadable _ => _ ← claim_root writer header_id; mret header
  | None, Present marker_id => at_header (adopt_store_id store_dir header marker_id)
  | None, _ =>
      adopted ← at_header (adopt_store_id store_dir header minted);
      _ ← claim_root writer minted;
      mret adopted
  end.

(** The refusal of a database from before it moved to [.db]. *)
Definition legacy_database (p : path) (d : D) : bool :=
  is_file (p ++ [str "db"; str "version"]) d && negb (path_exists (p ++ [BLOCKS_DB_DIR_NAME]) d).

(** [create_dir_all(p).ok()] and [p.canonicalize().unwrap_or(p)]. *)
Definition made_canonical (p : path) : SM path := fun h =>
  let '(_, d) := create_dir_all p (ds_disk (h_disk h)) in
  (Ok (default p (canonicalize p d)), mkHome (h_store h) (mkDiskState d (ds_known_durable (h_disk h)) (ds_nonce (h_disk h)))).

(** [SharedBlockStore::new]; the clock, the two ids that may be minted and the
    backend's [build] are arguments. *)
Definition open_store (now : Z) (fresh minted : StoreId) (build : path -> HM unit)
    (p blocks_root : path) (opts : StoreOptions) : SM SharedBlockStore := fun h =>
  if legacy_database p (ds_disk (h_disk h)) then (Err (OtherDBError "legacy blocks database"), h) else
  (let store_dir := p in
   db_path ← made_canonical (p ++ [BLOCKS_DB_DIR_NAME]);
   blocks_root ← made_canonical blocks_root;
   writer ← at_writer (fun _ => OtherDBError "opening the blocks root") (open_writer blocks_root (opt_durability opts));
   header ← at_header (open_or_create now fresh db_path (header_spec opts) build);
   header ← pair_the_roots minted db_path store_dir blocks_root header writer;
   _ ← at_header (with_store (tree_open DEFAULT_BLOCK_TREE));
   _ ← at_header (with_store (tree_open MULTIPART_PARTS_TREE));
   _ ← at_header (with_store (tree_open UPLOADS_TREE));
   mret (mkSharedBlockStore header (sh_hasher header) (new_placement blocks_root) blocks_root
     (new_stripes (default DEFAULT_STRIPE_COUNT (opt_stripe_count opts)))
     (Nat.max (default DEFAULT_MAX_BLOCKS_PER_COMMIT (opt_max_blocks_per_commit opts)) 1)
     (opt_group_commit opts) writer)) h.

(* ------------------------------------------------------------------ *)
(** * The pairing, as a tool sees it *)

Definition blocks_db_path (meta_root : path) : path := meta_root ++ [str "blocks"; BLOCKS_DB_DIR_NAME].
Definition blocks_root_path (fs_root : path) : path := fs_root ++ [str "blocks"].

Record Pairing : Type := mkPairing {
  pg_db_path : path;
  pg_header_id : option StoreId;
  pg_blocks_root : path;
  pg_marker_id : option StoreId
}.

Definition is_paired (p : Pairing) : bool :=
  match pg_header_id p, pg_marker_id p with Some h, Some m => bool_decide (h = m) | _, _ => false end.
Definition is_mispaired (p : Pairing) : bool :=
  match pg_header_id p, pg_marker_id p with Some h, Some m => negb (bool_decide (h = m)) | _, _ => false end.

Inductive PairingError : Type :=
| NoStore (p : path)
| NoBlocksRoot (p : path)
| PairingOpen (e : MetaError)
| PairingMarker (p : path) (e : IoError)
| NoStoreId (p : path).

Definition PairingError_fmt (e : PairingError) : bytes :=
  match e with
  | NoStore p => str "no store at " ++ path_text p
  | NoBlocksRoot p => str "no blocks root at " ++ path_text p
  | PairingOpen e => MetaError_fmt e
  | PairingMarker p e =>
      str "the store id marker in " ++ path_text p ++ str " could not be read or written: " ++ IoError_fmt e
  | NoStoreId p =>
      str "the store at " ++ path_text p ++ str " has no store id yet, so there is nothing to pair to: open it once (the first open of a store that predates ADR 0012 mints one) and re-pair after that"
  end.

Abbreviation PM := (M HS PairingError).

Definition header_call {A} (m : HM A) : PM A := m_map_err PairingOpen (at_header m).

Definition read_pairing (build : path -> HM unit) (meta_root fs_root : path) : PM Pairing :=
  let db_path := blocks_db_path meta_root in
  let blocks_root := blocks_root_path fs_root in
  init ← header_call (classify_db_dir db_path);
  match init with
  | Create => M_err (NoStore db_path)
  | Open => fun h =>
      if negb (is_dir blocks_root (ds_disk (h_disk h))) then (Err (NoBlocksRoot blocks_root), h) else
      (_ ← header_call (build db_path);
       header ← header_call (read_header db_path);
       match header with
       | None => M_err (NoStore db_path)
       | Some header =>
           marker ← at_writer (PairingMarker blocks_root) (on_disk (read_store_id_marker blocks_root));
           mret (mkPairing db_path (store_id header) blocks_root
             (match marker with Present i => Some i | _ => None end))
       end) h
  end.

(** [RePair] *)
Record RePair : Type := mkRePair {
  rp_store_id : StoreId;
  rp_was : option StoreId;
  rp_db_path : path;
  rp_blocks_root : path;
  rp_rewritten : bool
}.

Definition rewrite_store_id_marker (blocks_root : path) (i : StoreId) : M (DiskState D) IoError unit :=
  write_marker blocks_root (blocks_root ++ [TMP_DIR_NAME]) i.

Definition re_pair (build : path -> HM unit) (meta_root fs_root : path) : PM RePair :=
  pairing ← read_pairing build meta_root fs_root;
  match pg_header_id pairing with
  | None => M_err (NoStoreId (pg_db_path pairing))
  | Some i =>
      let rewritten := negb (bool_decide (pg_marker_id pairing = Some i)) in
      _ ← (if rewritten : bool
           then at_writer (PairingMarker (pg_blocks_root pairing)) (rewrite_store_id_marker (pg_blocks_root pairing) i)
           else mret tt);
      mret (mkRePair i (pg_marker_id pairing) (pg_db_path pairing) (pg_blocks_root pairing) rewritten)
  end.

Definition render_re_pair (r : RePair) : bytes :=
  (if rp_rewritten r
   then str "re-paired " ++ path_text (rp_blocks_root r) ++ str " with the store at " ++ path_text (rp_db_path r) ++ newline
   else str "already paired: " ++ path_text (rp_blocks_root r) ++ str " and " ++ path_text (rp_db_path r) ++
        str " both name one store" ++ newline) ++
  str "  store id:     " ++ StoreId_to_hex (rp_store_id r) ++ newline ++
  str "  marker was:   " ++ match rp_was r with Some i => StoreId_to_hex i | None => str "absent or unreadable" end ++ newline ++
  str "  marker now:   " ++ StoreId_to_hex (rp_store_id r) ++ newline.
End Opening.
