(* ===== verification/PairingProps.v ===== *)
(** The pairing of a store's two halves: the protocol as a step relation on
    what the halves say, that opening a store follows it whatever calls fail,
    and that the re-pair verb makes a refused store open again. *)

From S2P Require Import Prelude Bytes Externals BlockIds Codec Records StoreHeader MetaStore Disk Placement RealDisk Fjall MetaOps Accounting Engine BatchSpecs Stripes Commands Report Scrub FsTree Sample Pairing.
From Stdlib Require Import Strings.Byte.
Local Open Scope Z_scope.
#[local] Set Warnings "-clear-no-such-hyp".

(* ------------------------------------------------------------------ *)
(** * The protocol *)

(** What the two halves say: the header of the database, the marker of the
    blocks root. *)
Record Halves : Type := mkHalves { hl_header : StoreHeader; hl_marker : StoreIdMarker }.

Definition claims_nothing (m : StoreIdMarker) : Prop := forall i, m <> Present i.

(** One completed write of the pairing protocol: the root is claimed for the
    header's id, the header takes the root's id, or an id is minted into the
    header first. *)
Inductive pair_step : Halves -> Halves -> Prop :=
| step_claim hd m i : store_id hd = Some i -> claims_nothing m -> pair_step (mkHalves hd m) (mkHalves hd (Present i))
| step_take hd i : store_id hd = None -> StoreId_wf i -> pair_step (mkHalves hd (Present i)) (mkHalves (with_store_id hd i) (Present i))
| step_mint hd m i : store_id hd = None -> claims_nothing m -> StoreId_wf i ->
    pair_step (mkHalves hd m) (mkHalves (with_store_id hd i) m).

Definition paired (h : Halves) : Prop := exists i, store_id (hl_header h) = Some i /\ hl_marker h = Present i.
Definition mispaired (h : Halves) : Prop :=
  exists i j, store_id (hl_header h) = Some i /\ hl_marker h = Present j /\ i <> j.

(** The steps never break a pair, never tear two halves apart, and once the
    header has an id they lead nowhere but to the pair under that id. *)
Lemma pair_step_header h h' i : pair_step h h' -> store_id (hl_header h) = Some i -> hl_header h' = hl_header h /\ hl_marker h' = Present i.
Proof. intros []; cbn; intros E; simplify_eq; done. Qed.

Lemma pair_step_not_mispaired h h' : pair_step h h' -> ~ mispaired h'.
Proof.
  intros [hd m i Hi Hm|hd i Hi Hw|hd m i Hi Hm Hw] (i1 & i2 & E1 & E2 & Hne); cbn in *.
  - congruence.
  - rewrite store_id_with_store_id in E1 by done. congruence.
  - by apply Hm in E2.
Qed.

Lemma pair_step_from_mispaired h h' : pair_step h h' -> ~ mispaired h.
Proof. intros [hd m i Hi Hm|hd i Hi Hw|hd m i Hi Hm Hw] (i1 & i2 & E1 & E2 & Hne); cbn in *; first [congruence|by apply Hm in E2]. Qed.

Lemma pair_steps_settled h h' i : rtc pair_step h h' -> store_id (hl_header h) = Some i -> h' = h \/ (hl_header h' = hl_header h /\ hl_marker h' = Present i).
Proof.
  intros Hr. induction Hr as [h|h1 h2 h3 Hs _ IH]; [by left|]. intros Hi. right.
  destruct (pair_step_header _ _ _ Hs Hi) as [E1 E2]. destruct (IH ltac:(by rewrite E1)) as [->|[E3 E4]]; [done|]. by rewrite E3, E1.
Qed.

Lemma pair_steps_sound h h' : rtc pair_step h h' -> paired h' -> ~ mispaired h.
Proof.
  intros [h1|h1 h2 h3 Hs _] Hp; [|exact (pair_step_from_mispaired _ _ Hs)].
  destruct Hp as (i & E1 & E2). intros (i1 & i2 & E3 & E4 & Hne). congruence.
Qed.

(** A body that refuses on sight. *)
Lemma wp_guard {S E A} (b : S -> bool) (e : E) (m : M S E A) s (Q : result E A -> S -> Prop) :
  Q (Err e) s -> wp m s Q -> wp (fun s => if b s then (Err e, s) else m s) s Q.
Proof. unfold wp. by destruct (b s). Qed.

(** Two calls whose results go on together. *)
Lemma wp_pair {S E A B C} (m : M S E A) (n : A -> M S E B) (k : A -> B -> M S E C) s (Q : result E (A * B) -> S -> Prop) Q' :
  wp (a ← m; b ← n a; mret (a, b)) s Q ->
  (forall r s', Q r s' -> match r with Ok (a, b) => wp (k a b) s' Q' | Err e => Q' (Err e) s' end) ->
  wp (a ← m; b ← n a; k a b) s Q'.
Proof.
  unfold wp, mbind, M_MBind, M_bind. intros Hm Hk. destruct (m s) as [[a|e] s1]; cbn in *; [|by apply (Hk (Err e))].
  destruct (n a s1) as [[b|e] s2]; cbn in *; [by apply (Hk (Ok (a, b)))|by apply (Hk (Err e))].
Qed.

(* ------------------------------------------------------------------ *)
(** * What the halves of a store say *)

Section Specs.
Context {S T D : Type} `{ScrubFsLaws D, StoreLaws S T, FasterHexLaws, Unicode}.
Abbreviation HS := (Home S (DiskState D)).
Implicit Types (h : HS).

Definition marker_path (root : path) : path := root ++ [STORE_ID_MARKER_NAME].

Definition marker_in (root : path) (F : gmap path bytes) : StoreIdMarker :=
  match F !! marker_path root with Some raw => marker_of_text raw | None => Absent end.

Definition header_is (m : kvmap) (header : StoreHeader) : Prop :=
  exists raw, m !! (STORE_HEADER_TREE, STORE_HEADER_KEY) = Some raw /\ from_bytes raw = Ok header.

(** A header a build accepts is well formed. *)
Lemma hd_yields {A B} (m : read A) (P : A -> Prop) (k : A -> M Reader StoreHeaderError B) r b :
  yields m P -> 0 <= rd_pos r -> ((hd m ≫= k) r).1 = Ok b ->
  exists a r', P a /\ 0 <= rd_pos r' /\ (k a r').1 = Ok b.
Proof.
  intros Hm Hr. specialize (Hm r Hr). unfold mbind, M_MBind, M_bind, hd. destruct (m r) as [[a|e] r']; [|done].
  destruct Hm. cbn. eauto.
Qed.

Lemma from_bytes_wf raw header : from_bytes raw = Ok header -> StoreHeader_wf header.
Proof.
  unfold from_bytes. intros E. apply (hd_yields _ _ _ _ _ (rd_array_typed _ _)) in E as (magic & r1 & _ & H1' & E); [|done].
  destruct (negb _); [done|]. 
  apply (hd_yields _ (fun _ => True)) in E as (version & r2 & _ & H2' & E); [|eapply yields_bind; [by apply rd_take_typed|]; intros; by apply yields_ret|done].
  destruct (bool_decide_reflect (version ∈ SUPPORTED_STORE_HEADER_VERSIONS)) as [Hv|]; [|done]. cbn [negb] in E.
  apply (hd_yields _ _ _ _ _ (rd_u8_typed _)) in E as (algo & r3 & _ & H3' & E); [|done].
  apply (hd_yields _ _ _ _ _ (rd_u8_typed _)) in E as (width & r4 & _ & H4' & E); [|done].
  apply (hd_yields _ _ _ _ _ (rd_u64_typed _)) in E as (created & r5 & Hc & H5' & E); [|done].
  apply (hd_yields _ _ _ _ _ (rd_array_typed _ _)) in E as (sid & r6 & Hs & H6' & E); [|done].
  apply (hd_yields _ _ _ _ _ rd_finish_typed) in E as (u & r7 & _ & H7' & E); [|done].
  unfold mbind, M_MBind, M_bind, M_lift in E. destruct (from_header algo width); [|done]. cbn in E. injection E as <-.
  by split; [|split].
Qed.

Lemma header_is_wf m header : header_is m header -> StoreHeader_wf header.
Proof. intros (raw & _ & E). by eapply from_bytes_wf. Qed.

Lemma header_is_written m header :
  StoreHeader_wf header -> header_is (<[(STORE_HEADER_TREE, STORE_HEADER_KEY) := to_bytes header]> m) header.
Proof. intros Hw. exists (to_bytes header). split; [apply lookup_insert_eq|by apply from_to_bytes]. Qed.

Definition says_of (root : path) h (v : Halves) : Prop :=
  header_is (kv (h_store h)) (hl_header v) /\ hl_marker v = marker_in root (dfiles (h_disk h)).

(** All but the header record and the marker, its temp files and the copy of
    the header is as it was. *)
Definition pairing_file (root store_dir : path) (p : path) : Prop :=
  p = marker_path root \/ (exists n, p = root ++ [TMP_DIR_NAME; n]) \/ p = store_dir ++ [STORE_HEADER_SIDECAR].

Definition only_pairing (root store_dir : path) h h' : Prop :=
  (forall p, p <> (STORE_HEADER_TREE, STORE_HEADER_KEY) -> kv (h_store h') !! p = kv (h_store h) !! p) /\
  agree_off (pairing_file root store_dir) (dfiles (h_disk h)) (dfiles (h_disk h')).

Lemma only_pairing_refl root sd h : only_pairing root sd h h.
Proof. by split. Qed.

Lemma only_pairing_trans root sd h1 h2 h3 : only_pairing root sd h1 h2 -> only_pairing root sd h2 h3 -> only_pairing root sd h1 h3.
Proof. intros [Hk Hf] [Hk2 Hf2]. split; [|by eapply agree_off_trans]. intros p Hp. by rewrite Hk2, Hk. Qed.

Lemma marker_text i : StoreId_wf i -> marker_of_text (StoreId_to_hex i ++ [Byte.x0a]) = Present i.
Proof.
  intros Hi. unfold marker_of_text. rewrite parse_hex_to_hex by done.
  rewrite ascii_utf8_valid; [done|]. apply Forall_app. split; [|repeat constructor; by vm_compute].
  eapply Forall_impl; [apply hex_string_lower|]. intros b. unfold is_lower_hex, is_ascii, in_range. lia.
Qed.

Lemma marker_wf root F i : marker_in root F = Present i -> StoreId_wf i.
Proof.
  unfold marker_in, marker_of_text. destruct (F !! _) as [raw|]; [|done]. destruct (utf8_valid raw); [|done].
  destruct (parse_hex raw) as [j|] eqn:E; [|done]. intros [= <-]. by eapply parse_hex_wf.
Qed.

(** The write of a marker: the marker file, or what was there. *)
Lemma write_marker_spec root tmp i (ds : DiskState D) :
  marker_path root <> temp_name tmp STORE_ID_MARKER_NAME (ds_nonce ds) ->
  wp (write_marker root tmp i) ds (fun r ds' =>
    agree_off (fun p => p = marker_path root \/ exists n, p = tmp ++ [n]) (dfiles ds) (dfiles ds') /\
    (dfiles ds' !! marker_path root = Some (StoreId_to_hex i ++ [Byte.x0a]) \/
     (is_ok r = false /\ dfiles ds' !! marker_path root = dfiles ds !! marker_path root))).
Proof.
  intros Hne. set (tp := temp_name tmp STORE_ID_MARKER_NAME (ds_nonce ds)) in *. set (final := marker_path root) in *.
  set (bs := StoreId_to_hex i ++ [Byte.x0a]).
  assert (forall m', write_failed tp final bs (dfiles ds) m' ->
    agree_off (fun p => p = final \/ exists n, p = tmp ++ [n]) (dfiles ds) m') as Hoff.
  { intros m' [Ha _]. eapply agree_off_mono; [exact Ha|]. intros p [->| ->]; [right; by eexists|by left]. }
  assert (forall (e : IoError) ds' part,
    dfiles ds' = <[tp := part]> (dfiles ds) \/ dfiles ds' = dfiles ds \/ dfiles ds' = <[final := bs]> (dfiles ds) ->
    wp (on_disk (remove_file tp)) ds' (fun (_ : result IoError unit) ds'' =>
      agree_off (fun p => p = final \/ exists n, p = tmp ++ [n]) (dfiles ds) (dfiles ds'') /\
      (dfiles ds'' !! final = Some bs \/ (@is_ok IoError unit (Err e) = false /\ dfiles ds'' !! final = dfiles ds !! final)))) as Hclean.
  { intros e ds' part Hf. eapply wp_mono; [by apply (write_cleanup tp final bs part (dfiles ds) ds')|].
    intros r ds'' [_ Hw]. split; [by apply Hoff|]. destruct Hw as [_ [Hw|Hw]]; auto. }
  unfold write_marker. apply wp_quiet; [apply quiet_create_dir_all|..].
  { intros e ds' Hf Hn. rewrite Hf. split; [done|]. by right. }
  intros _ ds1 Hf1 Hn1. apply wp_bind. unfold wp at 1, next_nonce. cbn [fst snd]. rewrite Hn1.
  change (temp_name tmp STORE_ID_MARKER_NAME (ds_nonce ds)) with tp. change (root ++ [STORE_ID_MARKER_NAME]) with final.
  change (StoreId_to_hex i ++ [Byte.x0a]) with bs.
  apply wp_with_cleanup. apply wp_bind, wp_on_disk.
  eapply wp_mono; [apply write_new_file_spec|]. intros [u|e] d2 Hw; cbn beta iota.
  2: { destruct Hw as [Hw|(_ & part & Hw)].
       - apply (Hclean e _ []). right; left. by rewrite <- Hf1.
       - apply (Hclean e _ part). left. by rewrite <- Hf1. }
  destruct Hw as [Hfresh Hw]. cbn [ds_disk] in Hfresh, Hw. change (files (ds_disk ds1)) with (dfiles ds1) in Hfresh, Hw.
  rewrite Hf1 in Hfresh, Hw. apply wp_quiet; [apply quiet_fsync_file|..].
  { intros e ds3 Hf3 Hn3. apply (Hclean e _ bs). left. rewrite Hf3. exact Hw. }
  intros _ ds3 Hf3 Hn3. apply wp_bind, wp_on_disk. eapply wp_mono; [apply rename_spec|]. intros [u'|e] d4 Hr; cbn beta iota.
  2: { apply (Hclean e _ bs). left. unfold dfiles in *. cbn. rewrite Hr, Hf3. exact Hw. }
  destruct Hr as (c & Hc & Hr). change (files (ds_disk ds3)) with (dfiles ds3) in Hc, Hr. rewrite Hf3 in Hc, Hr.
  unfold dfiles in Hc, Hr. cbn in Hc, Hr. rewrite Hw in Hc, Hr. rewrite lookup_insert_eq in Hc. injection Hc as <-.
  rewrite delete_insert_id in Hr by done.
  pose proof (quiet_fsync_dir root (mkDiskState d4 (ds_known_durable ds3) (ds_nonce ds3))) as Hq.
  eapply wp_mono; [exact Hq|]. intros r ds5 [Hf5 _]. assert (dfiles ds5 = <[final := bs]> (dfiles ds)) as E5 by (rewrite Hf5; exact Hr).
  destruct r as [u5|e].
  - rewrite E5. split; [apply agree_off_insert; by left|left; apply lookup_insert_eq].
  - apply (Hclean e _ []). by right; right.
Qed.

(* ------------------------------------------------------------------ *)
(** * The steps of an open *)

Lemma wp_at_header {A} (m : M (Home S D) MetaError A) h Q :
  wp m (mkHome (h_store h) (ds_disk (h_disk h))) (fun r (h' : Home S D) =>
    Q r (mkHome (h_store h') (mkDiskState (h_disk h') (ds_known_durable (h_disk h)) (ds_nonce (h_disk h))))) ->
  wp (at_header m) h Q.
Proof. unfold wp, at_header. by destruct (m _). Qed.

Lemma wp_at_writer {E A} (f : IoError -> E) (m : M (DiskState D) IoError A) h Q :
  wp m (h_disk h) (fun r ds' => Q (map_err f r) (mkHome (h_store h) ds')) -> wp (at_writer f m) h Q.
Proof. unfold wp, at_writer. by destruct (m _). Qed.

Lemma marker_not_tmp root n : marker_path root <> root ++ [TMP_DIR_NAME; n].
Proof. unfold marker_path. intros E. by apply (inj (app root)) in E. Qed.

Lemma marker_not_sidecar root sd : marker_path root <> sd ++ [STORE_HEADER_SIDECAR].
Proof. unfold marker_path. intros E. apply app_inj_tail in E as [_ E]. revert E. by vm_compute. Qed.

Lemma tmp_not_sidecar root sd n : root ++ [TMP_DIR_NAME; n] = sd ++ [STORE_HEADER_SIDECAR] -> n = STORE_HEADER_SIDECAR.
Proof. change [TMP_DIR_NAME; n] with ([TMP_DIR_NAME] ++ [n]). rewrite app_assoc. by intros [_ E]%app_inj_tail. Qed.

(** Claiming the blocks root for an id. *)
Lemma claim_root_spec {E} (f : IoError -> E) root sd i h :
  StoreId_wf i ->
  wp (at_writer f (write_marker root (root ++ [TMP_DIR_NAME]) i)) h (fun r h' =>
    h_store h' = h_store h /\ only_pairing root sd h h' /\
    (marker_in root (dfiles (h_disk h')) = Present i \/
     (is_ok r = false /\ marker_in root (dfiles (h_disk h')) = marker_in root (dfiles (h_disk h))))).
Proof.
  intros Hi. apply wp_at_writer. eapply wp_mono; [apply write_marker_spec|].
  { unfold temp_name. rewrite <- app_assoc. apply marker_not_tmp. }
  intros r ds' [Ha Hm]. cbn [h_store h_disk]. split; [done|]. split.
  - split; [done|]. eapply agree_off_mono; [exact Ha|]. intros p [->|[n ->]]; [by left|]. right; left. exists n. by rewrite <- app_assoc.
  - unfold marker_in. destruct Hm as [->|[Hr ->]]; [left; by apply marker_text|right]. by destruct r.
Qed.

(** The header record written: the database changes, the disk does not. *)
Lemma write_header_frame hd (h : Home S D) :
  let written := <[(STORE_HEADER_TREE, STORE_HEADER_KEY) := to_bytes hd]> (kv (h_store h)) in
  wp (write_header hd) h (fun r (h' : Home S D) => h_disk h' = h_disk h /\
    match r with
    | Ok _ => kv (h_store h') = written
    | Err _ => kv (h_store h') = kv (h_store h) \/ kv (h_store h') = written
    end).
Proof.
  intros written. pose proof (write_header_spec hd h) as Hw. unfold wp in *. split; [|exact Hw].
  clear Hw. unfold write_header, with_store. by match goal with |- context [let '(_, _) := ?x in _] => destruct x end.
Qed.

(** The header record written, with its copy. *)
Lemma adopt_spec root sd hd i h :
  header_is (kv (h_store h)) hd -> StoreId_wf i ->
  wp (at_header (adopt_store_id sd hd i)) h (fun r h' =>
    only_pairing root sd h h' /\ marker_in root (dfiles (h_disk h')) = marker_in root (dfiles (h_disk h)) /\
    match r with
    | Ok hd' => hd' = with_store_id hd i /\ header_is (kv (h_store h')) hd'
    | Err _ => header_is (kv (h_store h')) hd \/ header_is (kv (h_store h')) (with_store_id hd i)
    end).
Proof.
  intros Hh Hi. pose proof (header_is_wf _ _ Hh) as Hw. assert (StoreHeader_wf (with_store_id hd i)) as Hw'.
  { destruct Hw as (? & ? & ?), Hi. by split; [|split]. }
  apply wp_at_header. unfold adopt_store_id.
  apply wp_bind. eapply wp_mono; [apply write_header_frame|]. intros r h1 [Hd1 Hk1]. cbn [h_store h_disk] in *.
  assert (forall hx : HS, ds_disk (h_disk hx) = ds_disk (h_disk h) ->
    (kv (h_store hx) = kv (h_store h) \/ kv (h_store hx) = <[(STORE_HEADER_TREE, STORE_HEADER_KEY) := to_bytes (with_store_id hd i)]> (kv (h_store h))) ->
    only_pairing root sd h hx /\ marker_in root (dfiles (h_disk hx)) = marker_in root (dfiles (h_disk h))) as Hkeep.
  { intros hx Ed Ek. unfold only_pairing, dfiles. rewrite Ed. split; [|done]. split; [|done].
    intros p Hp. destruct Ek as [->| ->]; [done|]. by rewrite lookup_insert_ne. }
  destruct r as [u|e]; cbn beta iota.
  2: { destruct (Hkeep (mkHome (h_store h1) (mkDiskState (h_disk h1) (ds_known_durable (h_disk h)) (ds_nonce (h_disk h)))) Hd1 Hk1) as [Ho Hm]. split; [exact Ho|]. split; [exact Hm|]. cbn [h_store].
       destruct Hk1 as [->| ->]; [by left|right]. by apply header_is_written. }
  apply wp_bind. unfold wp at 1, write_sidecar.
  pose proof (fs_write_spec (sd ++ [STORE_HEADER_SIDECAR]) (to_bytes (with_store_id hd i)) (h_disk h1)) as Hf. unfold wp in Hf.
  destruct (fs_write _ _ _) as [r2 d2]. cbn [fst snd] in *. apply wp_ret. cbn [h_store h_disk].
  assert (forall q, q <> sd ++ [STORE_HEADER_SIDECAR] -> files d2 !! q = dfiles (h_disk h) !! q) as Hoff.
  { intros q Hq. unfold dfiles. rewrite <- Hd1. destruct r2; [rewrite Hf; by rewrite lookup_insert_ne|by apply Hf]. }
  split; [|split].
  - split.
    + intros p Hp. cbn [h_store]. rewrite Hk1. by rewrite lookup_insert_ne.
    + intros q Hq. unfold dfiles at 1. cbn. apply Hoff. intros ->. apply Hq. by right; right.
  - unfold marker_in, dfiles at 1. cbn. rewrite Hoff by apply marker_not_sidecar. done.
  - split; [done|]. rewrite Hk1. by apply header_is_written.
Qed.

Lemma says_of_disk root h h' v :
  says_of root h v -> kv (h_store h') = kv (h_store h) -> marker_in root (dfiles (h_disk h')) = marker_in root (dfiles (h_disk h)) -> says_of root h' v.
Proof. intros [Hh Hm] Ek Em. split; [by rewrite Ek|by rewrite Em]. Qed.

Lemma header_id_wf hd i : StoreHeader_wf hd -> store_id hd = Some i -> StoreId_wf i.
Proof.
  intros (_ & _ & Hl). unfold store_id, StoreId_from_bytes. destruct (decide _) as [|Hne]; [done|]. intros [= <-]. by split.
Qed.

(** What a pairing that started at [v] may leave. *)
Definition outcome root sd v h (r : result MetaError StoreHeader) h' : Prop :=
  only_pairing root sd h h' /\
  exists v', says_of root h' v' /\ rtc pair_step v v' /\
    match r with
    | Ok hd => hd = hl_header v' /\ paired v'
    | Err e => mispaired v -> h' = h /\ exists m, e = StorePairing m
    end.

Lemma outcome_later root sd v v1 h h1 r h' :
  ~ mispaired v -> only_pairing root sd h h1 -> rtc pair_step v v1 -> outcome root sd v1 h1 r h' -> outcome root sd v h r h'.
Proof.
  intros Hn Ho Hr (Ho' & v' & Hs & Hr' & Hm). split; [by eapply only_pairing_trans|]. exists v'. split; [done|].
  split; [by etrans|]. by destruct r.
Qed.

Lemma claim_outcome root sd v i h f :
  says_of root h v -> store_id (hl_header v) = Some i -> claims_nothing (hl_marker v) ->
  wp (_ ← at_writer f (write_marker root (root ++ [TMP_DIR_NAME]) i); mret (hl_header v)) h (outcome root sd v h).
Proof.
  intros Hs Hi Hno. destruct v as [hd mk]. cbn [hl_header hl_marker] in *. pose proof Hs as [Hh Hmk]. cbn [hl_header hl_marker] in *. pose proof (header_is_wf _ _ Hh) as Hw.
  assert (~ mispaired (mkHalves hd mk)) as Hnm by (intros (i1 & i2 & _ & E2 & _); by apply Hno in E2).
  apply wp_bind. eapply wp_mono; [by apply (claim_root_spec f root sd), (header_id_wf hd)|]. intros r h' (Es & Ho & Hm).
  assert (marker_in root (dfiles (h_disk h')) = Present i -> says_of root h' (mkHalves hd (Present i))) as Hnew.
  { intros E. split; cbn; [by rewrite Es|done]. }
  destruct r as [u|e].
  - apply wp_ret. split; [done|]. exists (mkHalves hd (Present i)). destruct Hm as [Hm|[? _]]; [|done].
    split; [auto|]. split; [by apply rtc_once, step_claim|]. split; [done|]. by exists i.
  - split; [done|]. destruct Hm as [Hm|[_ Hm]].
    + exists (mkHalves hd (Present i)). split; [auto|]. split; [by apply rtc_once, step_claim|done].
    + exists (mkHalves hd mk). split; [|done]. eapply says_of_disk; [exact Hs|by rewrite Es|done].
Qed.

Lemma adopt_outcome root sd v i h (Q : result MetaError StoreHeader -> HS -> Prop) :
  says_of root h v -> store_id (hl_header v) = None -> StoreId_wf i -> hl_marker v = Present i \/ claims_nothing (hl_marker v) ->
  (forall e h', outcome root sd v h (Err e) h' -> Q (Err e) h') ->
  (forall h', let v' := mkHalves (with_store_id (hl_header v) i) (hl_marker v) in
     only_pairing root sd h h' -> says_of root h' v' -> pair_step v v' -> Q (Ok (hl_header v')) h') ->
  wp (at_header (adopt_store_id sd (hl_header v) i)) h Q.
Proof.
  intros Hs Hn Hi Hmk He Hok. destruct v as [hd mk]. cbn [hl_header hl_marker] in *. pose proof Hs as [Hh Hm]. cbn [hl_header hl_marker] in *.
  assert (~ mispaired (mkHalves hd mk)) as Hnm by (intros (i1 & i2 & E1 & _ & _); cbn in E1; congruence).
  assert (pair_step (mkHalves hd mk) (mkHalves (with_store_id hd i) mk)) as Hstep.
  { destruct Hmk as [->|Hno]; [by apply step_take|by apply step_mint]. }
  eapply wp_mono; [by apply (adopt_spec root sd hd i h)|]. intros r h' (Ho & Hmm & Hr).
  destruct r as [hd'|e].
  - destruct Hr as [-> Hhd']. apply Hok; [done| |done]. split; cbn; [done|congruence].
  - apply He. split; [done|]. destruct Hr as [Hhd'|Hhd'].
    + exists (mkHalves hd mk). split; [split; cbn; [done|congruence]|done].
    + exists (mkHalves (with_store_id hd i) mk). split; [split; cbn; [done|congruence]|]. split; [by apply rtc_once|done].
Qed.

(** Pairing follows the protocol. *)
Lemma pair_the_roots_spec minted db sd root v w h :
  says_of root h v -> aw_root w = root -> aw_tmp w = root ++ [TMP_DIR_NAME] -> aw_store_id_marker w = hl_marker v -> StoreId_wf minted ->
  wp (pair_the_roots minted db sd root (hl_header v) w) h (outcome root sd v h).
Proof.
  intros Hs Hr Ht Hm Hmint. unfold pair_the_roots, claim_root, write_store_id_marker. rewrite Hr, Ht, Hm.
  destruct (store_id (hl_header v)) as [i|] eqn:Ei.
  - destruct (hl_marker v) as [|found|j] eqn:Em.
    + apply claim_outcome; [done..|]. by rewrite Em.
    + apply claim_outcome; [done..|]. by rewrite Em.
    + destruct (decide (i = j)) as [<-|Hne].
      * apply wp_ret. split; [apply only_pairing_refl|]. exists v. split; [done|]. split; [done|]. split; [done|]. by exists i.
      * apply wp_err. split; [apply only_pairing_refl|]. exists v. split; [done|]. split; [done|]. split; [done|]. by eexists.
  - assert (~ mispaired v) as Hnm by (intros (i1 & i2 & E1 & _ & _); congruence).
    assert (claims_nothing (hl_marker v) -> wp (adopted ← at_header (adopt_store_id sd (hl_header v) minted);
      _ ← at_writer (fun _ => OtherDBError "writing the store id marker") (write_marker root (root ++ [TMP_DIR_NAME]) minted); mret adopted) h (outcome root sd v h)) as Hdo.
    { intros Hno. apply wp_bind, (adopt_outcome root sd v minted h); [done|done|done|by right|done|].
      intros h' v' Ho Hs' Hst. eapply wp_mono; [apply (claim_outcome root sd v' minted h'); [done| |done]|].
      - by apply store_id_with_store_id.
      - intros r h'' Hout. eapply outcome_later; [done|exact Ho|by apply rtc_once|exact Hout]. }
    destruct (hl_marker v) as [|found|j] eqn:Em; [by apply Hdo|by apply Hdo|].
    pose proof Hs as [_ Hmk]. rewrite Em in Hmk. assert (StoreId_wf j) as Hj by (by eapply marker_wf).
    apply (adopt_outcome root sd v j h); [done|done|done|by left|done|].
    intros h' v' Ho Hs' Hst. split; [done|]. exists v'. split; [done|]. split; [by apply rtc_once|]. split; [done|].
    exists j. split; [by apply store_id_with_store_id|done].
Qed.

(* ------------------------------------------------------------------ *)
(** * Opening the writer and the database *)

Definition below_tmp (root p : path) : Prop := exists n, p = root ++ [TMP_DIR_NAME; n].

Lemma marker_in_agree root F F' P :
  agree_off P F F' -> ~ P (marker_path root) -> marker_in root F' = marker_in root F.
Proof. intros Ha Hp. unfold marker_in. by rewrite Ha. Qed.

Lemma read_marker_spec root (d : D) :
  wp (read_store_id_marker root) d (fun r d' => files d' = files d /\
    match r with Ok m => m = marker_in root (files d) | Err _ => True end).
Proof.
  pose proof (fs_read_spec (marker_path root) d) as Hr. unfold wp, read_store_id_marker, marker_in in *.
  change (root ++ [STORE_ID_MARKER_NAME]) with (marker_path root).
  destruct (fs_read _ d) as [[raw|e] d']; cbn [fst snd] in Hr; destruct Hr as [Hf Hr]; cbn [fst snd].
  - by rewrite Hr.
  - destruct (io_kind e) eqn:Ek; try done. by rewrite Hr.
Qed.

Lemma purge_spec root stale (ds : DiskState D) :
  (forall q, q ∈ stale -> exists n, q = (root ++ [TMP_DIR_NAME]) ++ [n]) ->
  wp (M_iter (fun p => on_disk (remove_file p)) stale) ds (fun _ ds' => agree_off (below_tmp root) (dfiles ds) (dfiles ds')).
Proof.
  revert ds. induction stale as [|p stale IH]; intros ds Hst; [by apply wp_ret|].
  apply wp_bind, wp_remove_temp. intros r ds' Hn Ha.
  assert (agree_off (below_tmp root) (dfiles ds) (dfiles ds')) as Ha'.
  { eapply agree_off_mono; [exact Ha|]. intros q ->. destruct (Hst p) as [n ->]; [by left|]. exists n. by rewrite <- app_assoc. }
  destruct r; [|done]. eapply wp_mono; [apply IH; intros q Hq; apply Hst; by right|].
  intros r ds'' Ha''. by eapply agree_off_trans.
Qed.

Lemma open_writer_spec root durability (ds : DiskState D) :
  wp (open_writer root durability) ds (fun r ds' =>
    agree_off (below_tmp root) (dfiles ds) (dfiles ds') /\
    match r with
    | Ok w => aw_root w = root /\ aw_tmp w = root ++ [TMP_DIR_NAME] /\ aw_durability w = durability /\
        aw_store_id_marker w = marker_in root (dfiles ds')
    | Err _ => True
    end).
Proof.
  unfold open_writer. apply wp_quiet; [apply quiet_create_dir_all|intros e ds1 -> _; done|]. intros _ ds1 Hf1 _.
  apply wp_quiet; [apply quiet_create_dir_all|intros e ds2 -> _; by rewrite Hf1|]. intros _ ds2 Hf2 _. rewrite <- Hf1, <- Hf2. clear Hf1 Hf2.
  apply wp_bind, wp_on_disk. eapply wp_mono; [apply list_dir_spec|]. intros [stale|e] d3 [Hf3 Hst]; cbn beta iota.
  2: { split; [|done]. unfold dfiles at 2. cbn. by rewrite Hf3. }
  set (ds3 := mkDiskState d3 _ _). assert (dfiles ds3 = dfiles ds2) as E3 by (unfold dfiles; exact Hf3). rewrite <- E3.
  apply wp_bind. eapply wp_mono; [by apply (purge_spec root)|]. intros [u|e] ds4 Ha4; cbn beta iota; [|done].
  apply wp_quiet; [apply quiet_on_disk; intros; apply device_of_spec|intros e ds5 -> _; done|]. intros rd ds5 Hf5 _.
  apply wp_quiet; [apply quiet_on_disk; intros; apply device_of_spec|intros e ds6 -> _; by rewrite Hf5|]. intros td ds6 Hf6 _.
  rewrite <- Hf5, <- Hf6 in Ha4. clear Hf5 Hf6. apply wp_quiet.
  { destruct rd as [r|], td as [t|]; try apply quiet_ret. destruct (r =? t); [apply quiet_ret|by intros ?]. }
  { intros e ds7 -> _. done. }
  intros _ ds7 Hf7 _. rewrite <- Hf7 in Ha4. apply wp_bind, wp_on_disk. eapply wp_mono; [apply read_marker_spec|].
  intros [mk|e] d8 [Hf8 Hmk]; cbn beta iota; [|split; [unfold dfiles at 2; cbn; by rewrite Hf8|done]].
  set (ds8 := mkDiskState d8 _ _). assert (dfiles ds8 = dfiles ds7) as E8 by exact Hf8.
  change (files (ds_disk ds7)) with (dfiles ds7) in Hmk.
  assert (forall ds' : DiskState D, dfiles ds' = dfiles ds8 -> agree_off (below_tmp root) (dfiles ds3) (dfiles ds') /\
    aw_root (mkWriter root (root ++ [TMP_DIR_NAME]) durability mk) = root /\
    aw_tmp (mkWriter root (root ++ [TMP_DIR_NAME]) durability mk) = root ++ [TMP_DIR_NAME] /\
    aw_durability (mkWriter root (root ++ [TMP_DIR_NAME]) durability mk) = durability /\
    aw_store_id_marker (mkWriter root (root ++ [TMP_DIR_NAME]) durability mk) = marker_in root (dfiles ds')) as Hfin.
  { intros ds' ->. rewrite E8. split; [done|]. split; [done|]. split; [done|]. split; [done|exact Hmk]. }
  assert (forall ds' : DiskState D, dfiles ds' = dfiles ds8 -> agree_off (below_tmp root) (dfiles ds3) (dfiles ds')) as Herr by (intros ds' E; by apply Hfin).
  destruct (syncs _); [|apply wp_ret; by apply Hfin].
  apply wp_quiet; [apply quiet_fsync_dir|intros e ds9 E9 _; split; [by apply Herr|done]|]. intros _ ds9 E9 _.
  apply wp_quiet; [apply quiet_fsync_dir|intros e ds10 E10 _; split; [apply Herr; congruence|done]|]. intros _ ds10 E10 _.
  apply wp_quiet; [destruct (parent root); [apply quiet_fsync_dir|apply quiet_ret]|intros e ds11 E11 _; split; [apply Herr; congruence|done]|].
  intros _ ds11 E11 _.
  apply wp_quiet; [apply quiet_add_durable|intros e ds12 E12 _; split; [apply Herr; congruence|done]|]. intros _ ds12 E12 _.
  apply wp_ret, Hfin. congruence.
Qed.

(** Opening a database writes below its directory and no pair. *)
Definition opens (build : path -> M (Home S D) MetaError unit) : Prop := forall p (h : Home S D),
  wp (build p) h (fun _ (h' : Home S D) => kv (h_store h') = kv (h_store h) /\
    agree_off (fun q => p `prefix_of` q) (files (h_disk h)) (files (h_disk h'))).

Lemma classify_db_dir_spec p (h : Home S D) :
  wp (classify_db_dir p) h (fun _ (h' : Home S D) => h_store h' = h_store h /\ files (h_disk h') = files (h_disk h)).
Proof.
  unfold wp, classify_db_dir. pose proof (list_dir_spec p (h_disk h)) as Hl. unfold wp in Hl.
  destruct (list_dir p (h_disk h)) as [r d']. cbn [fst snd] in *. by destruct Hl.
Qed.

Lemma read_header_is db (h : Home S D) :
  wp (read_header db) h (fun r (h' : Home S D) => kv (h_store h') = kv (h_store h) /\ h_disk h' = h_disk h /\
    match r with Ok (Some header) => header_is (kv (h_store h)) header | _ => True end).
Proof.
  unfold read_header. apply wp_bind, wp_with_store. wp_call tree_open_spec; intros [Hk Hr]; [subst a|done].
  eapply wp_mono; [apply tree_get_spec|]. rewrite Hk. intros [[raw|]|e] s2 [Hk2 Hv]; cbn beta iota; try done.
  apply wp_bind, wp_lift. destruct (from_bytes raw) as [header|e] eqn:E; cbn [map_err]; [|done].
  apply wp_ret. split; [done|]. split; [done|]. by exists raw.
Qed.

Definition header_key : tree * bytes := (STORE_HEADER_TREE, STORE_HEADER_KEY).

Definition same_pairs (m m' : kvmap) : Prop := forall p, p <> header_key -> m' !! p = m !! p.

(** The files an open may write: the pairing's, and the database's. *)
Definition open_file (root store_dir db p : path) : Prop :=
  pairing_file root store_dir p \/ db `prefix_of` p \/ exists sd, parent db = Some sd /\ p = sd ++ [STORE_HEADER_SIDECAR].

Lemma open_or_create_spec now fresh db spec build (h : Home S D) :
  opens build -> StoreId_wf fresh -> is_u64 now ->
  wp (open_or_create now fresh db spec build) h (fun r (h' : Home S D) =>
    same_pairs (kv (h_store h)) (kv (h_store h')) /\
    agree_off (fun p => db `prefix_of` p \/ exists sd, parent db = Some sd /\ p = sd ++ [STORE_HEADER_SIDECAR]) (files (h_disk h)) (files (h_disk h')) /\
    match r with
    | Ok header => header_is (kv (h_store h')) header /\
        (header_is (kv (h_store h)) header \/ create_at fresh spec now = Ok header)
    | Err _ => kv (h_store h') = kv (h_store h) \/
        exists header, header_is (kv (h_store h')) header /\ create_at fresh spec now = Ok header
    end).
Proof.
  intros Hb Hfr Hnow. unfold open_or_create.
  set (P := fun q : path => db `prefix_of` q \/ exists sd, parent db = Some sd /\ q = sd ++ [STORE_HEADER_SIDECAR]).
  change (fun p : path => _ \/ _) with P.
  apply wp_bind. eapply wp_mono; [apply classify_db_dir_spec|]. intros [init|e] h1 [Es1 Ef1]; cbn beta iota.
  2: { rewrite Es1, Ef1. split; [done|]. split; [done|by left]. }
  apply wp_bind. eapply wp_mono; [apply Hb|]. rewrite Es1, Ef1. intros r h2 [Ek2 Ha2].
  assert (agree_off P (files (h_disk h)) (files (h_disk h2))) as Hf2 by (eapply agree_off_mono; [exact Ha2|]; intros q Hq; by left).
  destruct r as [u|e]; cbn beta iota; [|rewrite Ek2; split; [done|]; split; [done|by left]].
  destruct init.
  - unfold create_at, create_with. destruct (from_header (hs_algo spec) (hs_width spec)) as [hasher|e] eqn:Eh.
    2: { apply wp_bind, wp_lift. cbn. rewrite Ek2. split; [done|]. split; [done|by left]. }
    cbn [map_err mbind result_bind mret result_ret]. set (header := mkStoreHeader _ _ _ _).
    assert (StoreHeader_wf header) as Hw.
    { destruct Hfr. split; [by apply (list_elem_of_lookup_2 _ 0)|]. by split. }
    apply wp_bind, wp_lift. cbn beta iota. cbn [map_err].
    apply wp_bind. eapply wp_mono; [apply write_header_frame|]. intros r h3 [Ed3 Ek3]. rewrite Ek2 in Ek3.
    destruct r as [u3|e]; cbn beta iota.
    2: { rewrite Ed3. split; [|split; [done|]].
         - intros p Hp. destruct Ek3 as [->| ->]; [done|]. by rewrite lookup_insert_ne.
         - destruct Ek3 as [->| ->]; [by left|right]. exists header. split; [by apply header_is_written|done]. }
    assert (forall d, agree_off P (files (h_disk h)) (files d) -> same_pairs (kv (h_store h)) (kv (h_store h3)) /\
      agree_off P (files (h_disk h)) (files d) /\ header_is (kv (h_store h3)) header /\
      (header_is (kv (h_store h)) header \/ @Ok StoreHeaderError _ header = Ok header)) as Hfin.
    { intros d Hd. split; [intros p Hp; rewrite Ek3; by rewrite lookup_insert_ne|]. split; [done|].
      split; [rewrite Ek3; by apply header_is_written|by right]. }
    destruct (parent db) as [sd|] eqn:Ep.
    + apply wp_bind. unfold wp at 1, write_sidecar.
      pose proof (fs_write_spec (sd ++ [STORE_HEADER_SIDECAR]) (to_bytes header) (h_disk h3)) as Hf. unfold wp in Hf.
      destruct (fs_write _ _ _) as [r4 d4]. cbn [fst snd] in *. apply wp_ret. cbn [h_store h_disk]. apply Hfin.
      eapply agree_off_trans; [exact Hf2|]. rewrite <- Ed3. intros q Hq.
      assert (q <> sd ++ [STORE_HEADER_SIDECAR]) as Hne by (intros ->; apply Hq; right; eauto).
      destruct r4; [rewrite Hf; by rewrite lookup_insert_ne|by apply Hf].
    + apply wp_bind, wp_ret, wp_ret. apply Hfin. by rewrite Ed3.
  - apply wp_bind. eapply wp_mono; [apply read_header_is|]. rewrite Ek2. intros [[header|]|e] h3 (Ek3 & Ed3 & Hr); cbn beta iota.
    all: assert (same_pairs (kv (h_store h)) (kv (h_store h3))) as Hsame by (by rewrite Ek3).
    all: assert (agree_off P (files (h_disk h)) (files (h_disk h3))) as Hf3 by (by rewrite Ed3).
    + apply wp_ret. split; [exact Hsame|]. split; [exact Hf3|]. rewrite Ek3. split; [exact Hr|by left].
    + apply wp_err. split; [exact Hsame|]. split; [exact Hf3|left; by rewrite Ek3].
    + split; [exact Hsame|]. split; [exact Hf3|left; by rewrite Ek3].
Qed.

(* ------------------------------------------------------------------ *)
(** * Opening a store *)

(** The names a store is opened under resolve, throughout, to one database
    directory and one blocks root, and the database does not hold the root's
    marker. *)
Definition resolves (p q : path) : Prop := forall d : D, default p (canonicalize p d) = q.

Definition halves_at (p blocks_root db root : path) : Prop :=
  resolves (p ++ [BLOCKS_DB_DIR_NAME]) db /\ resolves blocks_root root /\ ~ db `prefix_of` marker_path root.

(** What the halves say when the pairing starts: the header is the stored one,
    or the one a first open has just created. *)
Definition starts now fresh spec root h (v : Halves) : Prop :=
  (header_is (kv (h_store h)) (hl_header v) \/ create_at fresh spec now = Ok (hl_header v)) /\
  hl_marker v = marker_in root (dfiles (h_disk h)).

Definition follows now fresh spec root h h' (v v' : Halves) : Prop :=
  starts now fresh spec root h v /\ says_of root h' v' /\ rtc pair_step v v'.

(** What only the open writes. *)
Definition only_opening (root store_dir db : path) h h' : Prop :=
  same_pairs (kv (h_store h)) (kv (h_store h')) /\
  agree_off (open_file root store_dir db) (dfiles (h_disk h)) (dfiles (h_disk h')).

Lemma only_opening_trans root sd db h1 h2 h3 : only_opening root sd db h1 h2 -> only_opening root sd db h2 h3 -> only_opening root sd db h1 h3.
Proof. intros [Hk Hf] [Hk2 Hf2]. split; [|by eapply agree_off_trans]. intros q Hq. by rewrite Hk2, Hk. Qed.

Lemma only_opening_pairing root sd db h h' : only_pairing root sd h h' -> only_opening root sd db h h'.
Proof. intros [Hk Hf]. split; [exact Hk|]. eapply agree_off_mono; [exact Hf|]. by left. Qed.

Lemma made_canonical_spec p q h : resolves p q ->
  wp (made_canonical p) h (fun r h' => r = Ok q /\ h_store h' = h_store h /\ dfiles (h_disk h') = dfiles (h_disk h)).
Proof.
  intros Hq. pose proof (create_dir_all_spec p (ds_disk (h_disk h))) as Hc. unfold wp, made_canonical in *.
  destruct (create_dir_all p _) as [r d]. cbn [fst snd] in *. split; [by rewrite Hq|]. by split.
Qed.

Lemma wp_open_tree (n : tree) h Q :
  (forall r h', kv (h_store h') = kv (h_store h) -> dfiles (h_disk h') = dfiles (h_disk h) -> Q r h') ->
  wp (at_header (with_store (tree_open (S := S) n))) h Q.
Proof.
  intros HQ. apply wp_at_header, wp_with_store. eapply wp_mono; [apply tree_open_spec|]. intros r s' [Hk _]. by apply HQ.
Qed.

(** What an open may leave: a store that follows the protocol from what its
    halves said to a pair, or an error that has followed it part of the way. *)
Definition open_outcome now fresh opts p db root h (r : result MetaError SharedBlockStore) h' : Prop :=
  only_opening root p db h h' /\
  match r with
  | Ok s => exists v v', follows now fresh (header_spec opts) root h h' v v' /\ ~ mispaired v /\ paired v' /\
      sbs_header s = hl_header v' /\ sbs_hasher s = sh_hasher (hl_header v') /\
      sbs_blocks_root s = root /\ aw_root (sbs_disk_writer s) = root /\ (1 <= sbs_max_blocks_per_commit s)%nat
  | Err e =>
      (kv (h_store h') = kv (h_store h) /\ marker_in root (dfiles (h_disk h')) = marker_in root (dfiles (h_disk h))) \/
      exists v v', follows now fresh (header_spec opts) root h h' v v'
  end.

(** The writer and the header of an open: the halves as they are found. *)
Lemma open_halves_spec now fresh build db root opts p h :
  opens build -> StoreId_wf fresh -> is_u64 now -> ~ db `prefix_of` marker_path root ->
  wp (writer ← at_writer (fun _ => OtherDBError "opening the blocks root") (open_writer root (opt_durability opts));
      header ← at_header (open_or_create now fresh db (header_spec opts) build);
      mret (writer, header)) h (fun r h' =>
    only_opening root p db h h' /\
    match r with
    | Ok (w, header) => exists v, header = hl_header v /\ starts now fresh (header_spec opts) root h v /\ says_of root h' v /\
        aw_root w = root /\ aw_tmp w = root ++ [TMP_DIR_NAME] /\ aw_store_id_marker w = hl_marker v
    | Err _ =>
      (kv (h_store h') = kv (h_store h) /\ marker_in root (dfiles (h_disk h')) = marker_in root (dfiles (h_disk h))) \/
      exists v, starts now fresh (header_spec opts) root h v /\ says_of root h' v
    end).
Proof.
  intros Hb Hfr Hnow Hdb.
  assert (forall q, below_tmp root q -> pairing_file root p q) as Htmp by (intros q [n ->]; right; left; by exists n).
  apply wp_bind, wp_at_writer. eapply wp_mono; [apply open_writer_spec|]. intros r ds1 [Ha1 Hw].
  set (h1 := mkHome (h_store h) ds1). assert (marker_in root (dfiles ds1) = marker_in root (dfiles (h_disk h))) as Em1.
  { eapply marker_in_agree; [exact Ha1|]. intros [n E]. by apply marker_not_tmp in E. }
  assert (only_opening root p db h h1) as Ho1.
  { split; [done|]. eapply agree_off_mono; [exact Ha1|]. intros q Hq. left. auto. }
  destruct r as [w|e]; cbn [map_err]; cbn beta iota; [|split; [exact Ho1|left; by split]].
  destruct Hw as (Hr & Ht & _ & Hm). apply wp_bind, wp_at_header.
  eapply wp_mono; [by apply (open_or_create_spec now fresh db (header_spec opts) build)|].
  intros r h2 (Hs2 & Ha2 & Hr2). set (hx := mkHome (h_store h2) _). cbn [h_store h_disk] in Hs2, Ha2, Hr2.
  assert (marker_in root (dfiles (h_disk hx)) = marker_in root (dfiles ds1)) as Em2.
  { eapply marker_in_agree; [exact Ha2|]. intros [Hq|(sd & _ & Hq)]; [done|by apply marker_not_sidecar in Hq]. }
  assert (only_opening root p db h hx) as Ho2.
  { eapply only_opening_trans; [exact Ho1|]. split; [exact Hs2|]. eapply agree_off_mono; [exact Ha2|]. intros q Hq. by right. }
  assert (forall header, header_is (kv (h_store h2)) header -> header_is (kv (h_store h)) header \/ create_at fresh (header_spec opts) now = Ok header ->
    starts now fresh (header_spec opts) root h (mkHalves header (marker_in root (dfiles ds1))) /\
    says_of root hx (mkHalves header (marker_in root (dfiles ds1)))) as Hst by (intros header Hh Hor; split; split; done).
  destruct r as [header|e]; cbn beta iota.
  - apply wp_ret. split; [exact Ho2|]. destruct Hr2 as [Hh Hor]. exists (mkHalves header (marker_in root (dfiles ds1))).
    destruct (Hst _ Hh Hor). by split_and!.
  - split; [exact Ho2|]. destruct Hr2 as [Hk|(header & Hh & Hor)]; [left|right].
    + split; [exact Hk|by rewrite Em2].
    + exists (mkHalves header (marker_in root (dfiles ds1))). apply Hst; [done|by right].
Qed.

(** What opening a store comes to. *)
Lemma open_store_spec now fresh minted build p blocks_root db root opts h :
  opens build -> StoreId_wf fresh -> StoreId_wf minted -> is_u64 now -> halves_at p blocks_root db root ->
  wp (open_store now fresh minted build p blocks_root opts) h (open_outcome now fresh opts p db root h).
Proof.
  intros Hb Hfr Hmint Hnow (Hdb & Hroot & Hno). set (spec := header_spec opts).
  assert (only_opening root p db h h) as Hrefl by done.
  apply (wp_guard (fun h => legacy_database p (ds_disk (h_disk h)))); [split; [done|left; by split]|].
  apply wp_bind. eapply wp_mono; [exact (made_canonical_spec _ _ _ Hdb)|]. intros r h1 (-> & Es1 & Ef1); cbn beta iota.
  apply wp_bind. eapply wp_mono; [exact (made_canonical_spec _ _ _ Hroot)|]. intros r h2 (-> & Es2 & Ef2); cbn beta iota.
  pose proof (open_halves_spec now fresh build db root opts p h2 Hb Hfr Hnow Hno) as Hh.
  eapply wp_pair; [exact Hh|]. clear Hh. intros r h3.
  unfold open_outcome, follows, only_opening, starts. rewrite Es1, Ef1 in *. rewrite Es2, Ef2.
  intros [Ho3 Hr]. destruct r as [[w header]|e]; cbn beta iota.
  2: { split; [exact Ho3|]. destruct Hr as [Hr|(v & Hst & Hs)]; [by left|right]. by exists v, v. }
  destruct Hr as (v & -> & Hst & Hs & Hwr & Hwt & Hwm).
  apply wp_bind. eapply wp_mono; [by apply (pair_the_roots_spec minted db p root v w h3)|].
  intros r h4 (Ho4 & v' & Hs4 & Hsteps & Hr4).
  assert (forall h' : HS, kv (h_store h') = kv (h_store h4) -> dfiles (h_disk h') = dfiles (h_disk h4) ->
    only_opening root p db h h' /\ says_of root h' v') as Hfin.
  { intros h' Ek Ef. split; [|eapply says_of_disk; [exact Hs4|done|by rewrite Ef]].
    assert (only_opening root p db h h4) as [Hk Hf] by (eapply only_opening_trans; [exact Ho3|by apply only_opening_pairing]).
    unfold only_opening. by rewrite Ek, Ef. }
  assert (forall (h' : HS) (e : MetaError), kv (h_store h') = kv (h_store h4) -> dfiles (h_disk h') = dfiles (h_disk h4) ->
    open_outcome now fresh opts p db root h (Err e) h') as Herr.
  { intros h' e Ek Ef. destruct (Hfin h' Ek Ef) as [Ho Hs']. split; [exact Ho|]. right. by exists v, v'. }
  destruct r as [header|e]; cbn beta iota; [|by apply Herr]. destruct Hr4 as [-> Hp].
  do 3 (apply wp_bind, wp_open_tree; intros [?|?] ? ? ?; cbn beta iota; [|apply Herr; congruence]).
  apply wp_ret. match goal with |- context [says_of root ?hx _] => destruct (Hfin hx) as [Ho Hs']; [congruence..|] end.
  split; [exact Ho|]. exists v, v'. split; [done|]. split; [by eapply pair_steps_sound|]. cbn [sbs_header sbs_hasher sbs_blocks_root sbs_disk_writer sbs_max_blocks_per_commit].
  split_and!; try done. lia.
Qed.

(** C20: Opening a store pairs its two halves or leaves them no further apart.
    Whatever calls fail, an open writes the header record, its copy, the marker
    and its temp files, and below the database directory, nothing else; from
    what the two halves said (a first open's header is the one just created)
    they reach what they say afterwards by steps of the pairing protocol only,
    which claims an unclaimed root for the header's id, takes the root's id into
    a header without one, or mints one into the header first.  A store that is
    handed out has a header and a root that name the same id, was not mispaired,
    hashes with the header's hasher, writes below its own root, and closes
    batches of at least one block. *)
Theorem opening_pairs_the_halves now fresh minted build p blocks_root db root opts h :
  opens build -> StoreId_wf fresh -> StoreId_wf minted -> is_u64 now -> halves_at p blocks_root db root ->
  wp (open_store now fresh minted build p blocks_root opts) h (open_outcome now fresh opts p db root h).
Proof. apply open_store_spec. Qed.

(* ------------------------------------------------------------------ *)
(** * The re-pair verb *)

Definition marker_id (m : StoreIdMarker) : option StoreId := match m with Present i => Some i | _ => None end.

(** The files the verb may write. *)
Definition verb_file (db root p : path) : Prop := db `prefix_of` p \/ p = marker_path root \/ below_tmp root p.

Lemma wp_header_call {A} (m : M (Home S D) MetaError A) h Q :
  wp m (mkHome (h_store h) (ds_disk (h_disk h))) (fun r (h' : Home S D) =>
    Q (map_err PairingOpen r) (mkHome (h_store h') (mkDiskState (h_disk h') (ds_known_durable (h_disk h)) (ds_nonce (h_disk h))))) ->
  wp (header_call m) h Q.
Proof. unfold wp, header_call, m_map_err, at_header. by destruct (m _) as [[?|?] ?]. Qed.

Lemma wp_classify db h Q :
  (forall r h', h_store h' = h_store h -> dfiles (h_disk h') = dfiles (h_disk h) -> Q r h') ->
  wp (header_call (classify_db_dir db)) h Q.
Proof. intros HQ. apply wp_header_call. eapply wp_mono; [apply classify_db_dir_spec|]. intros r h1 [Es Ef]. by apply HQ. Qed.

Lemma read_pairing_spec build meta_root fs_root h :
  let db := blocks_db_path meta_root in let root := blocks_root_path fs_root in
  opens build -> ~ db `prefix_of` marker_path root ->
  wp (read_pairing build meta_root fs_root) h (fun r h' =>
    kv (h_store h') = kv (h_store h) /\ agree_off (fun q => db `prefix_of` q) (dfiles (h_disk h)) (dfiles (h_disk h')) /\
    match r with
    | Ok pg => exists hd, header_is (kv (h_store h)) hd /\
        pg = mkPairing db (store_id hd) root (marker_id (marker_in root (dfiles (h_disk h'))))
    | Err _ => True
    end).
Proof.
  intros db root Hb Hno. unfold read_pairing. fold db root.
  apply wp_bind, wp_classify. intros [[|]|e] h1 Es Ef; cbn beta iota; rewrite <- Es, <- Ef; [done| |done].
  apply (wp_guard (fun h => negb (is_dir root (ds_disk (h_disk h))))); [done|].
  apply wp_bind, wp_header_call. eapply wp_mono; [apply Hb|]. intros r h2 [Ek2 Ha2]. cbn [h_store h_disk] in Ek2, Ha2.
  destruct r as [u|e]; cbn [map_err]; cbn beta iota; [|done].
  apply wp_bind, wp_header_call. eapply wp_mono; [apply read_header_is|]. cbn [h_store h_disk]. rewrite Ek2.
  intros r h3 (Ek3 & Ed3 & Hr). destruct r as [[hd|]|e]; cbn [map_err]; cbn beta iota.
  2, 3: cbn [h_store h_disk]; unfold dfiles; cbn [ds_disk]; rewrite Ed3; split; [done|]; by split.
  apply wp_bind, wp_at_writer, wp_on_disk. eapply wp_mono; [apply read_marker_spec|].
  intros r d4 [Hf4 Hm]. cbn [h_store h_disk ds_disk] in *. rewrite Ed3 in Hf4, Hm.
  destruct r as [m|e]; cbn [map_err]; cbn beta iota.
  2: { cbn [h_store h_disk]; unfold dfiles; cbn [ds_disk]. rewrite Hf4. split; [done|]. by split. }
  apply wp_ret. cbn [h_store h_disk]. unfold dfiles. cbn [ds_disk]. rewrite Hf4. split; [done|]. split; [done|].
  exists hd. split; [done|]. by rewrite <- Hm.
Qed.

(** The verb writes the marker it was asked for. *)
Lemma rewrite_spec root i h :
  StoreId_wf i ->
  wp (at_writer (PairingMarker root) (rewrite_store_id_marker root i)) h (fun r h' =>
    h_store h' = h_store h /\ agree_off (fun p => p = marker_path root \/ below_tmp root p) (dfiles (h_disk h)) (dfiles (h_disk h')) /\
    (marker_in root (dfiles (h_disk h')) = Present i \/
     (is_ok r = false /\ marker_in root (dfiles (h_disk h')) = marker_in root (dfiles (h_disk h))))).
Proof.
  intros Hi. apply wp_at_writer. unfold rewrite_store_id_marker. eapply wp_mono; [apply write_marker_spec|].
  { unfold temp_name. rewrite <- app_assoc. apply marker_not_tmp. }
  intros r ds' [Ha Hm]. cbn [h_store h_disk]. split; [done|]. split.
  - eapply agree_off_mono; [exact Ha|]. intros p [->|[n ->]]; [by left|right]. exists n. by rewrite <- app_assoc.
  - unfold marker_in. destruct Hm as [->|[Hr ->]]; [left; by apply marker_text|right]. by destruct r.
Qed.

Lemma header_is_fun m hd hd' : header_is m hd -> header_is m hd' -> hd = hd'.
Proof. intros (raw & E & Hd) (raw' & E' & Hd'). congruence. Qed.

(** What the verb may leave. *)
Definition re_paired (db root : path) h (r : result PairingError RePair) h' : Prop :=
  kv (h_store h') = kv (h_store h) /\ agree_off (verb_file db root) (dfiles (h_disk h)) (dfiles (h_disk h')) /\
  match r with
  | Ok rp => exists hd i, header_is (kv (h_store h)) hd /\ store_id hd = Some i /\
      marker_in root (dfiles (h_disk h')) = Present i /\
      rp = mkRePair i (marker_id (marker_in root (dfiles (h_disk h)))) db root
             (negb (bool_decide (marker_id (marker_in root (dfiles (h_disk h))) = Some i))) /\
      forall minted sd w, aw_store_id_marker w = marker_in root (dfiles (h_disk h')) ->
        pair_the_roots minted db sd root hd w h' = (Ok hd, h')
  | Err e =>
      marker_in root (dfiles (h_disk h')) = marker_in root (dfiles (h_disk h)) \/
      exists hd i, header_is (kv (h_store h)) hd /\ store_id hd = Some i /\ marker_in root (dfiles (h_disk h')) = Present i
  end /\
  (forall hd, header_is (kv (h_store h)) hd -> store_id hd = None -> is_ok r = false).

Lemma re_pair_spec build meta_root fs_root h :
  let db := blocks_db_path meta_root in let root := blocks_root_path fs_root in
  opens build -> ~ db `prefix_of` marker_path root ->
  wp (re_pair build meta_root fs_root) h (re_paired db root h).
Proof.
  intros db root Hb Hno. unfold re_pair. apply wp_bind. eapply wp_mono; [by apply read_pairing_spec|].
  fold db root. intros r h1 (Ek1 & Ha1 & Hr).
  assert (marker_in root (dfiles (h_disk h1)) = marker_in root (dfiles (h_disk h))) as Em1 by (by eapply marker_in_agree).
  assert (agree_off (verb_file db root) (dfiles (h_disk h)) (dfiles (h_disk h1))) as Hv1 by (eapply agree_off_mono; [exact Ha1|]; by left).
  destruct r as [pg|e]; cbn beta iota; [|split_and!; try done; by left].
  destruct Hr as (hd & Hh & ->). cbn [pg_header_id pg_marker_id pg_db_path pg_blocks_root]. pose proof (header_is_wf _ _ Hh) as Hw.
  destruct (store_id hd) as [i|] eqn:Ei.
  2: { apply wp_err. split_and!; try done. by left. }
  assert (forall hd', header_is (kv (h_store h)) hd' -> store_id hd' = None -> False) as Hsome.
  { intros hd' Hh'. rewrite (header_is_fun _ _ _ Hh' Hh). congruence. }
  rewrite Em1. set (was := marker_id (marker_in root (dfiles (h_disk h)))).
  assert (forall h', kv (h_store h') = kv (h_store h) -> agree_off (verb_file db root) (dfiles (h_disk h)) (dfiles (h_disk h')) ->
    marker_in root (dfiles (h_disk h')) = Present i ->
    wp (mret (mkRePair i was db root (negb (bool_decide (was = Some i))))) h' (re_paired db root h)) as Hok.
  { intros h' Ek Ha Em. apply wp_ret. split; [done|]. split; [done|]. split; [|intros hd' Hh' E; by destruct (Hsome hd' Hh' E)].
    exists hd, i. split_and!; try done. intros minted sd w Ew. unfold pair_the_roots. rewrite Ei, Ew, Em. by rewrite decide_True. }
  destruct (bool_decide_reflect (was = Some i)) as [E|Hne]; cbn [negb].
  - apply wp_bind, wp_ret. apply Hok; [done..|]. rewrite Em1. clear -E. revert E. unfold was. destruct (marker_in _ _); cbn; congruence.
  - apply wp_bind. eapply wp_mono; [by apply rewrite_spec, (header_id_wf hd)|]. intros r h2 (Es2 & Ha2 & Hm2).
    assert (agree_off (verb_file db root) (dfiles (h_disk h)) (dfiles (h_disk h2))) as Hv2.
    { eapply agree_off_trans; [exact Hv1|]. eapply agree_off_mono; [exact Ha2|]. by right. }
    destruct r as [u|e]; cbn beta iota.
    + apply Hok; [by rewrite Es2|done|]. by destruct Hm2 as [|[? _]].
    + split; [by rewrite Es2|]. split; [done|]. split; [|done]. destruct Hm2 as [Hm2|[_ Hm2]]; [right; by exists hd, i|left; congruence].
Qed.

(** C21: Re-pairing makes a store open again and touches nothing else.  The
    verb changes no record of the database; below the root it writes the marker
    and its temp files only.  When it succeeds the stored header has an id, the
    marker names exactly that id, the reported former id is what the marker
    said, the rewrite is reported exactly when the marker said something else,
    and the pairing of the next open hands out that header without a change.
    When it fails the marker says what it said before, or already the header's
    id: it never names a third store.  A header without an id is refused. *)
Theorem re_pair_restores build meta_root fs_root h :
  let db := blocks_db_path meta_root in let root := blocks_root_path fs_root in
  opens build -> ~ db `prefix_of` marker_path root ->
  wp (re_pair build meta_root fs_root) h (re_paired db root h).
Proof. apply re_pair_spec. Qed.
End Specs.

(* ------------------------------------------------------------------ *)
(** * A store opened, and re-paired *)

Import Concrete MemFjall.

Definition p_build (p : path) : M (Home (FjallStore MemDB) Fs) MetaError unit := fun h =>
  let '(r, d) := fs_write (p ++ [str "version"]) [Byte.x03] (h_disk h) in
  (map_err (fun _ => OtherDBError "fjall") r, mkHome (h_store h) d).

Lemma p_opens : opens p_build.
Proof.
  intros p h. unfold wp, p_build. pose proof (fs_write_spec (p ++ [str "version"]) [Byte.x03] (h_disk h)) as Hf. unfold wp in Hf.
  destruct (fs_write _ _ _) as [r d]. cbn [fst snd] in *. split; [done|]. intros q Hq. cbn [h_disk].
  assert (q <> p ++ [str "version"]) as Hne by (intros ->; apply Hq; by exists [str "version"]).
  destruct r; [rewrite Hf; by rewrite lookup_insert_ne|by apply Hf].
Qed.

Definition p_meta : path := [str "m"].
Definition p_db : path := blocks_db_path p_meta.
Definition p_root : path := blocks_root_path [str "d"].
Definition p_id (b : byte) : StoreId := mkStoreId (replicate STORE_ID_SIZE b).
Definition p_opts : StoreOptions := mkStoreOptions Fjall Fsync None false Blake3W16 None None None.
Definition p_fresh : Home (FjallStore MemDB) (DiskState Fs) := mkHome empty_store (mkDiskState (mkFs ∅ ∅ ∅ []) ∅ 0).
Definition p_open := open_store 7 (p_id Byte.x01) (p_id Byte.x02) p_build (p_meta ++ [str "blocks"]) p_root p_opts.

Lemma p_halves : halves_at (D := Fs) (p_meta ++ [str "blocks"]) p_root p_db p_root.
Proof.
  assert (forall p d, default p (canonicalize (D := Fs) p d) = p) as Hc by (intros p d; cbn; by destruct (_ || _)).
  split; [intros d; apply Hc|]. split; [intros d; apply Hc|]. intros [k E]. revert E. by vm_compute.
Qed.

Lemma opening_pairs_the_halves_witness :
  exists s h', p_open p_fresh = (Ok s, h') /\ paired (mkHalves (sbs_header s) (marker_in p_root (dfiles (h_disk h')))).
Proof.
  pose proof (opening_pairs_the_halves 7 (p_id Byte.x01) (p_id Byte.x02) p_build (p_meta ++ [str "blocks"]) p_root p_db p_root p_opts p_fresh
    p_opens ltac:(by split) ltac:(by split) ltac:(int_bounds; lia) p_halves) as H.
  run_ok H s h' E. exists s, h'. split; [exact E|]. destruct H as (_ & v & v' & (_ & [_ Hm] & _) & _ & Hp & Hh & _).
  rewrite Hh, <- Hm. by destruct v'.
Defined.

(** The same store on a root that belongs to another one: refused, re-paired,
    and opened again. *)
Definition p_torn : Home (FjallStore MemDB) (DiskState Fs) :=
  let h := (p_open p_fresh).2 in
  (at_writer (E := MetaError) (fun _ => OtherDBError "marker") (rewrite_store_id_marker p_root (p_id Byte.x09)) h).2.

Lemma re_pair_restores_witness :
  is_ok (p_open p_torn).1 = false /\
  exists rp h', re_pair p_build p_meta [str "d"] p_torn = (Ok rp, h') /\
    rp_was rp = Some (p_id Byte.x09) /\ rp_store_id rp = p_id Byte.x01 /\ rp_rewritten rp = true /\
    marker_in p_root (dfiles (h_disk h')) = Present (p_id Byte.x01) /\ is_ok (p_open h').1 = true.
Proof.
  split; [vm_compute; reflexivity|].
  pose proof (re_pair_restores p_build p_meta [str "d"] p_torn p_opens) as H.
  specialize (H ltac:(intros [k E]; revert E; by vm_compute)).
  run_ok H rp h' E. exists rp, h'. split; [exact E|]. destruct H as (_ & _ & (hd & i & _ & _ & Hm & Hrp & _) & _).
  assert (rp = mkRePair (p_id Byte.x01) (Some (p_id Byte.x09)) p_db p_root true) as -> by
    (apply (run_val (fun x => match x.1 with Ok rp => rp | Err _ => rp end) _ _ _ E); vm_compute; reflexivity).
  apply (f_equal rp_store_id) in Hrp. cbn [rp_store_id] in Hrp. rewrite <- Hrp in Hm. do 3 (split; [reflexivity|]). split; [exact Hm|].
  apply (run_val (fun x => is_ok (p_open x.2).1) _ _ _ E). vm_compute. reflexivity.
Defined.
