(* ===== verification/Scan.v ===== *)
(** Scans of a bucket for a listing: [range_filter] (metastore/traits.rs,
    stores/fjall/tree.rs), the records of a tree above a start key and under a
    prefix, in order.

    [Listable] is what a listing asks of a backend.  A scan yields no errors:
    a pair that cannot be read, a key that is not text and a value that does
    not decode are passed over, so a scan is sound always and complete when the
    backend reads every pair ([reads_all]).  The fjall backend implements it
    over the database's own iterators, a parameter. *)

From S2P Require Import Prelude Bytes Orders Externals Codec Records MetaStore Fjall.
From Stdlib Require Import Strings.Byte Sorting.
Local Open Scope Z_scope.
#[local] Set Warnings "-clear-no-such-hyp".

(** The later of the two keys a listing may start after. *)
Definition start_key (token start_after : option bytes) : option bytes :=
  match token, start_after with
  | Some token, Some start => Some (if bytes_ltb token start then start else token)
  | Some token, None => Some token
  | None, start => start
  end.

Definition above (lo : option bytes) (k : bytes) : Prop :=
  match lo with Some c => bytes_ltb c k = true | None => True end.
Definition under (prefix : option bytes) (k : bytes) : Prop :=
  match prefix with Some p => starts_with p k = true | None => True end.

(** A record a listing of [t] shows. *)
Definition listed (m : kvmap) (t : tree) (lo prefix : option bytes) (k : bytes) (o : Object) : Prop :=
  exists raw, m !! (t, k) = Some raw /\ Object_try_from raw = Ok o /\ utf8_valid k = true /\
    under prefix k /\ above lo k.

Abbreviation key_sorted := (StronglySorted (fun a b : bytes * _ => bytes_ltb a.1 b.1 = true)).

Class Listable (S : Type) := {
  range_filter : tree -> option bytes -> option bytes -> option bytes -> S -> list (bytes * Object);
  (** every pair of the tree can be read *)
  reads_all : tree -> S -> Prop
}.

Class ListableLaws (S T : Type) `{StoreView S T, Listable S} : Prop := {
  range_filter_sound t sa p ct s k o :
    (k, o) ∈ range_filter t sa p ct s -> listed (kv s) t (start_key ct sa) p k o;
  range_filter_sorted t sa p ct s : key_sorted (range_filter t sa p ct s);
  range_filter_complete t sa p ct s k o :
    reads_all t s -> listed (kv s) t (start_key ct sa) p k o -> (k, o) ∈ range_filter t sa p ct s
}.

(* ------------------------------------------------------------------ *)
(** * The fjall backend *)

(** The iterators of a read transaction: each item is a pair or a failure. *)
Class FjallScan (DB : Type) := {
  fj_prefix : bytes -> bytes -> DB -> list (result unit (bytes * bytes));
  fj_range_from : bytes -> bytes -> DB -> list (result unit (bytes * bytes))
}.

Definition read_ok {E A} (l : list (result E A)) : list A :=
  omap (fun r => match r with Ok a => Some a | Err _ => None end) l.

Class FjallScanLaws (DB WT : Type) `{FjallView DB WT, FjallScan DB} : Prop := {
  fj_prefix_sound n p db k v : (k, v) ∈ read_ok (fj_prefix n p db) -> fkv db !! (n, k) = Some v /\ starts_with p k = true;
  fj_prefix_sorted n p db : key_sorted (read_ok (fj_prefix n p db));
  fj_prefix_complete n p db k v : Forall is_ok (fj_prefix n p db) ->
    fkv db !! (n, k) = Some v -> starts_with p k = true -> (k, v) ∈ read_ok (fj_prefix n p db);
  fj_range_sound n from db k v : (k, v) ∈ read_ok (fj_range_from n from db) -> fkv db !! (n, k) = Some v /\ bytes_ltb k from = false;
  fj_range_sorted n from db : key_sorted (read_ok (fj_range_from n from db));
  fj_range_complete n from db k v : Forall is_ok (fj_range_from n from db) ->
    fkv db !! (n, k) = Some v -> bytes_ltb k from = false -> (k, v) ∈ read_ok (fj_range_from n from db)
}.

Fixpoint skip_while {A} (f : A -> bool) (l : list A) : list A :=
  match l with
  | [] => []
  | x :: l' => if f x then skip_while f l' else l
  end.

(** The keys and values that decode; the others are logged and skipped. *)
Definition decode_item (kv : bytes * bytes) : option (bytes * Object) :=
  if utf8_valid kv.1 then
    match Object_try_from kv.2 with Ok obj => Some (kv.1, obj) | Err _ => None end
  else None.

Definition fjall_range_filter {DB} `{FjallScan DB} (t : tree) (start_after prefix continuation_token : option bytes)
    (s : FjallStore DB) : list (bytes * Object) :=
  let db := fst_db s in
  let ctsa := start_key continuation_token start_after in
  let '(base_iter, ctsa) :=
    match prefix, ctsa with
    | Some p, Some c =>
        if bytes_ltb p c && negb (starts_with p c) then ([], ctsa)
        else if bytes_ltb c p then (fj_prefix t p db, None)
        else (fj_prefix t p db, ctsa)
    | Some p, None => (fj_prefix t p db, ctsa)
    | None, Some c => (fj_range_from t (c ++ [Byte.x00]) db, ctsa)
    | None, None => (fj_range_from t [] db, ctsa)
    end in
  let pairs := read_ok base_iter in
  let skip_filtered :=
    match prefix, ctsa with
    | Some _, Some c => skip_while (fun kv => bytes_leb kv.1 c) pairs
    | _, _ => pairs
    end in
  omap decode_item skip_filtered.

#[global] Instance Fjall_listable {DB} `{FjallScan DB} : Listable (FjallStore DB) := {|
  range_filter := fjall_range_filter;
  reads_all t s := forall x, Forall is_ok (fj_prefix t x (fst_db s)) /\ Forall is_ok (fj_range_from t x (fst_db s))
|}.

(* ------------------------------------------------------------------ *)
(** * The backend's scan is a listing *)

Lemma bytes_ltb_nil_r a : bytes_ltb a [] = false.
Proof. by destruct a. Qed.

(** Between a prefix and a key under it lie only keys under it. *)
Lemma prefix_interval p c k :
  starts_with p k = true -> bytes_ltb c p = false -> bytes_ltb c k = true -> starts_with p c = true.
Proof.
  intros [x ->]%starts_with_spec. rewrite starts_with_spec. revert c. induction p as [|b p IH]; intros c Hp Hk; [by exists c|].
  destruct c as [|b' c]; [done|]. simpl in Hp, Hk.
  destruct (Z.ltb_spec (byte_to_Z b') (byte_to_Z b)); [done|].
  destruct (Z.eqb_spec (byte_to_Z b') (byte_to_Z b)) as [E|]; [|done].
  apply byte_to_Z_inj in E as ->. destruct (IH c Hp Hk) as [t ->]. by exists t.
Qed.

Lemma prefix_le p k : starts_with p k = true -> bytes_ltb k p = false.
Proof.
  intros [x ->]%starts_with_spec. rewrite <- (app_nil_r p) at 2. rewrite bytes_ltb_app_same. apply bytes_ltb_nil_r.
Qed.

Lemma ltb_le_trans a b c : bytes_ltb a b = true -> bytes_ltb c b = false -> bytes_ltb a c = true.
Proof.
  intros Hab Hcb. destruct (bytes_ltb b c) eqn:E; [by eapply bytes_ltb_trans|].
  by rewrite <- (bytes_ltb_total _ _ E Hcb).
Qed.

Lemma bytes_leb_ltb k c : bytes_leb k c = negb (bytes_ltb c k).
Proof. done. Qed.

(** Skipping the low keys of a sorted list keeps exactly the others. *)
Lemma elem_of_skip {A} (c : bytes) (l : list (bytes * A)) kv :
  key_sorted l -> kv ∈ skip_while (fun kv => bytes_leb kv.1 c) l <-> kv ∈ l /\ bytes_ltb c kv.1 = true.
Proof.
  induction 1 as [|x l Hs IH Hx]; simpl; [set_solver|]. rewrite bytes_leb_ltb.
  destruct (bytes_ltb c x.1) eqn:E; simpl.
  - split; [|by intros [? _]]. intros Hin. split; [done|]. apply elem_of_cons in Hin as [->|Hin]; [done|].
    rewrite Forall_forall in Hx. by eapply bytes_ltb_trans, Hx.
  - rewrite IH, elem_of_cons. split; [intros [? ?]; auto|]. intros [[->|Hin] Hc]; [congruence|done].
Qed.

Lemma skip_sorted {A} f (l : list (bytes * A)) : key_sorted l -> key_sorted (skip_while f l).
Proof. induction 1 as [|x l Hs IH Hx]; simpl; [constructor|]. destruct (f x); [done|by constructor]. Qed.

Lemma omap_sorted {A B} (f : bytes * A -> option (bytes * B)) (l : list (bytes * A)) :
  (forall x y, f x = Some y -> y.1 = x.1) -> key_sorted l -> key_sorted (omap f l).
Proof.
  intros Hf. induction 1 as [|x l Hs IH Hx]; simpl; [constructor|].
  destruct (f x) as [y|] eqn:E; [|done]. constructor; [done|]. apply Forall_forall. intros z [z' [Hz' Ez]]%list_elem_of_omap.
  rewrite (Hf _ _ E), (Hf _ _ Ez). rewrite Forall_forall in Hx. by apply Hx.
Qed.

Lemma decode_item_key x y : decode_item x = Some y -> y.1 = x.1.
Proof. unfold decode_item. destruct (utf8_valid x.1), (Object_try_from x.2); by intros [= <-]. Qed.

Section FjallListing.
Context {DB WT : Type} `{FjallScanLaws DB WT, Fjall DB WT}.

(** The pairs a scan decodes: those of the snapshot under the prefix and above
    the start key. *)
Lemma scan_pairs t sa p ct (s : FjallStore DB) :
  exists pairs, fjall_range_filter t sa p ct s = omap decode_item pairs /\ key_sorted pairs /\
    (forall k v, (k, v) ∈ pairs -> fkv (fst_db s) !! (t, k) = Some v /\ under p k /\ above (start_key ct sa) k) /\
    (reads_all t s -> forall k v, fkv (fst_db s) !! (t, k) = Some v -> under p k -> above (start_key ct sa) k -> (k, v) ∈ pairs).
Proof.
  unfold fjall_range_filter. set (db := fst_db s). set (lo := start_key ct sa).
  assert (forall x k v, (k, v) ∈ read_ok (fj_prefix t x db) -> fkv db !! (t, k) = Some v /\ starts_with x k = true) as Hps by (intros; by apply fj_prefix_sound).
  destruct p as [p|], lo as [c|] eqn:Elo; simpl.
  - destruct (bytes_ltb p c && negb (starts_with p c)) eqn:E1.
    { apply andb_true_iff in E1 as [Hpc Hnp%negb_true_iff]. exists []. split; [done|]. split; [constructor|].
      split; [intros k v Hin; by apply not_elem_of_nil in Hin|]. intros _ k v _ Hu Ha. exfalso.
      rewrite (prefix_interval p c k Hu (bytes_ltb_asym _ _ Hpc) Ha) in Hnp. done. }
    destruct (bytes_ltb c p) eqn:E2.
    + eexists. split; [done|]. split; [apply fj_prefix_sorted|]. split.
      * intros k v Hin. destruct (Hps _ _ _ Hin). split_and!; [done..|]. by eapply ltb_le_trans, prefix_le.
      * intros Hall k v Hk Hu _. apply fj_prefix_complete; [apply Hall|done|done].
    + eexists. split; [done|]. split; [by apply skip_sorted, fj_prefix_sorted|]. split.
      * intros k v [Hin Hc]%elem_of_skip; [|apply fj_prefix_sorted]. by destruct (Hps _ _ _ Hin).
      * intros Hall k v Hk Hu Ha. apply elem_of_skip; [apply fj_prefix_sorted|]. split; [|done].
        by apply fj_prefix_complete; [apply Hall|..].
  - eexists. split; [done|]. split; [apply fj_prefix_sorted|]. split.
    + intros k v Hin. by destruct (Hps _ _ _ Hin).
    + intros Hall k v Hk Hu _. by apply fj_prefix_complete; [apply Hall|..].
  - eexists. split; [done|]. split; [apply fj_range_sorted|]. split.
    + intros k v [Hk Hc]%fj_range_sound. rewrite bytes_ltb_snoc_zero in Hc. apply negb_false_iff in Hc. done.
    + intros Hall k v Hk _ Ha. apply fj_range_complete; [apply Hall|done|]. by rewrite bytes_ltb_snoc_zero, Ha.
  - eexists. split; [done|]. split; [apply fj_range_sorted|]. split.
    + by intros k v [Hk Hc]%fj_range_sound.
    + intros Hall k v Hk _ _. apply fj_range_complete; [apply Hall|done|apply bytes_ltb_nil_r].
Qed.

(** The fjall backend's scan keeps the promise of the interface. *)
#[global] Instance Fjall_listable_laws : ListableLaws (FjallStore DB) (FjallTransaction DB WT).
Proof.
  split.
  - intros t sa p ct s k o Hin. destruct (scan_pairs t sa p ct s) as (pairs & E & _ & Hs & _).
    change (range_filter t sa p ct s) with (fjall_range_filter t sa p ct s) in Hin. rewrite E in Hin.
    apply list_elem_of_omap in Hin as ([k' v] & Hin & Hd). unfold decode_item in Hd. cbn [fst snd] in Hd.
    destruct (utf8_valid k') eqn:Eu; [|done]. destruct (Object_try_from v) eqn:Eo; [|done]. injection Hd as <- <-.
    destruct (Hs _ _ Hin) as (Hk & Hu & Ha). by exists v.
  - intros t sa p ct s. destruct (scan_pairs t sa p ct s) as (pairs & E & Hs & _).
    change (range_filter t sa p ct s) with (fjall_range_filter t sa p ct s). rewrite E.
    by apply omap_sorted; [apply decode_item_key|].
  - intros t sa p ct s k o Hall (raw & Hraw & Ho & Hu & Hp & Ha). destruct (scan_pairs t sa p ct s) as (pairs & E & _ & _ & Hc).
    change (range_filter t sa p ct s) with (fjall_range_filter t sa p ct s). rewrite E.
    apply list_elem_of_omap. exists (k, raw). split; [by apply Hc|]. unfold decode_item. cbn [fst snd]. by rewrite Hu, Ho.
Qed.
End FjallListing.

(* ------------------------------------------------------------------ *)
(** * The in-memory database's iterators *)

Import MemFjall.

Definition pair_cmp (a b : bytes * bytes) : comparison := bytes_cmp a.1 b.1.

(** The pairs of a keyspace, in key order; the outcomes let any of them fail to
    be read. *)
Definition mem_pairs (ks : bytes) (keep : bytes -> bool) (db : MemDB) : list (bytes * bytes) :=
  sort_by pair_cmp (omap (candidate ks keep) (map_to_list (mdb_kv db))).

Fixpoint with_faults {A} (l : list A) (faults : list bool) : list (result unit A) :=
  match l, faults with
  | x :: l', b :: faults' => (if b : bool then Err tt else Ok x) :: with_faults l' faults'
  | _, _ => map Ok l
  end.

#[global] Instance mem_fjall_scan : FjallScan MemDB := {|
  fj_prefix n p db := with_faults (mem_pairs n (starts_with p) db) (mdb_faults db);
  fj_range_from n from db := with_faults (mem_pairs n (fun k => negb (bytes_ltb k from)) db) (mdb_faults db)
|}.

Lemma read_ok_map {A} (l : list A) : read_ok (map (@Ok unit A) l) = l.
Proof. induction l as [|x l IH]; [done|]. change (x :: read_ok (map (@Ok unit A) l) = x :: l). by rewrite IH. Qed.

Lemma with_faults_none {A} (l : list A) : with_faults l [] = map Ok l.
Proof. by destruct l. Qed.

Lemma with_faults_sublist {A} (l : list A) : forall faults, read_ok (with_faults l faults) `sublist_of` l.
Proof.
  induction l as [|x l IH]; intros [|b faults]; rewrite ?with_faults_none, ?read_ok_map; [done..|].
  destruct b; [apply sublist_cons|apply sublist_skip]; apply IH.
Qed.

Lemma with_faults_ok {A} (l : list A) : forall faults, Forall is_ok (with_faults l faults) -> read_ok (with_faults l faults) = l.
Proof.
  induction l as [|x l IH]; intros [|b faults] Hall; rewrite ?with_faults_none, ?read_ok_map; [done..|].
  apply Forall_cons in Hall as [Hb Hall]. destruct b; [done|].
  change (x :: read_ok (with_faults l faults) = x :: l). by rewrite IH.
Qed.

Lemma elem_of_mem_pairs ks keep db k v :
  (k, v) ∈ mem_pairs ks keep db <-> mdb_kv db !! (ks, k) = Some v /\ keep k = true.
Proof.
  unfold mem_pairs. rewrite elem_of_sort_by, list_elem_of_omap. split.
  - intros ([[ks' k'] v'] & Hin & E). apply elem_of_map_to_list in Hin. unfold candidate in E. cbn [fst snd] in E.
    destruct (bool_decide_reflect (ks' = ks)) as [->|]; [|done]. simpl in E. destruct (keep k') eqn:Ek; [|done].
    by injection E as <- <-.
  - intros [Hk Hkeep]. exists ((ks, k), v). split; [by apply elem_of_map_to_list|]. unfold candidate. cbn [fst snd].
    by rewrite bool_decide_true, Hkeep.
Qed.

Lemma candidates_once ks keep (l : list ((bytes * bytes) * bytes)) : NoDup l.*1 -> NoDup (omap (candidate ks keep) l).*1.
Proof.
  induction l as [|p l IH]; simpl; [constructor|]. intros [Hp Hl]%NoDup_cons. destruct (candidate ks keep p) as [kv|] eqn:E; [|auto].
  apply NoDup_cons. split; [|auto]. intros ([k v] & Ek & (p' & Hp' & E')%list_elem_of_omap)%list_elem_of_fmap.
  apply Hp, list_elem_of_fmap. exists p'. split; [|done]. unfold candidate in *.
  destruct (bool_decide_reflect (p.1.1 = ks)), (bool_decide_reflect (p'.1.1 = ks)); try done. simpl in *.
  destruct (keep p.1.2), (keep p'.1.2); try done. destruct p as [[? ?] ?], p' as [[? ?] ?]. simpl in *. by simplify_eq.
Qed.

(** Sorted and without repetitions is strictly sorted. *)
Lemma strictly_sorted {A} (l : list (bytes * A)) :
  StronglySorted (le_by bytes_cmp) (map fst l) -> NoDup l.*1 -> key_sorted l.
Proof.
  induction l as [|x l IH]; simpl; [constructor|]. intros [Hs Hx]%StronglySorted_inv [Hn Hl]%NoDup_cons.
  constructor; [auto|]. apply Forall_forall. intros y Hy. rewrite Forall_forall in Hx.
  assert (y.1 ∈ l.*1) as Hy1 by (by apply list_elem_of_fmap_2).
  specialize (Hx _ Hy1). unfold le_by, bytes_cmp in Hx. destruct (bytes_ltb x.1 y.1) eqn:E; [done|].
  destruct (bytes_ltb y.1 x.1) eqn:E2; [done|]. by rewrite (bytes_ltb_total _ _ E E2) in Hn.
Qed.

Lemma mem_pairs_sorted ks keep db : key_sorted (mem_pairs ks keep db).
Proof.
  apply strictly_sorted.
  - by apply (sort_by_sorted fst bytes_cmp pair_cmp).
  - unfold mem_pairs. rewrite sort_by_perm. apply candidates_once, NoDup_fst_map_to_list.
Qed.

Lemma sublist_sorted {A} (l l' : list (bytes * A)) : l `sublist_of` l' -> key_sorted l' -> key_sorted l.
Proof.
  induction 1 as [|x l l' Hl IH|x l l' Hl IH]; intros Hs; [constructor|..]; apply StronglySorted_inv in Hs as [Hs Hx]; [|auto].
  constructor; [auto|]. eapply Forall_forall. intros y Hy. rewrite Forall_forall in Hx. apply Hx. by eapply elem_of_sublist.
Qed.

#[global] Instance mem_fjall_scan_laws : FjallScanLaws MemDB MemTx.
Proof.
  assert (forall l faults (x : bytes * bytes), x ∈ read_ok (with_faults l faults) -> x ∈ l) as Hin.
  { intros l faults x Hx. eapply elem_of_sublist; [exact Hx|apply with_faults_sublist]. }
  assert (forall l faults, key_sorted l -> key_sorted (read_ok (with_faults (A := bytes * bytes) l faults))) as Hsort.
  { intros l faults Hl. eapply sublist_sorted; [apply with_faults_sublist|done]. }
  split; intros n p db.
  - by intros k v Hx%Hin%elem_of_mem_pairs.
  - apply Hsort, mem_pairs_sorted.
  - intros k v Hall Hk Hp. cbn [fj_prefix fj_range_from mem_fjall_scan] in Hall |- *. rewrite with_faults_ok by done. by apply elem_of_mem_pairs.
  - intros k v Hx%Hin%elem_of_mem_pairs. by rewrite negb_true_iff in Hx.
  - apply Hsort, mem_pairs_sorted.
  - intros k v Hall Hk Hp. cbn [fj_prefix fj_range_from mem_fjall_scan] in Hall |- *. rewrite with_faults_ok by done. apply elem_of_mem_pairs. by rewrite Hp.
Qed.
