(* ===== verification/Listing.v ===== *)
(** Listing a bucket (s3cas/src/api/listing.rs): pages of objects and of keys
    rolled up at a delimiter, the continuation token, and the two handlers.

    The state is the engine's [World]; the scan of a bucket is the interface
    of Scan.v.  Fields of an answer that repeat the request are left out. *)

From S2P Require Import Prelude Bytes Externals BlockIds Codec Records MetaStore Disk MetaOps Engine Uploads Scan.
From Stdlib Require Import Strings.Byte.
Local Open Scope Z_scope.

Definition MAX_KEYS : Z := 1000.

(** [s3s::dto::Object] *)
Record ObjectDto : Type := mkObjectDto {
  od_key : bytes;
  od_e_tag : bytes;
  od_last_modified : Z;
  od_size : Z
}.

Definition object_dto `{FasterHex} (key : bytes) (obj : Object) : ObjectDto :=
  mkObjectDto key (format_e_tag obj) (o_ctime obj) (as_i64 (o_size obj)).

Record DelimitedPage : Type := mkDelimitedPage {
  dp_objects : list ObjectDto;
  dp_common_prefixes : list bytes;
  dp_truncated : bool;
  dp_resume_after : option bytes
}.

(** [str::find]: the first position of a text in another. *)
Fixpoint find_text (needle hay : bytes) : option nat :=
  if starts_with needle hay then Some 0%nat else
  match hay with
  | [] => None
  | _ :: hay' => pos ← find_text needle hay'; Some (S pos)
  end.

(** The prefix a key is rolled up into, if any. *)
Definition rolled (prefix delimiter key : bytes) : option bytes :=
  let rest := if starts_with prefix key then drop (length prefix) key else key in
  pos ← find_text delimiter rest; Some (prefix ++ take (pos + length delimiter) rest).

Section Pages.
Context `{FasterHex}.
Variables (prefix delimiter : bytes) (page_size : nat).

Definition in_group (group : option bytes) (key : bytes) : bool :=
  match group with Some g => starts_with g key | None => false end.

(** The loop of [collect_delimited_page]; [items] counts the objects and
    prefixes of the page so far. *)
Fixpoint collect_from (items : nat) (group : option bytes) (page : DelimitedPage) (rows : list (bytes * Object)) : DelimitedPage :=
  match rows with
  | [] => page
  | (key, obj) :: rows' =>
      if in_group group key then
        collect_from items group
          (mkDelimitedPage (dp_objects page) (dp_common_prefixes page) (dp_truncated page) (Some key)) rows'
      else if (items =? page_size)%nat then
        mkDelimitedPage (dp_objects page) (dp_common_prefixes page) true (dp_resume_after page)
      else
        match rolled prefix delimiter key with
        | Some g =>
            collect_from (S items) (Some g)
              (mkDelimitedPage (dp_objects page) (dp_common_prefixes page ++ [g]) (dp_truncated page) (Some key)) rows'
        | None =>
            collect_from (S items) None
              (mkDelimitedPage (dp_objects page ++ [object_dto key obj]) (dp_common_prefixes page) (dp_truncated page) (Some key)) rows'
        end
  end.

Definition collect_delimited_page (rows : list (bytes * Object)) : DelimitedPage :=
  collect_from 0 None (mkDelimitedPage [] [] false None) rows.
End Pages.

(** A page of a listing without a delimiter: one row past the page is taken
    to see whether there is more. *)
Definition plain_page `{FasterHex} (page_size : nat) (rows : list (bytes * Object)) : DelimitedPage :=
  let objects := map (fun kv => object_dto kv.1 kv.2) (take (S page_size) rows) in
  let truncated := (page_size <? length objects)%nat in
  let objects := if truncated then take (length objects - 1) objects else objects in
  mkDelimitedPage objects [] truncated (if truncated then od_key <$> last objects else None).

Definition key_count (max_keys : option Z) : Z := Z.max 0 (Z.min (default MAX_KEYS max_keys) MAX_KEYS).

(** [delimiter.as_deref().filter(|d| !d.is_empty())] *)
Definition used_delimiter (delimiter : option bytes) : option bytes :=
  d ← delimiter; if decide (d = []) then None else Some d.

(** The page both handlers make of a scan. *)
Definition page_of `{FasterHex} (delimiter prefix : option bytes) (page_size : nat) (rows : list (bytes * Object)) : DelimitedPage :=
  match used_delimiter delimiter with
  | Some d => collect_delimited_page (default [] prefix) d page_size rows
  | None => plain_page page_size rows
  end.

Definition decode_continuation_token `{FasterHex} (rt : option bytes) : result S3Error (option bytes) :=
  match rt with
  | None => Ok None
  | Some rt =>
      match hex_decode rt with
      | None => Err InvalidToken
      | Some out => if utf8_valid out then Ok (Some out) else Err InvalidToken
      end
  end.

(** What a page answers, besides what it repeats of the request. *)
Record ListAnswer : Type := mkListAnswer {
  la_contents : list ObjectDto;
  la_common_prefixes : list bytes;
  la_is_truncated : bool;
  la_max_keys : Z;
  la_next : option bytes;
  la_key_count : option Z
}.

Section Handlers.
Context {S T D : Type} `{Store S T, Listable S, BlockDiskOps D, FasterHex}.
Abbreviation HM := (M (World S D) S3Error).

(** The existence check, then [get_bucket], which would create the bucket, then
    the token, then [range_filter]. *)
Definition scan_bucket (bucket : bytes) (start_after prefix : option bytes) (token : result S3Error (option bytes)) :
    HM (list (bytes * Object)) :=
  present ← try_ (on_ns EMeta (bucket_exists bucket));
  if negb (present : bool) then M_err NoSuchBucket else
  b ← try_ (on_ns EMeta (tree_open bucket));
  token ← M_lift token;
  M_run (fun w => (Ok (range_filter b start_after prefix token (w_ns w)), w)).

Definition list_objects_op (bucket : bytes) (delimiter prefix marker : option bytes) (max_keys : option Z) : HM ListAnswer :=
  let count := key_count max_keys in
  rows ← scan_bucket bucket marker prefix (Ok None);
  let page := page_of delimiter prefix (Z.to_nat count) rows in
  let next_marker := if dp_truncated page then dp_resume_after page else None in
  let answer_marker := bool_decide (is_Some delimiter) || bool_decide (is_Some marker) in
  mret (mkListAnswer (dp_objects page) (dp_common_prefixes page) (dp_truncated page) count
          (if answer_marker then next_marker else None) None).

Definition list_objects_v2_op (bucket : bytes) (delimiter prefix start_after : option bytes) (max_keys : option Z)
    (continuation_token : option bytes) : HM ListAnswer :=
  let count := key_count max_keys in
  rows ← scan_bucket bucket start_after prefix (decode_continuation_token continuation_token);
  let page := page_of delimiter prefix (Z.to_nat count) rows in
  let next_token := if dp_truncated page then hex_string <$> dp_resume_after page else None in
  mret (mkListAnswer (dp_objects page) (dp_common_prefixes page) (dp_truncated page) count next_token
          (Some (Z.of_nat (length (dp_objects page) + length (dp_common_prefixes page))))).
End Handlers.
