(* ===== verification/ListingProps.v ===== *)
(** What a listing answers: following its continuation tokens to the end shows
    every key of the bucket once, as an object or through its common prefix. *)

From S2P Require Import Prelude Bytes Orders Externals BlockIds Codec Records MetaStore Disk RealDisk Fjall MetaOps Engine BatchSpecs Uploads Sample Scan Listing.
From Stdlib Require Import Strings.Byte Sorting.
Local Open Scope Z_scope.
#[local] Set Warnings "-clear-no-such-hyp".

(* ------------------------------------------------------------------ *)
(** * Rolling up *)

(** What a listing consists of. *)
Inductive Entry : Type := EObject (o : ObjectDto) | EGroup (g : bytes).

Definition objects_of (es : list Entry) : list ObjectDto := omap (fun e => match e with EObject o => Some o | _ => None end) es.
Definition groups_of (es : list Entry) : list bytes := omap (fun e => match e with EGroup g => Some g | _ => None end) es.

Lemma find_text_at needle hay pos : find_text needle hay = Some pos ->
  exists a b, hay = a ++ needle ++ b /\ length a = pos /\
    forall a' b', hay = a' ++ needle ++ b' -> (pos <= length a')%nat.
Proof.
  revert pos. induction hay as [|x hay IH]; intros pos; cbn [find_text]; destruct (starts_with needle _) eqn:Es.
  1, 3: apply starts_with_spec in Es as [t Et]; intros [= <-]; exists [], t; split_and!; [done..|lia].
  - done.
  - destruct (find_text needle hay) as [k|] eqn:E; [|done]. intros [= <-].
    destruct (IH k eq_refl) as (a & b & -> & Hl & Hm). exists (x :: a), b. split_and!; [done|simpl; lia|].
    intros [|y a'] b' Eq.
    + assert (starts_with needle (x :: a ++ needle ++ b) = true) as Hs by (rewrite Eq; apply (starts_with_app needle b')). congruence.
    + injection Eq as -> Eq. specialize (Hm a' b' Eq). simpl. lia.
Qed.

Lemma find_text_some needle hay a b : hay = a ++ needle ++ b -> is_Some (find_text needle hay).
Proof.
  intros ->. induction a as [|x a IH]; cbn [app].
  - assert (starts_with needle (needle ++ b) = true) as E by apply starts_with_app.
    destruct (needle ++ b); cbn [find_text]; rewrite E; by eexists.
  - cbn [find_text]. destruct (starts_with _ _); [by eexists|]. destruct IH as [pos ->]. by eexists.
Qed.

Section Rolling.
Variables (prefix delimiter : bytes).
Abbreviation roll := (rolled prefix delimiter).

(** A key is rolled up into [g] exactly when it lies under [g]. *)
Lemma rolled_under k g : starts_with prefix k = true -> roll k = Some g ->
  exists x, g = prefix ++ x ++ delimiter /\ starts_with g k = true /\
    forall k', starts_with prefix k' = true -> starts_with g k' = true <-> roll k' = Some g.
Proof.
  intros Hp. unfold rolled. rewrite Hp. apply starts_with_spec in Hp as [rest ->]. rewrite drop_app_length.
  destruct (find_text delimiter rest) as [pos|] eqn:E; [|done]. intros [= <-].
  destruct (find_text_at _ _ _ E) as (x & b & -> & <- & Hmin).
  assert (take (length x + length delimiter) (x ++ delimiter ++ b) = x ++ delimiter) as Et.
  { rewrite <- length_app, app_assoc. apply take_app_length. }
  rewrite Et. exists x. split; [done|]. split.
  { apply starts_with_spec. exists b. by rewrite <- !app_assoc. }
  intros k' Hp'. rewrite Hp'. apply starts_with_spec in Hp' as [rest' ->]. rewrite drop_app_length. split.
  - intros [t Ht]%starts_with_spec. rewrite <- !app_assoc in Ht. apply app_inv_head in Ht as ->.
    destruct (find_text_some delimiter (x ++ delimiter ++ t) x t eq_refl) as [pos Ep]. rewrite Ep. cbn.
    destruct (find_text_at _ _ _ Ep) as (a' & b' & Eq & <- & Hm'). specialize (Hm' x t eq_refl).
    (* an earlier occurrence would be one of the first key too *)
    assert (length a' = length x) as Hl.
    { assert (x ++ delimiter ++ b = a' ++ delimiter ++ drop (length a' + length delimiter) (x ++ delimiter ++ b)) as Eq2.
      { etrans; [symmetry; apply (take_drop (length a' + length delimiter))|]. rewrite (app_assoc a' delimiter). f_equal.
        transitivity (take (length a' + length delimiter) (x ++ delimiter ++ t)).
        - rewrite !(app_assoc x), (take_app_le _ b), (take_app_le _ t) by (rewrite length_app; lia). done.
        - rewrite Eq, <- length_app, app_assoc. apply take_app_length. }
      specialize (Hmin _ _ Eq2). lia. }
    rewrite Hl. f_equal. f_equal. rewrite <- length_app, app_assoc. apply take_app_length.
  - destruct (find_text delimiter rest') as [pos'|] eqn:E'; [|done]. intros [= Hg].
    apply starts_with_spec. rewrite <- Hg. exists (drop (pos' + length delimiter) rest'). by rewrite <- app_assoc, take_drop.
Qed.

Lemma rolled_group k k' g : starts_with prefix k = true -> starts_with prefix k' = true -> roll k = Some g ->
  in_group (Some g) k' = true <-> roll k' = Some g.
Proof. intros Hp Hp' Hr. destruct (rolled_under k g Hp Hr) as (x & _ & _ & H). by apply H. Qed.

(* ------------------------------------------------------------------ *)
(** * The entries of a listing *)

Context `{FasterHex}.

(** All entries of a listing, of which a page shows the next few; [group] is
    the prefix just rolled up. *)
Fixpoint entries (group : option bytes) (rows : list (bytes * Object)) : list Entry :=
  match rows with
  | [] => []
  | (k, o) :: rows' =>
      if in_group group k then entries group rows' else
      match roll k with
      | Some g => EGroup g :: entries (Some g) rows'
      | None => EObject (object_dto k o) :: entries None rows'
      end
  end.

(** A group some key was rolled up into. *)
Definition is_group (group : option bytes) : Prop :=
  forall g, group = Some g -> exists k, starts_with prefix k = true /\ roll k = Some g.

Abbreviation all_under := (Forall (fun kv : bytes * Object => starts_with prefix kv.1 = true)).

Lemma is_group_some k g : starts_with prefix k = true -> roll k = Some g -> is_group (Some g).
Proof. intros Hp Hr g' [= <-]. by exists k. Qed.

Lemma group_rolled group k : is_group group -> starts_with prefix k = true -> in_group group k = true -> exists g, group = Some g /\ roll k = Some g.
Proof.
  destruct group as [g|]; [|done]. intros Hg Hp Hi. exists g. split; [done|]. destruct (Hg g eq_refl) as (k0 & Hp0 & Hr0).
  by apply (rolled_group k0 k g).
Qed.

Lemma entries_sound rows : forall group, all_under rows -> is_group group -> forall x, x ∈ entries group rows ->
  exists k o, (k, o) ∈ rows /\ x = match roll k with Some g => EGroup g | None => EObject (object_dto k o) end.
Proof.
  induction rows as [|[k o] rows IH]; intros group Hp Hg x; cbn [entries]; [by intros ?%not_elem_of_nil|].
  apply Forall_cons in Hp as [Hk Hp]. cbn [fst] in Hk.
  assert (forall grp, is_group grp -> x ∈ entries grp rows -> exists k' o', (k', o') ∈ (k, o) :: rows /\
    x = match roll k' with Some g => EGroup g | None => EObject (object_dto k' o') end) as Hrest.
  { intros grp Hgr Hx. destruct (IH grp Hp Hgr x Hx) as (k' & o' & Hin & Ex). exists k', o'. split; [by right|done]. }
  destruct (in_group group k); [by apply Hrest|].
  destruct (roll k) as [g|] eqn:Er; intros [->|Hx]%elem_of_cons.
  - exists k, o. rewrite Er. split; [by left|done].
  - apply (Hrest (Some g)); [by apply (is_group_some k)|done].
  - exists k, o. rewrite Er. split; [by left|done].
  - by apply (Hrest None).
Qed.

Lemma entries_complete rows : forall group, all_under rows -> is_group group -> forall k o, (k, o) ∈ rows ->
  match roll k with Some g => group = Some g \/ EGroup g ∈ entries group rows | None => EObject (object_dto k o) ∈ entries group rows end.
Proof.
  induction rows as [|[k0 o0] rows IH]; intros group Hp Hg k o; cbn [entries]; [by intros ?%not_elem_of_nil|].
  apply Forall_cons in Hp as [Hk Hp]. cbn [fst] in Hk. intros Hin.
  destruct (in_group group k0) eqn:Ei.
  { apply elem_of_cons in Hin as [[= -> ->]|Hin]; [|by apply IH].
    destruct (group_rolled _ _ Hg Hk Ei) as (g & -> & ->). by left. }
  destruct (roll k0) as [g0|] eqn:Er.
  - apply elem_of_cons in Hin as [[= -> ->]|Hin]; [rewrite Er; right; by left|].
    specialize (IH (Some g0) Hp (is_group_some k0 g0 Hk Er) k o Hin). destruct (roll k) as [g|]; [|by right].
    right. destruct IH as [[= <-]|?]; [by left|by right].
  - apply elem_of_cons in Hin as [[= -> ->]|Hin]; [rewrite Er; by left|].
    specialize (IH None Hp ltac:(done) k o Hin). destruct (roll k) as [g|]; [|by right].
    right. destruct IH as [?|?]; [done|by right].
Qed.

Lemma entries_objects rows : forall group, objects_of (entries group rows) `sublist_of` map (fun kv => object_dto kv.1 kv.2) rows.
Proof.
  induction rows as [|[k o] rows IH]; intros group; cbn [entries map]; [done|].
  destruct (in_group group k); [by apply sublist_cons|]. destruct (roll k).
  - apply sublist_cons. apply (IH (Some _)).
  - apply (sublist_skip (object_dto k o)), IH.
Qed.

Lemma elem_of_groups g es : g ∈ groups_of es <-> EGroup g ∈ es.
Proof.
  unfold groups_of. rewrite list_elem_of_omap. split; [|intros Hin; by exists (EGroup g)].
  intros ([o|g'] & Hin & E); [done|]. by injection E as ->.
Qed.

Lemma elem_of_objects d es : d ∈ objects_of es <-> EObject d ∈ es.
Proof.
  unfold objects_of. rewrite list_elem_of_omap. split; [|intros Hin; by exists (EObject d)].
  intros ([o|g'] & Hin & E); [|done]. by injection E as ->.
Qed.

(** Keys come in order: behind a key outside a group no key lies in it. *)
Lemma group_left rows grp k g : all_under rows -> is_group grp -> Forall (fun kv => bytes_ltb k kv.1 = true) rows ->
  bytes_ltb k g = false -> starts_with g k = false -> g ∉ groups_of (entries grp rows).
Proof.
  intros Hp Hg Hx Hlow Hns (k' & o' & Hin & E)%elem_of_groups%(entries_sound _ _ Hp Hg).
  destruct (roll k') as [g'|] eqn:Er; [|done]. injection E as <-. rewrite Forall_forall in Hp, Hx.
  destruct (rolled_under k' g (Hp _ Hin) Er) as (x & _ & Hs & _). 
  rewrite (prefix_interval g k k' Hs Hlow (Hx _ Hin)) in Hns. done.
Qed.

Lemma entries_groups rows : forall group, all_under rows -> key_sorted rows -> is_group group ->
  (forall g, group = Some g -> Forall (fun kv : bytes * Object => bytes_ltb kv.1 g = false) rows) ->
  NoDup (groups_of (entries group rows)) /\ forall g, group = Some g -> g ∉ groups_of (entries group rows).
Proof.
  induction rows as [|[k o] rows IH]; intros group Hp Hs Hg Hlow; cbn [entries].
  { split; [constructor|]. intros g _. apply not_elem_of_nil. }
  apply Forall_cons in Hp as [Hk Hp]. cbn [fst] in Hk. apply StronglySorted_inv in Hs as [Hs Hx].
  destruct (in_group group k) eqn:Ei.
  { apply IH; [done..|]. intros g Eg. specialize (Hlow g Eg). by apply Forall_cons in Hlow as [_ ?]. }
  assert (forall g, group = Some g -> bytes_ltb k g = false /\ starts_with g k = false) as Hout.
  { intros g Eg. specialize (Hlow g Eg). apply Forall_cons in Hlow as [? _]. by rewrite Eg in Ei. }
  destruct (roll k) as [g0|] eqn:Er.
  - pose proof (is_group_some k g0 Hk Er) as Hg0. destruct (rolled_under k g0 Hk Er) as (x & _ & Hst & _).
    destruct (IH (Some g0) Hp Hs Hg0) as [Hn Hnot].
    { intros g [= <-]. eapply Forall_impl; [exact Hx|]. intros kv Hkv. cbn [fst] in Hkv.
      destruct (bytes_ltb kv.1 g0) eqn:E; [|done]. rewrite <- (prefix_le g0 k Hst). symmetry. by eapply bytes_ltb_trans. }
    change (groups_of (EGroup g0 :: entries (Some g0) rows)) with (g0 :: groups_of (entries (Some g0) rows)).
    split; [apply NoDup_cons; split; [by apply Hnot|done]|]. intros g Eg. destruct (Hout g Eg) as [Hl Hns].
    apply not_elem_of_cons. split; [intros ->; congruence|]. by apply (group_left rows (Some g0) k g).
  - destruct (IH None Hp Hs ltac:(done) ltac:(done)) as [Hn _].
    change (groups_of (EObject (object_dto k o) :: entries None rows)) with (groups_of (entries None rows)).
    split; [done|]. intros g Eg. destruct (Hout g Eg) as [Hl Hns]. by apply (group_left rows None k g).
Qed.

Lemma collect_from_spec n rows : forall items group page,
  (items <= n)%nat -> dp_truncated page = false ->
  let page' := collect_from prefix delimiter n items group page rows in
  let es := entries group rows in
  dp_objects page' = dp_objects page ++ objects_of (take (n - items) es) /\
  dp_common_prefixes page' = dp_common_prefixes page ++ groups_of (take (n - items) es) /\
  dp_truncated page' = (n - items <? length es)%nat /\
  ((n - items < length es)%nat ->
     (exists before k o rest, rows = before ++ (k, o) :: rest /\ dp_resume_after page' = Some k /\ entries None rest = drop (n - items) es) \/
     (dp_resume_after page' = dp_resume_after page /\ entries None rows = drop (n - items) es)).
Proof.
  induction rows as [|[k o] rows IH]; intros items group page Hi Ht; cbn [collect_from entries].
  { cbv zeta. rewrite Ht, take_nil, !app_nil_r. split_and!; [done..|simpl; lia]. }
  destruct (in_group group k) eqn:Eg.
  { destruct (IH items group (mkDelimitedPage (dp_objects page) (dp_common_prefixes page) (dp_truncated page) (Some k)) Hi Ht) as (H1 & H2 & H3 & H4).
    split_and!; [done..|]. intros Hl. left. destruct (H4 Hl) as [(bf & k' & o' & rest & -> & Hr & He)|[Hr He]].
    - by exists ((k, o) :: bf), k', o', rest.
    - by exists [], k, o, rows. }
  destruct (Nat.eqb_spec items n) as [->|Hne].
  { cbv zeta. cbn [dp_objects dp_common_prefixes dp_truncated dp_resume_after]. rewrite Nat.sub_diag, !app_nil_r, drop_0.
    split_and!; [done..| |].
    - symmetry. apply Nat.ltb_lt. destruct (roll k); simpl; lia.
    - intros _. right. split; [done|]. cbn [in_group]. by destruct (roll k). }
  assert (n - items = S (n - S items))%nat as E by lia. rewrite E.
  destruct (roll k) as [g|] eqn:Er.
  - destruct (IH (S items) (Some g) (mkDelimitedPage (dp_objects page) (dp_common_prefixes page ++ [g]) (dp_truncated page) (Some k)) ltac:(lia) Ht) as (H1 & H2 & H3 & H4).
    cbv zeta. rewrite H1, H2, H3. cbn [dp_objects dp_common_prefixes take drop length]. split_and!; [done|by rewrite <- app_assoc|done|].
    intros Hl. left. destruct H4 as [(bf & k' & o' & rest & -> & Hr & He)|[Hr He]]; [lia| |].
    + by exists ((k, o) :: bf), k', o', rest.
    + by exists [], k, o, rows.
  - destruct (IH (S items) None (mkDelimitedPage (dp_objects page ++ [object_dto k o]) (dp_common_prefixes page) (dp_truncated page) (Some k)) ltac:(lia) Ht) as (H1 & H2 & H3 & H4).
    cbv zeta. rewrite H1, H2, H3. cbn [dp_objects dp_common_prefixes take drop length]. split_and!; [by rewrite <- app_assoc|done|done|].
    intros Hl. left. destruct H4 as [(bf & k' & o' & rest & -> & Hr & He)|[Hr He]]; [lia| |].
    + by exists ((k, o) :: bf), k', o', rest.
    + by exists [], k, o, rows.
Qed.
End Rolling.

(* ------------------------------------------------------------------ *)
(** * Pages *)

Section Pages.
Context `{FasterHex}.
Variables (delimiter prefix : option bytes).

(** The whole listing of a scan. *)
Definition listing (rows : list (bytes * Object)) : list Entry :=
  match used_delimiter delimiter with
  | Some d => entries (default [] prefix) d None rows
  | None => map (fun kv => EObject (object_dto kv.1 kv.2)) rows
  end.

Lemma objects_of_objects (rows : list (bytes * Object)) :
  objects_of (map (fun kv => EObject (object_dto kv.1 kv.2)) rows) = map (fun kv => object_dto kv.1 kv.2) rows.
Proof. induction rows as [|kv rows IH]; [done|]. change (object_dto kv.1 kv.2 :: objects_of (map (fun kv => EObject (object_dto kv.1 kv.2)) rows) = object_dto kv.1 kv.2 :: map (fun kv => object_dto kv.1 kv.2) rows). by rewrite IH. Qed.

Lemma groups_of_objects (rows : list (bytes * Object)) :
  groups_of (map (fun kv => EObject (object_dto kv.1 kv.2)) rows) = [].
Proof. by induction rows. Qed.

(** A page shows the next entries of the listing, says whether there are more,
    and names a row behind which the listing goes on with them. *)
Lemma page_of_spec n rows : (1 <= n)%nat ->
  let page := page_of delimiter prefix n rows in
  let es := listing rows in
  dp_objects page = objects_of (take n es) /\
  dp_common_prefixes page = groups_of (take n es) /\
  dp_truncated page = (n <? length es)%nat /\
  ((n < length es)%nat -> exists before k o rest, rows = before ++ (k, o) :: rest /\ dp_resume_after page = Some k /\ listing rest = drop n es).
Proof.
  intros Hn. unfold page_of, listing. destruct (used_delimiter delimiter) as [d|].
  - unfold collect_delimited_page.
    destruct (collect_from_spec (default [] prefix) d n rows 0 None (mkDelimitedPage [] [] false None) ltac:(lia) eq_refl) as (H1 & H2 & H3 & H4).
    rewrite Nat.sub_0_r in *. cbv zeta. split_and!; [done..|]. intros Hl. destruct (H4 Hl) as [?|[_ He]]; [done|].
    apply (f_equal length) in He. rewrite length_drop in He. lia.
  - unfold plain_page. cbn [dp_objects dp_common_prefixes dp_truncated dp_resume_after]. cbv zeta.
    rewrite !firstn_map, groups_of_objects, objects_of_objects, !length_map, length_take.
    destruct (Nat.ltb_spec n (Nat.min (S n) (length rows))) as [Hl|Hl].
    + assert ((n <? length rows)%nat = true) as -> by (apply Nat.ltb_lt; lia).
      replace (Nat.min (S n) (length rows) - 1)%nat with n by lia. rewrite take_take, Nat.min_l by lia.
      split_and!; [done..|]. intros _.
      destruct (lookup_lt_is_Some_2 rows (n - 1)%nat) as [[k o] Hk]; [lia|].
      exists (take (n - 1) rows), k, o, (drop n rows). split; [|split].
      * rewrite <- (take_drop_middle rows (n - 1) (k, o) Hk) at 1. do 3 f_equal. lia.
      * assert (take n rows = take (n - 1) rows ++ [(k, o)]) as ->.
        { replace n with (S (n - 1)) at 1 by lia. by apply take_S_r. }
        rewrite map_app. cbn [map]. by rewrite last_snoc.
      * by rewrite skipn_map.
    + assert ((n <? length rows)%nat = false) as -> by (apply Nat.ltb_ge; lia).
      rewrite !take_ge by lia. split_and!; [done..|]. lia.
Qed.
End Pages.

(* ------------------------------------------------------------------ *)
(** * A client that follows the tokens *)

Lemma key_sorted_unique (l l' : list (bytes * Object)) :
  key_sorted l -> key_sorted l' -> (forall kv, kv ∈ l <-> kv ∈ l') -> l = l'.
Proof.
  intros Hl Hl' He.
  assert (forall l : list (bytes * Object), key_sorted l -> NoDup l) as Hnd.
  { induction 1 as [|x k Hs IH Hx]; constructor; [|done]. intros Hin. rewrite Forall_forall in Hx. specialize (Hx _ Hin).
    by rewrite bytes_ltb_irrefl in Hx. }
  apply (StronglySorted_unique_strong (fun a b : bytes * Object => bytes_ltb a.1 b.1 = true)); [|done..|].
  - intros a b _ _ Hab Hba. by rewrite (bytes_ltb_asym _ _ Hab) in Hba.
  - apply NoDup_Permutation; auto.
Qed.

(** Objects shown in the order of the rows are shown in key order. *)
Lemma sublist_dto_sorted `{FasterHex} (l : list ObjectDto) (rows : list (bytes * Object)) :
  l `sublist_of` map (fun kv => object_dto kv.1 kv.2) rows -> key_sorted rows ->
  StronglySorted (fun a b => bytes_ltb (od_key a) (od_key b) = true) l.
Proof.
  intros Hl Hs. assert (StronglySorted (fun a b => bytes_ltb (od_key a) (od_key b) = true) (map (fun kv : bytes * Object => object_dto kv.1 kv.2) rows)) as Hall.
  { clear Hl. induction Hs as [|x k Hs IH Hx]; simpl; constructor; [done|]. apply Forall_forall. intros y (kv & -> & Hin)%list_elem_of_fmap.
    rewrite Forall_forall in Hx. by apply (Hx kv). }
  clear Hs. induction Hl as [|x l l' Hl IH|x l l' Hl IH]; [constructor|..]; apply StronglySorted_inv in Hall as [Hs Hx]; [|auto].
  constructor; [auto|]. apply Forall_forall. intros y Hy. rewrite Forall_forall in Hx. apply Hx. by eapply elem_of_sublist.
Qed.

Section Client.
Context {S T D : Type} `{StoreLaws S T, !Listable S, !ListableLaws S T, BlockDiskOps D, FasterHexLaws}.
Abbreviation HM := (M (World S D) S3Error).
Variables (bucket : bytes) (delimiter prefix start_after : option bytes) (max_keys : option Z).

(** The listing, page by page; [None] is a page that says there is more and
    not where, or the end of the fuel. *)
Fixpoint list_all (fuel : nat) (token : option bytes) : HM (option (list ObjectDto * list bytes)) :=
  match fuel with
  | O => mret None
  | Datatypes.S fuel' =>
      page ← list_objects_v2_op bucket delimiter prefix start_after max_keys token;
      if la_is_truncated page then
        match la_next page with
        | None => mret None
        | Some token' =>
            rest ← list_all fuel' (Some token');
            mret ((fun r => (la_contents page ++ r.1, la_common_prefixes page ++ r.2)) <$> rest)
        end
      else mret (Some (la_contents page, la_common_prefixes page))
  end.

(** A backend that reads every pair of the bucket, and goes on doing so. *)
Record healthy_backend (healthy : S -> Prop) : Prop := mkHealthy {
  hb_reads s : healthy s -> reads_all bucket s;
  hb_exists s : healthy s -> wp (tree_exists bucket) s (fun _ s' => healthy s');
  hb_open s : healthy s -> wp (tree_open bucket) s (fun _ s' => healthy s')
}.

(** The prefix a listing rolls a key up into. *)
Definition rolled_up (k : bytes) : option bytes :=
  d ← used_delimiter delimiter; rolled (default [] prefix) d k.

Section Healthy.
Context (healthy : S -> Prop) (Hh : healthy_backend healthy).
Variable m : kvmap.

Definition ready (w : World S D) : Prop := healthy (w_ns w) /\ kv (w_ns w) = m.
Definition only_reads (w w' : World S D) : Prop :=
  kv (w_ns w') = kv (w_ns w) /\ w_shared w' = w_shared w /\ w_disk w' = w_disk w /\ w_counters w' = w_counters w.

Lemma wp_try_ns {A} (q : M S MetaError A) (w : World S D) Q :
  wp q (w_ns w) (fun r s' => Q (map_err InternalError (map_err EMeta r)) (mkWorld s' (w_shared w) (w_disk w) (w_counters w))) ->
  wp (try_ (on_ns EMeta q)) w Q.
Proof. unfold wp, try_, on_ns. by destruct (q (w_ns w)). Qed.

Lemma wp_both {St E A} (q : M St E A) s (P Q : result E A -> St -> Prop) :
  wp q s P -> wp q s Q -> wp q s (fun r s' => P r s' /\ Q r s').
Proof. by unfold wp. Qed.

Lemma scan_bucket_spec token (w : World S D) : ready w ->
  wp (scan_bucket bucket start_after prefix token) w (fun r w' =>
    ready w' /\ only_reads w w' /\
    match r with
    | Ok rows => exists after, token = Ok after /\ rows = range_filter bucket start_after prefix after (w_ns w')
    | Err _ => True
    end).
Proof.
  intros [Hw Hm]. unfold scan_bucket, bucket_exists.
  apply wp_bind, wp_try_ns. eapply wp_mono; [apply wp_both; [apply tree_exists_spec|by apply (hb_exists healthy Hh)]|].
  intros r s1 [Hk1 Hh1]. set (w1 := mkWorld s1 _ _ _).
  assert (ready w1 /\ only_reads w w1) as [Hr1 Ho1] by (split; (split; [done|]); [cbn; congruence|done]).
  destruct r as [[|]|e]; cbn [map_err negb]; [|by apply wp_err|done].
  apply wp_bind, wp_try_ns. eapply wp_mono; [apply wp_both; [apply tree_open_spec|by apply (hb_open healthy Hh)]|].
  intros r s2 [[Hk2 Ht] Hh2]. cbn [w_ns w1] in *. set (w2 := mkWorld s2 _ _ _).
  assert (ready w2 /\ only_reads w w2) as [Hr2 Ho2].
  { split; (split; [done||cbn; congruence|]); [cbn; congruence|done]. }
  destruct r as [t|e]; cbn [map_err]; [subst t|done].
  apply wp_bind, wp_lift. destruct token as [after|e]; [|done]. unfold wp, M_run. cbn [fst snd]. split; [done|]. split; [done|]. by exists after.
Qed.

(** The rows of the whole listing, and what any later scan sees of them. *)
Definition whole (rows : list (bytes * Object)) : Prop :=
  key_sorted rows /\ forall k o, (k, o) ∈ rows <-> listed m bucket start_after prefix k o.

Lemma scan_whole s : healthy s -> kv s = m -> whole (range_filter bucket start_after prefix None s).
Proof.
  intros Hs Hk. split; [apply range_filter_sorted|]. intros k o. rewrite <- Hk. split.
  - apply (range_filter_sound bucket start_after prefix None).
  - by apply (range_filter_complete bucket start_after prefix None), (hb_reads healthy Hh).
Qed.

Lemma elem_of_later (pre : list (bytes * Object)) k o rest : key_sorted (pre ++ (k, o) :: rest) ->
  forall kv, kv ∈ rest <-> kv ∈ pre ++ (k, o) :: rest /\ bytes_ltb k kv.1 = true.
Proof.
  induction pre as [|x pre IH]; cbn [app]; intros [Hs Hx]%StronglySorted_inv kv; rewrite Forall_forall in Hx.
  - rewrite elem_of_cons. split; [intros Hin; split; [by right|by apply Hx]|]. intros [[->|?] Hlt]; [|done].
    by rewrite bytes_ltb_irrefl in Hlt.
  - rewrite (IH Hs kv), elem_of_cons. split; [intros [? ?]; auto|]. intros [[->|?] Hlt]; [|done].
    assert (bytes_ltb x.1 k = true) as Hxk by (apply (Hx (k, o)), elem_of_app; right; by left).
    by rewrite (bytes_ltb_asym _ _ Hlt) in Hxk.
Qed.

Lemma scan_later s pre k o rest : healthy s -> kv s = m -> whole (pre ++ (k, o) :: rest) ->
  range_filter bucket start_after prefix (Some k) s = rest.
Proof.
  intros Hs Hk [Hsort Hall].
  assert (listed m bucket start_after prefix k o) as (raw & _ & _ & _ & _ & Hab) by (apply Hall, elem_of_app; right; by left).
  assert (start_key (Some k) start_after = Some k) as Est.
  { unfold start_key. destruct start_after as [c|]; [|done]. cbn in Hab. by rewrite (bytes_ltb_asym _ _ Hab). }
  assert (forall k' o', listed m bucket (Some k) prefix k' o' <-> (k', o') ∈ rest) as Hl.
  { intros k' o'. rewrite (elem_of_later pre k o rest Hsort), Hall. unfold listed, above. cbn [fst].
    split; [intros (raw' & H1' & H2' & H3' & H4' & H5')|intros [(raw' & H1' & H2' & H3' & H4' & H5') H6']; by exists raw'].
    split; [|done]. exists raw'. split_and!; try done. destruct start_after as [c|]; [|done]. by eapply bytes_ltb_trans. }
  apply key_sorted_unique; [apply range_filter_sorted| |].
  - clear -Hsort. induction pre as [|x pre IH]; cbn [app] in Hsort; apply StronglySorted_inv in Hsort as [Hs _]; auto.
  - intros [k' o'].
    pose proof (range_filter_sound bucket start_after prefix (Some k) s k' o') as Hsound.
    pose proof (range_filter_complete bucket start_after prefix (Some k) s k' o' (hb_reads healthy Hh s Hs)) as Hcomp.
    rewrite Est, Hk, Hl in Hsound, Hcomp. by split.
Qed.

(** Where a client stands: at the start, or behind a row. *)
Definition at_row (token : option bytes) (pre rows : list (bytes * Object)) : Prop :=
  (token = None /\ pre = []) \/ exists pre' k o, pre = pre' ++ [(k, o)] /\ token = Some (hex_string k).

Lemma decode_token k : utf8_valid k = true -> decode_continuation_token (Some (hex_string k)) = Ok (Some k).
Proof. intros Hk. unfold decode_continuation_token. by rewrite hex_decode_string, Hk. Qed.

Lemma scan_at token pre rows s : at_row token pre rows -> whole (pre ++ rows) -> healthy s -> kv s = m ->
  forall after, decode_continuation_token token = Ok after -> range_filter bucket start_after prefix after s = rows.
Proof.
  intros [[-> ->]|(pre' & k & o & -> & ->)] Hw Hs Hk after.
  - intros [= <-]. destruct (scan_whole s Hs Hk) as [Hs1 Hl1]. destruct Hw as [Hs2 Hl2].
    apply key_sorted_unique; [done..|]. intros [k o]. by rewrite Hl1, Hl2.
  - rewrite <- app_assoc in Hw. cbn [app] in Hw.
    assert (listed m bucket start_after prefix k o) as (raw & _ & _ & Hu & _) by (apply Hw, elem_of_app; right; by left).
    rewrite (decode_token k Hu). intros [= <-]. by eapply scan_later.
Qed.

Lemma list_all_spec (Hcount : 1 <= default MAX_KEYS max_keys) fuel : forall token pre rows (w : World S D),
  ready w -> whole (pre ++ rows) -> at_row token pre rows -> (length (listing delimiter prefix rows) < fuel)%nat ->
  wp (list_all fuel token) w (fun r w' =>
    ready w' /\ only_reads w w' /\
    match r with
    | Ok r => r = Some (objects_of (listing delimiter prefix rows), groups_of (listing delimiter prefix rows))
    | Err _ => True
    end).
Proof.
  induction fuel as [|fuel IH]; intros token pre rows w Hr Hw Hat Hf; [lia|]. cbn [list_all].
  unfold list_objects_v2_op. apply wp_bind, wp_bind. eapply wp_mono; [by apply scan_bucket_spec|].
  intros r w1 (Hr1 & Ho1 & Hrows). destruct r as [rs|e]; cbn beta iota; [|done]. destruct Hrows as (after & Ea & ->).
  rewrite (scan_at token pre rows (w_ns w1) Hat Hw (proj1 Hr1) (proj2 Hr1) after Ea).
  set (n := Z.to_nat (key_count max_keys)). assert (1 <= n)%nat as Hn by (unfold n, key_count, MAX_KEYS in *; lia).
  destruct (page_of_spec delimiter prefix n rows Hn) as (H1' & H2' & H3' & H4').
  apply wp_ret. cbn [la_is_truncated la_next la_contents la_common_prefixes]. rewrite H1', H2', H3'.
  set (es := listing delimiter prefix rows) in *. destruct (Nat.ltb_spec n (length es)) as [Hl|Hl].
  2: { apply wp_ret. by rewrite take_ge. }
  destruct (H4' Hl) as (before & k & o & rest & Erows & -> & Erest). cbn [fmap option_fmap option_map].
  apply wp_bind. assert (pre ++ rows = (pre ++ before ++ [(k, o)]) ++ rest) as Eall by (rewrite Erows, <- !app_assoc; done).
  eapply wp_mono; [apply (IH (Some (hex_string k)) (pre ++ before ++ [(k, o)]) rest w1 Hr1)|].
  - by rewrite <- Eall.
  - right. exists (pre ++ before), k, o. by rewrite <- app_assoc.
  - rewrite Erest, length_drop. lia.
  - intros r w2 (Hr2 & Ho2 & Hres). assert (only_reads w w2) as Ho.
    { destruct Ho1 as (? & ? & ? & ?), Ho2 as (? & ? & ? & ?). split_and!; congruence. }
    destruct r as [r|e]; cbn beta iota; [|done]. apply wp_ret. split; [done|]. split; [done|]. subst r.
    cbn [fmap option_fmap option_map fst snd]. rewrite Erest. unfold objects_of, groups_of. by rewrite <- !omap_app, take_drop.
Qed.
End Healthy.

Lemma listing_length rows : (length (listing delimiter prefix rows) <= length rows)%nat.
Proof.
  unfold listing. destruct (used_delimiter delimiter) as [d|]; [|by rewrite length_map].
  generalize (@None bytes). induction rows as [|[k o] rows IH]; intros group; cbn [entries]; [done|].
  destruct (in_group group k); [specialize (IH group)|destruct (rolled _ d k) as [g|]; [specialize (IH (Some g))|specialize (IH None)]]; simpl; lia.
Qed.

Lemma whole_length (m : kvmap) rows : whole m rows -> (length rows <= size m)%nat.
Proof.
  intros [Hs Hl]. assert (NoDup (map (fun kv : bytes * Object => (bucket, kv.1)) rows)) as Hnd.
  { clear Hl. induction Hs as [|x l Hs IH Hx]; simpl; constructor; [|done]. rewrite Forall_forall in Hx.
    intros (y & E & Hy)%list_elem_of_fmap. injection E as E. specialize (Hx _ Hy). by rewrite <- E, bytes_ltb_irrefl in Hx. }
  rewrite <- (length_map (fun kv : bytes * Object => (bucket, kv.1))), <- (size_list_to_set (C := gset (bytes * bytes))) by done.
  rewrite <- size_dom. apply subseteq_size. intros p (kv & -> & Hin)%elem_of_list_to_set%list_elem_of_fmap.
  destruct kv as [k o]. apply Hl in Hin as (raw & Hraw & _). apply elem_of_dom. by exists raw.
Qed.

(** What the entries of a listing are made of. *)
Lemma listing_contents rows : key_sorted rows -> Forall (fun kv : bytes * Object => under prefix kv.1) rows ->
  (forall x, x ∈ listing delimiter prefix rows <-> exists k o, (k, o) ∈ rows /\
     x = match rolled_up k with Some g => EGroup g | None => EObject (object_dto k o) end) /\
  objects_of (listing delimiter prefix rows) `sublist_of` map (fun kv => object_dto kv.1 kv.2) rows /\
  NoDup (groups_of (listing delimiter prefix rows)).
Proof.
  intros Hs Hu. unfold listing, rolled_up. destruct (used_delimiter delimiter) as [d|]; cbn [mbind option_bind].
  - assert (Forall (fun kv : bytes * Object => starts_with (default [] prefix) kv.1 = true) rows) as Hp.
    { eapply Forall_impl; [exact Hu|]. intros kv. by destruct prefix. }
    assert (is_group (default [] prefix) d None) as Hg by done.
    split; [|split; [apply entries_objects|by apply entries_groups]]. intros x. split; [by apply entries_sound|].
    intros (k & o & Hin & ->). pose proof (entries_complete (default [] prefix) d rows None Hp Hg k o Hin) as Hc.
    destruct (rolled _ d k); [by destruct Hc|done].
  - rewrite objects_of_objects, groups_of_objects. split; [|split; [done|constructor]]. intros x. split.
    + intros ([k o] & -> & Hin)%list_elem_of_fmap. by exists k, o.
    + intros (k & o & Hin & ->). apply list_elem_of_fmap. by exists (k, o).
Qed.

(** C7: A listing shows the bucket.  On a backend that reads every pair of the
    bucket, a client that asks for pages of at least one entry and follows
    each continuation token ends, without writing anything: the objects it was
    shown are exactly the records with a text key under the prefix and after
    the start key that roll up to no common prefix, each once and in key order;
    the common prefixes are exactly those of the other such records, each once.
    No page stops it on the way: a page that says there is more says where, and
    its token is one the handler accepts. *)
Theorem listing_enumerates healthy fuel (w : World S D) :
  healthy_backend healthy -> healthy (w_ns w) -> 1 <= default MAX_KEYS max_keys -> (size (kv (w_ns w)) < fuel)%nat ->
  let shown := listed (kv (w_ns w)) bucket start_after prefix in
  wp (list_all fuel None) w (fun r w' =>
    only_reads w w' /\
    match r with
    | Ok None => False
    | Ok (Some (contents, groups)) =>
        (forall d, d ∈ contents <-> exists k o, shown k o /\ rolled_up k = None /\ d = object_dto k o) /\
        StronglySorted (fun a b => bytes_ltb (od_key a) (od_key b) = true) contents /\
        (forall g, g ∈ groups <-> exists k o, shown k o /\ rolled_up k = Some g) /\ NoDup groups
    | Err _ => True
    end).
Proof.
  intros Hh Hw Hcount Hf shown. set (m := kv (w_ns w)) in *. set (rows := range_filter bucket start_after prefix None (w_ns w)).
  assert (whole m rows) as Hrows by (by apply (scan_whole healthy Hh)).
  pose proof (whole_length m rows Hrows). pose proof (listing_length rows).
  eapply wp_mono; [apply (list_all_spec healthy Hh m Hcount fuel None [] rows w); [by split|done|by left|lia]|].
  intros r w' (_ & Ho & Hr). split; [done|]. destruct r as [r|e]; [subst r|done].
  destruct Hrows as [Hs Hl].
  destruct (listing_contents rows Hs) as (Hin & Hsub & Hnd).
  { apply Forall_forall. intros [k o] (raw & _ & _ & _ & Hp & _)%Hl. exact Hp. }
  split; [|split; [|split; [|done]]].
  - intros x. rewrite elem_of_objects, Hin. split.
    + intros (k & o & Hk & E). exists k, o. split; [by apply Hl|]. destruct (rolled_up k); [done|]. by injection E.
    + intros (k & o & Hk & Er & ->). exists k, o. rewrite Er. split; [by apply Hl|done].
  - eapply sublist_dto_sorted; [exact Hsub|exact Hs].
  - intros g. rewrite elem_of_groups, Hin. split.
    + intros (k & o & Hk & E). exists k, o. split; [by apply Hl|]. destruct (rolled_up k); [by injection E as ->|done].
    + intros (k & o & Hk & Er). exists k, o. rewrite Er. split; [by apply Hl|done].
Qed.
End Client.

(* ------------------------------------------------------------------ *)
(** * A bucket listed *)

Import Concrete MemFjall.

Definition l_bucket : bytes := str "bkt".
Definition l_object (c : bytes) : Object := Object_new 7 (Z.of_nat (length c)) (mkContentHash (md5_digest c)) (Inline c).
Definition l_store : FjallStore MemDB :=
  mkFjallStore (mkMemDB (list_to_map (map (fun k => ((l_bucket, k), Object_to_vec (l_object k)))
    [str "a/1"; str "a/2"; str "b"; str "c/x/1"; str "c/y"; str "d"])) {[ l_bucket ]} []) ModeBuffer 1 ∅.
Definition l_world : World (FjallStore MemDB) Fs :=
  mkWorld l_store l_store (mkDiskState (mkFs ∅ ∅ ∅ []) ∅ 0) ∅.

Definition no_faults (s : FjallStore MemDB) : Prop := mdb_faults (fst_db s) = [].

Lemma ok_with_no_faults {A} (l : list A) : Forall is_ok (with_faults l []).
Proof. rewrite with_faults_none. by apply Forall_fmap, Forall_true. Qed.

Lemma l_healthy : healthy_backend l_bucket no_faults.
Proof.
  split; unfold no_faults.
  - intros s E x. cbn [reads_all Fjall_listable fj_prefix fj_range_from mem_fjall_scan]. rewrite E. split; apply ok_with_no_faults.
  - intros [[m ns fs] p i c] E. cbn in E. subst fs. done.
  - intros [[m ns fs] p i c] E. cbn in E. subst fs. unfold wp, tree_open. cbn [Fjall_store].
    unfold get_partition. by destruct (decide _).
Qed.

Definition l_list := list_all (D := Fs) l_bucket (Some (str "/")) None (Some (str "a")) (Some 1) 20 None.

Definition shown_keys (r : result S3Error (option (list ObjectDto * list bytes))) : option (list bytes * list bytes) :=
  match r with Ok (Some (contents, groups)) => Some (map od_key contents, groups) | _ => None end.

(** Pages of one entry, by the delimiter [/], after the key [a]. *)
Lemma listing_enumerates_witness :
  exists contents groups w', l_list l_world = (Ok (Some (contents, groups)), w') /\
    map od_key contents = [str "b"; str "d"] /\ groups = [str "a/"; str "c/"] /\ NoDup groups.
Proof.
  pose proof (listing_enumerates (D := Fs) l_bucket (Some (str "/")) None (Some (str "a")) (Some 1) no_faults 20 l_world
    l_healthy eq_refl ltac:(simpl; lia) ltac:(by apply Nat.ltb_lt)) as H.
  run_ok H r w' E. destruct H as [_ H]. destruct r as [[contents groups]|]; [|destruct H]. exists contents, groups, w'. split; [exact E|].
  assert (shown_keys (Ok (Some (contents, groups))) = Some ([str "b"; str "d"], [str "a/"; str "c/"])) as Ek.
  { apply (run_val (fun x => shown_keys x.1) _ _ _ E). vm_compute. reflexivity. }
  injection Ek as Ec Eg. split; [exact Ec|]. split; [exact Eg|apply H].
Defined.

(** A page of no entries says there is more and not where. *)
Lemma empty_page_goes_nowhere :
  match (list_objects_v2_op (D := Fs) l_bucket None None None (Some 0) None l_world).1 with
  | Ok page => la_is_truncated page = true /\ la_contents page = [] /\ la_next page = None
  | Err _ => False
  end.
Proof. vm_compute. done. Qed.
