(* ===== verification/S3Api.v ===== *)
(** The S3 handlers (s3cas/src/api.rs, api/objects.rs, api/buckets.rs and the
    two listings of api/multipart.rs): what each request checks, which calls of
    the engine it makes and what it answers.  The writing handlers of uploads
    are in Uploads.v, the bucket listings in Listing.v.

    Parameters: [Base64] is the base64 crate's decoder, [S3Range] the check of
    a request's range by the s3s crate.  Fields of an answer that repeat the
    request are left out, as are the metrics. *)

From S2P Require Import Prelude Bytes Orders Resp Externals BlockIds Codec Records MetaStore Disk BlockStream Placement MetaOps Engine Chunking Uploads Scan Listing.
From Stdlib Require Import Strings.Byte.
Local Open Scope Z_scope.

Class Base64 := { base64_decode : bytes -> option bytes }.

(** [Range::check(full_length)]: the half-open window, or [InvalidRange]. *)
Class S3Range (R : Type) := { range_check : R -> Z -> option (Z * Z) }.

(** A window it answers is not empty and lies in the object. *)
Class S3RangeLaws (R : Type) `{S3Range R} : Prop := {
  range_check_ok r n a b : range_check r n = Some (a, b) -> 0 <= a < b /\ b <= n
}.

Definition parse_content_md5 `{Base64} (header : bytes) : result S3Error bytes :=
  match base64_decode header with
  | None => Err InvalidDigest
  | Some bs => if (length bs =? 16)%nat then Ok bs else Err InvalidDigest
  end.

(** [content_md5.as_deref().map(parse_content_md5).transpose()?] *)
Definition parse_optional_md5 `{Base64} (header : option bytes) : result S3Error (option bytes) :=
  match header with
  | None => Ok None
  | Some h => match parse_content_md5 h with Ok d => Ok (Some d) | Err e => Err e end
  end.

(** [HeaderValue::to_str]: visible ASCII, spaces and tabs. *)
Definition header_to_str (value : bytes) : option bytes :=
  if forallb (fun b => ((32 <=? byte_to_Z b) && (byte_to_Z b <? 127)) || (byte_to_Z b =? 9)) value then Some value else None.

Definition decoded_content_length (header : option bytes) : option Z :=
  value ← header; text ← header_to_str value; parse_i64 text.

Definition fmt_content_range (start end_inclusive size : Z) : bytes :=
  str "bytes " ++ dec start ++ str "-" ++ dec end_inclusive ++ str "/" ++ dec size.

(** The body of an answer: the bytes of an inlined object, or a stream. *)
Inductive Body : Type := BodyBytes (bs : bytes) | BodyStream (s : BlockStream).

Record GetObjectOutput : Type := mkGetObjectOutput {
  go_body : Body;
  go_content_length : Z;
  go_content_range : option bytes;
  go_last_modified : Z;
  go_e_tag : bytes
}.

Record HeadObjectOutput : Type := mkHeadObjectOutput {
  ho_content_length : Z;
  ho_last_modified : Z;
  ho_e_tag : bytes
}.

Record PutObjectInput : Type := mkPutObjectInput {
  pi_storage_class : option bytes;
  pi_bucket : bytes;
  pi_key : bytes;
  pi_body : option (list (result IoError bytes));
  pi_content_length : option Z;
  pi_decoded_length_header : option bytes;
  pi_content_md5 : option bytes
}.

(** [body.try_collect().await?.into_iter().flatten().collect()] *)
Fixpoint collect_body (frames : list (result IoError bytes)) : result S3Error bytes :=
  match frames with
  | [] => Ok []
  | Err e :: _ => Err (InternalError (EIo e))
  | Ok bs :: frames' => match collect_body frames' with Ok rest => Ok (bs ++ rest) | Err e => Err e end
  end.

Section Api.
Context {S T D R : Type} `{Store S T, Listable S, BlockDiskOps D, !StdFs D, Blake3, Md5, FasterHex, Base64, S3Range R}.
Variables (cfg : StoreCfg) (block_size : nat) (inlined_metadata_size : Z) (verify_on_read : bool).
Abbreviation HM := (M (World S D) S3Error).

Definition require_bucket (bucket : bytes) : HM unit :=
  present ← try_ (on_ns EMeta (bucket_exists bucket));
  if (present : bool) then mret tt else M_err NoSuchBucket.

Definition checked_range (range : option R) (full_size : Z) : result S3Error (option (Z * Z)) :=
  match range with
  | None => Ok None
  | Some r => match range_check r full_size with Some w => Ok (Some w) | None => Err InvalidRange end
  end.

(** [paths.iter().map(|(_, size)| size).sum()], which wraps in a release
    build. *)
Definition blocks_size (paths : list (path * Z)) : Z := foldl (fun n p => wrap_u64 (n + p.2)) 0 paths.

(** The answer to a GET of an object found. *)
Definition get_inlined (obj_meta : Object) (data : bytes) (range : option R) : result S3Error GetObjectOutput :=
  let full_size := Z.of_nat (length data) in
  match checked_range range full_size with
  | Err e => Err e
  | Ok window =>
      let bytes := match window with Some (a, b) => take (Z.to_nat (b - a)) (drop (Z.to_nat a) data) | None => data end in
      Ok (mkGetObjectOutput (BodyBytes bytes) (Z.of_nat (length bytes))
            ((fun w => fmt_content_range w.1 (w.2 - 1) full_size) <$> window) (o_ctime obj_meta) (format_e_tag obj_meta))
  end.

Definition get_stored (obj_meta : Object) (paths : list (path * Z)) (range : option R) : result S3Error GetObjectOutput :=
  let full_size := o_size obj_meta in
  match checked_range range full_size with
  | Err e => Err e
  | Ok window =>
      let range_request := match window with Some (a, b) => Range a (b - 1) | None => All end in
      let stream_size := match window with Some (a, b) => b - a | None => full_size end in
      let block_stream := new_stream paths (blocks_size paths) range_request in
      let block_stream := if verify_on_read && is_all range_request
                          then verified block_stream (cfg_hasher cfg) (o_blocks obj_meta) else block_stream in
      Ok (mkGetObjectOutput (BodyStream block_stream) (as_i64 stream_size)
            ((fun w => fmt_content_range w.1 (w.2 - 1) full_size) <$> window) (o_ctime obj_meta) (format_e_tag obj_meta))
  end.

Definition get_object_op (bucket key : bytes) (range : option R) : HM GetObjectOutput :=
  _ ← require_bucket bucket;
  found ← M_try (try_ (get_object_paths cfg bucket key));
  match found with
  | Err _ => M_err ServiceUnavailable
  | Ok None => M_err NoSuchKey
  | Ok (Some (obj_meta, paths)) =>
      match o_inlined obj_meta with
      | Some data => M_lift (get_inlined obj_meta data range)
      | None => M_lift (get_stored obj_meta paths range)
      end
  end.

Definition head_object_op (bucket key : bytes) : HM HeadObjectOutput :=
  _ ← require_bucket bucket;
  found ← M_try (try_ (on_ns EMeta (get_meta bucket key)));
  match found with
  | Err _ => M_err ServiceUnavailable
  | Ok None => M_err NoSuchKey
  | Ok (Some obj_meta) =>
      mret (mkHeadObjectOutput (as_i64 (o_size obj_meta)) (o_ctime obj_meta) (format_e_tag obj_meta))
  end.

Definition valid_storage_class (c : option bytes) : bool :=
  match c with None => true | Some c => bool_decide (c = str "STANDARD" \/ c = str "REDUCED_REDUNDANCY") end.

Definition digest_matches (expected : option bytes) (digest : bytes) : bool :=
  match expected with None => true | Some m => bool_decide (digest = m) end.

(** The object stored, inlined when its declared length fits. *)
Definition put_object_op (now : Z) (input : PutObjectInput) : HM bytes :=
  let bucket := pi_bucket input in let key := pi_key input in
  if negb (valid_storage_class (pi_storage_class input)) then M_err InvalidStorageClass else
  expected_md5 ← M_lift (parse_optional_md5 (pi_content_md5 input));
  match pi_body input with
  | None => M_err IncompleteBody
  | Some body =>
      _ ← require_bucket bucket;
      match (match pi_content_length input with
             | Some n => Some n
             | None => decoded_content_length (pi_decoded_length_header input)
             end) with
      | None => M_err MissingContentLength
      | Some content_length =>
          if content_length <? 0 then M_err InvalidRequest else
          if content_length <=? max_inlined_data_length inlined_metadata_size then
            data ← M_lift (collect_body body);
            if negb (digest_matches expected_md5 (md5_digest data)) then M_err BadDigest else
            obj_meta ← try_ (store_inlined_object cfg now bucket key data);
            mret (format_e_tag obj_meta)
          else
            obj_meta ← try_ (store_single_object_and_meta cfg now bucket key (chunk_stream block_size body) content_length);
            if negb (digest_matches expected_md5 (ch_bytes (o_hash obj_meta))) then
              _ ← try_ (delete_object cfg bucket key);
              M_err BadDigest
            else mret (format_e_tag obj_meta)
      end
  end.

Definition delete_object_op (bucket key : bytes) : HM unit :=
  present ← try_ (key_exists bucket key);
  if negb (present : bool) then M_err NoSuchKey else
  _ ← try_ (delete_object cfg bucket key);
  mret tt.

(** The keys deleted; a key whose delete failed is left out of the answer. *)
Fixpoint delete_each (bucket : bytes) (keys : list bytes) (deleted : list bytes) : HM (list bytes) :=
  match keys with
  | [] => mret deleted
  | key :: keys' =>
      outcome ← M_try (try_ (delete_object cfg bucket key));
      delete_each bucket keys' (match outcome with Ok _ => deleted ++ [key] | Err _ => deleted end)
  end.

Definition delete_objects_op (bucket : bytes) (keys : list bytes) : HM (list bytes) :=
  _ ← require_bucket bucket;
  delete_each bucket keys [].

Definition copy_object_op : HM unit := M_err NotImplemented.

(* ------------------------------------------------------------------ *)
(** * Buckets *)

Definition create_bucket_op (now : Z) (bucket : bytes) : HM bytes :=
  present ← try_ (on_ns EMeta (bucket_exists bucket));
  if (present : bool) then M_err BucketAlreadyExists else
  _ ← try_ (create_bucket now bucket);
  mret (str "/" ++ bucket).

Definition delete_bucket_op (fuel : nat) (bucket : bytes) : HM unit := try_ (bucket_delete cfg fuel bucket).

Definition get_bucket_location_op (bucket : bytes) : HM unit := require_bucket bucket.
Definition head_bucket_op (bucket : bytes) : HM unit := require_bucket bucket.

(** Names and creation times. *)
Definition list_buckets_op (fuel : nat) : HM (list (bytes * Z)) :=
  buckets ← try_ (on_ns EMeta (list_buckets fuel));
  mret (map (fun b => (bm_name b, bm_ctime b)) buckets).

(* ------------------------------------------------------------------ *)
(** * Uploads and parts, listed *)

Definition MAX_PARTS : Z := 1000.
Definition MAX_UPLOADS : Z := 1000.

Record PartDto : Type := mkPartDto { pd_part_number : Z; pd_size : Z; pd_e_tag : bytes }.
Record UploadDto : Type := mkUploadDto { ud_key : bytes; ud_upload_id : bytes; ud_initiated : Z }.

Definition part_to_dto (part : MultiPart) : PartDto :=
  mkPartDto (wrap_i32 (mp_part_number part)) (as_i64 (mp_size part)) (ch_to_hex (mp_hash part)).
Definition timestamp_from_secs (secs : Z) : Z := Z.max 0 secs.
Definition upload_to_dto (record : UploadRecord) : UploadDto :=
  mkUploadDto (ur_key record) (ur_upload_id record) (timestamp_from_secs (ur_created_at record)).

(** One page of a sorted list: the entries, whether there are more, and the
    last entry if so. *)
Definition page_of_list {A} (max : Z) (l : list A) : list A * bool * option A :=
  let truncated := Z.of_nat (length l) >? max in
  let page := take (Z.to_nat max) l in
  (page, truncated, if truncated then last page else None).

Definition page_size (limit : Z) (asked : option Z) : Z := Z.max 0 (Z.min (default limit asked) limit).

Definition upload_cmp (a b : UploadRecord) : comparison :=
  then_with (bytes_cmp (ur_key a) (ur_key b)) (bytes_cmp (ur_upload_id a) (ur_upload_id b)).

(** Behind the upload the previous page ended on. *)
Definition past_marker (key_marker upload_id_marker : option bytes) (record : UploadRecord) : bool :=
  match key_marker with
  | None => true
  | Some key_marker =>
      match bytes_cmp (ur_key record) key_marker with
      | Gt => true
      | Lt => false
      | Eq => match upload_id_marker with Some m => bytes_ltb m (ur_upload_id record) | None => false end
      end
  end.

Record ListUploadsOutput : Type := mkListUploadsOutput {
  lu_uploads : list UploadDto;
  lu_next : option (bytes * bytes);
  lu_max_uploads : Z;
  lu_is_truncated : bool
}.

Definition list_multipart_uploads_op (fuel : nat) (bucket : bytes) (prefix key_marker upload_id_marker : option bytes)
    (max_uploads : option Z) : HM ListUploadsOutput :=
  _ ← require_bucket bucket;
  uploads ← try_ (list_uploads fuel);
  let uploads := List.filter (fun record => bool_decide (ur_bucket record = bucket) &&
    match prefix with Some p => starts_with p (ur_key record) | None => true end) uploads in
  let uploads := sort_by upload_cmp uploads in
  let uploads := List.filter (past_marker key_marker upload_id_marker) uploads in
  let max_uploads := page_size MAX_UPLOADS max_uploads in
  let '(page, truncated, end_of_page) := page_of_list max_uploads uploads in
  mret (mkListUploadsOutput (map upload_to_dto page)
          ((fun r => (ur_key r, ur_upload_id r)) <$> end_of_page) max_uploads truncated).

Record ListPartsOutput : Type := mkListPartsOutput {
  lp_parts : list PartDto;
  lp_next_part_number_marker : option Z;
  lp_max_parts : Z;
  lp_is_truncated : bool
}.

Definition part_cmp (a b : MultiPart) : comparison := mp_part_number a ?= mp_part_number b.

Definition list_parts_op (fuel : nat) (bucket key upload_id : bytes) (part_number_marker max_parts : option Z) : HM ListPartsOutput :=
  upload ← try_ (get_upload bucket key upload_id);
  match upload with
  | None => M_err NoSuchUpload
  | Some _ =>
      parts ← try_ (upload_parts fuel bucket key upload_id);
      let parts := sort_by part_cmp parts in
      let parts := match part_number_marker with
                   | Some marker => List.filter (fun part => mp_part_number part >? marker) parts
                   | None => parts
                   end in
      let max_parts := page_size MAX_PARTS max_parts in
      let '(page, truncated, end_of_page) := page_of_list max_parts parts in
      mret (mkListPartsOutput (map part_to_dto page) ((fun p => wrap_i32 (mp_part_number p)) <$> end_of_page) max_parts truncated)
  end.

(* ------------------------------------------------------------------ *)
(** * The service *)

(** [impl S3 for S3Cas]: the requests it answers. *)
Inductive S3Request : Type :=
| AbortMultipartUpload (bucket key upload_id : bytes)
| CompleteMultipartUpload (bucket key upload_id : bytes) (parts : option (list (option Z)))
| CopyObject
| CreateBucket (bucket : bytes)
| CreateMultipartUpload (upload_id bucket key : bytes)
| DeleteBucket (bucket : bytes)
| DeleteObject (bucket key : bytes)
| DeleteObjects (bucket : bytes) (keys : list bytes)
| GetBucketLocation (bucket : bytes)
| GetObject (bucket key : bytes) (range : option R)
| HeadBucket (bucket : bytes)
| HeadObject (bucket key : bytes)
| ListBuckets
| ListMultipartUploads (bucket : bytes) (prefix key_marker upload_id_marker : option bytes) (max_uploads : option Z)
| ListObjects (bucket : bytes) (delimiter prefix marker : option bytes) (max_keys : option Z)
| ListObjectsV2 (bucket : bytes) (delimiter prefix start_after : option bytes) (max_keys : option Z) (token : option bytes)
| ListParts (bucket key upload_id : bytes) (part_number_marker max_parts : option Z)
| PutObject (input : PutObjectInput)
| UploadPart (bucket key upload_id : bytes) (part_number : Z) (content_md5 : option bytes)
    (body : option (list (result IoError bytes))) (content_length : option Z) (decoded_length_header : option bytes).

Inductive S3Answer : Type :=
| Done
| Located (location : bytes)
| Tagged (e_tag : bytes)
| Started (upload_id : bytes)
| Deleted (keys : list bytes)
| Got (output : GetObjectOutput)
| Head (output : HeadObjectOutput)
| Buckets (buckets : list (bytes * Z))
| Uploading (output : ListUploadsOutput)
| Listed (answer : ListAnswer)
| Parts (output : ListPartsOutput)
| Unanswered (failed_reads : nat).                (* the handler is still reading *)

Definition answered {A} (f : A -> S3Answer) (m : HM A) : HM S3Answer := a ← m; mret (f a).

(** One request at the time [now]; [fuel] bounds the walks of a tree. *)
Definition serve (fuel : nat) (now : Z) (req : S3Request) : HM S3Answer :=
  match req with
  | AbortMultipartUpload b k u =>
      answered (fun r => match r with RunEnded _ => Done | RunGoing failed => Unanswered failed end)
        (abort_multipart_upload_op cfg fuel b k u)
  | CompleteMultipartUpload b k u parts => answered Tagged (complete_multipart_upload_op cfg now b k u parts)
  | CopyObject => answered (fun _ => Done) copy_object_op
  | CreateBucket b => answered Located (create_bucket_op now b)
  | CreateMultipartUpload u b k => answered Started (create_multipart_upload_op now u b k)
  | DeleteBucket b => answered (fun _ => Done) (delete_bucket_op fuel b)
  | DeleteObject b k => answered (fun _ => Done) (delete_object_op b k)
  | DeleteObjects b ks => answered Deleted (delete_objects_op b ks)
  | GetBucketLocation b => answered (fun _ => Done) (get_bucket_location_op b)
  | GetObject b k r => answered Got (get_object_op b k r)
  | HeadBucket b => answered (fun _ => Done) (head_bucket_op b)
  | HeadObject b k => answered Head (head_object_op b k)
  | ListBuckets => answered Buckets (list_buckets_op fuel)
  | ListMultipartUploads b p km um m => answered Uploading (list_multipart_uploads_op fuel b p km um m)
  | ListObjects b d p m k => answered Listed (list_objects_op b d p m k)
  | ListObjectsV2 b d p sa k t => answered Listed (list_objects_v2_op b d p sa k t)
  | ListParts b k u m mx => answered Parts (list_parts_op fuel b k u m mx)
  | PutObject input => answered Tagged (put_object_op now input)
  | UploadPart b k u n md5 body len header =>
      answered Tagged (upload_part_op cfg b k u n (parse_optional_md5 md5) (chunk_stream block_size <$> body)
        (match len with Some n => Some n | None => decoded_content_length header end))
  end.
End Api.
