(* ===== verification/S3Props.v ===== *)
(** What the S3 handlers keep and answer: every request preserves the engine's
    invariant, a GET serves the bytes of the PUT, window and headers agreeing,
    and a refused request has changed nothing. *)

From S2P Require Import Prelude Bytes Orders Resp Externals BlockIds Codec Records MetaStore Disk BlockStream Placement RealDisk Fjall MetaOps Accounting Engine BatchSpecs WriteSpecs Chunking ObjectSpecs NsAdmin Uploads UploadSpecs Sample Scan Listing S3Api.
From Stdlib Require Import Strings.Byte.
Local Open Scope Z_scope.
#[local] Set Warnings "-clear-no-such-hyp".

Create HintDb quiet.

Section Api.
Context {S T D R : Type} `{StoreLaws S T, !Listable S, DiskLaws D, HB3 : Blake3, HB3L : !Blake3Laws, Md5, FasterHexLaws, Base64, S3Range R}.
Variables (cfg : StoreCfg) (block_size : nat) (inlined_metadata_size : Z) (verify_on_read : bool).
Abbreviation HM := (M (World S D) S3Error).
Abbreviation root := (blocks_root cfg).
Implicit Types w : World S D.
Implicit Types F : BlockId -> nat.

(* ------------------------------------------------------------------ *)
(** * Requests that only read *)

(** Both databases' pairs and the disk are as they were. *)
Definition still w w' : Prop :=
  kv (w_ns w') = kv (w_ns w) /\ kv (w_shared w') = kv (w_shared w) /\ w_disk w' = w_disk w.

Lemma still_refl w : still w w.
Proof. done. Qed.

Lemma still_trans w1 w2 w3 : still w1 w2 -> still w2 w3 -> still w1 w3.
Proof. intros (H1' & H2' & H3') (H4' & H5' & H6'). split; [congruence|]. split; congruence. Qed.

Lemma still_winv w w' F : still w w' -> winv cfg w F -> winv cfg w' F.
Proof. intros (Hn & Hs & Hd). unfold winv, wfiles. by rewrite Hn, Hs, Hd. Qed.

Lemma still_budget w w' l : still w w' -> budget cfg w l -> budget cfg w' l.
Proof. intros (_ & Hs & Hd) [Hn Hz Hr]. split; [unfold wnonce in *; by rewrite Hd|done|]. by rewrite Hs. Qed.

Definition quietly {A} (m : HM A) : Prop := forall w, wp m w (fun _ w' => still w w').

Lemma quietly_ret {A} (a : A) : quietly (mret a).
Proof. intros w. by apply wp_ret. Qed.

Lemma quietly_err {A} e : quietly (M_err (A := A) e).
Proof. intros w. by apply wp_err. Qed.

Lemma quietly_lift {A} (r : result S3Error A) : quietly (M_lift r).
Proof. intros w. by apply wp_lift. Qed.

Lemma quietly_bind {A B} (m : HM A) (k : A -> HM B) : quietly m -> (forall a, quietly (k a)) -> quietly (m ≫= k).
Proof.
  intros Hm Hk w. apply wp_bind. eapply wp_mono; [apply Hm|]. intros [a|e] w1 Hs; cbn beta iota; [|done].
  eapply wp_mono; [apply Hk|]. intros r w2 Hs2. by eapply still_trans.
Qed.

Lemma quietly_try {A} (m : HM A) : quietly m -> quietly (M_try m).
Proof. intros Hm w. apply wp_try. eapply wp_mono; [apply Hm|]. by intros r w1 Hs. Qed.

Lemma quietly_ns {A} (q : M S MetaError A) : (forall s, wp q s (fun _ s' => kv s' = kv s)) -> quietly (try_ (on_ns EMeta q)).
Proof. intros Hq w. apply wp_handler, wp_on_ns. eapply wp_mono; [apply Hq|]. intros r s' Hk. by split. Qed.

Lemma quietly_shared {A} (q : M S MetaError A) : (forall s, wp q s (fun _ s' => kv s' = kv s)) -> quietly (try_ (on_shared EMeta q)).
Proof. intros Hq w. apply wp_handler, wp_on_shared. eapply wp_mono; [apply Hq|]. intros r s' Hk. split; [done|]. by split. Qed.

Lemma quietly_engine {A} (m : M (World S D) EngErr A) :
  (forall w, wp m w (fun _ w' => same_dbs w w' /\ w_disk w' = w_disk w)) -> quietly (try_ m).
Proof. intros Hm w. apply wp_handler. eapply wp_mono; [apply Hm|]. intros r w' [[Hn Hs] Hd]. by split. Qed.

#[local] Hint Resolve quietly_ret quietly_err quietly_lift quietly_bind quietly_try quietly_ns quietly_shared : quiet.

Lemma require_bucket_quiet b : quietly (require_bucket b).
Proof.
  apply quietly_bind; [apply quietly_ns; intros s; apply tree_exists_spec|]. intros [|]; auto with quiet.
Qed.

Lemma tree_get_quiet t k (s : S) : wp (tree_get t k) s (fun _ s' => kv s' = kv s).
Proof. eapply wp_mono; [apply tree_get_spec|]. by intros r s' [Hk _]. Qed.

Lemma tree_open_quiet t (s : S) : wp (tree_open t) s (fun _ s' => kv s' = kv s).
Proof. eapply wp_mono; [apply tree_open_spec|]. by intros r s' [Hk _]. Qed.

Lemma get_object_quiet b k r : quietly (get_object_op cfg verify_on_read b k r).
Proof.
  apply quietly_bind; [apply require_bucket_quiet|]. intros _. apply quietly_bind.
  - apply quietly_try, quietly_engine. intros w. eapply wp_mono; [apply get_object_paths_spec|]. by intros x w' (Hs & Hd & _).
  - intros [[[o ps]|]|e]; [|auto with quiet..]. destruct (o_inlined o); auto with quiet.
Qed.

Lemma head_object_quiet b k : quietly (head_object_op b k).
Proof.
  apply quietly_bind; [apply require_bucket_quiet|]. intros _. apply quietly_bind.
  - apply quietly_try, quietly_ns. intros s. eapply wp_mono; [apply get_meta_spec|]. by intros x s' [Hk _].
  - intros [[o|]|e]; auto with quiet.
Qed.

Lemma list_buckets_quiet fuel : quietly (list_buckets_op fuel).
Proof.
  apply quietly_bind; [|auto with quiet]. apply quietly_ns. intros s. unfold list_buckets. apply wp_bind.
  eapply wp_mono; [apply tree_open_quiet|]. intros [t|e] s1 Hk; cbn beta iota; [|done].
  eapply wp_mono; [apply iter_map_reads|]. intros r s2 Hk2. by rewrite Hk2.
Qed.

Lemma scan_bucket_quiet b sa p token : quietly (scan_bucket b sa p token).
Proof.
  apply quietly_bind; [apply quietly_ns; intros s; apply tree_exists_spec|]. intros [|]; cbn [negb]; [|auto with quiet].
  apply quietly_bind; [apply quietly_ns; intros s; apply tree_open_quiet|]. intros t.
  apply quietly_bind; [auto with quiet|]. intros after w. done.
Qed.

Lemma list_uploads_quiet fuel b p km um mx : quietly (list_multipart_uploads_op fuel b p km um mx).
Proof.
  apply quietly_bind; [apply require_bucket_quiet|]. intros _.
  apply quietly_bind; [apply quietly_shared; intros s; apply iter_map_reads|]. intros l. cbv zeta.
  match goal with |- context [page_of_list ?m ?l] => destruct (page_of_list m l) as [[page tr] z] end.
  auto with quiet.
Qed.

Lemma collect_parts_quiet fuel prefix : forall cursor (s : S), wp (collect_parts fuel prefix cursor) s (fun _ s' => kv s' = kv s).
Proof.
  induction fuel as [|fuel IH]; intros cursor s; cbn [collect_parts]; [by apply wp_ret|].
  apply wp_bind. eapply wp_mono; [apply tree_next_spec|]. intros [[[k raw]|]|e] s1 [Hk _]; cbn beta iota; [|by apply wp_ret|done].
  destruct (starts_with prefix k); [|by apply wp_ret]. apply wp_bind, wp_decoded; [|done]. intros p _. cbn beta iota.
  apply wp_bind. eapply wp_mono; [apply IH|]. intros [rest|e] s2 Hk2; cbn beta iota; [apply wp_ret|]; by rewrite Hk2.
Qed.

Lemma list_parts_quiet fuel b k u m mx : quietly (list_parts_op fuel b k u m mx).
Proof.
  apply quietly_bind.
  { apply quietly_shared. intros s. apply wp_bind. eapply wp_mono; [apply tree_get_quiet|]. intros [[raw|]|e] s1 Hk; cbn beta iota; [|by apply wp_ret|done].
    apply wp_bind, wp_decoded; [|done]. intros rec _. by apply wp_ret. }
  intros [rec|]; [|auto with quiet]. apply quietly_bind; [apply quietly_shared; intros s; apply collect_parts_quiet|].
  intros l. cbv zeta. match goal with |- context [page_of_list ?m ?l] => destruct (page_of_list m l) as [[page tr] z] end. auto with quiet.
Qed.

(* ------------------------------------------------------------------ *)
(** * Requests that write *)

Definition keeps {A} F (m : HM A) w : Prop := winv cfg w F -> wp m w (fun _ w' => winv cfg w' F).

Lemma quietly_keeps {A} F (m : HM A) w : quietly m -> keeps F m w.
Proof. intros Hm Hi. eapply wp_mono; [apply Hm|]. intros r w' Hs. exact (still_winv w w' F Hs Hi). Qed.

(** A reading step, then the rest from a world that differs in nothing. *)
Lemma keeps_after {A B} F (m : HM A) (k : A -> HM B) w :
  quietly m -> (forall a w', still w w' -> keeps F (k a) w') -> keeps F (m ≫= k) w.
Proof.
  intros Hm Hk Hi. apply wp_bind. eapply wp_mono; [apply Hm|]. intros r w' Hs.
  pose proof (still_winv w w' F Hs Hi) as Hi'. destruct r as [a|e]; [by apply Hk|done].
Qed.

(** An engine call, then only answers. *)
Lemma keeps_engine {A B} F (m : M (World S D) EngErr A) (k : A -> HM B) w :
  (winv cfg w F -> wp m w (fun _ w' => winv cfg w' F)) -> (forall a w', keeps F (k a) w') -> keeps F (try_ m ≫= k) w.
Proof.
  intros Hm Hk Hi. apply wp_bind, wp_handler. eapply wp_mono; [by apply Hm|]. intros [a|e] w' Hi'; cbn [map_err]; [|done].
  by apply Hk.
Qed.

Lemma keeps_answered {A} F f (m : HM A) w : keeps F m w -> keeps F (answered f m) w.
Proof.
  intros Hm Hi. apply wp_bind. eapply wp_mono; [by apply Hm|]. intros [a|e] w' Hi'; cbn beta iota; [by apply wp_ret|done].
Qed.

Lemma winv_no_refs w F : winv cfg w F -> winv cfg w (add_refs F []).
Proof. apply inv_mono. intros i. unfold add_refs. cbn. lia. Qed.

(** The object a PUT files, inlined or streamed. *)
Definition inline_object (now : Z) (data : bytes) : Object :=
  Object_new now (Z.of_nat (length data)) (mkContentHash (md5_digest data)) (Inline data).

(** What a request must not overflow: the sizes its object records, and the
    counts and names its blocks take. *)
Definition put_fits (now : Z) (input : PutObjectInput) w : Prop :=
  reserved (pi_bucket input) = false /\
  match pi_body input with
  | None => True
  | Some body =>
      (forall data, collect_body body = Ok data -> Object_wf (inline_object now data)) /\
      let chunks := (stream_chunks (chunk_stream block_size body)).1 in
      budget cfg w chunks /\ Object_wf (put_object cfg now chunks)
  end.

Context (Hcfg : aw_tmp (cfg_writer cfg) = root ++ [TMP_DIR_NAME]).

Lemma store_inlined_keeps now b k data w F : reserved b = false -> Object_wf (inline_object now data) -> winv cfg w F ->
  wp (store_inlined_object cfg now b k data) w (fun _ w' => winv cfg w' F).
Proof.
  intros Hb Hwf Hi. eapply wp_mono; [apply (create_object_meta_spec cfg now b k _ _ (Inline data) w F Hb Hwf)|].
  - by apply winv_no_refs.
  - by intros r w' [Hi' _].
Qed.

Lemma delete_object_keeps b k w F : reserved b = false -> winv cfg w F ->
  wp (delete_object cfg b k) w (fun _ w' => winv cfg w' F).
Proof. intros Hb Hi. eapply wp_mono; [by apply (delete_object_spec cfg b k w F)|]. by intros r w' [Hi' _]. Qed.

Lemma max_inlined_range n : 0 <= max_inlined_data_length n.
Proof. unfold max_inlined_data_length. destruct (Z.ltb_spec n minimum_inline_metadata_size); lia. Qed.

Lemma put_object_keeps now input w F : put_fits now input w -> keeps F (put_object_op cfg block_size inlined_metadata_size now input) w.
Proof.
  intros [Hb Hfit]. unfold put_object_op. destruct (negb (valid_storage_class _)); [apply quietly_keeps; auto with quiet|].
  apply keeps_after; [auto with quiet|]. intros expected w1 Hs1. destruct (pi_body input) as [body|]; [|apply quietly_keeps; auto with quiet].
  destruct Hfit as (Hinl & Hbg & Hwf). apply (still_budget _ _ _ Hs1) in Hbg.
  apply keeps_after; [apply require_bucket_quiet|]. intros _ w2 Hs2. apply (still_budget _ _ _ Hs2) in Hbg.
  destruct (match pi_content_length input with Some n => Some n | None => _ end) as [len|]; [|apply quietly_keeps; auto with quiet].
  destruct (Z.ltb_spec len 0); [apply quietly_keeps; auto with quiet|].
  destruct (Z.leb_spec len (max_inlined_data_length inlined_metadata_size)) as [Hle|Hgt].
  - intros Hi. apply wp_bind, wp_lift. destruct (collect_body body) as [data|e] eqn:Ed; [|done].
    destruct (negb (digest_matches _ _)); [by apply wp_err|]. revert Hi. apply keeps_engine; [|intros; apply quietly_keeps; auto with quiet].
    by apply store_inlined_keeps, Hinl.
  - pose proof (max_inlined_range inlined_metadata_size). apply keeps_engine.
    + intros Hi. eapply wp_mono; [apply (store_single_spec cfg Hcfg now (pi_bucket input) (pi_key input) _ len w2 F Hb ltac:(lia) Hbg Hi Hwf)|].
      by intros r w' [Hi' _].
    + intros o w3. destruct (negb (digest_matches _ _)); [|apply quietly_keeps; auto with quiet].
      apply keeps_engine; [by apply delete_object_keeps|]. intros; apply quietly_keeps; auto with quiet.
Qed.

Lemma delete_one_keeps b k w F : reserved b = false -> keeps F (delete_object_op cfg b k) w.
Proof.
  intros Hb. apply keeps_after.
  { apply quietly_engine. intros w1. unfold key_exists. apply wp_bind, wp_on_ns. eapply wp_mono; [apply tree_open_quiet|].
    intros [t|e] s1 Hk; cbn [map_err]; [|by split]. apply wp_on_ns. eapply wp_mono; [apply tree_contains_key_spec|].
    intros r s2 [Hk2 _]. cbn [w_ns] in Hk2. split; [|done]. split; cbn; congruence. }
  intros [|] w1 _; cbn [negb]; [|apply quietly_keeps; auto with quiet].
  apply keeps_engine; [by apply delete_object_keeps|]. intros; apply quietly_keeps; auto with quiet.
Qed.

Lemma delete_each_keeps b keys : reserved b = false -> forall deleted w F, keeps F (delete_each cfg b keys deleted) w.
Proof.
  intros Hb. induction keys as [|k keys IH]; intros deleted w F; cbn [delete_each]; [apply quietly_keeps; auto with quiet|].
  intros Hi. apply wp_bind, wp_try, wp_handler. eapply wp_mono; [by apply delete_object_keeps|].
  intros r w1 Hi1. by apply IH.
Qed.

Lemma bucket_delete_keeps fuel b w F : reserved b = false -> winv cfg w F -> wp (bucket_delete cfg fuel b) w (fun _ w' => winv cfg w' F).
Proof.
  intros Hb Hi.
  assert (forall n cursor w, winv cfg w F -> wp (delete_objects cfg n b cursor) w (fun _ w' => winv cfg w' F)) as Hdel.
  { clear w Hi fuel. intros n. induction n as [|n IH]; intros cursor w Hi; cbn [delete_objects]; [by apply wp_ret|].
    apply wp_bind, wp_on_ns. eapply wp_mono; [apply tree_next_spec|]. intros r s1 [Hk _].
    assert (winv cfg (mkWorld s1 (w_shared w) (w_disk w) (w_counters w)) F) as Hi1 by (unfold winv in *; cbn; by rewrite Hk).
    destruct r as [[[k v]|]|e]; cbn [map_err]; [|by apply wp_ret|done].
    apply wp_bind. eapply wp_mono; [by apply delete_object_keeps|]. intros [d|e] w2 Hi2; cbn beta iota; [by apply IH|done]. }
  unfold bucket_delete. apply wp_bind, wp_on_ns. eapply wp_mono; [apply tree_open_quiet|].
  intros [t|e] s1 Hk1; cbn [map_err]; [|unfold winv in *; cbn; by rewrite Hk1].
  apply wp_bind, wp_on_ns. eapply wp_mono; [apply tree_remove_spec|]. intros r s2 Hr. cbn [w_ns] in Hr. rewrite Hk1 in Hr.
  assert (winv cfg (mkWorld s2 (w_shared w) (w_disk w) (w_counters w)) F) as Hi2.
  { unfold winv in *. cbn. destruct r as [x|e]; [destruct Hr as [-> _]; by apply inv_ns_delete|].
    destruct Hr as [->| ->]; [by apply inv_ns_delete|done]. }
  destruct r as [x|e]; cbn [map_err]; [|exact Hi2].
  apply wp_bind, wp_on_ns. eapply wp_mono; [apply tree_open_quiet|]. intros r s3 Hk3. cbn [w_ns] in Hk3.
  assert (winv cfg (mkWorld s3 (w_shared w) (w_disk w) (w_counters w)) F) as Hi3 by (unfold winv in *; cbn in *; by rewrite Hk3).
  destruct r as [t3|e]; cbn [map_err]; [|exact Hi3].
  apply wp_bind. eapply wp_mono; [by apply Hdel|]. intros [u|e] w4 Hi4; cbn beta iota; [|done].
  apply wp_on_ns. eapply wp_mono; [apply (drop_bucket_spec b (w_ns w4) (fun m => Inv (cfg_hasher cfg) root m (kv (w_shared w4)) (wfiles w4) F))|].
  - intros m p. apply inv_ns_delete.
  - intros m t'. apply inv_ns_drop.
  - exact Hi4.
  - intros r s' Hs'. exact Hs'.
Qed.

Lemma create_bucket_keeps now b w F : winv cfg w F -> wp (create_bucket now b) w (fun _ w' => winv cfg w' F).
Proof.
  intros Hi. unfold create_bucket. apply wp_on_ns.
  enough (wp (insert_bucket b (BucketMeta_to_vec (BucketMeta_new now b))) (w_ns w) (fun _ s' =>
    Inv (cfg_hasher cfg) root (kv s') (kv (w_shared w)) (wfiles w) F)) as Hw by (eapply wp_mono; [exact Hw|done]).
  unfold winv in Hi. unfold insert_bucket. destruct (reserved b); [by apply wp_err|].
  assert (forall t k v s, reserved t = true -> Inv (cfg_hasher cfg) root (kv s) (kv (w_shared w)) (wfiles w) F ->
    wp (tree_insert t k v) s (fun _ s' => Inv (cfg_hasher cfg) root (kv s') (kv (w_shared w)) (wfiles w) F)) as Hins.
  { intros t k v s Ht Hs. eapply wp_mono; [apply tree_insert_spec|]. intros [x|e] s' Hr; [rewrite Hr; by apply inv_ns_reserved|].
    destruct Hr as [->| ->]; [by apply inv_ns_reserved|done]. }
  wp_call tree_open_spec; intros [Hk Ht]; [subst a|by rewrite Hk]. rewrite <- Hk in Hi.
  apply wp_bind. eapply wp_mono; [by apply Hins|]. intros [u|e] s1 Hi1; cbn beta iota; [|done].
  wp_call tree_open_spec; intros [Hk1 Ht1]; [|by rewrite Hk1]. rewrite <- Hk1 in Hi1.
  unfold set_bucket_usage. wp_call tree_open_spec; intros [Hk2 Ht2]; [subst|by rewrite Hk2]. rewrite <- Hk2 in Hi1. by apply Hins.
Qed.

Lemma abort_op_keeps fuel b k u w F : keeps F (abort_multipart_upload_op cfg fuel b k u) w.
Proof.
  apply keeps_engine; [|intros [[n|]|n] w'; apply quietly_keeps; auto with quiet].
  intros Hi. eapply wp_mono; [by apply (abort_upload_spec cfg fuel b k u w F)|].
  intros [[[n|]|n]|e] w' Hr; [destruct Hr as (_ & (_ & _ & Hi' & _) & _)|destruct Hr as (_ & _ & _ & Hi')|destruct Hr as (_ & (_ & _ & Hi' & _) & _)|destruct Hr as (_ & [(_ & _ & Hi' & _)|(_ & _ & Hi')])]; exact Hi'.
Qed.

Lemma create_op_keeps now u b k w F : keeps F (create_multipart_upload_op now u b k) w.
Proof.
  apply keeps_after; [apply quietly_ns; intros s; apply tree_exists_spec|]. intros [|] w1 _; [|apply quietly_keeps; auto with quiet].
  apply keeps_engine; [|intros; apply quietly_keeps; auto with quiet]. intros Hi.
  eapply wp_mono; [by apply (create_upload_spec cfg now b k u w1 F)|]. by intros r w' (_ & Hi' & _).
Qed.

(** What a request must not overflow, and the buckets it may not name. *)
Definition request_fits (now : Z) (req : S3Request (R := R)) w : Prop :=
  match req with
  | PutObject input => put_fits now input w
  | UploadPart b k u n _ body _ _ =>
      let chunks := (stream_chunks (default [] (chunk_stream block_size <$> body))).1 in
      budget cfg w chunks /\ MultiPart_wf (uploaded_part cfg b k u n chunks)
  | CompleteMultipartUpload b k u parts =>
      reserved b = false /\
      forall ps, Forall2 (fun n p => part_at (kv (w_shared w)) (part_key b k u n) p) (omap id (default [] parts)) ps ->
        Object_wf (completed_object now ps)
  | DeleteObject b _ | DeleteObjects b _ | DeleteBucket b => reserved b = false
  | _ => True
  end.

(** The requests that only read. *)
Definition reading (req : S3Request (R := R)) : bool :=
  match req with
  | CopyObject | GetBucketLocation _ | GetObject _ _ _ | HeadBucket _ | HeadObject _ _ | ListBuckets
  | ListMultipartUploads _ _ _ _ _ | ListObjects _ _ _ _ _ | ListObjectsV2 _ _ _ _ _ _ | ListParts _ _ _ _ _ => true
  | _ => false
  end.

Abbreviation server := (serve cfg block_size inlined_metadata_size verify_on_read).

Lemma reading_quiet fuel now req : reading req = true -> quietly (server fuel now req).
Proof.
  intros Hr. destruct req; try discriminate Hr; cbn [serve]; apply quietly_bind; try (intros; apply quietly_ret).
  - apply quietly_err.
  - apply require_bucket_quiet.
  - apply get_object_quiet.
  - apply require_bucket_quiet.
  - apply head_object_quiet.
  - apply list_buckets_quiet.
  - apply list_uploads_quiet.
  - apply quietly_bind; [apply scan_bucket_quiet|]. intros rows. cbv zeta. apply quietly_ret.
  - apply quietly_bind; [apply scan_bucket_quiet|]. intros rows. cbv zeta. apply quietly_ret.
  - apply list_parts_quiet.
Qed.

(** C6: No S3 request loses a block.  Whatever request the service answers, with
    whatever headers and body and whatever calls fail on the way, and as long as
    no counter overflows, the engine's invariant holds after it as it held
    before: no block has more references than its record counts, and every
    healthy record names a file with the block's bytes.  The requests that only
    read leave both databases and the disk as they were. *)
Theorem s3_requests_keep_accounts fuel now req w F :
  request_fits now req w -> winv cfg w F ->
  wp (server fuel now req) w (fun _ w' => winv cfg w' F /\ (reading req = true -> still w w')).
Proof.
  intros Hfit Hi. destruct (reading req) eqn:Er.
  { eapply wp_mono; [by apply reading_quiet|]. intros r w' Hs. split; [exact (still_winv w w' F Hs Hi)|by intros _]. }
  eapply wp_mono with (Q := fun _ w' => winv cfg w' F); [|by intros r w' Hi'; split].
  revert Hi. change (keeps F (server fuel now req) w). destruct req; try discriminate Er; cbn [serve request_fits] in *; apply keeps_answered.
  - apply abort_op_keeps.
  - intros Hi. destruct Hfit as [Hb Hwf]. eapply wp_mono; [by apply (complete_multipart_upload_spec cfg now bucket key upload_id parts w F)|].
    by intros r w' [Hi' _].
  - apply keeps_after; [apply quietly_ns; intros s; apply tree_exists_spec|]. intros [|] w1 _; [apply quietly_keeps; auto with quiet|].
    apply keeps_engine; [apply create_bucket_keeps|]. intros; apply quietly_keeps; auto with quiet.
  - apply create_op_keeps.
  - intros Hi. apply wp_handler. eapply wp_mono; [by apply (bucket_delete_keeps fuel bucket w F)|]. done.
  - by apply delete_one_keeps.
  - apply keeps_after; [apply require_bucket_quiet|]. intros _ w1 _. by apply delete_each_keeps.
  - by apply put_object_keeps.
  - intros Hi. destruct Hfit as [Hbg Hmp].
    eapply wp_mono; [by apply (upload_part_spec cfg bucket key upload_id part_number (parse_optional_md5 content_md5) _ _ w F)|].
    by intros r w' [Hi' _].
Qed.

(* ------------------------------------------------------------------ *)
(** * A GET of what was put *)

(** The object a PUT of a body leaves under its key, with what a read needs of
    it: streamed blocks are live. *)
Definition filed (now : Z) (input : PutObjectInput) (data : bytes) (chunks : list bytes) o w : Prop :=
  kv (w_ns w) !! (pi_bucket input, pi_key input) = Some (Object_to_vec o) /\ Object_wf o /\
  ((o = inline_object now data) \/
   (o = put_object cfg now chunks /\
    forall i, i ∈ map (hash_block (cfg_hasher cfg)) chunks -> is_Some (block_at (kv (w_shared w)) i) -> live_at (kv (w_shared w)) i = true)).

Lemma collect_body_ok frames : collect_body (map Ok frames) = Ok (concat frames).
Proof. induction frames as [|f frames IH]; [done|]. simpl. by rewrite IH. Qed.

(** The answers that speak of the key's presence or of the range. *)
Definition key_or_range (e : S3Error) : bool := match e with NoSuchKey | InvalidRange => true | _ => false end.

Lemma require_bucket_spec b w : wp (require_bucket b) w (fun r w' =>
  still w w' /\ match r with Ok _ => True | Err e => key_or_range e = false end).
Proof.
  unfold require_bucket. apply wp_bind, wp_handler, wp_on_ns. eapply wp_mono; [apply tree_exists_spec|].
  intros [[|]|e] s' Hk; cbn [map_err]; [by apply wp_ret|by apply wp_err|by split].
Qed.

Lemma put_object_files now input frames w F :
  pi_body input = Some (map Ok frames) -> put_fits now input w -> winv cfg w F ->
  let chunks := (stream_chunks (chunk_stream block_size (map Ok frames))).1 in
  wp (put_object_op cfg block_size inlined_metadata_size now input) w (fun r w' =>
    winv cfg w' F /\ match r with
    | Ok tag => exists o, filed now input (concat frames) chunks o w' /\ tag = format_e_tag o
    | Err e => key_or_range e = false
    end).
Proof.
  intros Ebody Hfit Hi chunks.
  assert (wp (put_object_op cfg block_size inlined_metadata_size now input) w (fun r w' => match r with
    | Ok tag => exists o, filed now input (concat frames) chunks o w' /\ tag = format_e_tag o
    | Err e => key_or_range e = false end)) as Hfile.
  2: { pose proof (put_object_keeps now input w F Hfit Hi) as Hk. unfold wp in *. by split. }
  destruct Hfit as [Hb Hfit]. unfold put_object_op. rewrite Ebody in *. destruct Hfit as (Hinl & Hbg & Hwf). fold chunks in Hbg, Hwf.
  destruct (negb (valid_storage_class _)); [by apply wp_err|].
  apply wp_bind, wp_lift. destruct (parse_optional_md5 _) as [expected|e] eqn:Emd5.
  2: { unfold parse_optional_md5, parse_content_md5 in Emd5. repeat case_match; by simplify_eq. }
  clear Emd5. apply wp_bind. eapply wp_mono; [apply require_bucket_spec|]. intros r w1 [Hs1 Hr1]. destruct r as [u|e]; [|done].
  apply (still_winv w w1 F Hs1) in Hi. apply (still_budget w w1 _ Hs1) in Hbg.
  destruct (match pi_content_length input with Some n => Some n | None => _ end) as [len|]; [|by apply wp_err].
  destruct (Z.ltb_spec len 0); [by apply wp_err|].
  destruct (Z.leb_spec len (max_inlined_data_length inlined_metadata_size)) as [Hle|Hgt].
  - rewrite collect_body_ok. apply wp_bind, wp_lift. destruct (negb (digest_matches _ _)); [by apply wp_err|].
    specialize (Hinl (concat frames) (collect_body_ok frames)). apply wp_bind, wp_handler.
    eapply wp_mono; [apply (create_object_meta_spec cfg now (pi_bucket input) (pi_key input) _ _ (Inline (concat frames)) w1 F Hb Hinl); by apply winv_no_refs|].
    intros [o|e] w2 [_ Hr]; cbn [map_err]; [|done]. destruct Hr as (-> & d & (_ & cur & _ & Hk) & _). apply wp_ret.
    exists (inline_object now (concat frames)). split; [|done]. split; [|split; [done|by left]].
    rewrite Hk. pose proof (unreserved_usage _ Hb). rewrite lookup_insert_ne by congruence. apply lookup_insert_eq.
  - pose proof (max_inlined_range inlined_metadata_size). apply wp_bind, wp_handler.
    eapply wp_mono; [apply (store_single_spec cfg Hcfg now (pi_bucket input) (pi_key input) _ len w1 F Hb ltac:(lia) Hbg Hi Hwf)|].
    intros [o|e] w2 [_ Hr]; cbn [map_err]; [|done]. destruct Hr as (_ & -> & Hk & d & _ & Hlive).
    destruct (negb (digest_matches _ _)).
    + apply wp_bind, wp_handler. unfold wp. destruct (delete_object _ _ _ _) as [[x|e] w3]; cbn; done.
    + apply wp_ret. exists (put_object cfg now chunks). split; [|done]. split; [done|]. split; [done|]. right. by split.
Qed.

(** The bytes in the window a request asks for. *)
Definition window_bytes (window : option (Z * Z)) (data : bytes) : bytes :=
  match window with Some (a, b) => take (Z.to_nat (b - a)) (drop (Z.to_nat a) data) | None => data end.

(** A body that serves exactly [bs]: at once, or through a stream that under
    every schedule of reads serves a prefix of them and ends with all of them. *)
Definition serves_exactly (files : gmap path bytes) (body : Body) (bs : bytes) : Prop :=
  match body with
  | BodyBytes b => b = bs
  | BodyStream s => forall answers, let '(out, f) := consume files answers s in
      concat out `prefix_of` bs /\ (f = Finished -> concat out = bs) /\ f <> Crashed
  end.

(** No block of the store has the address of a chunk and other bytes. *)
Definition no_collision (fl : gmap path bytes) (chunks : list bytes) : Prop :=
  forall c p data, c ∈ chunks -> fl !! p = Some data -> hash_block (cfg_hasher cfg) data = hash_block (cfg_hasher cfg) c -> data = c.

Lemma served_stored fl chunks ps : Forall2 (serves cfg fl) chunks ps -> no_collision fl chunks -> Forall2 (stored fl) ps chunks.
Proof.
  intros Hps Hnc. apply Forall2_flip, Forall2_same_length_lookup. apply Forall2_same_length_lookup in Hps as [Hl Hps].
  split; [exact Hl|]. intros k c p Hc Hp. destruct (Hps k c p Hc Hp) as (data & Hf & Hh & Hz).
  assert (data = c) as -> by (eapply Hnc; [by eapply list_elem_of_lookup_2|exact Hf|exact Hh]). by split.
Qed.

Lemma blocks_size_stored fl ps datas : Forall2 (stored fl) ps datas ->
  Z.of_nat (length (concat datas)) <= i64_max -> blocks_size ps = Z.of_nat (length (concat datas)).
Proof.
  intros Hp Ht.
  enough (forall n, 0 <= n -> n + Z.of_nat (length (concat datas)) <= i64_max ->
    foldl (fun n p => wrap_u64 (n + p.2)) n ps = n + Z.of_nat (length (concat datas))) as Hg by (unfold blocks_size; rewrite Hg; lia).
  clear Ht. induction Hp as [|p d ps datas [_ Hd] _ IH]; intros n Hn Hb; cbn [foldl concat] in *; [simpl; lia|].
  rewrite length_app in *. rewrite wrap_u64_small by (unfold i64_max, u64_max in *; lia). rewrite IH; lia.
Qed.

(** What is left of the chunks when a verifying stream has served some. *)
Lemma intact_prefix fl chunks ps out : Forall2 (stored fl) ps chunks ->
  (forall j c, out !! j = Some c -> intact fl ps (cfg_hasher cfg) (map (hash_block (cfg_hasher cfg)) chunks) j c) ->
  out `prefix_of` chunks.
Proof.
  intros Hp Hout. revert ps chunks Hp Hout. induction out as [|c out IH]; intros ps chunks Hp Hout; [by eexists|].
  destruct (Hout 0%nat c eq_refl) as (p & z & Hk & Hf & _). destruct Hp as [|p' d ps chunks [Hd _] Hp]; [done|].
  cbn in Hk. simplify_eq. cbn in Hd. assert (d = c) as -> by congruence.
  destruct (IH ps chunks Hp) as [k ->]; [|by exists k].
  intros j c' Hj. exact (Hout (Datatypes.S j) c' Hj).
Qed.

Lemma concat_prefix (l1 l2 : list bytes) : l1 `prefix_of` l2 -> concat l1 `prefix_of` concat l2.
Proof. intros [k ->]. rewrite concat_app. by eexists. Qed.

Lemma prefix_full {A} (l1 l2 : list A) : l1 `prefix_of` l2 -> (length l2 <= length l1)%nat -> l1 = l2.
Proof. intros [[|x k] ->] Hl; [by rewrite app_nil_r|]. rewrite length_app in Hl. simpl in Hl. lia. Qed.

Lemma verified_serves fl chunks ps : Forall2 (stored fl) ps chunks ->
  serves_exactly fl (BodyStream (verified (new_stream ps (Z.of_nat (length (concat chunks))) All) (cfg_hasher cfg)
    (map (hash_block (cfg_hasher cfg)) chunks))) (concat chunks).
Proof.
  intros Hp answers. set (ids := map _ chunks). set (size := Z.of_nat _).
  assert (length ids = length ps) as Hl by (unfold ids; rewrite length_map; symmetry; by eapply Forall2_length).
  destruct (verified_inv fl ps size (cfg_hasher cfg) ids Hl) as [Hs Hz0].
  pose proof (verify_consume_ok fl ps size (cfg_hasher cfg) ids Hl answers _ 0 Hs) as Hc. rewrite Hz0 in Hc.
  destruct (consume fl answers _) as [out f]. destruct Hc as [Hout Hf]. pose proof (intact_prefix fl chunks ps out Hp Hout) as Hpre.
  split; [by apply concat_prefix|]. split; [|by intros ->]. intros ->. destruct Hf as [Hf|Hf].
  - rewrite (prefix_full _ _ Hpre); [done|]. unfold ids in Hl. rewrite length_map in Hl. lia.
  - apply prefix_full; [by apply concat_prefix|]. unfold size in Hf. lia.
Qed.

(** A window of the whole, or all of it. *)
Definition window_in (window : option (Z * Z)) (n : Z) : Prop :=
  match window with Some (a, b) => 0 <= a < b /\ b <= n | None => True end.

Lemma length_window window data : window_in window (Z.of_nat (length data)) ->
  Z.of_nat (length (window_bytes window data)) = match window with Some (a, b) => b - a | None => Z.of_nat (length data) end.
Proof. destruct window as [[a b]|]; cbn; [|done]. intros [Ha Hb]. rewrite length_take, length_drop. lia. Qed.

Lemma plain_serves fl chunks ps window :
  Forall2 (stored fl) ps chunks -> Z.of_nat (length (concat chunks)) <= i64_max -> window_in window (Z.of_nat (length (concat chunks))) ->
  serves_exactly fl (BodyStream (new_stream ps (Z.of_nat (length (concat chunks)))
    (match window with Some (a, b) => Range a (b - 1) | None => All end))) (window_bytes window (concat chunks)).
Proof.
  intros Hp Ht Hw answers. set (range := match window with Some _ => _ | None => _ end).
  assert (requested range (concat chunks) = window_bytes window (concat chunks)) as <-.
  { destruct window as [[a b]|]; [|done]. cbn. f_equal. lia. }
  pose proof (window_served fl ps chunks range answers Hp Ht) as Hs. cbv zeta in Hs.
  destruct (consume _ _ _) as [out f]. destruct Hs as [Hpre Hf].
  - destruct window as [[a b]|]; cbn in Hw |- *; [|done]. unfold is_u64, u64_max, i64_max in *. lia.
  - destruct window as [[a b]|]; [|by right]. left. intros ->. apply Forall2_nil_inv_l in Hp as ->. cbn in Hw. lia.
  - split; [exact Hpre|]. split; [by intros ->|by intros ->].
Qed.

(** The answer to a GET and the object it answers with. *)
Definition answers_get (files : gmap path bytes) (o : Object) (data : bytes) (window : option (Z * Z)) (out : GetObjectOutput) : Prop :=
  go_e_tag out = format_e_tag o /\ go_last_modified out = o_ctime o /\
  go_content_length out = Z.of_nat (length (window_bytes window data)) /\
  go_content_range out = (fun p => fmt_content_range p.1 (p.2 - 1) (Z.of_nat (length data))) <$> window /\
  serves_exactly files (go_body out) (window_bytes window data).

Context `{!S3RangeLaws R}.

Lemma checked_range_in range n window : checked_range range n = Ok window -> window_in window n.
Proof.
  unfold checked_range. destruct range as [r|]; [|by intros [= <-]]. destruct (range_check r n) as [[a b]|] eqn:E; [|done].
  intros [= <-]. by apply range_check_ok in E.
Qed.

Lemma range_refusal (range : option R) n e : checked_range range n = Err e -> e = InvalidRange.
Proof. unfold checked_range. destruct range as [r|]; [|done]. destruct (range_check r n); [done|]. by intros [= <-]. Qed.

Lemma get_inlined_serves fl o data range window out : get_inlined o data range = Ok out ->
  checked_range range (Z.of_nat (length data)) = Ok window -> answers_get fl o data window out.
Proof. unfold get_inlined. intros Hg Hc. rewrite Hc in Hg. injection Hg as <-. by repeat split. Qed.

Lemma get_stored_serves fl now chunks ps range window out :
  let o := put_object cfg now chunks in
  Forall2 (serves cfg fl) chunks ps -> no_collision fl chunks -> Z.of_nat (length (concat chunks)) <= i64_max ->
  get_stored cfg verify_on_read o ps range = Ok out -> checked_range range (o_size o) = Ok window ->
  answers_get fl o (concat chunks) window out.
Proof.
  intros o Hps Hnc Ht Hg Hc. pose proof (served_stored fl chunks ps Hps Hnc) as Hp.
  pose proof (checked_range_in _ _ _ Hc) as Hw. change (o_size o) with (Z.of_nat (length (concat chunks))) in *.
  unfold get_stored in Hg. change (o_size o) with (Z.of_nat (length (concat chunks))) in Hg. rewrite Hc in Hg.
  injection Hg as <-. split; [done|]. split; [done|]. split; [|split; [done|]]; cbn [go_content_length go_body].
  - rewrite length_window by done. destruct window as [[a b]|]; cbn in Hw; apply as_i64_small; int_bounds; lia.
  - rewrite (blocks_size_stored fl ps chunks Hp Ht).
    destruct (verify_on_read && is_all _) eqn:Ev; [|by apply plain_serves].
    destruct window as [[a b]|]; [by rewrite andb_false_r in Ev|]. by apply verified_serves.
Qed.

Lemma get_filed_spec now input data chunks o range w F :
  reserved (pi_bucket input) = false -> winv cfg w F -> filed now input data chunks o w -> concat chunks = data ->
  Z.of_nat (length data) <= i64_max ->
  wp (get_object_op cfg verify_on_read (pi_bucket input) (pi_key input) range) w (fun r w' =>
    winv cfg w' F /\ match r with
    | Ok out => exists window, checked_range range (Z.of_nat (length data)) = Ok window /\
        (no_collision (wfiles w') chunks -> answers_get (wfiles w') o data window out)
    | Err e => e <> NoSuchKey /\ (e = InvalidRange -> checked_range range (Z.of_nat (length data)) = Err InvalidRange)
    end).
Proof.
  intros Hb Hi Hf Hdata Ht. subst data. unfold get_object_op. apply wp_bind. eapply wp_mono; [apply require_bucket_spec|].
  intros r w1 [Hs Hr]. pose proof (still_winv w w1 F Hs Hi) as Hi1. destruct r as [u|e]; [|split; [exact Hi1|by destruct e]].
  destruct Hf as (Hrec & Hwf & Ho). destruct Hs as (Hsn & Hss & _). rewrite <- Hsn in Hrec. rewrite <- Hss in Ho.
  apply wp_bind, wp_try, wp_handler. destruct Ho as [->|[-> Hlive]].
  - eapply wp_mono; [apply get_object_paths_spec|]. intros r w2 ([Hn2 Hs2] & Hd2 & Hr2).
    assert (winv cfg w2 F) as Hi2 by (unfold winv, wfiles in *; by rewrite Hn2, Hs2, Hd2).
    destruct r as [[[o ps]|]|e]; cbn [map_err]; [|cbn in Hr2; congruence|by apply wp_err].
    destruct Hr2 as [(raw & Hraw & Hdec) _]. rewrite Hrec in Hraw. injection Hraw as <-. rewrite Object_roundtrip in Hdec by done.
    injection Hdec as <-. cbn [o_inlined inline_object Object_new o_data]. apply wp_lift. split; [done|].
    destruct (get_inlined _ _ _) as [out|e] eqn:Eg.
    + destruct (checked_range range (Z.of_nat (length (concat chunks)))) as [window|e] eqn:Ec.
      * exists window. split; [done|]. intros _. by apply (get_inlined_serves _ _ _ range).
      * unfold get_inlined in Eg. by rewrite Ec in Eg.
    + unfold get_inlined in Eg. destruct (checked_range _ _) as [window|e'] eqn:Ec; simplify_eq. by apply range_refusal in Ec as ->.
  - eapply wp_mono; [apply (read_stored_spec cfg now (pi_bucket input) (pi_key input) chunks w1 F Hb Hi1 Hwf Hrec Hlive)|].
    intros r w2 [Hi2 Hr2]. destruct r as [[[o ps]|]|e]; cbn [map_err]; [|done|by apply wp_err].
    destruct Hr2 as [-> Hps]. cbn [o_inlined put_object Object_new o_data]. apply wp_lift. split; [done|].
    destruct (get_stored _ _ _ _ _) as [out|e] eqn:Eg.
    + destruct (checked_range range (Z.of_nat (length (concat chunks)))) as [window|e] eqn:Ec.
      * exists window. split; [done|]. intros Hnc. by apply (get_stored_serves _ now chunks ps range).
      * unfold get_stored in Eg. change (o_size _) with (Z.of_nat (length (concat chunks))) in Eg. by rewrite Ec in Eg.
    + unfold get_stored in Eg. change (o_size _) with (Z.of_nat (length (concat chunks))) in Eg.
      destruct (checked_range _ _) as [window|e'] eqn:Ec; simplify_eq. by apply range_refusal in Ec as ->.
Qed.

(** A PUT, and a GET of its key from the world it left. *)
Definition put_then_get (now : Z) (input : PutObjectInput) (range : option R) : HM (bytes * GetObjectOutput) :=
  tag ← put_object_op cfg block_size inlined_metadata_size now input;
  output ← get_object_op cfg verify_on_read (pi_bucket input) (pi_key input) range;
  mret (tag, output).

(** C5: A GET serves what the PUT of its key was sent.  Whatever frames the body
    arrived in, whatever length the request declared, inlined or streamed in
    blocks, verified on reading or not: the answer carries the tag and the
    length of the window asked for, the range header names that window, and
    the body serves the bytes of the window, a prefix of them while it runs and
    all of them when it ends, unless another block collides with one of its
    addresses.  The key is never reported missing, the range is refused only
    when the check of ranges refuses it for the true size, and the engine's
    invariant is kept. *)
Theorem s3_get_serves_put now input frames range w F :
  let data := concat frames in
  let chunks := (stream_chunks (chunk_stream block_size (map Ok frames))).1 in
  (1 <= block_size)%nat -> pi_body input = Some (map Ok frames) -> Z.of_nat (length data) <= i64_max ->
  put_fits now input w -> winv cfg w F ->
  wp (put_then_get now input range) w (fun r w' =>
    winv cfg w' F /\ match r with
    | Ok (tag, output) => exists o window,
        tag = format_e_tag o /\ o_size o = Z.of_nat (length data) /\ ch_bytes (o_hash o) = md5_digest data /\
        checked_range range (Z.of_nat (length data)) = Ok window /\
        (no_collision (wfiles w') chunks -> answers_get (wfiles w') o data window output)
    | Err e => e <> NoSuchKey /\ (e = InvalidRange -> checked_range range (Z.of_nat (length data)) = Err InvalidRange)
    end).
Proof.
  intros data chunks Hbs Hbody Ht Hfit Hi. unfold put_then_get.
  destruct (chunk_stream_blocks block_size frames Hbs) as [[Hcat _] _]. fold chunks data in Hcat.
  apply wp_bind. eapply wp_mono; [by apply (put_object_files now input frames w F)|]. fold chunks data.
  intros r w1 [Hi1 Hr]. destruct r as [tag|e]; [|split; [done|by destruct e]].
  destruct Hr as (o & Hf & ->). apply wp_bind.
  eapply wp_mono; [apply (get_filed_spec now input data chunks o range w1 F (proj1 Hfit) Hi1 Hf Hcat Ht)|].
  intros r w2 [Hi2 Hr2]. destruct r as [output|e]; [|done]. apply wp_ret. split; [done|].
  destruct Hr2 as (window & Hc & Ha). exists o, window. split; [done|].
  destruct Hf as (_ & _ & [->|[-> _]]); cbn; [by rewrite ?Hcat|]. by rewrite Hcat.
Qed.
End Api.

(* ------------------------------------------------------------------ *)
(** * On the sample store *)

Import Concrete MemFjall.

(** Headers that carry the digest as it is. *)
#[local] Instance base64_id : Base64 := {| base64_decode := Some |}.

(** A first and a last byte, the last one clamped to the object. *)
#[local] Instance first_last : S3Range (Z * Z) := {|
  range_check r n := if (0 <=? r.1) && (r.1 <=? r.2) && (r.1 <? n) then Some (r.1, Z.min (r.2 + 1) n) else None
|}.
#[local] Instance first_last_laws : S3RangeLaws (Z * Z).
Proof.
  constructor. intros [x y] n a b. cbn. destruct (Z.leb_spec 0 x), (Z.leb_spec x y), (Z.ltb_spec x n); cbn; try done.
  intros [= <- <-]. lia.
Qed.

Definition p_world : SampleWorld := (create_bucket 7 s_bucket s_world).2.
Definition p_frames : list bytes := [str "hel"; str "lowor"; str "ld!"].
Definition p_input : PutObjectInput :=
  mkPutObjectInput None s_bucket s_key (Some (map Ok p_frames)) (Some 11) None None.
Definition p_chunks : list bytes := [str "hello"; str "world"; str "!"].

Lemma p_inv : winv s_cfg p_world (fun _ => 0%nat).
Proof. exact (create_bucket_keeps s_cfg 7 s_bucket s_world (fun _ => 0%nat) s_empty). Qed.

Lemma p_cut : (stream_chunks (chunk_stream 5 (map Ok p_frames))).1 = p_chunks.
Proof. reflexivity. Qed.

Lemma p_budget : budget s_cfg p_world p_chunks.
Proof.
  split; [vm_compute; split; discriminate|vm_compute; discriminate|]. intros i Hi.
  assert (rc_of (kv (w_shared p_world)) i <= 3) as Hr by (apply small_rc_bound; eapply bool_decide_unpack; vm_compute; exact I).
  pose proof (occ_length i (map (hash_block (cfg_hasher s_cfg)) p_chunks)) as Ho.
  change (length (map (hash_block (cfg_hasher s_cfg)) p_chunks)) with 3%nat in Ho. unfold usize_max. lia.
Qed.

Lemma p_object_wf : Object_wf (put_object s_cfg 7 p_chunks).
Proof.
  repeat split; try concrete_side.
  exists 16%nat. repeat (apply Forall_cons; split; [split; [apply hash_block_wf|reflexivity]|]). constructor.
Qed.

Lemma p_inline_wf : Object_wf (inline_object 7 (concat p_frames)).
Proof. repeat split; try concrete_side. Qed.

Lemma p_fits : put_fits s_cfg 5 7 p_input p_world.
Proof.
  split; [reflexivity|]. cbn [pi_body p_input]. rewrite p_cut. split.
  - intros data Ed. rewrite collect_body_ok in Ed. injection Ed as <-. exact p_inline_wf.
  - split; [exact p_budget|exact p_object_wf].
Qed.

Definition distinct_blocks (fl : gmap path bytes) : Prop :=
  map_Forall (fun _ d => Forall (fun c => hash_block Blake3W16 d = hash_block Blake3W16 c -> d = c) p_chunks) fl.
#[local] Instance distinct_blocks_dec fl : Decision (distinct_blocks fl).
Proof. unfold distinct_blocks. apply _. Defined.
Definition distinct (fl : gmap path bytes) : bool := bool_decide (distinct_blocks fl).

(** The bytes 3 to 7 of an object of three blocks. *)
Lemma s3_get_serves_put_witness :
  exists tag output w', put_then_get (R := Z * Z) s_cfg 5 0 true 7 p_input (Some (3, 7)) p_world = (Ok (tag, output), w') /\
    go_content_length output = 5 /\ go_content_range output = Some (str "bytes 3-7/11") /\
    serves_exactly (wfiles w') (go_body output) (str "lowor").
Proof.
  pose proof (s3_get_serves_put s_cfg 5 0 true eq_refl 7 p_input p_frames (Some (3, 7)) p_world (fun _ => 0%nat)
    ltac:(lia) eq_refl ltac:(vm_compute; discriminate) p_fits p_inv) as H.
  run_ok H r w' E. destruct r as [tag output]. exists tag, output, w'. split; [exact E|].
  destruct H as (_ & o & window & _ & _ & _ & Hw & Ha). vm_compute in Hw. injection Hw as <-.
  destruct Ha as (_ & _ & Hl & Hr & Hs).
  - rewrite p_cut. intros c p data Hc Hf Hh.
    assert (distinct (wfiles w') = true) as Hall%bool_decide_eq_true_1.
    { apply (run_val (fun x => distinct (wfiles x.2)) _ _ true E). vm_compute. reflexivity. }
    exact (proj1 (Forall_forall _ _) (Hall p data Hf) c Hc Hh).
  - split; [exact Hl|]. split; [exact Hr|exact Hs].
Defined.

(** A PUT refused for its digest, evaluated: the invariant holds in the world it
    leaves. *)
Definition p_bad : PutObjectInput :=
  mkPutObjectInput None s_bucket s_key (Some (map Ok p_frames)) (Some 11) None (Some (repeat "000"%byte 16)).

Lemma p_bad_fits : request_fits s_cfg 5 7 (PutObject (R := Z * Z) p_bad) p_world.
Proof. exact p_fits. Qed.

Lemma s3_requests_keep_accounts_witness :
  (serve (R := Z * Z) s_cfg 5 0 true 9 7 (PutObject p_bad) p_world).1 = Err BadDigest /\
  winv s_cfg (serve (R := Z * Z) s_cfg 5 0 true 9 7 (PutObject p_bad) p_world).2 (fun _ => 0%nat).
Proof.
  pose proof (s3_requests_keep_accounts (R := Z * Z) s_cfg 5 0 true eq_refl 9 7 (PutObject p_bad) p_world (fun _ => 0%nat)
    p_bad_fits p_inv) as [H _].
  split; [vm_compute; reflexivity|exact H].
Defined.

(** An object, then a refused PUT of its key: the key is gone.  The comment says
    the object is rolled back; what is rolled back is the key, and the object
    that was under it is not restored. *)
Lemma refused_put_destroys_the_object :
  fst ((_ ← put_object_op s_cfg 5 0 7 p_input;
   refused ← M_try (put_object_op s_cfg 5 0 8 p_bad);
   found ← M_try (head_object_op s_bucket s_key);
   M_run (fun w => (Ok (refused, found), w))) p_world) = Ok (Err BadDigest, Err NoSuchKey).
Proof. vm_compute. reflexivity. Qed.

(** Deleting a key of a bucket that does not exist answers [NoSuchKey] and
    leaves the bucket existing. *)
Lemma delete_creates_the_bucket :
  fst ((before ← M_try (head_bucket_op s_bucket);
   deleted ← M_try (delete_object_op s_cfg s_bucket s_key);
   after ← M_try (head_bucket_op s_bucket);
   M_run (fun w => (Ok (before, deleted, after), w))) s_world) = Ok (Err NoSuchBucket, Err NoSuchKey, Ok tt).
Proof. vm_compute. reflexivity. Qed.
