(* ===== verification/Config.v ===== *)
(** Configuration (cas-storage/src/config.rs, config/error.rs, store_options.rs
    and the two servers' [resolve] functions): which file is read, what is
    refused in it, and how flags, file and defaults merge into the options a
    store is opened with.

    Parameters: [Toml] is the toml crate with the serde derives of the tables,
    [HumanTime] the humantime crate's duration parser; the files a process sees
    are a predicate and a read.  A [PathBuf] is its text. *)

From S2P Require Import Prelude Bytes Externals BlockIds Records StoreHeader MetaStore Disk Placement MetaOps Engine Stripes Commands Report Scrub Pairing.
From Stdlib Require Import Strings.Byte.
Local Open Scope Z_scope.

Abbreviation PathBuf := bytes.

Definition CONFIG_FILE_NAME : PathBuf := str "qss_storage.toml".
Definition SYSTEM_CONFIG_PATH : PathBuf := str "/etc/qss_storage/qss_storage.toml".
Definition DEFAULT_HASH_ALGO : bytes := str "blake3".
Definition DEFAULT_HASH_WIDTH : Z := 32.
Definition DEFAULT_DURABILITY : Durability := Fsync.
Definition DEFAULT_METADATA_DB : StorageEngine := Fjall.
Definition DEFAULT_VERIFY_ON_READ : bool := false.
Definition DEFAULT_GROUP_COMMIT : bool := false.
Definition DEFAULT_GROUP_COMMIT_WINDOW : Z := 0.
Definition DEFAULT_S3_HOST : bytes := str "localhost".
Definition DEFAULT_S3_PORT : Z := 8014.
Definition DEFAULT_METRICS_HOST : bytes := str "localhost".
Definition DEFAULT_METRICS_PORT : Z := 9100.
Definition DEFAULT_RESP_HOST : bytes := str "127.0.0.1".
Definition DEFAULT_RESP_PORT : Z := 6379.
Definition DEFAULT_RESP_DATA_DIR : PathBuf := str "./data".
Definition DEFAULT_RESP_INLINE_METADATA_SIZE : Z := 1.
Definition DEFAULT_RESP_MAX_VALUE_SIZE : Z := 64 * 1024 * 1024.
Definition DEFAULT_MULTIPART_STALE_TTL_DAYS : Z := 7.

(* ------------------------------------------------------------------ *)
(** * The tables *)

Record HashConfig : Type := mkHashConfig { hc_algo : option bytes; hc_width : option Z }.

Record StoreConfig : Type := mkStoreConfig {
  sc_hash : HashConfig;
  sc_durability : option Durability;
  sc_inline_metadata_size : option Z;
  sc_metadata_db : option StorageEngine;
  sc_verify_on_read : option bool;
  sc_stripe_count : option nat;
  sc_max_blocks_per_commit : option nat;
  sc_group_commit : option bool;
  sc_group_commit_window : option bytes
}.

Record MultipartConfig : Type := mkMultipartConfig { mc_stale_ttl_days : option Z }.
Record MetricsConfig : Type := mkMetricsConfig { mt_host : option bytes; mt_port : option Z }.
Record S3Config : Type := mkS3Config {
  s3_host : option bytes;
  s3_port : option Z;
  s3_access_key : option bytes;
  s3_secret_key : option bytes;
  s3_metrics : option MetricsConfig
}.
Record RespConfig : Type := mkRespConfig {
  rc_host : option bytes;
  rc_port : option Z;
  rc_data_dir : option PathBuf;
  rc_admin_password : option bytes;
  rc_max_value_size : option Z
}.
Record QssStorageConfig : Type := mkQssStorageConfig {
  qc_store : StoreConfig;
  qc_s3 : option S3Config;
  qc_multipart : option MultipartConfig;
  qc_resp : option RespConfig
}.

(** The derived [Default]s: nothing set. *)
Definition HashConfig_default : HashConfig := mkHashConfig None None.
Definition StoreConfig_default : StoreConfig := mkStoreConfig HashConfig_default None None None None None None None None.
Definition MultipartConfig_default : MultipartConfig := mkMultipartConfig None.
Definition MetricsConfig_default : MetricsConfig := mkMetricsConfig None None.
Definition S3Config_default : S3Config := mkS3Config None None None None None.
Definition RespConfig_default : RespConfig := mkRespConfig None None None None None.
Definition QssStorageConfig_default : QssStorageConfig := mkQssStorageConfig StoreConfig_default None None None.

(* ------------------------------------------------------------------ *)
(** * Errors *)

Inductive ConfigError : Type :=
| ConfigNotFound (p : PathBuf)
| ConfigRead (p : PathBuf) (source : IoError)
| ConfigParse (p : PathBuf) (source : bytes)
| UnknownHashAlgo (algo : bytes)
| UnsupportedHashWidth (width : Z)
| UnsupportedStripeCount (count : nat)
| UnsupportedMaxBlocksPerCommit (cap : nat)
| UnsupportedGroupCommitWindow (value reason : bytes).

Definition in_quotes (s : bytes) : bytes := [x22] ++ s ++ [x22].

(** [Display] *)
Definition ConfigError_fmt `{Unicode} (e : ConfigError) : bytes :=
  match e with
  | ConfigNotFound p => str "config file not found: " ++ from_utf8_lossy p
  | ConfigRead p source => str "cannot read config file " ++ from_utf8_lossy p ++ str ": " ++ IoError_fmt source
  | ConfigParse p source => str "invalid config file " ++ from_utf8_lossy p ++ str ":" ++ [x0a] ++ source
  | UnknownHashAlgo algo =>
      str "unknown block hash algorithm " ++ in_quotes algo ++ str " in store.hash.algo (only " ++
      in_quotes DEFAULT_HASH_ALGO ++ str " is supported)"
  | UnsupportedHashWidth width =>
      str "unsupported block hash width " ++ dec width ++ str " in store.hash.width (expected 16 or 32)"
  | UnsupportedStripeCount count =>
      str "unsupported stripe count " ++ dec (Z.of_nat count) ++ str " in store.stripe_count (expected 1 to " ++
      dec MAX_STRIPE_COUNT ++
      str ": 0 would serialize every block writer on one lock, and the stripe index is two bytes wide so anything larger is never reached)"
  | UnsupportedMaxBlocksPerCommit cap =>
      str "unsupported batch cap " ++ dec (Z.of_nat cap) ++
      str " in store.max_blocks_per_commit (expected 1 or more: a batch that may hold no blocks never closes; write 1 for one commit per block, the pre-ADR-0010 cadence)"
  | UnsupportedGroupCommitWindow value reason =>
      str "unusable group commit window " ++ in_quotes value ++ str " in store.group_commit_window: " ++ reason ++
      str " (expected a duration with a unit, such as " ++ in_quotes (str "0ms") ++ str ", " ++ in_quotes (str "250us") ++
      str " or " ++ in_quotes (str "2ms") ++ str "; " ++ in_quotes (str "0ms") ++ str " is the default and means no timer at all)"
  end.

(* ------------------------------------------------------------------ *)
(** * Values *)

(** [FromStr] and [Display] of the two enumerations. *)
Definition Durability_from_str `{Unicode} (s : bytes) : result bytes Durability :=
  let lower := to_lowercase s in
  if decide (lower = str "buffer") then Ok Buffer
  else if decide (lower = str "fsync") then Ok Fsync
  else if decide (lower = str "fdatasync") then
    Err (str "the fdatasync durability level was removed (ADR 0010): the sync boundary is the request ack now, which makes it indistinguishable from fsync in both speed and crash safety -- use fsync or buffer")
  else Err (str "unknown durability option: " ++ s ++ str " (expected buffer or fsync)").
Definition Durability_fmt (d : Durability) : bytes :=
  match d with Buffer => str "buffer" | Fsync => str "fsync" end.

Definition StorageEngine_from_str `{Unicode} (s : bytes) : result bytes StorageEngine :=
  let lower := to_lowercase s in
  if decide (lower = str "fjall") then Ok Fjall
  else if decide (lower = str "fjall_notx") then
    Err (str "the fjall_notx backend was removed (ADR 0007); use fjall with durability = " ++ in_quotes (str "buffer") ++ str " for the fast tier")
  else Err (str "unknown storage engine: " ++ s ++ str " (expected fjall)").
Definition StorageEngine_fmt (e : StorageEngine) : bytes := match e with Fjall => str "fjall" end.

(** [humantime::parse_duration]: nanoseconds, or why the text is no duration. *)
Class HumanTime := { parse_duration : bytes -> result bytes Z }.
(** [toml::from_str]: the tables, or the parser's message. *)
Class Toml := { toml_from_str : bytes -> result bytes QssStorageConfig }.

Definition validate_stripe_count (count : nat) : result ConfigError unit :=
  if (count =? 0)%nat || (MAX_STRIPE_COUNT <? Z.of_nat count) then Err (UnsupportedStripeCount count) else Ok tt.

Definition validate_max_blocks_per_commit (cap : nat) : result ConfigError unit :=
  if (cap =? 0)%nat then Err (UnsupportedMaxBlocksPerCommit cap) else Ok tt.

(** [if let Some(v) = value { check(v)?; }] *)
Definition check_some {A B} (check : A -> result ConfigError B) (value : option A) : result ConfigError unit :=
  match value with Some v => _ ← check v; Ok tt | None => Ok tt end.

Definition hasher (table : HashConfig) : result ConfigError Hasher :=
  let algo := default DEFAULT_HASH_ALGO (hc_algo table) in
  if negb (eq_ignore_ascii_case algo DEFAULT_HASH_ALGO) then Err (UnknownHashAlgo algo) else
  let width := default DEFAULT_HASH_WIDTH (hc_width table) in
  if width =? 16 then Ok Blake3W16
  else if width =? 32 then Ok Blake3W32
  else Err (UnsupportedHashWidth width).

Section Loading.
Context `{HumanTime, Toml}.
Variables (file_exists : PathBuf -> bool) (read_to_string : PathBuf -> result IoError bytes).

Definition parse_group_commit_window (window : bytes) : result ConfigError Z :=
  map_err (UnsupportedGroupCommitWindow window) (parse_duration window).

Definition parse (text : bytes) (p : PathBuf) : result ConfigError QssStorageConfig :=
  config ← map_err (ConfigParse p) (toml_from_str text);
  let store := qc_store config in
  _ ← hasher (sc_hash store);
  _ ← check_some validate_stripe_count (sc_stripe_count store);
  _ ← check_some validate_max_blocks_per_commit (sc_max_blocks_per_commit store);
  _ ← check_some parse_group_commit_window (sc_group_commit_window store);
  Ok config.

Definition load_file (p : PathBuf) : result ConfigError QssStorageConfig :=
  text ← map_err (ConfigRead p) (read_to_string p);
  parse text p.

Definition select_path (explicit : option PathBuf) (candidates : list PathBuf) : result ConfigError (option PathBuf) :=
  match explicit with
  | Some p => if negb (file_exists p) then Err (ConfigNotFound p) else Ok (Some p)
  | None => Ok (snd <$> list_find file_exists candidates)
  end.

Definition default_candidates : list PathBuf := [CONFIG_FILE_NAME; SYSTEM_CONFIG_PATH].

Definition load (explicit : option PathBuf) : result ConfigError (QssStorageConfig * option PathBuf) :=
  selected ← select_path explicit default_candidates;
  match selected with
  | Some p => config ← load_file p; Ok (config, Some p)
  | None => Ok (QssStorageConfig_default, None)
  end.

(* ------------------------------------------------------------------ *)
(** * The merge *)

(** [StoreOptions::default] *)
Definition StoreOptions_default : StoreOptions :=
  mkStoreOptions DEFAULT_METADATA_DB DEFAULT_DURABILITY None DEFAULT_VERIFY_ON_READ Blake3W32 None None
    (if DEFAULT_GROUP_COMMIT then Some (mkGroupCommit DEFAULT_GROUP_COMMIT_WINDOW) else None).

(** [flag.or(file)] *)
Definition first_of {A} (flag file : option A) : option A := match flag with Some a => Some a | None => file end.

(** [StoreOptions::resolve] *)
Definition resolve (metadata_db : option StorageEngine) (durability : option Durability) (inline_metadata_size : option Z)
    (stripe_count : option nat) (store : StoreConfig) : result ConfigError StoreOptions :=
  let stripe_count := first_of stripe_count (sc_stripe_count store) in
  _ ← check_some validate_stripe_count stripe_count;
  _ ← check_some validate_max_blocks_per_commit (sc_max_blocks_per_commit store);
  window ← match sc_group_commit_window store with
           | Some text => parse_group_commit_window text
           | None => Ok DEFAULT_GROUP_COMMIT_WINDOW
           end;
  let group_commit := if default DEFAULT_GROUP_COMMIT (sc_group_commit store) then Some (mkGroupCommit window) else None in
  hash ← hasher (sc_hash store);
  Ok (mkStoreOptions
        (default DEFAULT_METADATA_DB (first_of metadata_db (sc_metadata_db store)))
        (default DEFAULT_DURABILITY (first_of durability (sc_durability store)))
        (first_of inline_metadata_size (sc_inline_metadata_size store))
        (default DEFAULT_VERIFY_ON_READ (sc_verify_on_read store))
        hash stripe_count (sc_max_blocks_per_commit store) group_commit).

(* ------------------------------------------------------------------ *)
(** * The servers *)

(** The flags of [s3cas server]. *)
Record ServerConfig : Type := mkServerConfig {
  sv_fs_root : PathBuf;
  sv_meta_root : PathBuf;
  sv_host : option bytes;
  sv_port : option Z;
  sv_metric_host : option bytes;
  sv_metric_port : option Z;
  sv_inline_metadata_size : option Z;
  sv_access_key : option bytes;
  sv_secret_key : option bytes;
  sv_metadata_db : option StorageEngine;
  sv_durability : option Durability;
  sv_multipart_stale_ttl_days : option Z;
  sv_stripe_count : option nat
}.

Record ResolvedServerConfig : Type := mkResolvedServerConfig {
  rs_fs_root : PathBuf;
  rs_meta_root : PathBuf;
  rs_host : bytes;
  rs_port : Z;
  rs_metric_host : bytes;
  rs_metric_port : Z;
  rs_access_key : bytes;
  rs_secret_key : bytes;
  rs_store : StoreOptions;
  rs_multipart_stale_ttl_days : Z
}.

(** [bail!], or an error passed on. *)
Inductive StartError : Type :=
| CredentialsRequired
| BadConfig (e : ConfigError).

Definition resolve_server (flags : ServerConfig) (config : QssStorageConfig) : result StartError ResolvedServerConfig :=
  let s3 := default S3Config_default (qc_s3 config) in
  let metrics := default MetricsConfig_default (s3_metrics s3) in
  let multipart := default MultipartConfig_default (qc_multipart config) in
  store ← map_err BadConfig (resolve (sv_metadata_db flags) (sv_durability flags) (sv_inline_metadata_size flags)
    (sv_stripe_count flags) (qc_store config));
  match first_of (sv_access_key flags) (s3_access_key s3), first_of (sv_secret_key flags) (s3_secret_key s3) with
  | Some access_key, Some secret_key =>
      Ok (mkResolvedServerConfig (sv_fs_root flags) (sv_meta_root flags)
            (default DEFAULT_S3_HOST (first_of (sv_host flags) (s3_host s3)))
            (default DEFAULT_S3_PORT (first_of (sv_port flags) (s3_port s3)))
            (default DEFAULT_METRICS_HOST (first_of (sv_metric_host flags) (mt_host metrics)))
            (default DEFAULT_METRICS_PORT (first_of (sv_metric_port flags) (mt_port metrics)))
            access_key secret_key store
            (default DEFAULT_MULTIPART_STALE_TTL_DAYS (first_of (sv_multipart_stale_ttl_days flags) (mc_stale_ttl_days multipart))))
  | _, _ => Err CredentialsRequired
  end.

(** The flags of [respcas]. *)
Record Opt : Type := mkOpt {
  op_data_dir : option PathBuf;
  op_port : option Z;
  op_host : option bytes;
  op_admin : option bytes
}.

Record ResolvedConfig : Type := mkResolvedConfig {
  rd_data_dir : PathBuf;
  rd_host : bytes;
  rd_port : Z;
  rd_admin : option bytes;
  rd_max_value_size : Z;
  rd_store : StoreOptions
}.

Definition resolve_respcas (flags : Opt) (config : QssStorageConfig) : result ConfigError ResolvedConfig :=
  let resp := default RespConfig_default (qc_resp config) in
  store ← resolve None None None None (qc_store config);
  Ok (mkResolvedConfig
        (default DEFAULT_RESP_DATA_DIR (first_of (op_data_dir flags) (rc_data_dir resp)))
        (default DEFAULT_RESP_HOST (first_of (op_host flags) (rc_host resp)))
        (default DEFAULT_RESP_PORT (first_of (op_port flags) (rc_port resp)))
        (first_of (op_admin flags) (rc_admin_password resp))
        (default DEFAULT_RESP_MAX_VALUE_SIZE (rc_max_value_size resp))
        (mkStoreOptions (opt_metadata_db store) (opt_durability store)
           (Some (default DEFAULT_RESP_INLINE_METADATA_SIZE (opt_inline_metadata_size store)))
           (opt_verify_on_read store) (opt_hasher store) (opt_stripe_count store)
           (opt_max_blocks_per_commit store) (opt_group_commit store))).

(* ------------------------------------------------------------------ *)
(** * The sweeper's timer *)

Definition SECONDS_PER_DAY : Z := 24 * 60 * 60.
(** In nanoseconds, as is the period below. *)
Definition MIN_SWEEP_PERIOD : Z := 60 * 60 * 10 ^ 9.

(** [spawn_stale_upload_gc]: the age at which a sweep reaps an upload, in
    seconds, and the time between two sweeps; no task with a limit of zero. *)
Definition stale_upload_gc (ttl_days : Z) : option (Z * Z) :=
  if ttl_days =? 0 then None else
  let ttl := Z.min (ttl_days * SECONDS_PER_DAY) u64_max in
  Some (ttl, Z.max (ttl * 10 ^ 9 / 20) MIN_SWEEP_PERIOD).
End Loading.
