(* ===== verification/ConfigProps.v ===== *)
(** What a configuration is worth: the file that is read, what refuses it, and
    that whatever is accepted opens a store that can do its work. *)

From S2P Require Import Prelude Bytes Externals BlockIds Records StoreHeader MetaStore Disk Placement MetaOps Engine Stripes Commands Report Scrub Pairing Config.
From Stdlib Require Import Strings.Byte.
Local Open Scope Z_scope.
#[local] Set Warnings "-clear-no-such-hyp".

(** Unpacks a chain of fallible steps that ended. *)
Ltac steps H :=
  repeat match type of H with
  | mbind _ ?m = _ => let E := fresh "E" in destruct m eqn:E; cbn [mbind result_bind] in H; [|]
  end.

Lemma bind_ok {E A B} (m : result E A) (k : A -> result E B) b : m ≫= k = Ok b -> exists a, m = Ok a /\ k a = Ok b.
Proof. destruct m as [a|e]; [|done]. by exists a. Qed.

Lemma bind_err {E A B} (m : result E A) (k : A -> result E B) e :
  m ≫= k = Err e -> m = Err e \/ exists a, m = Ok a /\ k a = Err e.
Proof. destruct m as [a|e']; [right; by exists a|]. intros [= ->]. by left. Qed.

Section Claims.
Context `{HumanTime, Toml}.
Variables (file_exists : PathBuf -> bool) (read_to_string : PathBuf -> result IoError bytes).
Abbreviation load := (load file_exists read_to_string).

Lemma validate_stripe_count_ok n : validate_stripe_count n = Ok tt <-> (1 <= n)%nat /\ Z.of_nat n <= MAX_STRIPE_COUNT.
Proof.
  unfold validate_stripe_count. destruct (Nat.eqb_spec n 0), (Z.ltb_spec MAX_STRIPE_COUNT (Z.of_nat n)); cbn; split; (done || lia).
Qed.

Lemma validate_max_blocks_ok n : validate_max_blocks_per_commit n = Ok tt <-> (1 <= n)%nat.
Proof. unfold validate_max_blocks_per_commit. destruct (Nat.eqb_spec n 0); split; (done || lia). Qed.

Lemma check_some_ok {A B} (check : A -> result ConfigError B) v :
  check_some check v = Ok tt <-> forall a, v = Some a -> exists b, check a = Ok b.
Proof.
  unfold check_some. destruct v as [a|]; [|by split]. split.
  - intros (b & Hb & _)%bind_ok a' [= <-]. by exists b.
  - intros Hv. destruct (Hv a eq_refl) as [b Hb]. by rewrite Hb.
Qed.

Lemma check_some_unit {A B} (check : A -> result ConfigError B) v u : check_some check v = Ok u -> check_some check v = Ok tt.
Proof. by destruct u. Qed.

(* ------------------------------------------------------------------ *)
(** * A store that can do its work *)

(** Each stripe is the stripe of some block, a batch may hold a block, and what
    [SharedBlockStore::new] would clamp it does not. *)
Definition usable (opts : StoreOptions) : Prop :=
  let stripes := new_stripes (default DEFAULT_STRIPE_COUNT (opt_stripe_count opts)) in
  let cap := default DEFAULT_MAX_BLOCKS_PER_COMMIT (opt_max_blocks_per_commit opts) in
  st_len stripes = default DEFAULT_STRIPE_COUNT (opt_stripe_count opts) /\
  (forall k, (k < st_len stripes)%nat -> exists i, BlockId_wf i /\ index_of stripes i = Some k) /\
  Nat.max cap 1 = cap.

(** The block whose address starts with the two bytes of [k]. *)
Definition block_on (k : nat) : BlockId :=
  from_array16 (byte_of_Z (Z.of_nat k / 256) :: byte_of_Z (Z.of_nat k mod 256) :: replicate 14 x00).

Lemma land_shifted a b : Z.land (Z.shiftl a 8) (b mod 256) = 0.
Proof.
  apply Z.bits_inj'. intros n Hn. rewrite Z.land_spec, Z.bits_0. change 256 with (2 ^ 8). destruct (Z.ltb_spec n 8).
  - by rewrite Z.shiftl_spec_low.
  - rewrite (Z.mod_pow2_bits_high b) by lia. apply andb_false_r.
Qed.

Lemma block_on_index stripes k : (k < st_len stripes)%nat -> Z.of_nat k < 65536 -> index_of stripes (block_on k) = Some k.
Proof.
  intros Hk Hz. unfold index_of, block_on, from_array16, as_slice. cbn [bid_len bid_bytes]. change (Z.to_nat 16) with 16%nat.
  cbn [take app]. f_equal. rewrite !byte_to_of_Z.
  assert (0 <= Z.of_nat k / 256 < 256) as Hd.
  { split; [apply Z.div_pos; lia|]. apply Z.div_lt_upper_bound; lia. }
  rewrite (Z.mod_small (Z.of_nat k / 256)), Z.mod_mod by lia.
  assert (Z.lor (Z.shiftl (Z.of_nat k / 256) 8) (Z.of_nat k mod 256) = Z.of_nat k) as ->.
  { rewrite <- Z.add_nocarry_lor by apply land_shifted. rewrite Z.shiftl_mul_pow2 by lia.
    change (2 ^ 8) with 256. pose proof (Z.div_mod (Z.of_nat k) 256 ltac:(lia)). lia. }
  rewrite Nat2Z.id. apply Nat.mod_small. lia.
Qed.

Lemma usable_options opts :
  (forall n, opt_stripe_count opts = Some n -> (1 <= n)%nat /\ Z.of_nat n <= MAX_STRIPE_COUNT) ->
  (forall n, opt_max_blocks_per_commit opts = Some n -> (1 <= n)%nat) -> usable opts.
Proof.
  intros Hs Hc. unfold usable. set (n := default DEFAULT_STRIPE_COUNT _).
  assert ((1 <= n)%nat /\ Z.of_nat n <= MAX_STRIPE_COUNT) as [Hn1 Hn2].
  { unfold n. destruct (opt_stripe_count opts) as [m|]; [by apply Hs|]. cbn [default]. unfold DEFAULT_STRIPE_COUNT, MAX_STRIPE_COUNT. lia. }
  assert (st_len (new_stripes n) = n) as El by (cbn; lia). split; [exact El|]. split.
  - intros k Hk. exists (block_on k). split; [by repeat split; left|]. apply block_on_index; [exact Hk|].
    rewrite El in Hk. unfold MAX_STRIPE_COUNT in Hn2. lia.
  - destruct (opt_max_blocks_per_commit opts) as [m|] eqn:E; cbn; [|done]. specialize (Hc m eq_refl). lia.
Qed.

(* ------------------------------------------------------------------ *)
(** * The merge *)

(** A flag wins over the file, the file over the default. *)
Definition precedence {A} (flag file : option A) (d v : A) : Prop :=
  match flag, file with
  | Some a, _ => v = a
  | None, Some a => v = a
  | None, None => v = d
  end.

Lemma precedence_first {A} (flag file : option A) d : precedence flag file d (default d (first_of flag file)).
Proof. by destruct flag, file. Qed.

(** What the file alone decides can be used. *)
Definition file_sound (store : StoreConfig) : Prop :=
  is_ok (hasher (sc_hash store)) /\ check_some validate_max_blocks_per_commit (sc_max_blocks_per_commit store) = Ok tt /\
  check_some parse_group_commit_window (sc_group_commit_window store) = Ok tt.

Definition merged (md : option StorageEngine) (du : option Durability) (inl : option Z) (st : option nat) (store : StoreConfig)
    (opts : StoreOptions) : Prop :=
  precedence md (sc_metadata_db store) DEFAULT_METADATA_DB (opt_metadata_db opts) /\
  precedence du (sc_durability store) DEFAULT_DURABILITY (opt_durability opts) /\
  precedence (Some <$> inl) (Some <$> sc_inline_metadata_size store) None (opt_inline_metadata_size opts) /\
  precedence (Some <$> st) (Some <$> sc_stripe_count store) None (opt_stripe_count opts) /\
  precedence None (sc_verify_on_read store) DEFAULT_VERIFY_ON_READ (opt_verify_on_read opts) /\
  hasher (sc_hash store) = Ok (opt_hasher opts) /\
  opt_max_blocks_per_commit opts = sc_max_blocks_per_commit store /\
  match opt_group_commit opts with
  | None => sc_group_commit store <> Some true
  | Some g => sc_group_commit store = Some true /\
      precedence None (parse_group_commit_window <$> sc_group_commit_window store) (Ok DEFAULT_GROUP_COMMIT_WINDOW) (Ok (gc_window g))
  end.

Lemma precedence_options {A} (flag file : option A) :
  precedence (Some <$> flag) (Some <$> file) None (first_of flag file).
Proof. by destruct flag, file. Qed.

(** Whether the flags and the file resolve, and to what. *)
Lemma resolve_spec md du inl st store :
  match resolve md du inl st store with
  | Ok opts => file_sound store /\ check_some validate_stripe_count (first_of st (sc_stripe_count store)) = Ok tt /\
      merged md du inl st store opts /\ usable opts
  | Err e => match check_some validate_stripe_count (first_of st (sc_stripe_count store)) with
             | Ok _ => ~ file_sound store
             | Err e' => e' = e
             end
  end.
Proof.
  destruct (resolve md du inl st store) as [opts|e] eqn:Er; unfold resolve in Er.
  - apply bind_ok in Er as ([] & Est & Er). apply bind_ok in Er as ([] & Ecap & Er).
    apply bind_ok in Er as (w & Ew & Er). apply bind_ok in Er as (h & Eh & Er). injection Er as <-.
    split; [|split; [exact Est|split]].
    + split; [by rewrite Eh|]. split; [exact Ecap|]. apply check_some_ok. intros text Et. rewrite Et in Ew. by exists w.
    + unfold merged. cbn. split; [apply precedence_first|]. split; [apply precedence_first|]. split; [apply precedence_options|].
      split; [apply precedence_options|]. split; [by destruct (sc_verify_on_read store)|]. split; [exact Eh|]. split; [done|].
      destruct (sc_group_commit store) as [[|]|]; cbn; [|done..]. split; [done|].
      destruct (sc_group_commit_window store) as [text|]; cbn; [done|]. by injection Ew as <-.
    + apply usable_options; cbn.
      * intros n En. rewrite check_some_ok in Est. destruct (Est n En) as [[] Hv]. by apply validate_stripe_count_ok.
      * intros n En. rewrite check_some_ok in Ecap. destruct (Ecap n En) as [[] Hv]. by apply validate_max_blocks_ok.
  - apply bind_err in Er as [->|([] & -> & Er)]; [done|]. intros (Hh & Hcap & Hw). rewrite Hcap in Er. cbn in Er.
    apply bind_err in Er as [Er|(w & _ & Er)].
    + rewrite check_some_ok in Hw. destruct (sc_group_commit_window store) as [text|]; [|done].
      destruct (Hw text eq_refl) as [b Hb]. congruence.
    + by destruct (hasher (sc_hash store)).
Qed.

(** The options of no configuration are those of an empty one. *)
Lemma defaults_agree : resolve None None None None StoreConfig_default = Ok StoreOptions_default.
Proof. reflexivity. Qed.

(** What [s3cas server] starts with, and that it starts only with both
    credentials. *)
Lemma resolve_server_spec flags config :
  let s3 := default S3Config_default (qc_s3 config) in
  let metrics := default MetricsConfig_default (s3_metrics s3) in
  let multipart := default MultipartConfig_default (qc_multipart config) in
  let store := resolve (sv_metadata_db flags) (sv_durability flags) (sv_inline_metadata_size flags) (sv_stripe_count flags) (qc_store config) in
  match resolve_server flags config with
  | Ok rs =>
      store = Ok (rs_store rs) /\
      precedence (sv_host flags) (s3_host s3) DEFAULT_S3_HOST (rs_host rs) /\
      precedence (sv_port flags) (s3_port s3) DEFAULT_S3_PORT (rs_port rs) /\
      precedence (sv_metric_host flags) (mt_host metrics) DEFAULT_METRICS_HOST (rs_metric_host rs) /\
      precedence (sv_metric_port flags) (mt_port metrics) DEFAULT_METRICS_PORT (rs_metric_port rs) /\
      precedence (sv_multipart_stale_ttl_days flags) (mc_stale_ttl_days multipart) DEFAULT_MULTIPART_STALE_TTL_DAYS (rs_multipart_stale_ttl_days rs) /\
      first_of (sv_access_key flags) (s3_access_key s3) = Some (rs_access_key rs) /\
      first_of (sv_secret_key flags) (s3_secret_key s3) = Some (rs_secret_key rs)
  | Err CredentialsRequired => first_of (sv_access_key flags) (s3_access_key s3) = None \/ first_of (sv_secret_key flags) (s3_secret_key s3) = None
  | Err (BadConfig e) => store = Err e
  end.
Proof.
  cbv zeta. unfold resolve_server. destruct (resolve _ _ _ _ _) as [opts|e]; cbn [mbind result_bind map_err]; [|done].
  destruct (first_of (sv_access_key flags) _); [|by left]. destruct (first_of (sv_secret_key flags) _); [|by right].
  split; [done|]. cbn. repeat (split; [apply precedence_first|]). done.
Qed.

(** What [respcas] starts with: every object inlined up to a size. *)
Lemma resolve_respcas_spec flags config :
  let resp := default RespConfig_default (qc_resp config) in
  match resolve_respcas flags config with
  | Ok rd => exists store, resolve None None None None (qc_store config) = Ok store /\
      precedence (op_data_dir flags) (rc_data_dir resp) DEFAULT_RESP_DATA_DIR (rd_data_dir rd) /\
      precedence (op_host flags) (rc_host resp) DEFAULT_RESP_HOST (rd_host rd) /\
      precedence (op_port flags) (rc_port resp) DEFAULT_RESP_PORT (rd_port rd) /\
      rd_admin rd = first_of (op_admin flags) (rc_admin_password resp) /\
      opt_hasher (rd_store rd) = opt_hasher store /\ is_Some (opt_inline_metadata_size (rd_store rd))
  | Err e => resolve None None None None (qc_store config) = Err e
  end.
Proof.
  cbv zeta. unfold resolve_respcas. destruct (resolve _ _ _ _ _) as [store|e]; cbn [mbind result_bind]; [|done].
  exists store. split; [done|]. repeat (split; [apply precedence_first|]). by eauto.
Qed.

(** The file a process reads: the one it was told, or the first there is. *)
Definition selected (explicit : option PathBuf) (p : PathBuf) : Prop :=
  file_exists p = true /\
  match explicit with
  | Some q => p = q
  | None => exists k, default_candidates !! k = Some p /\
      forall j q, default_candidates !! j = Some q -> (j < k)%nat -> file_exists q = false
  end.

Lemma select_path_spec explicit :
  match select_path file_exists explicit default_candidates with
  | Ok (Some p) => selected explicit p
  | Ok None => explicit = None /\ Forall (fun p => file_exists p = false) default_candidates
  | Err e => exists p, explicit = Some p /\ file_exists p = false /\ e = ConfigNotFound p
  end.
Proof.
  unfold select_path. destruct explicit as [p|].
  - destruct (file_exists p) eqn:E; cbn; [by split|by exists p].
  - destruct (list_find _ _) as [[k p]|] eqn:Ef; cbn.
    + apply list_find_Some in Ef as (Hk & Hp & Hj). split; [by apply Is_true_true|]. exists k. split; [exact Hk|].
      intros j q Hq Hlt. specialize (Hj j q Hq Hlt). destruct (file_exists q); [by destruct Hj|done].
    + split; [done|]. apply list_find_None in Ef. eapply Forall_impl; [exact Ef|]. intros q Hq. cbn in Hq. destruct (file_exists q); [by destruct Hq|done].
Qed.

(** The value an error names is a setting of the store's table, and is wrong. *)
Definition blamed (store : StoreConfig) (e : ConfigError) : Prop :=
  match e with
  | UnknownHashAlgo algo => hc_algo (sc_hash store) = Some algo /\ eq_ignore_ascii_case algo DEFAULT_HASH_ALGO = false
  | UnsupportedHashWidth width =>
      hc_width (sc_hash store) = Some width /\ width <> 16 /\ width <> 32 /\
      eq_ignore_ascii_case (default DEFAULT_HASH_ALGO (hc_algo (sc_hash store))) DEFAULT_HASH_ALGO = true
  | UnsupportedStripeCount n => sc_stripe_count store = Some n /\ ~ ((1 <= n)%nat /\ Z.of_nat n <= MAX_STRIPE_COUNT)
  | UnsupportedMaxBlocksPerCommit n => sc_max_blocks_per_commit store = Some n /\ n = 0%nat
  | UnsupportedGroupCommitWindow value reason => sc_group_commit_window store = Some value /\ parse_duration value = Err reason
  | ConfigNotFound _ | ConfigRead _ _ | ConfigParse _ _ => False
  end.

Lemma hasher_blamed store e : hasher (sc_hash store) = Err e -> blamed store e.
Proof.
  unfold hasher. destruct (eq_ignore_ascii_case _ _) eqn:Ea; cbn [negb].
  - destruct (Z.eqb_spec (default DEFAULT_HASH_WIDTH (hc_width (sc_hash store))) 16); [done|].
    destruct (Z.eqb_spec (default DEFAULT_HASH_WIDTH (hc_width (sc_hash store))) 32); [done|]. intros [= <-]. cbn [blamed].
    destruct (hc_width (sc_hash store)) as [w|]; cbn in *; [by split_and!|by unfold DEFAULT_HASH_WIDTH in *].
  - intros [= <-]. cbn [blamed]. destruct (hc_algo (sc_hash store)) as [a|]; cbn in *; [done|]. by vm_compute in Ea.
Qed.

Lemma check_some_inv {A B} (check : A -> result ConfigError B) v e :
  check_some check v = Err e -> exists a, v = Some a /\ check a = Err e.
Proof. destruct v as [a|]; [|done]. unfold check_some. intros [E|(b & _ & E)]%bind_err; [eauto|done]. Qed.

Lemma stripes_blamed store e : check_some validate_stripe_count (sc_stripe_count store) = Err e -> blamed store e.
Proof.
  intros (n & En & E)%check_some_inv. pose proof (validate_stripe_count_ok n) as Hn. rewrite E in Hn.
  unfold validate_stripe_count in E. destruct (_ || _); [|done]. injection E as <-. cbn [blamed]. split; [done|].
  intros Hr. by apply Hn in Hr.
Qed.

Lemma cap_blamed store e : check_some validate_max_blocks_per_commit (sc_max_blocks_per_commit store) = Err e -> blamed store e.
Proof.
  intros (n & En & E)%check_some_inv. unfold validate_max_blocks_per_commit in E.
  destruct (Nat.eqb_spec n 0) as [->|]; [|done]. by injection E as <-.
Qed.

Lemma window_blamed store e : check_some parse_group_commit_window (sc_group_commit_window store) = Err e -> blamed store e.
Proof.
  intros (text & Et & E)%check_some_inv. unfold parse_group_commit_window in E.
  destruct (parse_duration text) as [d|r] eqn:Ep; [done|]. by injection E as <-.
Qed.

(** In a table that passes the checks nothing is to blame. *)
Lemma sound_blameless store e :
  file_sound store -> check_some validate_stripe_count (sc_stripe_count store) = Ok tt -> ~ blamed store e.
Proof.
  intros (Hh & Hc & Hw) Hs. rewrite check_some_ok in Hc. rewrite check_some_ok in Hw. rewrite check_some_ok in Hs.
  unfold hasher in Hh. destruct e; cbn [blamed]; [by intros []..|intros [E Hb] | intros (E & H1 & H2 & Ha) | intros [E Hb] | intros [E Hb] | intros [E Hb]].
  - rewrite E in Hh. cbn [default from_option id] in Hh. by rewrite Hb in Hh.
  - rewrite Ha, E in Hh. cbn [negb default from_option id] in Hh. rewrite (proj2 (Z.eqb_neq _ _) H1), (proj2 (Z.eqb_neq _ _) H2) in Hh. done.
  - destruct (Hs _ E) as [[] Hv]. by apply validate_stripe_count_ok in Hv.
  - destruct (Hc _ E) as [[] Hv]. apply validate_max_blocks_ok in Hv. lia.
  - destruct (Hw _ E) as [d Hv]. unfold parse_group_commit_window in Hv. by rewrite Hb in Hv.
Qed.

(** A text parses to a configuration whose store can be opened, or is refused
    for its syntax or for a value the error names. *)
Lemma parse_spec text p :
  match parse text p with
  | Ok config => toml_from_str text = Ok config /\ file_sound (qc_store config) /\
      check_some validate_stripe_count (sc_stripe_count (qc_store config)) = Ok tt
  | Err (ConfigParse q m) => q = p /\ toml_from_str text = Err m
  | Err e => exists config, toml_from_str text = Ok config /\ blamed (qc_store config) e
  end.
Proof.
  unfold parse. destruct (toml_from_str text) as [config|m]; cbn [mbind result_bind map_err]; [|done].
  destruct (_ ← hasher (sc_hash (qc_store config)); _) as [c|e] eqn:E.
  - apply bind_ok in E as (h & Eh & E). apply bind_ok in E as ([] & Es & E). apply bind_ok in E as ([] & Ec & E).
    apply bind_ok in E as ([] & Ew & E). injection E as <-. split; [done|]. split; [|exact Es].
    unfold file_sound. rewrite Eh. by split.
  - assert (blamed (qc_store config) e) as Hb.
    { apply bind_err in E as [E|(h & _ & E)]; [by apply hasher_blamed|].
      apply bind_err in E as [E|([] & _ & E)]; [by apply stripes_blamed|].
      apply bind_err in E as [E|([] & _ & E)]; [by apply cap_blamed|].
      apply bind_err in E as [E|([] & _ & E)]; [by apply window_blamed|done]. }
    destruct e; try done; by exists config.
Qed.

Lemma stripe_flag_blamed st store e :
  match check_some validate_stripe_count (first_of st (sc_stripe_count store)) with Ok _ => ~ file_sound store | Err e' => e' = e end ->
  file_sound store -> check_some validate_stripe_count (sc_stripe_count store) = Ok tt ->
  exists n, st = Some n /\ e = UnsupportedStripeCount n /\ ~ ((1 <= n)%nat /\ Z.of_nat n <= MAX_STRIPE_COUNT).
Proof.
  intros He Hf Hst. destruct st as [n|]; cbn [first_of] in He; [|by rewrite Hst in He]. exists n. split; [done|].
  rewrite <- validate_stripe_count_ok. unfold check_some in He. unfold validate_stripe_count in *.
  destruct (_ || _); cbn in He; [by subst|done].
Qed.

(** C38: What is loaded can be run, and what is refused is to blame.  The file
    read is the one named, or the first candidate there is; a named file that
    is missing is an error and never a reason to fall back, and without any
    file the built-in defaults are in force.  A configuration loads exactly
    when no setting of its store table is wrong, and then it resolves, whatever
    the flags, unless a stripe count flag is out of range, which the error
    names: each setting is the flag's, or the file's, or the default; every
    stripe of the options is the stripe of some block, and a batch may hold a
    block, as written and not by clamping.  A refusal is the file's I/O error,
    its syntax error, or the error that names a setting of the table by its
    own kind and with the value the file gives it, and that value is wrong. *)
Theorem loaded_configuration_runs explicit md du inl st :
  match load explicit with
  | Ok (config, source) =>
      match source with
      | Some p => selected explicit p /\ exists text, read_to_string p = Ok text /\ toml_from_str text = Ok config
      | None => explicit = None /\ Forall (fun p => file_exists p = false) default_candidates /\ config = QssStorageConfig_default
      end /\
      (forall e, ~ blamed (qc_store config) e) /\
      match resolve md du inl st (qc_store config) with
      | Ok opts => merged md du inl st (qc_store config) opts /\ usable opts
      | Err e => exists n, st = Some n /\ e = UnsupportedStripeCount n /\ ~ ((1 <= n)%nat /\ Z.of_nat n <= MAX_STRIPE_COUNT)
      end
  | Err (ConfigNotFound p) => explicit = Some p /\ file_exists p = false
  | Err (ConfigRead p e) => selected explicit p /\ read_to_string p = Err e
  | Err (ConfigParse p m) => selected explicit p /\ exists text, read_to_string p = Ok text /\ toml_from_str text = Err m
  | Err e => exists p text config, selected explicit p /\ read_to_string p = Ok text /\ toml_from_str text = Ok config /\
      blamed (qc_store config) e
  end.
Proof.
  unfold Config.load. pose proof (select_path_spec explicit) as Hsel.
  destruct (select_path _ _ _) as [[p|]|e]; cbn [mbind result_bind]; [| |by destruct Hsel as (p & -> & Hp & ->)].
  - unfold load_file. destruct (read_to_string p) as [text|e] eqn:Et; cbn [mbind result_bind map_err]; [|by split].
    pose proof (parse_spec text p) as Hp. destruct (parse text p) as [config|e]; cbn [mbind result_bind].
    + destruct Hp as (Htoml & Hf & Hst). split; [split; [exact Hsel|by exists text]|].
      split; [intros e; by apply sound_blameless|].
      pose proof (resolve_spec md du inl st (qc_store config)) as Hr. destruct (resolve _ _ _ _ _) as [opts|e].
      * by destruct Hr as (_ & _ & Hm & Hu).
      * apply stripe_flag_blamed in Hr; [|done..]. exact Hr.
    + destruct e; try (destruct Hp as (config & Htoml & Hb); first [done | by exists p, text, config]).
      destruct Hp as [-> Hm]. split; [exact Hsel|by exists text].
  - destruct Hsel as [-> Hnone]. split; [by split|]. split; [intros e; by apply sound_blameless|].
    pose proof (resolve_spec md du inl st (qc_store QssStorageConfig_default)) as Hr. destruct (resolve _ _ _ _ _) as [opts|e].
    + by destruct Hr as (_ & _ & Hm & Hu).
    + apply stripe_flag_blamed in Hr; [|done..]. exact Hr.
Qed.
End Claims.
