(* ===== verification/Tools.v ===== *)
(** The command-line tools: [CasFS::single_namespace] (cas/fs.rs) as every tool
    opens a store, [s3cas check] (s3cas/src/check.rs), [s3cas retrieve]
    (retrieve.rs), [s3cas inspect] (inspect.rs) and [qss-storage-fsck]
    (qss-storage-fsck/src/main.rs).

    The state is the engine's [World]; of the console, what reaches the standard
    output, the notes on the standard error about writes that did not, and the
    schedule of how the writes turn out.  The backend's open is the argument
    [build]; the clock and the ids that may be minted are in [Minted];
    [serde_json] is the class [Json].  The destination file of [retrieve] is
    outside the store: its model answers the bytes that are written to it. *)

From S2P Require Import Prelude Bytes Orders Resp Externals BlockIds Codec Records StoreHeader MetaStore Disk BlockStream Placement MetaOps Accounting Engine BatchSpecs Stripes Commands Uploads Scan Listing S3Api Report Scrub Passes Repair Pairing Config.
From Stdlib Require Import Strings.Byte.
Local Open Scope Z_scope.

(** The block store and what one namespace adds to it. *)
Record CasFS : Type := mkCasFS { cf_shared : SharedBlockStore; cf_verify_on_read : bool }.

Record Minted : Type := mkMinted { mi_now : Z; mi_blocks_id : StoreId; mi_pair_id : StoreId; mi_namespace_id : StoreId }.

Inductive BlockFault : Type :=
| Unreadable (id : BlockId) (p : path) (error : IoError)
| Mismatch (id : BlockId) (p : path) (actual : BlockId).

(** What an [anyhow::Error] of the tools says. *)
Inductive ToolError : Type :=
| NoStoreAt (p : path)
| NoBucketIn (p : path) (bucket : bytes)
| ToolConfig (e : ConfigError)
| ToolMeta (e : MetaError)
| ToolEngine (e : EngErr)
| ToolStream (e : StreamError)
| ToolPairing (e : PairingError)
| ToolScrub (e : ScrubError)
| ToolRepair (e : RepairError)
| ToolJson
| RootsRequired
| CheckFailed (faults : list BlockFault) (blocks : nat) (etag_ok : bool)
| StreamCrashed
| StreamUnfinished.

Class Json := { report_json : Report -> option bytes; summary_json : RepairSummary -> option bytes }.

Definition namespace_db (meta_root : path) : path := meta_root ++ [str "db"].

Section Tools.
Context {S T D : Type} `{Store S T, BlockDiskOps D, !StdFs D, !ScrubFs D, !RepairFs D, !DiskView D, Blake3, Md5, FasterHex, !FasterHexSpelling, Unicode, Json}.
Abbreviation TW := (World S D).
Abbreviation HM := (M (Home S D) MetaError).
Abbreviation HS := (Home S (DiskState D)).
Abbreviation TM := (M TW ToolError).
Variable build : StoreOptions -> path -> HM unit.

(** A call on the shared half, or on the namespace half, of the world. *)
Definition on_shared_home {E A} (f : E -> ToolError) (m : M HS E A) : TM A := fun w =>
  let '(r, h) := m (mkHome (w_shared w) (w_disk w)) in
  (map_err f r, mkWorld (w_ns w) (h_store h) (h_disk h) (w_counters w)).

Definition on_ns_home {E A} (f : E -> ToolError) (m : M HS E A) : TM A := fun w =>
  let '(r, h) := m (mkHome (w_ns w) (w_disk w)) in
  (map_err f r, mkWorld (h_store h) (w_shared w) (h_disk h) (w_counters w)).

(* ------------------------------------------------------------------ *)
(** * Opening *)

(** [CasFS::new] *)
Definition CasFS_new (minted : Minted) (namespace_meta_path : path) (shared : SharedBlockStore) (opts : StoreOptions) : TM CasFS :=
  namespace_meta_path ← on_ns_home ToolMeta (made_canonical (namespace_db namespace_meta_path));
  let spec := spec_of_hasher (sbs_hasher shared) in
  _ ← on_ns_home ToolMeta (at_header (open_or_create (mi_now minted) (mi_namespace_id minted) namespace_meta_path spec (build opts)));
  mret (mkCasFS shared (opt_verify_on_read opts)).

Definition single_namespace (minted : Minted) (root meta_path : path) (opts : StoreOptions) : TM CasFS :=
  shared ← on_shared_home ToolMeta (open_store (mi_now minted) (mi_blocks_id minted) (mi_pair_id minted) (build opts)
    (meta_path ++ [str "blocks"]) (root ++ [str "blocks"]) opts);
  CasFS_new minted meta_path shared opts.

(** One database, and [bail!] when there is none. *)
Definition refuse_unless_db (db : path) : TM unit :=
  init ← on_ns_home ToolMeta (at_header (classify_db_dir db));
  match init with Create => M_err (NoStoreAt db) | Open => mret tt end.

Definition refuse_unless_store_exists (meta_root : path) : TM unit :=
  _ ← refuse_unless_db (namespace_db meta_root);
  refuse_unless_db (blocks_db_path meta_root).

(* ------------------------------------------------------------------ *)
(** * [s3cas inspect] *)

(** [open_existing] of the namespace database; [on_shared_home] in the place of
    [on_ns_home] opens the blocks database. *)
Definition open_existing (at_home : forall A, M HS MetaError A -> TM A) (minted : Minted) (db_path : path) (store : StoreOptions) : TM StoreHeader :=
  init ← at_home _ (at_header (classify_db_dir db_path));
  match init with
  | Create => M_err (NoStoreAt db_path)
  | Open => at_home _ (at_header (open_or_create (mi_now minted) (mi_namespace_id minted) db_path (header_spec store) (build store)))
  end.

Definition at_namespace_db : forall A, M HS MetaError A -> TM A := fun A => on_ns_home ToolMeta.
Definition at_shared_db : forall A, M HS MetaError A -> TM A := fun A => on_shared_home ToolMeta.

Definition inspect_num_keys (minted : Minted) (meta_root : path) (store : StoreOptions) (bucket_name : bytes) : TM Z :=
  let db_path := namespace_db meta_root in
  _ ← open_existing at_namespace_db minted db_path store;
  present ← at_namespace_db _ (at_header (with_store (tree_exists bucket_name)));
  if negb (present : bool) then M_err (NoBucketIn db_path bucket_name) else
  at_namespace_db _ (at_header (with_store (num_keys_of bucket_name))).

Record LabelledHeader : Type := mkLabelledHeader { lh_label : bytes; lh_path : path; lh_header : StoreHeader }.

Definition inspect_headers (minted : Minted) (meta_root : path) (store : StoreOptions) : TM (list LabelledHeader) :=
  let path := namespace_db meta_root in
  header ← open_existing at_namespace_db minted path store;
  let out := [mkLabelledHeader (str "namespace DB") path header] in
  let path := blocks_db_path meta_root in
  init ← at_shared_db _ (at_header (classify_db_dir path));
  match init with
  | Open =>
      header ← open_existing at_shared_db minted path store;
      mret (out ++ [mkLabelledHeader (str "blocks DB") path header])
  | Create => mret out
  end.

(* ------------------------------------------------------------------ *)
(** * [s3cas check] and [s3cas retrieve] *)

(** A call of the file system whose failure is looked at. *)
Definition try_disk {A} (m : M D IoError A) : TM (result IoError A) := fun w =>
  let '(r, d') := m (ds_disk (w_disk w)) in
  (Ok r, mkWorld (w_ns w) (w_shared w) (mkDiskState d' (ds_known_durable (w_disk w)) (ds_nonce (w_disk w))) (w_counters w)).

Definition block_fault (hasher : Hasher) (id : BlockId) (p : path) (read : result IoError bytes) : option BlockFault :=
  match read with
  | Err e => Some (Unreadable id p e)
  | Ok bytes =>
      let actual := hash_block hasher bytes in
      if decide (actual = id) then None else Some (Mismatch id p actual)
  end.

Fixpoint verify_from (hasher : Hasher) (blocks : list (BlockId * (path * Z))) (faults : list BlockFault) : TM (list BlockFault) :=
  match blocks with
  | [] => mret faults
  | (id, (p, _)) :: blocks' =>
      read ← try_disk (fs_read p);
      verify_from hasher blocks' (match block_fault hasher id p read with Some f => faults ++ [f] | None => faults end)
  end.

Definition verify_blocks (hasher : Hasher) (obj_meta : Object) (paths : list (path * Z)) : TM (list BlockFault) :=
  verify_from hasher (zip (o_blocks obj_meta) paths) [].

(** The loop over the stream: the bytes so far, and how it ended.  [answers] is
    the schedule of the reads. *)
Definition drain_stream (answers : list IoAnswer) (paths : list (path * Z)) (w : TW) : bytes * result ToolError unit :=
  let '(chunks, f) := consume (wfiles w) answers (new_stream paths (blocks_size paths) All) in
  (concat chunks, match f with
                  | Finished => Ok tt
                  | FailedWith e => Err (ToolStream e)
                  | Crashed => Err StreamCrashed
                  | Unfinished => Err StreamUnfinished
                  end).

Definition read_object (answers : list IoAnswer) (obj_meta : Object) (paths : list (path * Z)) : TM bytes :=
  match o_inlined obj_meta with
  | Some inline_data => mret inline_data
  | None => M_run (fun w => match drain_stream answers paths w with (data, Ok _) => (Ok data, w) | (_, Err e) => (Err e, w) end)
  end.

Inductive CheckOutcome : Type :=
| ObjectNotFound
| CheckPassed (blocks : nat).

Definition check_object (answers : list IoAnswer) (casfs : CasFS) (bucket key : bytes) : TM CheckOutcome :=
  found ← m_map_err ToolEngine (get_object_paths (cfg_of (cf_shared casfs)) bucket key);
  match found with
  | None => mret ObjectNotFound
  | Some (obj_meta, paths) =>
      faults ← verify_blocks (sbs_hasher (cf_shared casfs)) obj_meta paths;
      data ← read_object answers obj_meta paths;
      let etag_ok := bool_decide (md5_digest data = ch_bytes (o_hash obj_meta)) in
      if negb (bool_decide (faults = [])) || negb etag_ok
      then M_err (CheckFailed faults (length (o_blocks obj_meta)) etag_ok)
      else mret (CheckPassed (length (o_blocks obj_meta)))
  end.

(** Whatever the configuration says, no verification and no commit station. *)
Definition reading_options (store : StoreOptions) : StoreOptions :=
  mkStoreOptions (opt_metadata_db store) (opt_durability store) (opt_inline_metadata_size store) false (opt_hasher store)
    (opt_stripe_count store) (opt_max_blocks_per_commit store) None.

Definition check_integrity (answers : list IoAnswer) (minted : Minted) (meta_root fs_root : path) (bucket key : bytes)
    (store : StoreOptions) : TM CheckOutcome :=
  _ ← refuse_unless_store_exists meta_root;
  casfs ← single_namespace minted fs_root meta_root (reading_options store);
  check_object answers casfs bucket key.

(** The bytes written to the destination, and how it ended; [None] when there
    is no such object and no file is made. *)
Definition retrieve_object (answers : list IoAnswer) (casfs : CasFS) (bucket key : bytes) : TM (option (bytes * result ToolError unit)) :=
  found ← m_map_err ToolEngine (get_object_paths (cfg_of (cf_shared casfs)) bucket key);
  match found with
  | None => mret None
  | Some (obj_meta, paths) =>
      match o_inlined obj_meta with
      | Some data => mret (Some (data, Ok tt))
      | None => M_run (fun w => (Ok (Some (drain_stream answers paths w)), w))
      end
  end.

Definition without_station (store : StoreOptions) : StoreOptions :=
  mkStoreOptions (opt_metadata_db store) (opt_durability store) (opt_inline_metadata_size store) (opt_verify_on_read store)
    (opt_hasher store) (opt_stripe_count store) (opt_max_blocks_per_commit store) None.

Definition retrieve (answers : list IoAnswer) (minted : Minted) (meta_root fs_root : path) (bucket key : bytes)
    (store : StoreOptions) : TM (option (bytes * result ToolError unit)) :=
  _ ← refuse_unless_store_exists meta_root;
  casfs ← single_namespace minted fs_root meta_root (without_station store);
  retrieve_object answers casfs bucket key.

(* ------------------------------------------------------------------ *)
(** * [qss-storage-fsck] *)

Record Cli : Type := mkCli {
  cl_meta_root : option path;
  cl_fs_root : option path;
  cl_metadata_db : option StorageEngine;
  cl_durability : option Durability;
  cl_inline_metadata_size : option Z;
  cl_scrub : bool;
  cl_repair : bool;
  cl_json : bool;
  cl_re_pair : bool
}.

(** How writing a text to the standard output and flushing it turns out: all of
    it is out, or the first bytes only, and an error. *)
Inductive Written : Type :=
| AllOut
| CutShort (reached : nat) (e : IoError).

(** The store; the texts that reached the standard output and the notes on the
    standard error; and how the writes to come will turn out (once the list is
    used up, well). *)
Record Console : Type := mkConsole {
  cn_world : TW;
  cn_out : list bytes;
  cn_err : list bytes;
  cn_writes : list Written
}.
Abbreviation CM := (M Console ToolError).

Definition on_cn_store {A} (m : TM A) : CM A := fun c =>
  let '(r, w) := m (cn_world c) in (r, mkConsole w (cn_out c) (cn_err c) (cn_writes c)).

Definition not_written (e : IoError) : bytes := str "qss-storage-fsck: writing the report: " ++ IoError_fmt e.

(** Written and flushed.  A write that fails ends nothing: it is noted on the
    standard error, or passed over when the reader has gone away. *)
Definition emit (text : bytes) : CM unit := fun c =>
  match cn_writes c with
  | CutShort reached e :: writes =>
      (Ok tt, mkConsole (cn_world c) (cn_out c ++ [take reached text])
                (match io_kind e with IoBrokenPipe => cn_err c | _ => cn_err c ++ [not_written e] end) writes)
  | writes => (Ok tt, mkConsole (cn_world c) (cn_out c ++ [text]) (cn_err c) (tail writes))
  end.

Definition emit_json (j : option bytes) : CM unit :=
  match j with Some text => emit (text ++ newline) | None => M_err ToolJson end.

Definition emit_report (report : Report) (json : bool) : CM unit :=
  if json then emit_json (report_json report) else emit (render_text report).

Definition emit_summary (summary : RepairSummary) (json : bool) : CM unit :=
  if json then emit_json (summary_json summary) else emit (render_repair summary).

Definition or_here (p : option path) : path := default [str "."] p.

Definition run_re_pair (cli : Cli) : CM Z :=
  match cl_meta_root cli, cl_fs_root cli with
  | Some meta_root, Some fs_root =>
      done ← on_cn_store (on_shared_home ToolPairing (re_pair (build StoreOptions_default) meta_root fs_root));
      _ ← emit (render_re_pair done);
      mret EXIT_CLEAN
  | _, _ => M_err RootsRequired
  end.

Definition context_of (casfs : CasFS) (meta_root : path) : ScrubContext :=
  mkScrubContext (cfg_of (cf_shared casfs)) (Some meta_root).

(** The passes, the report, and the repair if asked for; [fuel] bounds the walks
    and [now] is the clock of the upload report. *)
Definition report_and_repair (fuel : nat) (now : Z) (cli : Cli) (ctx : ScrubContext) : CM Z :=
  let options := if cl_scrub cli then full else metadata_only in
  report ← on_cn_store (m_map_err ToolScrub (Passes.run fuel now ctx options));
  _ ← emit_report report (cl_json cli);
  if negb (cl_repair cli) then mret (rp_exit_code report) else
  summary ← on_cn_store (m_map_err ToolRepair (repair fuel ctx now report options));
  _ ← emit_summary summary (cl_json cli);
  mret (exit_code summary).

(** What opening comes to, from the loaded configuration on. *)
Definition open_for_fsck `{HumanTime} (minted : Minted) (config : QssStorageConfig) (cli : Cli) : TM CasFS :=
  store ← M_lift (map_err ToolConfig (resolve (cl_metadata_db cli) (cl_durability cli) (cl_inline_metadata_size cli) None (qc_store config)));
  _ ← refuse_unless_store_exists (or_here (cl_meta_root cli));
  single_namespace minted (or_here (cl_fs_root cli)) (or_here (cl_meta_root cli)) (reading_options store).

(** [run]; [loaded] is what [config::load] came to. *)
Definition fsck_run `{HumanTime} (fuel : nat) (minted : Minted) (loaded : result ConfigError (QssStorageConfig * option PathBuf)) (cli : Cli) : CM Z :=
  file ← M_lift (map_err ToolConfig loaded);
  if cl_re_pair cli then run_re_pair cli else
  casfs ← on_cn_store (open_for_fsck minted file.1 cli);
  report_and_repair fuel (mi_now minted) cli (context_of casfs (or_here (cl_meta_root cli))).

(** [main]: the code the process exits with. *)
Definition fsck_main `{HumanTime} (fuel : nat) (minted : Minted) (loaded : result ConfigError (QssStorageConfig * option PathBuf)) (cli : Cli)
    (c : Console) : Z * Console :=
  match fsck_run fuel minted loaded cli c with
  | (Ok code, c') => (code, c')
  | (Err _, c') => (EXIT_COULD_NOT_RUN, c')
  end.
End Tools.
