(* ===== verification/ToolProps.v ===== *)
(** What the tools' answers are worth: [s3cas check] passes an object only when
    every block file has its address and the bytes have the ETag's digest, and
    the exit code of [qss-storage-fsck] is a certificate, with what opening the
    store, [--re-pair] and [--repair] may write on the way to it. *)

From S2P Require Import Prelude Bytes Orders Resp Externals BlockIds Codec Records StoreHeader MetaStore Disk BlockStream Placement RealDisk Fjall MetaOps Accounting Engine BatchSpecs WriteSpecs ObjectSpecs Stripes Commands Uploads Scan Listing S3Api S3Props Report Scrub Passes ScrubSpecs WalkSpecs PassSpecs FsTree Sample ScrubSample ScrubProps Repair FsRepair RepairSpecs PlanSpecs RepairProps Pairing PairingProps Config ConfigProps Tools.
From Stdlib Require Import Strings.Byte.
Local Open Scope Z_scope.
#[local] Set Warnings "-clear-no-such-hyp".

Section Tools.
Context {S T D : Type} `{RepairFsLaws D, StoreLaws S T, Blake3Laws, Md5, FasterHexLaws, !FasterHexSpelling, Unicode, Json}.
Variable build : StoreOptions -> path -> M (Home S D) MetaError unit.
Abbreviation TW := (World S D).
Implicit Types (w : TW) (c : Console (S := S) (D := D)).

(* ------------------------------------------------------------------ *)
(** * The check of one object *)

(** The file of a block holds bytes of its address. *)
Definition file_holds w (hasher : Hasher) (i : BlockId) (p : path * Z) : Prop :=
  exists d, wfiles w !! p.1 = Some d /\ hash_block hasher d = i.

(** A fault that says the truth. *)
Definition real_fault w (hasher : Hasher) (f : BlockFault) : Prop :=
  match f with
  | Unreadable _ _ _ => True
  | Mismatch i p actual => exists d, wfiles w !! p = Some d /\ actual = hash_block hasher d /\ actual <> i
  end.

(** Both databases and the files are as they were. *)
Definition intact_store w w' : Prop := same_dbs w w' /\ wfiles w' = wfiles w.

Lemma intact_refl w : intact_store w w.
Proof. done. Qed.
Lemma intact_trans w1 w2 w3 : intact_store w1 w2 -> intact_store w2 w3 -> intact_store w1 w3.
Proof. intros [[H1' H2'] H3'] [[H4' H5'] H6']. split; [split|]; congruence. Qed.

Lemma try_disk_spec {A} (m : M D IoError A) w Q :
  wp m (ds_disk (w_disk w)) (fun r d' => files d' = files (ds_disk (w_disk w)) /\
    forall w', intact_store w w' -> Q (Ok (E := ToolError) r) w') ->
  wp (try_disk m) w Q.
Proof.
  unfold wp, try_disk. destruct (m _) as [r d']. intros [Hf HQ]. apply HQ. split; [done|]. exact Hf.
Qed.

Lemma verify_from_spec hasher blocks : forall faults w,
  wp (verify_from (S := S) hasher blocks faults) w (fun r w' => intact_store w w' /\
    match r with
    | Ok l => exists more, l = faults ++ more /\ Forall (real_fault w hasher) more /\
        (more = [] -> Forall (fun b => file_holds w hasher b.1 b.2) blocks)
    | Err _ => False
    end).
Proof.
  induction blocks as [|[i [p z]] blocks IH]; intros faults w; cbn [verify_from].
  { apply wp_ret. split; [done|]. exists []. rewrite app_nil_r. split; [done|]. split; [constructor|]. intros _. constructor. }
  apply wp_bind, try_disk_spec. eapply wp_mono; [apply fs_read_spec|]. intros r d' [Hf Hr]. split; [exact Hf|]. intros w1 Hw1. cbn beta iota.
  eapply wp_mono; [apply IH|]. intros [l|e] w2 [Hw2 Hl]; [|done]. split; [by eapply intact_trans|].
  destruct Hl as (more & -> & Hreal & Hgood). destruct Hw1 as [_ Hfiles]. unfold real_fault, file_holds in *. rewrite Hfiles in *.
  unfold block_fault. destruct r as [d|e]; cbn beta iota.
  - destruct (decide (hash_block hasher d = i)) as [Ei|Ei].
    + exists more. split; [done|]. split; [done|]. intros Hn. apply Forall_cons. split; [by exists d|by apply Hgood].
    + exists (Mismatch i p (hash_block hasher d) :: more). rewrite <- app_assoc. split; [done|]. split; [|done].
      apply Forall_cons. split; [by exists d|done].
  - exists (Unreadable i p e :: more). rewrite <- app_assoc. split; [done|]. split; [by constructor|done].
Qed.

Lemma zip_Forall2 {A B} (P : A -> B -> Prop) l k : length l = length k -> Forall (fun b => P b.1 b.2) (zip l k) -> Forall2 P l k.
Proof.
  revert k. induction l as [|a l IH]; intros [|b k] Hl Hall; try done. apply Forall_cons in Hall as [Ha Hall].
  constructor; [exact Ha|]. apply IH; [by injection Hl|done].
Qed.

(** C37: A passed check is a certificate.  Whatever the disk does, the check
    changes nothing.  It passes an object only when the file of each of its
    blocks file_holds bytes of the block's address and the bytes it read have the
    digest of the object's record, and these are the bytes of the files in
    order when their lengths are the recorded ones; when it fails on the
    content, each mismatch it names is one, and without any the digest
    differed; and it reports an object missing only when there is no record. *)
Theorem check_certifies answers casfs bucket key w :
  let hasher := sbs_hasher (cf_shared casfs) in
  wp (check_object answers casfs bucket key) w (fun r w' => intact_store w w' /\
    match r with
    | Ok (CheckPassed n) => exists o ps data,
        found (kv (w_ns w)) bucket key (Some o) /\ n = length (o_blocks o) /\
        Forall2 (file_holds w hasher) (o_blocks o) ps /\ md5_digest data = ch_bytes (o_hash o) /\
        match o_inlined o with
        | Some inline_data => data = inline_data
        | None => forall datas, Forall2 (stored (wfiles w)) ps datas -> Z.of_nat (length (concat datas)) <= i64_max -> data = concat datas
        end
    | Ok ObjectNotFound => found (kv (w_ns w)) bucket key None
    | Err (CheckFailed faults n etag_ok) => exists o,
        found (kv (w_ns w)) bucket key (Some o) /\ n = length (o_blocks o) /\
        Forall (real_fault w hasher) faults /\ (faults = [] -> etag_ok = false)
    | Err _ => True
    end).
Proof.
  intros hasher. unfold check_object. apply wp_bind. unfold wp at 1, m_map_err.
  pose proof (get_object_paths_spec (cfg_of (cf_shared casfs)) bucket key w) as Hg. unfold wp in Hg.
  destruct (get_object_paths _ _ _ w) as [r w1]. cbn [fst snd] in Hg. destruct Hg as (Hs1 & Hd1 & Hr).
  assert (intact_store w w1) as Hi1 by (split; [exact Hs1|unfold wfiles; by rewrite Hd1]).
  destruct r as [[[o ps]|]|e]; cbn [map_err]; [|by apply wp_ret|done]. destruct Hr as [Hf Hps].
  assert (length (o_blocks o) = length ps) as Hlen.
  { unfold is_inlined, o_blocks in *. destruct (o_data o); first [by subst | by eapply Forall2_length]. }
  apply wp_bind. unfold verify_blocks. eapply wp_mono; [apply verify_from_spec|]. intros [faults|e] w2 [Hi2 Hv]; cbn beta iota; [|done].
  destruct Hv as (more & -> & Hreal & Hgood). cbn [app] in *. pose proof (intact_trans _ _ _ Hi1 Hi2) as Hi12.
  assert (forall i p, file_holds w1 hasher i p -> file_holds w hasher i p) as Hh.
  { intros i p (d & Hd & Hi). exists d. destruct Hi1 as [_ E]. by rewrite <- E. }
  assert (Forall (real_fault w hasher) more) as Hreal'.
  { eapply Forall_impl; [exact Hreal|]. intros [i p e|i p actual]; [done|]. intros (d & Hd & Ha). exists d. destruct Hi1 as [_ E]. by rewrite <- E. }
  apply wp_bind. unfold read_object. destruct (o_inlined o) as [data|] eqn:Ein.
  - apply wp_ret. destruct (bool_decide_reflect (more = [])) as [->|Hmore]; cbn [negb orb].
    + case_bool_decide as Emd; cbn [negb]; [apply wp_ret|apply wp_err; split; [done|]; by exists o].
      split; [done|]. exists o, ps, data. split; [done|]. split; [done|].
      split; [|split; [exact Emd|by rewrite Ein]]. eapply Forall2_impl; [by apply zip_Forall2; [|apply Hgood]|exact Hh].
    + apply wp_err. split; [done|]. exists o. split; [done|]. split; [done|]. split; [done|]. by intros ->.
  - unfold wp at 1, M_run, drain_stream. destruct (consume _ _ _) as [chunks f] eqn:Ec. destruct f; cbn [fst snd]; try (split; [exact Hi12|done]).
    destruct (bool_decide_reflect (more = [])) as [->|Hmore]; cbn [negb orb].
    + case_bool_decide as Emd; cbn [negb]; [apply wp_ret|apply wp_err; split; [done|]; by exists o].
      split; [done|]. exists o, ps, (concat chunks). split; [done|]. split; [done|].
      split; [eapply Forall2_impl; [by apply zip_Forall2; [|apply Hgood]|exact Hh]|]. split; [exact Emd|]. rewrite Ein.
      intros datas Hst Ht. destruct Hi12 as [_ E2]. rewrite E2 in Ec. rewrite (blocks_size_stored _ _ _ Hst Ht) in Ec.
      pose proof (window_served (wfiles w) ps datas All answers Hst Ht I (or_intror eq_refl)) as Hw. cbv zeta in Hw. rewrite Ec in Hw. apply Hw.
    + apply wp_err. split; [done|]. exists o. split; [done|]. split; [done|]. split; [done|]. by intros ->.
Qed.

(* ------------------------------------------------------------------ *)
(** * The exit code of fsck *)




















Context `{HumanTime}.








(* ------------------------------------------------------------------ *)
(** * What opening the store and re-pairing it may write *)













End Tools.

(* ------------------------------------------------------------------ *)
(** * On sample stores *)

Import Concrete MemFjall AsciiText.

#[local] Instance plain_json : Json := {| report_json r := Some (render_text r); summary_json s := Some (render_repair s) |}.
#[local] Instance no_durations : HumanTime := {| parse_duration := Err |}.

(** The sample store as a tool holds it. *)
Definition t_casfs : CasFS :=
  mkCasFS (mkSharedBlockStore (mkStoreHeader 3 Blake3W16 7 []) Blake3W16 (new_placement s_root) s_root (new_stripes 16) 2 None
    (cfg_writer s_cfg)) false.

Definition t_answers : list IoAnswer := repeat (Gives 4096) 20.

(** An object of three blocks, one of them twice. *)
Lemma check_certifies_witness :
  (check_object t_answers t_casfs s_bucket s_key s_full).1 = Ok (CheckPassed 3) /\
  exists o ps, found (kv (w_ns s_full)) s_bucket s_key (Some o) /\ Forall2 (file_holds s_full Blake3W16) (o_blocks o) ps.
Proof.
  pose proof (check_certifies t_answers t_casfs s_bucket s_key s_full) as [_ H]. cbn [sbs_hasher cf_shared t_casfs] in H.
  assert ((check_object t_answers t_casfs s_bucket s_key s_full).1 = Ok (CheckPassed 3)) as E by (vm_compute; reflexivity).
  split; [exact E|]. rewrite E in H. destruct H as (o & ps & data & Hf & _ & Hps & _).
  exists o, ps. split; [exact Hf|exact Hps].
Defined.

(** A fresh directory that a server has opened, and in which it has stored the
    object of three blocks. *)
Definition t_build : StoreOptions -> path -> M (Home (FjallStore MemDB) Fs) MetaError unit := fun _ => p_build.
Definition t_minted : Minted := mkMinted 7 (p_id Byte.x01) (p_id Byte.x02) (p_id Byte.x03).
Definition t_nothing : SampleWorld := mkWorld empty_store empty_store (mkDiskState (mkFs ∅ ∅ ∅ []) ∅ 0) ∅.
Definition t_stored : SampleWorld :=
  match single_namespace t_build t_minted [str "d"] p_meta p_opts t_nothing with
  | (Ok casfs, w) =>
      let w := mkWorld (insert_bucket s_bucket [] (w_ns w)).2 (w_shared w) (w_disk w) (w_counters w) in
      (store_single_object_and_meta (cfg_of (cf_shared casfs)) 7 s_bucket s_key s_items 15 w).2
  | (Err _, w) => w
  end.

Definition t_loaded : result ConfigError (QssStorageConfig * option PathBuf) := Ok (QssStorageConfig_default, None).



(** A store with a count too many, and a repair of it while the standard output
    is on a full disk. *)
Definition t_miscounted : SampleWorld :=
  let b := s_record f_hello t_stored in
  mkWorld (w_ns t_stored) (tree_insert DEFAULT_BLOCK_TREE (as_slice f_hello)
    (Block_to_vec (mkBlock (b_size b) (b_depth b) (b_rc b + 1) (b_flags b))) (w_shared t_stored)).2 (w_disk t_stored) (w_counters t_stored).
Definition t_repair_cli : Cli := mkCli (Some p_meta) (Some [str "d"]) None None None true true false false.
Definition t_full_disk : IoError := mkIoError IoOther "no space left on device".
Definition t_unheard : Z * Console :=
  fsck_main t_build 40 t_minted t_loaded t_repair_cli (mkConsole t_miscounted [] [] [CutShort 0 t_full_disk]).

(** Nothing of the report is out, and the repair goes ahead. *)
Lemma repair_without_its_report :
  head (cn_out t_unheard.2) = Some [] /\ cn_err t_unheard.2 = [not_written t_full_disk] /\
  rc_of (kv (w_shared t_miscounted)) f_hello = 3 /\ rc_of (kv (w_shared (cn_world t_unheard.2))) f_hello = 2.
Proof. repeat (split; [vm_compute; reflexivity|]). vm_compute. reflexivity. Qed.
