(* ===== verification/Connection.v ===== *)
(** Opening a respcas store ([Storage::new], respcas/src/storage.rs) and serving
    one connection to its end ([process] and [Session::run],
    respcas/src/server.rs).

    A connection is the list of what its reads return, the empty read and an
    error being the two ways a socket ends, and the list that says which writes
    to it fail.  The commands between two reads are Handlers.v's
    [serve_buffered_frames]. *)

From S2P Require Import Prelude Bytes Resp Externals BlockIds Codec Records StoreHeader MetaStore Commands Disk BlockStream Placement MetaOps Accounting Engine BatchSpecs Stripes Namespaces Handlers Scrub Pairing Config Tools.
From stdpp Require Import pretty.
From Stdlib Require Import Strings.Byte.
Local Open Scope Z_scope.
#[local] Set Warnings "-clear-no-such-hyp,-register-all".

(* ------------------------------------------------------------------ *)
(** * Opening the store *)

Definition FJALL_VERSION_MARKER : bytes := str "version".
Definition DB_DIR_NAME : bytes := str "db".
Definition BLOCKS_DIR_NAME : bytes := str "blocks".

Section Opening.
Context {S T D : Type} `{Store S T, BlockDiskOps D, !StdFs D, !ScrubFs D, !DiskView D, Blake3, Md5, FasterHex, Msgpack, Unicode}.
Abbreviation NM := (M (RespWorld S D) NsErr).
Variable build : StoreOptions -> path -> M (Home S D) MetaError unit.
Variable fuel : nat.

(** [Storage::db_path]: a store from before ADR 0014 has fjall's own files in
    the data directory. *)
Definition db_path (data_dir : path) (d : D) : path :=
  let legacy := is_file (data_dir ++ [FJALL_VERSION_MARKER]) d && negb (is_dir (data_dir ++ [DB_DIR_NAME]) d) in
  if legacy then data_dir else data_dir ++ [DB_DIR_NAME].

(** A call on the shared block store's half of the world. *)
Definition on_shared_half {A} (m : M (Home S (DiskState D)) MetaError A) : NM A := fun rw =>
  let w := rw_world rw in
  let '(r, h) := m (mkHome (w_shared w) (w_disk w)) in
  (map_err StorageMeta r, mkRespWorld (mkWorld (w_ns w) (h_store h) (h_disk h) (w_counters w)) (rw_cache rw)).

(** [Storage::new], with [CasFS::over_namespace] in what it returns. *)
Definition Storage_new (minted : Minted) (data_dir : path) (opts : StoreOptions) : NM RespCfg := fun rw =>
  let db_path := db_path data_dir (ds_disk (w_disk (rw_world rw))) in
  (_ ← on_home (open_or_create (mi_now minted) (mi_namespace_id minted) db_path (spec_of_hasher (opt_hasher opts)) (build opts));
   let blocks := data_dir ++ [BLOCKS_DIR_NAME] in
   shared ← on_shared_half (open_store (mi_now minted) (mi_blocks_id minted) (mi_pair_id minted) (build opts) blocks blocks opts);
   _ ← adopt_usage_ledger (mkEnv (mi_now minted) 0 [] fuel);
   mret (mkRespCfg (cfg_of shared) db_path data_dir
           (default META_DEFAULT_INLINED_METADATA_SIZE (opt_inline_metadata_size opts)) (opt_verify_on_read opts))) rw.
End Opening.

(* ------------------------------------------------------------------ *)
(** * A connection *)

Section Connection.
Context {S T D : Type} `{Store S T, BlockDiskOps D, DiskView D, StdFs D, Blake3, Md5, FasterHex, Msgpack, Unicode}.
Context (rcfg : RespCfg) (env : Env) (show : NsErr -> string) (show_command_error : CommandError -> string).
Context (decode : bytes -> result string (option (Frame * nat))) (show_resp_error : RespError -> string).
Abbreviation RW := (RespWorld S D).

Definition serve_read (s : Session) (buffer : bytes) (writes : list bool) (rw : RW) :=
  serve_buffered_frames rcfg env show show_command_error decode show_resp_error s buffer writes rw.

(** Why the loop is where it is: reading on, the client gone, a value refused,
    or one of [SessionEnd]. *)
Inductive Ending : Type :=
| Reading (buffer : bytes)
| Disconnected
| TooLarge (declared : Z)
| Ended (e : SessionEnd).

(** The reply to a value over the cap. *)
Definition too_large (declared cap : Z) : Frame :=
  FError ("ERR value of " ++ pretty declared ++ " bytes is over the " ++ pretty cap ++ " byte limit (resp.max_value_size)").

(** What a last reply comes to: nothing if its write fails. *)
Definition last_reply (response : Frame) (writes : list bool) : list Frame :=
  match writes with false :: _ => [] | _ => [response] end.

(** [Session::run]: the replies written, the session, the world and how it
    ended. *)
Fixpoint session_run (cap : Z) (s : Session) (buffer : bytes) (reads : list (result IoError bytes)) (writes : list bool) (rw : RW) :
    list Frame * Session * RW * Ending :=
  match reads with
  | [] => ([], s, rw, Reading buffer)
  | Ok [] :: _ => ([], s, rw, Disconnected)
  | Err _ :: _ => ([], s, rw, Disconnected)
  | Ok chunk :: reads =>
      let buffer := buffer ++ chunk in
      match oversized_bulk buffer cap with
      | Some declared => (last_reply (too_large declared cap) writes, s, rw, TooLarge declared)
      | None =>
          let '(replies, s, rw, served) := serve_read s buffer writes rw in
          match served with
          | Err e => (replies, s, rw, Ended e)
          | Ok consumed =>
              let '(more, s, rw, e) := session_run cap s (drop consumed buffer) reads (drop (length replies) writes) rw in
              (replies ++ more, s, rw, e)
          end
      end
  end.

(** [process] *)
Definition process (admin_password : option bytes) (cap : Z) (reads : list (result IoError bytes)) (writes : list bool) (rw : RW) :
    result NsErr (list Frame * Session * Ending) * RW :=
  match new_session admin_password rw with
  | (Err e, rw) => (Err e, rw)
  | (Ok s, rw) => let '(replies, s, rw, e) := session_run cap s [] reads writes rw in (Ok (replies, s, e), rw)
  end.
End Connection.
