(* ===== verification/ConnectionProps.v ===== *)
(** What a connection of respcas (Connection.v) comes to does not depend on how
    the network cut its bytes up, the size guard apart; and where a store's
    metadata database is. *)

From S2P Require Import Prelude Bytes Resp Externals BlockIds Codec Records StoreHeader MetaStore Commands Disk BlockStream Placement RealDisk Fjall MetaOps Accounting Engine BatchSpecs Stripes Namespaces Handlers Sample RespSample Scrub Pairing PairingProps Config Tools Connection.
From Stdlib Require Import Strings.Byte.
Local Open Scope Z_scope.
#[local] Set Warnings "-clear-no-such-hyp,-register-all".

(** The decoder reads a stream: a frame is what the bytes it consumes say,
    whatever follows, and what cannot begin a frame never will. *)
Class DecodeLaws (decode : bytes -> result string (option (Frame * nat))) : Prop := {
  decode_frame b f n t : decode b = Ok (Some (f, n)) -> (0 < n <= length b)%nat /\ decode (b ++ t) = Ok (Some (f, n));
  decode_error b e t : decode b = Err e -> incomplete e = false -> decode (b ++ t) = Err e
}.

(* ------------------------------------------------------------------ *)
(** * Parsing a stream *)

Lemma position_app x l t n : Resp.position x l = Some n -> Resp.position x (l ++ t) = Some n /\ (n < length l)%nat.
Proof.
  revert n. induction l as [|b l IH]; intros n Hn; cbn in *; [done|]. case_decide; [injection Hn as <-; split; [done|lia]|].
  destruct (Resp.position x l) as [m|]; [|done]. injection Hn as <-. destruct (IH m eq_refl) as [-> Hm]. split; [done|lia].
Qed.

Lemma position_late x l t : Resp.position x l = None -> Resp.position x (l ++ t) = option_map (Nat.add (length l)) (Resp.position x t).
Proof.
  induction l as [|b l IH]; intros Hl; cbn in *; [by destruct (Resp.position x t)|]. case_decide; [done|].
  destruct (Resp.position x l); [done|]. rewrite IH by done. by destruct (Resp.position x t).
Qed.

(** A line that is there is the same line when more follows. *)
Lemma parse_inline_app b t :
  match parse_inline b with
  | Ok (Some (args, len)) => (0 < len <= length b)%nat /\ parse_inline (b ++ t) = Ok (Some (args, len))
  | Ok None => True
  | Err e => parse_inline (b ++ t) = Err e
  end.
Proof.
  unfold parse_inline. destruct (Resp.position x0a b) as [n|] eqn:Ep.
  - destruct (position_app _ _ t _ Ep) as [-> Hn]. destruct (_ <? _); [done|]. rewrite take_app_le by lia.
    destruct (split_args _) as [args|e]; cbn; [|done]. split; [lia|done].
  - destruct (Z.ltb_spec INLINE_MAX_SIZE (Z.of_nat (length b))) as [Hl|]; [|done]. rewrite (position_late _ _ _ Ep).
    destruct (Resp.position x0a t) as [m|]; cbn.
    + by rewrite (proj2 (Z.ltb_lt _ _)) by lia.
    + by rewrite (proj2 (Z.ltb_lt _ _)) by (rewrite length_app; lia).
Qed.

Definition shifted {E A} (k : nat) (r : result E (A * nat)) : result E (A * nat) :=
  match r with Ok (a, n) => Ok (a, (k + n)%nat) | Err e => Err e end.

Lemma shifted_shifted {E A} j k (r : result E (A * nat)) : shifted j (shifted k r) = shifted (j + k) r.
Proof. destruct r as [[a n]|e]; cbn; [|done]. by rewrite Nat.add_assoc. Qed.

Section Stream.
Context (decode : bytes -> result string (option (Frame * nat))) `{DecodeLaws decode}.
Abbreviation parse := (parse_frame decode).

(** What the first frame of a non-empty buffer is, one blank line at a time. *)
Definition parse_step (b : bytes) (first : byte) : result RespError (option Frame * nat) :=
  if bool_decide (first ∈ FRAME_MARKERS) then
    match decode b with
    | Ok (Some (frame, len)) => Ok (Some frame, len)
    | Ok None => Ok (None, O)
    | Err e => if incomplete e then Ok (None, O) else Err (Protocol e)
    end
  else
    match parse_inline b with
    | Err e => Err e
    | Ok None => Ok (None, O)
    | Ok (Some ([], len)) => shifted len (parse (drop len b))
    | Ok (Some (args, len)) => Ok (Some (Array (map BulkString args)), len)
    end.

Lemma parse_from_moved m : forall fuel b c, (c <= length b)%nat -> (length b - c <= m)%nat -> (length b - c < fuel)%nat ->
  parse_from decode fuel b c = shifted c (parse (drop c b)).
Proof.
  induction m as [m IH] using lt_wf_ind. intros [|fuel] b c Hc Hm Hf; [lia|]. unfold parse_frame at 1.
  cbn [parse_from]. rewrite drop_0. destruct (drop c b) as [|first r] eqn:Ed; [cbn; by rewrite Nat.add_0_r|].
  assert (length (first :: r) = length b - c)%nat as El by (by rewrite <- Ed, length_drop).
  destruct (bool_decide _).
  { destruct (decode _) as [[[f len]|]|e]; cbn; [done|by rewrite Nat.add_0_r|]. destruct (incomplete e); cbn; [by rewrite Nat.add_0_r|done]. }
  pose proof (parse_inline_app (first :: r) []) as Hi.
  destruct (parse_inline (first :: r)) as [[[args len]|]|e]; cbn [mbind result_bind]; [|cbn; by rewrite Nat.add_0_r|done].
  destruct Hi as [Hlen _]. destruct args as [|a args]; [|done].
  rewrite (IH (length b - (c + len))%nat ltac:(lia) fuel b (c + len)%nat) by lia.
  cbn [Nat.add]. rewrite (IH (length b - (c + len))%nat ltac:(lia) _ (first :: r) len) by lia.
  rewrite shifted_shifted, <- Ed, drop_drop. done.
Qed.

Lemma parse_eq b : parse b = match b with [] => Ok (None, O) | first :: _ => parse_step b first end.
Proof.
  destruct b as [|first r]; [done|]. unfold parse_frame at 1. cbn [parse_from drop]. unfold parse_step.
  destruct (bool_decide _); [done|]. pose proof (parse_inline_app (first :: r) []) as Hi.
  destruct (parse_inline (first :: r)) as [[[args len]|]|e]; cbn [mbind result_bind]; [|done..].
  destruct args as [|a args]; [|done]. destruct Hi as [Hlen _].
  cbn [Nat.add]. apply (parse_from_moved (length (first :: r))); cbn [length] in *; lia.
Qed.

(** More bytes do not change what was read, and what was not read is read as
    if it had come with them. *)
Lemma parse_app b t :
  match parse b with
  | Ok (Some f, n) => (0 < n <= length b)%nat /\ parse (b ++ t) = Ok (Some f, n)
  | Ok (None, k) => (k <= length b)%nat /\ parse (b ++ t) = shifted k (parse (drop k b ++ t))
  | Err e => parse (b ++ t) = Err e
  end.
Proof.
  remember (length b) as m eqn:Em. revert b Em. induction m as [m IH] using lt_wf_ind. intros b Em.
  rewrite (parse_eq b). destruct b as [|first r].
  { split; [lia|]. cbn [app drop]. by destruct (parse t) as [[o n]|e]. }
  assert ((0 <= m)%nat /\ parse ((first :: r) ++ t) = shifted 0 (parse (drop 0 (first :: r) ++ t))) as Hnone.
  { split; [lia|]. rewrite drop_0. by destruct (parse _) as [[o n]|e]. }
  assert (parse ((first :: r) ++ t) = parse_step ((first :: r) ++ t) first) as Et by apply (parse_eq ((first :: r) ++ t)).
  unfold parse_step in Et |- *. destruct (bool_decide _).
  - destruct (decode (first :: r)) as [[[f len]|]|e] eqn:Ed; [|exact Hnone|].
    + destruct (decode_frame _ _ _ t Ed) as [Hlen Ha]. rewrite Ha in Et. split; [lia|exact Et].
    + destruct (incomplete e) eqn:Ei; [exact Hnone|]. rewrite (decode_error _ _ t Ed Ei), Ei in Et. exact Et.
  - pose proof (parse_inline_app (first :: r) t) as Hi.
    destruct (parse_inline (first :: r)) as [[[args len]|]|e]; [|exact Hnone|rewrite Hi in Et; exact Et].
    destruct Hi as [Hlen Ha]. rewrite Ha in Et. destruct args as [|a args]; [|split; [lia|exact Et]].
    specialize (IH (length (drop len (first :: r))) ltac:(rewrite length_drop; lia) _ eq_refl).
    rewrite length_drop in IH. rewrite drop_app_le in Et by lia.
    destruct (parse (drop len (first :: r))) as [[[f|] n]|e] eqn:Ep; cbn [shifted].
    + destruct IH as [Hn IH]. rewrite IH in Et. split; [lia|exact Et].
    + destruct IH as [Hn IH]. rewrite IH, shifted_shifted, drop_drop in Et. split; [lia|exact Et].
    + rewrite IH in Et. exact Et.
Qed.

(** What is left of a buffer holds no frame and no blank line. *)
Lemma parse_rest b k : parse b = Ok (None, k) -> parse (drop k b) = Ok (None, O).
Proof.
  intros Hp. pose proof (parse_app b []) as Ha. rewrite app_nil_r, Hp in Ha. destruct Ha as [_ Ha]. rewrite app_nil_r in Ha.
  destruct (parse (drop k b)) as [[o n]|e]; [|discriminate Ha]. injection Ha as <- Hn. assert (n = O) as -> by lia. reflexivity.
Qed.
End Stream.

(* ------------------------------------------------------------------ *)
(** * Serving a stream *)

Section Served.
Context {S T D : Type} `{Store S T, BlockDiskOps D, DiskView D, StdFs D, Blake3, Md5, FasterHex, Msgpack, Unicode}.
Context (rcfg : RespCfg) (env : Env) (show : NsErr -> string) (show_command_error : CommandError -> string).
Context (decode : bytes -> result string (option (Frame * nat))) `{!DecodeLaws decode} (show_resp_error : RespError -> string).
Abbreviation RW := (RespWorld S D).
Abbreviation serve := (serve_read rcfg env show show_command_error decode show_resp_error).
Abbreviation serves := (serve_frames rcfg env show show_command_error decode show_resp_error).
Abbreviation answers := (dispatch rcfg env show show_command_error).
Abbreviation run := (session_run rcfg env show show_command_error decode show_resp_error).
Abbreviation parse := (parse_frame decode).
Abbreviation Served := (list Frame * Session * RW * result SessionEnd nat)%type.

(** A result counted from [k] bytes further on, and one after other replies. *)
Definition moved (k : nat) (r : Served) : Served :=
  let '(l, s, rw, e) := r in (l, s, rw, match e with Ok n => Ok (k + n)%nat | Err x => Err x end).
Definition after {E} (l : list Frame) (r : list Frame * Session * RW * E) : list Frame * Session * RW * E :=
  let '(l', s, rw, e) := r in (l ++ l', s, rw, e).

Lemma moved_moved j k r : moved j (moved k r) = moved (j + k) r.
Proof. destruct r as [[[l s] rw] [n|e]]; cbn; [|done]. by rewrite Nat.add_assoc. Qed.
Lemma moved_after k l r : moved k (after l r) = after l (moved k r).
Proof. by destruct r as [[[l' s] rw] e]. Qed.
Lemma moved_0 r : moved 0 r = r.
Proof. by destruct r as [[[l s] rw] [n|e]]. Qed.
Lemma after_after {E} l l' (r : list Frame * Session * RW * E) : after l (after l' r) = after (l ++ l') r.
Proof. destruct r as [[[l'' s] rw] e]; cbn. by rewrite app_assoc. Qed.

Lemma serves_moved m : forall fuel s b p w rw, (p <= length b)%nat -> (length b - p <= m)%nat -> (length b - p < fuel)%nat ->
  serves fuel s b p w rw = moved p (serve s (drop p b) w rw).
Proof.
  induction m as [m IH] using lt_wf_ind. intros [|fuel] s b p w rw Hp Hm Hf; [lia|].
  unfold serve_read, serve_buffered_frames. rewrite length_drop. cbn [serve_frames]. rewrite length_drop, drop_0.
  destruct (Nat.leb_spec (length b) p), (Nat.leb_spec (length b - p) 0); [cbn; by rewrite Nat.add_0_r|lia..|].
  pose proof (parse_app decode (drop p b) []) as Ha. rewrite length_drop in Ha.
  destruct (parse (drop p b)) as [[[f|] len]|e] eqn:Ep; [|done|by destruct w as [|[]]].
  destruct Ha as [Hlen _]. destruct (answers s f rw) as [[response s'] rw']. destruct w as [|[] w]; cbn [tail]; [| |done].
  all: rewrite (IH (length b - (p + len))%nat ltac:(lia) fuel s' b (p + len)%nat) by lia; cbn [Nat.add].
  all: rewrite (IH (length b - (p + len))%nat ltac:(lia) _ s' (drop p b) len) by (rewrite ?length_drop; lia).
  all: rewrite drop_drop; destruct (serve s' (drop (p + len) b) _ rw') as [[[l s''] rw''] [n|e]]; cbn; [|done]; by rewrite Nat.add_assoc.
Qed.

Lemma serve_nil s w rw : serve s [] w rw = ([], s, rw, Ok O).
Proof. done. Qed.

(** One frame after the other. *)
Lemma serve_eq s b w rw : b <> [] -> serve s b w rw =
  match parse b with
  | Ok (Some f, len) =>
      let '(response, s', rw') := answers s f rw in
      match w with
      | false :: _ => ([], s', rw', Err WriteFailed)
      | _ => after [response] (moved len (serve s' (drop len b) (tail w) rw'))
      end
  | Ok (None, k) => ([], s, rw, Ok k)
  | Err e => match w with
             | false :: _ => ([], s, rw, Err WriteFailed)
             | _ => ([FError ("ERR " ++ show_resp_error e)], s, rw, Err ProtocolError)
             end
  end.
Proof.
  intros Hb. unfold serve_read at 1, serve_buffered_frames. cbn [serve_frames]. rewrite drop_0.
  destruct (Nat.leb_spec (length b) 0) as [Hl|Hl]; [destruct b; [done|cbn in Hl; lia]|].
  pose proof (parse_app decode b []) as Ha. destruct (parse b) as [[[f|] len]|e]; [|done..]. destruct Ha as [Hlen _].
  destruct (answers s f rw) as [[response s'] rw']. destruct w as [|[] w]; [| |done].
  all: cbn [Nat.add]; rewrite (serves_moved (length b)) by lia; by destruct (moved _ _) as [[[l s''] rw''] e].
Qed.
(** What is left over is no more than was there, and serving it again does
    nothing. *)
Lemma serve_bounds s b w rw : match serve s b w rw with
  | (l, s', rw', Ok c) => (c <= length b)%nat /\ forall w', serve s' (drop c b) w' rw' = ([], s', rw', Ok O)
  | _ => True
  end.
Proof.
  remember (length b) as m eqn:Em. revert s b w rw Em. induction m as [m IH] using lt_wf_ind. intros s b w rw Em.
  destruct (decide (b = [])) as [->|Hb]; [by split; [lia|]|]. rewrite serve_eq by done.
  pose proof (parse_app decode b []) as Ha. destruct (parse b) as [[[f|] len]|e] eqn:Ep.
  - destruct Ha as [Hlen _]. destruct (answers s f rw) as [[response s'] rw'].
    destruct w as [|[] w]; [| |done]; (pose proof (IH (length (drop len b)) ltac:(rewrite length_drop; lia) s' (drop len b)) as Hi; cbn [tail]).
    all: match goal with |- context [moved _ (serve ?s ?b ?w ?r)] => specialize (Hi w r eq_refl); destruct (serve s b w r) as [[[l s''] rw''] [c|x]] end.
    all: cbn; try done. all: rewrite length_drop in Hi; destruct Hi as [Hc Hi]; split; [lia|]; intros w'; rewrite <- drop_drop; exact (Hi w').
  - destruct Ha as [Hk _]. split; [lia|]. intros w'. destruct (decide (drop len b = [])) as [->|Hd]; [done|].
    by rewrite serve_eq, (parse_rest decode _ _ Ep) by done.
  - by destruct w as [|[] w].
Qed.

(** Serving in two goes. *)
Definition then_serve (r : Served) (b t : bytes) (w : list bool) : Served :=
  match r with
  | (l, s, rw, Ok c) => after l (moved c (serve s (drop c b ++ t) (drop (length l) w) rw))
  | (l, s, rw, Err x) => (l, s, rw, Err x)
  end.

Lemma serve_app s b t w rw : serve s (b ++ t) w rw = then_serve (serve s b w rw) b t w.
Proof.
  remember (length b) as m eqn:Em. revert s b w rw Em. induction m as [m IH] using lt_wf_ind. intros s b w rw Em.
  destruct (decide (b = [])) as [->|Hb].
  { cbn [app]. rewrite serve_nil. cbn [then_serve drop app length]. rewrite moved_0. rewrite drop_0. by destruct (serve s t w rw) as [[[l s'] rw'] e]. }
  assert (b ++ t <> []) as Hbt by (by destruct b). rewrite (serve_eq s b), (serve_eq s (b ++ t)) by done.
  pose proof (parse_app decode b t) as Ha. destruct (parse b) as [[[f|] len]|e] eqn:Ep.
  - destruct Ha as [Hlen Ha]. rewrite Ha. destruct (answers s f rw) as [[response s'] rw'].
    rewrite drop_app_le by lia. specialize (IH (length (drop len b)) ltac:(rewrite length_drop; lia) s' (drop len b)).
    destruct w as [|[] w]; [| |done]; cbn [tail]; rewrite IH by done.
    all: match goal with |- context [then_serve (serve ?s ?b ?w ?r)] => destruct (serve s b w r) as [[[l s''] rw''] [c|x]] end; [|done].
    all: cbn [then_serve moved after app length]; rewrite drop_drop, moved_after, moved_moved.
    + rewrite !drop_nil. by destruct (moved _ _) as [[[l' s3] rw3] e].
    + cbn [drop]. by destruct (moved _ _) as [[[l' s3] rw3] e].
  - destruct Ha as [Hk Ha]. cbn [then_serve length]. rewrite Ha, drop_0. destruct (decide (drop len b ++ t = [])) as [E|Hd].
    { rewrite E, serve_nil. cbn. by rewrite Nat.add_0_r. }
    rewrite (serve_eq s (drop len b ++ t)) by done. replace (drop len b ++ t) with (drop len (b ++ t)) by (by rewrite drop_app_le).
    destruct (parse (drop len (b ++ t))) as [[[f|] n]|e]; cbn [shifted]; [|done|by destruct w as [|[] w]].
    destruct (answers s f rw) as [[response s'] rw']. destruct w as [|[] w]; cbn [tail]; [| |done].
    all: by rewrite drop_drop, moved_after, after_after, moved_moved.
  - rewrite Ha. by destruct w as [|[] w].
Qed.
(** How a run compares with serving all its bytes at once: [all k] is what has
    arrived with the first [k] reads. *)
Definition framed (cap : Z) s (all : nat -> bytes) (n : nat) (closed : bool) (w : list bool) rw
    (r : list Frame * Session * RW * Ending) : Prop :=
  match r with
  | (l, s', rw', Reading rest) => closed = false /\ exists c, serve s (all n) w rw = (l, s', rw', Ok c) /\ rest = drop c (all n)
  | (l, s', rw', Disconnected) => closed = true /\ exists c, serve s (all n) w rw = (l, s', rw', Ok c)
  | (l, s', rw', Ended x) => serve s (all n) w rw = (l, s', rw', Err x)
  | (l, s', rw', TooLarge declared) =>
      exists k c l0, (k < n)%nat /\ serve s (all k) w rw = (l0, s', rw', Ok c) /\
        l = l0 ++ last_reply (too_large declared cap) (drop (length l0) w) /\
        oversized_bulk (drop c (all (Datatypes.S k))) cap = Some declared
  end.

(** Reads that go on with a chunk that is served. *)
Lemma framed_after cap s buf chunk chunks closed w rw l s1 rw1 c r :
  serve s (buf ++ chunk) w rw = (l, s1, rw1, Ok c) ->
  framed cap s1 (fun k => drop c (buf ++ chunk) ++ concat (take k chunks)) (length chunks) closed (drop (length l) w) rw1 r ->
  framed cap s (fun k => buf ++ concat (take k (chunk :: chunks))) (length (chunk :: chunks)) closed w rw (after l r).
Proof.
  intros E Hr. pose proof (serve_bounds s (buf ++ chunk) w rw) as Hb. rewrite E in Hb. destruct Hb as [Hc _].
  assert (forall k, buf ++ concat (take (Datatypes.S k) (chunk :: chunks)) = (buf ++ chunk) ++ concat (take k chunks)) as Eall.
  { intros k. cbn [take concat]. by rewrite app_assoc. }
  assert (forall k, serve s (buf ++ concat (take (Datatypes.S k) (chunk :: chunks))) w rw =
    after l (moved c (serve s1 (drop c (buf ++ chunk) ++ concat (take k chunks)) (drop (length l) w) rw1))) as Es.
  { intros k. by rewrite Eall, serve_app, E. }
  assert (forall k c', drop c' (drop c (buf ++ chunk) ++ concat (take k chunks)) = drop (c + c') (buf ++ concat (take (Datatypes.S k) (chunk :: chunks)))) as Ed.
  { intros k c'. by rewrite Eall, <- drop_app_le, drop_drop. }
  unfold framed in *. cbn [length]. destruct r as [[[l' s'] rw'] [rest| |d|x]]; cbn [after].
  - destruct Hr as (-> & c' & Hs & ->). split; [done|]. exists (c + c')%nat. by rewrite Es, Hs, Ed.
  - destruct Hr as (-> & c' & Hs). split; [done|]. exists (c + c')%nat. by rewrite Es, Hs.
  - destruct Hr as (k & c' & l0 & Hk & Hs & -> & Ho). exists (Datatypes.S k), (c + c')%nat, (l ++ l0). split; [lia|].
    rewrite Es, Hs. split; [done|]. rewrite <- Ed. split; [|exact Ho]. by rewrite length_app, <- drop_drop, app_assoc.
  - by rewrite Es, Hr.
Qed.

Lemma run_framed cap chunks : forall s buf close w rw,
  Forall (fun c => c <> []) chunks -> match close with Ok (_ :: _) :: _ => False | _ => True end ->
  (forall w', serve s buf w' rw = ([], s, rw, Ok O)) ->
  framed cap s (fun k => buf ++ concat (take k chunks)) (length chunks) (negb (bool_decide (close = []))) w rw
    (run cap s buf (map Ok chunks ++ close) w rw).
Proof.
  induction chunks as [|chunk chunks IH]; intros s buf close w rw Hne Hclose Hset.
  - cbn [map app length framed take concat]. destruct close as [|[[|b read]|e] close]; cbn [session_run framed]; [| |done|].
    + split; [done|]. exists O. by rewrite app_nil_r, Hset.
    + split; [done|]. exists O. by rewrite app_nil_r.
    + split; [done|]. exists O. by rewrite app_nil_r.
  - apply Forall_cons in Hne as [Hc Hne]. destruct chunk as [|x chunk]; [done|]. cbn [map app session_run].
    destruct (oversized_bulk _ cap) as [d|] eqn:Eo.
    { cbn [framed length]. exists O, O, []. split; [lia|]. cbn [take concat]. rewrite !app_nil_r. by rewrite Hset. }
    destruct (serve s (buf ++ x :: chunk) w rw) as [[[l s1] rw1] [c|e]] eqn:E.
    + pose proof (serve_bounds s (buf ++ x :: chunk) w rw) as Hb. rewrite E in Hb. destruct Hb as [_ Hset'].
      specialize (IH s1 (drop c (buf ++ x :: chunk)) close (drop (length l) w) rw1 Hne Hclose Hset').
      pose proof (framed_after _ _ _ _ _ _ _ _ _ _ _ _ _ E IH) as Hf. by destruct (run _ _ _ _ _ _) as [[[l' s'] rw'] e'].
    + cbn [framed length take concat]. rewrite app_assoc, firstn_all, serve_app, E. done.
Qed.

(** C27: A connection of respcas does not depend on how the network cuts its
    bytes up.  Whatever the chunks its reads return, its replies, its session
    and the store are those of serving all the bytes from one buffer, and what
    is kept for the next read is the unserved rest of them; or a value over the
    cap was declared at the head of an unserved rest, and then the refusal
    follows exactly the replies to what was served before it, the store is as
    those commands left it, and the connection ends. *)
Theorem connection_ignores_framing cap s chunks close writes rw :
  Forall (fun c => c <> []) chunks -> match close with Ok (_ :: _) :: _ => False | _ => True end ->
  match run cap s [] (map Ok chunks ++ close) writes rw with
  | (replies, s', rw', Reading rest) =>
      close = [] /\ exists consumed, serve s (concat chunks) writes rw = (replies, s', rw', Ok consumed) /\ rest = drop consumed (concat chunks)
  | (replies, s', rw', Disconnected) => close <> [] /\ exists consumed, serve s (concat chunks) writes rw = (replies, s', rw', Ok consumed)
  | (replies, s', rw', Ended e) => serve s (concat chunks) writes rw = (replies, s', rw', Err e)
  | (replies, s', rw', TooLarge declared) =>
      exists k consumed served, (k < length chunks)%nat /\
        serve s (concat (take k chunks)) writes rw = (served, s', rw', Ok consumed) /\
        replies = served ++ last_reply (too_large declared cap) (drop (length served) writes) /\
        oversized_bulk (drop consumed (concat (take (Datatypes.S k) chunks))) cap = Some declared
  end.
Proof.
  intros Hne Hclose. pose proof (run_framed cap chunks s [] close writes rw Hne Hclose (fun w' => serve_nil s w' rw)) as Hf.
  unfold framed in Hf. rewrite firstn_all in Hf. destruct (run _ _ _ _ _ _) as [[[l s'] rw'] [rest| |d|x]]; cbn [app] in Hf.
  - destruct Hf as [Hc Hf]. split; [|exact Hf]. by apply negb_false_iff, bool_decide_eq_true in Hc.
  - destruct Hf as [Hc Hf]. split; [|exact Hf]. by apply negb_true_iff, bool_decide_eq_false in Hc.
  - exact Hf.
  - exact Hf.
Qed.
End Served.

(* ------------------------------------------------------------------ *)
(** * On a sample connection *)

Import Concrete MemFjall AsciiText.

(** A decoder of commands: an array of bulk strings, and nothing else. *)
Fixpoint bulk_frames (count : nat) (b : bytes) (pos : nat) : option (list Frame * nat) :=
  match count with
  | O => Some ([], pos)
  | S count =>
      if decide (b !! pos = Some x24) then
        header ← read_len_line b (pos + 1);
        let '(len, start) := header in
        if (len <? 0) || (length b <? start + Z.to_nat len + 2)%nat then None
        else
          rest ← bulk_frames count b (start + Z.to_nat len + 2);
          Some (BulkString (take (Z.to_nat len) (drop start b)) :: rest.1, rest.2)
      else None
  end.

Definition decode_commands (b : bytes) : result string (option (Frame * nat)) :=
  if decide (head b = Some x2a) then
    Ok (header ← read_len_line b 1; frames ← bulk_frames (Z.to_nat header.1) b header.2; Some (Array frames.1, frames.2))
  else match b with [] => Ok None | _ => Err "not an array"%string end.

Lemma read_len_line_app b pos n p t : read_len_line b pos = Some (n, p) ->
  (pos < p <= length b)%nat /\ read_len_line (b ++ t) pos = Some (n, p).
Proof.
  unfold read_len_line. destruct (Nat.ltb_spec (length b) pos) as [|Hp]; [done|].
  destruct (Resp.position x0a (drop pos b)) as [nl|] eqn:Ep; [|done]. cbn [mbind option_bind].
  destruct (position_app _ _ t _ Ep) as [Ep' Hnl]. rewrite length_drop in Hnl.
  intros Hv. assert ((length (b ++ t) <? pos)%nat = false) as -> by (apply Nat.ltb_ge; rewrite length_app; lia).
  rewrite drop_app_le, Ep' by done. cbn [mbind option_bind]. rewrite take_app_le by (rewrite length_drop; lia).
  rewrite Hv. destruct (parse_i64 _); [|done]. injection Hv as <- <-. split; [lia|done].
Qed.

Lemma bulk_frames_app count : forall b pos fs e t, bulk_frames count b pos = Some (fs, e) -> (pos <= length b)%nat ->
  (pos <= e <= length b)%nat /\ bulk_frames count (b ++ t) pos = Some (fs, e).
Proof.
  induction count as [|count IH]; intros b pos fs e t Hb Hp; cbn [bulk_frames] in *; [by injection Hb as <- <-|].
  destruct (decide (b !! pos = Some x24)) as [Hd|]; [|done]. rewrite decide_True by (by apply lookup_app_l_Some).
  destruct (read_len_line b (pos + 1)) as [[len start]|] eqn:El; [|done]. destruct (read_len_line_app _ _ _ _ t El) as [Hs ->].
  cbn [mbind option_bind] in *. destruct (len <? 0); [done|]. cbn [orb] in *.
  destruct (Nat.ltb_spec (length b) (start + Z.to_nat len + 2)); [done|].
  rewrite (proj2 (Nat.ltb_ge _ _)) by (rewrite length_app; lia).
  destruct (bulk_frames count b _) as [[rest e']|] eqn:Er; [|done]. cbn in Hb. injection Hb as <- <-.
  destruct (IH _ _ _ _ t Er) as [He ->]; [lia|]. split; [lia|]. cbn. rewrite drop_app_le by lia. by rewrite take_app_le by (rewrite length_drop; lia).
Qed.

#[local] Instance decode_commands_laws : DecodeLaws decode_commands.
Proof.
  split.
  - intros b f n t Hd. unfold decode_commands in *. destruct (decide (head b = Some x2a)) as [Hh|]; [|by destruct b].
    rewrite decide_True by (by destruct b). destruct (read_len_line b 1) as [[len p]|] eqn:El; [|done].
    destruct (read_len_line_app _ _ _ _ t El) as [Hp ->]. cbn [mbind option_bind fst snd] in *.
    destruct (bulk_frames _ b p) as [[fs e]|] eqn:Eb; [|done]. cbn in Hd. injection Hd as <- <-.
    destruct (bulk_frames_app _ _ _ _ _ t Eb) as [He ->]; [lia|]. split; [lia|done].
  - intros b e t Hd _. unfold decode_commands in *. destruct b as [|x b]; [done|]. cbn [head app] in *. by case_decide.
Qed.

Definition c_session : Session := mkSession r_plain false (mkHandler r_plain false true) None.
Definition c_show (e : CommandError) : string := "bad command".
Definition c_resp (e : RespError) : string := "bad frame".
Definition c_run (cap : Z) (reads : list (result IoError bytes)) : list Frame * Ending :=
  let '(replies, _, _, e) := session_run r_cfg r_env r_show c_show decode_commands c_resp cap c_session [] reads [] r_world in (replies, e).

Definition c_ping : bytes := encode_cmd [str "PING"].
Definition c_set : bytes := encode_cmd [str "SET"; str "key"; str "12345678"].

(** A SET cut in the middle of its value. *)
Lemma connection_ignores_framing_witness :
  let reads := [c_ping ++ take 30 c_set; drop 30 c_set] in
  exists replies s' rw' consumed,
    serve_read r_cfg r_env r_show c_show decode_commands c_resp c_session (c_ping ++ c_set) [] r_world = (replies, s', rw', Ok consumed) /\
    (c_run 64 (map Ok reads)).1 = replies /\ length replies = 2%nat.
Proof.
  cbv zeta. set (reads := [c_ping ++ take 30 c_set; drop 30 c_set]).
  pose proof (connection_ignores_framing r_cfg r_env r_show c_show decode_commands c_resp 64 c_session reads [] [] r_world
    ltac:(unfold reads; apply (bool_decide_unpack _); vm_compute; exact I) I) as H.
  rewrite app_nil_r in H. unfold c_run.
  assert (concat reads = c_ping ++ c_set) as Ec by (vm_compute; reflexivity).
  assert (match session_run r_cfg r_env r_show c_show decode_commands c_resp 64 c_session [] (map Ok reads) [] r_world with
    | (replies, _, _, Reading _) => (length replies =? 2)%nat
    | _ => false
    end = true) as Ev by (vm_compute; reflexivity).
  destruct (session_run _ _ _ _ _ _ _ _ _ _ _ _) as [[[replies s'] rw'] [rest| |d|e]]; [|discriminate Ev..].
  destruct H as [_ (consumed & Hs & _)]. rewrite Ec in Hs. exists replies, s', rw', consumed.
  split; [exact Hs|]. split; [reflexivity|]. apply Nat.eqb_eq. exact Ev.
Defined.

(** A value over the cap is refused when its command is the first of what has
    arrived, and stored when it came whole behind another one. *)
Lemma pipelined_value_passes_the_cap :
  c_run 4 [Ok c_ping; Ok c_set] = ([SimpleString (str "PONG"); too_large 8 4], TooLarge 8) /\
  c_run 4 [Ok (c_ping ++ c_set)] = ([SimpleString (str "PONG"); ok_frame], Reading []).
Proof. split; vm_compute; reflexivity. Qed.

(** Neither is an inline command ever measured. *)
Lemma inline_value_passes_the_cap :
  c_run 4 [Ok (str "SET key 12345678" ++ [x0d; x0a])] = ([ok_frame], Reading []).
Proof. vm_compute. reflexivity. Qed.

(** A fresh data directory opens, and opens again where it was made. *)
Definition c_minted : Minted := mkMinted 7 (p_id x01) (p_id x02) (p_id x03).
Definition c_build (p : path) : M (Home (FjallStore MemDB) Fs) MetaError unit := fun h =>
  p_build p (mkHome (h_store h) (create_dir_all p (h_disk h)).2).
Definition c_open : M SampleResp NsErr RespCfg := Storage_new (fun _ => c_build) 16 c_minted [str "data"] p_opts.
Definition c_fresh : SampleResp := mkRespWorld (mkWorld empty_store empty_store (mkDiskState (mkFs ∅ ∅ ∅ []) ∅ 0) ∅) ∅.

Lemma storage_reopens :
  match c_open c_fresh with
  | (Ok made, rw) => match c_open rw with
                     | (Ok found, _) => bool_decide (rc_db_path made = [str "data"; DB_DIR_NAME] /\ rc_db_path found = rc_db_path made)
                     | _ => false
                     end
  | _ => false
  end = true.
Proof. vm_compute. reflexivity. Qed.
